(* ===== verification/_CoqProject ===== *)
-Q . S2P
Prelude.v
Text.v
CachedData.v
IndexationState.v
DataProcessor.v
Writers.v
Conversions.v
Calendar.v
SqlText.v
DataDumper.v
Dumpers.v
BatchPipeline.v
LiveFlush.v
LiveFlushRefinement.v
ContainerWriters.v
Collector.v
Serializer.v
WriteAheadLog.v
WalRefinement.v
WalRecovery.v
LiveThread.v
TransactionControllers.v
Pipeline.v
Vacuum.v
IndexBuilds.v
IndexShutdown.v
QueryHandlers.v
HookChain.v
IndexController.v
Plugin.v
AssetIds.v
Jcs.v
Jsonb.v
CopyRows.v
JsonbServer.v
OperationType.v
RcDelegation.v
AllAccounts.v
Utilities.v
WitnessProperties.v
BodyFilter.v
SqlCatalog.v
CompositeTypes.v
CompositeValues.v
OperationCasts.v
CopyFormat.v
Relations.v
RelationNames.v
Sessions.v
Configuration.v
ServerFunctions.v
ForkManager.v
ContextRewind.v
