(* ===== verification/Prelude.v ===== *)
(** * HAF: verification of the serializer and of the extension's library

    HAF copies the blocks of a Hive node into PostgreSQL.  A plugin of the node, the
    serializer ([src/src/sql_serializer]), collects rows from the chain's notifications and
    writes them, in bulk while the node replays or catches up and block by block when it is
    live; an extension of the server ([src/src/hive_fork_manager]) keeps reversible and
    irreversible blocks apart for applications, with a C++ library
    ([hive_fork_manager/shared_lib]) for the operations' SQL type.  A second extension
    ([src/src/query_supervisor] on [src/src/psql_utils]) limits the queries of users.

    This file is the prelude: integers of a width, outcomes and the state monad with
    exceptions ([ST], notation [let*] and [;;;]), binary search, bits, sorted lists.

    ** Files and sources

    The path of a row through the serializer, in order:
    - Collector: [accounts_collector], [filter_collector], [blockchain_data_filter]: which
      accounts an operation is recorded for, and under which sequence number.
    - Plugin: the start of [sql_serializer.cpp]: options, signals, replay of the log, start
      of the fork manager, initialisation of the database, reindex and shutdown; Serializer:
      its handlers for blocks, transactions and operations, which fill the cache.
    - CachedData: [cached_data.h], [sql_serializer_objects.hpp]: the rows, the cache, moving
      the rows of a range of blocks, the snapshot of sizes.
    - IndexationState: [indexation_state.cpp]: the states (waiting, reindex, p2p, live), the
      dumper and flush trigger of each, the handlers of chain events.
    - DataDumper: the interface [data_dumper.h] as a type class with its laws; Dumpers: the
      live and the replay dumper as its instances ([livesync_data_dumper.cpp],
      [reindex_data_dumper.cpp], [end_massive_sync_processor.cpp]).
    - AllAccounts: [all_accounts_dumper.cpp], the dump when a run starts from a snapshot.
    - Writers: [block_num_rendezvous_trigger.cpp], [chunks_for_writers_spillter.h],
      [container_data_writer.h], [data_container_view.h]; DataProcessor:
      [data_processor.cpp], a thread behind a bounded queue; ContainerWriters: the members of
      containers, splitters and processors with a connection
      ([queries_commit_data_processor.cpp], [string_data_processor.cpp]) over any processor.
    - The writers as threads: BatchPipeline, the batches of a replay; LiveFlush, a live flush
      with its caller; LiveFlushRefinement, the live flush with the rows and callbacks of the
      seven tables ([livesync_data_dumper.cpp]).
    - Conversions, Calendar, SqlText: [pqxx_conversions.hpp], [data_2_sql_tuple_base.cpp],
      [tables_descriptions.h/.cpp], [strip_json_null_escapes.cpp]: values as text.  Text has
      the formatted input and output of the C++ library they use.  CopyRows: the rows of
      COPY ([write_row_to_stream], [string_traits]) and the columns they fill.
    - WriteAheadLog: [write_ahead_log.cpp] on a directory of files; WalRefinement: the log as
      a list of records; WalRecovery: the processing thread of the live dumper and the
      replay of the log at start ([sql_serializer.cpp]), with crashes; LiveThread: the same
      thread and its callers with mutex, condition variable, full queue and shutdown, and
      the notifications the dumper is connected to ([livesync_data_dumper.cpp]).
    - TransactionControllers: [transaction_controllers.cpp] over an arbitrary server.
    - Pipeline: the composition, from the notifications to the database.

    Maintenance threads: IndexController (connection strings, commands, monitor loop),
    IndexBuilds (threads that create indexes), IndexShutdown (cancelling and joining them)
    and Vacuum (requests and lock timeouts) model [indexes_controler.cpp],
    [indexes_interruptor.cpp] and [vacuum_cleaner.cpp].  BodyFilter is the tool
    [op_body_filter.cpp] around the filter of operations.

    The server's side: QueryHandlers models [psql_utils/query_handler] and
    [query_supervisor/query_handlers.cpp], HookChain the construction and destruction of the
    handlers with the hook pointers of the process; AssetIds, Jcs, RcDelegation model
    [asset_unique_id.cpp], [l2_jcs.cpp], [rc_delegation.cpp]; Jsonb models [to_jsonb.cpp] and
    [from_jsonb.cpp] as functions on descriptions of the protocol's types, JsonbServer is an
    instance of its interfaces; OperationType models [operation_base.cpp],
    [operation_conversion.cpp], [svstream.cpp] and [pg_cxx.hpp]; Utilities models the
    functions of [utilities.cpp] that collect data of operations and check signatures,
    ServerFunctions its functions of asset symbols and keys with [wait_for_new_block.cpp],
    [vacuum_shadow_table.cpp] and [operation_id.cpp]; WitnessProperties models
    [extract_set_witness_properties.cpp].  Operations as composite types
    ([operation_types.cpp]): SqlCatalog has the declarations of the SQL types,
    CompositeTypes the overloads that form datums, CompositeValues how the server reads
    them, OperationCasts the casts.  The wrappers of libpq and of the server
    ([pq_utils], [psql_utils]): Sessions (clients, transactions, SPI sessions and their
    iterators), CopyFormat (COPY sessions and the fields of tuples), Relations and RelationNames
    (columns, values and their text), Configuration (options, and those of [query_supervisor]).

    Of the SQL the commands of the live dumper run: ForkManager models [push_block],
    [push_block_lite], [back_from_fork] and [set_irreversible] ([hived_api.sql],
    [hived_api_impl.sql]) with the keys and references of the tables ([reversible_blocks.sql],
    [irreversible_blocks.sql]) and the view of the blocks; ContextRewind models the triggers and the shadow table of an
    application's table and its rewinding ([context_rewind]).

    ** How code becomes definitions

    A class is a record, a method a function of it; methods that may throw are in [ST] (the
    state survives an exception) or return [outcome].  Threads are step relations: the
    steps are critical sections (DataProcessor, Writers, BatchPipeline, LiveFlush,
    WalRecovery, LiveThread) or statements sent to the server (IndexBuilds), and the theorems
    quantify over every interleaving.  The server, the clock, the file system's answers and the
    hive and fc submodules are parameters; what is assumed of them is a hypothesis or the law of a class, with an
    instance in the file's Examples module.  Integers are [Z] with the conversions of the
    source ([u32], [i32], [wrap_s]); overflow is kept where the source can reach it.

    ** What the theorems show

    - No row is lost or repeated: flushing conserves the rows (IndexationState), the writers
      of a batch copy exactly the cache whatever their number (Writers, Dumpers), the
      collector and the serializer number operations without gaps, the dump of accounts has
      one row per account; Pipeline: what the live notifications asked for is what the
      database executed, across crashes and restarts, but for the commands a restart gives up
      while the database has no sequence number.
    - Replay and live agree: the fields of COPY and the SQL tuple of a row fill the same declared
      columns, and the server reads the same values from them, the bodies of operations apart
      (CopyRows).
    - The start: the log is replayed, then the fork manager informed, before any block; the
      database is prepared once (Plugin).  A statement the server cancels counts as executed and
      asks the node to stop.
    - The state machine: every sequence of notifications, up to the end of a replay that stops at
      its block, is handled without an assertion failing, and live is reached with nothing left
      behind.
    - The log refines a list of records: storing appends, or throws and leaves at most a part of a
      record; completing drops whole files of committed records, replaying visits the records after
      a position, opening recovers the log of complete files and throws on a torn one.
    - Threads: the rendezvous fires once per batch and in order, and only when every writer
      has written its part of the batch (BatchPipeline); a live flush returns while the processing
      thread takes commands, with the command of the flush without threads (LiveFlush,
      LiveFlushRefinement); a join drains the queue and terminates, the live queue drains unless its
      thread dies, an index marked as being created has an owner as long as clean-ups are executed,
      a second build of a table completes.
    - Transactions are atomic as long as the connection holds, and a loss commits exactly the
      statements from the interrupted one on; commands of the index controller commit once unless
      the server cancels them; skipped vacuums wait longer, within
      a bound.
    - Round trips and equivalences of formats: records of the log, packed operations, base58
      keys, dates, escaped SQL, asset identifiers, canonical JSON, operations as JSONB,
      tuples of a COPY; a cast to a composite type gives the row of the operation; the order
      of the SQL type is total; RC delegations are all or nothing.
    - A function of the extension answers with rows or an error, no exception leaves it, and
      every item is one row; the digest of a second-layer transaction is one of its value; a
      wait for a block gives the snapshot up and takes it back on every path.
    - The supervision of a root query ends with it, and the tuples of its last fetch are counted; the installed
      hooks run the handlers in order, and unloading restores the hooks.
    - The tables of the extension follow the chain through forks without violating a key or a
      reference, in lite mode through new blocks (ForkManager), and a table
      of an application is restored when its context goes back (ContextRewind).
    - Findings, proved as theorems of their own: sequence numbers left in the database after
      the log is deleted, commands lost before the first commit, statements split over two
      transactions by a lost connection, an index build forgotten after a lost connection, a
      limit reached after a caught error, the RECEIVE function losing a byte, the accounts
      table not truncated, batches that never end with more than 255 writers of a table, a
      cancelled start that counts as done, a limit evaded by fetching in pieces, an invalid index
      recorded as created, and others listed in the manifest.

    ** Scope of the theorems on crashes and connections

    A crash falls between two critical sections: records of the log are then whole; what a record
    cut short does is stated by [torn_file_throws] and the second parts of [wal_open_recovers] and
    [restart_recovers].  The clock does not go back (see [clock_back_misorders_files]), the log is
    not deleted between runs (see [stale_sequence_number_loses_command]), and the transaction of
    the processing thread is atomic, which [lost_connection_splits_transaction] shows to be more
    than the transaction controller gives.

    ** Fuel

    Loops that are not structural have fuel their callers compute, and lemmas that it is
    enough: halving searches ([length l]), printing of numbers (20 digits for 64 bits, 40
    for 128), the bytes or characters left to read, the batches of a queue ([turns_left],
    [worker_runs_leaves]; [run_until_empty]), the blocks in the cache ([lite_flush_loop],
    [flush_all_data_to_reversible]), the serial numbers left ([serial_fuel]).

    ** Not modelled

    The protocol and fc libraries (submodules), pqxx, libpq and the server, which are
    parameters; logging and statistics; conversions from text
    that nothing calls; the macros of [exceptions.hpp]; the rest of the SQL and PL/pgSQL of
    the extension (massive synchronisation, indexes, lite schema, pruning, registration of
    tables, the loop and the contexts of applications); applications, scripts and tests. *)

From Stdlib Require Import ZArith Lia Ascii String.
From stdpp Require Import base list strings gmap sorting.

Open Scope Z_scope.

Create HintDb haf discriminated.

(** ** Machine integers

    The C++ sources use [int16_t], [int32_t], [uint32_t], [int64_t] and
    [uint64_t].  Every value is a [Z]; the conversion a C++ expression performs
    (modular for unsigned targets, two's complement for signed ones) is written
    where the source has it. *)

Definition wrap_u (w z : Z) : Z := z mod 2 ^ w.
Definition wrap_s (w z : Z) : Z := (z + 2 ^ (w - 1)) mod 2 ^ w - 2 ^ (w - 1).

Definition u32 (z : Z) : Z := wrap_u 32 z.
Definition u64 (z : Z) : Z := wrap_u 64 z.
Definition i16 (z : Z) : Z := wrap_s 16 z.
Definition i32 (z : Z) : Z := wrap_s 32 z.
Definition i64 (z : Z) : Z := wrap_s 64 z.

Definition INT32_MAX : Z := 2147483647.
Definition UINT32_MAX : Z := 4294967295.

Lemma wrap_u_small w z : 0 <= z < 2 ^ w -> wrap_u w z = z.
Proof. intros. unfold wrap_u. apply Z.mod_small. lia. Qed.

Lemma wrap_u_range w z : 0 <= w -> 0 <= wrap_u w z < 2 ^ w.
Proof. intros. unfold wrap_u. apply Z.mod_pos_bound. lia. Qed.

Lemma wrap_s_small w z : 0 < w -> - 2 ^ (w - 1) <= z < 2 ^ (w - 1) -> wrap_s w z = z.
Proof.
  intros Hw Hz. unfold wrap_s.
  assert (2 ^ w = 2 * 2 ^ (w - 1)) as E.
  { rewrite <- Z.pow_succ_r by lia. f_equal. lia. }
  rewrite Z.mod_small by lia. lia.
Qed.

Lemma u32_small z : 0 <= z <= UINT32_MAX -> u32 z = z.
Proof. intros. apply wrap_u_small. unfold UINT32_MAX in *. lia. Qed.

Lemma u32_range z : 0 <= u32 z <= UINT32_MAX.
Proof. pose proof (wrap_u_range 32 z). unfold u32, UINT32_MAX. lia. Qed.

Lemma i32_small z : - INT32_MAX - 1 <= z <= INT32_MAX -> i32 z = z.
Proof. intros. apply wrap_s_small; unfold INT32_MAX in *; lia. Qed.

(** ** Outcomes of fallible code

    [FC_ASSERT], [FC_THROW] and [throw] become [Throw]; a C++ exception leaves
    the members already modified as they are, so the state is returned in both
    cases. *)

Inductive outcome (E A : Type) : Type :=
| Ok (a : A)
| Throw (e : E).
Arguments Ok {E A} _.
Arguments Throw {E A} _.

#[global] Instance outcome_eq_dec E A `{EqDecision E, EqDecision A} :
  EqDecision (outcome E A).
Proof. solve_decision. Defined.

#[global] Instance outcome_ret E : MRet (outcome E) := fun A a => Ok a.
#[global] Instance outcome_bind E : MBind (outcome E) := fun A B f m =>
  match m with Ok a => f a | Throw e => Throw e end.

(** [FC_ASSERT( b )] outside of stateful code. *)
Definition o_assert {E} (b : bool) (e : E) : outcome E unit := if b then Ok tt else Throw e.

Lemma outcome_bind_inv {E A B} (m : outcome E A) (f : A -> outcome E B) b :
  m ≫= f = Ok b -> exists a, m = Ok a /\ f a = Ok b.
Proof. destruct m; naive_solver. Qed.

(** A state monad with exceptions; the state survives an exception. *)
Definition ST (S E A : Type) : Type := S -> outcome E A * S.

Definition st_ret {S E A} (a : A) : ST S E A := fun s => (Ok a, s).
Definition st_throw {S E A} (e : E) : ST S E A := fun s => (Throw e, s).
Definition st_bind {S E A B} (m : ST S E A) (k : A -> ST S E B) : ST S E B :=
  fun s => match m s with
           | (Ok a, s') => k a s'
           | (Throw e, s') => (Throw e, s')
           end.
Definition st_get {S E} : ST S E S := fun s => (Ok s, s).
Definition st_put {S E} (s : S) : ST S E unit := fun _ => (Ok tt, s).
Definition st_modify {S E} (f : S -> S) : ST S E unit := fun s => (Ok tt, f s).
Definition st_gets {S E A} (f : S -> A) : ST S E A := fun s => (Ok (f s), s).

Declare Scope haf_scope.
Delimit Scope haf_scope with haf.
Notation "'let*' x ':=' m 'in' k" := (st_bind m (fun x => k))
  (at level 10, x binder, m at level 100, k at level 200) : haf_scope.
Notation "m ';;;' k" := (st_bind m (fun _ => k))
  (at level 110, right associativity) : haf_scope.

Definition st_when {S E} (b : bool) (m : ST S E unit) : ST S E unit :=
  if b then m else st_ret tt.

(** [FC_ASSERT( cond, ... )] *)
Definition st_assert {S E} (b : bool) (e : E) : ST S E unit :=
  if b then st_ret tt else st_throw e.

(** A stateless computation inside a stateful one. *)
Definition st_lift {S E A} (m : outcome E A) : ST S E A := fun s => (m, s).

Lemma st_bind_ok {S E A B} (m : ST S E A) (k : A -> ST S E B) s a s' :
  m s = (Ok a, s') -> st_bind m k s = k a s'.
Proof. intros H. unfold st_bind. by rewrite H. Qed.

Lemma st_bind_inv {S E A B} (m : ST S E A) (k : A -> ST S E B) s b s' :
  st_bind m k s = (Ok b, s') ->
  exists a s1, m s = (Ok a, s1) /\ k a s1 = (Ok b, s').
Proof. unfold st_bind. destruct (m s) as [[a|e] s1] eqn:E1; naive_solver. Qed.

(** ** [std::lower_bound] and [std::upper_bound]

    Both are the same halving loop over a predicate that is true on a prefix:
    [len > 0] probes [first + len / 2] and continues right of it when the
    predicate holds there, left of it otherwise.  [len] at least halves at each
    turn, so [length l] turns are enough. *)

Section partition_point.
  Context {A : Type} (p : A -> bool).

Fixpoint bsearch_go (l : list A) (fuel first len : nat) : nat :=
  match fuel with
  | O => first
  | S fuel' =>
      match len with
      | O => first
      | _ =>
          let half := Nat.div2 len in
          let mid := (first + half)%nat in
          match l !! mid with
          | Some x =>
              if p x then bsearch_go l fuel' (S mid) (len - half - 1)%nat
              else bsearch_go l fuel' first half
          | None => first
          end
      end
  end.

Definition partition_point (l : list A) : nat := bsearch_go l (length l) 0 (length l).

(** The prefix-then-suffix shape that makes the search meaningful. *)
Definition partitioned (l : list A) : Prop :=
  exists l1 l2, l = l1 ++ l2 /\ Forall (fun x => p x = true) l1 /\ Forall (fun x => p x = false) l2.

Lemma bsearch_go_spec l1 l2 fuel first len :
  Forall (fun x => p x = true) l1 -> Forall (fun x => p x = false) l2 ->
  (len <= fuel)%nat -> (first <= length l1 <= first + len)%nat ->
  (first + len <= length (l1 ++ l2))%nat ->
  bsearch_go (l1 ++ l2) fuel first len = length l1.
Proof.
  intros H1 H2. revert first len.
  induction fuel as [|fuel IH]; intros first len Hf Hb Hl; [simpl; lia|].
  simpl. destruct len as [|len]; [lia|].
  pose proof (Nat.div2_decr (S len) len ltac:(lia)) as Hd.
  set (half := Nat.div2 (S len)) in *.
  destruct ((l1 ++ l2) !! (first + half)%nat) as [x|] eqn:Ex.
  2: { apply lookup_ge_None in Ex. lia. }
  destruct (decide (first + half < length l1)%nat) as [Hlt|Hge].
  - rewrite lookup_app_l in Ex by done.
    rewrite (Forall_lookup_1 _ _ _ _ H1 Ex). apply IH; lia.
  - rewrite lookup_app_r in Ex by lia.
    rewrite (Forall_lookup_1 _ _ _ _ H2 Ex). apply IH; lia.
Qed.

Lemma partition_point_app l1 l2 :
  Forall (fun x => p x = true) l1 -> Forall (fun x => p x = false) l2 ->
  partition_point (l1 ++ l2) = length l1.
Proof. intros. apply bsearch_go_spec; rewrite ?length_app; auto; lia. Qed.

(** On a partitioned range the search separates exactly what [p] separates. *)
Lemma partition_point_take l :
  partitioned l -> take (partition_point l) l = filter (fun x => p x = true) l.
Proof.
  intros (l1 & l2 & -> & H1 & H2). rewrite partition_point_app by done.
  rewrite take_app_length, filter_app.
  assert (filter (fun x => p x = true) l1 = l1) as ->.
  { clear H2. induction H1; [done|]. rewrite filter_cons_True; congruence. }
  assert (filter (fun x => p x = true) l2 = []) as ->.
  { clear H1. induction H2; [done|]. rewrite filter_cons_False; congruence. }
  by rewrite app_nil_r.
Qed.

Lemma partition_point_drop l :
  partitioned l -> drop (partition_point l) l = filter (fun x => p x = false) l.
Proof.
  intros (l1 & l2 & -> & H1 & H2). rewrite partition_point_app by done.
  rewrite drop_app_length, filter_app.
  assert (filter (fun x => p x = false) l1 = []) as ->.
  { clear H2. induction H1; [done|]. rewrite filter_cons_False; congruence. }
  clear H1. induction H2 as [|x l2 Hx _ IH]; [done|].
  rewrite filter_cons_True by done. simpl in *. by rewrite <- IH.
Qed.

End partition_point.

(** ** Bits *)

(** Fields that do not overlap. *)
Lemma lor_fields hi lo k : 0 <= k -> 0 <= lo < 2 ^ k -> Z.lor (hi * 2 ^ k) lo = hi * 2 ^ k + lo.
Proof.
  intros Hk Hlo. assert (Z.land (hi * 2 ^ k) lo = 0) as Hl.
  { apply Z.bits_inj'. intros i Hi. rewrite Z.land_spec, Z.bits_0. apply andb_false_iff.
    destruct (Z.lt_ge_cases i k); [left; by rewrite Z.mul_pow2_bits_low|right].
    rewrite <- (Z.mod_small lo (2 ^ k)) by done. apply Z.mod_pow2_bits_high. lia. }
  rewrite Z.add_nocarry_lxor by done. symmetry. by apply Z.lxor_lor.
Qed.

(** ** Lists *)

Lemma filter_all {A} (P : A -> Prop) `{!forall x, Decision (P x)} l : Forall P l -> filter P l = l.
Proof. induction 1 as [|x l Hx _ IH]; [done|]. rewrite filter_cons_True by done. by f_equal. Qed.

Lemma StronglySorted_app_r {A} (R : A -> A -> Prop) l1 l2 : StronglySorted R (l1 ++ l2) -> StronglySorted R l2.
Proof. induction l1; [done|]. intros H%StronglySorted_inv. tauto. Qed.

(** ** Lists ordered by an integer key *)

Section keyed.
  Context {A : Type} (key : A -> Z).

Definition key_sorted (l : list A) : Prop := StronglySorted (fun x y => key x <= key y) l.

Lemma key_sorted_app l1 l2 :
  key_sorted (l1 ++ l2) <->
  key_sorted l1 /\ key_sorted l2 /\ (forall x y, x ∈ l1 -> y ∈ l2 -> key x <= key y).
Proof.
  unfold key_sorted. induction l1 as [|a l1 IH]; simpl.
  - split; [intros H; repeat split; [constructor|done|set_solver]|tauto].
  - split.
    + intros H. apply StronglySorted_inv in H as [Hs Hf]. apply IH in Hs as (?&?&?).
      rewrite Forall_app in Hf. destruct Hf as [Hf1 Hf2]. repeat split; [by constructor|done|].
      intros x y [->|Hx]%list_elem_of_In Hy; [|apply H1; [by apply list_elem_of_In|done]].
      rewrite Forall_forall in Hf2. by apply Hf2.
    + intros (Hs & Hs2 & Hc). apply StronglySorted_inv in Hs as [Hs Hf]. constructor.
      * apply IH. repeat split; [done|done|]. intros. apply Hc; [by right|done].
      * apply Forall_app. split; [done|]. apply Forall_forall. intros. apply Hc; [left|done].
Qed.

Lemma key_sorted_snoc l x :
  key_sorted l -> Forall (fun y => key y <= key x) l -> key_sorted (l ++ [x]).
Proof.
  intros Hs Hf. apply key_sorted_app. repeat split; [done|repeat constructor|].
  intros a b Ha Hb. apply list_elem_of_singleton in Hb as ->. by eapply Forall_forall in Hf.
Qed.

Lemma key_sorted_partitioned_le n l :
  key_sorted l -> partitioned (fun x => key x <=? n) l.
Proof.
  unfold key_sorted. induction l as [|a l IH]; intros Hs.
  - exists [], []. repeat split; constructor.
  - apply StronglySorted_inv in Hs as [Hs Hf].
    destruct (key a <=? n) eqn:E.
    + destruct (IH Hs) as (l1 & l2 & -> & H1 & H2).
      exists (a :: l1), l2. repeat split; [by constructor|done].
    + exists [], (a :: l). repeat split; [constructor|]. constructor; [done|].
      eapply Forall_impl; [exact Hf|]. intros y Hy. simpl in *. lia.
Qed.

Lemma key_sorted_filter (P : A -> Prop) `{!forall x, Decision (P x)} l :
  key_sorted l -> key_sorted (filter P l).
Proof.
  unfold key_sorted. induction 1 as [|a l Hs IH Hf]; [constructor|].
  rewrite filter_cons. case_decide; [|done]. constructor; [done|].
  rewrite Forall_forall in *. intros y [_ Hy]%list_elem_of_filter. by apply Hf.
Qed.

End keyed.
