(* ===== verification/Text.v ===== *)
(** * Text: the formatted output and input the sources use

    [std::ostream << integer] with [std::setw]/[std::setfill], [std::to_string],
    and [std::istringstream >> word >> integer] in the "C" locale, on character
    lists.  Shared by the write-ahead log and by the code that builds SQL. *)

From S2P Require Import Prelude.
From Stdlib Require Import ZArith Lia Ascii String.
From stdpp Require Import base list strings gmap sorting.

Open Scope Z_scope.

Abbreviation chars := (list ascii) (only parsing).

Definition lit (s : string) : chars := list_ascii_of_string s.

Definition NL : ascii := "010"%char.
Definition NUL : ascii := "000"%char.
Definition SP : ascii := " "%char.

(** [std::isspace] in the "C" locale: space and [\t \n \v \f \r]. *)
Definition is_space (c : ascii) : bool :=
  let n := Z.of_N (N_of_ascii c) in (n =? 32) || ((9 <=? n) && (n <=? 13)).

Definition digit_char (d : Z) : ascii := ascii_of_N (Z.to_N (48 + d)).

Definition digit_of (c : ascii) : option Z :=
  let n := Z.of_N (N_of_ascii c) in
  if (48 <=? n) && (n <=? 57) then Some (n - 48) else None.

(** [std::string::operator<]: bytes compared as unsigned, a proper prefix is less. *)
Fixpoint chars_ltb (l1 l2 : chars) : bool :=
  match l1, l2 with
  | _, [] => false
  | [], _ => true
  | a :: l1', b :: l2' =>
      if (N_of_ascii a <? N_of_ascii b)%N then true
      else if (N_of_ascii b <? N_of_ascii a)%N then false
      else chars_ltb l1' l2'
  end.

Definition string_ltb (s1 s2 : string) : bool := chars_ltb (lit s1) (lit s2).

(** ** Printing *)

(** Least significant digit first into the accumulator, as integer printing does
    from the end of its buffer; 20 digits hold every 64-bit value. *)
Fixpoint dec_go (fuel : nat) (n : Z) (acc : chars) : chars :=
  match fuel with
  | O => acc
  | S fuel' =>
      let acc' := digit_char (n mod 10) :: acc in
      if n <? 10 then acc' else dec_go fuel' (n / 10) acc'
  end.

Definition dec (n : Z) : chars :=
  if n <? 0 then "-"%char :: dec_go 20 (- n) [] else dec_go 20 n [].

(** [std::setw( w ) << s] with the given fill, right-aligned. *)
Definition setw (w : nat) (fill : ascii) (s : chars) : chars :=
  replicate (w - length s) fill ++ s.

(** ** Reading *)

Fixpoint skip_ws (l : chars) : chars :=
  match l with
  | c :: l' => if is_space c then skip_ws l' else l
  | [] => []
  end.

Fixpoint span_word (l : chars) : chars * chars :=
  match l with
  | c :: l' => if is_space c then ([], l) else let '(w, r) := span_word l' in (c :: w, r)
  | [] => ([], [])
  end.

(** [>> std::string]: fails when no character is left after the white space. *)
Definition read_word (l : chars) : option (chars * chars) :=
  match span_word (skip_ws l) with
  | ([], _) => None
  | (w, r) => Some (w, r)
  end.

(** Digits from the left: the value accumulated, whether any was seen, the rest. *)
Fixpoint read_digits (acc : Z) (seen : bool) (l : chars) : Z * bool * chars :=
  match l with
  | c :: l' =>
      match digit_of c with
      | Some d => read_digits (acc * 10 + d) true l'
      | None => (acc, seen, l)
      end
  | [] => (acc, seen, [])
  end.

Definition read_sign (l : chars) : bool * chars :=
  match l with
  | c :: l' => if Ascii.eqb c "-" then (true, l')
               else if Ascii.eqb c "+" then (false, l') else (false, l)
  | [] => (false, l)
  end.

(** [>> int32_t]: [failbit] without digits or out of range. *)
Definition read_int32 (l : chars) : option (Z * chars) :=
  let '(neg, l1) := read_sign (skip_ws l) in
  let '(v, seen, r) := read_digits 0 false l1 in
  let z := if neg then - v else v in
  if seen && (- INT32_MAX - 1 <=? z) && (z <=? INT32_MAX) then Some (z, r) else None.

(** [>> uint32_t]: a minus sign negates modulo 2^32. *)
Definition read_uint32 (l : chars) : option (Z * chars) :=
  let '(neg, l1) := read_sign (skip_ws l) in
  let '(v, seen, r) := read_digits 0 false l1 in
  if seen && (v <=? UINT32_MAX) then Some (if neg then u32 (- v) else v, r) else None.

(** [strtol( s, nullptr, 10 )] on a 64-bit [long]: 0 without digits, saturating. *)
Definition strtol10 (l : chars) : Z :=
  let '(neg, l1) := read_sign (skip_ws l) in
  let '(v, _, _) := read_digits 0 false l1 in
  if neg then Z.max (- 2 ^ 63) (- v) else Z.min (2 ^ 63 - 1) v.

(** ** Printing and reading back *)

Lemma digit_of_digit_char d : 0 <= d <= 9 -> digit_of (digit_char d) = Some d.
Proof.
  intros Hd. assert (d = 0 \/ d = 1 \/ d = 2 \/ d = 3 \/ d = 4 \/ d = 5 \/ d = 6 \/ d = 7 \/
    d = 8 \/ d = 9) as Hc by lia.
  repeat destruct Hc as [->|Hc]; try reflexivity. subst. reflexivity.
Qed.

Lemma digit_of_not_space c d : digit_of c = Some d -> is_space c = false.
Proof. unfold digit_of, is_space. case_match; [|done]. intros _. lia. Qed.

Lemma digit_of_not_sign c d :
  digit_of c = Some d -> Ascii.eqb c "-" = false /\ Ascii.eqb c "+" = false.
Proof.
  intros Hd. split; apply Ascii.eqb_neq; intros ->; vm_compute in Hd; discriminate.
Qed.

Definition is_digit (c : ascii) : Prop := is_Some (digit_of c).

Lemma dec_go_acc fuel n acc : dec_go fuel n acc = dec_go fuel n [] ++ acc.
Proof.
  revert n acc. induction fuel as [|fuel IH]; intros n acc; [done|].
  simpl. case_match; [done|]. rewrite IH, (IH _ [_]). by rewrite <- app_assoc.
Qed.

Lemma dec_go_step fuel n :
  10 <= n -> dec_go (S fuel) n [] = dec_go fuel (n / 10) [] ++ [digit_char (n mod 10)].
Proof. intros. simpl. rewrite (proj2 (Z.ltb_ge _ _)) by lia. apply dec_go_acc. Qed.

Lemma dec_go_last n fuel : 0 <= n < 10 -> dec_go (S fuel) n [] = [digit_char n].
Proof. intros. simpl. rewrite (proj2 (Z.ltb_lt _ _)) by lia. by rewrite Z.mod_small by lia. Qed.

Lemma dec_go_digits fuel n : 0 <= n -> Forall is_digit (dec_go fuel n []).
Proof.
  revert n. induction fuel as [|fuel IH]; intros n Hn; [constructor|].
  destruct (decide (n < 10)) as [Hlt|Hge].
  - rewrite dec_go_last by lia. repeat constructor. unfold is_digit.
    rewrite digit_of_digit_char by lia. eauto.
  - rewrite dec_go_step by lia. apply Forall_app. split; [apply IH; apply Z.div_pos; lia|].
    repeat constructor. unfold is_digit.
    rewrite digit_of_digit_char by (pose proof (Z.mod_pos_bound n 10); lia). eauto.
Qed.

Lemma dec_go_length fuel n :
  0 <= n < 10 ^ Z.of_nat fuel -> (length (dec_go fuel n []) <= fuel)%nat /\ (n = 0 \/ dec_go fuel n [] <> []).
Proof.
  revert n. induction fuel as [|fuel IH]; intros n Hn.
  - simpl in *. split; lia.
  - destruct (decide (n < 10)).
    + rewrite dec_go_last by lia. simpl. split; [lia|by right].
    + rewrite dec_go_step by lia. rewrite length_app. simpl.
      rewrite Nat2Z.inj_succ, Z.pow_succ_r in Hn by lia.
      destruct (IH (n / 10)) as [? _].
      { split; [apply Z.div_pos; lia|]. apply Z.div_lt_upper_bound; lia. }
      split; [lia|]. right. by destruct (dec_go fuel (n / 10) []).
Qed.

(** Two printings with enough digits agree. *)
Lemma dec_go_fuel f1 f2 n :
  0 <= n < 10 ^ Z.of_nat f1 -> 0 <= n < 10 ^ Z.of_nat f2 -> (0 < f1)%nat -> (0 < f2)%nat ->
  dec_go f1 n [] = dec_go f2 n [].
Proof.
  revert f2 n. induction f1 as [|f1 IH]; intros [|f2] n H1 H2 P1 P2; try lia.
  destruct (decide (n < 10)).
  - by rewrite !dec_go_last by lia.
  - rewrite !dec_go_step by lia. rewrite Nat2Z.inj_succ, Z.pow_succ_r in H1, H2 by lia.
    assert (0 <= n / 10) by (apply Z.div_pos; lia).
    assert (n / 10 < 10 ^ Z.of_nat f1) by (apply Z.div_lt_upper_bound; lia).
    assert (n / 10 < 10 ^ Z.of_nat f2) by (apply Z.div_lt_upper_bound; lia).
    assert (1 <= n / 10) by (apply Z.div_le_lower_bound; lia).
    rewrite (IH f2) by (destruct f1, f2; simpl in *; lia). done.
Qed.

Lemma dec_length n w :
  0 <= n < 10 ^ Z.of_nat w -> (0 < w <= 20)%nat -> (1 <= length (dec n) <= w)%nat.
Proof.
  intros Hn Hw. unfold dec. rewrite (proj2 (Z.ltb_ge _ _)) by lia.
  assert (10 ^ Z.of_nat w <= 10 ^ Z.of_nat 20) by (apply Z.pow_le_mono_r; lia).
  rewrite (dec_go_fuel 20 w) by lia.
  destruct (dec_go_length w n Hn) as [? Hz]. split; [|done].
  destruct w as [|w]; [lia|]. destruct (decide (n < 10)).
  - rewrite dec_go_last by lia. simpl. lia.
  - destruct Hz as [|Hz]; [lia|]. destruct (dec_go (S w) n []); [done|simpl; lia].
Qed.

Lemma length_setw w fill s : (length s <= w)%nat -> length (setw w fill s) = w.
Proof. intros. unfold setw. rewrite length_app, length_replicate. lia. Qed.

Lemma read_digits_app acc seen d n rest fuel :
  0 <= n < 10 ^ Z.of_nat fuel -> (0 < fuel)%nat -> d = dec_go fuel n [] ->
  read_digits acc seen (d ++ rest) =
  read_digits (acc * 10 ^ Z.of_nat (length d) + n) true rest.
Proof.
  intros Hn Hf ->. revert n rest Hn. induction fuel as [|fuel IH]; intros n rest Hn; [lia|].
  destruct (decide (n < 10)).
  - rewrite dec_go_last by lia. simpl. rewrite digit_of_digit_char by lia. done.
  - rewrite dec_go_step by lia. rewrite <- app_assoc.
    rewrite Nat2Z.inj_succ, Z.pow_succ_r in Hn by lia.
    assert (1 <= n / 10) by (apply Z.div_le_lower_bound; lia).
    assert (n / 10 < 10 ^ Z.of_nat fuel) by (apply Z.div_lt_upper_bound; lia).
    rewrite IH by (destruct fuel; simpl in *; lia). simpl.
    pose proof (Z.mod_pos_bound n 10 ltac:(lia)). pose proof (Z.div_mod n 10 ltac:(lia)).
    rewrite digit_of_digit_char by lia. f_equal.
    rewrite length_app. simpl. rewrite Nat2Z.inj_add, Z.pow_add_r by lia.
    change (10 ^ Z.of_nat 1) with 10. nia.
Qed.

(** The character after a number, if any, is not a digit. *)
Definition number_ends (rest : chars) : Prop :=
  match rest with [] => True | c :: _ => digit_of c = None end.

Lemma read_digits_stop acc rest :
  number_ends rest -> read_digits acc true rest = (acc, true, rest).
Proof. destruct rest; simpl; [done|]. by intros ->. Qed.

Lemma read_digits_dec n rest :
  0 <= n < 10 ^ 20 -> number_ends rest -> read_digits 0 false (dec n ++ rest) = (n, true, rest).
Proof.
  intros Hn Hr. unfold dec. rewrite (proj2 (Z.ltb_ge _ _)) by lia.
  rewrite (read_digits_app _ _ _ n rest 20) by (reflexivity || lia). simpl (0 * _).
  by apply read_digits_stop.
Qed.

Lemma dec_head n : 0 <= n < 10 ^ 20 -> exists c t, dec n = c :: t /\ is_digit c.
Proof.
  intros Hn. pose proof (dec_length n 20 ltac:(simpl; lia) ltac:(lia)) as Hl.
  unfold dec in *. rewrite (proj2 (Z.ltb_ge _ _)) in * by lia.
  pose proof (dec_go_digits 20 n ltac:(lia)) as Hd.
  destruct (dec_go 20 n []) as [|c t]; [simpl in Hl; lia|].
  inversion Hd; subst. eauto.
Qed.

Lemma skip_ws_replicate k l : skip_ws (replicate k SP ++ l) = skip_ws l.
Proof. induction k; [done|]. simpl. done. Qed.

Lemma read_sign_skip_dec k n rest :
  0 <= n < 10 ^ 20 ->
  read_sign (skip_ws (replicate k SP ++ dec n ++ rest)) = (false, dec n ++ rest).
Proof.
  intros Hn. rewrite skip_ws_replicate.
  destruct (dec_head n Hn) as (c & t & -> & [d Hd]). simpl.
  rewrite (digit_of_not_space _ _ Hd). simpl.
  destruct (digit_of_not_sign _ _ Hd) as [-> ->]. done.
Qed.

Lemma read_int32_setw w n rest :
  0 <= n <= INT32_MAX -> number_ends rest ->
  read_int32 (setw w SP (dec n) ++ rest) = Some (n, rest).
Proof.
  intros Hn Hr. unfold INT32_MAX in *. unfold read_int32, setw.
  rewrite <- app_assoc, read_sign_skip_dec, read_digits_dec by (done || lia).
  rewrite !(proj2 (Z.leb_le _ _)) by (unfold INT32_MAX; lia). done.
Qed.

Lemma read_uint32_setw w n rest :
  0 <= n <= UINT32_MAX -> number_ends rest ->
  read_uint32 (setw w SP (dec n) ++ rest) = Some (n, rest).
Proof.
  intros Hn Hr. unfold UINT32_MAX in *. unfold read_uint32, setw.
  rewrite <- app_assoc, read_sign_skip_dec, read_digits_dec by (done || lia).
  rewrite !(proj2 (Z.leb_le _ _)) by (unfold UINT32_MAX; lia). done.
Qed.

Lemma read_int32_sp l : read_int32 (SP :: l) = read_int32 l.
Proof. done. Qed.
Lemma read_uint32_sp l : read_uint32 (SP :: l) = read_uint32 l.
Proof. done. Qed.

Lemma digit_not_nul c : is_digit c -> c <> NUL.
Proof. intros [d Hd] ->. vm_compute in Hd. discriminate. Qed.

Lemma dec_digits n : 0 <= n -> Forall is_digit (dec n).
Proof. intros. unfold dec. rewrite (proj2 (Z.ltb_ge _ _)) by lia. by apply dec_go_digits. Qed.

(** ** Order of strings *)

Lemma chars_ltb_irrefl l : chars_ltb l l = false.
Proof. induction l; [done|]. simpl. by rewrite N.ltb_irrefl. Qed.

Lemma chars_ltb_trans l1 l2 l3 :
  chars_ltb l1 l2 = true -> chars_ltb l2 l3 = true -> chars_ltb l1 l3 = true.
Proof.
  revert l2 l3. induction l1 as [|a l1 IH]; intros [|b l2] [|c l3]; simpl; try done.
  destruct (N.ltb_spec (N_of_ascii a) (N_of_ascii b)), (N.ltb_spec (N_of_ascii b) (N_of_ascii a)),
    (N.ltb_spec (N_of_ascii b) (N_of_ascii c)), (N.ltb_spec (N_of_ascii c) (N_of_ascii b)),
    (N.ltb_spec (N_of_ascii a) (N_of_ascii c)), (N.ltb_spec (N_of_ascii c) (N_of_ascii a));
    try done; try lia. apply IH.
Qed.

Lemma chars_ltb_total l1 l2 :
  chars_ltb l1 l2 = false -> chars_ltb l2 l1 = false -> l1 = l2.
Proof.
  revert l2. induction l1 as [|a l1 IH]; intros [|b l2]; simpl; try done.
  destruct (N.ltb_spec (N_of_ascii a) (N_of_ascii b)), (N.ltb_spec (N_of_ascii b) (N_of_ascii a));
    try done. intros H1 H2.
  assert (N_of_ascii a = N_of_ascii b) as E%(f_equal ascii_of_N) by lia.
  rewrite !ascii_N_embedding in E. subst. f_equal. by apply IH.
Qed.

Lemma chars_ltb_app_same l r1 r2 : chars_ltb (l ++ r1) (l ++ r2) = chars_ltb r1 r2.
Proof. induction l; [done|]. simpl. by rewrite N.ltb_irrefl. Qed.

Lemma chars_ltb_app_lt l1 l2 r1 r2 :
  length l1 = length l2 -> chars_ltb l1 l2 = true -> chars_ltb (l1 ++ r1) (l2 ++ r2) = true.
Proof.
  revert l2. induction l1 as [|a l1 IH]; intros [|b l2] Hl; simpl in *; try done.
  repeat case_match; try done. intros. apply IH; [lia|done].
Qed.

Lemma lit_inj s1 s2 : lit s1 = lit s2 -> s1 = s2.
Proof.
  intros H%(f_equal string_of_list_ascii). unfold lit in H.
  by rewrite !string_of_list_ascii_of_string in H.
Qed.

Lemma lit_of_chars l : lit (string_of_list_ascii l) = l.
Proof. apply list_ascii_of_string_of_list_ascii. Qed.

(** A fill of zeros is read as part of the number. *)
Lemma strtol10_setw w n : 0 <= n < 2 ^ 63 -> strtol10 (setw w "0" (dec n)) = n.
Proof.
  intros Hn. unfold strtol10, setw.
  assert (forall k, read_digits 0 false (replicate k "0"%char ++ dec n) = (n, true, []) /\
    read_sign (skip_ws (replicate k "0"%char ++ dec n)) = (false, replicate k "0"%char ++ dec n)) as Hk.
  { intros k. split.
    - destruct k.
      + rewrite <- (app_nil_r (dec n)). cbn [replicate app].
        apply read_digits_dec; [lia|done].
      + assert (forall j b, read_digits 0 b (replicate (S j) "0"%char ++ dec n) =
                           read_digits 0 true (dec n)) as ->.
        { induction j; intros b; [done|]. rewrite <- (IHj true). done. }
        unfold dec. rewrite (proj2 (Z.ltb_ge _ _)) by lia.
        rewrite <- (app_nil_r (dec_go 20 n [])).
        by rewrite (read_digits_app _ _ _ n [] 20) by (first [reflexivity | lia]).
    - destruct k; [|done]. rewrite <- (app_nil_r (dec n)).
      apply (read_sign_skip_dec 0 n []). lia. }
  destruct (Hk (w - length (dec n))%nat) as [E1 E2]. rewrite E2, E1. lia.
Qed.

(** Serial numbers below 1000 print to three digits, in order. *)
Lemma serial_order n :
  0 <= n < 999 ->
  chars_ltb (setw 3 "0" (dec n)) (setw 3 "0" (dec (n + 1))) = true /\
  length (setw 3 "0" (dec n)) = length (setw 3 "0" (dec (n + 1))).
Proof.
  intros Hn.
  assert (forallb (fun k => let n := Z.of_nat k in
    chars_ltb (setw 3 "0" (dec n)) (setw 3 "0" (dec (n + 1)))) (seq 0 999) = true) as Hc
    by (vm_compute; reflexivity).
  rewrite forallb_forall in Hc. specialize (Hc (Z.to_nat n)).
  cbv zeta in Hc. rewrite Z2Nat.id in Hc by lia. split.
  - apply Hc. apply in_seq. lia.
  - pose proof (dec_length n 3 ltac:(simpl; lia) ltac:(lia)).
    pose proof (dec_length (n + 1) 3 ltac:(simpl; lia) ltac:(lia)).
    by rewrite !length_setw by lia.
Qed.
