(* ===== verification/CachedData.v ===== *)
(** * Cached data: the rows collected from the chain and not yet written

    Models [sql_serializer_objects.hpp] (the row types), [cached_data.h]
    (the cache with its snapshot of sizes) and the block-range helpers at the
    top of [indexation_state.cpp].

    Every row type derives from [block_data_base] and is ordered only by its
    block number; the class [BlockItem] plays the role of the
    [static_assert( is_base_of< block_data_base, ... > )] of the helpers.
    Hashes, signatures and keys are byte strings, assets are their [int64]
    amounts, and the protocol's [operation] variant (declared in the hive
    submodule) is a type parameter. *)

From S2P Require Import Prelude.
From Stdlib Require Import ZArith Lia Ascii String.
From stdpp Require Import base list strings gmap sorting.

Open Scope Z_scope.

(** [struct block_data_base]: what every row has. *)
Class BlockItem (A : Type) := block_number : A -> Z.

(** ** Row types *)

Record process_block_t := {
  pb_hash : string;
  pb_block_number : Z;
  pb_created_at : Z;
  pb_prev_hash : string;
  pb_producer_account_id : Z;
  pb_transaction_merkle_root : string;
  pb_extensions : option string;
  pb_witness_signature : string;
  pb_signing_key : string;
  pb_hbd_interest_rate : Z;
  pb_total_vesting_shares : Z;
  pb_total_vesting_fund_hive : Z;
  pb_total_reward_fund_hive : Z;
  pb_virtual_supply : Z;
  pb_current_supply : Z;
  pb_current_hbd_supply : Z;
  pb_dhf_interval_ledger : Z
}.

Record process_transaction_t := {
  pt_hash : string;
  pt_block_number : Z;
  pt_trx_in_block : Z;
  pt_ref_block_num : Z;
  pt_ref_block_prefix : Z;
  pt_expiration : Z;
  pt_signature : option string;
  pt_rc_cost : option Z
}.

Record process_transaction_multisig_t := {
  pm_hash : string;
  pm_block_number : Z;
  pm_signature : string
}.

Record process_operation_t {operation : Type} := {
  po_operation_id : Z;
  po_block_number : Z;
  po_trx_in_block : Z;
  po_op_type_id : Z;
  po_op_in_trx : Z;
  po_op : operation;
  po_custom_json_type_id : option Z
}.
Arguments process_operation_t : clear implicits.

Record applied_hardforks_t := {
  ah_hardfork_num : Z;
  ah_block_number : Z;
  ah_hardfork_vop_id : Z
}.

Record account_data_t := {
  ad_id : Z;
  ad_name : string;
  ad_block_number : Z
}.

Record account_operation_data_t := {
  ao_block_number : Z;
  ao_operation_id : Z;
  ao_account_id : Z;
  ao_transacting_account_id : Z;
  ao_operation_seq_no : Z;
  ao_op_type_id : Z
}.

#[global] Instance process_block_item : BlockItem process_block_t := pb_block_number.
#[global] Instance process_transaction_item : BlockItem process_transaction_t := pt_block_number.
#[global] Instance process_transaction_multisig_item :
  BlockItem process_transaction_multisig_t := pm_block_number.
#[global] Instance process_operation_item {operation} :
  BlockItem (process_operation_t operation) := po_block_number.
#[global] Instance applied_hardforks_item : BlockItem applied_hardforks_t := ah_block_number.
#[global] Instance account_data_item : BlockItem account_data_t := ad_block_number.
#[global] Instance account_operation_data_item :
  BlockItem account_operation_data_t := ao_block_number.

#[global] Instance process_block_eq_dec : EqDecision process_block_t.
Proof. solve_decision. Defined.
#[global] Instance process_transaction_eq_dec : EqDecision process_transaction_t.
Proof. solve_decision. Defined.
#[global] Instance applied_hardforks_eq_dec : EqDecision applied_hardforks_t.
Proof. solve_decision. Defined.
#[global] Instance account_data_eq_dec : EqDecision account_data_t.
Proof. solve_decision. Defined.
#[global] Instance account_operation_data_eq_dec : EqDecision account_operation_data_t.
Proof. solve_decision. Defined.

(** ** The cache *)

Record sizes_stash := {
  st_blocks : nat;
  st_transactions : nat;
  st_transactions_multisig : nat;
  st_operations : nat;
  st_accounts : nat;
  st_account_operations : nat;
  st_applied_hardforks : nat
}.

Definition empty_stash : sizes_stash := Build_sizes_stash 0 0 0 0 0 0 0.

Record cached_data_t {operation : Type} := {
  blocks : list process_block_t;
  transactions : list process_transaction_t;
  transactions_multisig : list process_transaction_multisig_t;
  operations : list (process_operation_t operation);
  accounts : list account_data_t;
  account_operations : list account_operation_data_t;
  applied_hardforks : list applied_hardforks_t;
  total_size : Z;
  stash : sizes_stash
}.
Arguments cached_data_t : clear implicits.
Arguments Build_cached_data_t {operation} _ _ _ _ _ _ _ _ _.

(** [cached_data_t{ n }]: the constructor only reserves memory. *)
Definition empty_cache {operation} : cached_data_t operation :=
  Build_cached_data_t [] [] [] [] [] [] [] 0 empty_stash.

Definition snapshot_current_sizes {operation} (c : cached_data_t operation)
  : cached_data_t operation :=
  {| blocks := blocks c; transactions := transactions c;
     transactions_multisig := transactions_multisig c; operations := operations c;
     accounts := accounts c; account_operations := account_operations c;
     applied_hardforks := applied_hardforks c; total_size := total_size c;
     stash := {|
       st_blocks := length (blocks c);
       st_transactions := length (transactions c);
       st_transactions_multisig := length (transactions_multisig c);
       st_operations := length (operations c);
       st_accounts := length (accounts c);
       st_account_operations := length (account_operations c);
       st_applied_hardforks := length (applied_hardforks c) |} |}.

(** [v.erase( v.begin() + n, v.end() )]: undefined behaviour, [None], when [n]
    lies past the end of the vector. *)
Definition erase_from {A} (n : nat) (v : list A) : option (list A) :=
  if bool_decide (n <= length v)%nat then Some (take n v) else None.

Definition revert_to_snapshot {operation} (c : cached_data_t operation)
  : option (cached_data_t operation) :=
  b ← erase_from (st_blocks (stash c)) (blocks c);
  t ← erase_from (st_transactions (stash c)) (transactions c);
  m ← erase_from (st_transactions_multisig (stash c)) (transactions_multisig c);
  o ← erase_from (st_operations (stash c)) (operations c);
  a ← erase_from (st_accounts (stash c)) (accounts c);
  ao ← erase_from (st_account_operations (stash c)) (account_operations c);
  h ← erase_from (st_applied_hardforks (stash c)) (applied_hardforks c);
  Some (snapshot_current_sizes
    {| blocks := b; transactions := t; transactions_multisig := m; operations := o;
       accounts := a; account_operations := ao; applied_hardforks := h;
       total_size := total_size c; stash := stash c |}).

(** ** Block-range helpers of [indexation_state.cpp]

    The searched value is a [uint32_t] turned into a [block_data_base] through
    its [int] constructor, hence the [i32]. *)

Definition NO_IRREVERSIBLE_BLOCK : Z := INT32_MAX.

(** [std::upper_bound]: first item greater than [block_number]. *)
Definition upper_bound_block {A} `{BlockItem A} (v : list A) (n : Z) : nat :=
  partition_point (fun x => negb (i32 n <? block_number x)) v.

(** [std::lower_bound]: first item not less than [block_number]. *)
Definition lower_bound_block {A} `{BlockItem A} (v : list A) (n : Z) : nat :=
  partition_point (fun x => block_number x <? i32 n) v.

(** Returns the new [target] and the new [source]. *)
Definition move_items_upto_block {A} `{BlockItem A} (target source : list A) (n : Z)
  : list A * list A :=
  let block_it := upper_bound_block source n in
  (take block_it source ++ target, drop block_it source).

Definition erase_items_greater_than_block {A} `{BlockItem A} (block_items : list A) (n : Z)
  : list A :=
  take (lower_bound_block block_items (u32 (n + 1))) block_items.

(** The seven calls of [move_items_upto_block] that the sources repeat for each
    cut of the cache into a fresh [cached_data_t{0}]: the moved part first. *)
Definition move_cache_upto_block {operation} (c : cached_data_t operation) (n : Z)
  : cached_data_t operation * cached_data_t operation :=
  let '(b1, b2) := move_items_upto_block [] (blocks c) n in
  let '(t1, t2) := move_items_upto_block [] (transactions c) n in
  let '(m1, m2) := move_items_upto_block [] (transactions_multisig c) n in
  let '(o1, o2) := move_items_upto_block [] (operations c) n in
  let '(a1, a2) := move_items_upto_block [] (accounts c) n in
  let '(ao1, ao2) := move_items_upto_block [] (account_operations c) n in
  let '(h1, h2) := move_items_upto_block [] (applied_hardforks c) n in
  (Build_cached_data_t b1 t1 m1 o1 a1 ao1 h1 0 empty_stash,
   Build_cached_data_t b2 t2 m2 o2 a2 ao2 h2 (total_size c) (stash c)).

(** Returns the irreversible data and what stays in the cache. *)
Definition move_irreveresible_blocks {operation} (c : cached_data_t operation)
    (irreversible_block : Z) : cached_data_t operation * cached_data_t operation :=
  if irreversible_block =? NO_IRREVERSIBLE_BLOCK then (empty_cache, c)
  else move_cache_upto_block c irreversible_block.

(** The seven [erase_items_greater_than_block] calls of [on_switch_fork]. *)
Definition erase_cache_greater_than_block {operation} (c : cached_data_t operation) (n : Z)
  : cached_data_t operation :=
  {| blocks := erase_items_greater_than_block (blocks c) n;
     transactions := erase_items_greater_than_block (transactions c) n;
     transactions_multisig := erase_items_greater_than_block (transactions_multisig c) n;
     operations := erase_items_greater_than_block (operations c) n;
     accounts := erase_items_greater_than_block (accounts c) n;
     account_operations := erase_items_greater_than_block (account_operations c) n;
     applied_hardforks := erase_items_greater_than_block (applied_hardforks c) n;
     total_size := total_size c; stash := stash c |}.

(** The seven [clear()] calls of the lite entry into LIVE. *)
Definition clear_containers {operation} (c : cached_data_t operation)
  : cached_data_t operation :=
  Build_cached_data_t [] [] [] [] [] [] [] (total_size c) (stash c).

(** ** Specification vocabulary *)

Definition items_where {A} `{BlockItem A} (p : Z -> bool) (v : list A) : list A :=
  filter (fun x => p (block_number x) = true) v.

(** Keeps, in all seven containers, the rows whose block satisfies [p]. *)
Definition cache_where {operation} (p : Z -> bool) (c : cached_data_t operation)
  : cached_data_t operation :=
  {| blocks := items_where p (blocks c);
     transactions := items_where p (transactions c);
     transactions_multisig := items_where p (transactions_multisig c);
     operations := items_where p (operations c);
     accounts := items_where p (accounts c);
     account_operations := items_where p (account_operations c);
     applied_hardforks := items_where p (applied_hardforks c);
     total_size := total_size c; stash := stash c |}.

(** The same containers in a freshly constructed cache. *)
Definition fresh_cache {operation} (c : cached_data_t operation) : cached_data_t operation :=
  {| blocks := blocks c; transactions := transactions c;
     transactions_multisig := transactions_multisig c; operations := operations c;
     accounts := accounts c; account_operations := account_operations c;
     applied_hardforks := applied_hardforks c; total_size := 0; stash := empty_stash |}.

(** Container-wise concatenation: rows of [c1] before rows of [c2]. *)
Definition cache_app {operation} (c1 c2 : cached_data_t operation) : cached_data_t operation :=
  {| blocks := blocks c1 ++ blocks c2;
     transactions := transactions c1 ++ transactions c2;
     transactions_multisig := transactions_multisig c1 ++ transactions_multisig c2;
     operations := operations c1 ++ operations c2;
     accounts := accounts c1 ++ accounts c2;
     account_operations := account_operations c1 ++ account_operations c2;
     applied_hardforks := applied_hardforks c1 ++ applied_hardforks c2;
     total_size := total_size c2; stash := stash c2 |}.

(** What [push_back]/[emplace_back] calls on the containers of [c] amount to: the
    rows of [d] at the end, the other members untouched. *)
Definition cache_append {operation} (c d : cached_data_t operation) : cached_data_t operation :=
  {| blocks := blocks c ++ blocks d;
     transactions := transactions c ++ transactions d;
     transactions_multisig := transactions_multisig c ++ transactions_multisig d;
     operations := operations c ++ operations d;
     accounts := accounts c ++ accounts d;
     account_operations := account_operations c ++ account_operations d;
     applied_hardforks := applied_hardforks c ++ applied_hardforks d;
     total_size := total_size c; stash := stash c |}.

(** A predicate on vectors of rows, required of all seven containers. *)
Definition on_containers {operation} (P : forall A, BlockItem A -> list A -> Prop)
    (c : cached_data_t operation) : Prop :=
  P _ _ (blocks c) /\ P _ _ (transactions c) /\ P _ _ (transactions_multisig c) /\
  P _ _ (operations c) /\ P _ _ (accounts c) /\ P _ _ (account_operations c) /\
  P _ _ (applied_hardforks c).

(** Every container is ordered by block number: the invariant behind the binary
    searches. *)
Definition cache_sorted {operation} : cached_data_t operation -> Prop :=
  on_containers (fun A _ v => key_sorted block_number v).

(** Every row belongs to a block satisfying [p]. *)
Definition cache_all {operation} (p : Z -> Prop) : cached_data_t operation -> Prop :=
  on_containers (fun A _ v => Forall (fun x => p (block_number x)) v).

(** ** Lemmas on one container *)

Section items.
  Context {A : Type} `{BlockItem A}.
  Implicit Types (v : list A) (n : Z).

Lemma partitioned_ext (p q : A -> bool) v :
  (forall x, p x = q x) -> partitioned p v -> partitioned q v.
Proof.
  intros E (l1 & l2 & -> & H1 & H2). exists l1, l2. repeat split.
  - eapply Forall_impl; [exact H1|]. intros x Hx. by rewrite <- E.
  - eapply Forall_impl; [exact H2|]. intros x Hx. by rewrite <- E.
Qed.

Lemma items_where_filter (p : Z -> bool) (P : A -> Prop) `{!forall x, Decision (P x)} v :
  (forall x, P x <-> p (block_number x) = true) -> filter P v = items_where p v.
Proof. intros HP. unfold items_where. by apply list_filter_iff. Qed.

Lemma upper_bound_partitioned v n :
  key_sorted block_number v -> partitioned (fun x => negb (n <? block_number x)) v.
Proof.
  intros Hs. eapply partitioned_ext; [|apply (key_sorted_partitioned_le _ n _ Hs)].
  intros x. simpl. lia.
Qed.

Lemma lower_bound_partitioned v n :
  key_sorted block_number v -> partitioned (fun x => block_number x <? n) v.
Proof.
  intros Hs. eapply partitioned_ext; [|apply (key_sorted_partitioned_le _ (n - 1) _ Hs)].
  intros x. simpl. lia.
Qed.

Lemma move_items_upto_block_spec target v n :
  key_sorted block_number v -> 0 <= n <= INT32_MAX ->
  move_items_upto_block target v n =
    (items_where (fun b => b <=? n) v ++ target, items_where (fun b => n <? b) v).
Proof.
  intros Hs Hn. unfold move_items_upto_block, upper_bound_block.
  rewrite i32_small by (unfold INT32_MAX in *; lia).
  rewrite partition_point_take, partition_point_drop by by apply upper_bound_partitioned.
  f_equal; [f_equal|]; apply items_where_filter; intros; lia.
Qed.

Lemma erase_items_greater_than_block_spec v n :
  key_sorted block_number v -> 0 <= n < INT32_MAX ->
  erase_items_greater_than_block v n = items_where (fun b => b <=? n) v.
Proof.
  intros Hs Hn. unfold erase_items_greater_than_block, lower_bound_block.
  rewrite u32_small by (unfold UINT32_MAX, INT32_MAX in *; lia).
  rewrite i32_small by (unfold INT32_MAX in *; lia).
  rewrite partition_point_take by by apply lower_bound_partitioned.
  apply items_where_filter. intros; lia.
Qed.

Lemma move_items_upto_block_app v n :
  (move_items_upto_block [] v n).1 ++ (move_items_upto_block [] v n).2 = v.
Proof. simpl. by rewrite app_nil_r, take_drop. Qed.

Lemma move_items_upto_block_sorted v n :
  key_sorted block_number v ->
  key_sorted block_number (move_items_upto_block [] v n).1 /\
  key_sorted block_number (move_items_upto_block [] v n).2.
Proof.
  intros Hs. rewrite <- (move_items_upto_block_app v n) in Hs.
  apply key_sorted_app in Hs. tauto.
Qed.

Lemma items_where_sorted p v :
  key_sorted block_number v -> key_sorted block_number (items_where p v).
Proof. intros. by apply key_sorted_filter. Qed.

Lemma items_where_all (p : Z -> bool) v :
  Forall (fun x => p (block_number x) = true) v -> items_where p v = v.
Proof.
  intros Hf. unfold items_where. induction Hf; [done|].
  rewrite filter_cons_True by done. by f_equal.
Qed.

Lemma items_where_none (p : Z -> bool) v :
  Forall (fun x => p (block_number x) = false) v -> items_where p v = [].
Proof.
  intros Hf. unfold items_where. induction Hf; [done|].
  rewrite filter_cons_False by congruence. done.
Qed.

Lemma Forall_items_where (p : Z -> bool) v :
  Forall (fun x => p (block_number x) = true) (items_where p v).
Proof. apply Forall_forall. intros x Hx%list_elem_of_filter. tauto. Qed.

Lemma erase_from_app {B} (l k : list B) : erase_from (length l) (l ++ k) = Some l.
Proof.
  unfold erase_from. rewrite bool_decide_true by (rewrite length_app; lia).
  by rewrite take_app_length.
Qed.

Lemma erase_from_short {B} (l : list B) (k : nat) : (length l < k)%nat -> erase_from k l = None.
Proof. intros. unfold erase_from. rewrite bool_decide_false by lia. done. Qed.

End items.

(** ** The whole cache *)

(** Equality of caches container by container. *)
Lemma cache_ext {operation} (c d : cached_data_t operation) :
  blocks c = blocks d -> transactions c = transactions d ->
  transactions_multisig c = transactions_multisig d -> operations c = operations d ->
  accounts c = accounts d -> account_operations c = account_operations d ->
  applied_hardforks c = applied_hardforks d -> total_size c = total_size d ->
  stash c = stash d -> c = d.
Proof. destruct c, d. simpl. intros. by subst. Qed.

(** Proves a fact about the seven containers from the fact about one. *)
Ltac by_containers :=
  unfold cache_all, cache_sorted, on_containers in *; simpl in *;
  repeat match goal with H : _ /\ _ |- _ => destruct H end;
  repeat split; eauto with haf.

#[export] Hint Resolve items_where_sorted Forall_items_where move_items_upto_block_sorted : haf.

Section cache.
  Context {operation : Type}.
  Implicit Types (c : cached_data_t operation) (n : Z).

Lemma on_containers_impl (P Q : forall A, BlockItem A -> list A -> Prop) c :
  (forall A (B : BlockItem A) v, P A B v -> Q A B v) -> on_containers P c -> on_containers Q c.
Proof. unfold on_containers. intros HPQ (?&?&?&?&?&?&?). repeat split; by apply HPQ. Qed.

Lemma move_cache_upto_block_spec c n :
  cache_sorted c -> 0 <= n <= INT32_MAX ->
  move_cache_upto_block c n =
    (fresh_cache (cache_where (fun b => b <=? n) c), cache_where (fun b => n <? b) c).
Proof.
  intros (?&?&?&?&?&?&?) Hn. unfold move_cache_upto_block.
  rewrite !move_items_upto_block_spec by done. rewrite !app_nil_r. done.
Qed.

Lemma move_cache_upto_block_app c n :
  cache_app (move_cache_upto_block c n).1 (move_cache_upto_block c n).2 = c.
Proof.
  unfold move_cache_upto_block, move_items_upto_block. simpl.
  apply cache_ext; simpl; rewrite ?app_nil_r, ?take_drop; done.
Qed.

Lemma move_cache_upto_block_sorted c n :
  cache_sorted c ->
  cache_sorted (move_cache_upto_block c n).1 /\ cache_sorted (move_cache_upto_block c n).2.
Proof.
  intros (?&?&?&?&?&?&?). unfold cache_sorted, on_containers.
  repeat split; by (apply (move_items_upto_block_sorted _ n); assumption).
Qed.

Lemma cache_where_sorted p c : cache_sorted c -> cache_sorted (cache_where p c).
Proof. intros. by_containers. Qed.

Lemma cache_where_all (p : Z -> bool) c : cache_all (fun b => p b = true) (cache_where p c).
Proof. by_containers. Qed.

Lemma cache_sorted_empty : cache_sorted (@empty_cache operation).
Proof. unfold cache_sorted, on_containers. repeat split; constructor. Qed.

Lemma cache_sorted_clear c : cache_sorted (clear_containers c).
Proof. unfold cache_sorted, on_containers. repeat split; constructor. Qed.

Lemma move_irreveresible_blocks_sorted c n :
  cache_sorted c ->
  cache_sorted (move_irreveresible_blocks c n).1 /\ cache_sorted (move_irreveresible_blocks c n).2.
Proof.
  intros. unfold move_irreveresible_blocks. case_match; [|by apply move_cache_upto_block_sorted].
  split; [apply cache_sorted_empty|done].
Qed.

Lemma cache_app_empty_l c : cache_app empty_cache c = c.
Proof. by apply cache_ext. Qed.

Lemma cache_app_assoc c d e :
  cache_app (cache_app c d) e = cache_app c (cache_app d e).
Proof. apply cache_ext; simpl; by rewrite ?app_assoc. Qed.

Lemma move_irreveresible_blocks_app c n :
  cache_app (move_irreveresible_blocks c n).1 (move_irreveresible_blocks c n).2 = c.
Proof.
  unfold move_irreveresible_blocks. case_match; simpl; [apply cache_app_empty_l|].
  apply move_cache_upto_block_app.
Qed.

(** Rows of [c1] end at or before every row of [c2] starts: appending keeps the order. *)
Lemma cache_app_sorted c1 c2 b :
  cache_sorted c1 -> cache_sorted c2 ->
  cache_all (fun x => x <= b) c1 -> cache_all (fun x => b <= x) c2 ->
  cache_sorted (cache_app c1 c2).
Proof.
  intros (?&?&?&?&?&?&?) (?&?&?&?&?&?&?) (?&?&?&?&?&?&?) (?&?&?&?&?&?&?).
  unfold cache_sorted, on_containers. simpl.
  repeat split; apply key_sorted_app; (split; [assumption|split; [assumption|]]);
    intros x y Hx Hy;
    repeat match goal with
    | H1 : Forall _ ?l, Hx : ?x ∈ ?l |- _ => eapply Forall_forall in H1; [|exact Hx]
    end; simpl in *; lia.
Qed.

Lemma erase_cache_greater_than_block_where c n :
  cache_sorted c -> 0 <= n < INT32_MAX ->
  erase_cache_greater_than_block c n = cache_where (fun b => b <=? n) c.
Proof.
  intros (?&?&?&?&?&?&?) Hn. unfold erase_cache_greater_than_block, cache_where.
  by rewrite !erase_items_greater_than_block_spec.
Qed.

Lemma move_irreveresible_blocks_where c n :
  cache_sorted c -> 0 <= n < INT32_MAX ->
  move_irreveresible_blocks c n =
    (fresh_cache (cache_where (fun b => b <=? n) c), cache_where (fun b => n <? b) c).
Proof.
  intros Hs Hn. unfold move_irreveresible_blocks, NO_IRREVERSIBLE_BLOCK.
  rewrite (proj2 (Z.eqb_neq _ _)) by lia. apply move_cache_upto_block_spec; [done|lia].
Qed.

(** Cutting the cache at an irreversible block moves exactly the rows of blocks
    up to it, in order, and leaves exactly the later ones, in all seven
    containers. *)
Theorem move_irreveresible_blocks_spec c n :
  cache_sorted c -> 0 <= n < INT32_MAX ->
  move_irreveresible_blocks c n =
    (fresh_cache (cache_where (fun b => b <=? n) c), cache_where (fun b => n <? b) c).
Proof. apply move_irreveresible_blocks_where. Qed.

(** Reverting a cache to its snapshot after any rows were appended to it gives
    back the snapshot exactly. *)
Theorem revert_to_snapshot_undoes_appends c d :
  revert_to_snapshot (cache_append (snapshot_current_sizes c) d) =
  Some (snapshot_current_sizes c).
Proof. unfold revert_to_snapshot. simpl. by rewrite !erase_from_app. Qed.

Lemma revert_to_snapshot_blocks_short c :
  (length (blocks c) < st_blocks (stash c))%nat -> revert_to_snapshot c = None.
Proof. intros H. unfold revert_to_snapshot. by rewrite (erase_from_short _ _ H). Qed.

(** A flush that moves out a block already counted by the snapshot leaves the
    cache shorter than its stash, so a later [revert_to_snapshot] would erase from an
    iterator past the end. *)
Theorem revert_after_flush_undefined c n x :
  cache_sorted c -> 0 <= n < INT32_MAX -> x ∈ blocks c -> pb_block_number x <= n ->
  revert_to_snapshot (move_irreveresible_blocks (snapshot_current_sizes c) n).2 = None.
Proof.
  intros Hs Hn Hx Hle. rewrite move_irreveresible_blocks_where by done.
  apply revert_to_snapshot_blocks_short. simpl. unfold items_where.
  apply length_filter_lt with x; [done|]. change (block_number x) with (pb_block_number x). lia.
Qed.

End cache.

(** ** Well-formed caches

    What collection guarantees: containers ordered by block, one [process_block_t]
    per block, in increasing order, no row without its block, and block numbers
    of the chain's range. *)

Record cache_ok {operation} (c : cached_data_t operation) : Prop := {
  ok_sorted : cache_sorted c;
  ok_blocks : StronglySorted (fun x y => pb_block_number x < pb_block_number y) (blocks c);
  ok_closed : cache_all (fun b => b ∈ map pb_block_number (blocks c)) c;
  ok_range : cache_all (fun b => 0 <= b < INT32_MAX) c
}.

Section where_lemmas.
  Context {A : Type} `{BlockItem A}.

Lemma items_where_comp (p q : Z -> bool) (v : list A) :
  items_where p (items_where q v) = items_where (fun b => p b && q b) v.
Proof.
  unfold items_where. rewrite list_filter_filter. apply list_filter_iff.
  intros x. by rewrite andb_true_iff.
Qed.

Lemma items_where_ext (p q : Z -> bool) (R : Z -> Prop) (v : list A) :
  Forall (fun x => R (block_number x)) v -> (forall b, R b -> p b = q b) ->
  items_where p v = items_where q v.
Proof.
  intros Hv E. unfold items_where. induction Hv as [|x v Hx Hv IH]; [done|].
  rewrite !filter_cons, E, IH by done. done.
Qed.

Lemma Forall_items_where_keep (P : A -> Prop) (p : Z -> bool) (v : list A) :
  Forall P v -> Forall P (items_where p v).
Proof.
  rewrite !Forall_forall. intros HP x [_ Hx]%list_elem_of_filter. by apply HP.
Qed.

Lemma items_where_split (v : list A) (n : Z) :
  key_sorted block_number v ->
  items_where (fun b => b <=? n) v ++ items_where (fun b => n <? b) v = v.
Proof.
  intros Hs. destruct (upper_bound_partitioned v n Hs) as (l1 & l2 & -> & H1 & H2).
  unfold items_where. rewrite !filter_app.
  rewrite (items_where_filter (fun b => b <=? n)), (items_where_filter (fun b => b <=? n) _ l2) by done.
  rewrite (items_where_filter (fun b => n <? b)), (items_where_filter (fun b => n <? b) _ l2) by done.
  rewrite (items_where_all _ l1), (items_where_none _ l1), (items_where_none _ l2), (items_where_all _ l2).
  1: by rewrite app_nil_r.
  all: eapply Forall_impl; [eassumption|]; intros x Hx; simpl in Hx; lia.
Qed.

End where_lemmas.

Section cache_where_lemmas.
  Context {operation : Type}.
  Implicit Types (c : cached_data_t operation) (n : Z).

Lemma cache_where_comp p q c : cache_where p (cache_where q c) = cache_where (fun b => p b && q b) c.
Proof. apply cache_ext; simpl; by rewrite ?items_where_comp. Qed.

Lemma cache_where_ext (p q : Z -> bool) (R : Z -> Prop) c :
  cache_all R c -> (forall b, R b -> p b = q b) -> cache_where p c = cache_where q c.
Proof.
  intros (?&?&?&?&?&?&?) E. apply cache_ext; simpl; try done; by eapply items_where_ext.
Qed.

Lemma cache_where_true p c : cache_all (fun b => p b = true) c -> cache_where p c = c.
Proof. intros (?&?&?&?&?&?&?). apply cache_ext; simpl; try done; by apply items_where_all. Qed.

Lemma cache_where_false p c : cache_all (fun b => p b = false) c -> cache_where p c = clear_containers c.
Proof. intros (?&?&?&?&?&?&?). apply cache_ext; simpl; try done; by apply items_where_none. Qed.

Lemma cache_all_where (R : Z -> Prop) p c : cache_all R c -> cache_all R (cache_where p c).
Proof.
  intros (?&?&?&?&?&?&?). unfold cache_all, on_containers. simpl.
  repeat split; by apply Forall_items_where_keep.
Qed.

Lemma cache_all_impl (R Q : Z -> Prop) c :
  (forall b, R b -> Q b) -> cache_all R c -> cache_all Q c.
Proof.
  intros HRQ. apply on_containers_impl. intros A B v Hv.
  eapply Forall_impl; [exact Hv|]. intros x. apply HRQ.
Qed.

Lemma cache_all_and (R Q : Z -> Prop) c :
  cache_all R c -> cache_all Q c -> cache_all (fun b => R b /\ Q b) c.
Proof.
  intros (?&?&?&?&?&?&?) (?&?&?&?&?&?&?). unfold cache_all, on_containers.
  repeat split; by apply Forall_and.
Qed.

Lemma map_block_number_where p (v : list process_block_t) b :
  b ∈ map pb_block_number (items_where p v) <-> b ∈ map pb_block_number v /\ p b = true.
Proof.
  rewrite !list_elem_of_fmap. split.
  - intros (x & -> & [Hp Hx]%list_elem_of_filter). eauto.
  - intros ((x & -> & Hx) & Hp). exists x. split; [done|]. by apply list_elem_of_filter.
Qed.

Lemma StronglySorted_items_where (R : process_block_t -> process_block_t -> Prop) p v :
  StronglySorted R v -> StronglySorted R (items_where p v).
Proof.
  unfold items_where. induction 1 as [|a l Hs IH Hf]; [constructor|].
  rewrite filter_cons. case_decide; [|done]. constructor; [done|].
  rewrite Forall_forall in *. intros y [_ Hy]%list_elem_of_filter. by apply Hf.
Qed.

Lemma cache_ok_where p c : cache_ok c -> cache_ok (cache_where p c).
Proof.
  intros [H1 H2 H3 H4]. constructor.
  - by apply cache_where_sorted.
  - by apply StronglySorted_items_where.
  - eapply cache_all_impl; [|apply (cache_all_and _ _ _ (cache_all_where _ p _ H3) (cache_where_all p c))].
    intros b [Hb Hp]. by apply map_block_number_where.
  - by apply cache_all_where.
Qed.

Lemma cache_ok_fresh c : cache_ok c -> cache_ok (fresh_cache c).
Proof. intros [H1 H2 H3 H4]. by constructor. Qed.

Lemma cache_ok_clear c : cache_ok (clear_containers c).
Proof. constructor; unfold cache_sorted, cache_all, on_containers; cbn; repeat split; constructor. Qed.

(** No block, no rows. *)
Lemma cache_ok_no_blocks c : cache_ok c -> blocks c = [] -> c = clear_containers c.
Proof.
  intros Hok Hb. pose proof (ok_closed _ Hok) as Hc. rewrite Hb in Hc. simpl in Hc.
  assert (cache_all (fun _ => False) c) as Hf.
  { eapply cache_all_impl; [|exact Hc]. intros b Hin. by apply elem_of_nil in Hin. }
  rewrite <- (cache_where_false (fun _ => false)).
  - symmetry. apply cache_where_true. eapply cache_all_impl; [|exact Hf]. done.
  - eapply cache_all_impl; [|exact Hf]. done.
Qed.

(** The first block is the smallest one of every row. *)
Lemma cache_ok_front c x v :
  cache_ok c -> blocks c = x :: v -> cache_all (fun b => pb_block_number x <= b) c.
Proof.
  intros Hok Hb. pose proof (ok_blocks _ Hok) as Hs. pose proof (ok_closed _ Hok) as Hc.
  rewrite Hb in Hs, Hc. apply StronglySorted_inv in Hs as [_ Hf].
  eapply cache_all_impl; [|exact Hc]. intros b Hin. simpl in Hin.
  apply elem_of_cons in Hin as [->|(y & -> & Hy)%list_elem_of_fmap]; [lia|].
  eapply Forall_forall in Hf; [|exact Hy]. simpl in Hf. lia.
Qed.

Lemma blocks_where_front c x v :
  cache_ok c -> blocks c = x :: v ->
  items_where (fun b => b <=? pb_block_number x) (blocks c) = [x] /\
  items_where (fun b => pb_block_number x <? b) (blocks c) = v.
Proof.
  intros Hok Hb. pose proof (ok_blocks _ Hok) as Hs. rewrite Hb in *.
  apply StronglySorted_inv in Hs as [_ Hf]. split.
  - unfold items_where. rewrite filter_cons_True by (apply Z.leb_le; reflexivity).
    f_equal. apply (items_where_none (fun b => b <=? pb_block_number x)).
    eapply Forall_impl; [exact Hf|]. intros y Hy. apply Z.leb_gt. exact Hy.
  - unfold items_where. rewrite filter_cons_False by (rewrite Z.ltb_lt; apply Z.lt_irrefl).
    apply (items_where_all (fun b => pb_block_number x <? b)).
    eapply Forall_impl; [exact Hf|]. intros y Hy. apply Z.ltb_lt. exact Hy.
Qed.

Lemma cache_where_split c n :
  cache_sorted c ->
  cache_app (cache_where (fun b => b <=? n) c) (cache_where (fun b => n <? b) c) = c.
Proof.
  intros (?&?&?&?&?&?&?). apply cache_ext; simpl; try done; by apply items_where_split.
Qed.

End cache_where_lemmas.

(** ** Witnesses *)

Module CacheExamples.

Definition block (n : Z) : process_block_t :=
  {| pb_hash := ""; pb_block_number := n; pb_created_at := 0; pb_prev_hash := "";
     pb_producer_account_id := 0; pb_transaction_merkle_root := ""; pb_extensions := None;
     pb_witness_signature := ""; pb_signing_key := ""; pb_hbd_interest_rate := 0;
     pb_total_vesting_shares := 0; pb_total_vesting_fund_hive := 0; pb_total_reward_fund_hive := 0;
     pb_virtual_supply := 0; pb_current_supply := 0; pb_current_hbd_supply := 0;
     pb_dhf_interval_ledger := 0 |}.

Definition op (n : Z) : process_operation_t unit :=
  {| po_operation_id := n; po_block_number := n; po_trx_in_block := 0; po_op_type_id := 0;
     po_op_in_trx := 0; po_op := tt; po_custom_json_type_id := None |}.

(** One block and one operation per number. *)
Definition rows (l : list Z) : cached_data_t unit :=
  Build_cached_data_t (map block l) [] [] (map op l) [] [] [] 0 empty_stash.

Lemma key_sorted_map {A} `{BlockItem A} (f : Z -> A) l :
  (forall n, block_number (f n) = n) -> StronglySorted Z.lt l -> key_sorted block_number (map f l).
Proof.
  intros Hf Hs. unfold key_sorted. induction Hs as [|x l Hs IH Hx]; cbn; constructor; [done|].
  apply Forall_fmap. eapply Forall_impl; [exact Hx|]. intros y Hy. cbn. rewrite !Hf. lia.
Qed.

Lemma rows_ok l :
  StronglySorted Z.lt l -> Forall (fun n => 0 <= n < INT32_MAX) l -> cache_ok (rows l).
Proof.
  intros Hs Hr. constructor.
  - unfold cache_sorted, on_containers. cbn. repeat split; try constructor; by apply key_sorted_map.
  - cbn. clear Hr. induction Hs as [|x l Hs IH Hx]; cbn; constructor; [done|].
    apply Forall_fmap. eapply Forall_impl; [exact Hx|]. cbn. lia.
  - unfold cache_all, on_containers. cbn. repeat split; try constructor; apply Forall_fmap, Forall_forall;
      intros n Hn; cbn; apply list_elem_of_fmap; exists (block n); (split; [done|]);
      apply list_elem_of_fmap; eauto.
  - unfold cache_all, on_containers. cbn. repeat split; try constructor; apply Forall_fmap; exact Hr.
Qed.

Lemma three_ok : cache_ok (rows [5; 6; 7]).
Proof. apply rows_ok; repeat constructor; unfold INT32_MAX; lia. Qed.

Lemma move_irreveresible_blocks_spec_witness :
  move_irreveresible_blocks (rows [5; 6; 7]) 6 = (rows [5; 6], rows [7]).
Proof.
  rewrite move_irreveresible_blocks_spec; [vm_compute; reflexivity|apply three_ok|unfold INT32_MAX; lia].
Defined.

Lemma revert_after_flush_undefined_witness :
  revert_to_snapshot (move_irreveresible_blocks (snapshot_current_sizes (rows [5; 6; 7])) 6).2 = None.
Proof.
  apply (revert_after_flush_undefined (rows [5; 6; 7]) 6 (block 5));
    [apply three_ok|unfold INT32_MAX; lia|left|cbn; lia].
Defined.

End CacheExamples.
