(* ===== verification/IndexationState.v ===== *)
(** * Indexation state machine ([indexation_state.hpp], [indexation_state.cpp])

    Which synchronisation state the serializer is in, which dumper and flush
    trigger it uses in it, and when cached rows are handed to the dumper.

    A handler is a computation on [istate]: the members of [indexation_state],
    the [cached_data_t&] argument it works on ([on_local] runs a call on a local
    cache), the sync state stored in the database, and the trace of effects on
    other components.  What the outside world answers (the distance of the head
    block to the wall clock, interrupt requests, whether constraints were dropped)
    comes from an [environment], indexed by the number of questions asked so far. *)

From S2P Require Import Prelude CachedData.
From Stdlib Require Import ZArith Lia Ascii String.
From stdpp Require Import base list strings gmap sorting.

Open Scope Z_scope.
Open Scope haf_scope.

Inductive INDEXATION := START | WAIT | REINDEX_WAIT | REINDEX | P2P | LIVE.

#[global] Instance INDEXATION_eq_dec : EqDecision INDEXATION.
Proof. solve_decision. Defined.

(** The enumerators' values. *)
Definition indexation_value (s : INDEXATION) : Z :=
  match s with
  | START => 0x00 | WAIT => 0x01 | REINDEX_WAIT => 0x02
  | REINDEX => 0xA0 | P2P => 0xA1 | LIVE => 0xA2
  end.

Definition COLLECT_BLOCKS_MASK : Z := 0xA0.
Definition UNKNOWN : Z := UINT32_MAX.

(** [enum_to_string] of [set_state], without the cast that the SQL literal carries. *)
Definition enum_to_string (s : INDEXATION) : string :=
  match s with
  | START => "START" | WAIT => "WAIT" | REINDEX_WAIT => "REINDEX_WAIT"
  | REINDEX => "REINDEX" | P2P => "P2P" | LIVE => "LIVE"
  end.

(** [string_to_enum] of [get_state]. *)
Definition string_to_enum (s : string) : option INDEXATION :=
  if String.eqb s "START" then Some START
  else if String.eqb s "WAIT" then Some WAIT
  else if String.eqb s "REINDEX_WAIT" then Some REINDEX_WAIT
  else if String.eqb s "REINDEX" then Some REINDEX
  else if String.eqb s "P2P" then Some P2P
  else if String.eqb s "LIVE" then Some LIVE
  else None.

Inductive is_error :=
| NullPointer                 (* dereference of an empty _dumper or _trigger *)
| MoveFromLive                (* "Move from LIVE state is illegal" *)
| ReindexFromWrongState       (* "Reindex always starts after START or REINDEX_WAIT" *)
| RefusedInterruptedSync      (* issue #340 *)
| NotSingleBlock              (* "LIVE sync can only process one block" *)
| UnknownSyncState
| LoopOutOfFuel.

(** The implementations of [data_dumper]. *)
Inductive dumper := fake_data_dumper | reindex_data_dumper (synchronous_mode : bool) | livesync_data_dumper.

(** The implementations of [flush_trigger]. *)
Inductive flush_trigger :=
| fake_flush_trigger
| reindex_flush_trigger
| live_flush_trigger
| p2p_flush_trigger (last_flushed_block_num : Z)
| lite_live_flush_trigger.

#[global] Instance dumper_eq_dec : EqDecision dumper.
Proof. solve_decision. Defined.
#[global] Instance flush_trigger_eq_dec : EqDecision flush_trigger.
Proof. solve_decision. Defined.

Definition BLOCKS_PER_FLUSH : Z := 1000.
Definition MINIMUM_BLOCKS_PER_FLUSH : Z := 1000.

Section indexation.
  Context {operation : Type}.

(** Effects on the other components, oldest last in [is_trace]. *)
Inductive event :=
| EvDumped (d : dumper) (rows : cached_data_t operation) (last_block_num : Z)
| EvWaitForContexts (tail : Z)
| EvDisableConstraints (blocks : Z)
| EvDisableIndexes (blocks : Z)
| EvEnableIndexes
| EvEnableConstraints
| EvPollIndexesThread
| EvKillNode.

Record is_config := {
  cfg_livesync_threshold : Z;
  cfg_first_block : Z;
  cfg_pruning_tail_size : Z;
  cfg_lite_mode : bool;
  cfg_prior_massive_sync_interrupted : bool;
  cfg_psql_head_at_startup : Z
}.

Record environment := {
  (* now() - head_block_time() < fc::seconds( n ) *)
  env_behind_less_than : nat -> Z -> bool;
  (* ( now() - head_block_time() ).to_seconds() *)
  env_seconds_behind : nat -> Z;
  (* theApp.is_interrupt_request() *)
  env_interrupt : nat -> bool;
  (* result of indexes_controler::disable_constraints *)
  env_constraints_dropped : nat -> Z -> bool
}.

Record istate := {
  is_cached_state_value : option INDEXATION;
  is_db_sync_state : string;              (* hive.get_sync_state() *)
  is_dumper : option dumper;
  is_trigger : option flush_trigger;
  is_irreversible_block_num : Z;
  is_cache : cached_data_t operation;     (* the cached_data_t& being worked on *)
  is_trace : list event;
  is_questions : nat
}.

Definition IS (A : Type) : Type := ST istate is_error A.

Definition set_cached_state_value (v : option INDEXATION) (s : istate) : istate :=
  Build_istate v (is_db_sync_state s) (is_dumper s) (is_trigger s) (is_irreversible_block_num s)
    (is_cache s) (is_trace s) (is_questions s).
Definition set_db_sync_state (v : string) (s : istate) : istate :=
  Build_istate (is_cached_state_value s) v (is_dumper s) (is_trigger s)
    (is_irreversible_block_num s) (is_cache s) (is_trace s) (is_questions s).
Definition set_dumper (d : option dumper) (s : istate) : istate :=
  Build_istate (is_cached_state_value s) (is_db_sync_state s) d (is_trigger s)
    (is_irreversible_block_num s) (is_cache s) (is_trace s) (is_questions s).
Definition set_trigger (t : option flush_trigger) (s : istate) : istate :=
  Build_istate (is_cached_state_value s) (is_db_sync_state s) (is_dumper s) t
    (is_irreversible_block_num s) (is_cache s) (is_trace s) (is_questions s).
Definition set_irreversible (n : Z) (s : istate) : istate :=
  Build_istate (is_cached_state_value s) (is_db_sync_state s) (is_dumper s) (is_trigger s) n
    (is_cache s) (is_trace s) (is_questions s).
Definition set_cache (c : cached_data_t operation) (s : istate) : istate :=
  Build_istate (is_cached_state_value s) (is_db_sync_state s) (is_dumper s) (is_trigger s)
    (is_irreversible_block_num s) c (is_trace s) (is_questions s).
Definition add_event (e : event) (s : istate) : istate :=
  Build_istate (is_cached_state_value s) (is_db_sync_state s) (is_dumper s) (is_trigger s)
    (is_irreversible_block_num s) (is_cache s) (e :: is_trace s) (is_questions s).
Definition next_question (s : istate) : istate :=
  Build_istate (is_cached_state_value s) (is_db_sync_state s) (is_dumper s) (is_trigger s)
    (is_irreversible_block_num s) (is_cache s) (is_trace s) (S (is_questions s)).

Definition emit (e : event) : IS unit := st_modify (add_event e).

Definition ask {A} (f : nat -> A) : IS A :=
  let* s := st_get in st_put (next_question s) ;;; st_ret (f (is_questions s)).

(** Runs a call on a local [cached_data_t]: the outer cache is untouched. *)
Definition on_local {A} (c : cached_data_t operation) (m : IS A) : IS A :=
  fun s => let '(r, s') := m (set_cache c s) in (r, set_cache (is_cache s) s').

  Context (cfg : is_config) (env : environment).

(** ** State in the database *)

Definition get_state : IS INDEXATION :=
  let* s := st_get in
  match is_cached_state_value s with
  | Some result => st_ret result
  | None =>
      match string_to_enum (is_db_sync_state s) with
      | Some result => st_modify (set_cached_state_value (Some result)) ;;; st_ret result
      | None => st_throw UnknownSyncState
      end
  end.

Definition set_state (_new_state : INDEXATION) : IS unit :=
  st_modify (set_db_sync_state (enum_to_string _new_state)) ;;;
  st_modify (set_cached_state_value None).

Definition is_pruning_enabled : bool := 0 <? cfg_pruning_tail_size cfg.

Definition wait_for_contexts : IS unit :=
  if negb is_pruning_enabled then st_ret tt
  else
    let* state := get_state in
    if decide (state = LIVE) then st_ret tt
    else emit (EvWaitForContexts (cfg_pruning_tail_size cfg)).

(** ** Dumping *)

(** [data_dumper::trigger_data_flush]: the real dumpers move all seven containers
    out of the cache; the live one accepts one block at a time. *)
Definition dump (d : dumper) (last_block_num : Z) : IS unit :=
  let* s := st_get in
  match d with
  | fake_data_dumper => st_ret tt
  | reindex_data_dumper _ =>
      emit (EvDumped d (is_cache s) last_block_num) ;;;
      st_modify (set_cache (clear_containers (is_cache s)))
  | livesync_data_dumper =>
      st_assert (length (blocks (is_cache s)) =? 1)%nat NotSingleBlock ;;;
      emit (EvDumped d (is_cache s) last_block_num) ;;;
      st_modify (set_cache (clear_containers (is_cache s)))
  end.

Definition force_trigger_flush_with_all_data (last_block_num : Z) : IS unit :=
  let* s := st_get in
  if bool_decide (blocks (is_cache s) = []) then st_ret tt
  else
    wait_for_contexts ;;;
    let* s' := st_get in
    match is_dumper s' with
    | None => st_throw NullPointer
    | Some d => dump d last_block_num
    end.

(** Cuts the cache at [n]; the moved part is flushed as a local cache. *)
Definition flush_upto (moved_rest : cached_data_t operation * cached_data_t operation)
    (last_block_num : Z) : IS unit :=
  st_modify (set_cache moved_rest.2) ;;;
  on_local moved_rest.1 (force_trigger_flush_with_all_data last_block_num).

(** The loop of [lite_live_flush_trigger::flush]: each turn moves at least the
    first block out, so as many turns as there are blocks are enough. *)
Fixpoint lite_flush_loop (fuel : nat) (irreversible_block_num : Z) : IS unit :=
  let* s := st_get in
  match blocks (is_cache s) with
  | [] => st_ret tt
  | front :: _ =>
      if u32 (pb_block_number front) <=? u32 irreversible_block_num then
        match fuel with
        | O => st_throw LoopOutOfFuel
        | S fuel' =>
            let current_block := pb_block_number front in
            flush_upto (move_cache_upto_block (is_cache s) (u32 current_block)) current_block ;;;
            lite_flush_loop fuel' irreversible_block_num
        end
      else st_ret tt
  end.

(** [flush_trigger::flush] of each implementation; every callback is
    [force_trigger_flush_with_all_data]. *)
Definition flush (t : flush_trigger) (last_block_num irreversible_block_num : Z) : IS unit :=
  match t with
  | fake_flush_trigger => st_ret tt
  | reindex_flush_trigger =>
      st_when (Z.rem last_block_num BLOCKS_PER_FLUSH =? 0)
        (force_trigger_flush_with_all_data last_block_num)
  | live_flush_trigger => force_trigger_flush_with_all_data last_block_num
  | p2p_flush_trigger last_flushed_block_num =>
      if irreversible_block_num =? NO_IRREVERSIBLE_BLOCK then st_ret tt
      else if irreversible_block_num - last_flushed_block_num <? MINIMUM_BLOCKS_PER_FLUSH
      then st_ret tt
      else
        let* s := st_get in
        flush_upto (move_irreveresible_blocks (is_cache s) (u32 irreversible_block_num))
          irreversible_block_num ;;;
        st_modify (set_trigger (Some (p2p_flush_trigger irreversible_block_num)))
  | lite_live_flush_trigger =>
      if irreversible_block_num =? NO_IRREVERSIBLE_BLOCK then st_ret tt
      else
        let* s := st_get in
        lite_flush_loop (length (blocks (is_cache s))) irreversible_block_num
  end.

Definition trigger_data_flush (last_block_num : Z) : IS unit :=
  let* s := st_get in
  match is_trigger s with
  | None => st_throw NullPointer
  | Some t => flush t last_block_num (is_irreversible_block_num s)
  end.

(** After P2P the reversible blocks are pushed one by one with the live dumper. *)
Fixpoint flush_all_data_to_reversible (fuel : nat) : IS unit :=
  let* s := st_get in
  match blocks (is_cache s) with
  | [] => st_ret tt
  | front :: _ =>
      let* interrupt := ask (env_interrupt env) in
      if interrupt then st_ret tt
      else
        match fuel with
        | O => st_throw LoopOutOfFuel
        | S fuel' =>
            let current_block := pb_block_number front in
            flush_upto (move_cache_upto_block (is_cache s) (u32 current_block)) current_block ;;;
            flush_all_data_to_reversible fuel'
        end
  end.

(** ** Transitions *)

Definition can_move_to_livesync : IS bool :=
  ask (fun i => env_behind_less_than env i (u32 (cfg_livesync_threshold cfg * 3))).

Definition expected_number_of_blocks_to_sync : IS Z :=
  let* seconds_behind := ask (env_seconds_behind env) in
  if seconds_behind <=? 0 then st_ret 0
  else st_ret (u32 (Z.quot seconds_behind 3)).

(** Drops constraints and indexes for a massive synchronisation of that many
    blocks; the dumper is synchronous when the constraints were kept. *)
Definition start_massive_sync (blocks_to_sync : Z) : IS unit :=
  emit (EvDisableConstraints blocks_to_sync) ;;;
  let* constraints_dropped := ask (fun i => env_constraints_dropped env i blocks_to_sync) in
  emit (EvDisableIndexes blocks_to_sync) ;;;
  st_modify (set_dumper (Some (reindex_data_dumper (negb constraints_dropped)))).

Definition reset_trigger_and_dumper : IS unit :=
  st_modify (set_trigger None) ;;; st_modify (set_dumper None).

Definition enter_p2p (last_block_num : Z) : IS unit :=
  force_trigger_flush_with_all_data (i32 last_block_num) ;;;
  reset_trigger_and_dumper ;;;
  set_state P2P ;;;
  let* blocks_to_sync := expected_number_of_blocks_to_sync in
  start_massive_sync blocks_to_sync ;;;
  st_modify (set_irreversible NO_IRREVERSIBLE_BLOCK) ;;;
  st_modify (set_trigger (Some (p2p_flush_trigger 0))).

Definition enter_reindex (last_block_num number_of_blocks_to_add : Z) : IS unit :=
  let* state := get_state in
  st_assert (bool_decide (state = START) || bool_decide (state = REINDEX_WAIT))
    ReindexFromWrongState ;;;
  force_trigger_flush_with_all_data (i32 last_block_num) ;;;
  reset_trigger_and_dumper ;;;
  set_state REINDEX ;;;
  let* blocks_to_sync :=
    if (number_of_blocks_to_add =? 0) || (number_of_blocks_to_add =? UNKNOWN)
    then expected_number_of_blocks_to_sync else st_ret number_of_blocks_to_add in
  start_massive_sync blocks_to_sync ;;;
  st_modify (set_trigger (Some reindex_flush_trigger)).

(** [move_irreversible_blocks] of the class, also inlined in the LIVE entry. *)
Definition move_irreversible_blocks : IS unit :=
  let* s := st_get in
  flush_upto (move_irreveresible_blocks (is_cache s) (u32 (is_irreversible_block_num s)))
    (is_irreversible_block_num s).

(** The second half of the LIVE entry, after the old dumper is gone. *)
Definition finish_live : IS unit :=
  emit EvEnableIndexes ;;;
  emit EvEnableConstraints ;;;
  emit EvPollIndexesThread ;;;
  st_modify (set_dumper (Some livesync_data_dumper)) ;;;
  if cfg_lite_mode cfg then
    st_modify (set_trigger (Some lite_live_flush_trigger)) ;;;
    st_modify (fun s => set_cache (clear_containers (is_cache s)) s)
  else
    st_modify (set_trigger (Some live_flush_trigger)) ;;;
    let* s := st_get in
    flush_all_data_to_reversible (length (blocks (is_cache s))).

Definition enter_live : IS unit :=
  let* state := get_state in
  st_when (negb (bool_decide (state = START))) move_irreversible_blocks ;;;
  reset_trigger_and_dumper ;;;
  set_state LIVE ;;;
  finish_live.

Definition enter_waiting (state : INDEXATION) : IS unit :=
  reset_trigger_and_dumper ;;;
  set_state state ;;;
  st_modify (set_trigger (Some fake_flush_trigger)) ;;;
  st_modify (set_dumper (Some fake_data_dumper)).

Definition update_state (state : INDEXATION) (last_block_num number_of_blocks_to_add : Z) : IS unit :=
  let* current := get_state in
  st_assert (negb (bool_decide (current = LIVE))) MoveFromLive ;;;
  if bool_decide (state = P2P) && negb (bool_decide (current = REINDEX)) &&
     cfg_prior_massive_sync_interrupted cfg &&
     negb (u32 last_block_num =? u32 (cfg_psql_head_at_startup cfg + 1)) then
    emit EvKillNode ;;; st_throw RefusedInterruptedSync
  else
    match state with
    | START => st_ret tt
    | P2P => enter_p2p (u32 last_block_num)
    | REINDEX => enter_reindex (u32 last_block_num) number_of_blocks_to_add
    | LIVE => enter_live
    | WAIT => enter_waiting WAIT
    | REINDEX_WAIT => enter_waiting REINDEX_WAIT
    end.

(** ** Handlers *)

Definition on_pre_reindex (last_block_num number_of_blocks_to_add : Z) : IS unit :=
  get_state ;;;
  let* live := can_move_to_livesync in
  if live then update_state WAIT 0 UNKNOWN
  else update_state REINDEX_WAIT last_block_num number_of_blocks_to_add.

Definition end_of_syncing (last_block_num _stop_replay_at : Z) : IS bool :=
  if _stop_replay_at =? 0 then st_ret false
  else if negb (_stop_replay_at =? last_block_num) then st_ret false
  else
    force_trigger_flush_with_all_data (i32 last_block_num) ;;;
    reset_trigger_and_dumper ;;;
    emit EvEnableIndexes ;;;
    emit EvEnableConstraints ;;;
    st_ret true.

Definition on_post_reindex (last_block_num _stop_replay_at : Z) : IS unit :=
  let* state := get_state in
  match state with
  | START | P2P | LIVE | WAIT => st_ret tt
  | REINDEX =>
      let* ended := end_of_syncing last_block_num _stop_replay_at in
      if ended then st_ret tt else update_state P2P last_block_num UNKNOWN
  | REINDEX_WAIT =>
      let* ended := end_of_syncing last_block_num _stop_replay_at in
      if ended then st_ret tt else update_state WAIT last_block_num UNKNOWN
  end.

Definition on_end_of_syncing (last_block_num : Z) : IS unit :=
  let* state := get_state in
  if decide (state = LIVE) then st_ret tt
  else update_state LIVE last_block_num UNKNOWN.

Definition on_first_block (last_block_num : Z) : IS unit :=
  on_local empty_cache
    (let* state := get_state in
     match state with
     | START | WAIT =>
         let* live := can_move_to_livesync in
         if live then update_state LIVE last_block_num UNKNOWN
         else update_state P2P last_block_num UNKNOWN
     | REINDEX_WAIT => update_state REINDEX last_block_num UNKNOWN
     | REINDEX | P2P | LIVE => st_ret tt
     end).

(** [last_block_num >= _psql_first_block] compares an [int] with a [uint32_t]. *)
Definition on_block (last_block_num : Z) : IS unit :=
  let* state := get_state in
  match state with
  | START => on_local empty_cache (update_state WAIT last_block_num UNKNOWN)
  | _ => st_ret tt
  end ;;;
  st_when (cfg_first_block cfg <=? u32 last_block_num) (on_first_block last_block_num).

Definition flush_all_cached_data (last_block_num : Z) : IS unit :=
  let* state := get_state in
  if decide (state = LIVE) then move_irreversible_blocks
  else force_trigger_flush_with_all_data last_block_num.

Definition on_irreversible_block (block_num : Z) : IS unit :=
  st_modify (set_irreversible (i32 block_num)).

Definition on_switch_fork (block_num : Z) : IS unit :=
  let* state := get_state in
  if (bool_decide (state = LIVE) && cfg_lite_mode cfg) || bool_decide (state = P2P) then
    st_modify (fun s => set_cache (erase_cache_greater_than_block (is_cache s) block_num) s)
  else st_ret tt.

Definition collect_blocks : IS bool :=
  let* state := get_state in
  st_ret (negb (Z.land (indexation_value state) COLLECT_BLOCKS_MASK =? 0)).

(** The constructor's last steps. *)
Definition construct (db_sync_state : string) : istate :=
  (set_state START
     {| is_cached_state_value := None; is_db_sync_state := db_sync_state; is_dumper := None;
        is_trigger := None; is_irreversible_block_num := NO_IRREVERSIBLE_BLOCK;
        is_cache := empty_cache; is_trace := []; is_questions := 0 |}).2.

(** ** Vocabulary of the properties *)

(** The current state, whether or not it is cached in memory. *)
Definition state_is (st : INDEXATION) (s : istate) : Prop :=
  string_to_enum (is_db_sync_state s) = Some st /\
  (is_cached_state_value s = None \/ is_cached_state_value s = Some st).

(** The trigger and the dumper that belong to a state. *)
Definition equipped (st : INDEXATION) (s : istate) : Prop :=
  match st with
  | START => is_trigger s = None /\ is_dumper s = None
  | WAIT | REINDEX_WAIT =>
      is_trigger s = Some fake_flush_trigger /\ is_dumper s = Some fake_data_dumper
  | REINDEX =>
      is_trigger s = Some reindex_flush_trigger /\
      exists b, is_dumper s = Some (reindex_data_dumper b)
  | P2P =>
      exists n b, is_trigger s = Some (p2p_flush_trigger n) /\
                  is_dumper s = Some (reindex_data_dumper b)
  | LIVE =>
      is_trigger s = Some (if cfg_lite_mode cfg then lite_live_flush_trigger else live_flush_trigger) /\
      is_dumper s = Some livesync_data_dumper
  end.

(** What has been handed to a real dumper, oldest first. *)
Definition dumps (s : istate) : list (dumper * cached_data_t operation * Z) :=
  omap (fun e => match e with EvDumped d c n => Some (d, c, n) | _ => None end) (rev (is_trace s)).

(** Equal members apart from the cache, the trace and the memory of the state. *)
Definition same_control (s s' : istate) : Prop :=
  is_db_sync_state s' = is_db_sync_state s /\ is_dumper s' = is_dumper s /\
  is_trigger s' = is_trigger s /\ is_irreversible_block_num s' = is_irreversible_block_num s /\
  (forall st, state_is st s -> state_is st s').

Definition dumps_as (d : dumper) : Prop := d <> fake_data_dumper.

(** ** Reading and writing the state *)

Lemma string_to_enum_to_string st : string_to_enum (enum_to_string st) = Some st.
Proof. by destruct st. Qed.

Lemma get_state_ok st s :
  state_is st s -> get_state s = (Ok st, set_cached_state_value (Some st) s).
Proof.
  intros [Hdb Hc]. unfold get_state, st_bind, st_get. destruct Hc as [Hc|Hc]; rewrite Hc.
  - rewrite Hdb. done.
  - destruct s. cbn in Hc. subst. done.
Qed.

Lemma state_is_fun st st' s : state_is st s -> state_is st' s -> st = st'.
Proof. intros [H1 _] [H2 _]. congruence. Qed.

Lemma state_is_cached st s : state_is st s -> state_is st (set_cached_state_value (Some st) s).
Proof. intros [H1 H2]. split; [done|by right]. Qed.

Lemma state_is_cached_inv st st' s :
  state_is st s -> state_is st' (set_cached_state_value (Some st) s) -> st' = st.
Proof. intros [H1 _] [H2 _]. cbn in H2. congruence. Qed.

Lemma same_control_refl s : same_control s s.
Proof. unfold same_control. tauto. Qed.

Lemma same_control_trans s1 s2 s3 : same_control s1 s2 -> same_control s2 s3 -> same_control s1 s3.
Proof.
  intros (A1&A2&A3&A4&A5) (B1&B2&B3&B4&B5).
  repeat (split; [congruence|]). intros st Hst. by apply B5, A5.
Qed.

Lemma same_control_cached st s :
  state_is st s -> same_control s (set_cached_state_value (Some st) s).
Proof.
  intros Hs. unfold same_control. cbn. repeat split; try done.
  - by destruct H.
  - right. cbn. by rewrite (state_is_fun _ _ _ Hs H).
Qed.

(** ** Dumping one cache *)

Lemma dumps_add_event_other e s :
  (forall d c n, e <> EvDumped d c n) -> dumps (add_event e s) = dumps s.
Proof.
  intros He. unfold dumps. cbn. rewrite omap_app. destruct e; cbn; rewrite ?app_nil_r; try done.
  exfalso. by eapply He.
Qed.

Lemma dumps_add_dumped d c n s : dumps (add_event (EvDumped d c n) s) = dumps s ++ [(d, c, n)].
Proof. unfold dumps. cbn. by rewrite omap_app. Qed.

Lemma wait_for_contexts_ok st s :
  state_is st s ->
  exists s', wait_for_contexts s = (Ok tt, s') /\ same_control s s' /\ is_cache s' = is_cache s /\
    dumps s' = dumps s.
Proof.
  intros Hs. unfold wait_for_contexts. destruct is_pruning_enabled; cbn [negb].
  - unfold st_bind. rewrite (get_state_ok _ _ Hs). destruct (decide (st = LIVE)).
    + eexists. split; [reflexivity|]. split; [by apply same_control_cached|done].
    + eexists. split; [reflexivity|]. split; [by apply (same_control_cached st)|].
      split; [done|]. unfold emit, st_modify. by rewrite dumps_add_event_other.
  - eexists. split; [reflexivity|]. split; [apply same_control_refl|done].
Qed.

Lemma force_flush_empty s n :
  blocks (is_cache s) = [] -> force_trigger_flush_with_all_data n s = (Ok tt, s).
Proof.
  intros Hb. unfold force_trigger_flush_with_all_data, st_bind, st_get.
  by rewrite bool_decide_true.
Qed.

(** A flush by a real dumper hands over the whole cache. *)
Lemma force_flush_dumps st s d n :
  state_is st s -> is_dumper s = Some d -> dumps_as d -> blocks (is_cache s) <> [] ->
  (d = livesync_data_dumper -> length (blocks (is_cache s)) = 1%nat) ->
  exists s', force_trigger_flush_with_all_data n s = (Ok tt, s') /\ same_control s s' /\
    is_cache s' = clear_containers (is_cache s) /\ dumps s' = dumps s ++ [(d, is_cache s, n)].
Proof.
  intros Hs Hd Hreal Hb Hone. unfold force_trigger_flush_with_all_data, st_bind at 1, st_get.
  rewrite bool_decide_false by done.
  destruct (wait_for_contexts_ok _ _ Hs) as (s1 & E1 & C1 & K1 & D1).
  unfold st_bind at 1. rewrite E1. unfold st_bind at 1, st_get.
  pose proof C1 as (_ & Hd1 & _). rewrite Hd1, Hd.
  exists (set_cache (clear_containers (is_cache s)) (add_event (EvDumped d (is_cache s) n) s1)).
  split; [|split; [|split]].
  - destruct d; [done| |]; unfold dump, st_bind, st_get, st_assert, emit, st_modify; rewrite K1; [done|].
    rewrite (Hone eq_refl). done.
  - eapply same_control_trans; [exact C1|]. unfold same_control. cbn. tauto.
  - done.
  - rewrite <- D1, <- dumps_add_dumped. done.
Qed.

Lemma set_cache_same_control c s : same_control s (set_cache c s).
Proof. unfold same_control. cbn. tauto. Qed.

(** Cutting the cache and flushing the first part, when the part has blocks. *)
Lemma flush_upto_dumps st s d moved rest n :
  state_is st s -> is_dumper s = Some d -> dumps_as d -> blocks moved <> [] ->
  (d = livesync_data_dumper -> length (blocks moved) = 1%nat) ->
  exists s', flush_upto (moved, rest) n s = (Ok tt, s') /\ same_control s s' /\
    is_cache s' = rest /\ dumps s' = dumps s ++ [(d, moved, n)].
Proof.
  intros Hs Hd Hreal Hb Hone.
  destruct (force_flush_dumps st (set_cache moved (set_cache rest s)) d n) as (s1 & E1 & C1 & K1 & D1);
    try done.
  unfold flush_upto, st_bind, st_modify, on_local. cbn [fst snd]. rewrite E1.
  eexists. split; [reflexivity|]. split; [|split; [done|exact D1]].
  eapply same_control_trans; [|apply set_cache_same_control].
  eapply same_control_trans; [|exact C1]. exact (set_cache_same_control moved s).
Qed.

(** ... and when it has none. *)
Lemma flush_upto_nothing s moved rest n :
  blocks moved = [] -> flush_upto (moved, rest) n s = (Ok tt, set_cache rest s).
Proof.
  intros Hb. unfold flush_upto, st_bind, st_modify, on_local. cbn [fst snd].
  rewrite force_flush_empty by done. by destruct s.
Qed.

(** ** Dumping block by block *)

(** One dump per block number, with exactly the rows of that block. *)
Definition per_block (d : dumper) (c : cached_data_t operation) (bs : list Z)
  : list (dumper * cached_data_t operation * Z) :=
  map (fun b => (d, fresh_cache (cache_where (fun x => x =? b) c), b)) bs.

Definition block_numbers (c : cached_data_t operation) : list Z := map pb_block_number (blocks c).

Lemma per_block_where d c b bs :
  Forall (fun x => b < x) bs ->
  per_block d (cache_where (fun x => b <? x) c) bs = per_block d c bs.
Proof.
  intros Hb. unfold per_block. induction Hb as [|x bs Hx Hb IH]; [done|]. cbn [map].
  rewrite IH. f_equal. f_equal. f_equal. f_equal. rewrite cache_where_comp.
  assert (forall y, (y =? x) && (b <? y) = (y =? x)) as E by (intros y; lia).
  apply (cache_where_ext _ _ (fun _ => True)); [|auto].
  unfold cache_all, on_containers. repeat split; by apply Forall_true.
Qed.

Lemma cache_ok_block_number (c : cached_data_t operation) x v :
  cache_ok c -> blocks c = x :: v -> 0 <= pb_block_number x < INT32_MAX.
Proof.
  intros Hok Hb. pose proof (ok_range _ Hok) as (Hr & _). rewrite Hb in Hr. by inversion Hr.
Qed.

(** One turn of the loops: the first block goes out with its rows. *)
Lemma flush_front st s d x v :
  state_is st s -> is_dumper s = Some d -> dumps_as d -> cache_ok (is_cache s) ->
  blocks (is_cache s) = x :: v ->
  let b := pb_block_number x in
  exists s', flush_upto (move_cache_upto_block (is_cache s) (u32 b)) b s = (Ok tt, s') /\
    same_control s s' /\ is_cache s' = cache_where (fun y => b <? y) (is_cache s) /\
    dumps s' = dumps s ++ per_block d (is_cache s) [b] /\
    blocks (is_cache s') = v /\ cache_ok (is_cache s').
Proof.
  intros Hs Hd Hreal Hok Hb b. pose proof (cache_ok_block_number _ _ _ Hok Hb) as Hr. fold b in Hr.
  rewrite u32_small by (unfold INT32_MAX, UINT32_MAX in *; lia).
  rewrite move_cache_upto_block_spec by (apply ok_sorted || lia; done).
  destruct (blocks_where_front _ _ _ Hok Hb) as [Hfront Htail].
  destruct (flush_upto_dumps st s d (fresh_cache (cache_where (fun y => y <=? b) (is_cache s)))
    (cache_where (fun y => b <? y) (is_cache s)) b) as (s1 & E1 & C1 & K1 & D1);
    [done|done|done|cbn; unfold b; by rewrite Hfront|intros _; cbn; unfold b; by rewrite Hfront|].
  exists s1. split; [done|]. split; [done|]. split; [done|]. split; [|split].
  - rewrite D1. cbn. f_equal. f_equal. f_equal. f_equal. f_equal.
    apply (cache_where_ext _ _ (fun y => b <= y)); [by eapply cache_ok_front|intros; lia].
  - rewrite K1. exact Htail.
  - rewrite K1. by apply cache_ok_where.
Qed.

Lemma block_numbers_above (c : cached_data_t operation) x v :
  cache_ok c -> blocks c = x :: v -> Forall (fun y => pb_block_number x < y) (map pb_block_number v).
Proof.
  intros Hok Hb. pose proof (ok_blocks _ Hok) as Hs. rewrite Hb in Hs.
  apply StronglySorted_inv in Hs as [_ Hf]. by apply Forall_fmap.
Qed.

Lemma filter_none_above (irr : Z) l : Forall (fun y => irr < y) l -> filter (fun y => y <= irr) l = [].
Proof. induction 1; [done|]. rewrite filter_cons_False by lia. done. Qed.

Lemma lite_flush_loop_spec st s d irr fuel :
  state_is st s -> is_dumper s = Some d -> dumps_as d -> cache_ok (is_cache s) ->
  0 <= irr < INT32_MAX -> (length (blocks (is_cache s)) <= fuel)%nat ->
  exists s', lite_flush_loop fuel irr s = (Ok tt, s') /\ same_control s s' /\
    is_cache s' = cache_where (fun y => irr <? y) (is_cache s) /\
    dumps s' = dumps s ++
      per_block d (is_cache s) (filter (fun y => y <= irr) (block_numbers (is_cache s))).
Proof.
  intros Hs Hd Hreal Hok Hi. unfold block_numbers. remember (blocks (is_cache s)) as v eqn:Hb.
  revert s fuel Hs Hd Hok Hb.
  induction v as [|x v IH]; intros s fuel Hs Hd Hok Hb Hf; symmetry in Hb.
  - exists s. split; [destruct fuel; cbn; unfold st_bind, st_get; by rewrite Hb|].
    split; [apply same_control_refl|]. split; [|cbn; by rewrite app_nil_r].
    symmetry. rewrite (cache_ok_no_blocks _ Hok Hb) at 1. rewrite (cache_ok_no_blocks _ Hok Hb) at 2. done.
  - pose proof (cache_ok_block_number _ _ _ Hok Hb) as Hr.
    pose proof (block_numbers_above _ _ _ Hok Hb) as Habove.
    destruct fuel as [|fuel]; [cbn in Hf; lia|]. cbn [lite_flush_loop].
    unfold st_bind at 1, st_get. rewrite Hb.
    rewrite !u32_small by (unfold INT32_MAX, UINT32_MAX in *; lia).
    destruct (Z.leb_spec (pb_block_number x) irr) as [Hle|Hgt].
    + destruct (flush_front _ _ _ _ _ Hs Hd Hreal Hok Hb) as (s1 & E1 & C1 & K1 & D1 & B1 & Hok1).
      rewrite u32_small in E1 by (unfold INT32_MAX, UINT32_MAX in *; lia).
      pose proof C1 as (_ & Hd1 & _ & _ & Hst1).
      destruct (IH s1 fuel) as (s2 & E2 & C2 & K2 & D2);
        [by apply Hst1|congruence|done|done|cbn in Hf; lia|].
      exists s2. split; [unfold st_bind; rewrite E1; exact E2|].
      split; [by eapply same_control_trans|]. split.
      * rewrite K2, K1, cache_where_comp.
        apply (cache_where_ext _ _ (fun _ => True)); [|intros; lia].
        unfold cache_all, on_containers. repeat split; by apply Forall_true.
      * rewrite D2, D1, K1, <- app_assoc. cbn [map]. f_equal.
        rewrite filter_cons_True by done. cbn [per_block map app]. f_equal. apply per_block_where.
        apply Forall_forall. intros y [_ Hy]%list_elem_of_filter. by eapply Forall_forall in Habove.
    + exists s. split; [done|]. split; [apply same_control_refl|]. split.
      * symmetry. apply cache_where_true. eapply cache_all_impl; [|by eapply cache_ok_front].
        intros y Hy. simpl in Hy. lia.
      * cbn [map]. rewrite filter_cons_False by lia. rewrite filter_none_above; [by rewrite app_nil_r|].
        eapply Forall_impl; [exact Habove|]. intros y Hy. simpl in Hy. lia.
Qed.

Lemma flush_all_data_to_reversible_unfold fuel s :
  flush_all_data_to_reversible fuel s =
  match blocks (is_cache s) with
  | [] => (Ok tt, s)
  | front :: _ =>
      if env_interrupt env (is_questions s) then (Ok tt, next_question s)
      else match fuel with
           | O => (Throw LoopOutOfFuel, next_question s)
           | S fuel' =>
               (flush_upto (move_cache_upto_block (is_cache s) (u32 (pb_block_number front)))
                  (pb_block_number front) ;;; flush_all_data_to_reversible fuel') (next_question s)
           end
  end.
Proof.
  destruct fuel; cbn [flush_all_data_to_reversible]; unfold st_bind at 1, st_get;
    (destruct (blocks (is_cache s)); [done|]); unfold ask, st_bind at 1, st_bind at 1, st_get, st_put, st_ret;
    unfold st_bind at 1; by destruct (env_interrupt env (is_questions s)).
Qed.

Lemma flush_reversible_spec st s d fuel :
  state_is st s -> is_dumper s = Some d -> dumps_as d -> cache_ok (is_cache s) ->
  (length (blocks (is_cache s)) <= fuel)%nat ->
  exists s' k, flush_all_data_to_reversible fuel s = (Ok tt, s') /\ same_control s s' /\
    dumps s' = dumps s ++ per_block d (is_cache s) (take k (block_numbers (is_cache s))) /\
    blocks (is_cache s') = drop k (blocks (is_cache s)) /\ cache_ok (is_cache s') /\
    ((forall i, env_interrupt env i = false) -> k = length (blocks (is_cache s))).
Proof.
  intros Hs Hd Hreal Hok. unfold block_numbers. remember (blocks (is_cache s)) as v eqn:Hb.
  revert s fuel Hs Hd Hok Hb.
  induction v as [|x v IH]; intros s fuel Hs Hd Hok Hb Hf; symmetry in Hb.
  - exists s, 0%nat. split; [by rewrite flush_all_data_to_reversible_unfold, Hb|].
    split; [apply same_control_refl|]. split; [by rewrite app_nil_r|]. done.
  - pose proof (block_numbers_above _ _ _ Hok Hb) as Habove.
    set (s0 := next_question s).
    assert (same_control s s0) as C0 by (unfold same_control; cbn; tauto).
    destruct (env_interrupt env (is_questions s)) eqn:Eint.
    + exists s0, 0%nat. split; [|split; [done|]].
      { by rewrite flush_all_data_to_reversible_unfold, Hb, Eint. }
      split; [by rewrite app_nil_r|]. split; [done|]. split; [done|].
      intros Hno. by rewrite Hno in Eint.
    + destruct fuel as [|fuel]; [cbn in Hf; lia|].
      destruct (flush_front st s0 d x v) as (s1 & E1 & C1 & K1 & D1 & B1 & Hok1);
        [by apply C0|done|done|done|done|].
      pose proof C1 as (_ & Hd1 & _ & _ & Hst1).
      destruct (IH s1 fuel) as (s2 & k & E2 & C2 & D2 & B2 & Hok2 & Hk);
        [apply Hst1; by apply C0|by rewrite Hd1|done|done|cbn in Hf; lia|].
      exists s2, (S k). split; [|split; [|split; [|split; [|split]]]].
      * rewrite flush_all_data_to_reversible_unfold, Hb, Eint. fold s0.
        change (is_cache s) with (is_cache s0). unfold st_bind. rewrite E1. exact E2.
      * eapply same_control_trans; [exact C0|]. by eapply same_control_trans.
      * rewrite D2, D1, K1, <- app_assoc. cbn [map take]. change (dumps s0) with (dumps s). f_equal.
        cbn [per_block map app]. f_equal. apply per_block_where.
        apply Forall_take. exact Habove.
      * exact B2.
      * exact Hok2.
      * intros Hno. cbn. by rewrite (Hk Hno).
Qed.

(** ** Entering a state *)

Lemma state_is_set st s :
  state_is st (set_cached_state_value None (set_db_sync_state (enum_to_string st) s)).
Proof. split; [apply string_to_enum_to_string|by left]. Qed.

(** The members once the old trigger and dumper are gone and the state is stored. *)
Definition entered (st : INDEXATION) (s : istate) : istate :=
  Build_istate None (enum_to_string st) None None (is_irreversible_block_num s) (is_cache s)
    (is_trace s) (is_questions s).

Lemma reset_and_set st {A} (k : IS A) s :
  (reset_trigger_and_dumper ;;; (set_state st ;;; k)) s = k (entered st s).
Proof. reflexivity. Qed.

Lemma enter_waiting_spec st s :
  st = WAIT \/ st = REINDEX_WAIT ->
  exists s', enter_waiting st s = (Ok tt, s') /\ state_is st s' /\ equipped st s' /\
    is_cache s' = is_cache s /\ dumps s' = dumps s /\
    is_irreversible_block_num s' = is_irreversible_block_num s.
Proof.
  intros Hst. eexists. split; [reflexivity|]. split; [apply state_is_set|].
  split; [by destruct Hst as [-> | ->]|done].
Qed.

(** A flush of the cache by whatever dumper is installed, when that is not the live one. *)
Definition flushable (s : istate) : Prop :=
  blocks (is_cache s) = [] \/ exists b, is_dumper s = Some (reindex_data_dumper b).

Lemma force_flush_flushable st s n :
  state_is st s -> flushable s -> cache_ok (is_cache s) ->
  exists s', force_trigger_flush_with_all_data n s = (Ok tt, s') /\ same_control s s' /\
    is_cache s' = clear_containers (is_cache s) /\
    dumps s' = dumps s ++
      match blocks (is_cache s), is_dumper s with
      | _ :: _, Some d => [(d, is_cache s, n)]
      | _, _ => []
      end.
Proof.
  intros Hs Hf Hok. destruct (decide (blocks (is_cache s) = [])) as [Hb|Hb].
  - exists s. rewrite force_flush_empty by done. split; [done|]. split; [apply same_control_refl|].
    split; [by apply cache_ok_no_blocks|]. by rewrite Hb, app_nil_r.
  - destruct Hf as [?|[b Hd]]; [done|].
    destruct (force_flush_dumps st s _ n Hs Hd) as (s' & E & C & K & D); [done|done|done|].
    exists s'. split; [done|]. split; [done|]. split; [done|]. rewrite D, Hd.
    by destruct (blocks (is_cache s)).
Qed.

(** What [start_massive_sync] leaves. *)
Lemma start_massive_sync_spec n s :
  exists s' b, start_massive_sync n s = (Ok tt, s') /\
    is_dumper s' = Some (reindex_data_dumper b) /\ is_trigger s' = is_trigger s /\
    is_cache s' = is_cache s /\ dumps s' = dumps s /\ is_db_sync_state s' = is_db_sync_state s /\
    is_cached_state_value s' = is_cached_state_value s /\
    is_irreversible_block_num s' = is_irreversible_block_num s.
Proof.
  eexists _, _. split; [reflexivity|]. repeat (split; [reflexivity|]). split; [|done].
  unfold dumps. cbn. rewrite !omap_app. cbn. by rewrite !app_nil_r.
Qed.

Lemma expected_blocks_spec s :
  exists n, expected_number_of_blocks_to_sync s = (Ok n, next_question s).
Proof.
  unfold expected_number_of_blocks_to_sync, ask, st_bind, st_get, st_put, st_ret.
  case_match; eauto.
Qed.

Lemma enter_p2p_spec st s n :
  state_is st s -> flushable s -> cache_ok (is_cache s) ->
  exists s', enter_p2p n s = (Ok tt, s') /\ state_is P2P s' /\ equipped P2P s' /\
    is_trigger s' = Some (p2p_flush_trigger 0) /\
    is_irreversible_block_num s' = NO_IRREVERSIBLE_BLOCK /\
    is_cache s' = clear_containers (is_cache s) /\
    dumps s' = dumps s ++
      match blocks (is_cache s), is_dumper s with
      | _ :: _, Some d => [(d, is_cache s, i32 n)]
      | _, _ => []
      end.
Proof.
  intros Hs Hf Hok.
  destruct (force_flush_flushable st s (i32 n) Hs Hf Hok) as (s1 & E1 & C1 & K1 & D1).
  unfold enter_p2p, st_bind at 1. rewrite E1.
  rewrite reset_and_set. set (s2 := entered P2P s1).
  destruct (expected_blocks_spec s2) as [k Ek]. unfold st_bind at 1. rewrite Ek.
  destruct (start_massive_sync_spec k (next_question s2)) as (s3 & b & E3 & F1 & F2 & F3 & F4 & F5 & F6 & _).
  unfold st_bind. rewrite E3. eexists. split; [reflexivity|].
  split; [|split; [|split; [done|split; [done|split]]]].
  - unfold state_is. cbn. rewrite F5, F6. split; [reflexivity|by left].
  - exists 0, b. cbn. done.
  - cbn. by rewrite F3.
  - rewrite <- D1. change (dumps s3 = dumps s1). by rewrite F4.
Qed.

Lemma enter_reindex_spec st s n k :
  state_is st s -> st = START \/ st = REINDEX_WAIT -> flushable s -> cache_ok (is_cache s) ->
  exists s', enter_reindex n k s = (Ok tt, s') /\ state_is REINDEX s' /\ equipped REINDEX s' /\
    is_cache s' = clear_containers (is_cache s) /\
    is_irreversible_block_num s' = is_irreversible_block_num s.
Proof.
  intros Hs Hst Hf Hok. unfold enter_reindex, st_bind at 1. rewrite (get_state_ok _ _ Hs).
  unfold st_bind at 1, st_assert. rewrite orb_true_intro by (rewrite !bool_decide_eq_true; done).
  unfold st_ret at 1.
  set (s0 := set_cached_state_value (Some st) s). pose proof (state_is_cached _ _ Hs) as Hs0. fold s0 in Hs0.
  destruct (force_flush_flushable st s0 (i32 n) Hs0 Hf Hok) as (s1 & E1 & C1 & K1 & _).
  unfold st_bind at 1. rewrite E1. rewrite reset_and_set. set (s2 := entered REINDEX s1).
  assert (exists m s3, (if (k =? 0) || (k =? UNKNOWN)
    then expected_number_of_blocks_to_sync : ST istate is_error Z
    else st_ret k) s2 = (Ok m, s3) /\ (s3 = s2 \/ s3 = next_question s2)) as (m & s3 & E3 & Hs3).
  { case_match; [destruct (expected_blocks_spec s2) as [m Em]; eauto 10|eexists _, _; split; [reflexivity|by left]]. }
  unfold st_bind at 1. rewrite E3.
  destruct (start_massive_sync_spec m s3) as (s4 & b & E4 & F1 & F2 & F3 & F4 & F5 & F6 & F7).
  unfold st_bind. rewrite E4. eexists. split; [reflexivity|].
  assert (is_db_sync_state s3 = enum_to_string REINDEX /\ is_cached_state_value s3 = None /\
    is_cache s3 = is_cache s1 /\ is_irreversible_block_num s3 = is_irreversible_block_num s1)
    as (G1 & G2 & G3 & G4) by (destruct Hs3 as [-> | ->]; done).
  split; [|split; [|split]].
  - unfold state_is. cbn. rewrite F5, F6, G1, G2. split; [reflexivity|by left].
  - split; [done|]. by exists b.
  - cbn. rewrite F3, G3. exact K1.
  - cbn. rewrite F7, G4. destruct C1 as (_&_&_&Hi&_). exact Hi.
Qed.

(** The live dumper refuses anything but one block. *)
Lemma force_flush_refused st s n :
  state_is st s -> is_dumper s = Some livesync_data_dumper -> blocks (is_cache s) <> [] ->
  length (blocks (is_cache s)) <> 1%nat ->
  exists s', force_trigger_flush_with_all_data n s = (Throw NotSingleBlock, s') /\ same_control s s' /\
    is_cache s' = is_cache s /\ dumps s' = dumps s.
Proof.
  intros Hs Hd Hb Hone. unfold force_trigger_flush_with_all_data, st_bind at 1, st_get.
  rewrite bool_decide_false by done.
  destruct (wait_for_contexts_ok _ _ Hs) as (s1 & E1 & C1 & K1 & D1).
  unfold st_bind at 1. rewrite E1. unfold st_bind at 1, st_get.
  pose proof C1 as (_ & Hd1 & _). rewrite Hd1, Hd. exists s1. split; [|done].
  unfold dump, st_bind, st_get, st_assert. rewrite K1. by rewrite (proj2 (Nat.eqb_neq _ _) Hone).
Qed.

(** Flushing with any installed dumper: at worst the live one refuses. *)
Lemma force_flush_any st s n :
  state_is st s -> blocks (is_cache s) = [] \/ is_Some (is_dumper s) -> cache_ok (is_cache s) ->
  exists r s', force_trigger_flush_with_all_data n s = (r, s') /\ same_control s s' /\
    cache_ok (is_cache s') /\
    (r = Ok tt \/ r = Throw NotSingleBlock /\ is_dumper s = Some livesync_data_dumper).
Proof.
  intros Hs Hd Hok. destruct (decide (blocks (is_cache s) = [])) as [Hb|Hb].
  { exists (Ok tt), s. rewrite force_flush_empty by done.
    split; [done|]. split; [apply same_control_refl|]. auto. }
  destruct Hd as [?|[d Hd]]; [done|].
  destruct (decide (d = livesync_data_dumper /\ length (blocks (is_cache s)) <> 1%nat)) as [[-> Hone]|Hone].
  - destruct (force_flush_refused st s n Hs Hd Hb Hone) as (s1 & E1 & C1 & K1 & _).
    exists (Throw NotSingleBlock), s1. split; [done|]. split; [done|]. split; [by rewrite K1|by right].
  - destruct (decide (d = fake_data_dumper)) as [->|Hreal].
    + unfold force_trigger_flush_with_all_data, st_bind at 1, st_get. rewrite bool_decide_false by done.
      destruct (wait_for_contexts_ok _ _ Hs) as (s1 & E1 & C1 & K1 & D1).
      unfold st_bind at 1. rewrite E1. unfold st_bind at 1, st_get.
      pose proof C1 as (_ & Hd1 & _). rewrite Hd1, Hd. exists (Ok tt), s1.
      split; [done|]. split; [done|]. split; [by rewrite K1|by left].
    + destruct (force_flush_dumps st s d n Hs Hd Hreal Hb) as (s' & E & C & K & _).
      { intros ->. destruct (decide (length (blocks (is_cache s)) = 1%nat)); [done|]. exfalso. by apply Hone. }
      exists (Ok tt), s'. split; [done|]. split; [done|]. split; [rewrite K; apply cache_ok_clear|by left].
Qed.

Lemma flush_upto_any st s moved rest n :
  state_is st s -> blocks moved = [] \/ is_Some (is_dumper s) -> cache_ok moved ->
  exists r s', flush_upto (moved, rest) n s = (r, s') /\ same_control s s' /\ is_cache s' = rest /\
    (r = Ok tt \/ r = Throw NotSingleBlock /\ is_dumper s = Some livesync_data_dumper).
Proof.
  intros Hs Hd Hok.
  destruct (force_flush_any st (set_cache moved (set_cache rest s)) n) as (r & s1 & E1 & C1 & K1 & Hr);
    [done|done|done|].
  unfold flush_upto, st_bind, st_modify, on_local. cbn [fst snd]. rewrite E1.
  eexists _, _. split; [reflexivity|]. split; [|split; [done|exact Hr]].
  eapply same_control_trans; [|apply set_cache_same_control].
  eapply same_control_trans; [|exact C1]. exact (set_cache_same_control moved s).
Qed.

Definition irreversible_ok (s : istate) : Prop := 0 <= is_irreversible_block_num s <= INT32_MAX.

Lemma move_parts_ok (c : cached_data_t operation) n :
  cache_ok c -> 0 <= n <= INT32_MAX ->
  cache_ok (move_irreveresible_blocks c (u32 n)).1 /\ cache_ok (move_irreveresible_blocks c (u32 n)).2.
Proof.
  intros Hok Hn. rewrite u32_small by (unfold UINT32_MAX, INT32_MAX in *; lia).
  unfold move_irreveresible_blocks. case_match.
  - split; [|done]. apply (cache_ok_clear empty_cache).
  - rewrite move_cache_upto_block_spec by (apply ok_sorted || lia; done).
    split; [apply cache_ok_fresh|]; by apply cache_ok_where.
Qed.

Lemma move_irreversible_blocks_any st s :
  state_is st s -> is_Some (is_dumper s) -> cache_ok (is_cache s) -> irreversible_ok s ->
  exists r s', move_irreversible_blocks s = (r, s') /\ same_control s s' /\ cache_ok (is_cache s') /\
    (r = Ok tt \/ r = Throw NotSingleBlock /\ is_dumper s = Some livesync_data_dumper).
Proof.
  intros Hs Hd Hok Hi. destruct (move_parts_ok _ _ Hok Hi) as [H1 H2].
  unfold move_irreversible_blocks, st_bind, st_get.
  destruct (move_irreveresible_blocks (is_cache s) (u32 (is_irreversible_block_num s))) as [moved rest].
  destruct (flush_upto_any st s moved rest (is_irreversible_block_num s) Hs (or_intror Hd) H1)
    as (r & s' & E & C & K & Hr).
  exists r, s'. split; [exact E|]. split; [done|]. split; [by rewrite K|done].
Qed.

Lemma finish_live_spec s :
  cache_ok (is_cache s) ->
  exists s', finish_live (entered LIVE s) = (Ok tt, s') /\ state_is LIVE s' /\ equipped LIVE s' /\
    cache_ok (is_cache s') /\ is_irreversible_block_num s' = is_irreversible_block_num s /\
    (cfg_lite_mode cfg = true -> dumps s' = dumps s /\ is_cache s' = clear_containers (is_cache s)) /\
    (cfg_lite_mode cfg = false -> (forall i, env_interrupt env i = false) ->
      dumps s' = dumps s ++ per_block livesync_data_dumper (is_cache s) (block_numbers (is_cache s)) /\
      blocks (is_cache s') = []).
Proof.
  intros Hok. unfold finish_live, equipped. destruct (cfg_lite_mode cfg).
  - eexists. split; [reflexivity|]. split; [split; [reflexivity|by left]|].
    split; [done|]. split; [apply cache_ok_clear|]. split; [done|]. split; [|done].
    intros _. split; [|done]. unfold dumps. cbn. rewrite !omap_app. cbn. by rewrite !app_nil_r.
  - set (s1 := set_trigger (Some live_flush_trigger) (set_dumper (Some livesync_data_dumper)
      (add_event EvPollIndexesThread (add_event EvEnableConstraints
        (add_event EvEnableIndexes (entered LIVE s)))))).
    destruct (flush_reversible_spec LIVE s1 livesync_data_dumper (length (blocks (is_cache s))))
      as (s' & k & E & C & D & B & Hok' & Hk); try done; [split; [reflexivity|by left]|].
    exists s'. split; [exact E|]. destruct C as (C1 & C2 & C3 & C4 & C5).
    split; [apply C5; split; [reflexivity|by left]|]. rewrite C2, C3.
    split; [done|]. split; [done|]. split; [exact C4|]. split; [done|].
    intros _ Hno. specialize (Hk Hno). rewrite B, D, Hk. split; [|by apply drop_ge].
    rewrite take_ge by (unfold block_numbers; rewrite length_map; done).
    f_equal. unfold dumps. cbn. rewrite !omap_app. cbn. by rewrite !app_nil_r.
Qed.

(** ** Safety of the handlers *)

(** Transitions a single call can make. *)
Definition transition_allowed (st st' : INDEXATION) : bool :=
  match st, st' with
  | LIVE, LIVE => true
  | LIVE, _ => false
  | START, REINDEX => false
  | _, START => bool_decide (st = START)
  | WAIT, REINDEX => false
  | P2P, REINDEX => false
  | REINDEX_WAIT, P2P => false
  | _, _ => true
  end.

Record good_in (st : INDEXATION) (s : istate) : Prop := {
  good_state : state_is st s;
  good_equipped : equipped st s;
  good_cache : cache_ok (is_cache s);
  good_irreversible : irreversible_ok s
}.

Definition fatal (e : is_error) : bool :=
  match e with NullPointer | UnknownSyncState | LoopOutOfFuel => true | _ => false end.

(** A call returns, or throws one of the deliberate errors, in a good state. *)
Definition safe {A} (m : IS A) (st : INDEXATION) (s : istate) : Prop :=
  exists r s' st', m s = (r, s') /\ good_in st' s' /\ transition_allowed st st' = true /\
    (forall e, r = Throw e -> fatal e = false).

Lemma transition_refl st : transition_allowed st st = true.
Proof. by destruct st. Qed.

Lemma good_cached st s : good_in st s -> good_in st (set_cached_state_value (Some st) s).
Proof.
  intros [H1 H2 H3 H4]. constructor; [by apply state_is_cached| |done|done].
  destruct st; exact H2.
Qed.

Lemma same_control_good st s s' :
  good_in st s -> same_control s s' -> cache_ok (is_cache s') -> good_in st s'.
Proof.
  intros [H1 H2 H3 H4] (C1 & C2 & C3 & C4 & C5) Hok. constructor; [by apply C5| |done|].
  - destruct st; unfold equipped in *; rewrite C2, C3; exact H2.
  - unfold irreversible_ok in *. by rewrite C4.
Qed.

Lemma equipped_dumper st s : equipped st s -> st <> START -> is_Some (is_dumper s).
Proof. intros He Hst. destruct st; cbn in He; try done; destruct_and?; naive_solver. Qed.

Lemma safe_ok st s s' :
  good_in st s' -> forall (m : IS unit) r, m s = (r, s') ->
  (forall e, r = Throw e -> fatal e = false) -> safe m st s.
Proof. intros Hg m r Hm Hr. exists r, s', st. auto using transition_refl. Qed.

Lemma single_block_error (r : outcome is_error unit) (P : Prop) :
  r = Ok tt \/ r = Throw NotSingleBlock /\ P -> forall e, r = Throw e -> fatal e = false.
Proof. intros [->|[-> _]] e He; [done|]. by injection He as <-. Qed.

Lemma enter_live_result st s :
  good_in st s -> st <> LIVE -> exists s', enter_live s = (Ok tt, s') /\ good_in LIVE s'.
Proof.
  intros G Hst. pose proof (good_cached _ _ G) as G0.
  set (s0 := set_cached_state_value (Some st) s) in *.
  assert (exists s1, st_when (negb (bool_decide (st = START))) move_irreversible_blocks s0 = (Ok tt, s1) /\
    cache_ok (is_cache s1) /\ is_irreversible_block_num s1 = is_irreversible_block_num s0)
    as (s1 & E1 & Hok1 & Hi1).
  { case_bool_decide as Hb; cbn [negb st_when].
    - exists s0. split; [done|]. split; [apply (good_cache _ _ G0)|done].
    - destruct (move_irreversible_blocks_any st s0 (good_state _ _ G0)
        (equipped_dumper _ _ (good_equipped _ _ G0) Hb) (good_cache _ _ G0) (good_irreversible _ _ G0))
        as (r & s1 & E & (C1 & C2 & C3 & C4 & C5) & Hok & Hr).
      exists s1. split; [|done]. destruct Hr as [->|[_ Hl]]; [done|]. exfalso.
      pose proof (good_equipped _ _ G0) as He. destruct st; cbn in He, Hl; naive_solver. }
  destruct (finish_live_spec s1 Hok1) as (s2 & E2 & Hs2 & He2 & Hok2 & Hi2 & _).
  exists s2. split.
  - unfold enter_live, st_bind at 1. rewrite (get_state_ok _ _ (good_state _ _ G)). fold s0.
    unfold st_bind at 1. rewrite E1, reset_and_set. exact E2.
  - constructor; try done. unfold irreversible_ok. rewrite Hi2, Hi1. apply (good_irreversible _ _ G).
Qed.

Lemma enter_live_safe st s :
  good_in st s -> st <> LIVE -> safe enter_live st s.
Proof.
  intros G Hst. destruct (enter_live_result st s G Hst) as (s' & E & G').
  exists (Ok tt), s', LIVE. split; [done|]. split; [done|]. split; [by destruct st|done].
Qed.

(** The part of [update_state] after its checks. *)
Definition enter (state : INDEXATION) (last_block_num number_of_blocks_to_add : Z) : IS unit :=
  match state with
  | START => st_ret tt
  | P2P => enter_p2p (u32 last_block_num)
  | REINDEX => enter_reindex (u32 last_block_num) number_of_blocks_to_add
  | LIVE => enter_live
  | WAIT => enter_waiting WAIT
  | REINDEX_WAIT => enter_waiting REINDEX_WAIT
  end.

Definition refuses (state current : INDEXATION) (last_block_num : Z) : bool :=
  bool_decide (state = P2P) && negb (bool_decide (current = REINDEX)) &&
  cfg_prior_massive_sync_interrupted cfg &&
  negb (u32 last_block_num =? u32 (cfg_psql_head_at_startup cfg + 1)).

Lemma update_state_unfold st s target n k :
  state_is st s ->
  update_state target n k s =
  let s0 := set_cached_state_value (Some st) s in
  if bool_decide (st = LIVE) then (Throw MoveFromLive, s0)
  else if refuses target st n then (Throw RefusedInterruptedSync, add_event EvKillNode s0)
  else enter target n k s0.
Proof.
  intros Hs. unfold update_state, st_bind at 1. rewrite (get_state_ok _ _ Hs).
  unfold st_bind at 1, st_assert. destruct (bool_decide (st = LIVE)); [done|]. cbn [negb].
  unfold st_ret at 1. fold (refuses target st n). destruct (refuses target st n); [done|].
  by destruct target.
Qed.

Lemma add_event_good st e s : good_in st s -> good_in st (add_event e s).
Proof. intros [H1 H2 H3 H4]. constructor; [exact H1|by destruct st|exact H3|exact H4]. Qed.

(** Every move the handlers ask for is safe. *)
Lemma update_state_safe st s target n k :
  good_in st s -> transition_allowed st target = true \/ st = LIVE -> target <> START ->
  (target = P2P \/ target = REINDEX -> flushable s) ->
  (target = REINDEX -> st = START \/ st = REINDEX_WAIT) ->
  safe (update_state target n k) st s.
Proof.
  intros G Ht Hns Hf Hre. pose proof (good_cached _ _ G) as G0.
  unfold safe. rewrite (update_state_unfold st s target n k (good_state _ _ G)). cbv zeta.
  set (s0 := set_cached_state_value (Some st) s) in *.
  case_bool_decide as Hlive.
  { exists (Throw MoveFromLive), s0, st. split; [done|]. split; [done|].
    split; [apply transition_refl|]. by intros e [= <-]. }
  destruct Ht as [Ht|]; [|done].
  case_match.
  { exists (Throw RefusedInterruptedSync), (add_event EvKillNode s0), st. split; [done|].
    split; [by apply add_event_good|]. split; [apply transition_refl|]. by intros e [= <-]. }
  destruct target; cbn [enter]; try done.
  - destruct (enter_waiting_spec WAIT s0 ltac:(auto)) as (s1 & E & S1 & Q1 & K1 & _ & I1).
    exists (Ok tt), s1, WAIT. split; [done|]. split; [|done]. constructor; try done.
    + rewrite K1. apply G0. + unfold irreversible_ok. rewrite I1. apply G0.
  - destruct (enter_waiting_spec REINDEX_WAIT s0 ltac:(auto)) as (s1 & E & S1 & Q1 & K1 & _ & I1).
    exists (Ok tt), s1, REINDEX_WAIT. split; [done|]. split; [|done]. constructor; try done.
    + rewrite K1. apply G0. + unfold irreversible_ok. rewrite I1. apply G0.
  - destruct (enter_reindex_spec st s0 (u32 n) k (good_state _ _ G0) (Hre eq_refl) (Hf ltac:(auto))
      (good_cache _ _ G0)) as (s1 & E & S1 & Q1 & K1 & I1).
    exists (Ok tt), s1, REINDEX. split; [done|]. split; [|done]. constructor; try done.
    + rewrite K1. apply cache_ok_clear. + unfold irreversible_ok. rewrite I1. apply G0.
  - destruct (enter_p2p_spec st s0 (u32 n) (good_state _ _ G0) (Hf ltac:(auto)) (good_cache _ _ G0))
      as (s1 & E & S1 & Q1 & T1 & I1 & K1 & _).
    exists (Ok tt), s1, P2P. split; [done|]. split; [|done]. constructor; try done.
    + rewrite K1. apply cache_ok_clear.
    + unfold irreversible_ok. rewrite I1. unfold NO_IRREVERSIBLE_BLOCK, INT32_MAX. lia.
  - by apply enter_live_safe.
Qed.

Lemma set_cache_good st s c : good_in st s -> cache_ok c -> good_in st (set_cache c s).
Proof. intros [H1 H2 H3 H4] Hc. constructor; [exact H1|by destruct st|exact Hc|exact H4]. Qed.

Lemma next_question_good st s : good_in st s -> good_in st (next_question s).
Proof. intros [H1 H2 H3 H4]. constructor; [exact H1|by destruct st|exact H3|exact H4]. Qed.

Lemma on_local_safe {A} (m : IS A) st s c :
  cache_ok (is_cache s) -> safe m st (set_cache c s) -> safe (on_local c m) st s.
Proof.
  intros Hok (r & s' & st' & E & G & T & Hr). exists r, (set_cache (is_cache s) s'), st'.
  unfold on_local. rewrite E. split; [done|]. split; [by apply set_cache_good|done].
Qed.

Lemma empty_cache_ok : cache_ok (@empty_cache operation).
Proof. apply (cache_ok_clear empty_cache). Qed.

Lemma can_move_to_livesync_ok s :
  exists b, can_move_to_livesync s = (Ok b, next_question s).
Proof. eexists. reflexivity. Qed.

(** [get_state] in front of a call. *)
Lemma get_state_safe {A} (k : INDEXATION -> IS A) st s :
  good_in st s -> (forall s', good_in st s' -> is_cache s' = is_cache s -> is_dumper s' = is_dumper s ->
                    safe (k st) st s') -> safe (let* x := get_state in k x) st s.
Proof.
  intros G Hk. unfold safe, st_bind. rewrite (get_state_ok _ _ (good_state _ _ G)).
  apply Hk; [by apply good_cached|done|done].
Qed.

Lemma can_move_safe {A} (k : bool -> IS A) st s :
  good_in st s -> (forall b s', good_in st s' -> is_cache s' = is_cache s -> safe (k b) st s') ->
  safe (let* x := can_move_to_livesync in k x) st s.
Proof.
  intros G Hk. destruct (can_move_to_livesync_ok s) as [b E]. unfold safe, st_bind. rewrite E.
  apply Hk; [by apply next_question_good|done].
Qed.

Lemma ret_safe {A} (a : A) st s : good_in st s -> safe (st_ret a) st s.
Proof. intros G. exists (Ok a), s, st. split; [done|]. split; [done|]. split; [apply transition_refl|done]. Qed.

Lemma on_pre_reindex_safe st s n k : good_in st s -> safe (on_pre_reindex n k) st s.
Proof.
  intros G. unfold on_pre_reindex. apply get_state_safe; [done|]. intros s1 G1 _ _.
  apply can_move_safe; [done|]. intros b s2 G2 _.
  destruct b; apply update_state_safe; try done; try (by intros [|]); by destruct st; auto.
Qed.

Lemma reindex_flushable s : equipped REINDEX s -> flushable s.
Proof. intros [_ [b Hb]]. right. by exists b. Qed.

Lemma on_post_reindex_safe st s n stop :
  good_in st s -> stop = 0 \/ stop <> n \/ (st <> REINDEX /\ st <> REINDEX_WAIT) -> safe (on_post_reindex n stop) st s.
Proof.
  intros G Hstop. unfold on_post_reindex. apply get_state_safe; [done|]. intros s1 G1 _ _.
  destruct st; try by apply ret_safe.
  all: assert (end_of_syncing n stop s1 = (Ok false, s1)) as E
    by (unfold end_of_syncing; destruct (Z.eqb_spec stop 0); [done|]; destruct (Z.eqb_spec stop n); [naive_solver|done]).
  - assert (safe (update_state WAIT n UNKNOWN) REINDEX_WAIT s1) as Hsafe
      by (apply update_state_safe; auto; by intros [|]).
    unfold safe, st_bind. rewrite E. exact Hsafe.
  - assert (safe (update_state P2P n UNKNOWN) REINDEX s1) as Hsafe.
    { apply update_state_safe; auto; [|done]. intros _. apply reindex_flushable, (good_equipped _ _ G1). }
    unfold safe, st_bind. rewrite E. exact Hsafe.
Qed.

Lemma on_end_of_syncing_safe st s n : good_in st s -> safe (on_end_of_syncing n) st s.
Proof.
  intros G. unfold on_end_of_syncing. apply get_state_safe; [done|]. intros s1 G1 _ _.
  destruct (decide (st = LIVE)); [by apply ret_safe|].
  apply update_state_safe; try done; try (by intros [|]). left. by destruct st.
Qed.

Lemma on_first_block_safe st s n : good_in st s -> safe (on_first_block n) st s.
Proof.
  intros G. unfold on_first_block. apply on_local_safe; [apply G|].
  apply get_state_safe; [by apply set_cache_good, empty_cache_ok|]. intros s1 G1 K1 _.
  assert (flushable s1) as Hf by (left; by rewrite K1).
  destruct st; try by apply ret_safe.
  - apply can_move_safe; [done|]. intros b s2 G2 K2. assert (flushable s2) by (left; by rewrite K2, K1).
    destruct b; apply update_state_safe; auto; done.
  - apply can_move_safe; [done|]. intros b s2 G2 K2. assert (flushable s2) by (left; by rewrite K2, K1).
    destruct b; apply update_state_safe; auto; done.
  - apply update_state_safe; auto; done.
Qed.

Lemma on_block_safe st s n : good_in st s -> safe (on_block n) st s.
Proof.
  intros G. unfold on_block. apply get_state_safe; [done|]. intros s1 G1 _ _.
  assert (forall st' s', good_in st' s' ->
    safe (st_when (cfg_first_block cfg <=? u32 n) (on_first_block n)) st' s') as Hrest.
  { intros st' s' G'. unfold st_when. case_match; [by apply on_first_block_safe|by apply ret_safe]. }
  destruct st; try (apply Hrest; exact G1).
  assert (exists s2, on_local empty_cache (update_state WAIT n UNKNOWN) s1 = (Ok tt, s2) /\
    good_in WAIT s2) as (s2 & E2 & G2).
  { pose proof (set_cache_good _ _ _ G1 empty_cache_ok) as Gl.
    unfold on_local. rewrite (update_state_unfold START _ WAIT n UNKNOWN (good_state _ _ Gl)).
    cbv zeta. rewrite bool_decide_false by done. cbn [refuses andb enter].
    replace (refuses WAIT START n) with false by (unfold refuses; by rewrite bool_decide_false).
    destruct (enter_waiting_spec WAIT (set_cached_state_value (Some START) (set_cache empty_cache s1))
      ltac:(auto)) as (s2 & E & S2 & Q2 & K2 & _ & I2).
    rewrite E. eexists. split; [reflexivity|]. apply set_cache_good; [|apply G1].
    constructor; try done; [rewrite K2; apply empty_cache_ok|].
    unfold irreversible_ok. rewrite I2. apply G1. }
  destruct (Hrest WAIT s2 G2) as (r3 & s3 & st3 & E3 & G3 & T3 & Hr3).
  exists r3, s3, st3. split; [unfold st_bind; rewrite E2; exact E3|]. split; [done|]. split; [|done].
  by destruct st3.
Qed.

(** *** Flushing *)

Lemma lite_flush_safe st s irr :
  good_in st s -> is_dumper s = Some livesync_data_dumper -> 0 <= irr < INT32_MAX ->
  safe (let* s := st_get in lite_flush_loop (length (blocks (is_cache s))) irr) st s.
Proof.
  intros G Hd Hi.
  destruct (lite_flush_loop_spec st s livesync_data_dumper irr (length (blocks (is_cache s))))
    as (s' & E & C & K & _); [apply G|done|done|apply G|done|done|].
  exists (Ok tt), s', st. split; [exact E|]. split; [|split; [apply transition_refl|done]].
  eapply same_control_good; [done|done|]. rewrite K. apply cache_ok_where, G.
Qed.

Lemma force_flush_safe st s n :
  good_in st s -> is_Some (is_dumper s) -> safe (force_trigger_flush_with_all_data n) st s.
Proof.
  intros G Hd. destruct (force_flush_any st s n (good_state _ _ G) (or_intror Hd) (good_cache _ _ G))
    as (r & s' & E & C & Hok & Hr).
  exists r, s', st. split; [done|]. split; [by eapply same_control_good|].
  split; [apply transition_refl|]. by eapply single_block_error.
Qed.

Lemma p2p_flush_safe s n lf :
  good_in P2P s -> safe (flush (p2p_flush_trigger lf) n (is_irreversible_block_num s)) P2P s.
Proof.
  intros G. cbn [flush]. case_match; [by apply ret_safe|]. case_match; [by apply ret_safe|].
  destruct (move_parts_ok _ _ (good_cache _ _ G) (good_irreversible _ _ G)) as [H1 H2].
  unfold safe, st_bind, st_get.
  destruct (move_irreveresible_blocks (is_cache s) (u32 (is_irreversible_block_num s))) as [moved rest].
  destruct (good_equipped _ _ G) as (lf' & b & _ & Hd).
  destruct (flush_upto_any P2P s moved rest (is_irreversible_block_num s) (good_state _ _ G)
    (or_intror (mk_is_Some _ _ Hd)) H1) as (r & s' & E & C & K & Hr).
  rewrite E. destruct Hr as [->|[_ ?]]; [|congruence].
  eexists _, _, P2P. split; [reflexivity|]. split; [|by split].
  assert (good_in P2P s') as G' by (eapply same_control_good; [done|done|by rewrite K]).
  destruct G' as [A1 A2 A3 A4]. constructor; try done.
  destruct A2 as (? & b' & _ & Hd'). by eexists _, b'.
Qed.

Lemma collecting_flush_safe st s n :
  good_in st s -> st <> START -> safe (trigger_data_flush n) st s.
Proof.
  intros G Hst. unfold trigger_data_flush, safe. unfold st_bind at 1, st_get at 1.
  pose proof (good_equipped _ _ G) as He. pose proof (equipped_dumper _ _ He Hst) as Hd.
  destruct st; try done; cbn in He.
  - destruct He as [-> _]. by apply ret_safe.
  - destruct He as [-> _]. by apply ret_safe.
  - destruct He as [-> _]. cbn [flush]. unfold st_when. case_match; [by apply force_flush_safe|by apply ret_safe].
  - pose proof He as (lf & b & -> & _). by apply p2p_flush_safe.
  - destruct He as [-> Hl]. destruct (cfg_lite_mode cfg); cbn [flush]; [|by apply force_flush_safe].
    case_match eqn:Hn; [by apply ret_safe|]. apply lite_flush_safe; [done|done|].
    pose proof (good_irreversible _ _ G) as Hi. unfold irreversible_ok, NO_IRREVERSIBLE_BLOCK in *.
    apply Z.eqb_neq in Hn. lia.
Qed.

Lemma flush_all_cached_data_safe st s n :
  good_in st s -> st <> START -> safe (flush_all_cached_data n) st s.
Proof.
  intros G Hst. unfold flush_all_cached_data. apply get_state_safe; [done|]. intros s1 G1 _ _.
  pose proof (equipped_dumper _ _ (good_equipped _ _ G1) Hst) as Hd.
  destruct (decide (st = LIVE)); [|by apply force_flush_safe].
  destruct (move_irreversible_blocks_any st s1 (good_state _ _ G1) Hd (good_cache _ _ G1)
    (good_irreversible _ _ G1)) as (r & s' & E & C & Hok & Hr).
  exists r, s', st. split; [done|]. split; [by eapply same_control_good|].
  split; [apply transition_refl|]. by eapply single_block_error.
Qed.

Lemma on_switch_fork_safe st s n :
  good_in st s -> 0 <= n < INT32_MAX -> safe (on_switch_fork n) st s.
Proof.
  intros G Hn. unfold on_switch_fork. apply get_state_safe; [done|]. intros s1 G1 _ _.
  case_match; [|by apply ret_safe].
  eexists _, _, st. split; [reflexivity|]. split; [|split; [apply transition_refl|done]].
  apply set_cache_good; [done|]. rewrite erase_cache_greater_than_block_where by (apply G1 || done).
  apply cache_ok_where, G1.
Qed.

(** ** Sequences of calls *)

Inductive call :=
| CPreReindex (last_block_num number_of_blocks_to_add : Z)
| CPostReindex (last_block_num stop_replay_at : Z)
| CEndOfSyncing (last_block_num : Z)
| CBlock (last_block_num : Z)
| CIrreversible (block_num : Z)
| CSwitchFork (block_num : Z)
| CCollect (rows : cached_data_t operation)      (* rows appended by the plugin *)
| CTriggerFlush (last_block_num : Z).            (* only when blocks are collected *)

Definition run_call (c : call) : IS unit :=
  match c with
  | CPreReindex n k => on_pre_reindex n k
  | CPostReindex n stop => on_post_reindex n stop
  | CEndOfSyncing n => on_end_of_syncing n
  | CBlock n => on_block n
  | CIrreversible n => on_irreversible_block n
  | CSwitchFork n => on_switch_fork n
  | CCollect rows => st_modify (fun s => set_cache (cache_append (is_cache s) rows) s)
  | CTriggerFlush n =>
      let* collect := collect_blocks in st_when collect (trigger_data_flush n)
  end.

(** The end of a replay that reached the block it was asked to stop at. *)
Definition stops_replay (c : call) (s : istate) : Prop :=
  match c with
  | CPostReindex n stop => stop <> 0 /\ stop = n /\ (state_is REINDEX s \/ state_is REINDEX_WAIT s)
  | _ => False
  end.

(** What the chain guarantees of its notifications. *)
Definition valid_call (c : call) (s : istate) : Prop :=
  match c with
  | CIrreversible n | CSwitchFork n => 0 <= n < INT32_MAX
  | CCollect rows => cache_ok (cache_append (is_cache s) rows)
  | _ => True
  end.

Lemma collect_blocks_spec st s :
  state_is st s ->
  collect_blocks s =
  (Ok (bool_decide (st = REINDEX \/ st = P2P \/ st = LIVE)), set_cached_state_value (Some st) s).
Proof.
  intros Hs. unfold collect_blocks, st_bind. rewrite (get_state_ok _ _ Hs). unfold st_ret.
  f_equal. f_equal. destruct st; reflexivity.
Qed.

Lemma run_call_safe st s c : good_in st s -> valid_call c s -> ~ stops_replay c s -> safe (run_call c) st s.
Proof.
  intros G Hv Hst. destruct c; cbn [run_call] in *.
  - by apply on_pre_reindex_safe.
  - apply on_post_reindex_safe; [done|]. destruct (decide (stop_replay_at = 0)); [by left|].
    destruct (decide (stop_replay_at <> last_block_num)); [by right; left|right; right].
    assert (stop_replay_at = last_block_num) by lia. pose proof (good_state _ _ G) as Hs.
    split; intros ->; apply Hst; cbn; auto.
  - by apply on_end_of_syncing_safe.
  - by apply on_block_safe.
  - eexists _, _, st. split; [reflexivity|]. split; [|split; [apply transition_refl|done]].
    destruct G as [A1 A2 A3 A4]. constructor; [exact A1|by destruct st|exact A3|].
    unfold irreversible_ok. cbn in *. rewrite i32_small; unfold INT32_MAX in *; lia.
  - by apply on_switch_fork_safe.
  - eexists _, _, st. split; [reflexivity|]. split; [|split; [apply transition_refl|done]].
    by apply set_cache_good.
  - pose proof (good_cached _ _ G) as G0. unfold safe, st_bind.
    rewrite (collect_blocks_spec _ _ (good_state _ _ G)). case_bool_decide as Hc; cbn [st_when].
    + apply collecting_flush_safe; [done|]. intros ->. naive_solver.
    + by apply ret_safe.
Qed.

(** A replay that has stopped where it was asked to: nothing is left to flush with. *)
Definition stopped (s : istate) : Prop :=
  exists st, (st = REINDEX \/ st = REINDEX_WAIT) /\ state_is st s /\ is_trigger s = None /\ is_dumper s = None /\
    cache_ok (is_cache s) /\ (st = REINDEX -> blocks (is_cache s) = []).

Lemma stop_replay_stops st s n :
  good_in st s -> stops_replay (CPostReindex n n) s ->
  exists s', run_call (CPostReindex n n) s = (Ok tt, s') /\ stopped s'.
Proof.
  intros G (Hn & _ & Hst). pose proof (good_state _ _ G) as Hs.
  assert (st = REINDEX \/ st = REINDEX_WAIT) as Hst'
    by (destruct Hst as [Hst|Hst]; [left|right]; by eapply state_is_fun).
  pose proof (good_cached _ _ G) as G0. cbn [run_call]. unfold on_post_reindex, st_bind at 1. rewrite (get_state_ok _ _ Hs).
  set (s0 := set_cached_state_value (Some st) s) in *.
  assert (exists s1, force_trigger_flush_with_all_data (i32 n) s0 = (Ok tt, s1) /\ same_control s0 s1 /\
    cache_ok (is_cache s1) /\ (st = REINDEX -> blocks (is_cache s1) = [])) as (s1 & E1 & (C1 & C2 & C3 & C4 & C5) & Hok & Hb).
  { destruct Hst' as [->| ->].
    - destruct (force_flush_flushable REINDEX s0 (i32 n)) as (s1 & E & C & K & _);
        [apply G0|apply reindex_flushable, G0|apply G0|].
      exists s1. split_and!; try done; rewrite K; [apply cache_ok_clear|done].
    - destruct (force_flush_any REINDEX_WAIT s0 (i32 n)) as (r & s1 & E & C & Hok & Hr);
        [apply G0|right; destruct (good_equipped _ _ G0) as [_ ->]; by eexists|apply G0|].
      exists s1. destruct Hr as [->|[_ Hd]]; [done|]. destruct (good_equipped _ _ G0) as [_ Hd']. by rewrite Hd' in Hd. }
  assert (end_of_syncing n n s0 = (Ok true, add_event EvEnableConstraints (add_event EvEnableIndexes
    (set_dumper None (set_trigger None s1))))) as E.
  { unfold end_of_syncing. rewrite (proj2 (Z.eqb_neq _ _) Hn), Z.eqb_refl. cbn [negb]. unfold st_bind at 1. by rewrite E1. }
  destruct Hst' as [->| ->]; unfold st_bind; rewrite E; eexists; (split; [reflexivity|]).
  - exists REINDEX. split_and!; auto. apply (C5 REINDEX), G0.
  - exists REINDEX_WAIT. split_and!; auto. apply (C5 REINDEX_WAIT), G0.
Qed.

(** Runs calls one after the other; a thrown error is logged by the notifier and
    the next notification comes.  After a replay that stopped where it was asked to, nothing
    is notified any more. *)
Inductive runs : istate -> list (call * outcome is_error unit) -> istate -> Prop :=
| RunsNil s : runs s [] s
| RunsCons s c r s1 l s2 :
    valid_call c s -> ~ stops_replay c s -> run_call c s = (r, s1) -> runs s1 l s2 -> runs s ((c, r) :: l) s2
| RunsStop s n r s1 :
    stops_replay (CPostReindex n n) s -> run_call (CPostReindex n n) s = (r, s1) -> runs s [(CPostReindex n n, r)] s1.

(** A flush that would still come finds no trigger. *)
Theorem flush_after_stop_is_fatal s n :
  stopped s -> state_is REINDEX s -> (run_call (CTriggerFlush n) s).1 = Throw NullPointer.
Proof.
  intros (st & _ & _ & Ht & _) Hs. cbn [run_call]. unfold st_bind at 1, collect_blocks, st_bind at 1.
  rewrite (get_state_ok _ _ Hs). cbn [st_when]. change (negb _) with true. unfold st_ret. cbn [st_when].
  unfold trigger_data_flush, st_bind, st_get. cbn [is_trigger set_cached_state_value]. by rewrite Ht.
Qed.

Lemma construct_good db : good_in START (construct db).
Proof.
  constructor; [split; [reflexivity|by left]|done|apply empty_cache_ok|].
  unfold irreversible_ok. cbn. unfold NO_IRREVERSIBLE_BLOCK, INT32_MAX. lia.
Qed.

Lemma runs_safe s l s' st :
  runs s l s' -> good_in st s ->
  ((exists st', good_in st' s') \/ stopped s') /\ Forall (fun p => forall e, p.2 = Throw e -> fatal e = false) l.
Proof.
  intros Hr. revert st. induction Hr as [s|s c r s1 l s2 Hv Hns E Hr IH|s n r s1 Hst E]; intros st G; [eauto| |].
  2: { destruct (stop_replay_stops st s n G Hst) as (s' & E' & Hs'). rewrite E in E'. injection E' as -> ->.
       split; [by right|]. by repeat constructor. }
  destruct (run_call_safe st s c G Hv Hns) as (r' & s1' & st1 & E' & G1 & _ & He).
  rewrite E in E'. injection E' as <- <-. destruct (IH st1 G1) as [? ?]. split; [done|].
  by constructor.
Qed.

Lemma runs_live s l s' :
  runs s l s' -> good_in LIVE s -> good_in LIVE s'.
Proof.
  intros Hr. induction Hr as [s|s c r s1 l s2 Hv Hns E Hr IH|s n r s1 Hst E]; intros G; [done| |].
  2: { destruct Hst as (_ & _ & [Hst|Hst]); by pose proof (state_is_fun _ _ _ Hst (good_state _ _ G)). }
  apply IH. destruct (run_call_safe LIVE s c G Hv Hns) as (r' & s1' & st1 & E' & G1 & T & _).
  rewrite E in E'. injection E' as <- <-. by destruct st1.
Qed.

(** ** Functional behaviour of the flushes *)

Lemma lite_live_flush_rep s n :
  good_in LIVE s -> cfg_lite_mode cfg = true -> is_irreversible_block_num s <> NO_IRREVERSIBLE_BLOCK ->
  exists s', trigger_data_flush n s = (Ok tt, s') /\ same_control s s' /\
    is_cache s' = cache_where (fun b => is_irreversible_block_num s <? b) (is_cache s) /\
    dumps s' = dumps s ++ per_block livesync_data_dumper (is_cache s)
      (filter (fun b => b <= is_irreversible_block_num s) (block_numbers (is_cache s))).
Proof.
  intros G Hlite Hirr. destruct (good_equipped _ _ G) as [Ht Hd]. rewrite Hlite in Ht.
  pose proof (good_irreversible _ _ G) as Hi. unfold irreversible_ok, NO_IRREVERSIBLE_BLOCK in *.
  destruct (lite_flush_loop_spec LIVE s livesync_data_dumper (is_irreversible_block_num s)
    (length (blocks (is_cache s)))) as (s' & E & C & K & D); [apply G|done|done|apply G|lia|lia|].
  exists s'. split; [|done]. unfold trigger_data_flush, st_bind at 1, st_get at 1. rewrite Ht.
  cbn [flush]. rewrite (proj2 (Z.eqb_neq _ _)) by done. exact E.
Qed.

Definition batch_dump (d : dumper) (c : cached_data_t operation) (n : Z)
  : list (dumper * cached_data_t operation * Z) :=
  if bool_decide (blocks c = []) then [] else [(d, c, n)].

Lemma flush_irreversible_batch st s b :
  state_is st s -> is_dumper s = Some (reindex_data_dumper b) -> cache_ok (is_cache s) ->
  0 <= is_irreversible_block_num s < INT32_MAX ->
  let irr := is_irreversible_block_num s in
  exists s', flush_upto (move_irreveresible_blocks (is_cache s) (u32 irr)) irr s = (Ok tt, s') /\
    same_control s s' /\ is_cache s' = cache_where (fun y => irr <? y) (is_cache s) /\
    dumps s' = dumps s ++ batch_dump (reindex_data_dumper b)
      (fresh_cache (cache_where (fun y => y <=? irr) (is_cache s))) irr.
Proof.
  intros Hs Hd Hok Hi irr. rewrite u32_small by (unfold irr, UINT32_MAX, INT32_MAX in *; lia).
  rewrite move_irreveresible_blocks_where by (apply ok_sorted; done) || (unfold irr; lia).
  unfold batch_dump. case_bool_decide as Hb.
  - rewrite flush_upto_nothing by done. eexists. split; [reflexivity|].
    split; [apply set_cache_same_control|]. split; [done|]. by rewrite app_nil_r.
  - destruct (flush_upto_dumps st s (reindex_data_dumper b)
      (fresh_cache (cache_where (fun y => y <=? irr) (is_cache s)))
      (cache_where (fun y => irr <? y) (is_cache s)) irr) as (s' & E & C & K & D); try done.
    by exists s'.
Qed.

Lemma p2p_flush_rep s n lf b :
  good_in P2P s -> is_trigger s = Some (p2p_flush_trigger lf) ->
  is_dumper s = Some (reindex_data_dumper b) ->
  let irr := is_irreversible_block_num s in
  let due := negb (irr =? NO_IRREVERSIBLE_BLOCK) && (1000 <=? irr - lf) in
  exists s', trigger_data_flush n s = (Ok tt, s') /\
    is_trigger s' = Some (p2p_flush_trigger (if due then irr else lf)) /\
    is_cache s' = (if due then cache_where (fun y => irr <? y) (is_cache s) else is_cache s) /\
    dumps s' = dumps s ++
      (if due then batch_dump (reindex_data_dumper b)
                     (fresh_cache (cache_where (fun y => y <=? irr) (is_cache s))) irr else []).
Proof.
  intros G Ht Hd irr due. unfold trigger_data_flush, st_bind at 1, st_get at 1. rewrite Ht.
  cbn [flush]. fold irr. unfold due, MINIMUM_BLOCKS_PER_FLUSH.
  destruct (Z.eqb_spec irr NO_IRREVERSIBLE_BLOCK) as [|Hne]; cbn [negb andb].
  { exists s. split; [done|]. split; [done|]. split; [done|]. by rewrite app_nil_r. }
  destruct (Z.ltb_spec (irr - lf) 1000) as [Hlt|Hge].
  { exists s. rewrite (proj2 (Z.leb_gt _ _)) by lia. split; [done|]. split; [done|].
    split; [done|]. by rewrite app_nil_r. }
  rewrite (proj2 (Z.leb_le _ _)) by lia.
  pose proof (good_irreversible _ _ G) as Hi. unfold irreversible_ok, NO_IRREVERSIBLE_BLOCK in *.
  destruct (flush_irreversible_batch P2P s b (good_state _ _ G) Hd (good_cache _ _ G)) as
    (s' & E & C & K & D); [fold irr in Hi; unfold irr in *; lia|].
  unfold st_bind, st_get. fold irr in E, K, D. rewrite E. eexists. split; [reflexivity|].
  split; [done|]. split; [exact K|exact D].
Qed.

Lemma reindex_flush_rep s n b :
  good_in REINDEX s -> is_dumper s = Some (reindex_data_dumper b) ->
  exists s', trigger_data_flush n s = (Ok tt, s') /\ same_control s s' /\
    is_cache s' = (if Z.rem n 1000 =? 0 then clear_containers (is_cache s) else is_cache s) /\
    dumps s' = dumps s ++
      (if Z.rem n 1000 =? 0 then batch_dump (reindex_data_dumper b) (is_cache s) n else []).
Proof.
  intros G Hd. destruct (good_equipped _ _ G) as [Ht _].
  unfold trigger_data_flush, st_bind at 1, st_get at 1. rewrite Ht. cbn [flush]. unfold BLOCKS_PER_FLUSH.
  destruct (Z.rem n 1000 =? 0); cbn [st_when].
  - destruct (force_flush_flushable REINDEX s n (good_state _ _ G)) as (s' & E & C & K & D);
      [right; by exists b|apply G|].
    exists s'. split; [done|]. split; [done|]. split; [done|]. rewrite D, Hd. unfold batch_dump.
    by destruct (blocks (is_cache s)).
  - exists s. split; [done|]. split; [apply same_control_refl|]. split; [done|]. by rewrite app_nil_r.
Qed.

Lemma live_flush_rep s n :
  good_in LIVE s -> cfg_lite_mode cfg = false ->
  (length (blocks (is_cache s)) = 1)%nat ->
  exists s', trigger_data_flush n s = (Ok tt, s') /\ same_control s s' /\
    is_cache s' = clear_containers (is_cache s) /\
    dumps s' = dumps s ++ [(livesync_data_dumper, is_cache s, n)].
Proof.
  intros G Hlite Hone. destruct (good_equipped _ _ G) as [Ht Hd]. rewrite Hlite in Ht.
  unfold trigger_data_flush, st_bind at 1, st_get at 1. rewrite Ht. cbn [flush].
  apply (force_flush_dumps LIVE); try done; [apply G|]. intros E. by rewrite E in Hone.
Qed.

(** *** No row is lost or duplicated by a flush *)

(** All rows ever handed over, then the rows still cached. *)
Definition total_rows (s : istate) : cached_data_t operation :=
  fresh_cache (foldr cache_app (is_cache s) (map (fun d => d.1.2) (dumps s))).

Lemma fresh_app (c d : cached_data_t operation) : fresh_cache (cache_app c d) = fresh_cache (cache_app c (fresh_cache d)).
Proof. done. Qed.

Lemma fresh_foldr_app (l : list (cached_data_t operation)) c d :
  fresh_cache c = fresh_cache d -> fresh_cache (foldr cache_app c l) = fresh_cache (foldr cache_app d l).
Proof.
  intros E. induction l as [|x l IH]; [done|]. cbn [foldr].
  rewrite fresh_app, IH, <- fresh_app. done.
Qed.

Lemma total_rows_flush s s' new :
  dumps s' = dumps s ++ new ->
  fresh_cache (foldr cache_app (is_cache s') (map (fun d => d.1.2) new)) = fresh_cache (is_cache s) ->
  total_rows s' = total_rows s.
Proof.
  intros D E. unfold total_rows. rewrite D, map_app, foldr_app. by apply fresh_foldr_app.
Qed.

Lemma fresh_cache_app_fresh (c d : cached_data_t operation) :
  fresh_cache (cache_app (fresh_cache c) d) = fresh_cache (cache_app c d).
Proof. done. Qed.

(** Block-by-block dumps of the blocks up to [irr], put together with the rest. *)
Lemma per_block_concat (d : dumper) (c : cached_data_t operation) irr :
  cache_ok c ->
  fresh_cache (foldr cache_app (cache_where (fun b => irr <? b) c)
    (map (fun d => d.1.2) (per_block d c (filter (fun b => b <= irr) (block_numbers c))))) =
  fresh_cache c.
Proof.
  unfold block_numbers. remember (blocks c) as v eqn:Hb. revert c Hb.
  induction v as [|x v IH]; intros c Hb Hok; symmetry in Hb.
  - cbn. rewrite (cache_ok_no_blocks _ Hok Hb). done.
  - cbn [map]. destruct (decide (pb_block_number x <= irr)) as [Hle|Hgt].
    + rewrite filter_cons_True by done. cbn [per_block map foldr fst snd].
      set (b := pb_block_number x) in *. set (c1 := cache_where (fun y => b <? y) c).
      assert (blocks c1 = v) as Hv by by destruct (blocks_where_front _ _ _ Hok Hb).
      specialize (IH c1 (eq_sym Hv) (cache_ok_where _ _ Hok)).
      assert (Forall (fun y => b < y) (filter (fun y => y <= irr) (map pb_block_number v))) as Ha.
      { apply Forall_forall. intros y [_ Hy]%list_elem_of_filter.
        pose proof (block_numbers_above _ _ _ Hok Hb) as Habove. by eapply Forall_forall in Habove. }
      fold (per_block d c (filter (fun y => y <= irr) (map pb_block_number v))).
      rewrite <- (per_block_where d c b _ Ha). fold c1.
      replace (cache_where (fun y => irr <? y) c) with (cache_where (fun y => irr <? y) c1).
      2: { unfold c1. rewrite cache_where_comp. apply (cache_where_ext _ _ (fun _ => True)); [|intros; lia].
           unfold cache_all, on_containers. repeat split; by apply Forall_true. }
      rewrite fresh_cache_app_fresh, fresh_app, IH, <- fresh_app. unfold c1.
      replace (cache_where (fun y => y =? b) c) with (cache_where (fun y => y <=? b) c).
      2: { apply (cache_where_ext _ _ (fun y => b <= y)); [by eapply cache_ok_front|intros; lia]. }
      by rewrite cache_where_split by apply Hok.
    + rewrite filter_cons_False by done. rewrite filter_none_above.
      2: { eapply Forall_impl; [by eapply block_numbers_above|]. intros y Hy. simpl in Hy. lia. }
      cbn. rewrite cache_where_true; [done|]. eapply cache_all_impl; [|by eapply cache_ok_front].
      intros y Hy. simpl in Hy. lia.
Qed.

Lemma batch_concat (d : dumper) (c : cached_data_t operation) irr n :
  cache_ok c ->
  fresh_cache (foldr cache_app (cache_where (fun y => irr <? y) c)
    (map (fun d => d.1.2) (batch_dump d (fresh_cache (cache_where (fun y => y <=? irr) c)) n))) =
  fresh_cache c.
Proof.
  intros Hok. unfold batch_dump. case_bool_decide as Hb; cbn [map foldr fst snd].
  - rewrite <- (cache_where_split c irr) at 2 by apply Hok.
    pose proof (cache_ok_where (fun y => y <=? irr) c Hok) as Hok'.
    rewrite (cache_ok_no_blocks _ Hok' Hb). done.
  - rewrite fresh_cache_app_fresh. by rewrite cache_where_split by apply Hok.
Qed.

Lemma live_flush_single s n s' :
  is_dumper s = Some livesync_data_dumper -> (exists st, state_is st s) ->
  force_trigger_flush_with_all_data n s = (Ok tt, s') -> blocks (is_cache s) <> [] ->
  length (blocks (is_cache s)) = 1%nat.
Proof.
  intros Hd (st & Hs) E Hb. unfold force_trigger_flush_with_all_data, st_bind at 1, st_get in E.
  rewrite bool_decide_false in E by done.
  destruct (wait_for_contexts_ok _ _ Hs) as (s1 & E1 & C1 & K1 & _).
  unfold st_bind at 1 in E. rewrite E1 in E. unfold st_bind at 1, st_get in E.
  destruct C1 as (_ & Hd1 & _). rewrite Hd1, Hd in E.
  unfold dump, st_bind at 1, st_get, st_assert in E. rewrite K1 in E.
  destruct (length (blocks (is_cache s)) =? 1)%nat eqn:E2; [by apply Nat.eqb_eq|done].
Qed.

(** ** Properties *)


(** Once in LIVE the state machine stays there whatever is notified, with the
    live dumper and the trigger of its mode. *)
Theorem live_is_final s l s' :
  runs s l s' -> good_in LIVE s -> state_is LIVE s' /\ equipped LIVE s'.
Proof. intros Hr G. pose proof (runs_live _ _ _ Hr G) as G'. split; apply G'. Qed.

(** A single notification makes only the transitions of the state diagram. *)
Theorem transitions_follow_diagram st s c r s' st' :
  good_in st s -> valid_call c s -> ~ stops_replay c s -> run_call c s = (r, s') -> state_is st' s' ->
  transition_allowed st st' = true.
Proof.
  intros G Hv Hns E Hs'. destruct (run_call_safe st s c G Hv Hns) as (r' & s1 & st1 & E1 & G1 & T & _).
  rewrite E in E1. injection E1 as <- <-. by rewrite (state_is_fun _ _ _ Hs' (good_state _ _ G1)).
Qed.

(** Blocks are collected exactly in REINDEX, P2P and LIVE. *)
Theorem collect_blocks_iff st s :
  state_is st s ->
  (collect_blocks s).1 = Ok (bool_decide (st = REINDEX \/ st = P2P \/ st = LIVE)).
Proof. intros Hs. by rewrite (collect_blocks_spec _ _ Hs). Qed.

(** C12: In REINDEX, P2P and LIVE a flush neither loses nor duplicates a row: what was
    handed to the dumpers, followed by what is cached, stays the same sequence in
    each of the seven tables. *)
Theorem trigger_data_flush_conserves st s n s' :
  good_in st s -> st = REINDEX \/ st = P2P \/ st = LIVE ->
  trigger_data_flush n s = (Ok tt, s') -> total_rows s' = total_rows s.
Proof.
  intros G Hst E. pose proof (good_cache _ _ G) as Hok. pose proof (good_equipped _ _ G) as He.
  destruct Hst as [-> | [-> | ->]].
  - destruct He as [_ [b Hd]]. destruct (reindex_flush_rep s n b G Hd) as (s1 & E1 & _ & K & D).
    rewrite E in E1. injection E1 as <-. eapply total_rows_flush; [exact D|]. rewrite K.
    destruct (Z.rem n 1000 =? 0); [|done]. unfold batch_dump. case_bool_decide as Hb; cbn.
    + by rewrite (cache_ok_no_blocks _ Hok Hb).
    + apply cache_ext; cbn; by rewrite ?app_nil_r.
  - destruct He as (lf & b & Ht & Hd). destruct (p2p_flush_rep s n lf b G Ht Hd) as (s1 & E1 & _ & K & D).
    rewrite E in E1. injection E1 as <-. eapply total_rows_flush; [exact D|]. rewrite K.
    case_match; [by apply batch_concat|done].
  - destruct (cfg_lite_mode cfg) eqn:Hlite.
    + destruct (decide (is_irreversible_block_num s = NO_IRREVERSIBLE_BLOCK)) as [Hno|Hirr].
      * destruct He as [Ht _]. rewrite Hlite in Ht. unfold trigger_data_flush, st_bind, st_get in E.
        rewrite Ht in E. cbn [flush] in E. rewrite Hno, Z.eqb_refl in E. by injection E as <-.
      * destruct (lite_live_flush_rep s n G Hlite Hirr) as (s1 & E1 & _ & K & D).
        rewrite E in E1. injection E1 as <-. eapply total_rows_flush; [exact D|]. rewrite K.
        by apply per_block_concat.
    + destruct (decide (blocks (is_cache s) = [])) as [Hb|Hb].
      * destruct He as [Ht _]. rewrite Hlite in Ht. unfold trigger_data_flush, st_bind, st_get in E.
        rewrite Ht in E. cbn [flush] in E. rewrite force_flush_empty in E by done. by injection E as <-.
      * destruct (decide (length (blocks (is_cache s)) = 1%nat)) as [H1|H1].
        -- destruct (live_flush_rep s n G Hlite H1) as (s1 & E1 & _ & K & D).
           rewrite E in E1. injection E1 as <-. eapply total_rows_flush; [exact D|]. rewrite K.
           cbn. apply cache_ext; cbn; by rewrite ?app_nil_r.
        -- exfalso. destruct He as [Ht Hd]. rewrite Hlite in Ht. unfold trigger_data_flush, st_bind, st_get in E.
           rewrite Ht in E. cbn [flush] in E. by apply H1, (live_flush_single s n s' Hd (ex_intro _ LIVE (good_state _ _ G)) E).
Qed.

(** In P2P a flush happens only when at least 1000 blocks have become irreversible
    since the last one; it hands over exactly the rows of irreversible blocks in
    one batch and keeps the reversible ones cached. *)
Theorem p2p_flush_spec s n lf b :
  good_in P2P s -> is_trigger s = Some (p2p_flush_trigger lf) ->
  is_dumper s = Some (reindex_data_dumper b) ->
  let irr := is_irreversible_block_num s in
  let due := negb (irr =? NO_IRREVERSIBLE_BLOCK) && (1000 <=? irr - lf) in
  exists s', trigger_data_flush n s = (Ok tt, s') /\
    is_trigger s' = Some (p2p_flush_trigger (if due then irr else lf)) /\
    is_cache s' = (if due then cache_where (fun y => irr <? y) (is_cache s) else is_cache s) /\
    dumps s' = dumps s ++
      (if due then batch_dump (reindex_data_dumper b)
                     (fresh_cache (cache_where (fun y => y <=? irr) (is_cache s))) irr else []).
Proof. apply p2p_flush_rep. Qed.

(** In lite LIVE a flush hands every cached irreversible block to the live dumper
    on its own, with exactly its rows, in ascending order, and keeps the
    reversible blocks cached. *)
Theorem lite_live_flush_spec s n :
  good_in LIVE s -> cfg_lite_mode cfg = true -> is_irreversible_block_num s <> NO_IRREVERSIBLE_BLOCK ->
  exists s', trigger_data_flush n s = (Ok tt, s') /\ same_control s s' /\
    is_cache s' = cache_where (fun b => is_irreversible_block_num s <? b) (is_cache s) /\
    dumps s' = dumps s ++ per_block livesync_data_dumper (is_cache s)
      (filter (fun b => b <= is_irreversible_block_num s) (block_numbers (is_cache s))).
Proof. apply lite_live_flush_rep. Qed.

Lemma p2p_to_live_rep s n b :
  good_in P2P s -> is_dumper s = Some (reindex_data_dumper b) -> cfg_lite_mode cfg = false ->
  (forall i, env_interrupt env i = false) -> is_irreversible_block_num s <> NO_IRREVERSIBLE_BLOCK ->
  let irr := is_irreversible_block_num s in
  let reversible := cache_where (fun y => irr <? y) (is_cache s) in
  exists s', on_end_of_syncing n s = (Ok tt, s') /\ state_is LIVE s' /\ blocks (is_cache s') = [] /\
    dumps s' = dumps s ++
      batch_dump (reindex_data_dumper b) (fresh_cache (cache_where (fun y => y <=? irr) (is_cache s))) irr ++
      per_block livesync_data_dumper reversible (block_numbers reversible).
Proof.
  intros G Hd Hlite Hno Hirr irr reversible.
  pose proof (good_cached _ _ G) as G0. set (s0 := set_cached_state_value (Some P2P) s) in *.
  destruct (flush_irreversible_batch P2P s0 b (good_state _ _ G0) Hd (good_cache _ _ G0))
    as (s1 & E1 & C1 & K1 & D1).
  { pose proof (good_irreversible _ _ G) as Hi. unfold irreversible_ok, NO_IRREVERSIBLE_BLOCK in *.
    cbn. lia. }
  destruct (finish_live_spec s1) as (s2 & E2 & S2 & _ & _ & _ & _ & Hfull).
  { rewrite K1. apply cache_ok_where, G. }
  destruct (Hfull Hlite Hno) as [D2 B2]. exists s2. split; [|split; [done|split; [done|]]].
  - unfold on_end_of_syncing, st_bind. rewrite (get_state_ok _ _ (good_state _ _ G)).
    rewrite decide_False by done. fold s0. rewrite (update_state_unfold P2P s0 LIVE _ _ (good_state _ _ G0)).
    cbv zeta. rewrite bool_decide_false by done.
    replace (refuses LIVE P2P n) with false by (unfold refuses; by rewrite bool_decide_false).
    cbn [enter]. change (set_cached_state_value (Some P2P) s0) with s0.
    unfold enter_live, st_bind at 1. rewrite (get_state_ok _ _ (good_state _ _ G0)).
    change (set_cached_state_value (Some P2P) s0) with s0.
    rewrite bool_decide_false by done. cbn [negb st_when].
    unfold st_bind at 1, move_irreversible_blocks, st_bind at 1, st_get.
    change (flush_upto _ _ s0) with
      (flush_upto (move_irreveresible_blocks (is_cache s0) (u32 (is_irreversible_block_num s0)))
         (is_irreversible_block_num s0) s0). rewrite E1. rewrite reset_and_set. exact E2.
  - rewrite D2, D1, K1, <- app_assoc. done.
Qed.

(** Moving from P2P to LIVE in full mode without an interrupt empties the cache:
    first the irreversible rows in one batch, then every reversible block on its
    own through the live dumper. *)
Theorem p2p_to_live_dumps_everything s n b :
  good_in P2P s -> is_dumper s = Some (reindex_data_dumper b) -> cfg_lite_mode cfg = false ->
  (forall i, env_interrupt env i = false) -> is_irreversible_block_num s <> NO_IRREVERSIBLE_BLOCK ->
  let irr := is_irreversible_block_num s in
  let reversible := cache_where (fun y => irr <? y) (is_cache s) in
  exists s', on_end_of_syncing n s = (Ok tt, s') /\ state_is LIVE s' /\ blocks (is_cache s') = [] /\
    dumps s' = dumps s ++
      batch_dump (reindex_data_dumper b) (fresh_cache (cache_where (fun y => y <=? irr) (is_cache s))) irr ++
      per_block livesync_data_dumper reversible (block_numbers reversible).
Proof. apply p2p_to_live_rep. Qed.

(** A fork in P2P or in lite LIVE removes from the cache exactly the rows of blocks
    after the given block, and keeps that block itself. *)
Theorem on_switch_fork_spec st s n :
  good_in st s -> 0 <= n < INT32_MAX ->
  st = P2P \/ (st = LIVE /\ cfg_lite_mode cfg = true) ->
  exists s', on_switch_fork n s = (Ok tt, s') /\
    is_cache s' = cache_where (fun b => b <=? n) (is_cache s) /\ dumps s' = dumps s.
Proof.
  intros G Hn Hst. unfold on_switch_fork, st_bind. rewrite (get_state_ok _ _ (good_state _ _ G)).
  assert ((bool_decide (st = LIVE) && cfg_lite_mode cfg) || bool_decide (st = P2P) = true) as ->
    by (destruct Hst as [-> | [-> ->]]; reflexivity).
  eexists. split; [reflexivity|]. split; [|done].
  cbn. by rewrite erase_cache_greater_than_block_where by (apply G || done).
Qed.

(** A massive synchronisation that was interrupted in an earlier run is not resumed
    over P2P: the first block moves the machine to P2P only when it directly
    follows the dumped head, and otherwise the node is killed. *)
Theorem interrupted_sync_not_resumed st s n r s' :
  good_in st s -> st = START \/ st = WAIT -> cfg_prior_massive_sync_interrupted cfg = true ->
  on_first_block n s = (r, s') ->
  (state_is P2P s' -> u32 n = u32 (cfg_psql_head_at_startup cfg + 1)) /\
  (r = Throw RefusedInterruptedSync -> EvKillNode ∈ is_trace s').
Proof.
  intros G Hst Hint E. unfold on_first_block, on_local in E.
  pose proof (set_cache_good _ _ _ G empty_cache_ok) as Gl.
  set (s0 := set_cache empty_cache s) in *.
  unfold st_bind at 1 in E. rewrite (get_state_ok _ _ (good_state _ _ Gl)) in E.
  pose proof (good_cached _ _ Gl) as Gc. set (s1 := set_cached_state_value (Some st) s0) in *.
  destruct (can_move_to_livesync_ok s1) as [b Eb].
  pose proof (next_question_good _ _ Gc) as Gq. set (s2 := next_question s1) in *.
  assert ((let '(r, s') := update_state (if b then LIVE else P2P) n UNKNOWN s2 in
    (r, set_cache (is_cache s) s')) = (r, s')) as E'.
  { destruct Hst as [-> | ->]; unfold st_bind in E; rewrite Eb in E; by destruct b. }
  clear E. rewrite (update_state_unfold st s2 _ n UNKNOWN (good_state _ _ Gq)) in E'. cbv zeta in E'.
  rewrite bool_decide_false in E' by (destruct Hst as [-> | ->]; done).
  destruct (refuses (if b then LIVE else P2P) st n) eqn:Eref.
  - injection E' as <- <-. split; [|intros _; left].
    intros HP. exfalso. assert (st = P2P); [|by destruct Hst; congruence].
    eapply state_is_fun; [|exact HP]. exact (good_state _ _ (good_cached _ _ Gq)).
  - destruct b.
    + destruct (enter_live_result st _ (good_cached _ _ Gq)) as (s4 & E4 & G4);
        [by destruct Hst; congruence|].
      cbn [enter] in E'. rewrite E4 in E'. injection E' as <- <-. split; [|done].
      intros HP. by pose proof (state_is_fun _ _ _ (good_state _ _ G4) HP).
    + split.
      * intros _. unfold refuses in Eref. rewrite Hint in Eref.
        rewrite bool_decide_true in Eref by done.
        rewrite (bool_decide_false (st = REINDEX)) in Eref by (destruct Hst as [-> | ->]; done).
        cbn in Eref. apply negb_false_iff, Z.eqb_eq in Eref. done.
      * intros ->. exfalso. cbn [enter] in E'.
        destruct (enter_p2p_spec st _ (u32 n) (good_state _ _ (good_cached _ _ Gq)) (or_introl eq_refl)
          (good_cache _ _ (good_cached _ _ Gq))) as (s4 & E4 & _).
        rewrite E4 in E'. discriminate.
Qed.

Lemma length_filter_numbers irr (v : list process_block_t) :
  length (filter (fun b => b <= irr) (map pb_block_number v)) =
  length (items_where (fun b => b <=? irr) v).
Proof.
  unfold items_where. induction v as [|y v IH]; [done|]. cbn [map]. rewrite !filter_cons.
  change (block_number y) with (pb_block_number y).
  destruct (decide (pb_block_number y <= irr)).
  - rewrite decide_True by by apply Z.leb_le. cbn. by rewrite IH.
  - rewrite decide_False by (rewrite Z.leb_le; lia). done.
Qed.

(** Shutting down in LIVE with two or more irreversible blocks cached, which lite
    mode allows, throws and drops their rows: they leave the cache and reach no
    dumper. *)
Theorem lite_shutdown_drops_blocks s n :
  good_in LIVE s -> is_irreversible_block_num s <> NO_IRREVERSIBLE_BLOCK ->
  1 < Z.of_nat (length (filter (fun b => b <= is_irreversible_block_num s) (block_numbers (is_cache s)))) ->
  exists s', flush_all_cached_data n s = (Throw NotSingleBlock, s') /\
    is_cache s' = cache_where (fun b => is_irreversible_block_num s <? b) (is_cache s) /\
    dumps s' = dumps s.
Proof.
  intros G Hirr Htwo. pose proof (good_irreversible _ _ G) as Hi.
  unfold irreversible_ok, NO_IRREVERSIBLE_BLOCK in *.
  pose proof (good_cached _ _ G) as G0. set (s0 := set_cached_state_value (Some LIVE) s) in *.
  unfold flush_all_cached_data, st_bind at 1. rewrite (get_state_ok _ _ (good_state _ _ G)).
  rewrite decide_True by done. fold s0. unfold move_irreversible_blocks, st_bind at 1, st_get.
  change (is_irreversible_block_num s0) with (is_irreversible_block_num s).
  change (is_cache s0) with (is_cache s).
  rewrite u32_small by (unfold UINT32_MAX, INT32_MAX in *; lia).
  rewrite move_irreveresible_blocks_where by (apply (good_cache _ _ G) || lia).
  unfold flush_upto, st_bind, st_modify, on_local. cbn [fst snd].
  set (irr := is_irreversible_block_num s) in *.
  set (moved := fresh_cache (cache_where (fun b => b <=? irr) (is_cache s))).
  assert (1 < length (blocks moved))%nat as Hlen.
  { unfold block_numbers in Htwo. rewrite length_filter_numbers in Htwo.
    change (blocks moved) with (items_where (fun b => b <=? irr) (blocks (is_cache s))). lia. }
  destruct (force_flush_refused LIVE (set_cache moved (set_cache
    (cache_where (fun b => irr <? b) (is_cache s)) s0)) irr) as (s1 & E1 & C1 & K1 & D1).
  - exact (good_state _ _ G0).
  - apply (good_equipped _ _ G0).
  - cbn [is_cache set_cache]. intros E. rewrite E in Hlen. cbn in Hlen. lia.
  - cbn [is_cache set_cache]. lia.
  - rewrite E1. eexists. split; [reflexivity|]. split; [done|exact D1].
Qed.

End indexation.

(** ** Witnesses *)

Module Examples.

Import CacheExamples.

Definition config (lite : bool) : is_config :=
  {| cfg_livesync_threshold := 20; cfg_first_block := 1; cfg_pruning_tail_size := 0;
     cfg_lite_mode := lite; cfg_prior_massive_sync_interrupted := true;
     cfg_psql_head_at_startup := 4 |}.

(** Far behind the head, never interrupted. *)
Definition env : environment :=
  {| env_behind_less_than := fun _ _ => false; env_seconds_behind := fun _ => 3600;
     env_interrupt := fun _ => false; env_constraints_dropped := fun _ _ => true |}.

Definition in_state (st : INDEXATION) (t : flush_trigger) (d : dumper) (irr : Z) (l : list Z)
  : @istate unit :=
  Build_istate None (enum_to_string st) (Some d) (Some t) irr (rows l) [] 0.

Lemma lt_sorted : StronglySorted Z.lt [1000; 1001; 1002] /\
  Forall (fun n => 0 <= n < INT32_MAX) [1000; 1001; 1002].
Proof. split; repeat constructor; unfold INT32_MAX; lia. Qed.

Definition p2p_state : istate :=
  in_state P2P (p2p_flush_trigger 0) (reindex_data_dumper false) 1001 [1000; 1001; 1002].
Definition lite_state : istate :=
  in_state LIVE lite_live_flush_trigger livesync_data_dumper 1001 [1000; 1001; 1002].

Lemma p2p_good lite : good_in (config lite) P2P p2p_state.
Proof.
  constructor; [split; [reflexivity|by left]|by exists 0, false|apply rows_ok; apply lt_sorted|].
  unfold irreversible_ok, INT32_MAX. cbn. lia.
Qed.

Lemma lite_good : good_in (config true) LIVE lite_state.
Proof.
  constructor; [split; [reflexivity|by left]|done|apply rows_ok; apply lt_sorted|].
  unfold irreversible_ok, INT32_MAX. cbn. lia.
Qed.

Definition first_blocks : list (call * outcome is_error unit) :=
  [(CBlock 5, Ok tt); (CCollect (rows [5]), Ok tt); (CTriggerFlush 5, Ok tt)].

Lemma first_blocks_run : exists s' : @istate unit,
  runs (config false) env (construct "") first_blocks s' /\ is_cache s' = rows [5].
Proof.
  eexists. split.
  - eapply RunsCons; [done|by intros []|vm_compute; reflexivity|]. eapply RunsCons; [|by intros []|vm_compute; reflexivity|].
    { change (cache_ok (rows [5])). apply rows_ok; repeat constructor; unfold INT32_MAX; lia. }
    eapply RunsCons; [done|by intros []|vm_compute; reflexivity|]. apply RunsNil.
  - vm_compute. reflexivity.
Qed.


Lemma live_is_final_witness : state_is LIVE lite_state /\ equipped (config true) LIVE lite_state.
Proof. apply (live_is_final (config true) env lite_state [] lite_state); [apply RunsNil|apply lite_good]. Defined.

Lemma transitions_follow_diagram_witness : transition_allowed START P2P = true.
Proof.
  destruct (run_call (config false) env (CBlock 5) (@construct unit "")) as [r s'] eqn:E.
  apply (transitions_follow_diagram (config false) env START (construct "") (CBlock 5) r s' P2P);
    [apply construct_good|done|by intros []|exact E|].
  vm_compute in E. injection E as <- <-. split; [reflexivity|by left].
Defined.

Lemma collect_blocks_iff_witness : (collect_blocks p2p_state).1 = Ok true.
Proof. apply (collect_blocks_iff P2P). split; [reflexivity|by left]. Defined.

Lemma trigger_data_flush_conserves_witness :
  total_rows (trigger_data_flush (config true) 1003 lite_state).2 = total_rows lite_state.
Proof.
  apply (trigger_data_flush_conserves (config true) LIVE lite_state 1003); [apply lite_good|auto|].
  vm_compute. reflexivity.
Defined.

Lemma p2p_flush_spec_witness : exists s' : @istate unit,
  trigger_data_flush (config false) 1003 p2p_state = (Ok tt, s') /\
  is_trigger s' = Some (p2p_flush_trigger 1001) /\ blocks (is_cache s') = [block 1002].
Proof.
  destruct (p2p_flush_spec (config false) p2p_state 1003 0 false (p2p_good false) eq_refl eq_refl)
    as (s' & E & T & K & _).
  exists s'. split; [exact E|]. split; [exact T|]. rewrite K. vm_compute. reflexivity.
Defined.

Lemma lite_live_flush_spec_witness : exists s' : @istate unit,
  trigger_data_flush (config true) 1003 lite_state = (Ok tt, s') /\
  map (fun d => d.2) (dumps s') = [1000; 1001].
Proof.
  destruct (lite_live_flush_spec (config true) lite_state 1003 lite_good eq_refl ltac:(discriminate))
    as (s' & E & _ & _ & D).
  exists s'. split; [exact E|]. rewrite D. vm_compute. reflexivity.
Defined.

Lemma p2p_to_live_dumps_everything_witness : exists s' : @istate unit,
  on_end_of_syncing (config false) env 1002 p2p_state = (Ok tt, s') /\
  map (fun d => (d.1.1, d.2)) (dumps s') =
    [(reindex_data_dumper false, 1001); (livesync_data_dumper, 1002)].
Proof.
  destruct (p2p_to_live_dumps_everything (config false) env p2p_state 1002 false (p2p_good false)
    eq_refl eq_refl (fun _ => eq_refl) ltac:(discriminate)) as (s' & E & _ & _ & D).
  exists s'. split; [exact E|]. rewrite D. vm_compute. reflexivity.
Defined.

Lemma on_switch_fork_spec_witness : exists s' : @istate unit,
  on_switch_fork (config false) 1000 p2p_state = (Ok tt, s') /\ blocks (is_cache s') = [block 1000].
Proof.
  destruct (on_switch_fork_spec (config false) P2P p2p_state 1000 (p2p_good false)
    ltac:(unfold INT32_MAX; lia) (or_introl eq_refl)) as (s' & E & K & _).
  exists s'. split; [exact E|]. rewrite K. vm_compute. reflexivity.
Defined.

Lemma interrupted_sync_not_resumed_witness :
  let r := on_first_block (config false) env 7 (@construct unit "") in
  (state_is P2P r.2 -> u32 7 = u32 5) /\
  (r.1 = Throw RefusedInterruptedSync -> EvKillNode ∈ is_trace r.2).
Proof.
  apply (interrupted_sync_not_resumed (config false) env START (construct "") 7);
    [apply construct_good|auto|reflexivity|]. by destruct (on_first_block _ _ _ _).
Defined.

Lemma lite_shutdown_drops_blocks_witness : exists s' : @istate unit,
  flush_all_cached_data (config true) 1003 lite_state = (Throw NotSingleBlock, s') /\
  blocks (is_cache s') = [block 1002] /\ dumps s' = [].
Proof.
  destruct (lite_shutdown_drops_blocks (config true) lite_state 1003 lite_good ltac:(discriminate)
    ltac:(vm_compute; reflexivity)) as (s' & E & K & D).
  exists s'. split; [exact E|]. rewrite K, D. vm_compute. split; reflexivity.
Defined.

End Examples.
