(* ===== verification/DataProcessor.v ===== *)
(** * Data processors

    Models [data_processor.hpp/.cpp]: a bounded queue in front of one worker
    thread, the worker's loop, its exception path, and the callers' operations.

    The callers and the worker of a [data_processor] interleave at its critical
    sections; each of them is a function below and [dp_step] is any of them
    happening.  The processing function of the sources is a parameter that may
    throw. *)

From S2P Require Import Prelude Text.
From Stdlib Require Import ZArith Lia Ascii String.
From stdpp Require Import base list strings gmap sorting.

Open Scope Z_scope.

(** ** [data_processor] *)

Definition MAX_QUEUED_CHUNKS : nat := 2.

(** What [handle_exception] distinguishes: an SQL statement cancelled by the server
    (state 57014) is swallowed, everything else is rethrown. *)
Inductive exn := QueryCancelled | OtherError.

(** The function of a processor that looks at its chunk, for processors that are always triggered
    with one. *)
Definition on_chunk {D} (f : D -> option exn) (data : option D) : option exn := data ≫= f.

Section processor.
  Context {D : Type} (throws : option D -> option exn) (report_throws : Z -> option exn).

Record queued_batch := {
  qb_data : option D;          (* data_chunk_ptr *)
  qb_last_block_num : Z;
  qb_report_only : bool
}.

(** Where the worker thread is.  [done] tells whether the batch whose handling
    threw had gone through the processing function. *)
Inductive worker_at :=
| Waiting                                          (* before or in the wait for data *)
| Taken (b : queued_batch)                         (* popped, not processed *)
| Processed (b : queued_batch)                     (* processed, not reported *)
| Reported (b : queued_batch)                      (* reported, the drained check is to come *)
| Failing (b : queued_batch) (done : bool) (e : exn)   (* caught, handle_exception is to come *)
| Failed (b : queued_batch) (done : bool) (e : exn)    (* left through handle_exception *)
| Finished.                                        (* left the loop *)

Record processor := {
  dp_queue : list queued_batch;
  dp_cancel : bool;
  dp_continue : bool;
  dp_is_processing_data : bool;
  dp_future_valid : bool;
  dp_worker : worker_at;
  dp_killed : bool;                    (* kill_node was called *)
  dp_accepted : list queued_batch;     (* ever put into the queue, oldest first *)
  dp_processed : list queued_batch;    (* handled by the worker, oldest first *)
  dp_reported : list Z                 (* calls of report_complete_thread_stage *)
}.

Definition new_processor : processor :=
  {| dp_queue := []; dp_cancel := false; dp_continue := true; dp_is_processing_data := false;
     dp_future_valid := true; dp_worker := Waiting; dp_killed := false;
     dp_accepted := []; dp_processed := []; dp_reported := [] |}.

Definition with_worker (w : worker_at) (p : processor) : processor :=
  {| dp_queue := dp_queue p; dp_cancel := dp_cancel p; dp_continue := dp_continue p;
     dp_is_processing_data := dp_is_processing_data p; dp_future_valid := dp_future_valid p;
     dp_worker := w; dp_killed := dp_killed p;
     dp_accepted := dp_accepted p; dp_processed := dp_processed p; dp_reported := dp_reported p |}.

Definition with_flags (cancel cont busy : bool) (p : processor) : processor :=
  {| dp_queue := dp_queue p; dp_cancel := cancel; dp_continue := cont;
     dp_is_processing_data := busy; dp_future_valid := dp_future_valid p;
     dp_worker := dp_worker p; dp_killed := dp_killed p;
     dp_accepted := dp_accepted p; dp_processed := dp_processed p; dp_reported := dp_reported p |}.

(** [enqueue]: [None] while the condition of the wait does not hold. *)
Definition enqueue (batch : queued_batch) (p : processor) : option processor :=
  if (length (dp_queue p) <? MAX_QUEUED_CHUNKS)%nat || dp_cancel p || negb (dp_continue p) then
    if dp_continue p && (length (dp_queue p) <? MAX_QUEUED_CHUNKS)%nat then
      Some {| dp_queue := dp_queue p ++ [batch]; dp_cancel := dp_cancel p;
              dp_continue := dp_continue p; dp_is_processing_data := true;
              dp_future_valid := dp_future_valid p;
              dp_worker := dp_worker p; dp_killed := dp_killed p;
              dp_accepted := dp_accepted p ++ [batch];
              dp_processed := dp_processed p; dp_reported := dp_reported p |}
    else Some p
  else None.

Definition trigger (data : option D) (last_blocknum : Z) (p : processor) : option processor :=
  enqueue {| qb_data := data; qb_last_block_num := last_blocknum; qb_report_only := false |} p.

Definition only_report_batch_finished (block_num : Z) (p : processor) : option processor :=
  enqueue {| qb_data := None; qb_last_block_num := block_num; qb_report_only := true |} p.

Definition notify_processing_finished (p : processor) : processor :=
  with_flags (dp_cancel p) (dp_continue p) false p.

(** The worker wakes up: it stops, or pops the first batch. *)
Definition worker_wake (p : processor) : option processor :=
  match dp_worker p with
  | Waiting =>
      match dp_queue p with
      | [] => if dp_continue p then None
              else Some (with_worker Finished (notify_processing_finished p))
      | batch :: rest =>
          if negb (dp_continue p) && dp_cancel p
          then Some (with_worker Finished (notify_processing_finished p))
          else Some {| dp_queue := rest; dp_cancel := dp_cancel p; dp_continue := dp_continue p;
                       dp_is_processing_data := dp_is_processing_data p;
                       dp_future_valid := dp_future_valid p;
                       dp_worker := Taken batch; dp_killed := dp_killed p;
                       dp_accepted := dp_accepted p; dp_processed := dp_processed p;
                       dp_reported := dp_reported p |}
      end
  | _ => None
  end.

(** [if( !batch.report_only ) dataProcessor( batch.data )], where the pointer may be null; an
    exception is caught outside of the loop, where the waiters are told that processing is over. *)
Definition worker_process (p : processor) : option processor :=
  match dp_worker p with
  | Taken batch =>
      match (if qb_report_only batch then None else throws (qb_data batch)) with
      | Some e => Some (with_worker (Failing batch false e) (notify_processing_finished p))
      | None =>
          Some {| dp_queue := dp_queue p; dp_cancel := dp_cancel p; dp_continue := dp_continue p;
                  dp_is_processing_data := dp_is_processing_data p;
                  dp_future_valid := dp_future_valid p;
                  dp_worker := Processed batch; dp_killed := dp_killed p;
                  dp_accepted := dp_accepted p; dp_processed := dp_processed p ++ [batch];
                  dp_reported := dp_reported p |}
      end
  | _ => None
  end.

Definition report_of (b : queued_batch) : list Z :=
  if qb_last_block_num b =? 0 then [] else [qb_last_block_num b].

(** [if( _randezvous_trigger && batch.last_block_num ) report_complete_thread_stage(...)];
    the rendezvous, or the function it calls, may throw. *)
Definition worker_report (p : processor) : option processor :=
  match dp_worker p with
  | Processed batch =>
      let p' := {| dp_queue := dp_queue p; dp_cancel := dp_cancel p; dp_continue := dp_continue p;
              dp_is_processing_data := dp_is_processing_data p;
              dp_future_valid := dp_future_valid p;
              dp_worker := Reported batch; dp_killed := dp_killed p;
              dp_accepted := dp_accepted p; dp_processed := dp_processed p;
              dp_reported := dp_reported p ++ report_of batch |} in
      match (if qb_last_block_num batch =? 0 then None else report_throws (qb_last_block_num batch)) with
      | Some e => Some (with_worker (Failing batch true e) (notify_processing_finished p'))
      | None => Some p'
      end
  | _ => None
  end.

(** [notify_processing_finished_if_drained] and back to the loop. *)
Definition worker_drained (p : processor) : option processor :=
  match dp_worker p with
  | Reported _ =>
      Some (with_worker Waiting
        (match dp_queue p with [] => notify_processing_finished p | _ => p end))
  | _ => None
  end.

(** [handle_exception]: stop, ask the node to stop, and rethrow unless the statement
    was cancelled; in that case the body runs to its end. *)
Definition handle_exception (p : processor) : option processor :=
  match dp_worker p with
  | Failing b done e =>
      Some {| dp_queue := dp_queue p; dp_cancel := true; dp_continue := false;
              dp_is_processing_data :=
                match e with QueryCancelled => false | OtherError => dp_is_processing_data p end;
              dp_future_valid := dp_future_valid p;
              dp_worker := Failed b done e; dp_killed := true;
              dp_accepted := dp_accepted p; dp_processed := dp_processed p;
              dp_reported := dp_reported p |}
  | _ => None
  end.

(** [join] sets its flag, then waits for the worker ([None] until it has left) and
    takes the exception, if any, out of the future. *)
Definition join_begin (p : processor) : processor :=
  with_flags (dp_cancel p) false (dp_is_processing_data p) p.

Definition take_future (p : processor) : processor :=
  {| dp_queue := dp_queue p; dp_cancel := dp_cancel p; dp_continue := dp_continue p;
     dp_is_processing_data := dp_is_processing_data p; dp_future_valid := false;
     dp_worker := dp_worker p; dp_killed := dp_killed p; dp_accepted := dp_accepted p;
     dp_processed := dp_processed p; dp_reported := dp_reported p |}.

Definition join_end (p : processor) : option (outcome exn unit * processor) :=
  if negb (dp_future_valid p) then Some (Ok tt, p)
  else
    match dp_worker p with
    | Finished | Failed _ _ QueryCancelled => Some (Ok tt, take_future p)
    | Failed _ _ OtherError => Some (Throw OtherError, take_future p)
    | _ => None
    end.

(** [cancel] is [_cancel.store(true)] followed by [join]. *)
Definition cancel_begin (p : processor) : processor :=
  with_flags true (dp_continue p) (dp_is_processing_data p) p.

(** [complete_data_processing] may return. *)
Definition completed (p : processor) : bool :=
  negb (dp_is_processing_data p) || dp_cancel p.

Inductive dp_step : processor -> processor -> Prop :=
| DpEnqueue b p p' : enqueue b p = Some p' -> dp_step p p'
| DpWake p p' : worker_wake p = Some p' -> dp_step p p'
| DpProcess p p' : worker_process p = Some p' -> dp_step p p'
| DpReport p p' : worker_report p = Some p' -> dp_step p p'
| DpDrained p p' : worker_drained p = Some p' -> dp_step p p'
| DpException p p' : handle_exception p = Some p' -> dp_step p p'
| DpJoin p : dp_step p (join_begin p)
| DpJoinEnd p o p' : join_end p = Some (o, p') -> dp_step p p'
| DpCancel p : dp_step p (cancel_begin p).

Inductive dp_reachable : processor -> Prop :=
| DpInit : dp_reachable new_processor
| DpMore p p' : dp_reachable p -> dp_step p p' -> dp_reachable p'.

(** ** Invariant *)

(** The batch the worker has popped and not put through the processing function. *)
Definition taken (w : worker_at) : list queued_batch :=
  match w with
  | Taken b | Failing b false _ | Failed b false _ => [b]
  | _ => []
  end.

(** Processed and reported, oldest first. *)
Definition reported_batches (p : processor) : list queued_batch :=
  match dp_worker p with Processed _ => removelast (dp_processed p) | _ => dp_processed p end.

Definition stopping (w : worker_at) : bool :=
  match w with Failing _ _ _ | Failed _ _ _ | Finished => true | _ => false end.

Record dp_inv (p : processor) : Prop := {
  inv_bound : (length (dp_queue p) <= MAX_QUEUED_CHUNKS)%nat;
  inv_fifo : dp_accepted p = dp_processed p ++ taken (dp_worker p) ++ dp_queue p;
  inv_failed : forall b d e, dp_worker p = Failed b d e ->
    dp_cancel p = true /\ dp_continue p = false /\ dp_killed p = true;
  inv_reports : dp_reported p = concat (map report_of (reported_batches p));
  inv_last : forall b, dp_worker p = Processed b -> last (dp_processed p) = Some b;
  inv_busy : stopping (dp_worker p) = false -> dp_is_processing_data p = false ->
    dp_queue p = [] /\ dp_worker p = Waiting;
  inv_finished : dp_worker p = Finished -> dp_cancel p = false -> dp_queue p = [];
  inv_stopped : dp_worker p = Finished -> dp_continue p = false
}.

Ltac dp_start I :=
  destruct I as [I1 I2 I3 I4 I5 I6 I7 I8]; unfold reported_batches in *.

Ltac dp_finish := constructor; unfold reported_batches; cbn; try done; try (intros; simplify_eq; done).

Lemma new_processor_inv : dp_inv new_processor.
Proof. constructor; cbn; try done; lia. Qed.

Lemma enqueue_inv b p p' : dp_inv p -> enqueue b p = Some p' -> dp_inv p'.
Proof.
  intros I E. unfold enqueue in E. case_match; [|done].
  destruct (dp_continue p && (length (dp_queue p) <? MAX_QUEUED_CHUNKS)%nat) eqn:Ec;
    injection E as <-; [|done].
  apply andb_true_iff in Ec as [Ec El]. apply Nat.ltb_lt in El. destruct I as [I1 I2 I3 I4 I5 I6 I7 I8].
  constructor; cbn; try done.
  - rewrite length_app. cbn. lia.
  - rewrite I2. by rewrite <- !app_assoc.
  - intros Hw. by rewrite (I8 Hw) in Ec.
Qed.

Lemma worker_wake_inv p p' : dp_inv p -> worker_wake p = Some p' -> dp_inv p'.
Proof.
  intros I E. unfold worker_wake in E. destruct (dp_worker p) eqn:Ew; try done.
  dp_start I. rewrite Ew in *. cbn in I2. destruct (dp_queue p) as [|b rest] eqn:Eq.
  - destruct (dp_continue p) eqn:Ec; [done|]. injection E as <-. dp_finish; rewrite ?Eq; done.
  - destruct (negb (dp_continue p) && dp_cancel p) eqn:Es; injection E as <-.
    + apply andb_true_iff in Es as [Es1 Es2]. apply negb_true_iff in Es1.
      dp_finish; rewrite ?Eq; done || congruence.
    + dp_finish; [cbn in I1; lia|]. intros _ Hp. by destruct (I6 eq_refl Hp).
Qed.

Lemma worker_process_inv p p' : dp_inv p -> worker_process p = Some p' -> dp_inv p'.
Proof.
  intros I E. unfold worker_process in E. destruct (dp_worker p) as [|b| | | | |] eqn:Ew; try done.
  dp_start I. rewrite Ew in *. cbn in I2. case_match; injection E as <-.
  - dp_finish.
  - dp_finish.
    + rewrite I2. by rewrite <- app_assoc.
    + rewrite removelast_last. exact I4.
    + intros ? [= <-]. apply last_snoc.
    + intros _ Hp. by destruct (I6 eq_refl Hp).
Qed.

Lemma worker_report_inv p p' : dp_inv p -> worker_report p = Some p' -> dp_inv p'.
Proof.
  intros I E. unfold worker_report in E. destruct (dp_worker p) as [| |b| | | |] eqn:Ew; try done.
  dp_start I. rewrite Ew in *. cbn in I2.
  assert (dp_reported p ++ report_of b = concat (map report_of (dp_processed p))) as Hr.
  { rewrite I4. specialize (I5 b eq_refl). destruct (dp_processed p) as [|x l _] using rev_ind; [done|].
    rewrite last_snoc in I5. injection I5 as ->.
    rewrite removelast_last, map_app, concat_app. cbn. by rewrite app_nil_r. }
  case_match; injection E as <-; dp_finish; intros _ Hp; by destruct (I6 eq_refl Hp).
Qed.

Lemma worker_drained_inv p p' : dp_inv p -> worker_drained p = Some p' -> dp_inv p'.
Proof.
  intros I E. unfold worker_drained in E. destruct (dp_worker p) as [| | |b| | |] eqn:Ew; try done.
  dp_start I. rewrite Ew in *. cbn in I2.
  injection E as <-. destruct (dp_queue p) eqn:Eq; dp_finish; rewrite ?Eq; try done;
    intros _ Hp; by destruct (I6 eq_refl Hp).
Qed.

Lemma handle_exception_inv p p' : dp_inv p -> handle_exception p = Some p' -> dp_inv p'.
Proof.
  intros I E. unfold handle_exception in E. destruct (dp_worker p) as [| | | |b d e| |] eqn:Ew; try done.
  dp_start I. rewrite Ew in *. injection E as <-. dp_finish.
Qed.

Lemma join_end_inv p o p' : dp_inv p -> join_end p = Some (o, p') -> dp_inv p'.
Proof.
  intros I E. assert (p' = p \/ p' = take_future p) as [->| ->]; [|done|].
  - unfold join_end in E. repeat case_match; naive_solver.
  - dp_start I. dp_finish.
Qed.

Lemma dp_step_inv p p' : dp_inv p -> dp_step p p' -> dp_inv p'.
Proof.
  intros I Hs. destruct Hs.
  - by eapply enqueue_inv.
  - by eapply worker_wake_inv.
  - by eapply worker_process_inv.
  - by eapply worker_report_inv.
  - by eapply worker_drained_inv.
  - by eapply handle_exception_inv.
  - dp_start I. dp_finish; intros b d e Hw; by destruct (I3 b d e Hw) as (? & ? & ?).
  - by eapply join_end_inv.
  - dp_start I. dp_finish; intros b d e Hw; by destruct (I3 b d e Hw) as (? & ? & ?).
Qed.

Lemma dp_reachable_inv p : dp_reachable p -> dp_inv p.
Proof. induction 1; [apply new_processor_inv|by eapply dp_step_inv]. Qed.

(** At every moment at most two batches wait behind the one in the worker's hands;
    the batches are processed in the order they were accepted, none skipped or
    repeated; and the rendezvous has been told exactly of the processed ones (all but
    possibly the one just finished), in that order. *)
Theorem processor_fifo p :
  dp_reachable p ->
  (length (dp_queue p) <= 2)%nat /\
  dp_accepted p = dp_processed p ++ taken (dp_worker p) ++ dp_queue p /\
  dp_reported p = concat (map report_of (reported_batches p)).
Proof. intros Hr. by destruct (dp_reachable_inv p Hr). Qed.

(** When join returns without an exception from a processor that was not cancelled
    and whose worker left its loop, every accepted batch has been processed and
    reported; when join throws, the node has been asked to stop. *)
Theorem join_drains p o p' :
  dp_reachable p -> dp_future_valid p = true -> join_end p = Some (o, p') ->
  match o with
  | Ok _ => dp_cancel p = false ->
      dp_processed p = dp_accepted p /\ dp_reported p = concat (map report_of (dp_accepted p))
  | Throw _ => dp_killed p = true /\ dp_cancel p = true
  end.
Proof.
  intros Hr Hv E. destruct (dp_reachable_inv p Hr) as [I1 I2 I3 I4 I5 I6 I7 I8].
  unfold join_end in E. unfold reported_batches in *. rewrite Hv in E. cbn in E.
  destruct (dp_worker p) as [| | | | |b d e|]; try done.
  - destruct (I3 b d e eq_refl) as (Hc & _ & Hk). destruct e; injection E as <- <-; [congruence|done].
  - injection E as <- <-. intros Hc. rewrite (I7 eq_refl Hc) in I2. cbn in I2. rewrite app_nil_r in I2. by rewrite I2.
Qed.

(** C21: When complete_data_processing returns while nothing has been cancelled and the
    worker has not caught an exception, every accepted batch has been processed and
    reported. *)
Theorem complete_means_processed p :
  dp_reachable p -> completed p = true -> dp_cancel p = false ->
  (forall b d e, dp_worker p <> Failing b d e) ->
  dp_processed p = dp_accepted p /\ dp_reported p = concat (map report_of (dp_accepted p)).
Proof.
  intros Hr Hc Hn Hf. destruct (dp_reachable_inv p Hr) as [I1 I2 I3 I4 I5 I6 I7 I8].
  unfold completed in Hc. rewrite Hn, orb_false_r, negb_true_iff in Hc.
  assert (taken (dp_worker p) = [] /\ dp_queue p = [] /\ reported_batches p = dp_processed p)
    as (Ht & Hq & Hb).
  { unfold reported_batches. destruct (dp_worker p) as [| | | |b d e|b d e|] eqn:Ew.
    1-4: destruct (I6 eq_refl Hc) as [? ?]; done.
    - by destruct (Hf b d e).
    - destruct (I3 b d e eq_refl) as [? _]. congruence.
    - split; [done|]. split; [by apply I7|done]. }
  rewrite Ht, Hq in I2. cbn in I2. rewrite app_nil_r in I2. rewrite Hb in I4. by rewrite I2.
Qed.

(** Once the worker has handled an exception, the batch whose processing threw and
    every batch behind it stay unreported, and nothing is accepted any more. *)
Theorem failure_stops_reports p b e :
  dp_reachable p -> dp_worker p = Failed b false e ->
  dp_accepted p = dp_processed p ++ b :: dp_queue p /\
  dp_reported p = concat (map report_of (dp_processed p)) /\
  dp_killed p = true /\
  (forall b' p', enqueue b' p = Some p' -> p' = p).
Proof.
  intros Hr Hf. destruct (dp_reachable_inv p Hr) as [I1 I2 I3 I4 I5 I6 I7 I8].
  unfold reported_batches in I4. destruct (I3 b false e Hf) as (Hcan & Hcont & Hk).
  rewrite Hf in *. split_and!; try done.
  intros b' p' E. unfold enqueue in E. rewrite Hcan, Hcont, orb_true_r in E. by injection E.
Qed.

End processor.

(** ** An orderly stop terminates

    Once [_continue] is false nothing is accepted any more and the worker alone makes
    progress: [worker_turn] is the next thing it does. *)

Section drain.
  Context {D : Type} (throws : option D -> option exn) (report_throws : Z -> option exn).
  Implicit Types p : @processor D.

Definition worker_turn p : option processor :=
  match dp_worker p with
  | Waiting => worker_wake p
  | Taken _ => worker_process throws p
  | Processed _ => worker_report report_throws p
  | Reported _ => worker_drained p
  | Failing _ _ _ => handle_exception p
  | Failed _ _ _ | Finished => None
  end.

Fixpoint worker_runs (fuel : nat) p : processor :=
  match fuel with
  | O => p
  | S fuel' => match worker_turn p with Some p' => worker_runs fuel' p' | None => p end
  end.

(** Turns left: four for each batch, and one to leave. *)
Definition turns_left p : nat :=
  match dp_worker p with
  | Waiting => 1 + 4 * length (dp_queue p)
  | Taken _ => 4 + 4 * length (dp_queue p)
  | Processed _ => 3 + 4 * length (dp_queue p)
  | Reported _ => 2 + 4 * length (dp_queue p)
  | Failing _ _ _ => 1
  | Failed _ _ _ | Finished => 0
  end.

Definition left_the_body p : Prop :=
  match dp_worker p with Failed _ _ _ | Finished => True | _ => False end.

Lemma worker_turn_progress p :
  dp_continue p = false -> ~ left_the_body p ->
  exists p', worker_turn p = Some p' /\ dp_continue p' = false /\
    (turns_left p' < turns_left p)%nat.
Proof.
  intros Hc Hl. unfold worker_turn, turns_left, left_the_body in *.
  destruct (dp_worker p) as [|b|b|b|b d e|b d e|] eqn:Ew; try done.
  - unfold worker_wake. rewrite Ew, Hc. destruct (dp_queue p) as [|b rest]; cbn.
    + eexists; split; [done|]. cbn. split; [done|lia].
    + destruct (dp_cancel p); (eexists; split; [done|]; cbn; split; [done|lia]).
  - unfold worker_process. rewrite Ew.
    case_match; (eexists; split; [done|]; cbn; split; [done|lia]).
  - unfold worker_report. rewrite Ew.
    destruct (if qb_last_block_num b =? 0 then None else _);
      (eexists; split; [done|]; cbn; split; [done|lia]).
  - unfold worker_drained. rewrite Ew. eexists; split; [done|].
    destruct (dp_queue p) eqn:Eq; cbn; rewrite ?Eq; (split; [done|cbn; lia]).
  - unfold handle_exception. rewrite Ew. eexists; split; [done|]. cbn. split; [done|lia].
Qed.

Lemma worker_runs_leaves fuel p :
  dp_continue p = false -> (turns_left p <= fuel)%nat -> left_the_body (worker_runs fuel p).
Proof.
  revert p. induction fuel as [|fuel IH]; intros p Hc Hf.
  - cbn. unfold turns_left, left_the_body in *. destruct (dp_worker p); done || lia.
  - cbn. assert (left_the_body p \/ ~ left_the_body p) as [Hl|Hl]
      by (unfold left_the_body; destruct (dp_worker p); tauto).
    + unfold worker_turn. unfold left_the_body in Hl |- *. by destruct (dp_worker p) eqn:Ew; rewrite ?Ew.
    + destruct (worker_turn_progress p Hc Hl) as (p' & -> & Hc' & Ht). apply IH; [done|lia].
Qed.

Lemma worker_turn_step p p' : worker_turn p = Some p' -> dp_step throws report_throws p p'.
Proof.
  unfold worker_turn. destruct (dp_worker p); intros E; try done;
    eauto using DpWake, DpProcess, DpReport, DpDrained, DpException.
Qed.

Lemma worker_runs_reachable fuel p :
  dp_reachable throws report_throws p -> dp_reachable throws report_throws (worker_runs fuel p).
Proof.
  revert p. induction fuel as [|fuel IH]; intros p Hr; [done|]. cbn.
  destruct (worker_turn p) eqn:E; [|done]. apply IH. eapply DpMore; [done|by apply worker_turn_step].
Qed.

(** C37: join terminates: from any reachable state, after its flag is set, the worker
    leaves its body within the turns left for the queued batches, and then the wait
    on the future ends. *)
Theorem join_terminates p :
  dp_reachable throws report_throws p ->
  let p' := worker_runs (turns_left p) (join_begin p) in
  dp_reachable throws report_throws p' /\ is_Some (join_end p').
Proof.
  intros Hr p'. split.
  - apply worker_runs_reachable. eapply DpMore; [done|apply DpJoin].
  - assert (left_the_body p') as Hl by by apply worker_runs_leaves.
    unfold join_end, left_the_body in *. destruct (dp_future_valid p'); cbn; [|eauto].
    destruct (dp_worker p') as [| | | | |? ? []|]; done || eauto.
Qed.

End drain.

(** ** Examples *)

Module ProcessorExamples.

(** Chunks are numbers; the negative ones cannot be written. *)
Definition fails : option Z -> option exn := on_chunk (fun d => if d <? 0 then Some OtherError else None).
Definition no_fail (b : Z) : option exn := None.

Definition run (ops : list (@processor Z -> option (@processor Z))) : option (@processor Z) :=
  foldl (fun p op => p ≫= op) (Some new_processor) ops.

Definition after ops : processor := default new_processor (run ops).

Lemma after_reachable ops :
  Forall (fun op => forall p p', op p = Some p' -> dp_step fails no_fail p p') ops ->
  dp_reachable fails no_fail (after ops).
Proof.
  intros Hf. unfold after. destruct (run ops) as [p|] eqn:E; cbn; [|constructor].
  revert p E. unfold run. induction ops as [|op ops IH] using rev_ind; cbn; intros p E.
  - injection E as <-. constructor.
  - rewrite foldl_app in E. apply Forall_app in Hf as [Hf Ho]. cbn in E.
    destruct (foldl _ _ _) as [p1|] eqn:E1; [|done]. cbn in E. apply Forall_cons in Ho as [Ho _].
    eapply DpMore; [by apply IH|by apply Ho].
Qed.

Definition turn := worker_turn fails no_fail.
Definition joining (p : @processor Z) : option processor := Some (join_begin p).

Lemma turn_step p p' : turn p = Some p' -> dp_step fails no_fail p p'.
Proof. apply worker_turn_step. Qed.
Lemma trigger_step d n p p' : trigger d n p = Some p' -> dp_step fails no_fail p p'.
Proof. apply DpEnqueue. Qed.
Lemma joining_step p p' : joining p = Some p' -> dp_step fails no_fail p p'.
Proof. intros [= <-]. apply DpJoin. Qed.

#[export] Hint Resolve turn_step trigger_step joining_step : haf.

Ltac ran := apply after_reachable; repeat (constructor; [eauto with haf|]); constructor.

(** Two chunks, the second one queued while the first is being written. *)
Definition busy_ops := [trigger (Some 10) 5; turn; trigger (Some 11) 6; turn; turn].
Definition busy : processor := after busy_ops.

Definition idle : processor :=
  after (busy_ops ++ [turn; turn; turn; turn; turn]).

Definition stopped : processor :=
  after (busy_ops ++ [joining; turn; turn; turn; turn; turn; turn]).

(** The second of three chunks cannot be written. *)
Definition broken : processor :=
  after [trigger (Some 10) 5; trigger (Some (-1)) 6; turn; trigger (Some 12) 7;
         turn; turn; turn; turn; turn; turn].

Lemma processor_fifo_witness :
  (length (dp_queue busy) <= 2)%nat /\
  dp_accepted busy = dp_processed busy ++ taken (dp_worker busy) ++ dp_queue busy /\
  dp_reported busy = concat (map report_of (reported_batches busy)).
Proof. apply (processor_fifo fails no_fail). ran. Defined.

Lemma join_drains_witness : dp_reported stopped = [5; 6].
Proof.
  assert (dp_reachable fails no_fail stopped) as Hr; [ran|].
  destruct (join_drains fails no_fail stopped (Ok tt) (take_future stopped) Hr) as [_ ->];
    vm_compute; reflexivity.
Defined.

Lemma complete_means_processed_witness :
  dp_processed idle = dp_accepted idle /\
  dp_reported idle = concat (map report_of (dp_accepted idle)).
Proof.
  apply (complete_means_processed fails no_fail); [ran|vm_compute; reflexivity ..|].
  intros b d e. vm_compute. discriminate.
Defined.

Lemma failure_stops_reports_witness :
  dp_reported broken = [5] /\ dp_killed broken = true.
Proof.
  assert (dp_reachable fails no_fail broken) as Hr; [ran|].
  destruct (failure_stops_reports fails no_fail broken _ OtherError Hr eq_refl) as (_ & -> & -> & _).
  split; vm_compute; reflexivity.
Defined.

Lemma join_terminates_witness :
  let p' := worker_runs fails no_fail (turns_left busy) (join_begin busy) in
  dp_reachable fails no_fail p' /\ is_Some (join_end p').
Proof. apply (join_terminates fails no_fail busy). ran. Defined.

(** A caller of complete_data_processing can be released by a failure: in this run a
    chunk could not be written, the flag is already cleared, nothing marks the
    processor as cancelled yet, and the chunk's batch is neither processed nor
    reported. *)
Theorem complete_returns_before_failure_is_visible :
  exists p, dp_reachable fails no_fail p /\ completed p = true /\ dp_cancel p = false /\
    dp_processed p <> dp_accepted p.
Proof.
  exists (after [trigger (Some (-1)) 6; turn; turn]).
  split; [ran|]. vm_compute. split_and!; done.
Qed.

End ProcessorExamples.
