(* ===== verification/Writers.v ===== *)
(** * Writers: the rendezvous, the splitting of work and the text of a batch

    Models [block_num_rendezvous_trigger.hpp/.cpp] (a function called when all
    writers have finished a batch), [data_container_view.h],
    [chunks_for_writers_spillter.h] (one container divided among several writers)
    and [container_data_writer.h] (what a writer does with its part).

    Every writer owns one [data_processor] (file DataProcessor), whose worker
    reports batches in order; the rendezvous receives the reports of all of them
    interleaved, so it is modelled as a system of threads. *)

From S2P Require Import Prelude Text DataProcessor.
From Stdlib Require Import ZArith Lia Ascii String.
From stdpp Require Import base list strings gmap sorting.

Open Scope Z_scope.

(** ** [block_num_rendezvous_trigger] *)

Section rendezvous.
  Context (m_number_of_threads : Z).

(** The constructor's checks. *)
Definition rendezvous_create (has_function : bool) : outcome string (gmap Z Z) :=
  if m_number_of_threads <? 1 then Throw "Incorrect number of threads"%string
  else if negb has_function then Throw "No trigger function"%string
  else Ok ∅.

(** The map operation, atomic for its key; the flag tells whether this report
    completes the batch. *)
Definition insert_or_visit (b : Z) (m : gmap Z Z) : outcome string bool * gmap Z Z :=
  match m !! b with
  | None => (Ok false, <[b := 1]> m)
  | Some c =>
      let c' := u32 (c + 1) in
      (if c' <=? m_number_of_threads then Ok (c' =? m_number_of_threads)
       else Throw "More threads reported"%string,
       <[b := c']> m)
  end.

(** A writer's thread: the batches it has reported, the one it is about to call the
    function for, and those it will report. *)
Record reporter := { r_done : list Z; r_firing : option Z; r_todo : list Z }.

Record rendezvous := {
  rv_completed : gmap Z Z;           (* m_completed_threads *)
  rv_fired : list Z;                 (* calls of the triggered function, oldest first *)
  rv_failed : bool;                  (* the assertion failed *)
  rv_threads : list reporter
}.

(** [report_complete_thread_stage] up to the end of [insert_or_visit]; with a single
    thread the function is called at once. *)
Definition report_visit (t : reporter) (s : rendezvous) : option (reporter * rendezvous) :=
  match r_firing t, r_todo t with
  | None, b :: todo =>
      if m_number_of_threads =? 1 then
        Some ({| r_done := r_done t ++ [b]; r_firing := None; r_todo := todo |},
              {| rv_completed := rv_completed s; rv_fired := rv_fired s ++ [b];
                 rv_failed := rv_failed s; rv_threads := rv_threads s |})
      else
        let '(o, m) := insert_or_visit b (rv_completed s) in
        Some ({| r_done := r_done t ++ [b];
                 r_firing := match o with Ok true => Some b | _ => None end; r_todo := todo |},
              {| rv_completed := m; rv_fired := rv_fired s;
                 rv_failed := match o with Ok _ => rv_failed s | Throw _ => true end;
                 rv_threads := rv_threads s |})
  | _, _ => None
  end.

(** [if( should_trigger )]: the entry is erased and the function called. *)
Definition report_fire (t : reporter) (s : rendezvous) : option (reporter * rendezvous) :=
  match r_firing t with
  | Some b =>
      Some ({| r_done := r_done t; r_firing := None; r_todo := r_todo t |},
            {| rv_completed := delete b (rv_completed s); rv_fired := rv_fired s ++ [b];
               rv_failed := rv_failed s; rv_threads := rv_threads s |})
  | None => None
  end.

Definition with_threads (ts : list reporter) (s : rendezvous) : rendezvous :=
  {| rv_completed := rv_completed s; rv_fired := rv_fired s; rv_failed := rv_failed s;
     rv_threads := ts |}.

(** Any thread takes its next step. *)
Inductive rv_step : rendezvous -> rendezvous -> Prop :=
| RvVisit s l1 t l2 t' s' :
    rv_threads s = l1 ++ t :: l2 -> report_visit t s = Some (t', s') ->
    rv_step s (with_threads (l1 ++ t' :: l2) s')
| RvFire s l1 t l2 t' s' :
    rv_threads s = l1 ++ t :: l2 -> report_fire t s = Some (t', s') ->
    rv_step s (with_threads (l1 ++ t' :: l2) s').

(** Every writer is given the same batches in the same order. *)
Definition rv_init (bs : list Z) : rendezvous :=
  {| rv_completed := ∅; rv_fired := []; rv_failed := false;
     rv_threads := replicate (Z.to_nat m_number_of_threads)
       {| r_done := []; r_firing := None; r_todo := bs |} |}.

Inductive rv_reachable (bs : list Z) : rendezvous -> Prop :=
| RvInit : rv_reachable bs (rv_init bs)
| RvMore s s' : rv_reachable bs s -> rv_step s s' -> rv_reachable bs s'.

(** *** Invariant *)

Definition has_reported (b : Z) (t : reporter) : nat := if decide (b ∈ r_done t) then 1 else 0.
Definition is_firing (b : Z) (t : reporter) : nat := if decide (r_firing t = Some b) then 1 else 0.

Definition total (f : reporter -> nat) (ts : list reporter) : nat := sum_list_with f ts.

(** The life of a batch in the rendezvous. *)
Inductive phase (n : nat) (c f : nat) (entry : option Z) (fired : Prop) : Prop :=
| Untouched : c = 0%nat -> f = 0%nat -> entry = None -> ~ fired -> phase n c f entry fired
| Partial : (0 < c < n)%nat -> f = 0%nat -> entry = Some (Z.of_nat c) -> ~ fired ->
    phase n c f entry fired
| Complete : c = n -> f = 1%nat -> is_Some entry -> ~ fired -> phase n c f entry fired
| Fired : c = n -> f = 0%nat -> entry = None -> fired -> phase n c f entry fired.

Definition batch_phase (s : rendezvous) (b : Z) : Prop :=
  phase (length (rv_threads s)) (total (has_reported b) (rv_threads s))
    (total (is_firing b) (rv_threads s)) (rv_completed s !! b) (b ∈ rv_fired s).

Record thread_ok (bs : list Z) (t : reporter) : Prop := {
  t_order : r_done t ++ r_todo t = bs;
  t_last : forall b, r_firing t = Some b -> last (r_done t) = Some b
}.

Record rv_inv (bs : list Z) (s : rendezvous) : Prop := {
  rvi_threads : Forall (thread_ok bs) (rv_threads s);
  rvi_count : Z.of_nat (length (rv_threads s)) = m_number_of_threads;
  rvi_phase : forall b, batch_phase s b;
  rvi_failed : rv_failed s = false;
  rvi_fired : rv_fired s `prefix_of` bs
}.

Lemma total_app f l1 t l2 : total f (l1 ++ t :: l2) = (total f l1 + f t + total f l2)%nat.
Proof. unfold total. induction l1 as [|a l1 IH]; cbn; [lia|]. rewrite IH. lia. Qed.

Lemma total_le f ts : (forall t, f t <= 1)%nat -> (total f ts <= length ts)%nat.
Proof. intros Hf. unfold total. induction ts as [|t ts IH]; cbn; [lia|]. specialize (Hf t). lia. Qed.

Lemma has_reported_le b t : (has_reported b t <= 1)%nat.
Proof. unfold has_reported. case_decide; lia. Qed.

Lemma is_firing_le b t : (is_firing b t <= 1)%nat.
Proof. unfold is_firing. case_decide; lia. Qed.

Lemma total_full b ts :
  total (has_reported b) ts = length ts <-> Forall (fun t => b ∈ r_done t) ts.
Proof.
  unfold total. induction ts as [|t ts IH]; cbn; [done|].
  pose proof (total_le (has_reported b) ts (has_reported_le b)) as Hle. unfold total in Hle.
  rewrite Forall_cons, <- IH. pose proof (has_reported_le b t).
  destruct (decide (b ∈ r_done t)) as [Hb|Hb].
  - assert (has_reported b t = 1%nat) as -> by (unfold has_reported; by case_decide).
    split; [intros; split; [done|lia]|intros [_ ?]; lia].
  - assert (has_reported b t = 0%nat) as -> by (unfold has_reported; by case_decide).
    split; [lia|by intros [? _]].
Qed.

Lemma total_none b ts : Forall (fun t => b ∉ r_done t) ts -> total (has_reported b) ts = 0%nat.
Proof.
  unfold total. induction 1 as [|t ts Hb _ IH]; cbn; [done|]. rewrite IH.
  unfold has_reported. by case_decide.
Qed.

Lemma prefix_exact (l x y : list Z) (b : Z) :
  l `prefix_of` x ++ b :: y -> NoDup x -> (forall a, a ∈ x -> a ∈ l) -> b ∉ l -> l = x.
Proof.
  revert x. induction l as [|a l IH]; intros [|c x] [k Hk] Hn Hx Hb; cbn in *; simplify_eq.
  - done.
  - destruct (not_elem_of_nil c). apply Hx. left.
  - set_solver.
  - apply NoDup_cons in Hn as [Hc Hn]. f_equal. apply IH; [by exists k|done| |set_solver].
    intros e He. specialize (Hx e ltac:(by right)).
    apply list_elem_of_In in Hx as [->|Hx]; [done|by apply list_elem_of_In].
Qed.

(** A thread that has reported a batch has reported all the ones before it, and the
    function is not about to be called for any of those on its behalf. *)
Lemma thread_reaches bs t x b y :
  thread_ok bs t -> NoDup bs -> bs = x ++ b :: y -> b ∈ r_done t ->
  forall a, a ∈ x -> a ∈ r_done t /\ r_firing t <> Some a.
Proof.
  intros [Ho Hl] Hn -> Hb a Ha. apply list_elem_of_split in Hb as (u & w & Hd). rewrite Hd in *.
  assert (u = x) as ->.
  { rewrite <- app_assoc in Ho. cbn in Ho. apply NoDup_app in Hn as (_ & Hd1 & Hn).
    apply NoDup_cons in Hn as [Hby _].
    revert Ho Hd1. clear -Hby. revert x. induction u as [|c u IH]; intros [|d x] Ho Hd1; cbn in *;
      simplify_eq; try done.
    - exfalso. eapply Hd1; left.
    - exfalso. apply Hby. set_solver.
    - f_equal. apply IH; [done|]. intros e He. apply Hd1. by right. }
  split; [set_solver|]. intros Hf. specialize (Hl a Hf). apply last_Some in Hl as [z Hz].
  assert (a ∈ b :: w) as Hw.
  { destruct w as [|w' w _] using rev_ind.
    - apply app_inj_tail in Hz as [_ ->]. left.
    - rewrite app_comm_cons, app_assoc in Hz. apply app_inj_tail in Hz as [_ ->].
      right. set_solver. }
  rewrite <- Ho in Hn. rewrite <- app_assoc in Hn. apply NoDup_app in Hn as (_ & Hd1 & _).
  destruct (Hd1 a Ha). set_solver.
Qed.

Lemma all_reported_fired bs s a :
  rv_inv bs s -> rv_threads s <> [] ->
  Forall (fun t => a ∈ r_done t /\ r_firing t <> Some a) (rv_threads s) -> a ∈ rv_fired s.
Proof.
  intros Hi Hne Hboth.
  assert (total (has_reported a) (rv_threads s) = length (rv_threads s)) as Hfull.
  { apply total_full. eapply Forall_impl; [exact Hboth|]. by intros t [? _]. }
  assert (total (is_firing a) (rv_threads s) = 0%nat) as Hz.
  { clear -Hboth. unfold total. induction Hboth as [|t ts [_ Hf] _ IH]; cbn; [done|].
    rewrite IH. unfold is_firing. by case_decide. }
  assert (length (rv_threads s) <> 0%nat) by (by destruct (rv_threads s)).
  destruct (rvi_phase _ _ Hi a); try done; lia.
Qed.

(** Everything before a batch all threads have reported has been fired. *)
Lemma earlier_fired bs s x b y :
  rv_inv bs s -> NoDup bs -> bs = x ++ b :: y ->
  Forall (fun t => b ∈ r_done t) (rv_threads s) -> rv_threads s <> [] ->
  forall a, a ∈ x -> a ∈ rv_fired s.
Proof.
  intros Hi Hn Hb Hall Hne a Ha. apply (all_reported_fired bs); [done..|].
  pose proof (rvi_threads _ _ Hi) as Ht. rewrite Forall_forall in *. intros t Hin.
  by eapply thread_reaches; eauto.
Qed.

Lemma rv_init_inv bs : 1 <= m_number_of_threads -> rv_inv bs (rv_init bs).
Proof.
  intros Hn. constructor; cbn.
  - apply Forall_replicate. by constructor.
  - rewrite length_replicate. lia.
  - intros b. apply Untouched; cbn; try done; [| |set_solver];
      induction (Z.to_nat m_number_of_threads); cbn; done.
  - done.
  - apply prefix_nil.
Qed.

Hypothesis n_range : 1 <= m_number_of_threads <= UINT32_MAX.

Lemma visit_other (b b' : Z) (t : reporter) todo f :
  b' <> b ->
  has_reported b' {| r_done := r_done t ++ [b]; r_firing := f; r_todo := todo |} = has_reported b' t.
Proof. intros. unfold has_reported; cbn. by repeat case_decide; set_solver. Qed.

Lemma visit_same (b : Z) (t : reporter) todo f :
  has_reported b {| r_done := r_done t ++ [b]; r_firing := f; r_todo := todo |} = 1%nat.
Proof. unfold has_reported; cbn. case_decide; set_solver. Qed.

Lemma not_firing b t : r_firing t <> Some b -> is_firing b t = 0%nat.
Proof. intros. unfold is_firing. by case_decide. Qed.

Lemma firing b t : r_firing t = Some b -> is_firing b t = 1%nat.
Proof. intros. unfold is_firing. by case_decide. Qed.

#[local] Hint Resolve has_reported_le is_firing_le : haf.

(** What a reporting thread knows of the batch it reports. *)
Lemma before_visit bs s l1 t l2 b todo :
  rv_inv bs s -> NoDup bs -> rv_threads s = l1 ++ t :: l2 -> r_firing t = None ->
  r_todo t = b :: todo ->
  let c := total (has_reported b) (rv_threads s) in
  b ∉ r_done t /\ (c < length (rv_threads s))%nat /\
  total (is_firing b) (rv_threads s) = 0%nat /\ b ∉ rv_fired s /\
  ((c = 0%nat /\ rv_completed s !! b = None) \/
   ((0 < c)%nat /\ rv_completed s !! b = Some (Z.of_nat c))).
Proof.
  intros [Ht Hc Hp Hf Hpre] Hn Hs Hfi Hto c.
  assert (b ∉ r_done t) as Hb.
  { rewrite Hs in Ht. apply Forall_app in Ht as [_ Ht]. apply Forall_cons in Ht as [[Ho _] _].
    rewrite <- Ho, Hto in Hn. apply NoDup_app in Hn as (_ & Hd & _). intros Hin.
    destruct (Hd b Hin). left. }
  assert (c < length (rv_threads s))%nat as Hlt.
  { unfold c. rewrite Hs, total_app, length_app. cbn.
    pose proof (total_le (has_reported b) l1 (has_reported_le b)).
    pose proof (total_le (has_reported b) l2 (has_reported_le b)).
    assert (has_reported b t = 0%nat) as -> by (unfold has_reported; by case_decide). lia. }
  split; [done|]. split; [done|]. destruct (Hp b) as [H1 H2 H3 H4|H1 H2 H3 H4|H1 H2 H3 H4|H1 H2 H3 H4];
    fold c in H1; try lia; auto 6 with lia.
Qed.

(** A step of one thread leaves alone the batches it does not concern. *)
Lemma other_phase s l1 t l2 t' s' b :
  rv_threads s = l1 ++ t :: l2 ->
  has_reported b t' = has_reported b t -> is_firing b t' = is_firing b t ->
  rv_completed s' !! b = rv_completed s !! b -> (b ∈ rv_fired s' <-> b ∈ rv_fired s) ->
  batch_phase s b -> batch_phase (with_threads (l1 ++ t' :: l2) s') b.
Proof.
  unfold batch_phase. cbn. intros -> Hr Hf Hm Hfd.
  rewrite !total_app, !length_app, Hr, Hf, Hm. cbn.
  intros []; [apply Untouched|apply Partial|apply Complete|apply Fired]; try done; by rewrite Hfd.
Qed.

Lemma visit_others bs s l1 t l2 t' s' b :
  rv_inv bs s -> rv_threads s = l1 ++ t :: l2 -> report_visit t s = Some (t', s') ->
  head (r_todo t) <> Some b -> batch_phase (with_threads (l1 ++ t' :: l2) s') b.
Proof.
  intros Hi Hs E Hne. unfold report_visit in E. destruct (r_firing t) eqn:Hfi; [done|].
  destruct (r_todo t) as [|b' todo] eqn:Hto; [done|]. cbn in Hne.
  assert (b <> b') by congruence.
  assert (is_firing b t = 0%nat) as Hft by (apply not_firing; congruence).
  pose proof (rvi_phase _ _ Hi b) as Hp.
  destruct (m_number_of_threads =? 1).
  - injection E as <- <-. apply (other_phase s l1 t l2);
      [done|by apply visit_other|rewrite Hft; by apply not_firing|done|cbn; set_solver|done].
  - unfold insert_or_visit in E.
    destruct (rv_completed s !! b'); simplify_eq;
      (apply (other_phase s l1 t l2); [done|by apply visit_other| |cbn; by rewrite lookup_insert_ne|done|done]);
      rewrite Hft; apply not_firing; cbn; repeat case_match; congruence.
Qed.

Lemma visit_own bs s l1 t l2 t' s' b todo :
  rv_inv bs s -> NoDup bs -> rv_threads s = l1 ++ t :: l2 -> report_visit t s = Some (t', s') ->
  r_todo t = b :: todo ->
  rv_failed s' = false /\ batch_phase (with_threads (l1 ++ t' :: l2) s') b.
Proof.
  intros Hi Hn Hs E Hto. unfold report_visit in E. destruct (r_firing t) eqn:Hfi; [done|].
  rewrite Hto in E.
  destruct (before_visit bs s l1 t l2 b todo Hi Hn Hs Hfi Hto) as (Hb & Hlt & Hz & Hnf & Hent).
  destruct Hi as [Ht Hc Hp Hf Hpre].
  assert (is_firing b t = 0%nat) as Hft by (apply not_firing; congruence).
  assert (has_reported b t = 0%nat) as Hr0 by (unfold has_reported; by case_decide).
  rewrite Hs, length_app in Hc. cbn in Hc.
  rewrite Hs, total_app, Hr0 in Hent, Hlt. rewrite length_app in Hlt. cbn in Hlt.
  rewrite Hs, total_app, Hft in Hz. unfold batch_phase.
  destruct (m_number_of_threads =? 1) eqn:E1.
  - injection E as <- <-. split; [done|]. cbn. rewrite !total_app, visit_same, length_app.
    rewrite not_firing by done. cbn.
    apply Fired; [lia|lia| |set_solver]. destruct Hent as [[_ ?]|[? _]]; [done|lia].
  - unfold insert_or_visit in E. destruct Hent as [[Hc0 Hnone]|[Hcpos Hsome]].
    + rewrite Hnone in E. injection E as <- <-. split; [done|]. cbn.
      rewrite !total_app, visit_same, length_app, lookup_insert_eq, not_firing by done. cbn.
      apply Partial; [lia|lia|f_equal; lia|done].
    + rewrite Hsome in E. rewrite u32_small in E by lia.
      destruct (Z.leb_spec (Z.of_nat (total (has_reported b) l1 + 0 + total (has_reported b) l2) + 1)
        m_number_of_threads) as [_|]; [|lia].
      destruct (Z.eqb_spec (Z.of_nat (total (has_reported b) l1 + 0 + total (has_reported b) l2) + 1)
        m_number_of_threads) as [He|He]; injection E as <- <-; (split; [done|]); cbn;
        rewrite !total_app, visit_same, length_app, lookup_insert_eq; cbn.
      * rewrite firing by done. apply Complete; [lia|lia|done|done].
      * rewrite not_firing by done. apply Partial; [lia|lia|f_equal; lia|done].
Qed.

Lemma visit_inv bs s l1 t l2 t' s' :
  rv_inv bs s -> NoDup bs -> rv_threads s = l1 ++ t :: l2 -> report_visit t s = Some (t', s') ->
  rv_inv bs (with_threads (l1 ++ t' :: l2) s').
Proof.
  intros Hi Hn Hs E.
  assert (exists b todo, r_todo t = b :: todo /\ r_firing t = None) as (b & todo & Hto & Hfi).
  { unfold report_visit in E. destruct (r_firing t); [done|]. destruct (r_todo t); [done|]. eauto. }
  destruct (visit_own bs s l1 t l2 t' s' b todo Hi Hn Hs E Hto) as [Hnf Hown].
  assert (forall b', batch_phase (with_threads (l1 ++ t' :: l2) s') b') as Hall.
  { intros b'. destruct (decide (b' = b)) as [->|Hne]; [done|].
    eapply visit_others; eauto. rewrite Hto. cbn. congruence. }
  pose proof (rvi_threads _ _ Hi) as Ht. rewrite Hs in Ht. apply Forall_app in Ht as [Ht1 Ht2].
  apply Forall_cons in Ht2 as [Hto1 Ht2]. pose proof Hto1 as [Ho Hl]. rewrite Hto in Ho.
  assert (rv_fired s = r_done t -> rv_fired s ++ [b] `prefix_of` bs) as Hpre1.
  { intros ->. rewrite <- Ho. exists todo. by rewrite <- app_assoc. }
  constructor; cbn.
  - apply Forall_app. split; [done|]. constructor; [|done].
    unfold report_visit in E. rewrite Hfi, Hto in E.
    case_match; [|case_match]; injection E as <- <-; (constructor; cbn; [by rewrite <- app_assoc|]);
      intros b'; [done|]. case_match; [case_match|]; intros [= <-]. apply last_snoc.
  - rewrite <- (rvi_count _ _ Hi), Hs, !length_app. done.
  - exact Hall.
  - exact Hnf.
  - unfold report_visit in E. rewrite Hfi, Hto in E. case_match eqn:E1; [|case_match];
      injection E as <- <-; cbn; [|by apply rvi_fired]. apply Hpre1.
    apply Z.eqb_eq in E1. pose proof (rvi_count _ _ Hi) as Hc. rewrite Hs, length_app in Hc. cbn in Hc.
    destruct (before_visit bs s l1 t l2 b todo Hi Hn Hs Hfi Hto) as (Hb & Hlt & Hz & Hnfd & _).
    apply (prefix_exact _ (r_done t) todo b); [rewrite Ho; by apply rvi_fired| | |done].
    + rewrite <- Ho in Hn. by apply NoDup_app in Hn as [? _].
    + intros a Ha. destruct l1, l2; cbn in Hc; try lia.
      apply (all_reported_fired bs); rewrite ?Hs; [done..|]. repeat constructor; [done|congruence].
Qed.

Lemma fire_inv bs s l1 t l2 t' s' :
  rv_inv bs s -> NoDup bs -> rv_threads s = l1 ++ t :: l2 -> report_fire t s = Some (t', s') ->
  rv_inv bs (with_threads (l1 ++ t' :: l2) s').
Proof.
  intros Hi Hn Hs E. unfold report_fire in E. destruct (r_firing t) as [b|] eqn:Hfi; [|done].
  injection E as <- <-.
  pose proof (rvi_threads _ _ Hi) as Ht. rewrite Hs in Ht. apply Forall_app in Ht as [Ht1 Ht2].
  apply Forall_cons in Ht2 as [Hto1 Ht2]. pose proof Hto1 as [Ho Hl].
  specialize (Hl b Hfi). apply last_Some in Hl as [x Hx].
  assert (total (is_firing b) (rv_threads s) = 1%nat /\
    total (has_reported b) (rv_threads s) = length (rv_threads s) /\ b ∉ rv_fired s)
    as (Hf1 & Hfull & Hnf).
  { assert (0 < total (is_firing b) (rv_threads s))%nat
      by (rewrite Hs, total_app, (firing b t Hfi); lia).
    destruct (rvi_phase _ _ Hi b); try lia; done. }
  assert (rv_fired s = x) as Hfx.
  { apply (prefix_exact _ x (r_todo t) b).
    - replace (x ++ b :: r_todo t) with bs; [by apply rvi_fired|].
      rewrite <- Ho, Hx. by rewrite <- app_assoc.
    - rewrite <- Ho, Hx in Hn. apply NoDup_app in Hn as [Hn _]. by apply NoDup_app in Hn as [? _].
    - eapply (earlier_fired bs s x b (r_todo t)); [done|done| |by apply total_full|by rewrite Hs; destruct l1].
      rewrite <- Ho, Hx. by rewrite <- app_assoc.
    - done. }
  constructor; cbn.
  - apply Forall_app. split; [done|]. constructor; [by constructor|done].
  - rewrite <- (rvi_count _ _ Hi), Hs, !length_app. done.
  - intros b'. destruct (decide (b' = b)) as [->|Hne].
    + unfold batch_phase. cbn. rewrite Hs, !total_app, (firing b t Hfi) in Hf1.
      rewrite Hs, !total_app, length_app in Hfull. cbn in Hfull.
      rewrite !total_app, length_app, lookup_delete_eq. cbn. rewrite not_firing by done.
      apply Fired; [done|lia|done|set_solver].
    + apply (other_phase s l1 t l2); [done|done| |cbn; by rewrite lookup_delete_ne|cbn; set_solver|exact (rvi_phase _ _ Hi b')].
      rewrite !not_firing by (cbn; congruence). done.
  - exact (rvi_failed _ _ Hi).
  - rewrite Hfx. exists (r_todo t). rewrite <- Ho, Hx. done.
Qed.

Lemma rv_reachable_inv bs s : NoDup bs -> rv_reachable bs s -> rv_inv bs s.
Proof.
  intros Hn. induction 1 as [|s s' _ IH Hs]; [apply rv_init_inv; lia|].
  destruct Hs; [by eapply visit_inv|by eapply fire_inv].
Qed.

(** Given that every writer reports every batch once and in the same order, then
    however the reports interleave: the assertion never fails, the triggered function
    is called for the batches in their order and for none of them twice, and for a
    batch only after all writers have reported it; when every writer is through, it
    has been called for every batch and no counter is left behind. *)
Theorem rendezvous_fires_in_order bs s :
  NoDup bs -> rv_reachable bs s ->
  rv_failed s = false /\
  rv_fired s `prefix_of` bs /\
  (forall b t, b ∈ rv_fired s -> t ∈ rv_threads s -> b ∈ r_done t) /\
  ((forall t, t ∈ rv_threads s -> r_todo t = [] /\ r_firing t = None) ->
    rv_fired s = bs /\ rv_completed s = ∅).
Proof.
  intros Hn Hr. pose proof (rv_reachable_inv bs s Hn Hr) as Hi.
  assert (rv_threads s <> []) as Hne.
  { intros He. pose proof (rvi_count _ _ Hi) as Hc. rewrite He in Hc. cbn in Hc. lia. }
  split_and!; [exact (rvi_failed _ _ Hi)|exact (rvi_fired _ _ Hi)| |].
  - intros b t Hb Ht. destruct (rvi_phase _ _ Hi b) as [| | |Hc _ _ _]; try done.
    apply total_full in Hc. rewrite Forall_forall in Hc. by apply Hc.
  - intros Hdone. pose proof (rvi_threads _ _ Hi) as Hth. rewrite Forall_forall in Hth.
    assert (forall t, t ∈ rv_threads s -> r_done t = bs) as Hall.
    { intros t Ht. destruct (Hth t Ht) as [Ho _]. destruct (Hdone t Ht) as [Hto _].
      by rewrite Hto, app_nil_r in Ho. }
    assert (forall b, b ∈ bs -> b ∈ rv_fired s) as Hin.
    { intros b Hb. apply (all_reported_fired bs); [done..|]. rewrite Forall_forall. intros t Ht.
      rewrite (Hall t Ht). destruct (Hdone t Ht) as [_ ->]. done. }
    split.
    + destruct (rvi_fired _ _ Hi) as [k Hk]. destruct k as [|b k]; [by rewrite app_nil_r in Hk|].
      exfalso. rewrite Hk in Hn. apply NoDup_app in Hn as (_ & Hd & _).
      apply (Hd b); [apply Hin; rewrite Hk; set_solver|left].
    + apply map_eq. intros b. rewrite lookup_empty.
      assert (length (rv_threads s) <> 0%nat) by (by destruct (rv_threads s)).
      destruct (decide (b ∈ bs)) as [Hb|Hb].
      * specialize (Hin b Hb). by destruct (rvi_phase _ _ Hi b).
      * assert (total (has_reported b) (rv_threads s) = 0%nat) as Hz.
        { apply total_none. rewrite Forall_forall. intros t Ht. by rewrite (Hall t Ht). }
        destruct (rvi_phase _ _ Hi b); done || lia.
Qed.

End rendezvous.

Module RendezvousExamples.

(** Two writers, two batches: the first writer is one batch ahead when the second
    one completes the first batch. *)
Definition steps (s : rendezvous) (ops : list (nat * bool)) : rendezvous :=
  foldl (fun s '(i, fire) =>
    match rv_threads s !! i with
    | Some t =>
        match (if fire : bool then report_fire t s else report_visit 2 t s) with
        | Some (t', s') => with_threads (take i (rv_threads s) ++ t' :: drop (S i) (rv_threads s)) s'
        | None => s
        end
    | None => s
    end) s ops.

Lemma steps_reachable bs ops s :
  rv_reachable 2 bs s -> rv_reachable 2 bs (steps s ops).
Proof.
  revert s. induction ops as [|[i fire] ops IH]; intros s Hr; [done|]. cbn. apply IH.
  destruct (rv_threads s !! i) as [t|] eqn:Ei; [|done].
  assert (rv_threads s = take i (rv_threads s) ++ t :: drop (S i) (rv_threads s)) as Hs
    by (symmetry; by apply take_drop_middle).
  destruct fire; case_match eqn:E; try done; destruct p as [t' s'];
    (eapply RvMore; [done|]); [by eapply RvFire|by eapply RvVisit].
Qed.

Definition both_batches : rendezvous :=
  steps (rv_init 2 [1000; 2000])
    [(0%nat, false); (0%nat, false); (1%nat, false); (1%nat, true); (1%nat, false); (1%nat, true)].

Lemma rendezvous_fires_in_order_witness :
  rv_fired both_batches = [1000; 2000] /\ rv_completed both_batches = ∅.
Proof.
  apply (rendezvous_fires_in_order 2 ltac:(unfold UINT32_MAX; lia) [1000; 2000] both_batches).
  - repeat constructor; set_solver.
  - apply steps_reachable. constructor.
  - intros t Ht.
    assert (rv_threads both_batches =
      replicate 2 {| r_done := [1000; 2000]; r_firing := None; r_todo := [] |}) as E
      by (vm_compute; reflexivity).
    rewrite E in Ht. apply list_elem_of_In in Ht as [<-|[<-|[]]]; done.
Defined.

End RendezvousExamples.

(** ** [container_view] *)

Section writers.
  Context {A : Type}.

(** A range of a shared container. *)
Record container_view := {
  cv_container : list A;
  cv_begin : nat;
  cv_end : nat
}.

Definition view_elems (v : container_view) : list A :=
  take (cv_end v - cv_begin v) (drop (cv_begin v) (cv_container v)).

Definition view_empty (v : container_view) : bool := (cv_begin v =? cv_end v)%nat.

Definition view_size (v : container_view) : nat := cv_end v - cv_begin v.

(** The move constructor: the new view and what is left in the old one. *)
Definition view_move (v : container_view) : container_view * container_view :=
  (v, {| cv_container := []; cv_begin := cv_end v; cv_end := cv_end v |}).

(** ** [chunks_for_writers_splitter_base::trigger]

    [std::ceil( size / double( writers ) )]: both operands are below 2^32, where the
    quotient of doubles rounds up exactly like the quotient of integers.  The
    products of the loop are computed on 32 bits. *)

Definition length_of_batch (size writers : Z) : Z := u32 ((size + writers - 1) / writers).

Definition range_bound (size writer_num len : Z) : Z :=
  if u32 (writer_num * len) <? size then u32 (writer_num * len) else size.

Definition chunk_view (data : list A) (writers writer_num : Z) : container_view :=
  let size := Z.of_nat (length data) in
  let len := length_of_batch size writers in
  {| cv_container := data;
     cv_begin := Z.to_nat (range_bound size writer_num len);
     cv_end := Z.to_nat (range_bound size (u32 (writer_num + 1)) len) |}.

Definition split_for_writers (data : list A) (writers : nat) : list container_view :=
  map (fun i => chunk_view data (Z.of_nat writers) (Z.of_nat i)) (seq 0 writers).

(** Where the bounds fall when nothing overflows. *)
Definition bound (data : list A) (writers i : nat) : nat :=
  Nat.min (i * Z.to_nat (length_of_batch (Z.of_nat (length data)) (Z.of_nat writers)))
    (length data).

Definition fits (data : list A) (writers : nat) : Prop :=
  (0 < writers)%nat /\ Z.of_nat (length data) + Z.of_nat writers <= UINT32_MAX.

Lemma length_of_batch_ok data writers :
  fits data writers ->
  let n := Z.of_nat (length data) in let w := Z.of_nat writers in
  n <= w * length_of_batch n w < n + w /\ 0 <= length_of_batch n w.
Proof.
  intros [Hw Hs] n w. unfold length_of_batch.
  assert (0 <= (n + w - 1) / w <= n + w - 1).
  { split; [apply Z.div_pos; lia|]. apply Z.div_le_upper_bound; [lia|]. nia. }
  rewrite u32_small by lia.
  pose proof (Z.div_mod (n + w - 1) w ltac:(lia)).
  pose proof (Z.mod_pos_bound (n + w - 1) w ltac:(lia)). lia.
Qed.

Lemma range_bound_ok data writers i :
  fits data writers -> (i <= writers)%nat ->
  Z.to_nat (range_bound (Z.of_nat (length data)) (Z.of_nat i)
    (length_of_batch (Z.of_nat (length data)) (Z.of_nat writers))) = bound data writers i.
Proof.
  intros Hf Hi. destruct (length_of_batch_ok data writers Hf) as [Hl Hp]. destruct Hf as [Hw Hs].
  unfold range_bound, bound.
  set (len := length_of_batch _ _) in *.
  assert (0 <= Z.of_nat i * len <= Z.of_nat writers * len) by nia.
  rewrite u32_small by lia.
  destruct (Z.ltb_spec (Z.of_nat i * len) (Z.of_nat (length data))).
  - rewrite Z2Nat.inj_mul, Nat2Z.id by lia. nia.
  - rewrite Nat2Z.id. nia.
Qed.

Lemma chunk_view_elems data writers i :
  fits data writers -> (i < writers)%nat ->
  view_elems (chunk_view data (Z.of_nat writers) (Z.of_nat i)) =
  take (bound data writers (S i) - bound data writers i) (drop (bound data writers i) data).
Proof.
  intros Hf Hi. unfold view_elems, chunk_view. cbn.
  rewrite range_bound_ok by (done || lia).
  destruct Hf as [Hw Hs]. rewrite u32_small by lia.
  replace (Z.of_nat i + 1) with (Z.of_nat (S i)) by lia.
  rewrite range_bound_ok by (split || lia; done || lia). done.
Qed.

Lemma bound_mono data writers i : (bound data writers i <= bound data writers (S i))%nat.
Proof. unfold bound. nia. Qed.

Lemma split_prefix data writers k :
  fits data writers -> (k <= writers)%nat ->
  concat (map (fun i => view_elems (chunk_view data (Z.of_nat writers) (Z.of_nat i))) (seq 0 k)) =
  take (bound data writers k) data.
Proof.
  intros Hf. induction k as [|k IH]; intros Hk.
  - unfold bound. by rewrite Nat.mul_0_l.
  - rewrite seq_S, map_app, concat_app, IH by lia. cbn [map concat].
    rewrite app_nil_r, Nat.add_0_l, chunk_view_elems by (done || lia).
    pose proof (bound_mono data writers k).
    rewrite <- (take_drop (bound data writers k) (take (bound data writers (S k)) data)) at 1.
    rewrite take_take, skipn_firstn_comm. f_equal. f_equal. lia.
Qed.

Lemma split_concat data writers :
  fits data writers -> concat (map view_elems (split_for_writers data writers)) = data.
Proof.
  intros Hf. unfold split_for_writers. rewrite map_map, split_prefix by done.
  apply take_ge. destruct (length_of_batch_ok data writers Hf) as [Hl Hp]. unfold bound. nia.
Qed.

(** The parts given to the writers, put one after the other, are the container:
    no row is lost, repeated or reordered, whatever the number of writers; every
    writer gets exactly one part, and none more than the rounded up quotient. *)
Theorem split_for_writers_partitions data writers :
  fits data writers ->
  length (split_for_writers data writers) = writers /\
  concat (map view_elems (split_for_writers data writers)) = data /\
  Forall (fun v => (length (view_elems v) * writers < length data + writers)%nat)
    (split_for_writers data writers).
Proof.
  intros Hf. split_and!; [|by apply split_concat|].
  - unfold split_for_writers. by rewrite length_map, length_seq.
  - unfold split_for_writers. apply Forall_map, Forall_forall. intros i Hi.
    apply elem_of_seq in Hi. unfold compose. rewrite chunk_view_elems by (done || lia).
    rewrite length_take, length_drop. destruct (length_of_batch_ok data writers Hf) as [Hl Hp].
    unfold bound. nia.
Qed.

End writers.
Arguments container_view : clear implicits.

(** ** [container_data_writer] *)

Section container_writer.
  Context {A : Type} (conv : A -> list ascii).

(** [trigger]: an empty part is only reported; the assertion at the end looks at
    what the move left in the argument. *)
Definition writer_trigger (data : container_view A) (last_block_num : Z)
    (p : @processor (container_view A)) : option (outcome string unit * processor) :=
  if negb (view_empty data) then
    let '(moved, rest) := view_move data in
    p' ← trigger (Some moved) last_block_num p;
    Some (o_assert (view_empty rest) "DATA empty 1"%string, p')
  else
    p' ← only_report_batch_finished last_block_num p;
    Some (o_assert (view_empty data) "DATA empty 1"%string, p').

(** [flush_scalar_live_data]: the rows as SQL values. *)
Fixpoint more_tuples (l : list A) : list ascii :=
  match l with
  | [] => []
  | x :: l' => lit ",(" ++ conv x ++ lit ")" ++ [NL] ++ more_tuples l'
  end.

Definition tuples (l : list A) : list ascii :=
  match l with
  | [] => []
  | x :: l' => lit "(" ++ conv x ++ lit ")" ++ [NL] ++ more_tuples l'
  end.

Definition flush_scalar_live_data (data : container_view A) : outcome string (list ascii) :=
  if view_empty data then Throw "Data empty 3"%string else Ok (tuples (view_elems data)).

(** The string a writer's callback leaves behind, given the one already there. *)
Definition callback_string (data : container_view A) (old : list ascii) : list ascii :=
  if view_empty data then old
  else match flush_scalar_live_data data with Ok s => s | Throw _ => old end.

(** [get_merged_strings]: the result and the strings after it. *)
Definition merge_one (result str : list ascii) : list ascii :=
  match str with
  | [] => result
  | _ => match result with [] => str | _ => result ++ lit "," ++ str end
  end.

Definition get_merged_strings (strings : list (list ascii)) : list ascii * list (list ascii) :=
  (foldl merge_one [] strings, map (fun _ => []) strings).

(** What the writers of a splitter leave behind for one container. *)
Definition split_strings (data : list A) (writers : nat) (old : list (list ascii)) :
    list (list ascii) :=
  zip_with callback_string (split_for_writers data writers) old.

Lemma more_tuples_app l1 l2 : more_tuples (l1 ++ l2) = more_tuples l1 ++ more_tuples l2.
Proof. induction l1 as [|x l1 IH]; [done|]. cbn. by rewrite IH, <- !app_assoc. Qed.

Lemma tuples_app_cons l x l2 : l <> [] -> tuples (l ++ x :: l2) = tuples l ++ lit "," ++ tuples (x :: l2).
Proof.
  destruct l as [|y l]; [done|]. intros _. cbn. rewrite more_tuples_app. cbn.
  by rewrite <- !app_assoc.
Qed.

Lemma merge_tuples l1 l2 : merge_one (tuples l1) (tuples l2) = tuples (l1 ++ l2).
Proof.
  destruct l2 as [|x l2]; [by rewrite app_nil_r|]. destruct l1 as [|y l1]; [done|].
  rewrite tuples_app_cons by done. done.
Qed.

Lemma merge_all_tuples ls l0 :
  foldl merge_one (tuples l0) (map tuples ls) = tuples (l0 ++ concat ls).
Proof.
  revert l0. induction ls as [|l ls IH]; intros l0; cbn; [by rewrite app_nil_r|].
  by rewrite merge_tuples, IH, <- app_assoc.
Qed.

Lemma callback_tuples data writers i :
  fits data writers -> (i < writers)%nat ->
  let v := chunk_view data (Z.of_nat writers) (Z.of_nat i) in
  callback_string v [] = tuples (view_elems v).
Proof.
  intros Hf Hi v. unfold callback_string, flush_scalar_live_data, view_empty.
  destruct (Nat.eqb_spec (cv_begin v) (cv_end v)) as [E|E]; [|done].
  unfold view_elems. by rewrite E, Nat.sub_diag.
Qed.

Lemma split_strings_empty data writers :
  fits data writers ->
  split_strings data writers (replicate writers []) =
  map tuples (map view_elems (split_for_writers data writers)).
Proof.
  intros Hf. unfold split_strings, split_for_writers. rewrite !map_map.
  assert (forall k, (k <= writers)%nat ->
    zip_with callback_string
      (map (fun i => chunk_view data (Z.of_nat writers) (Z.of_nat i)) (seq (writers - k) k))
      (replicate k []) =
    map (fun i => tuples (view_elems (chunk_view data (Z.of_nat writers) (Z.of_nat i))))
      (seq (writers - k) k)) as H.
  { induction k as [|k IH]; intros Hk; [done|]. cbn [seq map replicate zip_with].
    rewrite callback_tuples by (done || lia). f_equal.
    replace (S (writers - S k)) with (writers - k)%nat by lia. apply IH. lia. }
  specialize (H writers ltac:(lia)). by rewrite Nat.sub_diag in H.
Qed.

Lemma merged_split_strings data writers :
  fits data writers ->
  get_merged_strings (split_strings data writers (replicate writers [])) =
  (tuples data, replicate writers []).
Proof.
  intros Hf. rewrite split_strings_empty by done. unfold get_merged_strings. f_equal.
  - change (@nil ascii) with (tuples []). rewrite merge_all_tuples. cbn [app].
    by rewrite split_concat.
  - unfold split_for_writers. rewrite !map_map.
    assert (forall l : list nat, map (fun _ => @nil ascii) l = replicate (length l) []) as ->
      by (induction l as [|? l IH]; cbn; congruence).
    by rewrite length_seq.
Qed.

(** The SQL text of a container does not depend on how many writers share the work:
    merging their strings gives the text a single writer would produce, and leaves
    their strings empty for the next block. *)
Theorem parallel_text_is_sequential_text data writers :
  fits data writers ->
  get_merged_strings (split_strings data writers (replicate writers [])) =
  (tuples data, replicate writers []).
Proof. apply merged_split_strings. Qed.

End container_writer.

(** ** [join_processors] and [cancel_processors]

    Every processor is joined; the first exception, if any, is rethrown. *)

Section join_all.
  Context {P E : Type} (join : P -> outcome E unit * P).

(** [coalesce]: the first exception that is not null. *)
Fixpoint coalesce (l : list (option E)) : option E :=
  match l with
  | [] => None
  | Some e :: _ => Some e
  | None :: l' => coalesce l'
  end.

Definition join_processors_impl (p : P) : option E * P :=
  match join p with (Ok _, p') => (None, p') | (Throw e, p') => (Some e, p') end.

Definition join_processors (ps : list P) : outcome E unit * list P :=
  let results := map join_processors_impl ps in
  (match coalesce (map fst results) with Some e => Throw e | None => Ok tt end, map snd results).

Lemma impl_exception p :
  fst (join_processors_impl p) = match fst (join p) with Ok _ => None | Throw e => Some e end.
Proof. unfold join_processors_impl. by destruct (join p) as [[]]. Qed.

Lemma impl_state p : snd (join_processors_impl p) = snd (join p).
Proof. unfold join_processors_impl. by destruct (join p) as [[]]. Qed.

Lemma coalesce_ok ps :
  fst (join_processors ps) = Ok tt <-> Forall (fun p => fst (join p) = Ok tt) ps.
Proof.
  unfold join_processors. cbn. induction ps as [|p ps IH]; cbn; [done|].
  rewrite impl_exception, Forall_cons. destruct (fst (join p)) as [[]|e]; [naive_solver|].
  split; [done|]. by intros [? _].
Qed.

Lemma coalesce_first ps e :
  fst (join_processors ps) = Throw e ->
  exists ps1 p ps2, ps = ps1 ++ p :: ps2 /\ Forall (fun p => fst (join p) = Ok tt) ps1 /\
    fst (join p) = Throw e.
Proof.
  unfold join_processors. cbn. induction ps as [|p ps IH]; cbn; [done|].
  rewrite impl_exception. destruct (fst (join p)) as [[]|e'] eqn:Ej.
  - intros He. destruct (IH He) as (ps1 & q & ps2 & -> & ? & ?).
    exists (p :: ps1), q, ps2. split; [done|]. split; [by constructor|done].
  - intros [= <-]. by exists [], p, ps.
Qed.

(** join_processors joins every processor even when some of them throw, returns only
    when none did, and otherwise throws the exception of the first one that did. *)
Theorem join_processors_joins_all ps :
  snd (join_processors ps) = map (fun p => snd (join p)) ps /\
  (fst (join_processors ps) = Ok tt <-> Forall (fun p => fst (join p) = Ok tt) ps) /\
  (forall e, fst (join_processors ps) = Throw e ->
    exists ps1 p ps2, ps = ps1 ++ p :: ps2 /\ Forall (fun p => fst (join p) = Ok tt) ps1 /\
      fst (join p) = Throw e).
Proof.
  split_and!; [|apply coalesce_ok|apply coalesce_first].
  unfold join_processors. cbn. rewrite map_map. apply map_ext, impl_state.
Qed.

End join_all.

Module WriterExamples.

Lemma split_for_writers_partitions_witness :
  concat (map view_elems (split_for_writers [1; 2; 3; 4; 5; 6; 7] 3)) = [1; 2; 3; 4; 5; 6; 7] /\
  map view_elems (split_for_writers [1; 2; 3; 4; 5; 6; 7] 3) = [[1; 2; 3]; [4; 5; 6]; [7]].
Proof.
  split; [|vm_compute; reflexivity].
  apply (split_for_writers_partitions [1; 2; 3; 4; 5; 6; 7] 3).
  split; [lia|]. unfold UINT32_MAX. cbn. lia.
Defined.

Lemma parallel_text_is_sequential_text_witness :
  get_merged_strings (split_strings dec [11; 22; 33] 2 (replicate 2 [])) =
    (tuples dec [11; 22; 33], replicate 2 []) /\
  tuples dec [11; 22; 33] =
    lit "(11)" ++ [NL] ++ lit ",(22)" ++ [NL] ++ lit ",(33)" ++ [NL].
Proof.
  split; [|vm_compute; reflexivity]. apply parallel_text_is_sequential_text.
  split; [lia|]. unfold UINT32_MAX. cbn. lia.
Defined.

End WriterExamples.
