(* ===== verification/Conversions.v ===== *)
(** * Conversions of values to PostgreSQL text

    Models [pqxx_conversions.hpp] (the text COPY sends for hashes, signatures,
    operations, public keys and times) and [data_2_sql_tuple_base.cpp] (the SQL
    literals of the live path).

    Bytes and characters are [ascii]; a buffer is a [list ascii] written in place
    at an index.  Code of the hive and fc submodules ([fc::raw::pack],
    [fc::decodeUtf8], [fc::to_hex], the hash of a key) is a parameter. *)

From S2P Require Import Prelude Text.
From Stdlib Require Import ZArith Lia Ascii String.
From stdpp Require Import base list strings gmap sorting.

Open Scope Z_scope.

Definition byte_val (c : ascii) : Z := Z.of_N (N_of_ascii c).
Definition byte_of (z : Z) : ascii := ascii_of_N (Z.to_N (wrap_u 8 z)).

Lemma byte_val_range c : 0 <= byte_val c < 256.
Proof. unfold byte_val. pose proof (N_ascii_bounded c). lia. Qed.

Lemma byte_of_val c : byte_of (byte_val c) = c.
Proof.
  unfold byte_of. rewrite wrap_u_small by (pose proof (byte_val_range c); lia).
  unfold byte_val. rewrite N2Z.id. apply ascii_N_embedding.
Qed.

Lemma byte_val_of z : 0 <= z < 256 -> byte_val (byte_of z) = z.
Proof.
  intros. unfold byte_of, byte_val. rewrite wrap_u_small by lia.
  rewrite N_ascii_embedding by lia. lia.
Qed.

(** ** Hexadecimal text of binary data *)

Definition BACKSLASH : ascii := "\"%char.

Definition hex_digits : list ascii := lit "0123456789abcdef".

Definition hex_digit (c : Z) : ascii := nth (Z.to_nat c) hex_digits "0"%char.

(** An entry of the table: the two characters as a 16-bit number, the first one in
    the low byte, so that storing it in little-endian order writes them in order. *)
Definition hex_pair (i : Z) : Z :=
  let lo := byte_val (hex_digit (Z.land i 15)) in
  let hi := byte_val (hex_digit (Z.shiftr i 4)) in
  Z.lor hi (wrap_u 16 (Z.shiftl lo 8)).

(** [memcpy( here, &pair, 2 )] *)
Definition pair_in_memory (pair : Z) : list ascii :=
  [byte_of (Z.land pair 255); byte_of (Z.shiftr pair 8)].

Definition hex_of (c : ascii) : list ascii := pair_in_memory (hex_pair (byte_val c)).

Definition size_esc_bin (binary_bytes : nat) : nat := 2 + 2 * binary_bytes + 1.

(** [esc_bin]: what it writes, the terminating zero included. *)
Definition esc_bin (binary_data : list ascii) : list ascii :=
  BACKSLASH :: "x"%char :: concat (map hex_of binary_data) ++ [NUL].

(** [nibble]; -1 for what is not a digit. *)
Definition nibble (ch : ascii) : Z :=
  let c := byte_val ch in
  if (48 <=? c) && (c <=? 57) then c - 48
  else if (97 <=? c) && (c <=? 102) then 10 + (c - 97)
  else if (65 <=? c) && (c <=? 70) then 10 + (c - 65)
  else -1.

Fixpoint unesc_pairs (l : list ascii) : outcome string (list ascii) :=
  match l with
  | h :: t =>
      match t with
      | lo :: l' =>
          if nibble h <? 0 then Throw "Invalid hex-escaped data."%string
          else if nibble lo <? 0 then Throw "Invalid hex-escaped data."%string
          else bytes ← unesc_pairs l';
               Ok (byte_of (Z.lor (Z.shiftl (nibble h) 4) (nibble lo)) :: bytes)
      | [] => Throw "odd"%string     (* not reached: the length is even *)
      end
  | [] => Ok []
  end.

Definition unesc_bin (escaped_data : list ascii) : outcome string (list ascii) :=
  if (length escaped_data <? 2)%nat then Throw "Binary data appears truncated."%string
  else if negb (Nat.even (length escaped_data)) then Throw "Invalid escaped binary length."%string
  else match escaped_data with
       | c1 :: c2 :: rest =>
           if negb (bool_decide (c1 = BACKSLASH)) || negb (bool_decide (c2 = "x"%char))
           then Throw "Escaped binary data did not start with \x"%string
           else unesc_pairs rest
       | _ => Throw "Binary data appears truncated."%string
       end.

(** The two digits of a byte, written out. *)
Definition hex2 (c : ascii) : list ascii :=
  [hex_digit (byte_val c / 16); hex_digit (byte_val c mod 16)].

Lemma all_bytes (P : ascii -> bool) :
  forallb P (map ascii_of_nat (seq 0 256)) = true -> forall c, P c = true.
Proof.
  intros H c. rewrite forallb_forall in H. apply H. apply in_map_iff. exists (nat_of_ascii c).
  split; [apply ascii_nat_embedding|]. apply in_seq.
  pose proof (nat_ascii_bounded c). lia.
Qed.

Lemma hex_of_hex2 c : hex_of c = hex2 c.
Proof.
  cut (bool_decide (hex_of c = hex2 c) = true); [apply bool_decide_eq_true|].
  revert c. apply all_bytes. vm_compute. reflexivity.
Qed.

Lemma nibbles_hex2 c :
  exists h l, hex2 c = [h; l] /\ 0 <= nibble h /\ 0 <= nibble l /\
    byte_of (Z.lor (Z.shiftl (nibble h) 4) (nibble l)) = c.
Proof.
  cut ((0 <=? nibble (hex_digit (byte_val c / 16))) && (0 <=? nibble (hex_digit (byte_val c mod 16))) &&
    bool_decide (byte_of (Z.lor (Z.shiftl (nibble (hex_digit (byte_val c / 16))) 4)
      (nibble (hex_digit (byte_val c mod 16)))) = c) = true).
  - intros H. apply andb_true_iff in H as [[H1 H2]%andb_true_iff H3%bool_decide_eq_true].
    eexists _, _. split; [done|]. split_and!; [lia|lia|done].
  - revert c.
    apply (all_bytes (fun c => (0 <=? nibble (hex_digit (byte_val c / 16))) &&
      (0 <=? nibble (hex_digit (byte_val c mod 16))) &&
      bool_decide (byte_of (Z.lor (Z.shiftl (nibble (hex_digit (byte_val c / 16))) 4)
        (nibble (hex_digit (byte_val c mod 16)))) = c))).
    vm_compute. reflexivity.
Qed.

Lemma length_hex bs : length (concat (map hex_of bs)) = (2 * length bs)%nat.
Proof. induction bs as [|c bs IH]; [done|]. cbn. cbn in IH. lia. Qed.

Lemma length_esc_bin bs : length (esc_bin bs) = size_esc_bin (length bs).
Proof. unfold esc_bin, size_esc_bin. cbn. rewrite length_app, length_hex. cbn. lia. Qed.

Lemma unesc_pairs_hex bs : unesc_pairs (concat (map hex_of bs)) = Ok bs.
Proof.
  induction bs as [|c bs IH]; [done|]. cbn [map concat]. rewrite hex_of_hex2.
  destruct (nibbles_hex2 c) as (h & l & -> & Hh & Hl & Hc). cbn [app unesc_pairs].
  destruct (Z.ltb_spec (nibble h) 0); [lia|]. destruct (Z.ltb_spec (nibble l) 0); [lia|].
  rewrite IH. cbn. by rewrite Hc.
Qed.

(** The text sent for binary data is as long as the buffer reserved for it, and
    reading it back (without its terminating zero) gives the data. *)
Theorem esc_bin_round_trip bs :
  length (esc_bin bs) = size_esc_bin (length bs) /\
  unesc_bin (take (length (esc_bin bs) - 1) (esc_bin bs)) = Ok bs.
Proof.
  split; [apply length_esc_bin|]. rewrite length_esc_bin.
  replace (esc_bin bs) with ((BACKSLASH :: "x"%char :: concat (map hex_of bs)) ++ [NUL]) by done.
  rewrite take_app_length' by (cbn [length]; rewrite length_hex; unfold size_esc_bin; lia).
  unfold unesc_bin. cbn [length]. rewrite length_hex.
  replace (Nat.even (S (S (2 * length bs)))) with true
    by (symmetry; apply Nat.even_spec; exists (S (length bs)); lia).
  cbn. apply unesc_pairs_hex.
Qed.

(** ** [string_traits< operation >]

    The operation is packed at the beginning of the buffer and expanded to
    hexadecimal in place, from its last byte to its first. *)

Section operation_text.
  Context {operation : Type} (pack : operation -> list ascii).

(** [fc::raw::pack] into a [datastream] over the buffer: it throws past its end. *)
Definition pack_into (buffer : list ascii) (value : operation) : outcome string (list ascii) :=
  let raw := pack value in
  if (length raw <=? length buffer)%nat then Ok (raw ++ drop (length raw) buffer)
  else Throw "Could not write hive::protocol::operation: buffer too small."%string.

(** The loop; [cooked] and [raw] are the pointers' indices plus one. *)
Fixpoint cook (n raw cooked : nat) (buffer : list ascii) : list ascii * nat :=
  match n with
  | O => (buffer, cooked)
  | S n' =>
      let as_unsigned := byte_val (nth (raw - 1) buffer NUL) in
      let pair := hex_pair as_unsigned in
      let b1 := <[(cooked - 1)%nat := byte_of (Z.shiftr pair 8)]> buffer in
      let b2 := <[(cooked - 2)%nat := byte_of (Z.land pair 255)]> b1 in
      cook n' (raw - 1) (cooked - 2) b2
  end.

(** The buffer after the call and the length of what was written. *)
Definition operation_into_buf (buffer : list ascii) (value : operation) :
    outcome string (list ascii * nat) :=
  packed ← pack_into buffer value;
  let raw_size := length (pack value) in
  if (length buffer <? size_esc_bin raw_size)%nat
  then Throw "Could not write hive::protocol::operation: buffer too small."%string
  else
    let end_of_data := (raw_size * 2 + 3)%nat in
    let null_terminator := (end_of_data - 1)%nat in
    let b1 := <[null_terminator := NUL]> packed in
    let '(b2, cooked) := cook raw_size raw_size null_terminator b1 in
    let b3 := <[(cooked - 1)%nat := "x"%char]> b2 in
    let b4 := <[(cooked - 2)%nat := BACKSLASH]> b3 in
    Ok (b4, end_of_data).

Definition operation_size_buffer (value : operation) : nat := size_esc_bin (length (pack value)).

(** What is left to expand ahead, what has been expanded behind, with room between. *)
Lemma cook_spec raw mid done_ rest :
  length mid = (length raw + 2)%nat ->
  exists mid', length mid' = 2%nat /\
    cook (length raw) (length raw) (length raw + length mid) (raw ++ mid ++ done_ ++ rest) =
    (mid' ++ concat (map hex_of raw) ++ done_ ++ rest, 2%nat).
Proof.
  revert mid done_. induction raw as [|c raw IH] using rev_ind; intros mid done_ Hm.
  - exists mid. cbn in *. by rewrite Hm.
  - rewrite length_app in Hm. cbn in Hm.
    destruct mid as [|y mid _] using rev_ind; [cbn in Hm; lia|].
    destruct mid as [|x mid _] using rev_ind; [cbn in Hm; lia|].
    rewrite !length_app in Hm. cbn in Hm.
    rewrite !length_app. cbn [length].
    replace (length raw + 1)%nat with (S (length raw)) by lia. cbn [cook].
    set (B := (raw ++ [c]) ++ ((mid ++ [x]) ++ [y]) ++ done_ ++ rest).
    assert (nth (S (length raw) - 1) B NUL = c) as ->.
    { unfold B. rewrite <- !app_assoc. rewrite app_nth2 by lia.
      by replace (S (length raw) - 1 - length raw)%nat with 0%nat by lia. }
    assert (forall hi lo,
      <[(S (length raw) + (length mid + 1 + 1) - 2)%nat := hi]>
        (<[(S (length raw) + (length mid + 1 + 1) - 1)%nat := lo]> B) =
      raw ++ (c :: mid) ++ ([hi; lo] ++ done_) ++ rest) as Hw.
    { intros hi lo.
      assert (B = (raw ++ c :: mid) ++ x :: y :: done_ ++ rest) as ->
        by (unfold B; by rewrite <- !app_assoc).
      replace (S (length raw) + (length mid + 1 + 1) - 1)%nat
        with (length (raw ++ c :: mid) + 1)%nat by (rewrite length_app; cbn; lia).
      replace (S (length raw) + (length mid + 1 + 1) - 2)%nat
        with (length (raw ++ c :: mid) + 0)%nat by (rewrite length_app; cbn; lia).
      rewrite !insert_app_r. cbn. by rewrite <- app_assoc. }
    rewrite Hw.
    replace (S (length raw) + (length mid + 1 + 1) - 2)%nat
      with (length raw + length (c :: mid))%nat by (cbn; lia).
    replace (S (length raw) - 1)%nat with (length raw) by lia.
    destruct (IH (c :: mid) ([byte_of (Z.land (hex_pair (byte_val c)) 255);
      byte_of (Z.shiftr (hex_pair (byte_val c)) 8)] ++ done_)) as (mid' & Hl & ->); [cbn; lia|].
    exists mid'. split; [done|]. rewrite map_app, concat_app. cbn. by rewrite <- !app_assoc.
Qed.

(** The in-place expansion of a packed operation writes exactly the text esc_bin
    would write for its bytes and touches nothing after it; it succeeds whenever the
    buffer has the size asked for, and throws conversion_overrun otherwise. *)
Theorem operation_into_buf_is_esc_bin buffer value :
  operation_into_buf buffer value =
  if (operation_size_buffer value <=? length buffer)%nat
  then Ok (esc_bin (pack value) ++ drop (operation_size_buffer value) buffer,
           operation_size_buffer value)
  else Throw "Could not write hive::protocol::operation: buffer too small."%string.
Proof.
  unfold operation_into_buf, pack_into, operation_size_buffer.
  set (raw := pack value). set (n := length raw).
  destruct (Nat.leb_spec (size_esc_bin n) (length buffer)) as [Hs|Hs].
  - unfold size_esc_bin in *. destruct (Nat.leb_spec n (length buffer)); [|lia]. cbn [mbind outcome_bind].
    destruct (Nat.ltb_spec (length buffer) (2 + 2 * n + 1)); [lia|].
    assert (exists mid y rest, drop n buffer = mid ++ [y] ++ rest /\ length mid = (n + 2)%nat /\
      rest = drop (2 + 2 * n + 1) buffer) as (mid & y & rest & Hd & Hm & Hr).
    { exists (take (n + 2) (drop n buffer)).
      destruct (drop (n + 2) (drop n buffer)) as [|y rest] eqn:E.
      - apply (f_equal length) in E. rewrite !length_drop in E. cbn in E. lia.
      - exists y, rest. split_and!.
        + rewrite <- (take_drop (n + 2) (drop n buffer)) at 1. by rewrite E.
        + rewrite length_take, length_drop. lia.
        + rewrite drop_drop in E. apply (f_equal (drop 1)) in E. rewrite drop_drop in E.
          cbn [drop] in E. rewrite drop_0 in E. rewrite <- E. f_equal. lia. }
    rewrite Hd. replace (n * 2 + 3 - 1)%nat with (length raw + (length mid + 0))%nat by (fold n; lia).
    rewrite !insert_app_r. cbn [app insert list_insert].
    destruct (cook_spec raw mid [NUL] rest Hm) as (mid' & Hl & Hc). cbn [app] in Hc.
    replace (length raw + (length mid + 0))%nat with (length raw + length mid)%nat by lia.
    fold n in Hc |- *. rewrite Hc. destruct mid' as [|m1 [|m2 [|]]]; try (cbn in Hl; lia).
    cbn. rewrite Hr. f_equal. f_equal; [|lia]. unfold esc_bin. cbn. by rewrite <- app_assoc.
  - destruct (Nat.leb_spec n (length buffer)); [|reflexivity]. cbn [mbind outcome_bind].
    destruct (Nat.ltb_spec (length buffer) (size_esc_bin n)); [done|lia].
Qed.

End operation_text.

(** ** [string_traits< public_key_type >]: base 58

    The number being built is kept least significant digit first, the order the
    loops visit the digits in; [b58_begin] to [b58_end] is its reverse. *)

Fixpoint skip_zeroes (input : list ascii) : list ascii :=
  match input with
  | c :: input' => if byte_val c =? 0 then skip_zeroes input' else input
  | [] => []
  end.

(** [carry <<= 8; carry += *input++] over the bytes of a group. *)
Definition take_bytes (group : list ascii) : Z :=
  foldl (fun carry c => u64 (u64 (Z.shiftl carry 8) + byte_val c)) 0 group.

(** [b58 = b58 * multiplier + carry] over the digits there are; the carry is left over. *)
Fixpoint multiply_digits (multiplier carry : Z) (digits : list Z) : list Z * Z :=
  match digits with
  | [] => ([], carry)
  | d :: digits' =>
      let carry' := u64 (carry + u64 (multiplier * d)) in
      let '(rest, c) := multiply_digits multiplier (carry' / 58) digits' in
      (wrap_u 8 (carry' mod 58) :: rest, c)
  end.

(** [while( carry > 58 * 58 )], three digits at a time. *)
Fixpoint carry_triples (fuel : nat) (carry : Z) : list Z * Z :=
  match fuel with
  | O => ([], carry)
  | S fuel' =>
      if carry >? 58 * 58 then
        let d1 := carry mod 58 in let c1 := carry / 58 in
        let d2 := c1 mod 58 in let c2 := c1 / 58 in
        let d3 := c2 mod 58 in let c3 := c2 / 58 in
        let '(rest, c) := carry_triples fuel' c3 in
        (d1 :: d2 :: d3 :: rest, c)
      else ([], carry)
  end.

(** [while( carry != 0 )] *)
Fixpoint carry_singles (fuel : nat) (carry : Z) : list Z :=
  match fuel with
  | O => []
  | S fuel' => if carry =? 0 then [] else carry mod 58 :: carry_singles fuel' (carry / 58)
  end.

(** A carry has 64 bits and 2^64 < 58^11. *)
Definition finish_carry (carry : Z) : list Z :=
  let '(ds, c) := carry_triples 11 carry in ds ++ carry_singles 11 c.

Definition process_group (group : list ascii) (digits : list Z) : list Z :=
  let multiplier := u64 (Z.shiftl 1 (Z.of_nat (length group) * 8)) in
  let '(ds, c) := multiply_digits multiplier (take_bytes group) digits in
  ds ++ finish_carry c.

(** [while( input != input_end )]; each turn consumes at least one byte. *)
Fixpoint process_bytes (fuel : nat) (num_bytes : nat) (input : list ascii) (digits : list Z) : list Z :=
  match fuel with
  | O => digits
  | S fuel' =>
      match input with
      | [] => digits
      | _ => process_bytes fuel' 7 (drop num_bytes input) (process_group (take num_bytes input) digits)
      end
  end.

Definition b58_digits (input_data : list ascii) : list Z :=
  let input := skip_zeroes input_data in
  let num_bytes_to_process := u64 (Z.of_nat (length input) - 1) mod 7 + 1 in
  process_bytes (length input) (Z.to_nat num_bytes_to_process) input [].

Definition expected_encoded_size (input_size : nat) : Z :=
  Z.shiftr (Z.of_nat input_size * 350) 8 + 1.

Definition alphabet : list ascii := lit "123456789ABCDEFGHJKLMNPQRSTUVWXYZabcdefghijkmnopqrstuvwxyz".

(** What [encode] leaves in the buffer, the terminating zero included. *)
Definition encode (input_data : list ascii) : list ascii :=
  map (fun d => nth (Z.to_nat d) alphabet NUL) (rev (b58_digits input_data)) ++ [NUL].

(** *** The numbers they stand for *)

Definition val256 (bytes : list ascii) : Z := foldl (fun v c => v * 256 + byte_val c) 0 bytes.

Fixpoint val58 (digits : list Z) : Z :=
  match digits with [] => 0 | d :: digits' => d + 58 * val58 digits' end.

Definition digits_ok (digits : list Z) : Prop := Forall (fun d => 0 <= d < 58) digits.

(** No leading zero. *)
Definition canonical (digits : list Z) : Prop :=
  digits_ok digits /\ forall d, last digits = Some d -> d <> 0.

Lemma val58_app l1 l2 : val58 (l1 ++ l2) = val58 l1 + 58 ^ Z.of_nat (length l1) * val58 l2.
Proof.
  induction l1 as [|d l1 IH]; [cbn; lia|]. cbn [val58 app length]. rewrite IH.
  rewrite Nat2Z.inj_succ, Z.pow_succ_r by lia. lia.
Qed.

Lemma val256_go bytes v :
  foldl (fun v c => v * 256 + byte_val c) v bytes = v * 256 ^ Z.of_nat (length bytes) + val256 bytes.
Proof.
  unfold val256. revert v. induction bytes as [|c bytes IH]; intros v; cbn [foldl length].
  - cbn. lia.
  - rewrite IH, (IH (0 * 256 + byte_val c)). rewrite Nat2Z.inj_succ, Z.pow_succ_r by lia. lia.
Qed.

Lemma val256_app l1 l2 :
  val256 (l1 ++ l2) = val256 l1 * 256 ^ Z.of_nat (length l2) + val256 l2.
Proof. unfold val256 at 1. rewrite foldl_app. apply val256_go. Qed.

Lemma val256_range bytes : 0 <= val256 bytes < 256 ^ Z.of_nat (length bytes).
Proof.
  induction bytes as [|c bytes IH] using rev_ind; [cbn; lia|].
  rewrite val256_app, length_app, Nat2Z.inj_add, Z.pow_add_r by lia. cbn.
  pose proof (byte_val_range c). lia.
Qed.

Lemma take_bytes_val group : (length group <= 7)%nat -> take_bytes group = val256 group.
Proof.
  intros Hl. induction group as [|c group IH] using rev_ind; [done|].
  unfold take_bytes in *. rewrite length_app in Hl. cbn in Hl.
  rewrite foldl_app, IH by lia. cbn [foldl]. rewrite val256_app.
  change (256 ^ Z.of_nat (length [c])) with 256. change (val256 [c]) with (byte_val c).
  pose proof (val256_range group) as Hr. pose proof (byte_val_range c).
  assert (256 ^ Z.of_nat (length group) <= 256 ^ 6) by (apply Z.pow_le_mono_r; lia).
  rewrite Z.shiftl_mul_pow2 by lia. unfold u64.
  rewrite (wrap_u_small 64 (val256 group * 2 ^ 8)) by lia. rewrite wrap_u_small by lia. lia.
Qed.

Lemma multiply_digits_val m carry digits :
  1 <= m <= 2 ^ 56 -> 0 <= carry < m -> digits_ok digits ->
  let '(ds, c) := multiply_digits m carry digits in
  digits_ok ds /\ length ds = length digits /\ 0 <= c < m /\
  val58 ds + 58 ^ Z.of_nat (length digits) * c = m * val58 digits + carry /\
  (58 <= m -> forall d, last digits = Some d -> d <> 0 -> 0 < c).
Proof.
  intros Hm. revert carry. induction digits as [|d digits IH]; intros carry Hc Hd.
  - cbn. split_and!; try done; lia.
  - apply Forall_cons in Hd as [Hd0 Hd]. cbn [multiply_digits].
    assert (0 <= m * d <= m * 57) by nia. assert (m * 57 + m <= 2 ^ 63) by lia.
    unfold u64. rewrite (wrap_u_small 64 (m * d)) by lia. rewrite wrap_u_small by lia.
    set (c1 := carry + m * d).
    assert (0 <= c1 / 58 < m) as Hc1.
    { split; [apply Z.div_pos; lia|]. apply Z.div_lt_upper_bound; lia. }
    pose proof (Z.mod_pos_bound c1 58 ltac:(lia)) as Hmod. pose proof (Z.div_mod c1 58 ltac:(lia)) as Hdm.
    specialize (IH (c1 / 58) Hc1 Hd). destruct (multiply_digits m (c1 / 58) digits) as [ds c].
    destruct IH as (Hds & Hlen & Hcr & Hval & Hlast). rewrite wrap_u_small by lia. split_and!.
    + by constructor.
    + cbn. lia.
    + lia.
    + lia.
    + cbn [val58 length]. rewrite Nat2Z.inj_succ, Z.pow_succ_r by lia.
      assert (c1 = carry + m * d) as He by done. clearbody c1. lia.
    + intros H58 e He Hne. destruct digits as [|d2 digits].
      * cbn in He. injection He as <-. cbn in Hval. destruct ds; [|done]. cbn in Hval.
        assert (58 <= c1) by (unfold c1; nia).
        pose proof (Z.div_le_lower_bound c1 58 1 ltac:(lia) ltac:(lia)). lia.
      * apply (Hlast H58 e); done.
Qed.

Lemma canonical_nil : canonical [].
Proof. split; [constructor|done]. Qed.

Lemma canonical_cons d ds : 0 <= d < 58 -> canonical ds -> (ds = [] -> d <> 0) -> canonical (d :: ds).
Proof.
  intros Hd [Hds Hl] Hne. split; [by constructor|]. intros e He.
  destruct ds as [|d2 ds]; [cbn in He; injection He as <-; by apply Hne|]. by apply Hl.
Qed.

Lemma carry_singles_val fuel carry :
  0 <= carry < 58 ^ Z.of_nat fuel ->
  val58 (carry_singles fuel carry) = carry /\ canonical (carry_singles fuel carry) /\
  (carry <> 0 -> carry_singles fuel carry <> []).
Proof.
  revert carry. induction fuel as [|fuel IH]; intros carry Hc.
  - cbn in *. split_and!; [lia|apply canonical_nil|lia].
  - cbn [carry_singles]. destruct (Z.eqb_spec carry 0) as [->|Hz];
      [split_and!; [done|apply canonical_nil|done]|].
    pose proof (Z.mod_pos_bound carry 58 ltac:(lia)). pose proof (Z.div_mod carry 58 ltac:(lia)).
    rewrite Nat2Z.inj_succ, Z.pow_succ_r in Hc by lia.
    destruct (IH (carry / 58)) as (Hv & Hcan & Hne).
    { split; [apply Z.div_pos; lia|apply Z.div_lt_upper_bound; lia]. }
    split_and!; [cbn [val58]; lia| |done]. apply canonical_cons; [lia|done|].
    intros He. rewrite He in Hv. cbn in Hv. lia.
Qed.

Lemma carry_triples_0 fuel : carry_triples fuel 0 = ([], 0).
Proof. by destruct fuel. Qed.

Lemma carry_triples_val fuel carry :
  0 <= carry < 58 ^ Z.of_nat (3 * fuel) ->
  let '(ds, c) := carry_triples fuel carry in
  digits_ok ds /\ 0 <= c <= carry /\ (carry <> 0 -> c = 0 -> canonical ds /\ ds <> []) /\
  val58 ds + 58 ^ Z.of_nat (length ds) * c = carry.
Proof.
  revert carry. induction fuel as [|fuel IH]; intros carry Hc.
  { cbn [carry_triples length val58]. change (58 ^ Z.of_nat 0) with 1.
    split_and!; [constructor|lia|lia|lia|lia]. }
  cbn [carry_triples]. destruct (Z.gtb_spec carry (58 * 58)).
  2: { cbn [length val58]. change (58 ^ Z.of_nat 0) with 1.
       split_and!; [constructor|lia|lia|lia|lia]. }
  set (c1 := carry / 58). set (c2 := c1 / 58). set (c3 := c2 / 58).
  pose proof (Z.mod_pos_bound carry 58 ltac:(lia)).
  pose proof (Z.mod_pos_bound c1 58 ltac:(lia)).
  pose proof (Z.mod_pos_bound c2 58 ltac:(lia)).
  assert (carry = 58 * c1 + carry mod 58) by (apply Z.div_mod; lia).
  assert (c1 = 58 * c2 + c1 mod 58) by (apply Z.div_mod; lia).
  assert (c2 = 58 * c3 + c2 mod 58) by (apply Z.div_mod; lia).
  fold c1 c2 c3. clearbody c3. clearbody c2. clearbody c1.
  replace (Z.of_nat (3 * S fuel)) with (3 + Z.of_nat (3 * fuel)) in Hc by lia.
  rewrite Z.pow_add_r in Hc by lia. change (58 ^ 3) with 195112 in Hc.
  specialize (IH c3 ltac:(lia)). destruct (carry_triples fuel c3) as [rest c] eqn:E3.
  destruct IH as (Hds & Hcr & Hnz & Hv).
  split_and!; [do 3 (constructor; [lia|]); done|lia|lia| |].
  { intros _ Hc0. split; [|done]. destruct (decide (c3 = 0)) as [Hc3|Hc3].
    - rewrite Hc3, carry_triples_0 in E3. injection E3 as <- _.
      apply canonical_cons; [lia| |done]. apply canonical_cons; [lia| |done].
      apply canonical_cons; [lia|apply canonical_nil|]. intros _. lia.
    - destruct (Hnz Hc3 Hc0) as [Hcan Hne]. by do 3 (apply canonical_cons; [lia| |done]). }
  cbn [val58 length]. rewrite !Nat2Z.inj_succ, !Z.pow_succ_r by lia. lia.
Qed.

Lemma canonical_app l1 l2 : digits_ok l1 -> canonical l2 -> l2 <> [] -> canonical (l1 ++ l2).
Proof.
  intros H1 [H2 Hl] Hne. split; [by apply Forall_app|]. intros d. rewrite last_app.
  destruct (last l2) as [e|] eqn:E; [intros [= <-]; by apply Hl|]. by apply last_None in E.
Qed.

Lemma finish_carry_val carry :
  0 <= carry < 2 ^ 64 ->
  val58 (finish_carry carry) = carry /\ canonical (finish_carry carry) /\
  (carry <> 0 -> finish_carry carry <> []).
Proof.
  intros Hc. destruct (decide (carry = 0)) as [->|Hz].
  { change (finish_carry 0) with (@nil Z). split_and!; [done|apply canonical_nil|done]. }
  assert (2 ^ 64 <= 58 ^ 11) as H11 by (vm_compute; discriminate).
  assert (58 ^ 11 <= 58 ^ Z.of_nat (3 * 11)) by (apply Z.pow_le_mono_r; lia).
  unfold finish_carry. pose proof (carry_triples_val 11 carry ltac:(lia)) as Ht.
  destruct (carry_triples 11 carry) as [ds c]. destruct Ht as (Hds & Hcr & Hnz & Hv).
  destruct (carry_singles_val 11 c) as (Hv2 & Hcan & Hne); [change (Z.of_nat 11) with 11; lia|].
  split; [rewrite val58_app, Hv2; lia|]. destruct (decide (c = 0)) as [->|Hc0].
  - cbn. rewrite app_nil_r. destruct (Hnz Hz eq_refl). done.
  - split; [apply canonical_app; auto|]. intros _ He. apply app_eq_nil in He as [_ He]. by apply Hne.
Qed.

Lemma canonical_ok ds : canonical ds -> digits_ok ds.
Proof. by intros [? _]. Qed.

(** One group: the number is multiplied by the group's weight and the group added;
    no intermediate value exceeds 64 bits. *)
Lemma process_group_val group digits :
  (0 < length group <= 7)%nat -> canonical digits -> (digits = [] -> val256 group <> 0) ->
  let ds := process_group group digits in
  val58 ds = val58 digits * 256 ^ Z.of_nat (length group) + val256 group /\
  canonical ds /\ ds <> [].
Proof.
  intros Hl Hcan Hne. unfold process_group.
  set (m := 256 ^ Z.of_nat (length group)).
  assert (256 <= m <= 2 ^ 56) as Hm.
  { unfold m. change 256 with (256 ^ 1) at 1. change (2 ^ 56) with (256 ^ 7).
    split; apply Z.pow_le_mono_r; lia. }
  assert (u64 (Z.shiftl 1 (Z.of_nat (length group) * 8)) = m) as ->.
  { rewrite Z.shiftl_mul_pow2, Z.mul_1_l by lia.
    replace (2 ^ (Z.of_nat (length group) * 8)) with m
      by (unfold m; change 256 with (2 ^ 8); rewrite <- Z.pow_mul_r by lia; f_equal; lia).
    unfold u64. apply wrap_u_small. lia. }
  rewrite take_bytes_val by lia. pose proof (val256_range group) as Hr. fold m in Hr.
  pose proof (multiply_digits_val m (val256 group) digits ltac:(lia) ltac:(lia) (canonical_ok _ Hcan)) as H.
  destruct (multiply_digits m (val256 group) digits) as [ds c].
  destruct H as (Hds & Hlen & Hcr & Hv & Hlast).
  assert (0 < c) as Hcpos.
  { destruct digits as [|d digits]; [|].
    - destruct ds; [|done]. cbn in Hv. specialize (Hne eq_refl). lia.
    - destruct (last (d :: digits)) as [e|] eqn:E; [|by apply last_None in E].
      apply (Hlast ltac:(lia) e); [done|]. by apply Hcan. }
  destruct (finish_carry_val c ltac:(lia)) as (Hfv & Hfc & Hfn). specialize (Hfn ltac:(lia)).
  split_and!; [rewrite val58_app, Hfv, Hlen; lia|by apply canonical_app|].
  intros He. by apply app_eq_nil in He as [_ ?].
Qed.

Lemma process_bytes_val fuel n input digits :
  (length input <= fuel)%nat -> (0 < n <= 7)%nat -> (input <> [] -> n <= length input)%nat ->
  ((length input - n) mod 7 = 0)%nat -> canonical digits ->
  (digits = [] -> input = [] \/ val256 (take n input) <> 0) ->
  let ds := process_bytes fuel n input digits in
  val58 ds = val58 digits * 256 ^ Z.of_nat (length input) + val256 input /\ canonical ds.
Proof.
  revert n input digits. induction fuel as [|fuel IH]; intros n input digits Hf Hn Hle Hmod Hcan Hne.
  - destruct input; [|cbn in Hf; lia]. cbn. split; [lia|done].
  - destruct (decide (input = [])) as [->|Hnil]; [cbn; split; [lia|done]|].
    assert (process_bytes (S fuel) n input digits =
      process_bytes fuel 7 (drop n input) (process_group (take n input) digits)) as ->
      by (cbn [process_bytes]; by destruct input).
    specialize (Hle Hnil).
    assert (length (take n input) = n) as Ht by (rewrite length_take; lia).
    destruct (process_group_val (take n input) digits) as (Hv & Hc & Hnn); [lia|done| |].
    { intros He. by destruct (Hne He). }
    assert (length (drop n input) = 0 \/ 7 <= length (drop n input))%nat as Hd.
    { rewrite length_drop. apply Nat.Div0.mod_divides in Hmod as [q Hq]. lia. }
    destruct (IH 7%nat (drop n input) (process_group (take n input) digits)) as [Hv2 Hc2].
    + rewrite length_drop. lia.
    + lia.
    + intros Hx. destruct Hd as [Hd|Hd]; [by apply length_zero_iff_nil in Hd|done].
    + rewrite length_drop in Hd |- *. apply Nat.Div0.mod_divides in Hmod as [q Hq].
      rewrite Hq. destruct q as [|q]; [done|].
      replace (7 * S q - 7)%nat with (q * 7)%nat by lia. apply Nat.Div0.mod_mul.
    + done.
    + intros He. done.
    + split; [|done]. rewrite Hv2, Hv, Ht.
      assert (val256 input =
        val256 (take n input) * 256 ^ Z.of_nat (length (drop n input)) + val256 (drop n input)) as ->
        by (rewrite <- val256_app; by rewrite take_drop).
      replace (Z.of_nat (length input)) with (Z.of_nat n + Z.of_nat (length (drop n input)))
        by (rewrite length_drop; lia).
      rewrite Z.pow_add_r by lia. lia.
Qed.

Lemma skip_zeroes_val input : val256 (skip_zeroes input) = val256 input.
Proof.
  induction input as [|c input IH]; [done|]. cbn [skip_zeroes]. case_match eqn:E; [|done].
  apply Z.eqb_eq in E. rewrite IH. unfold val256 at 2. cbn. by rewrite E.
Qed.

Lemma skip_zeroes_head input c input' :
  skip_zeroes input = c :: input' -> byte_val c <> 0.
Proof.
  induction input as [|b input IH]; [done|]. cbn [skip_zeroes]. case_match eqn:E; [done|].
  intros [= <- <-]. by apply Z.eqb_neq.
Qed.

Lemma length_skip_zeroes input : (length (skip_zeroes input) <= length input)%nat.
Proof. induction input as [|c input IH]; [done|]. cbn [skip_zeroes]. case_match; cbn; lia. Qed.

(** The first group makes the rest a multiple of seven bytes long. *)
Lemma first_group n :
  0 < n <= UINT32_MAX ->
  let k := u64 (n - 1) mod 7 + 1 in 1 <= k <= 7 /\ k <= n /\ (n - k) mod 7 = 0.
Proof.
  intros Hn k. unfold k, u64. rewrite wrap_u_small by (unfold UINT32_MAX in Hn; lia).
  pose proof (Z.mod_pos_bound (n - 1) 7 ltac:(lia)). pose proof (Z.div_mod (n - 1) 7 ltac:(lia)).
  pose proof (Z.mod_le (n - 1) 7 ltac:(lia) ltac:(lia)).
  split; [lia|]. split; [lia|].
  replace (n - ((n - 1) mod 7 + 1)) with ((n - 1) / 7 * 7) by lia. apply Z.mod_mul. lia.
Qed.

Lemma b58_digits_val input :
  Z.of_nat (length input) <= UINT32_MAX ->
  val58 (b58_digits input) = val256 input /\ canonical (b58_digits input).
Proof.
  intros Hb. unfold b58_digits. rewrite <- (skip_zeroes_val input).
  pose proof (length_skip_zeroes input) as Hls. pose proof (skip_zeroes_head input) as Hh.
  set (inp := skip_zeroes input) in *. clearbody inp.
  destruct inp as [|c rest]; [split; [done|apply canonical_nil]|].
  specialize (Hh c rest eq_refl).
  destruct (first_group (Z.of_nat (length (c :: rest)))) as (Hk & Hkn & Hmod); [cbn in *; lia|].
  set (k := u64 _ mod 7 + 1) in *. clearbody k.
  destruct (process_bytes_val (length (c :: rest)) (Z.to_nat k) (c :: rest) []) as [Hv Hc];
    [lia|lia|intros _; lia| |apply canonical_nil| |by split; [rewrite Hv; cbn; lia|]].
  - apply Nat2Z.inj. rewrite Nat2Z.inj_mod, Nat2Z.inj_sub, Z2Nat.id by lia. exact Hmod.
  - intros _. right. destruct (Z.to_nat k) as [|k'] eqn:E; [lia|]. cbn [take].
    change (c :: take k' rest) with ([c] ++ take k' rest). rewrite val256_app.
    change (val256 [c]) with (byte_val c). pose proof (byte_val_range c).
    pose proof (val256_range (take k' rest)). nia.
Qed.

Lemma b58_size n : 256 ^ Z.of_nat n < 58 ^ expected_encoded_size n.
Proof.
  unfold expected_encoded_size. rewrite Z.shiftr_div_pow2 by lia. change (2 ^ 8) with 256.
  set (N := Z.of_nat n). set (k := N * 350 / 256).
  assert (0 <= k) by (apply Z.div_pos; lia).
  pose proof (Z.div_mod (N * 350) 256 ltac:(lia)). pose proof (Z.mod_pos_bound (N * 350) 256 ltac:(lia)).
  assert (256 ^ 256 <= 58 ^ 350) as Hbase by (vm_compute; discriminate).
  apply (Z.pow_lt_mono_l_iff _ _ 256); [apply Z.pow_nonneg; lia|apply Z.pow_nonneg; lia|lia|].
  rewrite <- !Z.pow_mul_r by lia.
  apply Z.le_lt_trans with (58 ^ (350 * N)).
  - rewrite (Z.mul_comm N 256), !Z.pow_mul_r by lia. apply Z.pow_le_mono_l. split; [lia|exact Hbase].
  - apply Z.pow_lt_mono_r; lia.
Qed.

Lemma canonical_length ds :
  canonical ds -> ds <> [] -> 58 ^ (Z.of_nat (length ds) - 1) <= val58 ds.
Proof.
  intros [Hok Hl] Hne. destruct ds as [|d ds _] using rev_ind; [done|].
  specialize (Hl d (last_snoc _ _)). apply Forall_app in Hok as [Hok Hd].
  apply Forall_cons in Hd as [Hd _]. rewrite val58_app, length_app. cbn.
  assert (0 <= val58 ds) by (clear -Hok; induction Hok; cbn [val58]; lia).
  replace (Z.of_nat (length ds + 1) - 1) with (Z.of_nat (length ds)) by lia.
  pose proof (Z.pow_pos_nonneg 58 (Z.of_nat (length ds)) ltac:(lia) ltac:(lia)). nia.
Qed.

(** A number has one such list of digits. *)
Lemma canonical_tail d ds : canonical (d :: ds) -> canonical ds.
Proof.
  intros [Hok Hl]. apply Forall_cons in Hok as [_ Hok]. split; [done|]. intros x Hx. apply Hl. by rewrite last_cons, Hx.
Qed.

Lemma canonical_unique ds ds' : canonical ds -> canonical ds' -> val58 ds = val58 ds' -> ds = ds'.
Proof.
  revert ds'. induction ds as [|d ds IH]; intros [|d' ds'] H1 H2 Hv; [done| | |].
  - pose proof (canonical_length _ H2 ltac:(done)) as Hl. cbn [length val58] in *.
    pose proof (Z.pow_pos_nonneg 58 (Z.of_nat (S (length ds')) - 1) ltac:(lia) ltac:(lia)). lia.
  - pose proof (canonical_length _ H1 ltac:(done)) as Hl. cbn [length val58] in *.
    pose proof (Z.pow_pos_nonneg 58 (Z.of_nat (S (length ds)) - 1) ltac:(lia) ltac:(lia)). lia.
  - pose proof (canonical_ok _ H1) as [Hd _]%Forall_cons. pose proof (canonical_ok _ H2) as [Hd' _]%Forall_cons. cbn [val58] in Hv.
    assert (d = d' /\ val58 ds = val58 ds') as [-> Hv'] by lia. f_equal. apply IH; [by eapply canonical_tail|by eapply canonical_tail|done].
Qed.

Lemma b58_length input :
  Z.of_nat (length input) <= UINT32_MAX ->
  Z.of_nat (length (b58_digits input)) <= expected_encoded_size (length input).
Proof.
  intros Hb. destruct (b58_digits_val input Hb) as [Hv Hc].
  assert (0 < expected_encoded_size (length input)) as He
    by (unfold expected_encoded_size; pose proof (proj2 (Z.shiftr_nonneg (Z.of_nat (length input) * 350) 8) ltac:(lia)); lia).
  destruct (decide (b58_digits input = [])) as [->|Hne]; [cbn; lia|].
  pose proof (canonical_length _ Hc Hne). pose proof (val256_range input). pose proof (b58_size (length input)).
  assert (58 ^ (Z.of_nat (length (b58_digits input)) - 1) < 58 ^ expected_encoded_size (length input)) as Hlt
    by lia.
  apply Z.pow_lt_mono_r_iff in Hlt; lia.
Qed.

(** The base-58 digits computed seven bytes at a time in 64-bit arithmetic are the
    canonical digits (each below 58, no leading zero) of the number the input bytes
    spell, and there are never more of them than the space reserved. *)
Theorem b58_digits_correct input :
  Z.of_nat (length input) <= UINT32_MAX ->
  val58 (b58_digits input) = val256 input /\ canonical (b58_digits input) /\
  Z.of_nat (length (b58_digits input)) <= expected_encoded_size (length input).
Proof.
  intros Hb. destruct (b58_digits_val input Hb). split; [done|]. split; [done|by apply b58_length].
Qed.

Section public_key.
  Context (HIVE_ADDRESS_PREFIX : list ascii) (ripemd160_word0 : list ascii -> Z).

Definition le32 (z : Z) : list ascii :=
  [byte_of z; byte_of (Z.shiftr z 8); byte_of (Z.shiftr z 16); byte_of (Z.shiftr z 24)].

Definition public_key_size_buffer : nat := 51 + length HIVE_ADDRESS_PREFIX + 1.

(** [into_buf]: what is written, for the 33 bytes of a key. *)
Definition public_key_into_buf (buffer_size : nat) (key_data : list ascii) :
    outcome string (list ascii) :=
  if (buffer_size <? public_key_size_buffer)%nat
  then Throw "Could not write hive::protocol::public_key_type: buffer too small."%string
  else
    let check := u32 (ripemd160_word0 key_data) in
    Ok (HIVE_ADDRESS_PREFIX ++ encode (key_data ++ le32 check)).

(** For a 33-byte key the text with its prefix and terminating zero fits into the
    buffer size_buffer asks for, whatever the key and its checksum. *)
Theorem public_key_fits buffer_size key_data text :
  length key_data = 33%nat -> public_key_into_buf buffer_size key_data = Ok text ->
  (length text <= public_key_size_buffer <= buffer_size)%nat.
Proof.
  intros Hk. unfold public_key_into_buf. case_match eqn:E; [done|]. apply Nat.ltb_ge in E.
  intros [= <-]. split; [|done]. unfold encode, public_key_size_buffer.
  rewrite !length_app, length_map, length_rev. cbn [length].
  set (data := key_data ++ le32 (u32 (ripemd160_word0 key_data))).
  assert (length data = 37%nat) as Hd by (unfold data; rewrite length_app, Hk; done).
  pose proof (b58_length data) as Hl. rewrite Hd in Hl.
  specialize (Hl ltac:(unfold UINT32_MAX; lia)). change (expected_encoded_size 37) with 51 in Hl. lia.
Qed.

End public_key.

Module ConversionExamples.

(** The base-58 text of "Hello World!". *)
Lemma b58_digits_correct_witness :
  val58 (b58_digits (lit "Hello World!")) = val256 (lit "Hello World!") /\
  encode (lit "Hello World!") = lit "2NEpo7TZRRrLZSi2U" ++ [NUL].
Proof.
  split; [|vm_compute; reflexivity].
  apply (b58_digits_correct (lit "Hello World!")). unfold UINT32_MAX. cbn. lia.
Defined.

(** The worst case: a key and checksum of all ones. *)
Definition key : list ascii := replicate 33 (byte_of 255).

Lemma public_key_fits_witness :
  exists text, public_key_into_buf (lit "STM") (fun _ => 4294967295) 55 key = Ok text /\
    (length text <= 55 <= 55)%nat.
Proof.
  eexists. split; [reflexivity|].
  apply (public_key_fits (lit "STM") (fun _ => 4294967295) 55 key); [reflexivity|reflexivity].
Defined.

End ConversionExamples.
