(* ===== verification/Calendar.v ===== *)
(** * Times as ISO 8601 text

    Models [string_traits< fc::time_point_sec >] of [pqxx_conversions.hpp]: the
    conversion of seconds since 1970 into a date and a time of day without calls
    into the C library, and the text written for it.

    The reference is the Gregorian calendar itself: [next_date] is the day after a
    date. *)

From S2P Require Import Prelude Text.
From Stdlib Require Import ZArith Lia Ascii String.
From stdpp Require Import base list strings gmap sorting.

Open Scope Z_scope.

(** ** [to_ymd_hms], with its 32-bit arithmetic *)

Definition civil_from_days (days : Z) : Z * Z * Z :=
  let z := u32 (days + 719468) in
  let era := z / 146097 in
  let doe := u32 (z - era * 146097) in
  let yoe := u32 (doe - doe / 1460 + doe / 36524 - doe / 146096) / 365 in
  let y := u32 (yoe + era * 400) in
  let doy := u32 (doe - (365 * yoe + yoe / 4 - yoe / 100)) in
  let mp := (5 * doy + 2) / 153 in
  let d := u32 (doy - (153 * mp + 2) / 5 + 1) in
  let m := u32 (mp + (if mp <? 10 then 3 else -9)) in
  (u32 (y + (if m <=? 2 then 1 else 0)), m, d).

Definition to_ymd_hms (seconds_since_epoch : Z) : (Z * Z * Z) * (Z * Z * Z) :=
  let seconds_since_day := seconds_since_epoch mod 86400 in
  let hours := seconds_since_day / 3600 in
  let seconds_since_hour := seconds_since_day mod 3600 in
  (civil_from_days (seconds_since_epoch / 86400),
   (hours, seconds_since_hour / 60, seconds_since_hour mod 60)).

(** [write_two_digits]: two characters of the table at [2 * n]. *)
Definition two_digits_table : list ascii :=
  lit "00010203040506070809" ++ lit "10111213141516171819" ++ lit "20212223242526272829" ++
  lit "30313233343536373839" ++ lit "40414243444546474849" ++ lit "50515253545556575859" ++
  lit "60616263646566676869" ++ lit "70717273747576777879" ++ lit "80818283848586878889" ++
  lit "90919293949596979899".

Definition write_two_digits (n : Z) : list ascii :=
  take 2 (drop (2 * Z.to_nat n) two_digits_table).

(** [into_buf]: the text with its terminating zero. *)
Definition time_into_buf (buffer_size : nat) (seconds : Z) : outcome string (list ascii) :=
  if (buffer_size <? 20)%nat
  then Throw "Could not write fc::time_point_sec: buffer too small."%string
  else
    let '((year, month, day), (hour, minute, second)) := to_ymd_hms seconds in
    Ok (write_two_digits (year / 100) ++ write_two_digits (year mod 100) ++ lit "-" ++
        write_two_digits month ++ lit "-" ++ write_two_digits day ++ lit "T" ++
        write_two_digits hour ++ lit ":" ++ write_two_digits minute ++ lit ":" ++
        write_two_digits second ++ [NUL]).

(** ** The calendar *)

Definition leap (y : Z) : bool :=
  (y mod 4 =? 0) && (negb (y mod 100 =? 0) || (y mod 400 =? 0)).

Definition month_days (y m : Z) : Z :=
  if m =? 2 then (if leap y then 29 else 28)
  else if (m =? 4) || (m =? 6) || (m =? 9) || (m =? 11) then 30 else 31.

Definition next_date (date : Z * Z * Z) : Z * Z * Z :=
  let '(y, m, d) := date in
  if d <? month_days y m then (y, m, d + 1)
  else if m <? 12 then (y, m + 1, 1)
  else (y + 1, 1, 1).

Definition valid_date (date : Z * Z * Z) : Prop :=
  let '(y, m, d) := date in 1 <= m <= 12 /\ 1 <= d <= month_days y m.

(** ** Years that begin in March

    Year [y] of a 400-year era begins [year_start y] days into it and has
    [year_length y] days; a date is determined by the era, the year in it and the
    day in that year. *)

Definition year_start (y : Z) : Z := 365 * y + y / 4 - y / 100.
Definition year_length (y : Z) : Z :=
  if y =? 399 then 366 else year_start (y + 1) - year_start y.

Definition month_of (r : Z) : Z :=
  let mp := (5 * r + 2) / 153 in if mp <? 10 then mp + 3 else mp - 9.
Definition day_of (r : Z) : Z := r - (153 * ((5 * r + 2) / 153) + 2) / 5 + 1.

Definition date_of (era y r : Z) : Z * Z * Z :=
  (y + era * 400 + (if month_of r <=? 2 then 1 else 0), month_of r, day_of r).

(** The day count of the era with its leap days taken out, as the code does. *)
Definition without_leap_days (doe : Z) : Z := doe - doe / 1460 + doe / 36524 - doe / 146096.

Lemma without_leap_days_mono a b :
  0 <= a <= b -> b < 146097 -> without_leap_days a <= without_leap_days b.
Proof.
  intros Hab Hb. unfold without_leap_days.
  pose proof (Z.div_mod a 1460 ltac:(lia)). pose proof (Z.mod_pos_bound a 1460 ltac:(lia)).
  pose proof (Z.div_mod b 1460 ltac:(lia)). pose proof (Z.mod_pos_bound b 1460 ltac:(lia)).
  pose proof (Z.div_mod a 36524 ltac:(lia)). pose proof (Z.mod_pos_bound a 36524 ltac:(lia)).
  pose proof (Z.div_mod b 36524 ltac:(lia)). pose proof (Z.mod_pos_bound b 36524 ltac:(lia)).
  pose proof (Z.div_mod a 146096 ltac:(lia)). pose proof (Z.mod_pos_bound a 146096 ltac:(lia)).
  pose proof (Z.div_mod b 146096 ltac:(lia)). pose proof (Z.mod_pos_bound b 146096 ltac:(lia)).
  lia.
Qed.

Definition upto (n : nat) : list Z := map Z.of_nat (seq 0 n).

Lemma check_upto (n : nat) (P : Z -> bool) :
  forallb P (upto n) = true -> forall z, 0 <= z < Z.of_nat n -> P z = true.
Proof.
  intros H z Hz. rewrite forallb_forall in H. apply H. apply in_map_iff.
  exists (Z.to_nat z). split; [lia|]. apply in_seq. lia.
Qed.

(** The first and the last day of each year are put into that year. *)
Lemma year_ends y :
  0 <= y < 400 ->
  without_leap_days (year_start y) / 365 = y /\
  without_leap_days (year_start y + year_length y - 1) / 365 = y /\
  365 <= year_length y <= 366 /\ 0 <= year_start y /\ year_start y + year_length y <= 146097 /\
  (year_length y =? 366) = leap (y + 1).
Proof.
  intros Hy.
  pose proof (check_upto 400 (fun y =>
    (without_leap_days (year_start y) / 365 =? y) &&
    (without_leap_days (year_start y + year_length y - 1) / 365 =? y) &&
    (365 <=? year_length y) && (year_length y <=? 366) && (0 <=? year_start y) &&
    (year_start y + year_length y <=? 146097) &&
    Bool.eqb (year_length y =? 366) (leap (y + 1))) ltac:(vm_compute; reflexivity) y Hy) as H.
  cbv beta in H. rewrite !andb_true_iff, Bool.eqb_true_iff in H.
  destruct H as [H Hleap]. split_and!; lia || done.
Qed.

Lemma year_of_day y r :
  0 <= y < 400 -> 0 <= r < year_length y ->
  without_leap_days (year_start y + r) / 365 = y.
Proof.
  intros Hy Hr. destruct (year_ends y Hy) as (H1 & H2 & H3 & H4 & H5 & _).
  pose proof (without_leap_days_mono (year_start y) (year_start y + r) ltac:(lia) ltac:(lia)) as M1.
  pose proof (without_leap_days_mono (year_start y + r) (year_start y + year_length y - 1)
    ltac:(lia) ltac:(lia)) as M2.
  apply (Z.div_le_mono _ _ 365) in M1; [|lia]. apply (Z.div_le_mono _ _ 365) in M2; [|lia]. lia.
Qed.

(** Every day of an era is in one of its years. *)
Lemma day_in_year doe :
  0 <= doe < 146097 ->
  exists y r, 0 <= y < 400 /\ 0 <= r < year_length y /\ doe = year_start y + r.
Proof.
  intros Hd.
  assert (forall k : nat, (k <= 400)%nat ->
    doe < year_start (Z.of_nat k) \/ k = 400%nat ->
    exists y r, 0 <= y < 400 /\ 0 <= r < year_length y /\ doe = year_start y + r) as H.
  { induction k as [|k IH]; intros Hk Hlt.
    - exfalso. destruct Hlt as [Hlt|]; [|lia]. change (year_start (Z.of_nat 0)) with 0 in Hlt. lia.
    - destruct (Z.lt_ge_cases doe (year_start (Z.of_nat k))) as [Hl|Hl]; [apply IH; [lia|by left]|].
      exists (Z.of_nat k), (doe - year_start (Z.of_nat k)). split; [lia|]. split; [|lia].
      unfold year_length. destruct (Z.eqb_spec (Z.of_nat k) 399) as [E|E].
      + rewrite E in *. change (year_start 399) with 145731 in *. lia.
      + replace (Z.of_nat k + 1) with (Z.of_nat (S k)) by lia. destruct Hlt; lia. }
  apply (H 400%nat); [lia|by right].
Qed.

Lemma month_day_ranges r :
  0 <= r < 366 ->
  0 <= (5 * r + 2) / 153 < 12 /\ 1 <= month_of r <= 12 /\ 1 <= day_of r <= 31 /\
  0 <= (153 * ((5 * r + 2) / 153) + 2) / 5 <= r.
Proof.
  intros Hr.
  pose proof (check_upto 366 (fun r => (0 <=? (5 * r + 2) / 153) && ((5 * r + 2) / 153 <? 12) &&
    (1 <=? month_of r) && (month_of r <=? 12) && (1 <=? day_of r) && (day_of r <=? 31) &&
    (0 <=? (153 * ((5 * r + 2) / 153) + 2) / 5) && ((153 * ((5 * r + 2) / 153) + 2) / 5 <=? r))
    ltac:(vm_compute; reflexivity) r Hr) as H.
  cbv beta in H. rewrite !andb_true_iff in H. lia.
Qed.

(** The code computes the date of its era, year and day. *)
Lemma civil_from_days_date days era y r :
  0 <= days <= 49710 -> 0 <= y < 400 -> 0 <= r < year_length y ->
  days + 719468 = era * 146097 + year_start y + r ->
  civil_from_days days = date_of era y r.
Proof.
  intros Hdays Hy Hr Hz. destruct (year_ends y Hy) as (_ & _ & Hlen & Hs & He & _).
  pose proof (year_of_day y r Hy Hr) as Hyoe.
  destruct (month_day_ranges r ltac:(lia)) as (Hmp & Hm & Hd & Hdd).
  unfold civil_from_days. rewrite (u32_small (days + 719468)) by (unfold UINT32_MAX; lia).
  assert ((days + 719468) / 146097 = era) as ->
    by (symmetry; apply (Z.div_unique _ _ _ (year_start y + r)); lia).
  replace (days + 719468 - era * 146097) with (year_start y + r) by lia.
  rewrite (u32_small (year_start y + r)) by (unfold UINT32_MAX; lia).
  fold (without_leap_days (year_start y + r)).
  assert (0 <= without_leap_days (year_start y + r) <= UINT32_MAX) as Hw.
  { pose proof (without_leap_days_mono 0 (year_start y + r) ltac:(lia) ltac:(lia)) as M1.
    pose proof (without_leap_days_mono (year_start y + r) 146096 ltac:(lia) ltac:(lia)) as M2.
    change (without_leap_days 0) with 0 in M1. change (without_leap_days 146096) with 145999 in M2.
    unfold UINT32_MAX. lia. }
  rewrite (u32_small (without_leap_days _)) by done. rewrite Hyoe.
  fold (year_start y). replace (year_start y + r - year_start y) with r by lia.
  assert (0 <= era <= 6) by lia.
  rewrite (u32_small r), (u32_small (y + era * 400)) by (unfold UINT32_MAX; lia).
  assert (u32 ((5 * r + 2) / 153 + (if (5 * r + 2) / 153 <? 10 then 3 else -9)) = month_of r) as ->.
  { unfold month_of in *. destruct (_ <? 10); apply u32_small; unfold UINT32_MAX; lia. }
  fold (day_of r). unfold date_of.
  rewrite !u32_small; [done|unfold UINT32_MAX; lia|]. unfold UINT32_MAX. case_match; lia.
Qed.

(** ** One day later *)

(** Inside a March year, up to the 28th of February, the day after is in the same
    month or is the first of the next one. *)
Lemma month_step r :
  0 <= r < 364 ->
  (month_of (r + 1) = month_of r /\ day_of (r + 1) = day_of r + 1 /\
   forall y, day_of r < month_days y (month_of r)) \/
  (month_of r <> 2 /\ day_of (r + 1) = 1 /\ month_of (r + 1) = month_of r mod 12 + 1 /\
   forall y, day_of r = month_days y (month_of r)).
Proof.
  intros Hr.
  pose proof (check_upto 364 (fun r =>
    ((month_of (r + 1) =? month_of r) && (day_of (r + 1) =? day_of r + 1) &&
     (day_of r <? month_days 1 (month_of r))) ||
    (negb (month_of r =? 2) && (day_of (r + 1) =? 1) && (month_of (r + 1) =? month_of r mod 12 + 1) &&
     (day_of r =? month_days 1 (month_of r)))) ltac:(vm_compute; reflexivity) r Hr) as H.
  cbv beta in H. rewrite orb_true_iff, !andb_true_iff, negb_true_iff in H.
  assert (forall y, month_days 1 (month_of r) <= month_days y (month_of r)) as Hge.
  { intros y. unfold month_days. change (leap 1) with false. destruct (_ =? 2); [|lia].
    destruct (leap y); lia. }
  destruct H as [H|H]; [left|right]; (split_and!; [lia..|]); intros y.
  - specialize (Hge y). lia.
  - unfold month_days in *. destruct (month_of r =? 2); [lia|lia].
Qed.

Lemma leap_shift y era : leap (y + era * 400) = leap y.
Proof.
  unfold leap. replace (y + era * 400) with (y + (era * 100) * 4) at 1 by lia.
  replace (y + era * 400) with (y + (era * 4) * 100) at 1 by lia. rewrite !Z.mod_add by lia. done.
Qed.

Lemma next_feb28 y : next_date (y, 2, 28) = if leap y then (y, 2, 29) else (y, 3, 1).
Proof. unfold next_date, month_days. by destruct (leap y). Qed.

Lemma next_feb29 y : leap y = true -> next_date (y, 2, 29) = (y, 3, 1).
Proof. intros H. unfold next_date, month_days. by rewrite H. Qed.

Lemma date_feb28 era y : date_of era y 364 = (y + 1 + era * 400, 2, 28).
Proof.
  unfold date_of. change (month_of 364) with 2. change (day_of 364) with 28.
  apply (f_equal (fun v => (v, 2, 28))). change (if 2 <=? 2 then 1 else 0) with 1. lia.
Qed.

Lemma date_feb29 era y : date_of era y 365 = (y + 1 + era * 400, 2, 29).
Proof.
  unfold date_of. change (month_of 365) with 2. change (day_of 365) with 29.
  apply (f_equal (fun v => (v, 2, 29))). change (if 2 <=? 2 then 1 else 0) with 1. lia.
Qed.

Lemma next_same_year era y r :
  0 <= y < 400 -> 0 <= r -> r + 1 < year_length y ->
  next_date (date_of era y r) = date_of era y (r + 1).
Proof.
  intros Hy Hr Hl. destruct (year_ends y Hy) as (_ & _ & Hlen & _ & _ & Hleap).
  destruct (decide (r < 364)) as [Hr4|Hr4].
  - unfold next_date, date_of. destruct (month_day_ranges r ltac:(lia)) as (_ & Hm & Hd & _).
    destruct (month_step r ltac:(lia)) as [(Hm1 & Hd1 & Hlt)|(Hn2 & Hd1 & Hm1 & Heq)].
    + rewrite Hm1, Hd1. set (Y := y + era * 400 + _). specialize (Hlt Y).
      apply Z.ltb_lt in Hlt. by rewrite Hlt.
    + set (Y := y + era * 400 + (if month_of r <=? 2 then 1 else 0)). rewrite (Heq Y) at 1.
      rewrite Z.ltb_irrefl, Hd1, Hm1. destruct (Z.ltb_spec (month_of r) 12).
      * rewrite (Z.mod_small (month_of r)) by lia. unfold Y.
        destruct (Z.leb_spec (month_of r) 2), (Z.leb_spec (month_of r + 1) 2);
          solve [done|exfalso; lia].
      * assert (month_of r = 12) as E12 by lia. unfold Y. rewrite E12. cbn.
        apply (f_equal (fun v => (v, 1, 1))). change (if 12 mod 12 + 1 <=? 2 then 1 else 0) with 1. lia.
  - assert (r = 364) as -> by lia. assert (year_length y =? 366 = true) as E by lia.
    rewrite E in Hleap.
    change (next_date (date_of era y 364) = date_of era y 365).
    by rewrite date_feb28, date_feb29, next_feb28, leap_shift, <- Hleap.
Qed.

Lemma next_new_year era y r :
  0 <= y < 400 -> r + 1 = year_length y ->
  next_date (date_of era y r) = (y + 1 + era * 400, 3, 1).
Proof.
  intros Hy Hl. destruct (year_ends y Hy) as (_ & _ & Hlen & _ & _ & Hleap).
  assert (r = 364 \/ r = 365) as [->| ->] by lia.
  - assert (year_length y =? 366 = false) as E by lia. rewrite E in Hleap.
    by rewrite date_feb28, next_feb28, leap_shift, <- Hleap.
  - assert (year_length y =? 366 = true) as E by lia. rewrite E in Hleap.
    by rewrite date_feb29, next_feb29 by by rewrite leap_shift.
Qed.

Lemma next_date_valid date : valid_date date -> valid_date (next_date date).
Proof.
  destruct date as [[y m] d]. unfold valid_date, next_date. intros [Hm Hd].
  assert (forall y m, 28 <= month_days y m) as Hmin
    by (intros; unfold month_days; repeat case_match; lia).
  destruct (Z.ltb_spec d (month_days y m)); [lia|].
  destruct (Z.ltb_spec m 12); [specialize (Hmin y (m + 1))|specialize (Hmin (y + 1) 1)]; lia.
Qed.

Lemma civil_next days :
  0 <= days < 49710 -> civil_from_days (days + 1) = next_date (civil_from_days days).
Proof.
  intros Hd. set (z := days + 719468). set (era := z / 146097).
  pose proof (Z.div_mod z 146097 ltac:(lia)) as Hz. pose proof (Z.mod_pos_bound z 146097 ltac:(lia)) as Hm.
  fold era in Hz. destruct (day_in_year (z mod 146097) Hm) as (y & r & Hy & Hr & He).
  rewrite (civil_from_days_date days era y r) by lia.
  destruct (Z.lt_ge_cases (r + 1) (year_length y)) as [Hl|Hl].
  - rewrite next_same_year by lia. apply civil_from_days_date; lia.
  - rewrite next_new_year by lia. destruct (decide (y = 399)) as [->|Hne].
    + rewrite (civil_from_days_date (days + 1) (era + 1) 0 0); [|lia|lia|vm_compute; done|].
      * unfold date_of. change (month_of 0) with 3. change (day_of 0) with 1. cbn.
        apply (f_equal (fun v => (v, 3, 1))). lia.
      * change (year_start 399) with 145731 in He. change (year_length 399) with 366 in *.
        change (year_start 0) with 0. lia.
    + rewrite (civil_from_days_date (days + 1) era (y + 1) 0); [|lia|lia| |].
      * unfold date_of. change (month_of 0) with 3. change (day_of 0) with 1. cbn.
        apply (f_equal (fun v => (v, 3, 1))). lia.
      * destruct (year_ends (y + 1) ltac:(lia)) as (_ & _ & ? & _). lia.
      * unfold year_length in *. destruct (Z.eqb_spec y 399); lia.
Qed.

(** Day by day, from the 1st of January 1970. *)
Lemma civil_calendar days :
  0 <= days <= 49710 ->
  civil_from_days days = Nat.iter (Z.to_nat days) next_date (1970, 1, 1) /\
  valid_date (civil_from_days days).
Proof.
  intros Hd. assert (forall n : nat, Z.of_nat n <= 49710 ->
    civil_from_days (Z.of_nat n) = Nat.iter n next_date (1970, 1, 1) /\
    valid_date (civil_from_days (Z.of_nat n))) as H.
  { induction n as [|n IH]; intros Hn; [vm_compute; split_and!; done|].
    destruct (IH ltac:(lia)) as [IH1 IH2]. replace (Z.of_nat (S n)) with (Z.of_nat n + 1) by lia.
    rewrite civil_next by lia. split; [|by apply next_date_valid].
    rewrite IH1. reflexivity. }
  rewrite <- (Z2Nat.id days) by lia. rewrite Nat2Z.id. apply H. lia.
Qed.

(** C39: The date computed for a day is the calendar date: day 0 is the 1st of January
    1970, and every later day that 32 bits of seconds can name is the day after the
    previous one and a day its month has. *)
Theorem civil_from_days_is_the_calendar days :
  0 <= days <= 49710 ->
  civil_from_days days = Nat.iter (Z.to_nat days) next_date (1970, 1, 1) /\
  valid_date (civil_from_days days).
Proof. apply civil_calendar. Qed.

Lemma two_digits n : 0 <= n < 100 -> write_two_digits n = setw 2 "0" (dec n).
Proof.
  intros Hn. cut (bool_decide (write_two_digits n = setw 2 "0" (dec n)) = true);
    [apply bool_decide_eq_true|].
  revert n Hn.
  apply (check_upto 100 (fun n => bool_decide (write_two_digits n = setw 2 "0" (dec n)))).
  vm_compute. reflexivity.
Qed.

Lemma four_digits n :
  0 <= n < 2401 -> write_two_digits (n / 100) ++ write_two_digits (n mod 100) = setw 4 "0" (dec n).
Proof.
  intros Hn.
  cut (bool_decide (write_two_digits (n / 100) ++ write_two_digits (n mod 100) =
    setw 4 "0" (dec n)) = true); [apply bool_decide_eq_true|].
  revert n Hn. apply (check_upto 2401 (fun n => bool_decide
    (write_two_digits (n / 100) ++ write_two_digits (n mod 100) = setw 4 "0" (dec n)))).
  vm_compute. reflexivity.
Qed.

Lemma length_two_digits n : 0 <= n < 100 -> length (write_two_digits n) = 2%nat.
Proof.
  intros Hn. unfold write_two_digits. rewrite length_take, length_drop.
  change (length two_digits_table) with 200%nat. lia.
Qed.

Lemma length_setw2 n : 0 <= n < 100 -> length (setw 2 "0" (dec n)) = 2%nat.
Proof. intros. by rewrite <- two_digits, length_two_digits. Qed.

Lemma length_setw4 n : 0 <= n < 2401 -> length (setw 4 "0" (dec n)) = 4%nat.
Proof.
  intros. rewrite <- four_digits by done. rewrite length_app, !length_two_digits; [done|..].
  - apply Z.mod_pos_bound. lia.
  - split; [apply Z.div_pos; lia|apply Z.div_lt_upper_bound; lia].
Qed.

Lemma civil_ranges days :
  0 <= days <= 49710 ->
  let '(y, m, d) := civil_from_days days in 0 <= y < 2401 /\ 1 <= m <= 12 /\ 1 <= d <= 31.
Proof.
  intros Hd. set (z := days + 719468). set (era := z / 146097).
  pose proof (Z.div_mod z 146097 ltac:(lia)) as Hz. pose proof (Z.mod_pos_bound z 146097 ltac:(lia)) as Hm.
  fold era in Hz. destruct (day_in_year (z mod 146097) Hm) as (y & r & Hy & Hr & He).
  destruct (year_ends y Hy) as (_ & _ & Hlen & _).
  destruct (month_day_ranges r ltac:(lia)) as (_ & Hmo & Hda & _).
  rewrite (civil_from_days_date days era y r) by lia. unfold date_of.
  split_and!; try lia; case_match; lia.
Qed.

(** For every 32-bit time the text has the form YYYY-MM-DDTHH:MM:SS with decimal
    fields padded with zeros, 20 bytes with its terminator; the date is that of the
    day and the time of day is what is left of it, hours below 24, minutes and
    seconds below 60. *)
Theorem time_text_correct seconds :
  0 <= seconds <= UINT32_MAX ->
  exists y m d hh mm ss text,
    civil_from_days (seconds / 86400) = (y, m, d) /\
    seconds = seconds / 86400 * 86400 + hh * 3600 + mm * 60 + ss /\
    0 <= hh < 24 /\ 0 <= mm < 60 /\ 0 <= ss < 60 /\
    time_into_buf 20 seconds = Ok text /\ length text = 20%nat /\
    text = setw 4 "0" (dec y) ++ lit "-" ++ setw 2 "0" (dec m) ++ lit "-" ++ setw 2 "0" (dec d) ++
      lit "T" ++ setw 2 "0" (dec hh) ++ lit ":" ++ setw 2 "0" (dec mm) ++ lit ":" ++
      setw 2 "0" (dec ss) ++ [NUL].
Proof.
  intros Hs. pose proof (civil_ranges (seconds / 86400)) as Hr.
  pose proof (Z.div_mod seconds 86400 ltac:(lia)) as H1.
  pose proof (Z.mod_pos_bound seconds 86400 ltac:(lia)) as H2.
  set (sd := seconds mod 86400) in *.
  pose proof (Z.div_mod sd 3600 ltac:(lia)) as H3. pose proof (Z.mod_pos_bound sd 3600 ltac:(lia)) as H4.
  set (sh := sd mod 3600) in *.
  pose proof (Z.div_mod sh 60 ltac:(lia)) as H5. pose proof (Z.mod_pos_bound sh 60 ltac:(lia)) as H6.
  assert (0 <= seconds / 86400 <= 49710) as Hd.
  { unfold UINT32_MAX in Hs. lia. }
  specialize (Hr Hd). destruct (civil_from_days (seconds / 86400)) as [[y m] d] eqn:E.
  exists y, m, d, (sd / 3600), (sh / 60), (sh mod 60). eexists.
  split_and!; [done|lia|lia|lia|lia|lia|lia|lia| | |done].
  - unfold time_into_buf, to_ymd_hms. fold sd. fold sh. rewrite E. cbn [Nat.ltb Nat.leb].
    f_equal. rewrite app_assoc, four_digits, !two_digits by lia. done.
  - rewrite !length_app, length_setw4, !length_setw2 by lia. done.
Qed.

Module CalendarExamples.

Lemma civil_from_days_is_the_calendar_witness :
  civil_from_days 424 = Nat.iter 424 next_date (1970, 1, 1) /\ valid_date (1971, 3, 1).
Proof. apply (civil_from_days_is_the_calendar 424). lia. Defined.

Lemma time_text_correct_witness :
  exists text, time_into_buf 20 1709210096 = Ok text /\ text = lit "2024-02-29T12:34:56" ++ [NUL].
Proof.
  destruct (time_text_correct 1709210096) as (y & m & d & hh & mm & ss & text & _ & _ & _ & _ & _ & Ht & _);
    [unfold UINT32_MAX; lia|].
  exists text. split; [exact Ht|]. vm_compute in Ht. injection Ht as <-. vm_compute. reflexivity.
Defined.

End CalendarExamples.
