(* ===== verification/SqlText.v ===== *)
(** * SQL literals and rows as text

    Models [data_2_sql_tuple_base.cpp] (literals), the row converters
    [data2sql_tuple] of [tables_descriptions.h], and the two implementations of
    [strip_json_null_escapes] ([tables_descriptions.cpp] and the PostgreSQL
    function in [hive_fork_manager/shared_lib]).

    How PostgreSQL reads an escape string constant is written down as
    [read_escape_string]; [fc::decodeUtf8] and [fc::to_hex] are parameters. *)

From S2P Require Import Prelude Text CachedData Conversions.
From Stdlib Require Import ZArith Lia Ascii String.
From stdpp Require Import base list strings gmap sorting.

Open Scope Z_scope.

Definition QUOTE : ascii := "'"%char.

Definition is_char (c d : ascii) : bool := bool_decide (c = d).

(** ** [sql_to_hex] *)

Definition sql_to_hex (d : list ascii) : list ascii :=
  lit "'\x" ++ concat (map hex2 d) ++ lit "'".

(** ** [escape_sql] *)

Section escape.
  Context (decodeUtf8 : list ascii -> list Z) (to_hex : ascii -> list ascii).

Definition printable (c : ascii) : bool := negb ((byte_val c <? 32) || (126 <? byte_val c)).

(** The characters both paths write as octal escapes. *)
Definition escape_ascii (c : ascii) : list ascii :=
  if is_char c BACKSLASH then lit "\134"
  else if is_char c QUOTE then lit "\047"
  else if is_char c "%"%char then lit "\045"
  else if is_char c "_"%char then lit "\137"
  else if is_char c ":"%char then lit "\072"
  else [c].

(** [u_code]: the bytes of the code point, the most significant one that is needed
    first. *)
Definition u_code (i_c : Z) : list ascii :=
  let one (b : bool) := if b then 1%nat else 0%nat in
  let n := (one (255 <? i_c)%Z + one (65535 <? i_c)%Z + one (16777215 <? i_c)%Z)%nat in
  concat (map (fun s => to_hex (byte_of (Z.shiftr i_c (8 * Z.of_nat s)))) (rev (seq 0 (S n)))).

Definition unicode_escape (i_c : Z) : list ascii :=
  let u := u_code i_c in
  if 65535 <? i_c then lit "\U" ++ replicate (8 - length u) "0"%char ++ u
  else lit "\u" ++ replicate (4 - length u) "0"%char ++ u.

(** [code > 0 && code <= 0x7F && isprint( code )] in the C locale. *)
Definition isprint (code : Z) : bool := (32 <=? code) && (code <=? 126).

(** One code point of the slow path.  The branches for line breaks are never taken:
    they are not printable. *)
Definition escape_code (code : Z) : list ascii :=
  (if code =? 0 then lit " " else []) ++
  (if isprint code then escape_ascii (byte_of code) else unicode_escape code).

Definition escape_sql (text : list ascii) : list ascii :=
  match text with
  | [] => lit "E''"
  | _ =>
      if forallb printable text
      then lit "E'" ++ concat (map escape_ascii text) ++ [QUOTE]
      else lit "E'" ++ concat (map escape_code (decodeUtf8 text)) ++ [QUOTE]
  end.

(** ** Reading an escape string constant

    What follows [E'] up to the closing quote, as code points, and what is left. *)

Fixpoint hex_number (acc : Z) (l : list ascii) : option Z :=
  match l with
  | [] => Some acc
  | c :: l' => if nibble c <? 0 then None else hex_number (acc * 16 + nibble c) l'
  end.

Definition octal_digit (c : ascii) : option Z :=
  if (48 <=? byte_val c) && (byte_val c <=? 55) then Some (byte_val c - 48) else None.

Definition add_code (code : option Z) (r : option (list Z * list ascii)) :
    option (list Z * list ascii) :=
  match code, r with Some z, Some (codes, rest) => Some (z :: codes, rest) | _, _ => None end.

Fixpoint read_escape_string (l : list ascii) : option (list Z * list ascii) :=
  match l with
  | [] => None
  | c :: l1 =>
      if is_char c QUOTE then Some ([], l1)
      else if is_char c BACKSLASH then
        match l1 with
        | k :: a :: b :: l2 =>
            if is_char k "u"%char then
              match l2 with
              | c3 :: d :: l3 => add_code (hex_number 0 [a; b; c3; d]) (read_escape_string l3)
              | _ => None
              end
            else if is_char k "U"%char then
              match l2 with
              | c3 :: d :: e :: f :: g :: h :: l3 =>
                  add_code (hex_number 0 [a; b; c3; d; e; f; g; h]) (read_escape_string l3)
              | _ => None
              end
            else
              match octal_digit k, octal_digit a, octal_digit b with
              | Some o1, Some o2, Some o3 => add_code (Some (o1 * 64 + o2 * 8 + o3)) (read_escape_string l2)
              | _, _, _ => None
              end
        | _ => None
        end
      else add_code (Some (byte_val c)) (read_escape_string l1)
  end.

(** The documented behaviour of [fc::to_hex] for one byte: its two hexadecimal digits. *)
Hypothesis to_hex_ok : forall c, to_hex c = hex2 c.

Lemma read_escape_ascii c rest :
  printable c = true ->
  read_escape_string (escape_ascii c ++ rest) = add_code (Some (byte_val c)) (read_escape_string rest).
Proof.
  intros Hp. unfold escape_ascii, is_char. repeat case_bool_decide; subst; try reflexivity.
  cbn. unfold is_char. by rewrite !bool_decide_false by done.
Qed.

Lemma nibble_hex_digit d : 0 <= d < 16 -> nibble (hex_digit d) = d.
Proof.
  intros Hd. assert (forallb (fun d => nibble (hex_digit d) =? d) (map Z.of_nat (seq 0 16)) = true) as H
    by (vm_compute; reflexivity).
  rewrite forallb_forall in H. apply Z.eqb_eq, H, in_map_iff. exists (Z.to_nat d).
  split; [lia|]. apply in_seq. lia.
Qed.

Lemma hex_number_app acc l1 l2 v : hex_number acc l1 = Some v -> hex_number acc (l1 ++ l2) = hex_number v l2.
Proof.
  revert acc. induction l1 as [|c l1 IH]; intros acc; cbn; [by intros [= ->]|].
  case_match; [done|]. apply IH.
Qed.

Lemma hex_number_zeros k l : hex_number 0 (replicate k "0"%char ++ l) = hex_number 0 l.
Proof. induction k; [done|]. cbn. done. Qed.

Lemma hex_number_byte acc z : 0 <= acc -> hex_number acc (hex2 (byte_of z)) = Some (acc * 256 + z mod 256).
Proof.
  intros Ha. unfold hex2. assert (byte_val (byte_of z) = z mod 256) as E.
  { unfold byte_of. pose proof (Z.mod_pos_bound z 256 ltac:(lia)).
    unfold byte_val, wrap_u. change (2 ^ 8) with 256. rewrite N_ascii_embedding; lia. }
  rewrite E. pose proof (Z.mod_pos_bound z 256 ltac:(lia)).
  pose proof (Z.div_mod (z mod 256) 16 ltac:(lia)). pose proof (Z.mod_pos_bound (z mod 256) 16 ltac:(lia)).
  cbn [hex_number]. rewrite !nibble_hex_digit by lia.
  destruct (Z.ltb_spec (z mod 256 / 16) 0); [lia|]. destruct (Z.ltb_spec ((z mod 256) mod 16) 0); [lia|].
  f_equal. lia.
Qed.

Lemma shift_byte i k : 0 <= k -> Z.shiftr i (8 * k) = i / 256 ^ k.
Proof. intros. rewrite Z.shiftr_div_pow2 by lia. by rewrite Z.pow_mul_r by lia. Qed.

Definition bytes_down (i : Z) (k : nat) : list ascii :=
  concat (map (fun s => to_hex (byte_of (Z.shiftr i (8 * Z.of_nat s)))) (rev (seq 0 k))).

Lemma bytes_down_S i k :
  bytes_down i (S k) = hex2 (byte_of (i / 256 ^ Z.of_nat k)) ++ bytes_down i k.
Proof.
  unfold bytes_down. rewrite seq_S, rev_app_distr. cbn [rev app map concat].
  by rewrite to_hex_ok, shift_byte by lia.
Qed.

Lemma length_bytes_down i k : length (bytes_down i k) = (2 * k)%nat.
Proof. induction k as [|k IH]; [done|]. rewrite bytes_down_S, length_app, IH. cbn. lia. Qed.

Lemma bytes_down_number i k acc :
  0 <= acc -> hex_number acc (bytes_down i k) = Some (acc * 256 ^ Z.of_nat k + i mod 256 ^ Z.of_nat k).
Proof.
  revert acc. induction k as [|k IH]; intros acc Ha.
  - cbn. rewrite Z.mod_1_r. f_equal. lia.
  - rewrite bytes_down_S. erewrite hex_number_app by by apply hex_number_byte.
    pose proof (Z.mod_pos_bound (i / 256 ^ Z.of_nat k) 256 ltac:(lia)). rewrite IH by lia. f_equal.
    rewrite Nat2Z.inj_succ, Z.pow_succ_r by lia. rewrite (Z.mul_comm 256 (256 ^ Z.of_nat k)).
    pose proof (Z.pow_pos_nonneg 256 (Z.of_nat k) ltac:(lia) ltac:(lia)).
    rewrite Z.rem_mul_r by lia. lia.
Qed.

(** A code point is written with as many bytes as it needs, two digits each. *)
Lemma u_code_spec i :
  0 <= i < 2 ^ 31 ->
  hex_number 0 (u_code i) = Some i /\
  ((i <= 65535 -> (length (u_code i) <= 4)%nat) /\ (length (u_code i) <= 8)%nat).
Proof.
  intros Hi. unfold u_code. cbv zeta.
  destruct (Z.ltb_spec 255 i), (Z.ltb_spec 65535 i), (Z.ltb_spec 16777215 i); try lia;
    cbn [Nat.add];
    match goal with |- context [seq 0 ?k] => fold (bytes_down i k) end;
    rewrite bytes_down_number, length_bytes_down by lia; rewrite Z.mod_small by (cbn; lia);
    (split; [f_equal; lia|lia]).
Qed.

Lemma pad_number i w :
  0 <= i < 2 ^ 31 -> (length (u_code i) <= w)%nat ->
  let l := replicate (w - length (u_code i)) "0"%char ++ u_code i in
  length l = w /\ hex_number 0 l = Some i.
Proof.
  intros Hi Hl l. unfold l. rewrite length_app, length_replicate, hex_number_zeros.
  split; [lia|]. by apply u_code_spec.
Qed.

Lemma read_unicode_escape i rest :
  0 <= i < 2 ^ 31 ->
  read_escape_string (unicode_escape i ++ rest) = add_code (Some i) (read_escape_string rest).
Proof.
  intros Hi. destruct (u_code_spec i Hi) as (_ & H4 & H8). unfold unicode_escape.
  destruct (Z.ltb_spec 65535 i).
  - destruct (pad_number i 8 Hi H8) as [Hl Hv]. rewrite <- app_assoc.
    set (l := _ ++ u_code i) in *. clearbody l.
    do 8 (destruct l as [|? l]; [done|]). destruct l; [|done]. cbn -[hex_number]. by rewrite Hv.
  - destruct (pad_number i 4 Hi (H4 ltac:(lia))) as [Hl Hv]. rewrite <- app_assoc.
    set (l := _ ++ u_code i) in *. clearbody l.
    do 4 (destruct l as [|? l]; [done|]). destruct l; [|done]. cbn -[hex_number]. by rewrite Hv.
Qed.

Lemma read_escape_code code rest :
  0 < code < 2 ^ 31 ->
  read_escape_string (escape_code code ++ rest) = add_code (Some code) (read_escape_string rest).
Proof.
  intros Hc. unfold escape_code. destruct (Z.eqb_spec code 0); [lia|]. cbn [app].
  destruct (isprint code) eqn:E; [|apply read_unicode_escape; lia].
  unfold isprint in E. rewrite read_escape_ascii.
  - rewrite byte_val_of by lia. done.
  - unfold printable. rewrite byte_val_of by lia. lia.
Qed.

Lemma read_all {X} (esc : X -> list ascii) (code : X -> Z) (l : list X) rest :
  (forall x r, x ∈ l -> read_escape_string (esc x ++ r) = add_code (Some (code x)) (read_escape_string r)) ->
  read_escape_string (concat (map esc l) ++ QUOTE :: rest) = Some (map code l, rest).
Proof.
  induction l as [|x l IH]; intros H; [done|]. cbn [map concat]. rewrite <- app_assoc, H by left.
  rewrite IH; [done|]. intros y r Hy. apply H. by right.
Qed.

(** PostgreSQL reads back from the literal exactly the text that was escaped: its
    bytes when all of them are printable ASCII, its decoded code points otherwise
    (when none of them is zero).  In particular the literal ends where it should:
    no text can close it early and smuggle SQL into the command. *)
Theorem escape_sql_round_trip text :
  Forall (fun code => 0 < code < 2 ^ 31) (decodeUtf8 text) ->
  exists body, escape_sql text = lit "E'" ++ body /\
    read_escape_string body =
      Some (if forallb printable text then map byte_val text else decodeUtf8 text, []).
Proof.
  intros Hc. destruct text as [|c text].
  - exists [QUOTE]. by split.
  - unfold escape_sql. destruct (forallb printable (c :: text)) eqn:E; eexists; (split; [done|]).
    + apply (read_all escape_ascii byte_val). intros x r Hx. apply read_escape_ascii.
      rewrite forallb_forall in E. apply E. by apply list_elem_of_In.
    + rewrite (read_all escape_code id); [by rewrite map_id|]. intros x r Hx.
      apply read_escape_code. by eapply Forall_forall in Hc.
Qed.

(** A zero code point is not replaced by a space: a space is written and then the
    escape for code zero as well, which no PostgreSQL text value can hold. *)
Theorem zero_is_written_as_escape : escape_code 0 = lit " \u0000".
Proof. unfold escape_code, unicode_escape, u_code. cbn. by rewrite to_hex_ok. Qed.

End escape.

(** ** [strip_json_null_escapes]

    The loop copies characters to [out] and skips the six characters of an escape of
    the zero character; both implementations write at or before the position they
    read, so the text still to be read is the original one.  [out] is kept last
    character first. *)

Definition null_escape : list ascii := lit "\u0000".

Definition is_null_escape (src : list ascii) : bool :=
  (6 <=? length src)%nat && bool_decide (take 6 src = null_escape).

(** The backslashes just written. *)
Fixpoint count_backslashes (out : list ascii) : nat :=
  match out with
  | c :: out' => if is_char c BACKSLASH then S (count_backslashes out') else 0
  | [] => 0
  end.

Fixpoint strip_loop (fuel : nat) (src out : list ascii) : list ascii :=
  match fuel with
  | O => rev out
  | S fuel' =>
      match src with
      | [] => rev out
      | c :: src' =>
          if is_null_escape src && Nat.even (count_backslashes out)
          then strip_loop fuel' (drop 6 src) out
          else strip_loop fuel' src' (c :: out)
      end
  end.

(** In [tables_descriptions.cpp]: no backslash, nothing to do. *)
Definition strip_json_null_escapes (s : list ascii) : list ascii :=
  if negb (existsb (fun c => is_char c BACKSLASH) s) then s
  else strip_loop (length s) s [].

(** The PostgreSQL function also returns its argument when nothing was stripped. *)
Definition pg_strip_json_null_escapes (input : list ascii) : list ascii :=
  if negb (existsb (fun c => is_char c BACKSLASH) input) then input
  else
    let dst := strip_loop (length input) input [] in
    if (length dst =? length input)%nat then input else dst.

(** JSON text as the sequence of its characters and escapes. *)
Inductive json_token :=
| Plain (c : ascii)
| Escape (c : ascii)
| Unicode (a b c d : ascii).

#[global] Instance json_token_eq_dec : EqDecision json_token.
Proof. solve_decision. Defined.

Definition print_token (t : json_token) : list ascii :=
  match t with
  | Plain c => [c]
  | Escape c => [BACKSLASH; c]
  | Unicode a b c d => [BACKSLASH; "u"%char; a; b; c; d]
  end.

Definition print_tokens (ts : list json_token) : list ascii := concat (map print_token ts).

Definition token_ok (t : json_token) : Prop :=
  match t with
  | Plain c => c <> BACKSLASH
  | Escape c => c <> "u"%char
  | Unicode a b c d => a <> BACKSLASH /\ b <> BACKSLASH /\ c <> BACKSLASH /\ d <> BACKSLASH
  end.

Definition null_token : json_token := Unicode "0" "0" "0" "0".

Lemma is_null_escape_cons c rest : c <> BACKSLASH -> is_null_escape (c :: rest) = false.
Proof.
  intros Hc. unfold is_null_escape. apply andb_false_iff. right. apply bool_decide_eq_false.
  cbn. intros E. injection E. done.
Qed.

Lemma is_null_escape_second c rest : c <> "u"%char -> is_null_escape (BACKSLASH :: c :: rest) = false.
Proof.
  intros Hc. unfold is_null_escape. apply andb_false_iff. right. apply bool_decide_eq_false.
  cbn. intros E. injection E. done.
Qed.

Lemma count_cons c out : c <> BACKSLASH -> count_backslashes (c :: out) = 0%nat.
Proof. intros. cbn. unfold is_char. by rewrite bool_decide_false. Qed.

Lemma strip_copies fuel c src out :
  is_null_escape (c :: src) && Nat.even (count_backslashes out) = false ->
  strip_loop (S fuel) (c :: src) out = strip_loop fuel src (c :: out).
Proof. intros H. cbn [strip_loop]. by rewrite H. Qed.

Lemma strip_skips fuel c src out :
  is_null_escape (c :: src) && Nat.even (count_backslashes out) = true ->
  strip_loop (S fuel) (c :: src) out = strip_loop fuel (drop 6 (c :: src)) out.
Proof. intros H. cbn [strip_loop]. by rewrite H. Qed.

Lemma print_tokens_cons t ts : print_tokens (t :: ts) = print_token t ++ print_tokens ts.
Proof. done. Qed.

(** A character that is not a backslash is copied, and after it no backslash is
    pending. *)
Lemma strip_plain fuel c src out :
  c <> BACKSLASH -> strip_loop (S fuel) (c :: src) out = strip_loop fuel src (c :: out).
Proof. intros Hc. apply strip_copies. by rewrite is_null_escape_cons. Qed.

Lemma strip_escape fuel c src out :
  c <> "u"%char -> Nat.even (count_backslashes out) = true ->
  strip_loop (S (S fuel)) (BACKSLASH :: c :: src) out = strip_loop fuel src (c :: BACKSLASH :: out) /\
  Nat.even (count_backslashes (c :: BACKSLASH :: out)) = true.
Proof.
  intros Hc He. rewrite strip_copies by by rewrite is_null_escape_second.
  assert (count_backslashes (BACKSLASH :: out) = S (count_backslashes out)) as Hb by done.
  destruct (decide (c = BACKSLASH)) as [->|Hne].
  - rewrite strip_copies; [by split|].
    rewrite Hb, Nat.even_succ, <- Nat.negb_even, He. apply andb_false_r.
  - rewrite strip_plain by done. by rewrite count_cons.
Qed.

Lemma is_null_escape_unicode a b c d rest :
  is_null_escape (print_token (Unicode a b c d) ++ rest) = bool_decide (Unicode a b c d = null_token).
Proof.
  unfold is_null_escape. cbn. apply bool_decide_ext. split.
  - intros E. by injection E as -> -> -> ->.
  - intros E. by injection E as -> -> -> ->.
Qed.

Lemma strip_unicode fuel a b c d src out :
  token_ok (Unicode a b c d) -> Unicode a b c d <> null_token ->
  strip_loop (6 + fuel) (print_token (Unicode a b c d) ++ src) out =
  strip_loop fuel src (d :: c :: b :: a :: "u"%char :: BACKSLASH :: out).
Proof.
  intros (Ha & Hb & Hc & Hd) Hn.
  pose proof (is_null_escape_unicode a b c d src) as E. rewrite bool_decide_false in E by done.
  cbn [print_token app Nat.add] in *. rewrite strip_copies by by rewrite E.
  by rewrite !strip_plain.
Qed.

Lemma strip_tokens ts fuel out :
  Forall token_ok ts -> (length (print_tokens ts) <= fuel)%nat ->
  Nat.even (count_backslashes out) = true ->
  strip_loop fuel (print_tokens ts) out =
  rev out ++ print_tokens (filter (fun t => t <> null_token) ts).
Proof.
  intros Ht. revert fuel out. induction Ht as [|t ts Ht _ IH]; intros fuel out Hf He.
  - cbn. rewrite app_nil_r. by destruct fuel.
  - rewrite print_tokens_cons, length_app in *. destruct t as [c|c|a b c d]; cbn in Ht.
    + rewrite filter_cons_True by done. destruct fuel as [|fuel]; [cbn in Hf; lia|].
      cbn [print_token app]. rewrite strip_plain, IH; [|cbn in Hf; lia|by rewrite count_cons|done].
      cbn. by rewrite <- app_assoc.
    + rewrite filter_cons_True by done. do 2 (destruct fuel as [|fuel]; [cbn in Hf; lia|]).
      cbn [print_token app]. destruct (strip_escape fuel c (print_tokens ts) out Ht He) as [-> He2].
      rewrite IH; [|cbn in Hf; lia|done]. cbn. by rewrite <- !app_assoc.
    + do 6 (destruct fuel as [|fuel]; [cbn in Hf; lia|]).
      destruct (decide (Unicode a b c d = null_token)) as [Hn|Hn].
      * rewrite filter_cons_False by (intros H; by apply H). rewrite Hn.
        change (print_token null_token ++ print_tokens ts) with
          (BACKSLASH :: lit "u0000" ++ print_tokens ts).
        rewrite strip_skips; [apply IH; [cbn in Hf; lia|done]|].
        rewrite He, andb_true_r. exact (is_null_escape_unicode "0" "0" "0" "0" (print_tokens ts)).
      * rewrite filter_cons_True by done. rewrite (strip_unicode fuel) by done.
        rewrite IH; [|cbn in Hf; lia|by rewrite count_cons by apply Ht].
        cbn. by rewrite <- !app_assoc.
Qed.

Lemma no_backslash_tokens ts :
  Forall token_ok ts -> existsb (fun c => is_char c BACKSLASH) (print_tokens ts) = false ->
  filter (fun t => t <> null_token) ts = ts.
Proof.
  intros Ht. induction Ht as [|t ts Ht _ IH]; [done|].
  rewrite print_tokens_cons, existsb_app.
  intros [E1 E2]%orb_false_iff. destruct t; try done. rewrite filter_cons_True by done. by rewrite IH.
Qed.

Lemma strip_print ts :
  Forall token_ok ts ->
  strip_json_null_escapes (print_tokens ts) = print_tokens (filter (fun t => t <> null_token) ts).
Proof.
  intros Ht. unfold strip_json_null_escapes. case_match eqn:E.
  - apply negb_true_iff in E. by rewrite no_backslash_tokens.
  - by rewrite strip_tokens.
Qed.

Lemma print_filter_length ts :
  length (print_tokens (filter (fun t => t <> null_token) ts)) = length (print_tokens ts) ->
  filter (fun t => t <> null_token) ts = ts.
Proof.
  assert (forall l, length (print_tokens (filter (fun t => t <> null_token) l)) <=
    length (print_tokens l))%nat as Hle.
  { induction l as [|t l IH]; [done|]. rewrite filter_cons, print_tokens_cons, length_app.
    case_decide; rewrite ?print_tokens_cons, ?length_app; lia. }
  induction ts as [|t ts IH]; [done|]. rewrite filter_cons, (print_tokens_cons t ts), length_app.
  case_decide; rewrite ?print_tokens_cons, ?length_app; intros E.
  - f_equal. apply IH. lia.
  - exfalso. specialize (Hle ts). assert (0 < length (print_token t))%nat by (destruct t; cbn; lia). lia.
Qed.

(** On JSON text, both implementations remove exactly the escapes of the zero
    character and keep everything else, an escaped backslash followed by u0000
    included. *)
Theorem strip_removes_exactly_null_escapes ts :
  Forall token_ok ts ->
  let stripped := print_tokens (filter (fun t => t <> null_token) ts) in
  strip_json_null_escapes (print_tokens ts) = stripped /\
  pg_strip_json_null_escapes (print_tokens ts) = stripped.
Proof.
  intros Ht stripped. split; [by apply strip_print|]. unfold pg_strip_json_null_escapes. case_match eqn:E.
  - apply negb_true_iff in E. unfold stripped. by rewrite no_backslash_tokens.
  - rewrite strip_tokens by done. cbn [rev app]. fold stripped.
    destruct (Nat.eqb_spec (length stripped) (length (print_tokens ts))) as [El|El]; [|done].
    unfold stripped. by rewrite print_filter_length.
Qed.

(** ** Rows as SQL tuples: [data2sql_tuple]

    [pack] is [fc::raw::pack], [iso] is [time_point_sec::to_iso_string] and [key_text]
    the conversion of a public key to text; signatures and hashes are their bytes. *)

Section tuples.
  Context {operation : Type}.
  Context (decodeUtf8 : list ascii -> list Z) (to_hex : ascii -> list ascii)
    (pack : operation -> list ascii) (iso : Z -> list ascii) (key_text : string -> list ascii).

Definition escape (source : string) : list ascii := escape_sql decodeUtf8 to_hex (lit source).

Definition escape_optional (source : option string) : list ascii :=
  match source with Some s => escape s | None => lit "NULL" end.

Definition escape_raw (binary : string) : list ascii := sql_to_hex (lit binary).

Definition escape_raw_optional (sign : option string) : list ascii :=
  match sign with Some s => escape_raw s | None => lit "NULL" end.

Definition hive_blocks_tuple (data : process_block_t) : list ascii :=
  dec (pb_block_number data) ++ lit "," ++
  escape_raw (pb_hash data) ++ lit "," ++
  escape_raw (pb_prev_hash data) ++ lit ",'" ++
  iso (pb_created_at data) ++ lit "'," ++
  dec (pb_producer_account_id data) ++ lit "," ++
  escape_raw (pb_transaction_merkle_root data) ++ lit "," ++
  escape_optional (pb_extensions data) ++ lit "," ++
  escape_raw (pb_witness_signature data) ++ lit ",'" ++
  key_text (pb_signing_key data) ++ lit "'," ++
  dec (pb_hbd_interest_rate data) ++ lit "," ++
  dec (pb_total_vesting_fund_hive data) ++ lit "," ++
  dec (pb_total_vesting_shares data) ++ lit "," ++
  dec (pb_total_reward_fund_hive data) ++ lit "," ++
  dec (pb_virtual_supply data) ++ lit "," ++
  dec (pb_current_supply data) ++ lit "," ++
  dec (pb_current_hbd_supply data) ++ lit "," ++
  dec (pb_dhf_interval_ledger data).

Definition hive_transactions_tuple (data : process_transaction_t) : list ascii :=
  dec (pt_block_number data) ++ lit "," ++
  dec (pt_trx_in_block data) ++ lit "," ++
  escape_raw (pt_hash data) ++ lit "," ++
  dec (pt_ref_block_num data) ++ lit "," ++
  dec (pt_ref_block_prefix data) ++ lit ",'" ++
  iso (pt_expiration data) ++ lit "'," ++
  escape_raw_optional (pt_signature data) ++ lit "," ++
  match pt_rc_cost data with Some cost => dec cost | None => lit "NULL" end.

Definition hive_transactions_multisig_tuple (data : process_transaction_multisig_t) : list ascii :=
  escape_raw (pm_hash data) ++ lit "," ++ escape_raw (pm_signature data).

Definition hive_operations_tuple (data : process_operation_t operation) : list ascii :=
  dec (po_operation_id data) ++ lit "," ++
  dec (po_trx_in_block data) ++ lit "," ++
  dec (po_op_type_id data) ++ lit "," ++
  dec (po_op_in_trx data) ++ lit ",(" ++
  sql_to_hex (pack (po_op data)) ++ lit "::hafd.operation::jsonb)->'value'," ++
  match po_custom_json_type_id data with Some id => dec id | None => lit "NULL" end.

Definition hive_accounts_tuple (data : account_data_t) : list ascii :=
  let block_num := if ad_block_number data =? 0 then lit "NULL" else dec (ad_block_number data) in
  dec (ad_id data) ++ lit "," ++ escape (ad_name data) ++ lit "," ++ block_num.

Definition hive_account_operations_tuple (data : account_operation_data_t) : list ascii :=
  dec (ao_account_id data) ++ lit "," ++ dec (ao_transacting_account_id data) ++ lit "," ++
  dec (ao_operation_seq_no data) ++ lit "," ++ dec (ao_operation_id data) ++ lit "," ++
  dec (ao_op_type_id data).

Definition hive_applied_hardforks_tuple (data : applied_hardforks_t) : list ascii :=
  dec (ah_hardfork_num data) ++ lit "," ++ dec (ah_block_number data) ++ lit "," ++
  dec (ah_hardfork_vop_id data).

End tuples.

Module SqlTextExamples.

(** A decoder good enough for ASCII: every byte is its own code point. *)
Definition decode_ascii (text : list ascii) : list Z := map byte_val text.

Lemma escape_sql_round_trip_witness :
  exists body, escape_sql decode_ascii hex2 (lit "it's" ++ [NL]) = lit "E'" ++ body /\
    read_escape_string body = Some ([105; 116; 39; 115; 10], []).
Proof.
  apply (escape_sql_round_trip decode_ascii hex2 (fun c => eq_refl) (lit "it's" ++ [NL])).
  repeat constructor; vm_compute; done.
Defined.

Lemma zero_is_written_as_escape_witness : escape_code hex2 0 = lit " \u0000".
Proof. apply (zero_is_written_as_escape hex2). reflexivity. Defined.

(** An escaped backslash before u0000 is kept, the escape of zero is not. *)
Lemma strip_removes_exactly_null_escapes_witness :
  strip_json_null_escapes (lit "a\\u0000b\u0000c") = lit "a\\u0000bc".
Proof.
  apply (strip_removes_exactly_null_escapes
    [Plain "a"; Escape "\"; Plain "u"; Plain "0"; Plain "0"; Plain "0"; Plain "0"; Plain "b";
     null_token; Plain "c"]).
  repeat constructor; discriminate.
Defined.

End SqlTextExamples.
