(* ===== verification/DataDumper.v ===== *)
(** * The interface of the dumpers ([data_dumper.h])

    [data_dumper] is an abstract class with one method.  Here it is a type class: the
    method, and what an implementation promises to the indexation state.  The live and
    the replay dumper are its instances (Dumpers); what is built on dumpers in general
    (Pipeline) is proved against the class. *)

From S2P Require Import Prelude CachedData.
From Stdlib Require Import ZArith Lia Ascii String.
From stdpp Require Import base list strings gmap sorting.

Open Scope Z_scope.

(** [D] is the state of the implementation, [output] what it sends to the database. *)
Class DataDumper (operation output D : Type) := {
  dd_trigger_data_flush : cached_data_t operation -> Z -> D ->
    outcome string (list output) * D * cached_data_t operation;
  (* between two flushes *)
  dd_ready : D -> Prop;
  (* the caches it is meant for, with the number of the last block *)
  dd_accepts : cached_data_t operation -> Z -> Prop;
  (* what such a cache is turned into *)
  dd_sends : cached_data_t operation -> Z -> list output;
  dd_flush_accepted c n d : dd_ready d -> dd_accepts c n ->
    exists d', dd_trigger_data_flush c n d = (Ok (dd_sends c n), d', clear_containers c) /\ dd_ready d'
}.

Section flushes.
  Context {operation output D : Type} {dumper : DataDumper operation output D}.

(** Caches flushed one after the other, until one is refused. *)
Fixpoint run_dumps (bs : list (cached_data_t operation * Z)) (d : D) : outcome string (list output) * D :=
  match bs with
  | [] => (Ok [], d)
  | (c, n) :: bs' =>
      let '(o, d1, _) := dd_trigger_data_flush c n d in
      match o with
      | Throw e => (Throw e, d1)
      | Ok sent =>
          match run_dumps bs' d1 with
          | (Ok more, d2) => (Ok (sent ++ more), d2)
          | (Throw e, d2) => (Throw e, d2)
          end
      end
  end.

Lemma run_dumps_accepted bs d :
  dd_ready d -> Forall (fun b => dd_accepts b.1 b.2) bs ->
  exists d', run_dumps bs d = (Ok (concat (map (fun b => dd_sends b.1 b.2) bs)), d') /\ dd_ready d'.
Proof.
  intros Hd Hb. revert d Hd. induction Hb as [|[c n] bs Ha _ IH]; intros d Hd; [by exists d|].
  destruct (dd_flush_accepted c n d Hd Ha) as (d1 & E & Hd1).
  destruct (IH d1 Hd1) as (d2 & E2 & Hd2). exists d2. cbn [run_dumps]. by rewrite E, E2.
Qed.

End flushes.
