(* ===== verification/Dumpers.v ===== *)
(** * The dumpers

    Models [livesync_data_dumper.cpp] (all but its processing thread, which is in
    WalRecovery): the writers of a block, the command built when they have all
    finished, and the handlers of chain events; and [reindex_data_dumper.cpp] with
    [end_massive_sync_processor.cpp]: the parallel and the synchronous flush and the
    dirty mark around them.

    The callers wait for all writers ([complete_data_processing]), so a live flush is
    a function of the cache; that the rendezvous calls the triggered function once per
    block is proved in Writers. *)

From S2P Require Import Prelude Text CachedData DataProcessor Writers Conversions SqlText DataDumper.
From Stdlib Require Import ZArith Lia Ascii String.
From stdpp Require Import base list strings gmap sorting.

Open Scope Z_scope.

Section dumpers.
  Context {operation : Type}.
  Context (decodeUtf8 : list ascii -> list Z) (to_hex : ascii -> list ascii)
    (pack : operation -> list ascii) (iso : Z -> list ascii) (key_text : string -> list ascii).

#[local] Abbreviation block_tuple := (hive_blocks_tuple decodeUtf8 to_hex iso key_text).
#[local] Abbreviation trx_tuple := (hive_transactions_tuple iso).
#[local] Abbreviation op_tuple := (hive_operations_tuple pack).
#[local] Abbreviation account_tuple := (hive_accounts_tuple decodeUtf8 to_hex).

(** ** [livesync_data_dumper] *)

Record live_config := {
  lc_operations_threads : nat;
  lc_transactions_threads : nat;
  lc_account_operation_threads : nat;
  lc_psql_first_block : Z;
  lc_lite_mode : bool
}.

(** The strings the writers leave behind and the dumper's own members. *)
Record live_dumper := {
  ld_block : list ascii;
  ld_transactions_multisig : list ascii;
  ld_accounts : list ascii;
  ld_applied_hardforks : list ascii;
  ld_transaction_strings : list (list ascii);
  ld_operation_strings : list (list ascii);
  ld_account_operation_strings : list (list ascii);
  ld_last_dumped_block : Z;
  ld_currently_processing_block : Z
}.

Definition ONE_THREAD_WRITERS_NUMBER : nat := 4.

Definition NUMBER_OF_PROCESSORS_THREADS (cfg : live_config) : nat :=
  ONE_THREAD_WRITERS_NUMBER + lc_operations_threads cfg + lc_transactions_threads cfg +
  lc_account_operation_threads cfg.

Definition new_live_dumper (cfg : live_config) : live_dumper :=
  {| ld_block := []; ld_transactions_multisig := []; ld_accounts := []; ld_applied_hardforks := [];
     ld_transaction_strings := replicate (lc_transactions_threads cfg) [];
     ld_operation_strings := replicate (lc_operations_threads cfg) [];
     ld_account_operation_strings := replicate (lc_account_operation_threads cfg) [];
     ld_last_dumped_block := 0; ld_currently_processing_block := 0 |}.

(** A writer without a splitter: its callback stores the text of the whole container,
    and is not called for an empty one. *)
Definition single_callback {A} (conv : A -> list ascii) (data : list A) (old : list ascii) :
    list ascii :=
  match data with [] => old | _ => tuples conv data end.

(** The callbacks of all writers for one block. *)
Definition run_writers (cfg : live_config) (c : cached_data_t operation) (ld : live_dumper) :
    live_dumper :=
  {| ld_block := single_callback block_tuple (blocks c) (ld_block ld);
     ld_transactions_multisig :=
       single_callback hive_transactions_multisig_tuple (transactions_multisig c)
         (ld_transactions_multisig ld);
     ld_accounts := single_callback account_tuple (accounts c) (ld_accounts ld);
     ld_applied_hardforks :=
       single_callback hive_applied_hardforks_tuple (applied_hardforks c) (ld_applied_hardforks ld);
     ld_transaction_strings :=
       split_strings trx_tuple (transactions c) (lc_transactions_threads cfg)
         (ld_transaction_strings ld);
     ld_operation_strings :=
       split_strings op_tuple (operations c) (lc_operations_threads cfg) (ld_operation_strings ld);
     ld_account_operation_strings :=
       split_strings hive_account_operations_tuple (account_operations c)
         (lc_account_operation_threads cfg) (ld_account_operation_strings ld);
     ld_last_dumped_block := ld_last_dumped_block ld;
     ld_currently_processing_block := ld_currently_processing_block ld |}.

(** The text of the command from its seven parts. *)
Definition push_block_command (lite : bool)
    (block trxs multisig ops accs acc_ops hardforks : list ascii) : list ascii :=
  (if lite then lit "SELECT hive.push_block_lite(" else lit "SELECT hive.push_block(") ++
  block ++ lit "::hafd.blocks,ARRAY[" ++
  trxs ++ lit "]::hafd.transactions[],ARRAY[" ++
  multisig ++ lit "]::hafd.transactions_multisig[],ARRAY[" ++
  ops ++ lit "]::hafd.operations[],ARRAY[" ++
  accs ++ lit "]::hafd.accounts[],ARRAY[" ++
  acc_ops ++ lit "]::hafd.account_operations[],ARRAY[" ++
  hardforks ++ lit "]::hafd.applied_hardforks[])".

(** [execute_push_block]: the command it enqueues, if any. *)
Definition execute_push_block (cfg : live_config) (block_num : Z) (ld : live_dumper) :
    list (list ascii) * live_dumper :=
  let '(cmds, trx', ops', acc_ops', last') :=
    match ld_block ld with
    | [] => ([], ld_transaction_strings ld, ld_operation_strings ld,
             ld_account_operation_strings ld, ld_last_dumped_block ld)
    | _ =>
        let '(trxs, trx') := get_merged_strings (ld_transaction_strings ld) in
        let '(ops, ops') := get_merged_strings (ld_operation_strings ld) in
        let '(acc_ops, acc_ops') := get_merged_strings (ld_account_operation_strings ld) in
        ([push_block_command (lc_lite_mode cfg) (ld_block ld) trxs (ld_transactions_multisig ld) ops
            (ld_accounts ld) acc_ops (ld_applied_hardforks ld)],
         trx', ops', acc_ops', block_num)
    end in
  (cmds,
   {| ld_block := []; ld_transactions_multisig := []; ld_accounts := []; ld_applied_hardforks := [];
      ld_transaction_strings := trx'; ld_operation_strings := ops';
      ld_account_operation_strings := acc_ops';
      ld_last_dumped_block := last';
      ld_currently_processing_block := ld_currently_processing_block ld |}).

Definition set_currently_processing (n : Z) (ld : live_dumper) : live_dumper :=
  {| ld_block := ld_block ld; ld_transactions_multisig := ld_transactions_multisig ld;
     ld_accounts := ld_accounts ld; ld_applied_hardforks := ld_applied_hardforks ld;
     ld_transaction_strings := ld_transaction_strings ld;
     ld_operation_strings := ld_operation_strings ld;
     ld_account_operation_strings := ld_account_operation_strings ld;
     ld_last_dumped_block := ld_last_dumped_block ld; ld_currently_processing_block := n |}.

(** [trigger_data_flush] of the live dumper: the commands enqueued, the members, and
    the cache its containers were moved out of.  Writers report nothing for block 0,
    so the function is not called then. *)
Definition live_trigger_data_flush (cfg : live_config) (c : cached_data_t operation)
    (last_block_num : Z) (ld : live_dumper) :
    outcome string (list (list ascii)) * live_dumper * cached_data_t operation :=
  if (length (blocks c) =? 1)%nat then
    let ld1 := run_writers cfg c (set_currently_processing (u32 last_block_num) ld) in
    let '(cmds, ld2) :=
      if u32 last_block_num =? 0 then ([], ld1)
      else execute_push_block cfg (u32 last_block_num) ld1 in
    (Ok cmds, set_currently_processing 0 ld2, clear_containers c)
  else (Throw "LIVE sync can only process one block"%string, ld, c).

Definition on_irreversible_block (cfg : live_config) (block_num : Z) : list (list ascii) :=
  if lc_lite_mode cfg then []
  else if lc_psql_first_block cfg <=? block_num
  then [lit "SELECT hive.set_irreversible(" ++ dec block_num ++ lit ")"]
  else [].

Definition on_switch_fork (block_num : Z) : list (list ascii) :=
  [lit "SELECT hive.back_from_fork(" ++ dec block_num ++ lit ")"].

Definition on_block_fail (block_num : Z) (ld : live_dumper) : list (list ascii) :=
  if negb (ld_currently_processing_block ld =? block_num) && negb (ld_last_dumped_block ld =? block_num)
  then []
  else [lit "SELECT hive.back_from_fork(" ++ dec (u32 (block_num - 1)) ++ lit ")"].

(** *** What a flush sends *)

(** The command for a block, written by a single thread. *)
Definition block_command (lite : bool) (c : cached_data_t operation) : list ascii :=
  push_block_command lite (tuples block_tuple (blocks c)) (tuples trx_tuple (transactions c))
    (tuples hive_transactions_multisig_tuple (transactions_multisig c))
    (tuples op_tuple (operations c)) (tuples account_tuple (accounts c))
    (tuples hive_account_operations_tuple (account_operations c))
    (tuples hive_applied_hardforks_tuple (applied_hardforks c)).

(** No text of an earlier block is left in the writers. *)
Definition clean (cfg : live_config) (ld : live_dumper) : Prop :=
  ld_block ld = [] /\ ld_transactions_multisig ld = [] /\ ld_accounts ld = [] /\
  ld_applied_hardforks ld = [] /\
  ld_transaction_strings ld = replicate (lc_transactions_threads cfg) [] /\
  ld_operation_strings ld = replicate (lc_operations_threads cfg) [] /\
  ld_account_operation_strings ld = replicate (lc_account_operation_threads cfg) [] /\
  ld_currently_processing_block ld = 0.

Definition block_fits (cfg : live_config) (c : cached_data_t operation) : Prop :=
  fits (transactions c) (lc_transactions_threads cfg) /\
  fits (operations c) (lc_operations_threads cfg) /\
  fits (account_operations c) (lc_account_operation_threads cfg).

Lemma single_callback_nil {A} (conv : A -> list ascii) data : single_callback conv data [] = tuples conv data.
Proof. by destruct data. Qed.

Lemma live_flush_clean cfg c n ld :
  clean cfg ld -> block_fits cfg c -> length (blocks c) = 1%nat -> 0 < n <= UINT32_MAX ->
  exists ld', live_trigger_data_flush cfg c n ld =
      (Ok [block_command (lc_lite_mode cfg) c], ld', clear_containers c) /\
    clean cfg ld' /\ ld_last_dumped_block ld' = n.
Proof.
  intros (H1 & H2 & H3 & H4 & H5 & H6 & H7 & H8) (F1 & F2 & F3) Hb Hn.
  unfold live_trigger_data_flush. rewrite Hb. cbn [Nat.eqb]. rewrite u32_small by lia.
  destruct (Z.eqb_spec n 0); [lia|].
  unfold run_writers, set_currently_processing, execute_push_block.
  cbn -[get_merged_strings split_strings single_callback push_block_command tuples].
  rewrite H1, H2, H3, H4, H5, H6, H7, !single_callback_nil.
  rewrite !merged_split_strings by done.
  destruct (blocks c) as [|b [|]] eqn:Eb; try done.
  destruct (tuples block_tuple [b]) as [|x l] eqn:Et; [done|].
  eexists. split; [unfold block_command; rewrite Eb, Et; reflexivity|]. by split_and!.
Qed.

(** However many threads write a block, the live dumper enqueues exactly one command
    for it, the one a single writer would have built from the block's rows, and leaves
    no text behind that could leak into the next block. *)
Theorem live_flush_sends_the_block cfg c n ld :
  clean cfg ld -> block_fits cfg c -> length (blocks c) = 1%nat -> 0 < n <= UINT32_MAX ->
  exists ld', live_trigger_data_flush cfg c n ld =
      (Ok [block_command (lc_lite_mode cfg) c], ld', clear_containers c) /\
    clean cfg ld' /\ ld_last_dumped_block ld' = n.
Proof. apply live_flush_clean. Qed.

Definition live_accepts (cfg : live_config) (c : cached_data_t operation) (n : Z) : Prop :=
  block_fits cfg c /\ length (blocks c) = 1%nat /\ 0 < n <= UINT32_MAX.

Lemma live_flush_accepted cfg c n ld :
  clean cfg ld -> live_accepts cfg c n ->
  exists ld', live_trigger_data_flush cfg c n ld =
      (Ok [block_command (lc_lite_mode cfg) c], ld', clear_containers c) /\ clean cfg ld'.
Proof.
  intros Hc (Hf & Hl & Hn). destruct (live_flush_clean cfg c n ld Hc Hf Hl Hn) as (ld' & E & Hc' & _).
  by exists ld'.
Qed.

#[export] Instance live_data_dumper (cfg : live_config) : DataDumper operation (list ascii) live_dumper := {|
  dd_trigger_data_flush := live_trigger_data_flush cfg;
  dd_ready := clean cfg;
  dd_accepts := live_accepts cfg;
  dd_sends c _ := [block_command (lc_lite_mode cfg) c];
  dd_flush_accepted := live_flush_accepted cfg |}.

Lemma new_live_dumper_ready cfg : dd_ready (DataDumper := live_data_dumper cfg) (new_live_dumper cfg).
Proof. by split_and!. Qed.

(** A sequence of live blocks becomes the sequence of their commands, one for each
    block in order, each with the rows of its own block only. *)
Theorem live_flushes_send_each_block cfg bs :
  Forall (fun b => live_accepts cfg b.1 b.2) bs ->
  exists ld', run_dumps (dumper := live_data_dumper cfg) bs (new_live_dumper cfg) =
    (Ok (map (fun b => block_command (lc_lite_mode cfg) b.1) bs), ld').
Proof.
  intros Hb. destruct (run_dumps_accepted (dumper := live_data_dumper cfg) bs (new_live_dumper cfg))
    as (ld' & E & _); [apply new_live_dumper_ready|done|].
  exists ld'. rewrite E. do 2 f_equal. cbn. clear. induction bs; cbn; by f_equal.
Qed.

(** A block that fails after it was handed to the log is undone and no other one is:
    right after a flush of block n, the failure of n rewinds to n - 1, and the failure
    of any other block changes nothing. *)
Theorem block_fail_rewinds_the_dumped_block cfg c n ld o ld' c' m :
  clean cfg ld -> block_fits cfg c -> length (blocks c) = 1%nat -> 0 < n <= UINT32_MAX ->
  0 < m <= UINT32_MAX -> live_trigger_data_flush cfg c n ld = (o, ld', c') ->
  on_block_fail m ld' = if m =? n then on_switch_fork (n - 1) else [].
Proof.
  intros Hc Hf Hl Hn Hm E.
  destruct (live_flush_clean cfg c n ld Hc Hf Hl Hn) as (ld1 & E1 & Hc1 & Hlast).
  rewrite E1 in E. injection E as _ <- _. unfold on_block_fail. destruct Hc1 as (_ & _ & _ & _ & _ & _ & _ & H8).
  rewrite H8, Hlast. destruct (Z.eqb_spec 0 m); [lia|]. cbn [negb andb].
  destruct (Z.eqb_spec n m), (Z.eqb_spec m n); try lia; cbn [negb]; [|done].
  unfold on_switch_fork. rewrite u32_small by lia. by subst.
Qed.

End dumpers.

(** ** [reindex_data_dumper] *)

Section reindex.
  Context {operation : Type}.

(** Commands inside a transaction. *)
Inductive db_command :=
| CopyBlocks (rows : list process_block_t)
| CopyAccounts (rows : list account_data_t)
| CopyTransactions (rows : list process_transaction_t)
| CopyOperations (rows : list (process_operation_t operation))
| CopyTransactionsMultisig (rows : list process_transaction_multisig_t)
| CopyAppliedHardforks (rows : list applied_hardforks_t)
| CopyAccountOperations (rows : list account_operation_data_t)
| EndMassiveSync (block_number : Z)      (* SELECT hive.end_massive_sync(n) *)
| SetIrreversibleDirty
| SetIrreversibleNotDirty.

(** [copy_to_table] skips an empty container. *)
Definition copy_to_table {A} (copy : list A -> db_command) (rows : list A) : list db_command :=
  match rows with [] => [] | _ => [copy rows] end.

(** The one transaction of [trigger_synchronous_flush]. *)
Definition synchronous_transaction (c : cached_data_t operation) : list db_command :=
  copy_to_table CopyBlocks (blocks c) ++
  copy_to_table CopyAccounts (accounts c) ++
  copy_to_table CopyTransactions (transactions c) ++
  copy_to_table CopyOperations (operations c) ++
  copy_to_table CopyTransactionsMultisig (transactions_multisig c) ++
  copy_to_table CopyAppliedHardforks (applied_hardforks c) ++
  copy_to_table CopyAccountOperations (account_operations c).

(** [end_massive_sync_processor]: its chunk carries the block number, its transaction
    is the call with that number. *)
Definition end_massive_sync_transaction (block_number : Z) : list db_command :=
  [EndMassiveSync block_number].

(** [trigger_synchronous_flush]: the transactions committed, in order, and the cache. *)
Definition trigger_synchronous_flush (c : cached_data_t operation) (last_block_num : Z) :
    list (list db_command) * cached_data_t operation :=
  ([synchronous_transaction c] ++
   (if 0 <? last_block_num then [end_massive_sync_transaction (u32 last_block_num)] else []),
   clear_containers c).

(** [flush_replayed_data] inside [queries_commit_data_processor]: a part of a container
    is one transaction; an empty part is only reported. *)
Definition writer_transactions {A} (copy : list A -> db_command) (part : list A) :
    list (list db_command) :=
  match part with [] => [] | _ => [[copy part]] end.

Definition splitter_transactions {A} (copy : list A -> db_command) (data : list A) (threads : nat) :
    list (list db_command) :=
  concat (map (fun v => writer_transactions copy (view_elems v)) (split_for_writers data threads)).

(** [trigger_data_flush] without synchronous mode: the transactions the writers will
    commit, in the order they are handed out; they commit in any order, and when all
    have reported, the rendezvous asks for [end_massive_sync]. *)
Definition parallel_transactions (op_threads trx_threads acc_op_threads : nat)
    (c : cached_data_t operation) : list (list db_command) :=
  writer_transactions CopyBlocks (blocks c) ++
  splitter_transactions CopyTransactions (transactions c) trx_threads ++
  splitter_transactions CopyOperations (operations c) op_threads ++
  writer_transactions CopyTransactionsMultisig (transactions_multisig c) ++
  writer_transactions CopyAccounts (accounts c) ++
  splitter_transactions CopyAccountOperations (account_operations c) acc_op_threads ++
  writer_transactions CopyAppliedHardforks (applied_hardforks c).

(** [execute_end_massive_sync_callback] *)
Definition end_massive_sync_callback (block_num : Z) : list (list db_command) :=
  if block_num =? 0 then [] else [end_massive_sync_transaction block_num].

Definition reindex_trigger_data_flush (synchronous_mode : bool)
    (op_threads trx_threads acc_op_threads : nat) (c : cached_data_t operation) (last_block_num : Z) :
    list (list db_command) * cached_data_t operation :=
  if synchronous_mode then trigger_synchronous_flush c last_block_num
  else (parallel_transactions op_threads trx_threads acc_op_threads c ++
        end_massive_sync_callback (u32 last_block_num), clear_containers c).

(** What the tables receive from a list of commands. *)
Record written := {
  w_blocks : list process_block_t;
  w_accounts : list account_data_t;
  w_transactions : list process_transaction_t;
  w_operations : list (process_operation_t operation);
  w_multisig : list process_transaction_multisig_t;
  w_hardforks : list applied_hardforks_t;
  w_account_operations : list account_operation_data_t
}.

Definition write_command (w : written) (cmd : db_command) : written :=
  match cmd, w with
  | CopyBlocks r, Build_written b a t o m h ao => Build_written (b ++ r) a t o m h ao
  | CopyAccounts r, Build_written b a t o m h ao => Build_written b (a ++ r) t o m h ao
  | CopyTransactions r, Build_written b a t o m h ao => Build_written b a (t ++ r) o m h ao
  | CopyOperations r, Build_written b a t o m h ao => Build_written b a t (o ++ r) m h ao
  | CopyTransactionsMultisig r, Build_written b a t o m h ao => Build_written b a t o (m ++ r) h ao
  | CopyAppliedHardforks r, Build_written b a t o m h ao => Build_written b a t o m (h ++ r) ao
  | CopyAccountOperations r, Build_written b a t o m h ao => Build_written b a t o m h (ao ++ r)
  | _, _ => w
  end.

Definition write_commands (w : written) (cmds : list db_command) : written := foldl write_command w cmds.

Definition nothing_written : written := Build_written [] [] [] [] [] [] [].

Definition cache_rows (c : cached_data_t operation) : written :=
  Build_written (blocks c) (accounts c) (transactions c) (operations c)
    (transactions_multisig c) (applied_hardforks c) (account_operations c).

Lemma write_commands_app w l1 l2 : write_commands w (l1 ++ l2) = write_commands (write_commands w l1) l2.
Proof. apply foldl_app. Qed.

(** A command that appends rows to a table. *)
Definition appends {A} (copy : list A -> db_command) : Prop :=
  (forall r1 r2 w, write_command (write_command w (copy r1)) (copy r2) = write_command w (copy (r1 ++ r2))) /\
  (forall w, write_command w (copy []) = w).

Ltac solve_appends := split; intros; match goal with w : written |- _ => destruct w end; cbn; by rewrite ?app_assoc, ?app_nil_r.

Lemma copy_blocks_appends : appends CopyBlocks. Proof. solve_appends. Qed.
Lemma copy_accounts_appends : appends CopyAccounts. Proof. solve_appends. Qed.
Lemma copy_transactions_appends : appends CopyTransactions. Proof. solve_appends. Qed.
Lemma copy_operations_appends : appends CopyOperations. Proof. solve_appends. Qed.
Lemma copy_multisig_appends : appends CopyTransactionsMultisig. Proof. solve_appends. Qed.
Lemma copy_hardforks_appends : appends CopyAppliedHardforks. Proof. solve_appends. Qed.
Lemma copy_account_operations_appends : appends CopyAccountOperations. Proof. solve_appends. Qed.

#[local] Hint Resolve copy_blocks_appends copy_accounts_appends copy_transactions_appends
  copy_operations_appends copy_multisig_appends copy_hardforks_appends
  copy_account_operations_appends : haf.

(** Copying a table part by part. *)
Lemma write_parts {A} (copy : list A -> db_command) parts w :
  appends copy ->
  write_commands w (concat (concat (map (writer_transactions copy) parts))) =
  write_command w (copy (concat parts)).
Proof.
  intros [Ha Hn]. revert w. induction parts as [|p parts IH]; intros w; cbn [map concat]; [by rewrite Hn|].
  rewrite concat_app, write_commands_app, IH, <- Ha. f_equal.
  destruct p as [|x p]; cbn; [by rewrite Hn|done].
Qed.

Lemma write_splitter {A} (copy : list A -> db_command) data threads w :
  appends copy -> fits data threads ->
  write_commands w (concat (splitter_transactions copy data threads)) = write_command w (copy data).
Proof.
  intros Hc Hf. unfold splitter_transactions.
  rewrite <- (map_map view_elems (writer_transactions copy)), write_parts by done.
  by rewrite split_concat.
Qed.

Lemma write_single {A} (copy : list A -> db_command) data w :
  appends copy ->
  write_commands w (concat (writer_transactions copy data)) = write_command w (copy data).
Proof. intros [_ Hn]. destruct data; cbn; [by rewrite Hn|done]. Qed.

Lemma write_copy {A} (copy : list A -> db_command) data w :
  appends copy -> write_commands w (copy_to_table copy data) = write_command w (copy data).
Proof. intros [_ Hn]. destruct data; cbn; [by rewrite Hn|done]. Qed.

Lemma synchronous_rows c : write_commands nothing_written (synchronous_transaction c) = cache_rows c.
Proof.
  unfold synchronous_transaction. rewrite !write_commands_app, !write_copy by auto with haf. reflexivity.
Qed.

Lemma end_massive_sync_rows w n : write_commands w (concat (end_massive_sync_callback n)) = w.
Proof. unfold end_massive_sync_callback. by case_match. Qed.

Lemma parallel_rows ot tt at_ c :
  fits (operations c) ot -> fits (transactions c) tt -> fits (account_operations c) at_ ->
  write_commands nothing_written (concat (parallel_transactions ot tt at_ c)) = cache_rows c.
Proof.
  intros Ho Ht Ha. unfold parallel_transactions. rewrite !concat_app, !write_commands_app.
  rewrite !write_single, !write_splitter by auto with haf. reflexivity.
Qed.

(** The same rows in every table, in any order. *)
#[export] Instance written_equiv : Equiv written := fun w1 w2 =>
  w_blocks w1 ≡ₚ w_blocks w2 /\ w_accounts w1 ≡ₚ w_accounts w2 /\
  w_transactions w1 ≡ₚ w_transactions w2 /\ w_operations w1 ≡ₚ w_operations w2 /\
  w_multisig w1 ≡ₚ w_multisig w2 /\ w_hardforks w1 ≡ₚ w_hardforks w2 /\
  w_account_operations w1 ≡ₚ w_account_operations w2.

#[export] Instance written_equivalence : Equivalence (≡@{written}).
Proof.
  split.
  - intros w. by split_and!.
  - intros w1 w2 (? & ? & ? & ? & ? & ? & ?). by split_and!.
  - intros w1 w2 w3 (? & ? & ? & ? & ? & ? & ?) (? & ? & ? & ? & ? & ? & ?).
    split_and!; by etrans.
Qed.

#[export] Instance write_command_proper : Proper ((≡) ==> (=) ==> (≡)) write_command.
Proof.
  intros [] [] (? & ? & ? & ? & ? & ? & ?) cmd ? <-.
  destruct cmd; split_and!; cbn in *; try done; by apply Permutation_app_tail.
Qed.

#[export] Instance write_commands_proper : Proper ((≡) ==> (=) ==> (≡)) write_commands.
Proof.
  intros w1 w2 Hw l ? <-. revert w1 w2 Hw. induction l as [|x l IH]; intros w1 w2 Hw; [done|].
  cbn. apply IH. by rewrite Hw.
Qed.

Lemma write_command_swap w a b :
  write_command (write_command w a) b ≡ write_command (write_command w b) a.
Proof.
  destruct w, a, b; split_and!; cbn; try done; rewrite <- !app_assoc;
    apply Permutation_app_head, Permutation_app_comm.
Qed.

(** The order of commands matters only for the order of rows. *)
Lemma write_commands_permutation w l l' : l ≡ₚ l' -> write_commands w l ≡ write_commands w l'.
Proof.
  intros Hp. revert w. induction Hp as [|x l l' _ IH|x y l|l1 l2 l3 _ IH1 _ IH2]; intros w; cbn.
  - done.
  - apply IH.
  - apply (write_commands_proper _ _ (write_command_swap w y x) l l eq_refl).
  - etrans; [apply IH1|apply IH2].
Qed.

(** The orders in which the transactions of a flush can be committed: the synchronous
    ones as they are executed; the writers' ones in any order, before the one the
    rendezvous asks for. *)
Definition commit_orders (synchronous_mode : bool) (op_threads trx_threads acc_op_threads : nat)
    (c : cached_data_t operation) (last_block_num : Z) (txs : list (list db_command)) : Prop :=
  if synchronous_mode then txs = (trigger_synchronous_flush c last_block_num).1
  else exists writers, writers ≡ₚ parallel_transactions op_threads trx_threads acc_op_threads c /\
       txs = writers ++ end_massive_sync_callback (u32 last_block_num).

Lemma parallel_rows_any_order ot trt at_ c writers :
  fits (operations c) ot -> fits (transactions c) trt -> fits (account_operations c) at_ ->
  writers ≡ₚ parallel_transactions ot trt at_ c ->
  write_commands nothing_written (concat writers) ≡ cache_rows c.
Proof.
  intros Ho Ht Ha Hp. rewrite <- (parallel_rows ot trt at_ c) by done.
  apply write_commands_permutation. rewrite <- (map_id writers), <- (map_id (parallel_transactions ot trt at_ c)), <- !flat_map_concat_map.
  by apply Permutation_flat_map.
Qed.

Lemma synchronous_flush_rows c n :
  write_commands nothing_written (concat (trigger_synchronous_flush c n).1) = cache_rows c.
Proof.
  unfold trigger_synchronous_flush. destruct (0 <? n); cbn [app concat fst];
    by rewrite !write_commands_app, synchronous_rows.
Qed.

Lemma commit_orders_rows mode ot trt at_ c n txs :
  fits (operations c) ot -> fits (transactions c) trt -> fits (account_operations c) at_ ->
  commit_orders mode ot trt at_ c n txs ->
  write_commands nothing_written (concat txs) ≡ cache_rows c.
Proof.
  intros Ho Ht Ha Hc. destruct mode.
  - rewrite Hc. by rewrite synchronous_flush_rows.
  - destruct Hc as (writers & Hp & ->).
    by rewrite concat_app, write_commands_app, end_massive_sync_rows, (parallel_rows_any_order ot trt at_).
Qed.

(** C27: Both ways of flushing a batch during replay write every row of the cache to its
    table exactly once, whatever the order in which the writers commit, leave the cache
    empty, and end with end_massive_sync of the batch's last block.  In the synchronous mode
    all rows are copied in a single transaction and in their order; in the other mode the rows
    of a table are a permutation of the cache's.  (For block numbers above 0, fewer than 2^32
    rows of a kind, at least one thread per writer, and transactions that commit as a whole.) *)
Theorem reindex_flush_writes_the_cache mode ot trt at_ c n txs :
  fits (operations c) ot -> fits (transactions c) trt -> fits (account_operations c) at_ ->
  0 < n <= INT32_MAX -> commit_orders mode ot trt at_ c n txs ->
  write_commands nothing_written (concat txs) ≡ cache_rows c /\
  last txs = Some [EndMassiveSync n] /\
  (mode = true -> length txs = 2%nat /\ write_commands nothing_written (concat txs) = cache_rows c) /\
  (reindex_trigger_data_flush mode ot trt at_ c n).2 = clear_containers c.
Proof.
  intros Ho Ht Ha Hn Hc. unfold INT32_MAX in Hn.
  assert (u32 n = n) as Hu by (apply u32_small; unfold UINT32_MAX; lia).
  split; [by apply (commit_orders_rows mode ot trt at_ c n)|].
  destruct mode; cbn [reindex_trigger_data_flush].
  - rewrite Hc, synchronous_flush_rows. unfold trigger_synchronous_flush. rewrite Hu.
    destruct (Z.ltb_spec 0 n); [done|lia].
  - destruct Hc as (writers & Hp & ->). rewrite Hu. split_and!; [|done|done].
    unfold end_massive_sync_callback. destruct (Z.eqb_spec n 0); [lia|]. apply last_snoc.
Qed.

(** The replay dumper behind the interface: nothing of its own state matters between
    two flushes. *)
Definition reindex_accepts (op_threads trx_threads acc_op_threads : nat)
    (c : cached_data_t operation) (n : Z) : Prop :=
  fits (operations c) op_threads /\ fits (transactions c) trx_threads /\
  fits (account_operations c) acc_op_threads /\ 0 < n <= INT32_MAX.

Lemma reindex_flush_accepted mode ot trt at_ c n (d : unit) :
  True -> reindex_accepts ot trt at_ c n ->
  exists d', (let '(txs, c') := reindex_trigger_data_flush mode ot trt at_ c n in (Ok txs, d, c')) =
    (Ok (E := string) (reindex_trigger_data_flush mode ot trt at_ c n).1, d', clear_containers c) /\ True.
Proof. intros _ _. exists d. by destruct mode. Qed.

#[export] Instance reindex_data_dumper_interface (mode : bool) (ot trt at_ : nat) :
    DataDumper operation (list db_command) unit := {|
  dd_trigger_data_flush c n d :=
    let '(txs, c') := reindex_trigger_data_flush mode ot trt at_ c n in (Ok txs, d, c');
  dd_ready _ := True;
  dd_accepts := reindex_accepts ot trt at_;
  dd_sends c n := (reindex_trigger_data_flush mode ot trt at_ c n).1;
  dd_flush_accepted := reindex_flush_accepted mode ot trt at_ |}.

(** The order of the copies. *)
Definition copy_rank (cmd : db_command) : Z :=
  match cmd with
  | CopyBlocks _ => 0 | CopyAccounts _ => 1 | CopyTransactions _ => 2 | CopyOperations _ => 3
  | CopyTransactionsMultisig _ => 4 | CopyAppliedHardforks _ => 5 | CopyAccountOperations _ => 6
  | _ => 7
  end.

Lemma synchronous_sorted c :
  StronglySorted (fun x y => copy_rank x < copy_rank y) (synchronous_transaction c).
Proof.
  unfold synchronous_transaction, copy_to_table.
  destruct (blocks c), (accounts c), (transactions c), (operations c), (transactions_multisig c),
    (applied_hardforks c), (account_operations c); cbn; repeat constructor.
Qed.

(** Inside the synchronous transaction a table is copied only after the tables its
    immediate foreign keys refer to: accounts, transactions and hardforks after
    blocks, signatures after transactions, hardforks and account operations after
    operations, account operations after accounts. *)
Theorem synchronous_order_respects_keys c cmds1 cmd cmds2 :
  synchronous_transaction c = cmds1 ++ cmd :: cmds2 ->
  Forall (fun later =>
    match cmd, later with
    | (CopyAccounts _ | CopyTransactions _ | CopyAppliedHardforks _), CopyBlocks _
    | CopyTransactionsMultisig _, CopyTransactions _
    | (CopyAppliedHardforks _ | CopyAccountOperations _), CopyOperations _
    | CopyAccountOperations _, CopyAccounts _ => False
    | _, _ => True
    end) cmds2.
Proof.
  intros E. pose proof (synchronous_sorted c) as Hs. rewrite E in Hs.
  assert (Forall (fun later => copy_rank cmd < copy_rank later) cmds2) as Hr.
  { clear E. induction cmds1 as [|x l IH]; cbn in Hs; apply StronglySorted_inv in Hs as [Hs Hf];
      [done|by apply IH]. }
  eapply Forall_impl; [exact Hr|]. intros later Hlt. cbn in Hlt. destruct cmd, later; cbn in Hlt; done || lia.
Qed.

(** *** The dirty mark

    The constructor marks the irreversible data dirty; [join] removes the mark only when
    every processor was joined without an exception. *)
Definition mark_irreversible_data_as_dirty (is_dirty : bool) : list (list db_command) :=
  [[if is_dirty then SetIrreversibleDirty else SetIrreversibleNotDirty]].

Definition reindex_create : list (list db_command) := mark_irreversible_data_as_dirty true.

Definition reindex_join {P} (join : P -> outcome exn unit * P) (processors : list P) :
    outcome exn unit * list P * list (list db_command) :=
  match join_processors join processors with
  | (Ok _, ps) => (Ok tt, ps, mark_irreversible_data_as_dirty false)
  | (Throw e, ps) => (Throw e, ps, [])
  end.

(** What the mark is after a list of commands. *)
Definition mark_command (d : bool) (cmd : db_command) : bool :=
  match cmd with SetIrreversibleDirty => true | SetIrreversibleNotDirty => false | _ => d end.

Definition mark_after (txs : list (list db_command)) : bool := foldl mark_command false (concat txs).

Definition no_mark (cmd : db_command) : Prop :=
  match cmd with SetIrreversibleDirty | SetIrreversibleNotDirty => False | _ => True end.

Lemma no_mark_fold d cmds : Forall no_mark cmds -> foldl mark_command d cmds = d.
Proof. induction 1 as [|cmd cmds Hc _ IH]; [done|]. cbn. by destruct cmd. Qed.

Lemma copy_no_mark {A} (copy : list A -> db_command) data :
  (forall r, no_mark (copy r)) -> Forall no_mark (copy_to_table copy data).
Proof. intros Hc. destruct data; repeat constructor. apply Hc. Qed.

Lemma writer_no_mark {A} (copy : list A -> db_command) data :
  (forall r, no_mark (copy r)) -> Forall no_mark (concat (writer_transactions copy data)).
Proof. intros Hc. destruct data; repeat constructor. apply Hc. Qed.

Lemma splitter_no_mark {A} (copy : list A -> db_command) data threads :
  (forall r, no_mark (copy r)) -> Forall no_mark (concat (splitter_transactions copy data threads)).
Proof.
  intros Hc. unfold splitter_transactions. induction (split_for_writers data threads) as [|v vs IH];
    [constructor|]. cbn. rewrite concat_app. apply Forall_app. split; [by apply writer_no_mark|done].
Qed.

Lemma flush_no_mark mode ot trt at_ c n txs c' :
  reindex_trigger_data_flush mode ot trt at_ c n = (txs, c') -> Forall no_mark (concat txs).
Proof.
  destruct mode; cbn [reindex_trigger_data_flush]; intros [= <- _].
  - cbn [concat app]. apply Forall_app. split.
    + unfold synchronous_transaction. repeat (apply Forall_app; split); by apply copy_no_mark.
    + case_match; repeat constructor.
  - unfold parallel_transactions, end_massive_sync_callback. rewrite !concat_app.
    repeat (apply Forall_app; split); try by apply writer_no_mark; try by apply splitter_no_mark.
    all: try by apply splitter_no_mark. case_match; repeat constructor.
Qed.

(** A replay: the dumper is created, flushed any number of times and joined. *)
Definition reindex_run {P} (join : P -> outcome exn unit * P) (processors : list P)
    (mode : bool) (ot trt at_ : nat) (batches : list (cached_data_t operation * Z)) :
    list (list db_command) :=
  reindex_create ++
  concat (map (fun '(c, n) => fst (reindex_trigger_data_flush mode ot trt at_ c n)) batches) ++
  snd (reindex_join join processors).

(** The irreversible data is left marked dirty exactly when some writer ended with an
    exception: a replay whose join throws is cleaned up at the next start. *)
Theorem failed_replay_stays_dirty {P} (join : P -> outcome exn unit * P) ps mode ot trt at_ batches :
  mark_after (reindex_run join ps mode ot trt at_ batches) = false <->
  Forall (fun p => fst (join p) = Ok tt) ps.
Proof.
  unfold mark_after, reindex_run. rewrite !concat_app, !foldl_app.
  assert (Forall no_mark (concat (concat
    (map (fun '(c, n) => fst (reindex_trigger_data_flush mode ot trt at_ c n)) batches)))) as Hb.
  { induction batches as [|[c n] batches IH]; [constructor|]. cbn [map concat]. rewrite concat_app.
    apply Forall_app. split; [|done].
    destruct (reindex_trigger_data_flush mode ot trt at_ c n) eqn:E. by eapply flush_no_mark. }
  rewrite (no_mark_fold _ _ Hb), <- coalesce_ok. unfold reindex_join.
  destruct (join_processors join ps) as [[[]|e] qs]; cbn; done.
Qed.

End reindex.
Arguments db_command : clear implicits.
Arguments written : clear implicits.

Module DumperExamples.

Definition cfg : live_config :=
  {| lc_operations_threads := 2; lc_transactions_threads := 1; lc_account_operation_threads := 3;
     lc_psql_first_block := 1; lc_lite_mode := false |}.

Definition decode (text : list ascii) : list Z := map byte_val text.
Definition no_text {A} (_ : A) : list ascii := [].

Definition one_block (n : Z) : cached_data_t unit := CacheExamples.rows [n].

#[local] Abbreviation flush := (live_trigger_data_flush decode hex2 no_text no_text no_text).
#[local] Abbreviation command := (block_command decode hex2 no_text no_text no_text).

Ltac small := unfold block_fits, fits, UINT32_MAX, INT32_MAX; cbn; split_and!; lia.

Lemma live_flush_sends_the_block_witness :
  exists ld', flush cfg (one_block 7) 7 (new_live_dumper cfg) =
      (Ok [command false (one_block 7)], ld', clear_containers (one_block 7)) /\
    clean cfg ld' /\ ld_last_dumped_block ld' = 7.
Proof.
  apply (live_flush_sends_the_block decode hex2 no_text no_text no_text cfg);
    [by split_and!|small|reflexivity|unfold UINT32_MAX; lia].
Defined.

Lemma live_flushes_send_each_block_witness :
  exists ld', run_dumps (dumper := live_data_dumper decode hex2 no_text no_text no_text cfg)
      [(one_block 7, 7); (one_block 8, 8)] (new_live_dumper cfg) =
    (Ok [command false (one_block 7); command false (one_block 8)], ld').
Proof.
  apply (live_flushes_send_each_block decode hex2 no_text no_text no_text cfg
    [(one_block 7, 7); (one_block 8, 8)]).
  rewrite !Forall_cons, Forall_nil. unfold live_accepts.
  split_and!; try done; try small; unfold UINT32_MAX; cbn; lia.
Defined.

Definition flushed : live_dumper := snd (fst (flush cfg (one_block 7) 7 (new_live_dumper cfg))).

Lemma block_fail_rewinds_the_dumped_block_witness :
  on_block_fail 7 flushed = on_switch_fork 6 /\ on_block_fail 8 flushed = [].
Proof.
  assert (forall m, 0 < m <= UINT32_MAX ->
    on_block_fail m flushed = if m =? 7 then on_switch_fork (7 - 1) else []) as H.
  { intros m Hm.
    apply (block_fail_rewinds_the_dumped_block decode hex2 no_text no_text no_text cfg (one_block 7) 7
      (new_live_dumper cfg) (fst (fst (flush cfg (one_block 7) 7 (new_live_dumper cfg)))) flushed
      (snd (flush cfg (one_block 7) 7 (new_live_dumper cfg))) m);
      [by split_and!|small|reflexivity|unfold UINT32_MAX; lia|done|reflexivity]. }
  split; apply H; unfold UINT32_MAX; lia.
Defined.

(** The writers commit in the reverse order. *)
Definition committed : list (list (db_command unit)) :=
  rev (parallel_transactions 2 1 1 (CacheExamples.rows [5; 6; 7])) ++ [[EndMassiveSync 7]].

Lemma reindex_flush_writes_the_cache_witness :
  write_commands nothing_written (concat committed) ≡ cache_rows (CacheExamples.rows [5; 6; 7]) /\
  last committed = Some [EndMassiveSync 7].
Proof.
  destruct (reindex_flush_writes_the_cache false 2 1 1 (CacheExamples.rows [5; 6; 7]) 7 committed)
    as (Hw & Hl & _); [small|small|small|unfold INT32_MAX; lia| |by split].
  exists (rev (parallel_transactions 2 1 1 (CacheExamples.rows [5; 6; 7]))).
  split; [symmetry; apply Permutation_rev|reflexivity].
Defined.

End DumperExamples.
