(* ===== verification/BatchPipeline.v ===== *)
(** * A replay: writers, their processors and the rendezvous together

    Models the composition made by [reindex_data_dumper.cpp]: the thread that flushes triggers
    every writer with its part of a batch ([container_data_writer.h],
    [chunks_for_writers_spillter.h]); every writer has a [data_processor] whose worker writes
    the part ([queries_commit_data_processor.cpp]) and reports it to the one
    [block_num_rendezvous_trigger], which tells the [end_massive_sync_processor] that the batch
    is complete.

    The processors are those of DataProcessor and the rendezvous is that of Writers; a step is
    one critical section of one thread.  The theorems show that the composed system keeps the
    reports in the order the rendezvous needs. *)

From S2P Require Import Prelude Text DataProcessor Writers Dumpers.
From Stdlib Require Import ZArith Lia Ascii String.
From stdpp Require Import base list strings gmap sorting.

Open Scope Z_scope.

(** ** Creation of the writers *)

(** [chunks_for_sql_writers_splitter]: the number of threads is passed as [uint8_t]. *)
Definition sql_splitter_writers (number_of_threads : Z) (description : chars) : outcome string (list chars) :=
  let number_of_threads := wrap_u 8 number_of_threads in
  if 0 <? number_of_threads
  then Ok (map (fun writer_num => description ++ lit "_" ++ dec (Z.of_nat writer_num)) (seq 0 (Z.to_nat number_of_threads)))
  else Throw "number_of_threads > 0"%string.

(** [chunks_for_string_writers_splitter]: a text and a writer per thread. *)
Definition string_splitter_writers (number_of_threads : Z) (description : chars) :
    outcome string (list (chars * list ascii)) :=
  if 0 <? number_of_threads
  then Ok (map (fun writer_num => (description ++ lit "_" ++ dec (Z.of_nat writer_num), []))
             (seq 0 (Z.to_nat number_of_threads)))
  else Throw "number_of_threads > 0"%string.

(** The writers of [reindex_data_dumper], in the order a flush triggers them. *)
Definition replay_writers (operations_threads transactions_threads account_operation_threads : Z) :
    outcome string (list chars) :=
  transaction_writer ← sql_splitter_writers transactions_threads (lit "Transaction data writer");
  operation_writer ← sql_splitter_writers operations_threads (lit "Operation data writer");
  account_operations_writer ← sql_splitter_writers account_operation_threads (lit "Account operations data writer");
  Ok ([lit "Block data writer"] ++ transaction_writer ++ operation_writer ++
      [lit "Transaction multisig data writer"; lit "Accounts data writer"] ++ account_operations_writer ++
      [lit "Hardfork data writer"]).

(** The number the rendezvous waits for. *)
Definition replay_processors_threads (operations_threads transactions_threads account_operation_threads : Z) : Z :=
  u32 (u32 (u32 (Z.of_nat ONE_THREAD_WRITERS_NUMBER + operations_threads) + transactions_threads)
       + account_operation_threads).

(** ** The composed system *)

Section replay.
  Context {D : Type}.
  Context (process : nat -> D -> option exn).      (* the function of each writer *)
  Context (callback : Z -> option exn).            (* execute_end_massive_sync_callback *)
  Context (number_of_threads : Z).

(** A flush: its last block and the part of each writer, [None] when it is empty. *)
Record replay_flush := { fl_last_block_num : Z; fl_parts : list (option D) }.

(** [container_data_writer::trigger]: an empty part is only reported. *)
Definition batch_of (last_block_num : Z) (part : option D) : @queued_batch D :=
  match part with
  | Some d => {| qb_data := Some d; qb_last_block_num := last_block_num; qb_report_only := false |}
  | None => {| qb_data := None; qb_last_block_num := last_block_num; qb_report_only := true |}
  end.

(** A writer: its processor, and the batch for which its worker is about to call the
    function of the rendezvous. *)
Record writer := { wr_processor : @processor D; wr_firing : option Z }.

Record replay_state := {
  rp_todo : list (nat * @queued_batch D);     (* the triggers still to be called *)
  rp_writers : list writer;
  rp_completed : gmap Z Z;                 (* m_completed_threads *)
  rp_fired : list Z;                       (* calls of the function *)
  rp_failed : bool                         (* More threads reported *)
}.

Definition set_writers (ws : list writer) (s : replay_state) : replay_state :=
  {| rp_todo := rp_todo s; rp_writers := ws; rp_completed := rp_completed s; rp_fired := rp_fired s;
     rp_failed := rp_failed s |}.

Definition triggers_of (f : replay_flush) : list (nat * @queued_batch D) :=
  imap (fun i part => (i, batch_of (fl_last_block_num f) part)) (fl_parts f).

Definition replay_init (n : nat) (flushes : list replay_flush) : replay_state :=
  {| rp_todo := concat (map triggers_of flushes);
     rp_writers := replicate n {| wr_processor := new_processor; wr_firing := None |};
     rp_completed := ∅; rp_fired := []; rp_failed := false |}.

(** What the worker of writer [i] does outside of the rendezvous. *)
Definition worker_alone (i : nat) (p : @processor D) : option processor :=
  match dp_worker p with
  | Waiting => worker_wake p
  | Taken _ => worker_process (on_chunk (process i)) p
  | Reported _ => worker_drained p
  | Failing _ _ _ => handle_exception p
  | Processed batch => if qb_last_block_num batch =? 0 then worker_report (fun _ => None) p else None
  | Failed _ _ _ | Finished => None
  end.

(** [report_complete_thread_stage] for the batch just processed: [insert_or_visit], after which
    the worker calls the function, returns or throws. *)
Definition report_begin (w : writer) (s : replay_state) : option (writer * replay_state) :=
  match wr_firing w, dp_worker (wr_processor w) with
  | None, Processed batch =>
      let b := qb_last_block_num batch in
      if b =? 0 then None
      else if number_of_threads =? 1 then
        p ← worker_report callback (wr_processor w);
        Some ({| wr_processor := p; wr_firing := None |},
              {| rp_todo := rp_todo s; rp_writers := rp_writers s; rp_completed := rp_completed s;
                 rp_fired := rp_fired s ++ [b]; rp_failed := rp_failed s |})
      else
        let '(o, m) := insert_or_visit number_of_threads b (rp_completed s) in
        let s' := {| rp_todo := rp_todo s; rp_writers := rp_writers s; rp_completed := m; rp_fired := rp_fired s;
                     rp_failed := match o with Ok _ => rp_failed s | Throw _ => true end |} in
        match o with
        | Ok true => Some ({| wr_processor := wr_processor w; wr_firing := Some b |}, s')
        | Ok false =>
            p ← worker_report (fun _ => None) (wr_processor w);
            Some ({| wr_processor := p; wr_firing := None |}, s')
        | Throw _ =>
            p ← worker_report (fun _ => Some OtherError) (wr_processor w);
            Some ({| wr_processor := p; wr_firing := None |}, s')
        end
  | _, _ => None
  end.

(** The entry is erased and the function called. *)
Definition report_end (w : writer) (s : replay_state) : option (writer * replay_state) :=
  match wr_firing w with
  | Some b =>
      p ← worker_report callback (wr_processor w);
      Some ({| wr_processor := p; wr_firing := None |},
            {| rp_todo := rp_todo s; rp_writers := rp_writers s; rp_completed := delete b (rp_completed s);
               rp_fired := rp_fired s ++ [b]; rp_failed := rp_failed s |})
  | None => None
  end.

Definition set_processor (p : @processor D) (w : writer) : writer :=
  {| wr_processor := p; wr_firing := wr_firing w |}.

(** The flushing thread triggers the writers in turn and joins them when there are no more
    batches; the workers run in between. *)
Inductive replay_step : replay_state -> replay_state -> Prop :=
| RpTrigger s i b rest l1 w l2 p :
    rp_todo s = (i, b) :: rest -> rp_writers s = l1 ++ w :: l2 -> length l1 = i ->
    enqueue b (wr_processor w) = Some p ->
    replay_step s {| rp_todo := rest; rp_writers := l1 ++ set_processor p w :: l2;
                     rp_completed := rp_completed s; rp_fired := rp_fired s; rp_failed := rp_failed s |}
| RpWorker s l1 w l2 p :
    rp_writers s = l1 ++ w :: l2 -> worker_alone (length l1) (wr_processor w) = Some p ->
    replay_step s (set_writers (l1 ++ set_processor p w :: l2) s)
| RpReport s l1 w l2 w' s' :
    rp_writers s = l1 ++ w :: l2 -> report_begin w s = Some (w', s') ->
    replay_step s (set_writers (l1 ++ w' :: l2) s')
| RpFire s l1 w l2 w' s' :
    rp_writers s = l1 ++ w :: l2 -> report_end w s = Some (w', s') ->
    replay_step s (set_writers (l1 ++ w' :: l2) s')
| RpJoin s l1 w l2 :
    rp_todo s = [] -> rp_writers s = l1 ++ w :: l2 ->
    replay_step s (set_writers (l1 ++ set_processor (join_begin (wr_processor w)) w :: l2) s).

(** ** What each writer is given *)

(** The batches of writer [i], in the order of the flushes, and those not triggered yet. *)
Definition own (i : nat) (flushes : list replay_flush) : list queued_batch :=
  map (fun f => batch_of (fl_last_block_num f) (mjoin (fl_parts f !! i))) flushes.

Definition todo_of (i : nat) (todo : list (nat * @queued_batch D)) : list queued_batch :=
  omap (fun '(j, b) => if decide (i = j) then Some b else None) todo.

Lemma todo_of_app i l1 l2 : todo_of i (l1 ++ l2) = todo_of i l1 ++ todo_of i l2.
Proof. apply omap_app. Qed.

Lemma todo_of_imap i k n parts :
  todo_of i (imap (fun j part => (k + j, batch_of n part)%nat) parts)
  = if decide (k <= i)%nat then option_list (batch_of n <$> parts !! (i - k)%nat) else [].
Proof.
  revert k. induction parts as [|part parts IH]; intros k; cbn [imap].
  { by case_decide. }
  rewrite (imap_ext (_ ∘ S) (fun j part => (S k + j, batch_of n part)%nat)) by (intros; cbn; f_equal; lia).
  specialize (IH (S k)). unfold todo_of in *. cbn [omap list_omap]. rewrite IH, Nat.add_0_r.
  destruct (decide (i = k)) as [->|Hne].
  - rewrite decide_False by lia. rewrite decide_True by lia. by rewrite Nat.sub_diag.
  - destruct (decide (k <= i)%nat) as [Hle|Hle].
    + rewrite decide_True by lia. replace (i - k)%nat with (S (i - S k)) by lia. done.
    + by rewrite decide_False by lia.
Qed.

Lemma todo_of_plan n i flushes :
  Forall (fun f => length (fl_parts f) = n) flushes -> (i < n)%nat ->
  todo_of i (concat (map triggers_of flushes)) = own i flushes.
Proof.
  intros Hl Hi. induction Hl as [|f flushes Hf _ IH]; [done|].
  cbn [map concat own]. rewrite todo_of_app, IH. pose proof (todo_of_imap i 0 (fl_last_block_num f) (fl_parts f)) as E.
  cbn in E. unfold triggers_of. rewrite E, Nat.sub_0_r.
  destruct (lookup_lt_is_Some_2 (fl_parts f) i) as [part Hp]; [lia|]. by rewrite Hp.
Qed.

(** ** The invariant *)

Definition reported_by (w : writer) : list Z := dp_reported (wr_processor w) ++ option_list (wr_firing w).

Record writer_inv (batches todo : list queued_batch) (last : Prop) (w : writer) : Prop := {
  wi_processor : dp_inv (wr_processor w);
  wi_prefix : dp_accepted (wr_processor w) `prefix_of` batches;
  wi_open : dp_cancel (wr_processor w) = false ->
    dp_accepted (wr_processor w) ++ todo = batches /\ (dp_continue (wr_processor w) = false -> last);
  wi_closed : dp_cancel (wr_processor w) = true -> dp_continue (wr_processor w) = false;
  wi_firing : forall b, wr_firing w = Some b ->
    exists batch, dp_worker (wr_processor w) = Processed batch /\ qb_last_block_num batch = b /\ b <> 0
}.

(** The thread of the rendezvous that a writer is. *)
Definition thread_of (bs : list Z) (w : writer) : reporter :=
  {| r_done := reported_by w; r_firing := wr_firing w; r_todo := drop (length (reported_by w)) bs |}.

Definition rendezvous_of (bs : list Z) (s : replay_state) : rendezvous :=
  {| rv_completed := rp_completed s; rv_fired := rp_fired s; rv_failed := rp_failed s;
     rv_threads := map (thread_of bs) (rp_writers s) |}.

(** *** One processor *)

Lemma worker_report_spec f (p p' : @processor D) batch :
  dp_worker p = Processed batch -> worker_report f p = Some p' ->
  dp_accepted p' = dp_accepted p /\ dp_cancel p' = dp_cancel p /\ dp_continue p' = dp_continue p /\
  dp_reported p' = dp_reported p ++ report_of batch.
Proof.
  intros Hw E. unfold worker_report in E. rewrite Hw in E.
  destruct (if qb_last_block_num batch =? 0 then None else _); by injection E as <-.
Qed.

Lemma worker_alone_spec i (p p' : @processor D) :
  dp_inv p -> worker_alone i p = Some p' ->
  dp_inv p' /\ dp_accepted p' = dp_accepted p /\ dp_reported p' = dp_reported p /\
  (forall batch, dp_worker p = Processed batch -> qb_last_block_num batch = 0) /\
  ((dp_cancel p' = dp_cancel p /\ dp_continue p' = dp_continue p) \/
   (dp_cancel p' = true /\ dp_continue p' = false)).
Proof.
  intros I E. unfold worker_alone in E. destruct (dp_worker p) as [|b|b|b|b d e|b d e|] eqn:Ew; try done.
  - pose proof (worker_wake_inv _ _ I E) as I'. split; [done|]. unfold worker_wake in E. rewrite Ew in E.
    repeat case_match; simplify_eq; cbn; (split_and!; try done; by left).
  - pose proof (worker_process_inv _ _ _ I E) as I'. split; [done|]. unfold worker_process in E. rewrite Ew in E.
    case_match; simplify_eq; cbn; (split_and!; try done; by left).
  - destruct (Z.eqb_spec (qb_last_block_num b) 0) as [Hb|]; [|done].
    pose proof (worker_report_inv _ _ _ I E) as I'. split; [done|].
    destruct (worker_report_spec _ _ _ _ Ew E) as (-> & Hc & Hn & ->). unfold report_of. rewrite Hb. cbn.
    rewrite app_nil_r. split_and!; [done|done|by intros ? [= <-]|by left].
  - pose proof (worker_drained_inv _ _ I E) as I'. split; [done|]. unfold worker_drained in E. rewrite Ew in E.
    destruct (dp_queue p); simplify_eq; cbn; (split_and!; try done; by left).
  - pose proof (handle_exception_inv _ _ I E) as I'. split; [done|]. unfold handle_exception in E. rewrite Ew in E.
    simplify_eq; cbn. split_and!; try done. by right.
Qed.

Lemma numbers_reported (l : list (@queued_batch D)) :
  Forall (fun b => qb_last_block_num b <> 0) l -> concat (map report_of l) = map qb_last_block_num l.
Proof.
  induction 1 as [|b l Hb _ IH]; cbn; [done|]. rewrite IH. unfold report_of.
  by rewrite (proj2 (Z.eqb_neq _ _) Hb).
Qed.

Lemma prefix_map {A B} (f : A -> B) l1 l2 : l1 `prefix_of` l2 -> map f l1 `prefix_of` map f l2.
Proof. intros [k ->]. exists (map f k). apply map_app. Qed.

Lemma prefix_Forall {A} (P : A -> Prop) l1 l2 : l1 `prefix_of` l2 -> Forall P l2 -> Forall P l1.
Proof. intros [k ->] H. by apply Forall_app in H as [? _]. Qed.

Lemma processed_prefix batches todo last w :
  writer_inv batches todo last w -> dp_processed (wr_processor w) `prefix_of` batches.
Proof. intros [I Hp _ _ _]. etrans; [|exact Hp]. rewrite (inv_fifo _ I). by eexists. Qed.

Lemma reported_batches_prefix (p : @processor D) : dp_inv p -> reported_batches p `prefix_of` dp_processed p.
Proof.
  intros I. unfold reported_batches. destruct (dp_worker p) as [| |b| | | |] eqn:Ew; try done.
  pose proof (inv_last _ I _ Ew) as Hl. apply last_Some in Hl as [l ->]. rewrite removelast_last. by eexists.
Qed.

(** What a writer has reported, and what it reports next, follow what it has processed. *)
Lemma reported_prefix batches todo last w :
  writer_inv batches todo last w -> Forall (fun b => qb_last_block_num b <> 0) batches ->
  reported_by w `prefix_of` map qb_last_block_num (dp_processed (wr_processor w)) /\
  (forall batch, wr_firing w = None -> dp_worker (wr_processor w) = Processed batch ->
     reported_by w ++ [qb_last_block_num batch] = map qb_last_block_num (dp_processed (wr_processor w))).
Proof.
  intros Hi Hb. pose proof (processed_prefix _ _ _ _ Hi) as Hpr. destruct Hi as [I _ _ _ Hf].
  set (p := wr_processor w) in *. pose proof (prefix_Forall _ _ _ Hpr Hb) as Hnz.
  assert (dp_reported p = map qb_last_block_num (reported_batches p)) as Hrep.
  { rewrite (inv_reports _ I). apply numbers_reported. eapply prefix_Forall; [by apply reported_batches_prefix|done]. }
  assert (forall batch, dp_worker p = Processed batch ->
    dp_reported p ++ [qb_last_block_num batch] = map qb_last_block_num (dp_processed p)) as Hnext.
  { intros batch Hw. pose proof (inv_last _ I _ Hw) as Hl. apply last_Some in Hl as [l Hl].
    rewrite Hrep. unfold reported_batches. by rewrite Hw, Hl, removelast_last, map_app. }
  unfold reported_by. fold p. split.
  - destruct (wr_firing w) as [b|] eqn:Ef; cbn.
    + destruct (Hf b eq_refl) as (batch & Hw & <- & _). by rewrite Hnext by done.
    + rewrite app_nil_r, Hrep. by apply prefix_map, reported_batches_prefix.
  - intros batch Ef Hw. rewrite Ef. cbn. by rewrite app_nil_r, Hnext by done.
Qed.

(** A batch whose number is among the processed ones is processed at its place. *)
Lemma processed_at batches todo last w k b :
  writer_inv batches todo last w -> NoDup (map qb_last_block_num batches) -> batches !! k = Some b ->
  qb_last_block_num b ∈ map qb_last_block_num (dp_processed (wr_processor w)) ->
  dp_processed (wr_processor w) !! k = Some b.
Proof.
  intros Hi Hnd Hk Hin. pose proof (processed_prefix _ _ _ _ Hi) as Hp.
  apply list_elem_of_fmap in Hin as (b' & Hb & Hin). apply list_elem_of_lookup in Hin as [k' Hk'].
  pose proof (prefix_lookup_Some _ _ _ _ Hk' Hp) as Hk2.
  assert (k = k') as ->; [|congruence].
  apply (NoDup_lookup _ _ _ (qb_last_block_num b) Hnd).
  - change (map ?f ?l) with (f <$> l). by rewrite list_lookup_fmap, Hk.
  - change (map ?f ?l) with (f <$> l). by rewrite list_lookup_fmap, Hk2, Hb.
Qed.

(** A writer that was joined and has not failed has processed and reported everything. *)
Lemma joined_writer batches todo (last : Prop) w :
  dp_worker (wr_processor w) = Finished -> dp_cancel (wr_processor w) = false ->
  Forall (fun b => qb_last_block_num b <> 0) batches -> (last -> todo = []) -> writer_inv batches todo last w ->
  dp_processed (wr_processor w) = batches /\ wr_firing w = None /\ reported_by w = map qb_last_block_num batches.
Proof.
  intros Hfin Hcan Hnz Hlast [I Hp Ho Hc Hf]. destruct (Ho Hcan) as [Ha Hl].
  rewrite (Hlast (Hl (inv_stopped _ I Hfin))), app_nil_r in Ha.
  pose proof (inv_fifo _ I) as Hq. rewrite Hfin, (inv_finished _ I Hfin Hcan), Ha, app_nil_r in Hq.
  assert (wr_firing w = None) as Hnf.
  { destruct (wr_firing w) as [b|]; [|done]. destruct (Hf b eq_refl) as (? & ? & _). congruence. }
  split_and!; [done..|]. unfold reported_by. rewrite Hnf. cbn.
  rewrite app_nil_r, (inv_reports _ I). unfold reported_batches. rewrite Hfin, <- Hq. by apply numbers_reported.
Qed.

Lemma prefix_full (l bs : list Z) : NoDup bs -> l `prefix_of` bs -> (forall b, b ∈ bs -> b ∈ l) -> l = bs.
Proof.
  intros Hnd [k ->] Hin. destruct k as [|b k]; [by rewrite app_nil_r|]. exfalso.
  apply NoDup_app in Hnd as (_ & Hd & _). apply (Hd b); [apply Hin; set_solver|left].
Qed.

(** *** The reports are those of the rendezvous *)

Lemma report_of_number (batch : @queued_batch D) :
  qb_last_block_num batch <> 0 -> report_of batch = [qb_last_block_num batch].
Proof. intros H. unfold report_of. by rewrite (proj2 (Z.eqb_neq _ _) H). Qed.

Lemma drop_prefix_snoc {A} (l : list A) x l' :
  l ++ [x] `prefix_of` l' -> drop (length l) l' = x :: drop (length (l ++ [x])) l'.
Proof.
  intros [k ->]. rewrite drop_app_length. rewrite <- app_assoc, drop_app_length. done.
Qed.

Lemma report_begin_visit batches todo last w s w' s' :
  writer_inv batches todo last w -> Forall (fun b => qb_last_block_num b <> 0) batches ->
  report_begin w s = Some (w', s') ->
  let bs := map qb_last_block_num batches in
  writer_inv batches todo last w' /\ rp_todo s' = rp_todo s /\ rp_writers s' = rp_writers s /\
  report_visit number_of_threads (thread_of bs w) (rendezvous_of bs s) = Some (thread_of bs w', rendezvous_of bs s').
Proof.
  intros Hi Hb E bs. destruct (reported_prefix _ _ _ _ Hi Hb) as [_ Hnext].
  pose proof (prefix_map qb_last_block_num _ _ (processed_prefix _ _ _ _ Hi)) as Hpr.
  pose proof Hi as [I Hp Ho Hc Hf]. unfold report_begin in E.
  destruct (wr_firing w) eqn:Ef; [done|]. destruct (dp_worker (wr_processor w)) as [| |batch| | | |] eqn:Ew; try done.
  specialize (Hnext batch eq_refl eq_refl). rewrite <- Hnext in Hpr. pose proof (drop_prefix_snoc _ _ _ Hpr) as Hd. fold bs in Hd.
  destruct (Z.eqb_spec (qb_last_block_num batch) 0) as [|Hn]; [done|].
  assert (forall f p, worker_report f (wr_processor w) = Some p ->
    writer_inv batches todo last {| wr_processor := p; wr_firing := None |} /\
    thread_of bs {| wr_processor := p; wr_firing := None |}
    = {| r_done := reported_by w ++ [qb_last_block_num batch]; r_firing := None;
         r_todo := drop (length (reported_by w ++ [qb_last_block_num batch])) bs |}) as Hrep.
  { intros f p Er. destruct (worker_report_spec _ _ _ _ Ew Er) as (Ha & Hca & Hco & Hr). split.
    - constructor; cbn; rewrite ?Ha, ?Hca, ?Hco; try done. by eapply worker_report_inv.
    - unfold thread_of, reported_by. cbn. by rewrite Ef, Hr, report_of_number, !app_nil_r. }
  unfold report_visit. cbn [thread_of r_firing r_todo]. rewrite Ef, Hd. unfold rendezvous_of. cbn.
  destruct (number_of_threads =? 1) eqn:E1.
  - destruct (worker_report _ _) as [p|] eqn:Er; [|done]. cbn in E. injection E as <- <-.
    destruct (Hrep _ _ Er) as [? ->]. done.
  - destruct (insert_or_visit _ _ _) as [o m]. destruct o as [[]|].
    + injection E as <- <-. cbn. split; [|split_and!; try done].
      * constructor; cbn; try done. intros b [= <-]. eauto.
      * unfold thread_of, reported_by. cbn. by rewrite Ef, app_nil_r.
    + destruct (worker_report _ _) as [p|] eqn:Er; [|done]. cbn in E. injection E as <- <-.
      destruct (Hrep _ _ Er) as [? ->]. done.
    + destruct (worker_report _ _) as [p|] eqn:Er; [|done]. cbn in E. injection E as <- <-.
      destruct (Hrep _ _ Er) as [? ->]. done.
Qed.

Lemma report_end_fire batches todo last w s w' s' :
  writer_inv batches todo last w -> report_end w s = Some (w', s') ->
  let bs := map qb_last_block_num batches in
  writer_inv batches todo last w' /\ rp_todo s' = rp_todo s /\ rp_writers s' = rp_writers s /\
  report_fire (thread_of bs w) (rendezvous_of bs s) = Some (thread_of bs w', rendezvous_of bs s').
Proof.
  intros [I Hp Ho Hc Hf] E bs. unfold report_end in E. destruct (wr_firing w) as [b|] eqn:Ef; [|done].
  destruct (Hf b eq_refl) as (batch & Ew & Hb & Hn). destruct (worker_report _ _) as [p|] eqn:Er; [|done].
  cbn in E. injection E as <- <-. destruct (worker_report_spec _ _ _ _ Ew Er) as (Ha & Hca & Hco & Hr).
  split; [|split_and!; try done].
  - constructor; cbn; rewrite ?Ha, ?Hca, ?Hco; try done. by eapply worker_report_inv.
  - unfold report_fire, thread_of, reported_by. cbn. rewrite Ef, Hr, report_of_number, !app_nil_r by congruence.
    cbn. by rewrite Hb.
Qed.

(** *** All writers *)

Definition block_nums (flushes : list replay_flush) : list Z := map fl_last_block_num flushes.

Lemma own_numbers i flushes : map qb_last_block_num (own i flushes) = block_nums flushes.
Proof.
  unfold own, block_nums. rewrite map_map. apply map_ext. intros f. by destruct (mjoin (fl_parts f !! i)).
Qed.

Lemma own_nonzero i flushes :
  Forall (fun b => b <> 0) (block_nums flushes) -> Forall (fun b => qb_last_block_num b <> 0) (own i flushes).
Proof. rewrite <- (own_numbers i flushes). by rewrite Forall_map. Qed.

Record writers_ok (n : nat) (flushes : list replay_flush) (s : replay_state) : Prop := {
  wo_length : length (rp_writers s) = n;
  wo_writers : forall i w, rp_writers s !! i = Some w ->
    writer_inv (own i flushes) (todo_of i (rp_todo s)) (rp_todo s = []) w
}.

Lemma replace_writer (P : nat -> writer -> Prop) l1 w w' l2 :
  (forall i x, i <> length l1 -> (l1 ++ w :: l2) !! i = Some x -> P i x) -> P (length l1) w' ->
  forall i x, (l1 ++ w' :: l2) !! i = Some x -> P i x.
Proof.
  intros H Hw i x Hx. destruct (decide (i = length l1)) as [->|Hne].
  - rewrite list_lookup_middle in Hx by done. by injection Hx as <-.
  - apply H; [done|]. destruct (decide (i < length l1)%nat).
    + rewrite lookup_app_l in Hx |- * by lia. done.
    + rewrite lookup_app_r in Hx |- * by lia. destruct (i - length l1)%nat eqn:E; [lia|done].
Qed.

Lemma same_rendezvous bs l1 w w' l2 s todo :
  rp_writers s = l1 ++ w :: l2 -> reported_by w' = reported_by w -> wr_firing w' = wr_firing w ->
  rendezvous_of bs {| rp_todo := todo; rp_writers := l1 ++ w' :: l2; rp_completed := rp_completed s;
                      rp_fired := rp_fired s; rp_failed := rp_failed s |} = rendezvous_of bs s.
Proof.
  intros Hs Hr Hf. unfold rendezvous_of. cbn. rewrite Hs, !map_app. cbn. unfold thread_of. by rewrite Hr, Hf.
Qed.

Lemma enqueue_writer batches b rest w p :
  writer_inv batches (b :: rest) False w -> enqueue b (wr_processor w) = Some p ->
  forall last, writer_inv batches rest last (set_processor p w) /\ reported_by (set_processor p w) = reported_by w.
Proof.
  intros [I Hp Ho Hc Hf] E last. pose proof (enqueue_inv _ _ _ I E) as I'.
  unfold enqueue in E. case_match; [|done]. destruct (dp_cancel (wr_processor w)) eqn:Ec.
  - rewrite (Hc eq_refl) in E. cbn in E. injection E as <-. split; [|by destruct w].
    constructor; cbn; rewrite ?Ec; try done.
  - destruct (Ho eq_refl) as [Ha Hl]. destruct (dp_continue (wr_processor w)) eqn:En; [|by destruct Hl].
    destruct (length (dp_queue (wr_processor w)) <? MAX_QUEUED_CHUNKS)%nat; [|done]. cbn in E. injection E as <-.
    split; [|done]. constructor; cbn; rewrite ?Ec; try done.
    + exists rest. by rewrite <- app_assoc.
    + intros _. split; [by rewrite <- app_assoc|done].
Qed.

Lemma todo_of_cons i j b rest :
  todo_of i ((j, b) :: rest) = if decide (i = j) then b :: todo_of i rest else todo_of i rest.
Proof. unfold todo_of. cbn. by destruct (decide (i = j)). Qed.

Lemma writer_inv_weaken batches todo (last last' : Prop) w :
  (last -> last') -> writer_inv batches todo last w -> writer_inv batches todo last' w.
Proof. intros Hl [? ? Ho ? ?]. constructor; try done. intros Hc. destruct (Ho Hc). split; [done|]. intros. by auto. Qed.

Context (n : nat) (flushes : list replay_flush).
Hypothesis nonzero : Forall (fun b => b <> 0) (block_nums flushes).

Lemma replay_init_writers :
  Forall (fun f => length (fl_parts f) = n) flushes -> writers_ok n flushes (replay_init n flushes).
Proof.
  intros Hparts. constructor; cbn [replay_init rp_writers rp_todo].
  - apply length_replicate.
  - intros i w Hw. apply lookup_replicate in Hw as [-> Hi]. rewrite (todo_of_plan n) by done.
    constructor; cbn; try done; [apply new_processor_inv|apply prefix_nil].
Qed.

Lemma writer_at s l1 w l2 :
  writers_ok n flushes s -> rp_writers s = l1 ++ w :: l2 ->
  writer_inv (own (length l1) flushes) (todo_of (length l1) (rp_todo s)) (rp_todo s = []) w.
Proof. intros [_ Hw] Hs. apply Hw. rewrite Hs. by apply list_lookup_middle. Qed.

Lemma writers_ok_replace s l1 w l2 w' s' :
  writers_ok n flushes s -> rp_writers s = l1 ++ w :: l2 -> rp_todo s' = rp_todo s ->
  writer_inv (own (length l1) flushes) (todo_of (length l1) (rp_todo s)) (rp_todo s = []) w' ->
  writers_ok n flushes (set_writers (l1 ++ w' :: l2) s').
Proof.
  intros [Hl Hw] Hs Ht Hw'. constructor; cbn; [|rewrite Ht].
  - rewrite <- Hl, Hs, !length_app. done.
  - rewrite Hs in Hw. eapply (replace_writer (fun i w => writer_inv (own i flushes) (todo_of i (rp_todo s)) (rp_todo s = []) w) l1 w);
      [|done]. eauto.
Qed.

Lemma trigger_writers s i b rest l1 w l2 p :
  writers_ok n flushes s -> rp_todo s = (i, b) :: rest -> rp_writers s = l1 ++ w :: l2 -> length l1 = i ->
  enqueue b (wr_processor w) = Some p ->
  writers_ok n flushes {| rp_todo := rest; rp_writers := l1 ++ set_processor p w :: l2;
    rp_completed := rp_completed s; rp_fired := rp_fired s; rp_failed := rp_failed s |} /\
  reported_by (set_processor p w) = reported_by w.
Proof.
  intros Hi Ht Hs <- E. pose proof (writer_at _ _ _ _ Hi Hs) as Hwi. destruct Hi as [Hl Hw].
  rewrite Ht, todo_of_cons, decide_True in Hwi by done. apply (writer_inv_weaken _ _ _ False) in Hwi; [|done].
  destruct (enqueue_writer _ _ _ _ _ Hwi E (rest = [])) as [Hnew Hrep]. split; [|done].
  rewrite Ht, Hs in Hw. constructor; cbn.
  - rewrite <- Hl, Hs, !length_app. done.
  - eapply (replace_writer (fun i w => writer_inv (own i flushes) (todo_of i rest) (rest = []) w) l1 w); [|done].
    intros j x Hne Hx. specialize (Hw j x Hx). rewrite todo_of_cons, decide_False in Hw by done.
    by eapply writer_inv_weaken; [|exact Hw].
Qed.

(** A step of a worker outside of the rendezvous, or of its join. *)
Lemma worker_alone_writer i batches todo last w p :
  writer_inv batches todo last w -> worker_alone i (wr_processor w) = Some p ->
  writer_inv batches todo last (set_processor p w) /\ reported_by (set_processor p w) = reported_by w.
Proof.
  intros [I Hp Ho Hc Hf] E. destruct (worker_alone_spec _ _ _ I E) as (I' & Ha & Hrep & Hnum & Hcase).
  assert (wr_firing w = None) as Hnf.
  { destruct (wr_firing w) as [b|]; [|done]. destruct (Hf b eq_refl) as (batch & Hb1 & Hb2 & Hb3).
    specialize (Hnum batch Hb1). congruence. }
  split; [|unfold reported_by; cbn; by rewrite Hrep]. constructor; cbn; rewrite ?Ha; try done.
  - intros Hcan. destruct Hcase as [[Hcc ->]|[Hcc _]]; [apply Ho; congruence|congruence].
  - destruct Hcase as [[-> ->]|[_ ->]]; [done|done].
  - intros b. by rewrite Hnf.
Qed.

Lemma join_writer batches todo (last : Prop) w :
  last -> writer_inv batches todo last w ->
  writer_inv batches todo last (set_processor (join_begin (wr_processor w)) w).
Proof.
  intros Hl [I Hp Ho Hc Hf]. constructor; cbn; try done; [|intros Hcan; by destruct (Ho Hcan)].
  eapply (dp_step_inv (fun _ => None) (fun _ => None)); [exact I|apply DpJoin].
Qed.

Lemma replay_step_writers s s' : writers_ok n flushes s -> replay_step s s' -> writers_ok n flushes s'.
Proof.
  intros Hi Hstep.
  destruct Hstep as [s i b rest l1 w l2 p Ht Hs Hlen E|s l1 w l2 p Hs E|s l1 w l2 w' s' Hs E|s l1 w l2 w' s' Hs E|s l1 w l2 Ht Hs];
    [|pose proof (writer_at _ _ _ _ Hi Hs) as Hw..].
  - by eapply trigger_writers.
  - eapply writers_ok_replace; [done..|]. by eapply worker_alone_writer.
  - destruct (report_begin_visit _ _ _ _ _ _ _ Hw (own_nonzero _ _ nonzero) E) as (Hw' & Ht & _). by eapply writers_ok_replace.
  - destruct (report_end_fire _ _ _ _ _ _ _ Hw E) as (Hw' & Ht & _). by eapply writers_ok_replace.
  - eapply writers_ok_replace; [done..|]. by apply join_writer.
Qed.

Lemma thread_split s l1 w l2 :
  rp_writers s = l1 ++ w :: l2 ->
  rv_threads (rendezvous_of (block_nums flushes) s)
  = map (thread_of (block_nums flushes)) l1 ++ thread_of (block_nums flushes) w :: map (thread_of (block_nums flushes)) l2.
Proof. intros Hs. cbn. by rewrite Hs, map_app. Qed.

Section agreeing.
Hypothesis range : 1 <= number_of_threads <= UINT32_MAX.
Hypothesis distinct : NoDup (block_nums flushes).

Lemma replay_step_rendezvous s s' :
  writers_ok n flushes s -> rv_inv number_of_threads (block_nums flushes) (rendezvous_of (block_nums flushes) s) ->
  replay_step s s' -> rv_inv number_of_threads (block_nums flushes) (rendezvous_of (block_nums flushes) s').
Proof.
  intros Hi Hr Hstep.
  destruct Hstep as [s i b rest l1 w l2 p Ht Hs Hlen E|s l1 w l2 p Hs E|s l1 w l2 w' s' Hs E|s l1 w l2 w' s' Hs E|s l1 w l2 Ht Hs];
    [|pose proof (writer_at _ _ _ _ Hi Hs) as Hw..].
  - destruct (trigger_writers _ _ _ _ _ _ _ _ Hi Ht Hs Hlen E) as [_ Hrep]. by rewrite (same_rendezvous _ l1 w).
  - unfold set_writers. destruct (worker_alone_writer _ _ _ _ _ _ Hw E) as [_ Hrep]. by rewrite (same_rendezvous _ l1 w).
  - destruct (report_begin_visit _ _ _ _ _ _ _ Hw (own_nonzero _ _ nonzero) E) as (_ & _ & _ & Hv).
    rewrite own_numbers in Hv.
    pose proof (visit_inv _ range _ _ _ _ _ _ _ Hr distinct (thread_split _ _ _ _ Hs) Hv) as Hnew.
    unfold set_writers, rendezvous_of. cbn. rewrite map_app. exact Hnew.
  - destruct (report_end_fire _ _ _ _ _ _ _ Hw E) as (_ & _ & _ & Hv). rewrite own_numbers in Hv.
    pose proof (fire_inv _ range _ _ _ _ _ _ _ Hr distinct (thread_split _ _ _ _ Hs) Hv) as Hnew.
    unfold set_writers, rendezvous_of. cbn. rewrite map_app. exact Hnew.
  - unfold set_writers. by rewrite (same_rendezvous _ l1 w).
Qed.

Lemma replay_reachable_inv s :
  number_of_threads = Z.of_nat n -> Forall (fun f => length (fl_parts f) = n) flushes ->
  rtc replay_step (replay_init n flushes) s ->
  writers_ok n flushes s /\ rv_inv number_of_threads (block_nums flushes) (rendezvous_of (block_nums flushes) s).
Proof.
  intros Hn Hparts Hr.
  assert (rv_inv number_of_threads (block_nums flushes) (rendezvous_of (block_nums flushes) (replay_init n flushes))) as H0.
  { pose proof (rv_init_inv number_of_threads (block_nums flushes) (proj1 range)) as H. unfold rv_init in H.
    rewrite Hn, Nat2Z.id, <- Hn in H. unfold rendezvous_of. cbn.
    change (map ?f ?l) with (f <$> l). by rewrite fmap_replicate. }
  pose proof (replay_init_writers Hparts) as Hw. clear Hn.
  induction Hr as [|x y z Hs _ IH]; [done|]. apply IH; [by eapply replay_step_rendezvous|by eapply replay_step_writers].
Qed.

(** C8: The function of the rendezvous is called for the batches in the order of the flushes, none
    twice, and for a batch only when every writer has put its part through its function; the
    assertion on the number of reports never fails; and when all writers are joined and none
    has failed, every part was processed and the function was called for every batch. *)
Theorem replay_batches_end_in_order s :
  number_of_threads = Z.of_nat n -> Forall (fun f => length (fl_parts f) = n) flushes ->
  rtc replay_step (replay_init n flushes) s ->
  rp_failed s = false /\ rp_fired s `prefix_of` block_nums flushes /\
  (forall k f i w, flushes !! k = Some f -> fl_last_block_num f ∈ rp_fired s -> rp_writers s !! i = Some w ->
     dp_processed (wr_processor w) !! k = Some (batch_of (fl_last_block_num f) (mjoin (fl_parts f !! i)))) /\
  ((forall w, w ∈ rp_writers s -> dp_worker (wr_processor w) = Finished /\ dp_cancel (wr_processor w) = false) ->
   rp_fired s = block_nums flushes /\
   (forall i w, rp_writers s !! i = Some w -> dp_processed (wr_processor w) = own i flushes)).
Proof.
  intros Hn Hparts Hr. destruct (replay_reachable_inv s Hn Hparts Hr) as [[Hl Hw] Hv].
  split_and!; [exact (rvi_failed _ _ _ Hv)|exact (rvi_fired _ _ _ Hv)| |].
  - intros k f i w Hf Hfired Hwi. specialize (Hw i w Hwi).
    assert (fl_last_block_num f ∈ reported_by w) as Hin.
    { destruct (rvi_phase _ _ _ Hv (fl_last_block_num f)) as [| | |Hc _ _ _]; try done.
      apply total_full in Hc. cbn in Hc. rewrite Forall_map, Forall_forall in Hc.
      apply (Hc w). by eapply list_elem_of_lookup_2. }
    apply (processed_at _ _ _ _ _ _ Hw).
    + by rewrite own_numbers.
    + unfold own. change (map ?g ?l) with (g <$> l). by rewrite list_lookup_fmap, Hf.
    + destruct (reported_prefix _ _ _ _ Hw (own_nonzero _ _ nonzero)) as [[x ->] _].
      destruct (mjoin (fl_parts f !! i)); cbn; set_solver.
  - intros Hdone.
    assert (forall i w, rp_writers s !! i = Some w -> dp_processed (wr_processor w) = own i flushes /\ wr_firing w = None /\
      reported_by w = block_nums flushes) as Hall.
    { intros i w Hwi. destruct (Hdone w) as [Hfin Hcan]; [by eapply list_elem_of_lookup_2|].
      rewrite <- (own_numbers i). eapply joined_writer; [done|done|by apply own_nonzero| |by apply Hw].
      by intros ->. }
    split; [|intros i w Hwi; by apply (Hall i w)].
    apply (prefix_full _ _ distinct (rvi_fired _ _ _ Hv)). intros b Hb. apply (all_reported_fired _ _ _ _ Hv).
    + cbn. destruct (rp_writers s); [|done]. cbn in Hl. lia.
    + cbn. rewrite Forall_map, Forall_forall. intros w Hwin. apply list_elem_of_lookup in Hwin as [i Hwi].
      destruct (Hall i w Hwi) as (_ & Hnf & Hrep). cbn. by rewrite Hrep, Hnf.
Qed.

End agreeing.

(** *** Fewer writers than the rendezvous waits for *)

Record waits_for_ever (r : rendezvous) : Prop := {
  we_fired : rv_fired r = [];
  we_firing : Forall (fun t => r_firing t = None) (rv_threads r);
  we_count : forall b c, rv_completed r !! b = Some c -> 0 <= c <= Z.of_nat (Writers.total (has_reported b) (rv_threads r))
}.

Lemma visit_waits r l1 t l2 t' r' :
  waits_for_ever r -> Z.of_nat (length (rv_threads r)) < number_of_threads <= UINT32_MAX ->
  rv_threads r = l1 ++ t :: l2 -> (forall b, head (r_todo t) = Some b -> b ∉ r_done t) ->
  report_visit number_of_threads t r = Some (t', r') -> waits_for_ever (with_threads (l1 ++ t' :: l2) r').
Proof.
  intros [Hf Hi Hc] Hn Hs Hnew E. unfold report_visit in E. destruct (r_firing t) eqn:Ef; [done|].
  destruct (r_todo t) as [|b todo]; [done|]. specialize (Hnew b eq_refl). rewrite Hs in Hi, Hc.
    pose proof (total_le (has_reported b) l1 (has_reported_le b)) as Hle1.
  pose proof (total_le (has_reported b) l2 (has_reported_le b)) as Hle2.
  assert (has_reported b t = 0%nat) as H0 by (unfold has_reported; by rewrite decide_False).
  rewrite Hs, length_app in Hn. cbn in Hn. rewrite (proj2 (Z.eqb_neq number_of_threads 1)) in E by lia.
  apply Forall_app in Hi as [Hi1 Hi2]. apply Forall_cons in Hi2 as [_ Hi2].
  assert (forall o m, insert_or_visit number_of_threads b (rv_completed r) = (o, m) ->
    (o <> Ok true) /\
    forall a c, m !! a = Some c -> if decide (a = b) then 0 <= c <= Z.of_nat (Writers.total (has_reported b) (l1 ++ t :: l2)) + 1
      else rv_completed r !! a = Some c) as Hiv.
  { intros o m Em. unfold insert_or_visit in Em. destruct (rv_completed r !! b) as [c|] eqn:Eb.
    - specialize (Hc b c Eb). rewrite u32_small in Em by (rewrite total_app in Hc; unfold UINT32_MAX in *; lia).
      injection Em as <- <-. split.
      + destruct (c + 1 <=? number_of_threads); [|done].
        rewrite (proj2 (Z.eqb_neq _ _)) by (rewrite total_app in Hc; lia). done.
      + intros a d Ha. destruct (decide (a = b)) as [->|Hne].
        * rewrite lookup_insert_eq in Ha. injection Ha as <-. lia.
        * by rewrite lookup_insert_ne in Ha.
    - injection Em as <- <-. split; [done|]. intros a d Ha. destruct (decide (a = b)) as [->|Hne].
      + rewrite lookup_insert_eq in Ha. injection Ha as <-. lia.
      + by rewrite lookup_insert_ne in Ha. }
  destruct (insert_or_visit _ _ _) as [o m]. destruct (Hiv o m eq_refl) as [Ho Hm]. injection E as <- <-.
  assert (1 <= number_of_threads <= UINT32_MAX) as Hrg by lia. constructor; cbn.
  - done.
  - apply Forall_app. split; [done|]. constructor; [|done]. cbn. by destruct o as [[]|].
  - intros a c Ha. specialize (Hm a c Ha). rewrite total_app. destruct (decide (a = b)) as [->|Hne].
    + rewrite total_app, H0 in Hm. rewrite (visit_same _ Hrg). lia.
    + specialize (Hc a c Hm). rewrite total_app in Hc. by rewrite (visit_other _ Hrg).
Qed.

Lemma next_is_new batches todo last w :
  writer_inv batches todo last w -> Forall (fun b => qb_last_block_num b <> 0) batches ->
  NoDup (map qb_last_block_num batches) ->
  forall b, head (r_todo (thread_of (map qb_last_block_num batches) w)) = Some b -> b ∉ reported_by w.
Proof.
  intros Hi Hb Hnd b Hh Hin. destruct (reported_prefix _ _ _ _ Hi Hb) as [Hp _].
  pose proof (prefix_map qb_last_block_num _ _ (processed_prefix _ _ _ _ Hi)) as Hpr.
  destruct (transitivity Hp Hpr) as [k Hk]. cbn in Hh. rewrite Hk, drop_app_length in Hh.
  rewrite Hk in Hnd. apply NoDup_app in Hnd as (_ & Hd & _). apply (Hd b Hin). destruct k; [done|].
  injection Hh as ->. left.
Qed.

(** A rendezvous that waits for more threads than there are writers never calls its function:
    no batch of the replay is ever ended. *)
Theorem too_few_writers_never_end_a_batch s :
  Z.of_nat n < number_of_threads <= UINT32_MAX -> NoDup (block_nums flushes) ->
  Forall (fun f => length (fl_parts f) = n) flushes ->
  rtc replay_step (replay_init n flushes) s -> rp_fired s = [].
Proof.
  intros Hn Hnd Hparts Hr.
  enough (writers_ok n flushes s /\ waits_for_ever (rendezvous_of (block_nums flushes) s)) as [_ [? _ _]] by done.
  assert (waits_for_ever (rendezvous_of (block_nums flushes) (replay_init n flushes))) as H0.
  { constructor; cbn; [done| |by intros b c; rewrite lookup_empty].
    rewrite Forall_map. by apply Forall_replicate. }
  pose proof (replay_init_writers Hparts) as Hw0.
  induction Hr as [|x y z Hs _ IH]; [done|]. apply IH; [|by eapply replay_step_writers].
  clear IH z. destruct Hs as [s i b rest l1 w l2 p Ht Hs Hlen E|s l1 w l2 p Hs E|s l1 w l2 w' s' Hs E|s l1 w l2 w' s' Hs E|s l1 w l2 Ht Hs];
    [|pose proof (writer_at _ _ _ _ Hw0 Hs) as Hw..].
  - destruct (trigger_writers _ _ _ _ _ _ _ _ Hw0 Ht Hs Hlen E) as [_ Hrep]. by rewrite (same_rendezvous _ l1 w).
  - unfold set_writers. destruct (worker_alone_writer _ _ _ _ _ _ Hw E) as [_ Hrep]. by rewrite (same_rendezvous _ l1 w).
  - destruct (report_begin_visit _ _ _ _ _ _ _ Hw (own_nonzero _ _ nonzero) E) as (_ & _ & _ & Hv).
    rewrite own_numbers in Hv. pose proof (next_is_new _ _ _ _ Hw (own_nonzero _ _ nonzero)) as Hnew.
    rewrite own_numbers in Hnew. specialize (Hnew Hnd).
    assert (Z.of_nat (length (rv_threads (rendezvous_of (block_nums flushes) s))) < number_of_threads <= UINT32_MAX) as Hlt
      by (cbn; by rewrite length_map, (wo_length _ _ _ Hw0)).
    pose proof (visit_waits _ _ _ _ _ _ H0 Hlt (thread_split _ _ _ _ Hs) Hnew Hv) as Hnew'.
    unfold set_writers, rendezvous_of. cbn. rewrite map_app. exact Hnew'.
  - exfalso. destruct H0 as [_ Hi _]. cbn in Hi. rewrite Forall_map, Hs in Hi. apply Forall_app in Hi as [_ Hi].
    apply Forall_cons in Hi as [Hi _]. cbn in Hi. unfold report_end in E. by rewrite Hi in E.
  - unfold set_writers. by rewrite (same_rendezvous _ l1 w).
Qed.

End replay.
Arguments replay_flush : clear implicits.
Arguments writer : clear implicits.
Arguments replay_state : clear implicits.

(** ** The numbers of threads *)

Lemma sql_splitter_count number_of_threads description names :
  sql_splitter_writers number_of_threads description = Ok names ->
  Z.of_nat (length names) = wrap_u 8 number_of_threads.
Proof.
  unfold sql_splitter_writers. destruct (Z.ltb_spec 0 (wrap_u 8 number_of_threads)); intros [= <-].
  rewrite length_map, length_seq. lia.
Qed.

Lemma replay_writers_count o t a names :
  replay_writers o t a = Ok names ->
  Z.of_nat (length names) = 4 + wrap_u 8 o + wrap_u 8 t + wrap_u 8 a.
Proof.
  intros E. unfold replay_writers in E.
  apply outcome_bind_inv in E as (ts & Et & E). apply outcome_bind_inv in E as (os & Eo & E).
  apply outcome_bind_inv in E as (as_ & Ea & E). injection E as <-.
  rewrite <- (sql_splitter_count _ _ _ Et), <- (sql_splitter_count _ _ _ Eo), <- (sql_splitter_count _ _ _ Ea).
  cbn. rewrite !length_app. cbn. rewrite !length_app. cbn. lia.
Qed.

(** With at most 255 threads for each table the rendezvous waits for the writers there are;
    with more, the splitters keep only the low byte and there are fewer. *)
Theorem writers_match_rendezvous o t a names :
  1 <= o -> 1 <= t -> 1 <= a -> 4 + o + t + a <= UINT32_MAX -> replay_writers o t a = Ok names ->
  if (o <=? 255) && (t <=? 255) && (a <=? 255)
  then replay_processors_threads o t a = Z.of_nat (length names)
  else Z.of_nat (length names) < replay_processors_threads o t a.
Proof.
  intros Ho Ht Ha Hs E. rewrite (replay_writers_count _ _ _ _ E).
  assert (replay_processors_threads o t a = 4 + o + t + a) as ->.
  { unfold replay_processors_threads. change (Z.of_nat ONE_THREAD_WRITERS_NUMBER) with 4.
    rewrite (u32_small (4 + o)), (u32_small (4 + o + t)), u32_small by lia. done. }
  unfold wrap_u. change (2 ^ 8) with 256.
  destruct (Z.leb_spec o 255), (Z.leb_spec t 255), (Z.leb_spec a 255); cbn [andb];
    rewrite ?(Z.mod_small o) by lia; rewrite ?(Z.mod_small t) by lia; rewrite ?(Z.mod_small a) by lia;
    pose proof (Z.mod_pos_bound o 256); pose proof (Z.mod_pos_bound t 256); pose proof (Z.mod_pos_bound a 256); lia.
Qed.

(** ** A replay of two batches by two writers *)

Module ReplayExamples.

Definition no_error (_ : nat) (_ : Z) : option exn := None.
Definition called (_ : Z) : option exn := None.

Definition flushes : list (replay_flush Z) :=
  [{| fl_last_block_num := 100; fl_parts := [Some 1; Some 2] |};
   {| fl_last_block_num := 200; fl_parts := [Some 3; None] |}].

(** The next thing the worker of writer [i] does. *)
Definition next_state (i : nat) (s : replay_state Z) : option (replay_state Z) :=
  w ← rp_writers s !! i;
  match worker_alone no_error i (wr_processor w), report_begin called 2 w s, report_end called w s with
  | Some p, _, _ => Some (set_writers (<[i := set_processor p w]> (rp_writers s)) s)
  | None, Some (w', s'), _ => Some (set_writers (<[i := w']> (rp_writers s')) s')
  | None, None, Some (w', s') => Some (set_writers (<[i := w']> (rp_writers s')) s')
  | None, None, None => None
  end.

Definition trigger_next (s : replay_state Z) : option (replay_state Z) :=
  match rp_todo s with
  | (i, b) :: rest =>
      w ← rp_writers s !! i; p ← enqueue b (wr_processor w);
      Some {| rp_todo := rest; rp_writers := <[i := set_processor p w]> (rp_writers s);
              rp_completed := rp_completed s; rp_fired := rp_fired s; rp_failed := rp_failed s |}
  | [] => None
  end.

Definition join_next (i : nat) (s : replay_state Z) : option (replay_state Z) :=
  match rp_todo s with
  | [] => w ← rp_writers s !! i;
          Some (set_writers (<[i := set_processor (join_begin (wr_processor w)) w]> (rp_writers s)) s)
  | _ => None
  end.

Inductive action := Trigger | Work (i : nat) | Join (i : nat).

Definition perform (s : replay_state Z) (a : action) : replay_state Z :=
  default s (match a with Trigger => trigger_next s | Work i => next_state i s | Join i => join_next i s end).

Lemma insert_split {A} (l : list A) i x : (i < length l)%nat -> <[i := x]> l = take i l ++ x :: drop (S i) l.
Proof.
  intros Hlt. assert (length (take i l) = i) as Hl by (rewrite length_take; lia).
  destruct (lookup_lt_is_Some_2 l i Hlt) as [y Hy]. pose proof (take_drop_middle _ _ _ Hy) as Hs.
  rewrite <- Hs at 1. by rewrite <- Hl at 1; rewrite insert_app_r_alt, Hl, Nat.sub_diag by lia.
Qed.

Lemma next_state_step i s s' : next_state i s = Some s' -> replay_step no_error called 2 s s'.
Proof.
  unfold next_state. destruct (rp_writers s !! i) as [w|] eqn:Ew; [|done]. cbn.
  pose proof (take_drop_middle _ _ _ Ew) as Hs. pose proof (lookup_lt_Some _ _ _ Ew) as Hlt.
  assert (length (take i (rp_writers s)) = i) as Hl by (rewrite length_take; lia).
  pose proof (fun x => insert_split (rp_writers s) i x Hlt) as Hins.
  destruct (worker_alone no_error i (wr_processor w)) as [p|] eqn:E1.
  { intros [= <-]. rewrite Hins. eapply RpWorker; [done|]. by rewrite Hl. }
  destruct (report_begin called 2 w s) as [[w' s1]|] eqn:E2.
  { intros [= <-]. assert (rp_writers s1 = rp_writers s) as ->; [|rewrite Hins; by eapply RpReport].
    unfold report_begin in E2. repeat case_match; simplify_eq/=; try done;
      repeat match goal with H : (_ ≫= _) = Some _ |- _ => apply bind_Some in H as (? & ? & ?) end; by simplify_eq/=. }
  destruct (report_end called w s) as [[w' s1]|] eqn:E3; [|done].
  intros [= <-]. assert (rp_writers s1 = rp_writers s) as ->; [|rewrite Hins; by eapply RpFire].
  unfold report_end in E3. destruct (wr_firing w); [|done].
  apply bind_Some in E3 as (? & ? & ?). by simplify_eq/=.
Qed.

Lemma perform_steps s a : rtc (replay_step no_error called 2) s (perform s a).
Proof.
  unfold perform. destruct a as [|i|i]; cbn.
  - destruct (trigger_next s) as [s'|] eqn:E; cbn; [|done]. apply rtc_once. unfold trigger_next in E.
    destruct (rp_todo s) as [|[i b] rest] eqn:Et; [done|].
    apply bind_Some in E as (w & Ew & E). apply bind_Some in E as (p & Ep & E). injection E as <-.
    pose proof (lookup_lt_Some _ _ _ Ew) as Hlt. rewrite insert_split by done.
    eapply RpTrigger; [done|by symmetry; apply take_drop_middle|rewrite length_take; lia|done].
  - destruct (next_state i s) as [s'|] eqn:E; cbn; [|done]. by apply rtc_once, (next_state_step i).
  - destruct (join_next i s) as [s'|] eqn:E; cbn; [|done]. apply rtc_once. unfold join_next in E.
    destruct (rp_todo s) eqn:Et; [|done]. apply bind_Some in E as (w & Ew & E). injection E as <-.
    pose proof (lookup_lt_Some _ _ _ Ew) as Hlt. rewrite insert_split by done.
    eapply RpJoin; [done|by symmetry; apply take_drop_middle].
Qed.

Lemma performs_steps s actions : rtc (replay_step no_error called 2) s (foldl perform s actions).
Proof.
  revert s. induction actions as [|a actions IH]; intros s; [done|]. cbn. etrans; [apply perform_steps|apply IH].
Qed.

(** The second writer is slow: it starts when the first one is through. *)
Definition finished : replay_state Z :=
  foldl perform (replay_init 2 flushes)
    (replicate 4 Trigger ++ replicate 10 (Work 0) ++ replicate 12 (Work 1) ++ [Join 0; Join 1; Work 0; Work 1]).

Lemma replay_batches_end_in_order_witness :
  rp_fired finished = [100; 200] /\
  (forall i w, rp_writers finished !! i = Some w -> dp_processed (wr_processor w) = own i flushes).
Proof.
  refine (proj2 (proj2 (proj2 (replay_batches_end_in_order no_error called 2 2 flushes _ _ _ finished _ _ (performs_steps _ _)))) _).
  - apply (bool_decide_unpack _). by vm_compute.
  - done.
  - apply (bool_decide_unpack _). by vm_compute.
  - done.
  - apply (bool_decide_unpack _). by vm_compute.
  - apply Forall_forall. vm_compute. by repeat constructor.
Defined.

(** The same with a rendezvous for three threads. *)
Lemma too_few_writers_never_end_a_batch_witness :
  rp_fired (replay_init (D := Z) 2 flushes) = [].
Proof.
  refine (too_few_writers_never_end_a_batch no_error called 3 2 flushes _ _ _ _ _ (rtc_refl _ _)).
  - apply (bool_decide_unpack _). by vm_compute.
  - done.
  - apply (bool_decide_unpack _). by vm_compute.
  - apply (bool_decide_unpack _). by vm_compute.
Defined.

End ReplayExamples.
