(* ===== verification/LiveFlush.v ===== *)
(** * A flush of the live dumper: its writers, processors and rendezvous together

    Models [livesync_data_dumper::trigger_data_flush] with the threads it uses: the caller
    triggers every writer and then waits for each of them ([complete_data_processing]); a
    writer's processor ([string_data_processor.cpp]) renders its part and hands the text to
    the callback of the writer; the last report to the rendezvous runs [execute_push_block].

    Dumpers describes the same flush as one sequential computation.  The theorems show that
    every interleaving that returns without a failed writer computes exactly that, and that
    every interleaving returns. *)

From S2P Require Import Prelude Text DataProcessor Writers Dumpers BatchPipeline.
From Stdlib Require Import ZArith Lia Ascii String.
From stdpp Require Import base list strings gmap sorting.

Open Scope Z_scope.

Section live.
  Context {D St C : Type}.
  Context (render : nat -> D -> outcome exn (list ascii)).     (* flush_scalar_live_data of a writer *)
  Context (store : nat -> list ascii -> St -> St).               (* the callback of a writer *)
  Context (push : Z -> St -> outcome exn (list C) * St).         (* execute_push_block *)
  Context (number_of_threads : Z).

(** What the caller still has to do in [trigger_data_flush]. *)
Inductive caller_action :=
| Triggers (i : nat) (b : @queued_batch D)
| Completes (i : nat).

Definition plan (f : replay_flush D) : list caller_action :=
  map (fun t => Triggers (fst t) (snd t)) (triggers_of f) ++ map Completes (seq 0 (length (fl_parts f))).

Definition triggers_in (todo : list caller_action) : list (nat * @queued_batch D) :=
  omap (fun a => match a with Triggers i b => Some (i, b) | Completes _ => None end) todo.

Record live_state := {
  ls_todo : list caller_action;
  ls_replay : replay_state D;        (* the writers and the rendezvous *)
  ls_dumper : St;                     (* what the callbacks and the function of the rendezvous change *)
  ls_commands : list C               (* enqueued by the function, oldest first *)
}.

(** [string_data_processor]: the function of the wrapped processor. *)
Definition string_process (i : nat) (d : D) : option exn :=
  match render i d with Ok _ => None | Throw e => Some e end.

(** A text reaches the callback when the worker processes the part. *)
Definition store_part (i : nat) (part : option D) (st : St) : St :=
  match part with
  | Some d => match render i d with Ok text => store i text st | Throw _ => st end
  | None => st
  end.

Definition worker_effect (i : nat) (p : @processor D) (st : St) : St :=
  match dp_worker p with
  | Taken batch => if qb_report_only batch then st else store_part i (qb_data batch) st
  | _ => st
  end.

Definition push_throws (st : St) (b : Z) : option exn :=
  match fst (push b st) with Ok _ => None | Throw e => Some e end.

Definition pushed (b : Z) (st : St) : list C := match fst (push b st) with Ok cs => cs | Throw _ => [] end.

(** One critical section of the caller or of a worker. *)
Inductive live_step : live_state -> live_state -> Prop :=
| LvTrigger s i b rest l1 w l2 p :
    ls_todo s = Triggers i b :: rest -> rp_writers (ls_replay s) = l1 ++ w :: l2 -> length l1 = i ->
    enqueue b (wr_processor w) = Some p ->
    live_step s {| ls_todo := rest;
                   ls_replay := {| rp_todo := triggers_in rest; rp_writers := l1 ++ set_processor p w :: l2;
                                   rp_completed := rp_completed (ls_replay s); rp_fired := rp_fired (ls_replay s);
                                   rp_failed := rp_failed (ls_replay s) |};
                   ls_dumper := ls_dumper s; ls_commands := ls_commands s |}
| LvComplete s i rest w :
    ls_todo s = Completes i :: rest -> rp_writers (ls_replay s) !! i = Some w ->
    completed (wr_processor w) = true ->
    live_step s {| ls_todo := rest; ls_replay := ls_replay s; ls_dumper := ls_dumper s; ls_commands := ls_commands s |}
| LvWorker s l1 w l2 p :
    rp_writers (ls_replay s) = l1 ++ w :: l2 ->
    worker_alone string_process (length l1) (wr_processor w) = Some p ->
    live_step s {| ls_todo := ls_todo s;
                   ls_replay := set_writers (l1 ++ set_processor p w :: l2) (ls_replay s);
                   ls_dumper := worker_effect (length l1) (wr_processor w) (ls_dumper s);
                   ls_commands := ls_commands s |}
| LvReport s l1 w l2 w' r' :
    rp_writers (ls_replay s) = l1 ++ w :: l2 ->
    report_begin (push_throws (ls_dumper s)) number_of_threads w (ls_replay s) = Some (w', r') ->
    live_step s {| ls_todo := ls_todo s; ls_replay := set_writers (l1 ++ w' :: l2) r';
                   ls_dumper := ls_dumper s; ls_commands := ls_commands s |}
| LvFire s l1 w l2 w' r' b :
    rp_writers (ls_replay s) = l1 ++ w :: l2 -> wr_firing w = Some b ->
    report_end (push_throws (ls_dumper s)) w (ls_replay s) = Some (w', r') ->
    live_step s {| ls_todo := ls_todo s; ls_replay := set_writers (l1 ++ w' :: l2) r';
                   ls_dumper := snd (push b (ls_dumper s));
                   ls_commands := ls_commands s ++ pushed b (ls_dumper s) |}.

(** The sequential flush: every part is rendered and stored, then the function runs. *)
Definition store_all (k : nat) (parts : list (option D)) (st : St) : St :=
  foldl (fun st t => store_part (fst t) (snd t) st) st (imap (fun i part => (k + i, part)%nat) parts).

Definition sequential_flush (f : replay_flush D) (st : St) : outcome exn (list C) * St :=
  push (fl_last_block_num f) (store_all 0 (fl_parts f) st).

(** ** One flush by fresh writers *)

Section one_flush.
  Context (f : replay_flush D) (st0 : St).
  Hypothesis commute : forall i j t u st, i <> j -> store i t (store j u st) = store j u (store i t st).

#[local] Abbreviation n := (length (fl_parts f)).
#[local] Abbreviation block := (fl_last_block_num f).

Definition live_init : live_state :=
  {| ls_todo := plan f; ls_replay := replay_init n [f]; ls_dumper := st0; ls_commands := [] |}.

Lemma store_part_commute i j p q st :
  i <> j -> store_part i p (store_part j q st) = store_part j q (store_part i p st).
Proof.
  intros Hne. unfold store_part. destruct p as [d|], q as [e|]; try done.
  destruct (render i d), (render j e); try done. by apply commute.
Qed.

Lemma store_all_cons k part parts st :
  store_all k (part :: parts) st = store_all (S k) parts (store_part k part st).
Proof.
  unfold store_all. cbn. rewrite Nat.add_0_r. f_equal. apply imap_ext. intros; cbn. f_equal. lia.
Qed.

Lemma store_all_later k i part parts st :
  (i < k)%nat -> store_all k parts (store_part i part st) = store_part i part (store_all k parts st).
Proof.
  revert k st. induction parts as [|q parts IH]; intros k st Hi; [done|].
  rewrite !store_all_cons. rewrite store_part_commute by lia. apply IH. lia.
Qed.

(** A part stored late is a part stored in its turn. *)
Lemma store_all_insert k parts i part st :
  parts !! i = Some None -> store_all k (<[i := part]> parts) st = store_part (k + i) part (store_all k parts st).
Proof.
  revert k i st. induction parts as [|q parts IH]; intros k [|i] st Hi; [done..| |]; cbn in Hi.
  - injection Hi as ->. cbn [insert list_insert]. rewrite !store_all_cons, Nat.add_0_r. apply store_all_later. lia.
  - cbn [insert list_insert]. rewrite !store_all_cons, IH by done. f_equal. lia.
Qed.

Lemma store_all_none k parts st : Forall (fun part => part = None) parts -> store_all k parts st = st.
Proof.
  intros Hf. revert k. induction Hf as [|q parts -> _ IH]; intros k; [done|]. rewrite store_all_cons. apply IH.
Qed.

(** *** Invariant *)

Definition stopped (w : writer D) : bool := stopping (dp_worker (wr_processor w)).

Definition idle (p : @processor D) : Prop :=
  dp_worker p = Waiting /\ dp_queue p = [] /\ dp_is_processing_data p = false.

(** The parts that have been put through the writers. *)
Definition stored (ws : list (writer D)) : list (option D) :=
  imap (fun i w => match dp_processed (wr_processor w) with [] => None | _ => mjoin (fl_parts f !! i) end) ws.

Record flags_ok (w : writer D) : Prop := {
  fo_future : dp_future_valid (wr_processor w) = true;
  fo_running : stopped w = false ->
    dp_cancel (wr_processor w) = false /\ dp_continue (wr_processor w) = true /\ dp_killed (wr_processor w) = false;
  fo_alive : dp_worker (wr_processor w) <> Finished;
  fo_idle : dp_worker (wr_processor w) = Waiting -> dp_queue (wr_processor w) = [] ->
    dp_is_processing_data (wr_processor w) = false
}.

(** The caller: [ts] is still to be triggered, and the writers before [j] have been waited for. *)
Definition plan_ok (todo : list caller_action) (ws : list (writer D)) : Prop :=
  exists ts j, todo = map (fun t => Triggers (fst t) (snd t)) ts ++ map Completes (seq j (n - j)) /\
    (j <= n)%nat /\ Forall (fun t => fst t < n)%nat ts /\ (ts <> [] -> j = 0%nat) /\
    (forall i w, (i < j)%nat -> ws !! i = Some w -> stopped w = false -> idle (wr_processor w)).

(** Until the function of the rendezvous is called the parts are those stored; afterwards they
    were all stored. *)
Definition state_ok (fired : list Z) (commands : list C) (dumper : St) (ws : list (writer D)) : Prop :=
  match fired with
  | [] => commands = [] /\ dumper = store_all 0 (stored ws) st0
  | _ => commands = pushed block (store_all 0 (fl_parts f) st0) /\ dumper = snd (sequential_flush f st0) /\
         (forall w, w ∈ ws -> dp_processed (wr_processor w) <> []) /\
         (push_throws (store_all 0 (fl_parts f) st0) block <> None -> exists w, w ∈ ws /\ stopped w = true)
  end.

Record live_inv (s : live_state) : Prop := {
  lv_todo : rp_todo (ls_replay s) = triggers_in (ls_todo s);
  lv_writers : writers_ok n [f] (ls_replay s);
  lv_rendezvous : rv_inv number_of_threads [block] (rendezvous_of [block] (ls_replay s));
  lv_plan : plan_ok (ls_todo s) (rp_writers (ls_replay s));
  lv_flags : forall w, w ∈ rp_writers (ls_replay s) -> flags_ok w;
  lv_state : state_ok (rp_fired (ls_replay s)) (ls_commands s) (ls_dumper s) (rp_writers (ls_replay s))
}.

(** *** What a step does to one writer *)

Lemma stopped_alone i w p :
  worker_alone string_process i (wr_processor w) = Some p -> flags_ok w ->
  flags_ok (set_processor p w) /\ (stopped w = true -> stopped (set_processor p w) = true) /\
  (stopped w = false -> ~ idle (wr_processor w)).
Proof.
  intros E [Hv Hr Hal Hid]. unfold worker_alone in E. unfold stopped, idle in *. cbn.
  destruct (dp_worker (wr_processor w)) as [|batch|batch|batch|batch d e|batch d e|] eqn:Ew; cbn in *; try done.
  - destruct (Hr eq_refl) as (Hc & Hn & Hk). unfold worker_wake in E. rewrite Ew, Hc, Hn in E.
    destruct (dp_queue (wr_processor w)); simplify_eq/=. split_and!; [constructor; by cbn|done|]. by intros _ (_ & ? & _).
  - destruct (Hr eq_refl) as (Hc & Hn & Hk). unfold worker_process in E. rewrite Ew in E.
    case_match; simplify_eq/=; (split_and!; [constructor; by cbn|done|by intros _ (? & _)]).
  - destruct (Hr eq_refl) as (Hc & Hn & Hk). destruct (qb_last_block_num batch =? 0) eqn:Eb; [|done].
    unfold worker_report in E. rewrite Ew, Eb in E.
    simplify_eq/=. split_and!; [constructor; by cbn|done|by intros _ (? & _)].
  - destruct (Hr eq_refl) as (Hc & Hn & Hk). unfold worker_drained in E. rewrite Ew in E.
    destruct (dp_queue (wr_processor w)) eqn:Eq; simplify_eq/=; (split_and!; [constructor; cbn; by rewrite ?Eq|done|by intros _ (? & _)]).
  - unfold handle_exception in E. rewrite Ew in E. simplify_eq/=. split_and!; [constructor; by cbn|done|done].
Qed.

Lemma stopped_report g batch w p firing :
  dp_worker (wr_processor w) = Processed batch -> worker_report g (wr_processor w) = Some p -> flags_ok w ->
  flags_ok {| wr_processor := p; wr_firing := firing |} /\ dp_processed p = dp_processed (wr_processor w) /\
  (qb_last_block_num batch <> 0 -> g (qb_last_block_num batch) <> None ->
   stopped {| wr_processor := p; wr_firing := firing |} = true).
Proof.
  intros Ew E [Hv Hr Hal Hid]. unfold worker_report in E. unfold stopped in *. rewrite Ew in E, Hr.
  destruct (Hr eq_refl) as (Hc & Hn & Hk).
  destruct (Z.eqb_spec (qb_last_block_num batch) 0); [|destruct (g _) eqn:Eg]; simplify_eq/=;
    (split_and!; [constructor; by cbn|done|done]).
Qed.

Lemma report_begin_frame g w r w' r' :
  number_of_threads <> 1 -> report_begin g number_of_threads w r = Some (w', r') ->
  rp_todo r' = rp_todo r /\ rp_writers r' = rp_writers r /\ rp_fired r' = rp_fired r /\
  (flags_ok w -> flags_ok w') /\ dp_processed (wr_processor w') = dp_processed (wr_processor w) /\
  stopped w = false /\ ~ idle (wr_processor w).
Proof.
  intros Hn E. unfold report_begin in E. destruct (wr_firing w) eqn:Ef; [done|].
  destruct (dp_worker (wr_processor w)) as [| |batch| | | |] eqn:Ew; try done.
  destruct (_ =? 0); [done|]. rewrite (proj2 (Z.eqb_neq _ _) Hn) in E. unfold stopped, idle. rewrite Ew.
  destruct (insert_or_visit _ _ _) as [[[]|] m]; cbn in E.
  - injection E as <- <-. cbn. split_and!; try done; [by intros [? ? ? ?]; constructor|by intros (? & _)].
  - apply bind_Some in E as (p & Ep & E). injection E as <- <-. cbn. split_and!; try done; [| |by intros (? & _)].
    + intros Hf. by eapply stopped_report.
    + unfold worker_report in Ep. rewrite Ew in Ep. repeat case_match; by simplify_eq/=.
  - apply bind_Some in E as (p & Ep & E). injection E as <- <-. cbn. split_and!; try done; [| |by intros (? & _)].
    + intros Hf. by eapply stopped_report.
    + unfold worker_report in Ep. rewrite Ew in Ep. repeat case_match; by simplify_eq/=.
Qed.

(** *** What it does to all of them *)

Lemma plan_replace todo l1 w w' l2 :
  plan_ok todo (l1 ++ w :: l2) -> (stopped w = true -> stopped w' = true) ->
  (stopped w = false -> ~ idle (wr_processor w)) -> plan_ok todo (l1 ++ w' :: l2).
Proof.
  intros (ts & j & Ht & Hj & Hlt & Hts & Hi) Hst Hni. exists ts, j. split_and!; try done.
  intros i x Hlt2. revert i x Hlt2.
  enough (forall i x, (l1 ++ w' :: l2) !! i = Some x -> (i < j)%nat -> stopped x = false -> idle (wr_processor x)) by eauto.
  apply (replace_writer (fun i x => (i < j)%nat -> stopped x = false -> idle (wr_processor x)) l1 w); [eauto|].
  intros Hlt2 Hsf. destruct (stopped w) eqn:Esw; [by rewrite Hst in Hsf|]. destruct Hni; [done|].
  apply (Hi (length l1)); [done|by rewrite list_lookup_middle|done].
Qed.

Lemma all_replace (P : writer D -> Prop) l1 w w' l2 :
  (forall x, x ∈ l1 ++ w :: l2 -> P x) -> (P w -> P w') -> forall x, x ∈ l1 ++ w' :: l2 -> P x.
Proof.
  intros H Hw x Hx. apply elem_of_app in Hx as [Hx|Hx]; [apply H; set_solver|].
  apply elem_of_cons in Hx as [->|Hx]; [apply Hw, H|apply H]; set_solver.
Qed.

Lemma stored_replace l1 w w' l2 :
  dp_processed (wr_processor w') = dp_processed (wr_processor w) -> stored (l1 ++ w' :: l2) = stored (l1 ++ w :: l2).
Proof. intros Hp. unfold stored. rewrite !imap_app. cbn. by rewrite Hp. Qed.

Lemma state_replace fired commands dumper l1 w w' l2 :
  state_ok fired commands dumper (l1 ++ w :: l2) -> dp_processed (wr_processor w') = dp_processed (wr_processor w) ->
  (stopped w = true -> stopped w' = true) -> state_ok fired commands dumper (l1 ++ w' :: l2).
Proof.
  intros H Hp Hst. unfold state_ok in *. rewrite (stored_replace l1 w w' l2 Hp). destruct fired; [done|].
  destruct H as (Hc & Hd & Hall & Hthrow). split_and!; try done.
  - eapply all_replace; [done|]. by rewrite Hp.
  - intros Ht. destruct (Hthrow Ht) as (x & Hx & Hs). apply elem_of_app in Hx as [Hx|Hx]; [exists x; set_solver|].
    apply elem_of_cons in Hx as [->|Hx]; [exists w'|exists x]; set_solver.
Qed.

Lemma stored_process l1 w w' l2 :
  dp_processed (wr_processor w) = [] -> dp_processed (wr_processor w') <> [] ->
  stored (l1 ++ w :: l2) !! length l1 = Some None /\
  stored (l1 ++ w' :: l2) = <[length l1 := mjoin (fl_parts f !! length l1)]> (stored (l1 ++ w :: l2)).
Proof.
  intros Hw Hw'. unfold stored. rewrite !imap_app. cbn. rewrite Hw, Nat.add_0_r.
  assert (length (imap (fun i w => match dp_processed (wr_processor w) with [] => None | _ => mjoin (fl_parts f !! i) end) l1)
    = length l1) as Hl by apply length_imap.
  split; [by rewrite list_lookup_middle|].
  rewrite insert_app_r_alt by lia. rewrite Hl, Nat.sub_diag. cbn. by destruct (dp_processed (wr_processor w')).
Qed.

Lemma stored_all ws :
  length ws = n -> (forall w, w ∈ ws -> dp_processed (wr_processor w) <> []) -> stored ws = fl_parts f.
Proof.
  intros Hl Hw. apply list_eq. intros i. unfold stored. rewrite list_lookup_imap.
  destruct (ws !! i) as [w|] eqn:E; cbn.
  - pose proof (Hw w (list_elem_of_lookup_2 _ _ _ E)). pose proof (lookup_lt_Some _ _ _ E) as Hlt. rewrite Hl in Hlt.
    destruct (lookup_lt_is_Some_2 _ _ Hlt) as [part ->]. by destruct (dp_processed (wr_processor w)).
  - apply lookup_ge_None in E. symmetry. apply lookup_ge_None. lia.
Qed.

Section numbered.
Hypothesis nonzero : block <> 0.
Hypothesis threads : number_of_threads = Z.of_nat n.
Hypothesis range : 2 <= number_of_threads <= UINT32_MAX.

Lemma taken_first r l1 w l2 batch :
  writers_ok n [f] r -> rp_writers r = l1 ++ w :: l2 -> dp_worker (wr_processor w) = Taken batch ->
  dp_processed (wr_processor w) = [] /\ batch = batch_of block (mjoin (fl_parts f !! length l1)).
Proof.
  intros Hw Hs Ht. destruct (writer_at _ _ _ _ _ _ Hw Hs) as [I [k Hk] _ _ _].
  rewrite (inv_fifo _ I), Ht in Hk. cbn in Hk. destruct (dp_processed (wr_processor w)) as [|x [|]]; [|done..].
  cbn in Hk. by injection Hk as <- _.
Qed.

Lemma live_step_replay s s' :
  rp_todo (ls_replay s) = triggers_in (ls_todo s) -> live_step s s' ->
  rp_todo (ls_replay s') = triggers_in (ls_todo s') /\
  (ls_replay s' = ls_replay s \/ exists g, replay_step string_process g number_of_threads (ls_replay s) (ls_replay s')).
Proof.
  intros Ht Hstep. destruct Hstep as [s i b rest l1 w l2 p Ha Hs Hl E|s i rest w Ha Hs E|s l1 w l2 p Hs E|s l1 w l2 w' r' Hs E|s l1 w l2 w' r' b Hs Hf E];
    cbn [ls_replay ls_todo set_writers rp_todo].
  - split; [done|]. right. exists (fun _ => None). rewrite Ha in Ht. by eapply RpTrigger.
  - split; [by rewrite Ht, Ha|by left].
  - split; [done|]. right. exists (fun _ => None). by apply RpWorker.
  - split; [|right; eexists; by eapply RpReport]. rewrite <- Ht. apply report_begin_frame in E; [by destruct E|lia].
  - split; [|right; eexists; by eapply RpFire]. rewrite <- Ht. unfold report_end in E. rewrite Hf in E.
    by apply bind_Some in E as (p & _ & [= <- <-]).
Qed.

Lemma live_step_rendezvous s s' :
  live_inv s -> live_step s s' ->
  rp_todo (ls_replay s') = triggers_in (ls_todo s') /\ writers_ok n [f] (ls_replay s') /\
  rv_inv number_of_threads [block] (rendezvous_of [block] (ls_replay s')).
Proof.
  intros [Ht Hw Hr _ _ _] Hstep. destruct (live_step_replay s s' Ht Hstep) as [Ht' [E|[g Hg]]]; [by rewrite E in *|].
  assert (Forall (fun b => b <> 0) (block_nums [f])) as Hnz by (by constructor).
  split_and!; [done|by eapply replay_step_writers|].
  eapply (replay_step_rendezvous _ _ _ n [f]); [exact Hnz|lia| |exact Hw|exact Hr|exact Hg].
  apply NoDup_singleton.
Qed.

(** *** The caller's steps *)

Lemma trigger_plan i b rest l1 w l2 p :
  plan_ok (Triggers i b :: rest) (l1 ++ w :: l2) -> plan_ok rest (l1 ++ set_processor p w :: l2).
Proof.
  intros (ts & j & Ht & Hj & Hlt & Hts & Hi). destruct ts as [|t ts].
  { destruct (n - j)%nat; cbn in Ht; discriminate. }
  rewrite (Hts ltac:(done)) in *. cbn in Ht. injection Ht as -> -> ->. apply Forall_cons in Hlt as [_ Hlt]. exists ts, 0%nat. split_and!; try done; lia.
Qed.

Lemma complete_plan i rest ws w :
  plan_ok (Completes i :: rest) ws -> ws !! i = Some w -> completed (wr_processor w) = true -> flags_ok w ->
  dp_inv (wr_processor w) -> plan_ok rest ws.
Proof.
  intros (ts & j & Ht & Hj & _ & Hts & Hi) Hw Hc [_ Hf _ _] I. destruct ts as [|t ts]; [|done].
  destruct (n - j)%nat as [|k] eqn:Ek; cbn in Ht; [done|]. injection Ht as -> ->.
  exists [], (S j). replace (n - S j)%nat with k by lia. split_and!; [done|lia|done|done|].
  intros i x Hlt Hx Hs. destruct (decide (i = j)) as [->|Hne]; [|apply (Hi i); [lia|done|done]].
  rewrite Hw in Hx. injection Hx as <-. destruct (Hf Hs) as (Hcan & _). unfold completed in Hc.
  rewrite Hcan, orb_false_r in Hc. apply negb_true_iff in Hc. destruct (inv_busy _ I Hs Hc). done.
Qed.

Lemma enqueue_frame b w p :
  enqueue b (wr_processor w) = Some p ->
  dp_worker p = dp_worker (wr_processor w) /\ dp_processed p = dp_processed (wr_processor w) /\
  (flags_ok w -> flags_ok (set_processor p w)).
Proof.
  intros E. unfold enqueue in E. repeat case_match; simplify_eq/=; split_and!; try done; intros [Hv Hr Hal Hid]; constructor; try done; cbn; by destruct (dp_queue _).
Qed.

(** *** The workers' steps *)

Lemma worker_effect_batch i part w batch :
  dp_worker (wr_processor w) = Taken batch -> batch = batch_of block part -> forall st,
  worker_effect i (wr_processor w) st = store_part i part st /\
  (forall p, worker_alone string_process i (wr_processor w) = Some p ->
    dp_processed p = dp_processed (wr_processor w) ++ [batch] \/
    (dp_processed p = dp_processed (wr_processor w) /\ store_part i part st = st)).
Proof.
  intros Hw -> st. unfold worker_effect, worker_alone. rewrite Hw. split; [by destruct part|].
  intros p E. unfold worker_process in E. rewrite Hw in E. destruct part as [d|]; cbn in E.
  - unfold string_process in E. unfold store_part. destruct (render i d); injection E as <-; cbn; [by left|by right].
  - injection E as <-. by left.
Qed.

Lemma worker_state fired commands dumper r l1 w l2 p :
  writers_ok n [f] r -> rp_writers r = l1 ++ w :: l2 -> flags_ok w ->
  worker_alone string_process (length l1) (wr_processor w) = Some p ->
  state_ok fired commands dumper (l1 ++ w :: l2) ->
  state_ok fired commands (worker_effect (length l1) (wr_processor w) dumper) (l1 ++ set_processor p w :: l2).
Proof.
  intros Hw Hs Hf E Hok. destruct (stopped_alone _ _ _ E Hf) as (_ & Hst & _).
  destruct (dp_worker (wr_processor w)) as [|batch|batch|batch|batch d e|batch d e|] eqn:Ew.
  2: {
    destruct (taken_first _ _ _ _ _ Hw Hs Ew) as [Hp Hb].
    destruct (worker_effect_batch (length l1) _ _ _ Ew Hb dumper) as [-> Hcase].
    destruct (Hcase p E) as [Hp'|[Hp' ->]]; [|by eapply state_replace].
    destruct fired as [|b fired]; cbn in Hok |- *.
    - destruct Hok as [Hc ->]. split; [done|].
      destruct (stored_process l1 w (set_processor p w) l2 Hp) as [Hn ->]; [cbn; by rewrite Hp', Hp|].
      by rewrite (store_all_insert 0).
    - destruct Hok as (_ & _ & Hall & _). exfalso. apply (Hall w); [set_solver|done]. }
  all: unfold worker_effect; rewrite Ew; eapply state_replace; [done| |done];
    unfold worker_alone in E; rewrite Ew in E; try done; cbn.
  - unfold worker_wake in E. rewrite Ew in E. repeat case_match; by simplify_eq/=.
  - unfold worker_report in E. rewrite Ew in E. repeat case_match; by simplify_eq/=.
  - unfold worker_drained in E. rewrite Ew in E. repeat case_match; by simplify_eq/=.
  - unfold handle_exception in E. rewrite Ew in E. by simplify_eq/=.
Qed.

Lemma firing_all_stored r l1 w l2 b :
  writers_ok n [f] r -> rv_inv number_of_threads [block] (rendezvous_of [block] r) ->
  rp_writers r = l1 ++ w :: l2 -> wr_firing w = Some b ->
  b = block /\ rp_fired r = [] /\ (forall x, x ∈ rp_writers r -> dp_processed (wr_processor x) <> []).
Proof.
  intros Hw Hr Hs Hf.
  assert (forall x, x ∈ rp_writers r -> reported_by x `prefix_of` [block] /\
    (reported_by x <> [] -> dp_processed (wr_processor x) <> [])) as Hrep.
  { intros x Hx. apply list_elem_of_lookup in Hx as [i Hi]. pose proof (wo_writers _ _ _ Hw i x Hi) as Hwi.
    assert (Forall (fun q => qb_last_block_num q <> 0) (own i [f])) as Hnz by (apply own_nonzero; by constructor).
    destruct (reported_prefix _ _ _ _ Hwi Hnz) as [Hp _]. split.
    - pose proof (prefix_map qb_last_block_num _ _ (processed_prefix _ _ _ _ Hwi)) as Hp2.
      rewrite own_numbers in Hp2. by etrans.
    - intros Hne Hemp. rewrite Hemp in Hp. destruct Hp as [k Hk]. by destruct (reported_by x). }
  assert (b ∈ reported_by w) as Hb by (unfold reported_by; rewrite Hf; set_solver).
  assert (w ∈ rp_writers r) as Hin by (rewrite Hs; set_solver).
  destruct (Hrep w Hin) as [[k Hk] _].
  assert (b = block) as ->. { assert (b ∈ [block]) as H by (rewrite Hk; set_solver). by apply list_elem_of_singleton in H. }
  pose proof (rvi_phase _ _ _ Hr block) as Hph. split; [done|].
  assert (1 <= Writers.total (is_firing block) (rv_threads (rendezvous_of [block] r)))%nat as Hone.
  { cbn [rendezvous_of rv_threads]. rewrite Hs, map_app. cbn [map]. rewrite total_app, (firing block (thread_of _ w)) by done. lia. }
  destruct Hph as [| |Hc H1 _ Hnf|]; [lia..| |lia]. split.
  - cbn in Hnf. pose proof (rvi_fired _ _ _ Hr) as [k' Hk']. cbn in Hk'. destruct (rp_fired r) as [|y l]; [done|].
    destruct Hnf. cbn in Hk'. injection Hk' as -> _. left.
  - intros x Hx. apply (Hrep x Hx). apply total_full in Hc. cbn in Hc. rewrite Forall_map, Forall_forall in Hc.
    specialize (Hc x Hx). cbn in Hc. intros Hemp. rewrite Hemp in Hc. by apply elem_of_nil in Hc.
Qed.

Lemma report_end_frame g w r w' r' b batches todo last :
  writer_inv batches todo last w -> wr_firing w = Some b -> report_end g w r = Some (w', r') -> flags_ok w ->
  rp_fired r' = rp_fired r ++ [b] /\ dp_processed (wr_processor w') = dp_processed (wr_processor w) /\
  flags_ok w' /\ stopped w = false /\ ~ idle (wr_processor w) /\ (g b <> None -> stopped w' = true).
Proof.
  intros [_ _ _ _ Hfi] Hf E Hok. destruct (Hfi b Hf) as (batch & Ew & Hb & Hnz). unfold report_end in E. rewrite Hf in E.
  apply bind_Some in E as (p & Ep & E). injection E as <- <-.
  destruct (stopped_report _ _ _ _ None Ew Ep Hok) as (Hok' & Hp & Hst). unfold stopped, idle. rewrite Ew.
  split_and!; try done; [by intros (? & _)|]. intros Hg. apply Hst; congruence.
Qed.

Lemma fire_state s l1 w l2 w' r' b g :
  live_inv s -> rp_writers (ls_replay s) = l1 ++ w :: l2 -> wr_firing w = Some b ->
  g = push_throws (ls_dumper s) -> report_end g w (ls_replay s) = Some (w', r') ->
  state_ok (rp_fired r') (ls_commands s ++ pushed b (ls_dumper s)) (snd (push b (ls_dumper s))) (l1 ++ w' :: l2).
Proof.
  intros [_ Hw Hr _ Hfl Hst] Hs Hf -> E.
  destruct (firing_all_stored _ _ _ _ _ Hw Hr Hs Hf) as (-> & Hnil & Hall).
  assert (w ∈ rp_writers (ls_replay s)) as Hin by (rewrite Hs; set_solver).
  destruct (report_end_frame _ _ _ _ _ _ _ _ _ (writer_at _ _ _ _ _ _ Hw Hs) Hf E (Hfl w Hin)) as (-> & Hp & _ & _ & _ & Hstop).
  rewrite Hnil in Hst |- *. destruct Hst as [-> Hd]. rewrite (stored_all _ (wo_length _ _ _ Hw) Hall) in Hd.
  cbn. rewrite Hd. rewrite Hs in Hall. split_and!; try done.
  - eapply all_replace; [exact Hall|]. by rewrite Hp.
  - rewrite Hd in Hstop. intros Ht. exists w'. split; [set_solver|by apply Hstop].
Qed.

Lemma live_step_inv s s' : live_inv s -> live_step s s' -> live_inv s'.
Proof.
  intros Hi Hstep. destruct (live_step_rendezvous s s' Hi Hstep) as (Ht' & Hw' & Hr'). pose proof Hi as [Ht Hw Hr Hp Hfl Hst].
  constructor; [done..| | |]; clear Ht' Hw' Hr'.
  all: destruct Hstep as [s i b rest l1 w l2 p Ha Hs Hl E|s i rest w Ha Hs E|s l1 w l2 p Hs E|s l1 w l2 w' r' Hs E|s l1 w l2 w' r' b Hs Hf E];
    cbn [ls_replay ls_todo ls_commands ls_dumper set_writers rp_writers rp_fired].
  all: try (assert (flags_ok w) as Hfw by (apply Hfl; rewrite Hs; set_solver)).
  all: try rewrite Hs in Hp; try rewrite Hs in Hfl; try rewrite Hs in Hst.
  - rewrite Ha in Hp. by eapply trigger_plan.
  - rewrite Ha in Hp. pose proof (list_elem_of_lookup_2 _ _ _ Hs) as Hin. eapply complete_plan; [done..|by apply Hfl|].
    exact (wi_processor _ _ _ _ (wo_writers _ _ _ Hw i w Hs)).
  - destruct (stopped_alone _ _ _ E Hfw) as (_ & ? & ?). by eapply plan_replace.
  - apply report_begin_frame in E as (_ & _ & _ & _ & _ & Hsf & Hni); [|lia]. eapply plan_replace; [done|congruence|done].
  - destruct (report_end_frame _ _ _ _ _ _ _ _ _ (writer_at _ _ _ _ _ _ Hw Hs) Hf E Hfw) as (_ & _ & _ & Hsf & Hni & _).
    eapply plan_replace; [done|congruence|done].
  - eapply all_replace; [done|]. by eapply enqueue_frame.
  - done.
  - eapply all_replace; [done|]. intros _. by eapply stopped_alone.
  - eapply all_replace; [done|]. apply report_begin_frame in E as (_ & _ & _ & ? & _); [done|lia].
  - eapply all_replace; [done|]. intros _. by eapply (report_end_frame _ _ _ _ _ _ _ _ _ (writer_at _ _ _ _ _ _ Hw Hs)).
  - destruct (enqueue_frame _ _ _ E) as (Hwk & Hpr & _). eapply state_replace; [done|done|]. unfold stopped. cbn. by rewrite Hwk.
  - done.
  - by eapply worker_state.
  - apply report_begin_frame in E as (_ & _ & -> & _ & Hpr & Hsf & _); [|lia]. eapply state_replace; [done|done|congruence].
  - by eapply fire_state.
Qed.

Lemma triggers_in_plan : triggers_in (plan f) = triggers_of f.
Proof.
  unfold triggers_in, plan. rewrite omap_app.
  assert (omap (fun a => match a with Triggers i b => Some (i, b) | Completes _ => None end) (map Completes (seq 0 n))
    = ([] : list (nat * @queued_batch D))) as ->.
  { generalize (seq 0 n). intros l. induction l; [done|]. cbn. done. }
  rewrite app_nil_r. generalize (triggers_of f). intros l. induction l as [|[i b] l IH]; [done|]. cbn. by rewrite <- IH at 2.
Qed.

Lemma live_init_inv : live_inv live_init.
Proof.
  constructor; cbn [live_init ls_todo ls_replay ls_commands ls_dumper].
  - rewrite triggers_in_plan. cbn. by rewrite app_nil_r.
  - apply replay_init_writers. by constructor.
  - pose proof (rv_init_inv number_of_threads [block] ltac:(lia)) as H. unfold rv_init in H.
    rewrite threads, Nat2Z.id, <- threads in H. unfold rendezvous_of, replay_init. cbn.
    change (map ?f ?l) with (f <$> l). by rewrite fmap_replicate.
  - exists (triggers_of f), 0%nat. split_and!; [unfold plan; by rewrite Nat.sub_0_r|lia| |done|lia].
    apply Forall_lookup. intros i t Ht. unfold triggers_of in Ht. rewrite list_lookup_imap in Ht.
    destruct (fl_parts f !! i) eqn:Ei; [|done]. injection Ht as <-. by apply lookup_lt_Some in Ei.
  - cbn. intros w Hw. apply elem_of_replicate in Hw as [-> _]. by constructor.
  - split; [done|]. rewrite store_all_none; [done|]. unfold stored. apply Forall_lookup. intros i part.
    rewrite list_lookup_imap. cbn [replay_init rp_writers].
    destruct (replicate n {| wr_processor := @new_processor D; wr_firing := None |} !! i) as [w|] eqn:Ew; [|done].
    apply lookup_replicate in Ew as [-> _]. by intros [= <-].
Qed.

(** What has happened when the caller is through. *)
Lemma live_inv_end s :
  live_inv s -> ls_todo s = [] -> (forall w, w ∈ rp_writers (ls_replay s) -> stopped w = false) ->
  sequential_flush f st0 = (Ok (ls_commands s), ls_dumper s) /\ rp_fired (ls_replay s) = [block] /\
  rp_completed (ls_replay s) = ∅ /\ rp_failed (ls_replay s) = false /\ rp_todo (ls_replay s) = [] /\
  (forall w, w ∈ rp_writers (ls_replay s) -> idle (wr_processor w) /\ flags_ok w /\ wr_firing w = None).
Proof.
  intros [Ht Hw Hr Hp Hfl Hst] Hd Hrun. rewrite Hd in *. destruct Hp as (ts & j & He & Hj & _ & _ & Hidle).
  destruct ts; [|done]. destruct (n - j)%nat eqn:En; [|done].
  assert (forall i w, rp_writers (ls_replay s) !! i = Some w ->
    idle (wr_processor w) /\ wr_firing w = None /\ reported_by w = [block]) as Hall.
  { intros i w Hi. pose proof (lookup_lt_Some _ _ _ Hi) as Hlt. rewrite (wo_length _ _ _ Hw) in Hlt.
    pose proof (list_elem_of_lookup_2 _ _ _ Hi) as Hin.
    assert (idle (wr_processor w)) as Hid by (apply (Hidle i); [lia|done|by apply Hrun]). split; [done|].
    destruct (wo_writers _ _ _ Hw i w Hi) as [I _ Ho _ Hf]. destruct Hid as (Hwt & Hq & _).
    assert (wr_firing w = None) as Hnf.
    { destruct (wr_firing w) as [b|]; [|done]. destruct (Hf b eq_refl) as (? & ? & _). congruence. }
    split; [done|]. destruct (fo_running _ (Hfl w Hin) (Hrun w Hin)) as (Hc & _).
    destruct (Ho Hc) as [Ha _]. rewrite Ht in Ha. cbn in Ha. rewrite app_nil_r in Ha.
    pose proof (inv_fifo _ I) as Hff. rewrite Hwt, Hq in Hff. cbn in Hff. rewrite app_nil_r in Hff.
    unfold reported_by. rewrite Hnf, (inv_reports _ I). unfold reported_batches. rewrite Hwt, <- Hff, Ha. cbn.
    rewrite report_of_number; [by destruct (mjoin _)|]. by destruct (mjoin _). }
  assert (block ∈ rp_fired (ls_replay s)) as Hfired.
  { apply (all_reported_fired _ _ _ _ Hr); cbn.
    - pose proof (wo_length _ _ _ Hw). destruct (rp_writers (ls_replay s)); [cbn in *; lia|done].
    - rewrite Forall_map, Forall_forall. intros w Hwin. apply list_elem_of_lookup in Hwin as [i Hwi].
      destruct (Hall i w Hwi) as (_ & Hnf & Hrep). cbn. rewrite Hrep, Hnf. set_solver. }
  pose proof (rvi_fired _ _ _ Hr) as [k Hk]. cbn in Hk. unfold state_ok in Hst.
  destruct (rp_fired (ls_replay s)) as [|b [|b' l]] eqn:Efr; [by apply elem_of_nil in Hfired| |by destruct l].
  cbn in Hk. injection Hk as <- Hk. destruct Hst as (Hcmd & Hdm & _ & Hthrow).
  split_and!; [|done| |exact (rvi_failed _ _ _ Hr)|done|].
  - unfold sequential_flush in *. destruct (push block (store_all 0 (fl_parts f) st0)) as [o st1] eqn:Epush.
    rewrite Hcmd, Hdm. unfold pushed. rewrite Epush. destruct o as [cs|e]; [done|].
    destruct Hthrow as (w & Hwin & Hs); [unfold push_throws; by rewrite Epush|]. by rewrite (Hrun w Hwin) in Hs.
  - apply map_eq. intros b. rewrite lookup_empty. destruct (decide (b = block)) as [->|Hne].
    + by destruct (rvi_phase _ _ _ Hr block) as [? ? ? Hnf|? ? ? Hnf|? ? ? Hnf|]; [destruct Hnf; cbn; rewrite Efr; left..|].
    + assert (Writers.total (has_reported b) (rv_threads (rendezvous_of [block] (ls_replay s))) = 0%nat) as Hz.
      { apply total_none. cbn. rewrite Forall_map, Forall_forall. intros w Hwin. apply list_elem_of_lookup in Hwin as [i Hwi].
        destruct (Hall i w Hwi) as (_ & _ & Hrep). cbn. by rewrite Hrep, list_elem_of_singleton. }
      destruct (rvi_phase _ _ _ Hr b); try done; [lia|]. rewrite Hz in *. pose proof (wo_length _ _ _ Hw) as Hl.
      cbn in *. rewrite length_map in *. lia.
  - intros w Hwin. apply list_elem_of_lookup in Hwin as Hl. destruct Hl as [i Hwi].
    destruct (Hall i w Hwi) as (? & ? & _). split_and!; try done. by apply Hfl.
Qed.

(** *** The caller is never stuck *)

Lemma writer_progress s l1 w l2 :
  rp_writers (ls_replay s) = l1 ++ w :: l2 -> flags_ok w -> dp_inv (wr_processor w) ->
  completed (wr_processor w) = false -> exists s', live_step s s'.
Proof.
  intros Hs [Hv Hr Hal Hid] I Hc. unfold completed in Hc. apply orb_false_iff in Hc as [Hb Hcan]. apply negb_false_iff in Hb.
  assert (forall p, worker_alone string_process (length l1) (wr_processor w) = Some p -> exists s', live_step s s') as Halone
    by (intros p E; eexists; by eapply LvWorker).
  unfold worker_alone in Halone. unfold stopped in Hr.
  destruct (dp_worker (wr_processor w)) as [|batch|batch|batch|batch d e|batch d e|] eqn:Ew; cbn in *; try done.
  - destruct (Hr eq_refl) as (_ & Hn & _). unfold worker_wake in Halone. rewrite Ew, Hn, Hcan in Halone.
    destruct (dp_queue (wr_processor w)) eqn:Eq; [|cbn in Halone; eauto]. specialize (Hid eq_refl eq_refl). congruence.
  - unfold worker_process in Halone. rewrite Ew in Halone. case_match; eauto.
  - destruct (qb_last_block_num batch =? 0) eqn:E0.
    { unfold worker_report in Halone. rewrite Ew, E0 in Halone. eauto. }
    assert (forall g, exists p, worker_report g (wr_processor w) = Some p) as Hrep.
    { intros g. unfold worker_report. rewrite Ew, E0. case_match; eauto. }
    destruct (wr_firing w) as [b|] eqn:Ef.
    + destruct (Hrep (push_throws (ls_dumper s))) as [p Hp]. eexists. eapply LvFire; [done..|].
      unfold report_end. rewrite Ef, Hp. done.
    + assert (exists x, report_begin (push_throws (ls_dumper s)) number_of_threads w (ls_replay s) = Some x) as [[w' r'] E].
      { unfold report_begin. rewrite Ef, Ew, E0. destruct (number_of_threads =? 1).
        - destruct (Hrep (push_throws (ls_dumper s))) as [p ->]. cbn. eauto.
        - destruct (insert_or_visit _ _ _) as [[[]|e] m]; [eauto|destruct (Hrep (fun _ => None)) as [p ->]|
            destruct (Hrep (fun _ => Some OtherError)) as [p ->]]; cbn; eauto. }
      eexists. by eapply LvReport.
  - unfold worker_drained in Halone. rewrite Ew in Halone. eauto.
  - unfold handle_exception in Halone. rewrite Ew in Halone. eauto.
  - destruct (inv_failed _ I _ _ _ Ew). congruence.
Qed.

Lemma caller_progress s : live_inv s -> ls_todo s <> [] -> exists s', live_step s s'.
Proof.
  intros [Ht Hw Hr Hp Hfl Hst] Hne. destruct Hp as (ts & j & He & Hj & Hlt & _ & _).
  assert (exists i, (i < n)%nat /\ ((exists b rest, ls_todo s = Triggers i b :: rest) \/ exists rest, ls_todo s = Completes i :: rest))
    as (i & Hi & Hcase).
  { destruct ts as [|t ts].
    - destruct (n - j)%nat eqn:En; [by rewrite He in Hne|]. exists j. split; [lia|]. right. eexists. by rewrite He.
    - apply Forall_cons in Hlt as [Hlt _]. exists (fst t). split; [done|]. left. rewrite He. cbn. eauto. }
  rewrite <- (wo_length _ _ _ Hw) in Hi. destruct (lookup_lt_is_Some_2 _ _ Hi) as [w Hwi].
  pose proof (wo_writers _ _ _ Hw i w Hwi) as [I [k Hk] _ _ _]. pose proof (list_elem_of_lookup_2 _ _ _ Hwi) as Hin.
  pose proof (take_drop_middle _ _ _ Hwi) as Hs. symmetry in Hs.
  assert (length (take i (rp_writers (ls_replay s))) = i) as Hl by (rewrite length_take; lia).
  destruct Hcase as [(b & rest & Ha)|[rest Ha]].
  - assert (exists p, enqueue b (wr_processor w) = Some p) as [p Ep]; [|eexists; by eapply LvTrigger].
    unfold enqueue. rewrite (inv_fifo _ I) in Hk. apply (f_equal length) in Hk. rewrite !length_app in Hk. cbn in Hk.
    destruct (Nat.ltb_spec (length (dp_queue (wr_processor w))) MAX_QUEUED_CHUNKS) as [|Hge]; [|unfold MAX_QUEUED_CHUNKS in Hge; lia].
    cbn. case_match; eauto.
  - destruct (completed (wr_processor w)) eqn:Ec; [eexists; by eapply LvComplete|].
    by eapply writer_progress; [|apply Hfl| |].
Qed.

End numbered.
End one_flush.

(** *** and every run ends *)

Definition writer_turns (w : writer D) : nat :=
  2 * turns_left (wr_processor w) - match wr_firing w with Some _ => 1 | None => 0 end.

Definition action_turns (a : caller_action) : nat := match a with Triggers _ _ => 9 | Completes _ => 1 end.

Definition flush_turns (s : live_state) : nat :=
  sum_list_with action_turns (ls_todo s) + sum_list_with writer_turns (rp_writers (ls_replay s)).

Lemma sum_list_with_middle {A} (g : A -> nat) l1 x l2 :
  sum_list_with g (l1 ++ x :: l2) = (sum_list_with g l1 + g x + sum_list_with g l2)%nat.
Proof. rewrite sum_list_with_app. cbn. lia. Qed.

Lemma enqueue_turns b (w : writer D) p : enqueue b (wr_processor w) = Some p -> (writer_turns (set_processor p w) <= 8 + writer_turns w)%nat.
Proof.
  intros E. unfold enqueue in E. case_match; [|done]. case_match; simplify_eq/=; [|unfold writer_turns; cbn; lia].
  unfold writer_turns, turns_left. cbn. rewrite length_app. cbn. destruct (dp_worker (wr_processor w)), (wr_firing w); lia.
Qed.

Lemma report_turns g (w : writer D) p :
  worker_report g (wr_processor w) = Some p ->
  (turns_left p < turns_left (wr_processor w))%nat /\ (3 <= turns_left (wr_processor w))%nat.
Proof.
  intros E. unfold worker_report in E. destruct (dp_worker (wr_processor w)) eqn:Ew; try done.
  unfold turns_left at 2 3. rewrite Ew. repeat case_match; simplify_eq/=; unfold turns_left; cbn; lia.
Qed.

Lemma alone_turns i (w : writer D) p :
  worker_alone string_process i (wr_processor w) = Some p -> (turns_left p < turns_left (wr_processor w))%nat.
Proof.
  intros E. unfold worker_alone in E. destruct (dp_worker (wr_processor w)) as [|batch|batch|batch|batch d e|batch d e|] eqn:Ew; try done.
  - unfold worker_wake in E. rewrite Ew in E. unfold turns_left at 2. rewrite Ew.
    repeat case_match; simplify_eq/=; unfold turns_left; cbn; lia.
  - unfold worker_process in E. rewrite Ew in E. unfold turns_left at 2. rewrite Ew.
    case_match; simplify_eq/=; unfold turns_left; cbn; lia.
  - case_match; [|done]. by destruct (report_turns _ _ _ E).
  - unfold worker_drained in E. rewrite Ew in E. unfold turns_left at 2. rewrite Ew.
    destruct (dp_queue (wr_processor w)) eqn:Eq; simplify_eq/=; unfold turns_left; cbn; rewrite ?Eq; cbn; lia.
  - unfold handle_exception in E. rewrite Ew in E. unfold turns_left at 2. rewrite Ew. simplify_eq/=. unfold turns_left. cbn. lia.
Qed.

Lemma live_step_turns s s' : live_step s s' -> (flush_turns s' < flush_turns s)%nat.
Proof.
  intros Hstep. destruct Hstep as [s i b rest l1 w l2 p Ha Hs Hl E|s i rest w Ha Hs E|s l1 w l2 p Hs E|s l1 w l2 w' r' Hs E|s l1 w l2 w' r' b Hs Hf E];
    unfold flush_turns; cbn [ls_replay ls_todo set_writers rp_writers]; try rewrite Ha; try rewrite Hs; rewrite ?sum_list_with_middle; cbn [sum_list_with action_turns].
  - pose proof (enqueue_turns _ _ _ E). lia.
  - lia.
  - pose proof (alone_turns _ _ _ E). unfold writer_turns. cbn. destruct (wr_firing w); lia.
  - enough (writer_turns w' < writer_turns w)%nat by lia. unfold report_begin in E.
    destruct (wr_firing w) eqn:Ef; [done|]. destruct (dp_worker (wr_processor w)) as [| |batch| | | |] eqn:Ew; try done.
    assert (forall g p, worker_report g (wr_processor w) = Some p -> writer_turns {| wr_processor := p; wr_firing := None |} < writer_turns w)%nat as Hrep.
    { intros g p Ep. destruct (report_turns _ _ _ Ep). unfold writer_turns. cbn. rewrite Ef. lia. }
    destruct (_ =? 0); [done|]. destruct (number_of_threads =? 1); [apply bind_Some in E as (p & Ep & E); simplify_eq; by eapply Hrep|].
    destruct (insert_or_visit _ _ _) as [[[]|] m]; cbn in E;
      [|apply bind_Some in E as (p & Ep & E); simplify_eq; by eapply Hrep..].
    injection E as <- <-. unfold writer_turns, turns_left. cbn. rewrite Ef, Ew. lia.
  - enough (writer_turns w' < writer_turns w)%nat by lia. unfold report_end in E. rewrite Hf in E.
    apply bind_Some in E as (p & Ep & E). simplify_eq. destruct (report_turns _ _ _ Ep). unfold writer_turns. cbn. rewrite Hf. lia.
Qed.

(** ** A flush by writers that have worked before

    A processor does not look at what it has done, so a flush by idle writers is a flush by
    fresh ones. *)

Record history := { h_accepted : list (@queued_batch D); h_processed : list (@queued_batch D); h_reported : list Z }.

Definition with_history (h : history) (p : @processor D) : processor :=
  {| dp_queue := dp_queue p; dp_cancel := dp_cancel p; dp_continue := dp_continue p;
     dp_is_processing_data := dp_is_processing_data p; dp_future_valid := dp_future_valid p;
     dp_worker := dp_worker p; dp_killed := dp_killed p;
     dp_accepted := h_accepted h ++ dp_accepted p; dp_processed := h_processed h ++ dp_processed p;
     dp_reported := h_reported h ++ dp_reported p |}.

Definition writer_with_history (h : history) (w : writer D) : writer D :=
  {| wr_processor := with_history h (wr_processor w); wr_firing := wr_firing w |}.

Lemma enqueue_history h b p : enqueue b (with_history h p) = with_history h <$> enqueue b p.
Proof. unfold enqueue. cbn. repeat case_match; cbn; [|done..]. unfold with_history. cbn. by rewrite <- app_assoc. Qed.

Lemma report_history h g p : worker_report g (with_history h p) = with_history h <$> worker_report g p.
Proof.
  unfold worker_report, with_history. cbn. destruct (dp_worker p); try done.
  repeat case_match; unfold with_worker, notify_processing_finished, with_flags; cbn; by rewrite <- app_assoc.
Qed.

Lemma alone_history h i p :
  worker_alone string_process i (with_history h p) = with_history h <$> worker_alone string_process i p.
Proof.
  unfold worker_alone. cbn [with_history dp_worker]. destruct (dp_worker p) eqn:Ew; try done.
  - unfold worker_wake, with_history, with_worker, notify_processing_finished, with_flags. cbn. rewrite Ew.
    destruct (dp_queue p) eqn:Eq; repeat case_match; cbn; by rewrite ?Eq.
  - unfold worker_process, with_history. cbn. rewrite Ew.
    case_match; unfold with_worker, notify_processing_finished, with_flags; cbn; [done|by rewrite <- app_assoc].
  - case_match; [apply report_history|done].
  - unfold worker_drained, with_history, with_worker, notify_processing_finished, with_flags. cbn. rewrite Ew.
    destruct (dp_queue p) eqn:Eq; cbn; by rewrite ?Eq.
  - unfold handle_exception, with_history. cbn. by rewrite Ew.
Qed.

(** [r] is [t] with histories. *)
Record similar (fired : list Z) (r t : replay_state D) : Prop := {
  sm_todo : rp_todo r = rp_todo t;
  sm_writers : Forall2 (fun w v => exists h, w = writer_with_history h v) (rp_writers r) (rp_writers t);
  sm_completed : rp_completed r = rp_completed t;
  sm_fired : rp_fired r = fired ++ rp_fired t;
  sm_failed : rp_failed r = rp_failed t
}.

Record live_similar (fired : list Z) (commands : list C) (s t : live_state) : Prop := {
  lm_todo : ls_todo s = ls_todo t;
  lm_replay : similar fired (ls_replay s) (ls_replay t);
  lm_dumper : ls_dumper s = ls_dumper t;
  lm_commands : ls_commands s = commands ++ ls_commands t
}.

Lemma similar_replace fired r t l1 w l2 k1 v k2 h v' r' t' :
  similar fired r t -> rp_writers r = l1 ++ w :: l2 -> rp_writers t = k1 ++ v :: k2 -> length l1 = length k1 ->
  rp_todo r' = rp_todo t' -> rp_completed r' = rp_completed t' -> rp_failed r' = rp_failed t' ->
  rp_fired r' = fired ++ rp_fired t' ->
  similar fired (set_writers (l1 ++ writer_with_history h v' :: l2) r') (set_writers (k1 ++ v' :: k2) t').
Proof.
  intros [_ Hw _ _ _] Hr Ht Hl E1 E2 E3 E4. rewrite Hr, Ht in Hw. apply Forall2_app_inv in Hw as [Hw1 Hw2]; [|done].
  apply Forall2_cons in Hw2 as [_ Hw2]. constructor; cbn; try done. apply Forall2_app; [done|]. constructor; [by exists h|done].
Qed.

Lemma similar_split fired r t l1 w l2 :
  similar fired r t -> rp_writers r = l1 ++ w :: l2 ->
  exists k1 v k2 h, rp_writers t = k1 ++ v :: k2 /\ length k1 = length l1 /\ w = writer_with_history h v.
Proof.
  intros [_ Hw _ _ _] Hr. rewrite Hr in Hw. apply Forall2_app_inv_l in Hw as (k1 & k & H1 & H2 & Ht).
  apply Forall2_cons_inv_l in H2 as (v & k2 & [h Hh] & _ & ->). exists k1, v, k2, h.
  split_and!; [done|by symmetry; eapply Forall2_length|done].
Qed.

Lemma similar_split_r fired r t k1 v k2 :
  similar fired r t -> rp_writers t = k1 ++ v :: k2 ->
  exists l1 w l2 h, rp_writers r = l1 ++ w :: l2 /\ length l1 = length k1 /\ w = writer_with_history h v.
Proof.
  intros [_ Hw _ _ _] Ht. rewrite Ht in Hw. apply Forall2_app_inv_r in Hw as (l1 & l & H1 & H2 & Hr).
  apply Forall2_cons_inv_r in H2 as (w & l2 & [h Hh] & _ & ->). exists l1, w, l2, h.
  split_and!; [done|by eapply Forall2_length|done].
Qed.

(** The rendezvous does not look at histories either. *)
Lemma report_begin_similar fired g r t h v :
  similar fired r t ->
  match report_begin g number_of_threads v t with
  | Some (v', t') => exists r', report_begin g number_of_threads (writer_with_history h v) r = Some (writer_with_history h v', r') /\
      rp_todo r' = rp_todo t' /\ rp_completed r' = rp_completed t' /\ rp_failed r' = rp_failed t' /\
      rp_fired r' = fired ++ rp_fired t'
  | None => report_begin g number_of_threads (writer_with_history h v) r = None
  end.
Proof.
  intros [Ht Hw Hc Hf Hfa]. unfold report_begin. cbn. destruct (wr_firing v); [done|].
  destruct (dp_worker (wr_processor v)) as [| |batch| | | |] eqn:Ew; try done. destruct (_ =? 0); [done|].
  rewrite Hc. destruct (number_of_threads =? 1).
  - rewrite report_history. destruct (worker_report g (wr_processor v)) as [p|]; cbn; [|done].
    eexists. split; [done|]. cbn. rewrite Hf, <- app_assoc. done.
  - destruct (insert_or_visit _ _ _) as [[[]|e] m]; rewrite ?report_history; cbn;
      [|destruct (worker_report (fun _ => None) (wr_processor v)) as [p|]; cbn; [|done]|
        destruct (worker_report (fun _ => Some OtherError) (wr_processor v)) as [p|]; cbn; [|done]];
      (eexists; split; [done|]; cbn; by rewrite Hf).
Qed.

Lemma report_end_similar fired g r t h v :
  similar fired r t ->
  match report_end g v t with
  | Some (v', t') => exists r', report_end g (writer_with_history h v) r = Some (writer_with_history h v', r') /\
      rp_todo r' = rp_todo t' /\ rp_completed r' = rp_completed t' /\ rp_failed r' = rp_failed t' /\
      rp_fired r' = fired ++ rp_fired t'
  | None => report_end g (writer_with_history h v) r = None
  end.
Proof.
  intros [Ht Hw Hc Hf Hfa]. unfold report_end. cbn. destruct (wr_firing v); [|done].
  rewrite report_history. destruct (worker_report g (wr_processor v)) as [p|]; cbn; [|done].
  eexists. split; [done|]. cbn. rewrite Hf, Hc, <- app_assoc. done.
Qed.

Lemma similar_step fired commands s t s' :
  live_similar fired commands s t -> live_step s s' -> exists t', live_step t t' /\ live_similar fired commands s' t'.
Proof.
  intros [Ht Hr Hd Hc] Hstep. pose proof Hr as [Hrt Hrw Hrc Hrf Hrfa].
  destruct Hstep as [s i b rest l1 w l2 p Ha Hs Hl E|s i rest w Ha Hs E|s l1 w l2 p Hs E|s l1 w l2 w' r' Hs E|s l1 w l2 w' r' b Hs Hf E].
  - destruct (similar_split _ _ _ _ _ _ Hr Hs) as (k1 & v & k2 & h & Hv & Hk & ->). cbn in E. rewrite enqueue_history in E.
    apply fmap_Some in E as (q & Eq & ->). eexists. split; [eapply LvTrigger; [by rewrite <- Ht|done|congruence|done]|].
    constructor; cbn; [done| |done|done].
    eapply (similar_replace _ _ _ _ _ _ _ _ _ h (set_processor q v) {| rp_todo := _; rp_writers := []; rp_completed := _; rp_fired := _; rp_failed := _ |}
      {| rp_todo := _; rp_writers := []; rp_completed := _; rp_fired := _; rp_failed := _ |} Hr Hs Hv); done.
  - pose proof (Forall2_lookup_l _ _ _ _ _ Hrw Hs) as (v & Hv & h & ->). eexists.
    split; [eapply LvComplete; [by rewrite <- Ht|done|done]|]. by constructor.
  - destruct (similar_split _ _ _ _ _ _ Hr Hs) as (k1 & v & k2 & h & Hv & Hk & ->). cbn in E. rewrite alone_history in E.
    apply fmap_Some in E as (q & Eq & ->). eexists. split; [eapply LvWorker; [done|by rewrite Hk]|].
    constructor; cbn; [done| |by rewrite Hd, Hk|done].
    by eapply (similar_replace _ _ _ _ _ _ _ _ _ h (set_processor q v) _ _ Hr Hs Hv).
  - destruct (similar_split _ _ _ _ _ _ Hr Hs) as (k1 & v & k2 & h & Hv & Hk & ->). rewrite Hd in E.
    pose proof (report_begin_similar _ (push_throws (ls_dumper t)) _ _ h v Hr) as Hsim.
    destruct (report_begin _ _ v _) as [[v' t']|] eqn:Ev; [|congruence]. destruct Hsim as (r2 & E2 & ? & ? & ? & ?).
    rewrite E in E2. injection E2 as -> ->. eexists. split; [by eapply LvReport|]. constructor; cbn; [done| |done|done].
    by eapply (similar_replace _ _ _ _ _ _ _ _ _ h v' _ _ Hr Hs Hv).
  - destruct (similar_split _ _ _ _ _ _ Hr Hs) as (k1 & v & k2 & h & Hv & Hk & ->). rewrite Hd in E.
    pose proof (report_end_similar _ (push_throws (ls_dumper t)) _ _ h v Hr) as Hsim.
    destruct (report_end _ v _) as [[v' t']|] eqn:Ev; [|congruence]. destruct Hsim as (r2 & E2 & ? & ? & ? & ?).
    rewrite E in E2. injection E2 as -> ->. eexists. split; [by eapply LvFire|]. constructor; cbn; [done| |by rewrite Hd|by rewrite Hc, Hd, app_assoc].
    by eapply (similar_replace _ _ _ _ _ _ _ _ _ h v' _ _ Hr Hs Hv).
Qed.

Lemma similar_steps fired commands s t s' :
  live_similar fired commands s t -> rtc live_step s s' -> exists t', rtc live_step t t' /\ live_similar fired commands s' t'.
Proof.
  intros Hs Hr. revert t Hs. induction Hr as [s|s u s' Hu _ IH]; intros t Hs; [by exists t|].
  destruct (similar_step _ _ _ _ _ Hs Hu) as (t1 & Ht1 & Hs1). destruct (IH t1 Hs1) as (t2 & Ht2 & Hs2).
  exists t2. split; [by eapply rtc_l|done].
Qed.

Lemma similar_progress fired commands s t :
  live_similar fired commands s t -> (exists t', live_step t t') -> exists s', live_step s s'.
Proof.
  intros [Ht Hr Hd Hc] [t' Hstep]. pose proof Hr as [Hrt Hrw Hrc Hrf Hrfa].
  destruct Hstep as [t i b rest k1 v k2 p Ha Hs Hl E|t i rest v Ha Hs E|t k1 v k2 p Hs E|t k1 v k2 v' t' Hs E|t k1 v k2 v' t' b Hs Hf E].
  - destruct (similar_split_r _ _ _ _ _ _ Hr Hs) as (l1 & w & l2 & h & Hw & Hk & ->). eexists.
    eapply LvTrigger; [by rewrite Ht|done|congruence|]. cbn. by rewrite enqueue_history, E.
  - pose proof (Forall2_lookup_r _ _ _ _ _ Hrw Hs) as (w & Hw & h & ->). eexists. eapply LvComplete; [by rewrite Ht|done|done].
  - destruct (similar_split_r _ _ _ _ _ _ Hr Hs) as (l1 & w & l2 & h & Hw & Hk & ->). eexists. eapply LvWorker; [done|].
    cbn. by rewrite alone_history, Hk, E.
  - destruct (similar_split_r _ _ _ _ _ _ Hr Hs) as (l1 & w & l2 & h & Hw & Hk & ->).
    pose proof (report_begin_similar _ (push_throws (ls_dumper t)) _ _ h v Hr) as Hsim. rewrite E in Hsim.
    destruct Hsim as (r2 & E2 & _). eexists. eapply LvReport; [done|]. by rewrite Hd.
  - destruct (similar_split_r _ _ _ _ _ _ Hr Hs) as (l1 & w & l2 & h & Hw & Hk & ->).
    pose proof (report_end_similar _ (push_throws (ls_dumper t)) _ _ h v Hr) as Hsim. rewrite E in Hsim.
    destruct Hsim as (r2 & E2 & _). eexists. eapply LvFire; [done|done|]. by rewrite Hd.
Qed.

(** *** Between flushes *)

Record ready (n : nat) (s : live_state) : Prop := {
  rd_length : length (rp_writers (ls_replay s)) = n;
  rd_writers : forall w, w ∈ rp_writers (ls_replay s) -> idle (wr_processor w) /\ flags_ok w /\ wr_firing w = None;
  rd_completed : rp_completed (ls_replay s) = ∅;
  rd_failed : rp_failed (ls_replay s) = false
}.

(** The caller enters [trigger_data_flush]. *)
Definition begin_flush (f : replay_flush D) (s : live_state) : live_state :=
  {| ls_todo := plan f;
     ls_replay := {| rp_todo := triggers_of f; rp_writers := rp_writers (ls_replay s);
                     rp_completed := rp_completed (ls_replay s); rp_fired := rp_fired (ls_replay s);
                     rp_failed := rp_failed (ls_replay s) |};
     ls_dumper := ls_dumper s; ls_commands := ls_commands s |}.

Definition history_of (p : @processor D) : history :=
  {| h_accepted := dp_accepted p; h_processed := dp_processed p; h_reported := dp_reported p |}.

Lemma idle_is_new w :
  idle (wr_processor w) -> flags_ok w -> wr_firing w = None ->
  w = writer_with_history (history_of (wr_processor w)) {| wr_processor := new_processor; wr_firing := None |}.
Proof.
  intros (Hw & Hq & Hb) [Hv Hr _ _] Hf. unfold stopped in Hr. rewrite Hw in Hr. destruct (Hr eq_refl) as (Hc & Hn & Hk).
  destruct w as [p fi]. unfold writer_with_history, with_history, history_of. cbn in *. f_equal; [|done].
  rewrite !app_nil_r. destruct p. cbn in *. by subst.
Qed.

Lemma ready_similar f s :
  ready (length (fl_parts f)) s ->
  live_similar (rp_fired (ls_replay s)) (ls_commands s) (begin_flush f s) (live_init f (ls_dumper s)).
Proof.
  intros [Hl Hw Hc Hfa]. constructor; cbn [begin_flush live_init ls_todo ls_replay ls_dumper ls_commands]; try done; [|by rewrite app_nil_r].
  constructor; cbn; rewrite ?app_nil_r; try done.
  rewrite <- Hl. apply Forall2_replicate_r; [done|]. apply Forall_forall. intros w Hin. destruct (Hw w Hin) as (? & ? & ?).
  eexists. by apply idle_is_new.
Qed.

(** A flush that has returned, and in which no writer has failed. *)
Definition returned (s : live_state) : Prop :=
  ls_todo s = [] /\ forall w, w ∈ rp_writers (ls_replay s) -> stopped w = false.

Inductive flushes_run : list (replay_flush D) -> live_state -> live_state -> Prop :=
| NoFlush s : flushes_run [] s s
| OneFlush f fs s s1 s2 :
    rtc live_step (begin_flush f s) s1 -> returned s1 -> flushes_run fs s1 s2 -> flushes_run (f :: fs) s s2.

(** The flushes one after the other, each by one thread. *)
Fixpoint sequential_flushes (fs : list (replay_flush D)) (st : St) : option (list C * St) :=
  match fs with
  | [] => Some ([], st)
  | f :: fs' =>
      match sequential_flush f st with
      | (Ok cs, st1) => '(cs', st2) ← sequential_flushes fs' st1; Some (cs ++ cs', st2)
      | (Throw _, _) => None
      end
  end.

Section theorems.
Hypothesis commute : forall i j t u st, i <> j -> store i t (store j u st) = store j u (store i t st).
Hypothesis range : 2 <= number_of_threads <= UINT32_MAX.

(** A flush that number_of_threads writers can take part in. *)
Definition proper_flush (f : replay_flush D) : Prop :=
  fl_last_block_num f <> 0 /\ number_of_threads = Z.of_nat (length (fl_parts f)).

Lemma flush_inv f s s' :
  proper_flush f -> ready (Z.to_nat number_of_threads) s -> rtc live_step (begin_flush f s) s' ->
  exists t, live_similar (rp_fired (ls_replay s)) (ls_commands s) s' t /\ live_inv f (ls_dumper s) t.
Proof.
  intros [Hnz Hn] Hrd Hr. assert (ready (length (fl_parts f)) s) as Hrd' by (by rewrite Hn, Nat2Z.id in Hrd).
  destruct (similar_steps _ _ _ _ _ (ready_similar f s Hrd') Hr) as (t & Ht & Hsim). exists t. split; [done|].
  assert (live_inv f (ls_dumper s) (live_init f (ls_dumper s))) as H0 by (by apply live_init_inv).
  clear Hsim Hr Hrd Hrd'. remember (live_init f (ls_dumper s)) as t0 eqn:E. clear E.
  induction Ht as [|x y z Hxy _ IH]; [done|]. apply IH. by eapply live_step_inv.
Qed.

Lemma flush_end f s s' :
  proper_flush f -> ready (Z.to_nat number_of_threads) s -> rtc live_step (begin_flush f s) s' -> returned s' ->
  ready (Z.to_nat number_of_threads) s' /\
  exists cs, sequential_flush f (ls_dumper s) = (Ok cs, ls_dumper s') /\ ls_commands s' = ls_commands s ++ cs.
Proof.
  intros Hf Hrd Hr [Hd Hrun]. destruct (flush_inv f s s' Hf Hrd Hr) as (t & [Ht Hsm Hdm Hcm] & Hi). destruct Hf as [Hnz Hn].
  destruct Hsm as [_ Hw Hc Hfi Hfa].
  assert (forall v, v ∈ rp_writers (ls_replay t) -> stopped v = false) as Hrt.
  { intros v Hv. apply list_elem_of_lookup in Hv as [i Hv]. destruct (Forall2_lookup_r _ _ _ _ _ Hw Hv) as (w & Hwi & h & ->).
    apply (Hrun _ (list_elem_of_lookup_2 _ _ _ Hwi)). }
  rewrite Ht in Hd. destruct (live_inv_end f (ls_dumper s) commute Hnz Hn range t Hi Hd Hrt) as (Hseq & _ & Hc' & Hf' & _ & Hall).
  split; [constructor|].
  - rewrite (Forall2_length _ _ _ Hw), (wo_length _ _ _ (lv_writers _ _ _ Hi)). lia.
  - intros w Hin. apply list_elem_of_lookup in Hin as [i Hwi].
    destruct (Forall2_lookup_l _ _ _ _ _ Hw Hwi) as (v & Hv & h & ->).
    destruct (Hall v (list_elem_of_lookup_2 _ _ _ Hv)) as (Hid & [Hv1 Hv2 Hv3 Hv4] & Hnf). done.
  - by rewrite Hc.
  - by rewrite Hfa.
  - exists (ls_commands t). by rewrite Hdm.
Qed.

(** Whatever the interleaving of the caller, the writers' workers and their reports: flushes that
    return without a failed writer leave the commands and the members that rendering the parts
    one after the other and then calling execute_push_block leaves, and the writers idle. *)
Theorem live_flushes_are_sequential fs s s' :
  Forall proper_flush fs -> ready (Z.to_nat number_of_threads) s -> flushes_run fs s s' ->
  ready (Z.to_nat number_of_threads) s' /\
  exists cs, sequential_flushes fs (ls_dumper s) = Some (cs, ls_dumper s') /\ ls_commands s' = ls_commands s ++ cs.
Proof.
  intros Hfs Hrd Hrun. revert Hfs Hrd. induction Hrun as [s|f fs s s1 s2 Hr Hret _ IH]; intros Hfs Hrd.
  - split; [done|]. exists []. by rewrite app_nil_r.
  - apply Forall_cons in Hfs as [Hf Hfs]. destruct (flush_end f s s1 Hf Hrd Hr Hret) as (Hrd1 & cs & Hs1 & Hc1).
    destruct (IH Hfs Hrd1) as (Hrd2 & cs' & Hs2 & Hc2). split; [done|]. exists (cs ++ cs').
    cbn [sequential_flushes]. rewrite Hs1, Hs2. cbn. split; [done|]. by rewrite Hc2, Hc1, app_assoc.
Qed.

Lemma flush_progress f s s' :
  proper_flush f -> ready (Z.to_nat number_of_threads) s -> rtc live_step (begin_flush f s) s' ->
  ls_todo s' <> [] -> exists s'', live_step s' s''.
Proof.
  intros Hf Hrd Hr Hne. destruct (flush_inv f s s' Hf Hrd Hr) as (t & Hsim & Hi). eapply similar_progress; [done|].
  apply (caller_progress f (ls_dumper s)); [done|]. by rewrite <- (lm_todo _ _ _ _ Hsim).
Qed.

(** *** The queue of commands

    [execute_push_block] ends in [processing_thread::enqueue]: with the log open it waits until
    the queue of commands has room, which only the processing thread makes. *)

  Context (log_open : bool) (max_queue_depth : nat).

Record queue_state := {
  qs_live : live_state;
  qs_waiting : nat;                  (* the length of _command_queue *)
  qs_thread_alive : bool             (* the processing thread has not thrown *)
}.

Definition has_room (s : queue_state) : bool := negb log_open || (qs_waiting s <? max_queue_depth)%nat.

Inductive queue_step : queue_state -> queue_state -> Prop :=
| QuMove s l :
    live_step (qs_live s) l -> ls_commands l = ls_commands (qs_live s) ->
    queue_step s {| qs_live := l; qs_waiting := qs_waiting s; qs_thread_alive := qs_thread_alive s |}
| QuEnqueue s l cs :
    live_step (qs_live s) l -> ls_commands l = ls_commands (qs_live s) ++ cs -> cs <> [] -> has_room s = true ->
    queue_step s {| qs_live := l; qs_waiting := if log_open then qs_waiting s + length cs else qs_waiting s;
                    qs_thread_alive := qs_thread_alive s |}
| QuTake s waiting :
    qs_thread_alive s = true -> qs_waiting s = S waiting ->
    queue_step s {| qs_live := qs_live s; qs_waiting := waiting; qs_thread_alive := true |}.

(** A statement fails and the processing thread ends. *)
Inductive thread_dies : queue_state -> queue_state -> Prop :=
| ThreadDies s :
    thread_dies s {| qs_live := qs_live s; qs_waiting := qs_waiting s; qs_thread_alive := false |}.

Definition queue_run : queue_state -> queue_state -> Prop := rtc (fun s s' => queue_step s s' \/ thread_dies s s').

Definition begin_queued_flush (f : replay_flush D) (s : queue_state) : queue_state :=
  {| qs_live := begin_flush f (qs_live s); qs_waiting := qs_waiting s; qs_thread_alive := qs_thread_alive s |}.

Lemma queue_run_live s s' : queue_run s s' -> rtc live_step (qs_live s) (qs_live s').
Proof.
  induction 1 as [|x y z Hxy _ IH]; [done|]. etrans; [|exact IH].
  destruct Hxy as [[s0 l Hl _|s0 l cs Hl _ _ _|]|[]]; cbn; try done; by apply rtc_once.
Qed.

(** Commands are only added, one at a time. *)
  Hypothesis one_command : forall b st, (length (pushed b st) <= 1)%nat.

Lemma live_step_commands s s' :
  live_step s s' -> exists cs, ls_commands s' = ls_commands s ++ cs /\ (length cs <= 1)%nat.
Proof.
  destruct 1; cbn; try (exists []; split; [by rewrite app_nil_r|cbn; lia]). eexists. split; [done|]. apply one_command.
Qed.

Definition queue_turns (s : queue_state) : nat := 2 * flush_turns (qs_live s) + qs_waiting s.

Lemma queue_step_turns s s' : queue_step s s' -> (queue_turns s' < queue_turns s)%nat.
Proof.
  destruct 1 as [s l Hl _|s l cs Hl Hc _ _|s n _ Hn]; unfold queue_turns; cbn; [| |lia];
    pose proof (live_step_turns _ _ Hl); [lia|].
  destruct (live_step_commands _ _ Hl) as (cs' & Hc' & Hlen). rewrite Hc in Hc'. apply app_inv_head in Hc'. subst cs'.
  destruct log_open; lia.
Qed.

(** C9: A live flush returns, provided the processing thread goes on taking commands from its queue:
    as long as the caller of trigger_data_flush has something to do and the queue has room or the
    thread is alive, the caller, a writer or the processing thread can move, and however they
    interleave there is a bound on the number of their moves.  (The queue must have room for one
    command; a thread that has died leaves a full queue full.) *)
Theorem live_flush_returns f s s' :
  proper_flush f -> ready (Z.to_nat number_of_threads) (qs_live s) -> (1 <= max_queue_depth)%nat ->
  queue_run (begin_queued_flush f s) s' ->
  (ls_todo (qs_live s') <> [] -> has_room s' = true \/ qs_thread_alive s' = true -> exists s'', queue_step s' s'') /\
  (forall k s'', nsteps queue_step k s' s'' -> (k <= queue_turns s')%nat).
Proof.
  intros Hf Hrd Hd Hr. split.
  - intros Hne Hroom. apply queue_run_live in Hr. cbn in Hr.
    destruct (has_room s') eqn:Er.
    + destruct (flush_progress f (qs_live s) (qs_live s') Hf Hrd Hr Hne) as [l Hl].
      destruct (live_step_commands _ _ Hl) as (cs & Hc & _). destruct cs as [|c cs].
      * eexists. eapply QuMove; [done|]. by rewrite Hc, app_nil_r.
      * eexists. by eapply QuEnqueue.
    + destruct Hroom as [|Ha]; [done|]. unfold has_room in Er. apply orb_false_iff in Er as [_ Er]. apply Nat.ltb_ge in Er.
      destruct (qs_waiting s') as [|n] eqn:Ew; [lia|]. eexists. by eapply QuTake.
  - intros k s'' Hk. clear Hr. induction Hk as [|k x y z Hxy _ IH]; [lia|]. pose proof (queue_step_turns _ _ Hxy). lia.
Qed.

End theorems.
(** ** A scheduler *)

Definition caller_move (s : live_state) : option live_state :=
  match ls_todo s with
  | Triggers i b :: rest =>
      w ← rp_writers (ls_replay s) !! i; p ← enqueue b (wr_processor w);
      Some {| ls_todo := rest;
              ls_replay := {| rp_todo := triggers_in rest;
                              rp_writers := take i (rp_writers (ls_replay s)) ++ set_processor p w :: drop (S i) (rp_writers (ls_replay s));
                              rp_completed := rp_completed (ls_replay s); rp_fired := rp_fired (ls_replay s);
                              rp_failed := rp_failed (ls_replay s) |};
              ls_dumper := ls_dumper s; ls_commands := ls_commands s |}
  | Completes i :: rest =>
      w ← rp_writers (ls_replay s) !! i;
      if completed (wr_processor w)
      then Some {| ls_todo := rest; ls_replay := ls_replay s; ls_dumper := ls_dumper s; ls_commands := ls_commands s |}
      else None
  | [] => None
  end.

Definition worker_move (i : nat) (s : live_state) : option live_state :=
  let l1 := take i (rp_writers (ls_replay s)) in
  let l2 := drop (S i) (rp_writers (ls_replay s)) in
  w ← rp_writers (ls_replay s) !! i;
  match worker_alone string_process i (wr_processor w), wr_firing w with
  | Some p, _ =>
      Some {| ls_todo := ls_todo s; ls_replay := set_writers (l1 ++ set_processor p w :: l2) (ls_replay s);
              ls_dumper := worker_effect i (wr_processor w) (ls_dumper s); ls_commands := ls_commands s |}
  | None, None =>
      '(w', r') ← report_begin (push_throws (ls_dumper s)) number_of_threads w (ls_replay s);
      Some {| ls_todo := ls_todo s; ls_replay := set_writers (l1 ++ w' :: l2) r';
              ls_dumper := ls_dumper s; ls_commands := ls_commands s |}
  | None, Some b =>
      '(w', r') ← report_end (push_throws (ls_dumper s)) w (ls_replay s);
      Some {| ls_todo := ls_todo s; ls_replay := set_writers (l1 ++ w' :: l2) r';
              ls_dumper := snd (push b (ls_dumper s)); ls_commands := ls_commands s ++ pushed b (ls_dumper s) |}
  end.

(** Thread 0 is the caller, thread [i + 1] the worker of writer [i]; a thread that cannot move is
    passed over. *)
Definition run_threads (schedule : list nat) (s : live_state) : live_state :=
  foldl (fun s k => default s (match k with O => caller_move s | S i => worker_move i s end)) s schedule.

Lemma caller_move_step s s' : caller_move s = Some s' -> live_step s s'.
Proof.
  unfold caller_move. destruct (ls_todo s) as [|[i b|i] rest] eqn:Et; [done| |]; intros E;
    apply bind_Some in E as (w & Hw & E); pose proof (lookup_lt_Some _ _ _ Hw) as Hlt.
  - apply bind_Some in E as (p & Hp & E). injection E as <-.
    eapply LvTrigger; [done|by symmetry; apply take_drop_middle|rewrite length_take; lia|done].
  - destruct (completed (wr_processor w)) eqn:Ec; [|done]. injection E as <-. by eapply LvComplete.
Qed.

Lemma worker_move_step i s s' : worker_move i s = Some s' -> live_step s s'.
Proof.
  unfold worker_move. intros E. apply bind_Some in E as (w & Hw & E). pose proof (lookup_lt_Some _ _ _ Hw) as Hlt.
  pose proof (take_drop_middle _ _ _ Hw) as Hs. symmetry in Hs.
  assert (length (take i (rp_writers (ls_replay s))) = i) as Hl by (rewrite length_take; lia).
  destruct (worker_alone string_process i (wr_processor w)) as [p|] eqn:Ea.
  - injection E as <-. rewrite <- Hl at 3. eapply LvWorker; [done|by rewrite Hl].
  - destruct (wr_firing w) as [b|] eqn:Ef; apply bind_Some in E as ([w' r'] & E & E2); injection E2 as <-;
      [by eapply LvFire|by eapply LvReport].
Qed.

Lemma run_threads_steps schedule s : rtc live_step s (run_threads schedule s).
Proof.
  revert s. induction schedule as [|k schedule IH]; intros s; [done|]. cbn. etrans; [|apply IH].
  destruct k as [|i]; [destruct (caller_move s) eqn:E|destruct (worker_move i s) eqn:E]; cbn; try done; apply rtc_once;
    [by apply caller_move_step|by eapply worker_move_step].
Qed.

End live.
Arguments live_state : clear implicits.
Arguments queue_state : clear implicits.
