(* ===== verification/LiveFlushRefinement.v ===== *)
(** * The parallel live flush refines the dumper

    Instantiates LiveFlush with the writers of [livesync_data_dumper.cpp]: their texts are the
    members and the strings of the splitters ([chunks_for_writers_spillter.h]), their parts come
    from [cached_data_t], and the function of the rendezvous is [execute_push_block].  The
    theorem shows that the flush of Dumpers, a function of the cache, is what every
    interleaving of the threads computes. *)

From S2P Require Import Prelude Text CachedData DataProcessor Writers Conversions SqlText DataDumper Dumpers BatchPipeline LiveFlush.
From Stdlib Require Import ZArith Lia Ascii String.
From stdpp Require Import base list strings gmap sorting.

Open Scope Z_scope.

(** ** Where the texts of the writers go *)

Inductive text_slot :=
| BlockText
| OperationText (writer_num : nat)
| TransactionText (writer_num : nat)
| MultisigText
| AccountText
| AccountOperationText (writer_num : nat)
| HardforkText.

#[global] Instance text_slot_eq_dec : EqDecision text_slot.
Proof. solve_decision. Defined.

(** In the order the writers are triggered and waited for. *)
Definition slots (cfg : live_config) : list text_slot :=
  [BlockText] ++ map OperationText (seq 0 (lc_operations_threads cfg)) ++
  map TransactionText (seq 0 (lc_transactions_threads cfg)) ++ [MultisigText; AccountText] ++
  map AccountOperationText (seq 0 (lc_account_operation_threads cfg)) ++ [HardforkText].

Definition set_operation_strings (l : list (list ascii)) (ld : live_dumper) : live_dumper :=
  {| ld_block := ld_block ld; ld_transactions_multisig := ld_transactions_multisig ld; ld_accounts := ld_accounts ld;
     ld_applied_hardforks := ld_applied_hardforks ld; ld_transaction_strings := ld_transaction_strings ld;
     ld_operation_strings := l; ld_account_operation_strings := ld_account_operation_strings ld;
     ld_last_dumped_block := ld_last_dumped_block ld; ld_currently_processing_block := ld_currently_processing_block ld |}.

Definition set_transaction_strings (l : list (list ascii)) (ld : live_dumper) : live_dumper :=
  {| ld_block := ld_block ld; ld_transactions_multisig := ld_transactions_multisig ld; ld_accounts := ld_accounts ld;
     ld_applied_hardforks := ld_applied_hardforks ld; ld_transaction_strings := l;
     ld_operation_strings := ld_operation_strings ld; ld_account_operation_strings := ld_account_operation_strings ld;
     ld_last_dumped_block := ld_last_dumped_block ld; ld_currently_processing_block := ld_currently_processing_block ld |}.

Definition set_account_operation_strings (l : list (list ascii)) (ld : live_dumper) : live_dumper :=
  {| ld_block := ld_block ld; ld_transactions_multisig := ld_transactions_multisig ld; ld_accounts := ld_accounts ld;
     ld_applied_hardforks := ld_applied_hardforks ld; ld_transaction_strings := ld_transaction_strings ld;
     ld_operation_strings := ld_operation_strings ld; ld_account_operation_strings := l;
     ld_last_dumped_block := ld_last_dumped_block ld; ld_currently_processing_block := ld_currently_processing_block ld |}.

Definition set_texts (block multisig accounts hardforks : list ascii) (ld : live_dumper) : live_dumper :=
  {| ld_block := block; ld_transactions_multisig := multisig; ld_accounts := accounts;
     ld_applied_hardforks := hardforks; ld_transaction_strings := ld_transaction_strings ld;
     ld_operation_strings := ld_operation_strings ld; ld_account_operation_strings := ld_account_operation_strings ld;
     ld_last_dumped_block := ld_last_dumped_block ld; ld_currently_processing_block := ld_currently_processing_block ld |}.

(** The callbacks: [_block = std::move( _text )], [str = std::move( _str )] and so on. *)
Definition store_text (slot : text_slot) (text : list ascii) (ld : live_dumper) : live_dumper :=
  match slot with
  | BlockText => set_texts text (ld_transactions_multisig ld) (ld_accounts ld) (ld_applied_hardforks ld) ld
  | MultisigText => set_texts (ld_block ld) text (ld_accounts ld) (ld_applied_hardforks ld) ld
  | AccountText => set_texts (ld_block ld) (ld_transactions_multisig ld) text (ld_applied_hardforks ld) ld
  | HardforkText => set_texts (ld_block ld) (ld_transactions_multisig ld) (ld_accounts ld) text ld
  | OperationText j => set_operation_strings (<[j := text]> (ld_operation_strings ld)) ld
  | TransactionText j => set_transaction_strings (<[j := text]> (ld_transaction_strings ld)) ld
  | AccountOperationText j => set_account_operation_strings (<[j := text]> (ld_account_operation_strings ld)) ld
  end.

Definition writer_callback (cfg : live_config) (i : nat) (text : list ascii) (ld : live_dumper) : live_dumper :=
  match slots cfg !! i with Some slot => store_text slot text ld | None => ld end.

Lemma store_text_commute a b t u ld :
  a <> b -> store_text a t (store_text b u ld) = store_text b u (store_text a t ld).
Proof.
  intros Hne. destruct a as [|j|j| | |j|], b as [|k|k| | |k|]; try done; destruct ld; cbn;
    unfold set_operation_strings, set_transaction_strings, set_account_operation_strings, set_texts; cbn;
    rewrite ?(list_insert_insert_ne _ j k) by congruence; done.
Qed.

Lemma slots_nodup cfg : NoDup (slots cfg).
Proof.
  assert (forall (g : nat -> text_slot) k, (forall i j, g i = g j -> i = j) -> NoDup (map g (seq 0 k))) as Hseg.
  { intros g k Hinj. change (map g (seq 0 k)) with (g <$> seq 0 k). apply NoDup_fmap_2; [intros i j; apply Hinj|apply NoDup_seq]. }
  unfold slots. change (@map nat text_slot) with (@fmap list _ nat text_slot) in *.
  rewrite !NoDup_app, !NoDup_cons, !NoDup_nil. setoid_rewrite list_elem_of_fmap.
  setoid_rewrite elem_of_app. setoid_rewrite list_elem_of_fmap.
  split_and!; try (apply Hseg; by intros ? ? [= ->]); set_solver.
Qed.

Lemma writer_callback_commute cfg i j t u ld :
  i <> j -> writer_callback cfg i t (writer_callback cfg j u ld) = writer_callback cfg j u (writer_callback cfg i t ld).
Proof.
  intros Hne. unfold writer_callback. destruct (slots cfg !! i) as [a|] eqn:Ea, (slots cfg !! j) as [b|] eqn:Eb; try done.
  apply store_text_commute. intros ->. by pose proof (NoDup_lookup _ _ _ _ (slots_nodup cfg) Ea Eb).
Qed.

Section refinement.
  Context {operation : Type}.
  Context (decodeUtf8 : list ascii -> list Z) (to_hex : ascii -> list ascii)
    (pack : operation -> list ascii) (iso : Z -> list ascii) (key_text : string -> list ascii).
  Context (enqueue_throws : list ascii -> option exn).     (* writing the command to the log *)
  Context (cfg : live_config).

#[local] Abbreviation block_tuple := (hive_blocks_tuple decodeUtf8 to_hex iso key_text).
#[local] Abbreviation trx_tuple := (hive_transactions_tuple iso).
#[local] Abbreviation op_tuple := (hive_operations_tuple pack).
#[local] Abbreviation account_tuple := (hive_accounts_tuple decodeUtf8 to_hex).
#[local] Abbreviation run_all := (run_writers decodeUtf8 to_hex pack iso key_text cfg).
#[local] Abbreviation sequential := (live_trigger_data_flush decodeUtf8 to_hex pack iso key_text cfg).

(** ** The parts of the writers *)

(** [container_data_writer::chunk] of each table. *)
Inductive live_chunk :=
| BlockChunk (data : list process_block_t)
| OperationChunk (data : container_view (process_operation_t operation))
| TransactionChunk (data : container_view process_transaction_t)
| MultisigChunk (data : list process_transaction_multisig_t)
| AccountChunk (data : list account_data_t)
| AccountOperationChunk (data : container_view account_operation_data_t)
| HardforkChunk (data : list applied_hardforks_t).

Definition rendered (o : outcome string (list ascii)) : outcome exn (list ascii) :=
  match o with Ok text => Ok text | Throw _ => Throw OtherError end.

(** [flush_scalar_live_data] of a container that is not a view. *)
Definition flush_container {A} (conv : A -> list ascii) (data : list A) : outcome string (list ascii) :=
  match data with [] => Throw "Data empty 3"%string | _ => Ok (tuples conv data) end.

Definition render_chunk (_ : nat) (d : live_chunk) : outcome exn (list ascii) :=
  rendered
    match d with
    | BlockChunk data => flush_container block_tuple data
    | OperationChunk data => flush_scalar_live_data op_tuple data
    | TransactionChunk data => flush_scalar_live_data trx_tuple data
    | MultisigChunk data => flush_container hive_transactions_multisig_tuple data
    | AccountChunk data => flush_container account_tuple data
    | AccountOperationChunk data => flush_scalar_live_data hive_account_operations_tuple data
    | HardforkChunk data => flush_container hive_applied_hardforks_tuple data
    end.

(** [container_data_writer::trigger]: nothing is queued for an empty container. *)
Definition container_part {A} (mk : list A -> live_chunk) (data : list A) : option live_chunk :=
  match data with [] => None | _ => Some (mk data) end.

Definition view_parts {A} (mk : container_view A -> live_chunk) (data : list A) (writers : nat) : list (option live_chunk) :=
  map (fun v => if view_empty v then None else Some (mk v)) (split_for_writers data writers).

Definition flush_of (c : cached_data_t operation) (last_block_num : Z) : replay_flush live_chunk :=
  {| fl_last_block_num := u32 last_block_num;
     fl_parts := [container_part BlockChunk (blocks c)] ++
       view_parts OperationChunk (operations c) (lc_operations_threads cfg) ++
       view_parts TransactionChunk (transactions c) (lc_transactions_threads cfg) ++
       [container_part MultisigChunk (transactions_multisig c)] ++ [container_part AccountChunk (accounts c)] ++
       view_parts AccountOperationChunk (account_operations c) (lc_account_operation_threads cfg) ++
       [container_part HardforkChunk (applied_hardforks c)] |}.

(** [execute_push_block] when [_processing_thread.enqueue] may throw: the strings of the
    splitters have been taken by then, the members not cleared yet. *)
Definition push_block (block_num : Z) (ld : live_dumper) : outcome exn (list (list ascii)) * live_dumper :=
  let '(cmds, ld') := execute_push_block cfg block_num ld in
  match cmds ≫= (fun cmd => option_list (enqueue_throws cmd)) with
  | [] => (Ok cmds, ld')
  | e :: _ =>
      (Throw e, {| ld_block := ld_block ld; ld_transactions_multisig := ld_transactions_multisig ld;
                   ld_accounts := ld_accounts ld; ld_applied_hardforks := ld_applied_hardforks ld;
                   ld_transaction_strings := ld_transaction_strings ld'; ld_operation_strings := ld_operation_strings ld';
                   ld_account_operation_strings := ld_account_operation_strings ld';
                   ld_last_dumped_block := ld_last_dumped_block ld;
                   ld_currently_processing_block := ld_currently_processing_block ld |})
  end.

#[local] Abbreviation stores := (store_all render_chunk (writer_callback cfg)).

(** ** The stores of a splitter's writers *)

Definition update_text (part : option live_chunk) (old : list ascii) : list ascii :=
  match part with
  | Some d => match render_chunk 0 d with Ok text => text | Throw _ => old end
  | None => old
  end.

Lemma store_all_app k p1 p2 ld :
  stores k (p1 ++ p2) ld = stores (k + length p1) p2 (stores k p1 ld).
Proof.
  revert k ld. induction p1 as [|p p1 IH]; intros k ld; [by rewrite Nat.add_0_r|].
  cbn [app length]. rewrite !store_all_cons, IH. f_equal. lia.
Qed.

Lemma update_next part parts j old l :
  l !! j = Some old ->
  take (S j) (<[j := update_text part old]> l) ++ zip_with update_text parts (drop (S j) (<[j := update_text part old]> l))
  = take j l ++ zip_with update_text (part :: parts) (drop j l).
Proof.
  intros Hl. pose proof (lookup_lt_Some _ _ _ Hl) as Hlt.
  rewrite (take_S_r _ _ (update_text part old)) by (by rewrite list_lookup_insert_eq).
  rewrite take_insert_ge, drop_insert_lt, (drop_S l old j), <- app_assoc by (done || lia). done.
Qed.

Lemma store_segment (get : live_dumper -> list (list ascii)) (set : list (list ascii) -> live_dumper -> live_dumper)
    (mk : nat -> text_slot) k parts j ld :
  (forall i text ld, store_text (mk i) text ld = set (<[i := text]> (get ld)) ld) ->
  (forall l ld, get (set l ld) = l) -> (forall l l' ld, set l' (set l ld) = set l' ld) -> (forall ld, set (get ld) ld = ld) ->
  (forall i, (i < length parts)%nat -> slots cfg !! (k + i)%nat = Some (mk (j + i)%nat)) ->
  length (get ld) = (j + length parts)%nat ->
  stores k parts ld = set (take j (get ld) ++ zip_with update_text parts (drop j (get ld))) ld.
Proof.
  intros Hst Hgs Hss Hsg. revert k j ld. induction parts as [|part parts IH]; intros k j ld Hsl Hlen.
  - cbn. rewrite app_nil_r, firstn_all2 by (cbn in Hlen; lia). by rewrite Hsg.
  - cbn in Hlen. destruct (lookup_lt_is_Some_2 (get ld) j) as [old Hold]; [lia|].
    assert (store_part render_chunk (writer_callback cfg) k part ld = set (<[j := update_text part old]> (get ld)) ld) as Hp.
    { unfold store_part, update_text, writer_callback. specialize (Hsl 0%nat ltac:(cbn; lia)). rewrite !Nat.add_0_r in Hsl.
      change (render_chunk k) with (render_chunk 0).
      destruct part as [d|]; [destruct (render_chunk 0 d)|]; rewrite ?Hsl, ?Hst, ?(list_insert_id _ _ _ Hold), ?Hsg; done. }
    rewrite store_all_cons, Hp, (IH (S k) (S j)), Hgs, Hss.
    + f_equal. by apply update_next.
    + intros i Hi. specialize (Hsl (S i) ltac:(cbn; lia)). replace (S k + i)%nat with (k + S i)%nat by lia.
      by replace (S j + i)%nat with (j + S i)%nat by lia.
    + rewrite Hgs, length_insert. lia.
Qed.

(** A segment of views leaves what Dumpers' [split_strings] leaves. *)
Lemma view_parts_strings {A} (mk : container_view A -> live_chunk) conv data writers old :
  (forall v, render_chunk 0 (mk v) = rendered (flush_scalar_live_data conv v)) ->
  zip_with update_text (view_parts mk data writers) old = split_strings conv data writers old.
Proof.
  intros Hmk. unfold view_parts, split_strings. generalize (split_for_writers data writers). intros vs.
  revert old. induction vs as [|v vs IH]; intros [|o old]; [done..|]. cbn. rewrite IH. f_equal.
  unfold callback_string, update_text. destruct (view_empty v) eqn:Ev; [done|]. rewrite Hmk. by destruct (flush_scalar_live_data conv v).
Qed.

Lemma length_view_parts {A} (mk : container_view A -> live_chunk) data writers :
  length (view_parts mk data writers) = writers.
Proof. unfold view_parts, split_for_writers. by rewrite !length_map, length_seq. Qed.

Lemma slots_lookup k before (g : nat -> text_slot) m after i :
  slots cfg = before ++ map g (seq 0 m) ++ after -> length before = k -> (i < m)%nat -> slots cfg !! (k + i)%nat = Some (g (0 + i)%nat).
Proof.
  intros -> <- Hi. rewrite lookup_app_r, lookup_app_l by (rewrite ?length_map, ?length_seq; lia).
  replace (length before + i - length before)%nat with i by lia. change (map g ?l) with (g <$> l).
  by rewrite list_lookup_fmap, lookup_seq_lt.
Qed.

Lemma store_views {A} (get : live_dumper -> list (list ascii)) (set : list (list ascii) -> live_dumper -> live_dumper)
    (slot : nat -> text_slot) (mk : container_view A -> live_chunk) conv data m k before after ld :
  slots cfg = before ++ map slot (seq 0 m) ++ after -> length before = k ->
  (forall i text ld, store_text (slot i) text ld = set (<[i := text]> (get ld)) ld) ->
  (forall l ld, get (set l ld) = l) -> (forall l l' ld, set l' (set l ld) = set l' ld) -> (forall ld, set (get ld) ld = ld) ->
  (forall v, render_chunk 0 (mk v) = rendered (flush_scalar_live_data conv v)) -> length (get ld) = m ->
  stores k (view_parts mk data m) ld = set (split_strings conv data m (get ld)) ld.
Proof.
  intros Hs Hk H1 H2 H3 H4 Hr Hl. rewrite (store_segment get set slot k _ 0); [|done..| |by rewrite length_view_parts].
  - cbn [take drop app]. by rewrite (view_parts_strings mk conv).
  - intros i Hi. rewrite length_view_parts in Hi. by eapply slots_lookup.
Qed.

Lemma store_single {A} k slot (mk : list A -> live_chunk) conv (get : live_dumper -> list ascii) data ld :
  slots cfg !! k = Some slot -> (forall l, render_chunk 0 (mk l) = rendered (flush_container conv l)) ->
  store_text slot (get ld) ld = ld ->
  stores k [container_part mk data] ld = store_text slot (single_callback conv data (get ld)) ld.
Proof.
  intros Hk Hmk Hid. rewrite store_all_cons. unfold store_all. cbn. unfold store_part, container_part, single_callback, writer_callback.
  rewrite Hk. destruct data; [by rewrite Hid|]. change (render_chunk k) with (render_chunk 0). by rewrite Hmk.
Qed.

Record strings_ok (ld : live_dumper) : Prop := {
  so_operations : length (ld_operation_strings ld) = lc_operations_threads cfg;
  so_transactions : length (ld_transaction_strings ld) = lc_transactions_threads cfg;
  so_account_operations : length (ld_account_operation_strings ld) = lc_account_operation_threads cfg
}.

(** All parts together leave what Dumpers' [run_writers] leaves. *)
Lemma stores_run_writers c last_block_num ld :
  strings_ok ld -> stores 0 (fl_parts (flush_of c last_block_num)) ld = run_all c ld.
Proof.
  intros [Ho Ht Ha]. unfold flush_of. cbn [fl_parts].
  set (o := lc_operations_threads cfg) in *. set (t := lc_transactions_threads cfg) in *. set (a := lc_account_operation_threads cfg) in *.
  assert (slots cfg !! 0%nat = Some BlockText) as Hs0 by done.
  assert (slots cfg !! (1 + o + t)%nat = Some MultisigText /\ slots cfg !! (2 + o + t)%nat = Some AccountText /\
          slots cfg !! (3 + o + t + a)%nat = Some HardforkText) as (Hs1 & Hs2 & Hs3).
  { unfold slots. fold o t a. split_and!.
    all: repeat (rewrite lookup_app_r by (rewrite ?length_map, ?length_seq; cbn; lia); rewrite ?length_map, ?length_seq; cbn [length]).
    - by replace (1 + o + t - 1 - o - t)%nat with 0%nat by lia.
    - by replace (2 + o + t - 1 - o - t)%nat with 1%nat by lia.
    - by replace (3 + o + t + a - 1 - o - t - 2 - a)%nat with 0%nat by lia. }
  rewrite store_all_app, (store_single _ BlockText _ block_tuple ld_block) by (done || by destruct ld).
  cbn [length Nat.add]. rewrite store_all_app, length_view_parts.
  rewrite (store_views ld_operation_strings set_operation_strings OperationText _ op_tuple _ _ _ [BlockText] (map TransactionText (seq 0 t) ++ [MultisigText; AccountText] ++
    map AccountOperationText (seq 0 a) ++ [HardforkText])) by (done || by intros []).
  rewrite store_all_app, length_view_parts.
  rewrite (store_views ld_transaction_strings set_transaction_strings TransactionText _ trx_tuple _ _ _ ([BlockText] ++ map OperationText (seq 0 o)) ([MultisigText; AccountText] ++
    map AccountOperationText (seq 0 a) ++ [HardforkText]))
    by (done || (by intros []) || (rewrite length_app, length_map, length_seq; done) || (unfold slots; by rewrite <- app_assoc)).
  rewrite store_all_app. cbn [length].
  rewrite (store_single _ MultisigText _ hive_transactions_multisig_tuple ld_transactions_multisig) by (done || by destruct ld).
  rewrite store_all_app. cbn [length].
  rewrite (store_single _ AccountText _ account_tuple ld_accounts)
    by (done || (by destruct ld) || (by replace (1 + o + t + 1)%nat with (2 + o + t)%nat by lia)).
  rewrite store_all_app, length_view_parts.
  rewrite (store_views ld_account_operation_strings set_account_operation_strings AccountOperationText _ hive_account_operations_tuple
    _ _ _ ([BlockText] ++ map OperationText (seq 0 o) ++ map TransactionText (seq 0 t) ++ [MultisigText; AccountText]) [HardforkText])
    by (done || (by intros []) || (rewrite !length_app, !length_map, !length_seq; cbn; lia) || (unfold slots; by rewrite <- !app_assoc)).
  rewrite (store_single _ HardforkText _ hive_applied_hardforks_tuple ld_applied_hardforks)
    by (done || (by destruct ld) || (by replace (1 + o + t + 1 + 1 + a)%nat with (3 + o + t + a)%nat by lia)).
  by destruct ld.
Qed.

Lemma push_block_one_command b ld : (length (pushed push_block b ld) <= 1)%nat.
Proof.
  unfold pushed, push_block, execute_push_block.
  destruct (ld_block ld); cbn [list_bind mbind]; [cbn; lia|].
  repeat destruct (get_merged_strings _). cbn. destruct (enqueue_throws _); cbn; lia.
Qed.

(** ** The theorem *)

Definition live_threads : Z := Z.of_nat (NUMBER_OF_PROCESSORS_THREADS cfg).

Lemma flush_of_proper c last_block_num :
  u32 last_block_num <> 0 -> proper_flush live_threads (flush_of c last_block_num).
Proof.
  intros Hn. split; [done|]. unfold live_threads, NUMBER_OF_PROCESSORS_THREADS, flush_of, ONE_THREAD_WRITERS_NUMBER.
  cbn [fl_parts]. rewrite !length_app, !length_view_parts. cbn [length]. lia.
Qed.


End refinement.

(** ** A flush of one block *)

Module LiveFlushExamples.

#[local] Abbreviation cfg := DumperExamples.cfg.
#[local] Abbreviation render := (render_chunk DumperExamples.decode hex2 DumperExamples.no_text DumperExamples.no_text DumperExamples.no_text).
Definition no_error (_ : list ascii) : option exn := None.

(** Every writer with nothing to do. *)
Definition started : live_state (@live_chunk unit) live_dumper (list ascii) :=
  {| ls_todo := []; ls_replay := replay_init (NUMBER_OF_PROCESSORS_THREADS cfg) [];
     ls_dumper := set_currently_processing 7 (new_live_dumper cfg); ls_commands := [] |}.

(** The caller runs until it has to wait; then the writers work in turn, the last one first, and
    every fourth turn is the caller's. *)
Definition finished : live_state (@live_chunk unit) live_dumper (list ascii) :=
  run_threads render (writer_callback cfg) (push_block no_error cfg) (live_threads cfg)
    (replicate 10 0%nat ++ concat (replicate 8 [10; 9; 0; 8; 7; 6; 0; 5; 4; 3; 2; 1]%nat) ++ replicate 10 0%nat)
    (begin_flush (flush_of cfg (DumperExamples.one_block 7) 7) started).


(** The processing thread waits for a first command. *)
Definition queue_started : queue_state (@live_chunk unit) live_dumper (list ascii) :=
  {| qs_live := started; qs_waiting := 0; qs_thread_alive := true |}.

Lemma live_flush_returns_witness :
  exists s'', queue_step render (writer_callback cfg) (push_block no_error cfg) (live_threads cfg) true 200
    (begin_queued_flush (flush_of cfg (DumperExamples.one_block 7) 7) queue_started) s''.
Proof.
  refine (proj1 (live_flush_returns render (writer_callback cfg) (push_block no_error cfg) (live_threads cfg)
    (writer_callback_commute cfg) _ true 200 (push_block_one_command no_error cfg) (flush_of cfg (DumperExamples.one_block 7) 7)
    queue_started _ _ _ _ (rtc_refl _ _)) _ _).
  - done.
  - by split.
  - constructor; try done. intros w Hw. apply elem_of_replicate in Hw as [-> _]. split_and!; [done|by constructor|done].
  - lia.
  - done.
  - by right.
Defined.

End LiveFlushExamples.
