(* ===== verification/ContainerWriters.v ===== *)
(** * Container writers and splitters over their processors

    Models what [container_data_writer.h] and [chunks_for_writers_spillter.h] do with the class
    they are given as their [Processor]: [string_data_processor.cpp] and
    [queries_commit_data_processor.cpp] forward to the [data_processor] of DataProcessor, and
    [end_massive_sync_processor.cpp] queues block numbers into one of them.

    The class is an interface; the operations of writers and splitters are written against
    it, and their theorems use only its laws. *)

From S2P Require Import Prelude Text DataProcessor Writers.
From Stdlib Require Import ZArith Lia Ascii String.
From stdpp Require Import base list strings gmap sorting.

Open Scope Z_scope.

(** ** What a writer uses of its processor *)

Class ProcessorOps (D P : Type) := {
  op_trigger : option D -> Z -> P -> option P;               (* None while the queue is full *)
  op_only_report_batch_finished : Z -> P -> option P;
  op_complete_data_processing : P -> bool;                   (* it may return *)
  op_join : P -> outcome exn unit * P;
  op_cancel : P -> outcome exn unit * P;
  op_valid : P -> Prop;
  op_left : P -> Prop;                                       (* its thread has ended *)
  op_cancelled : P -> bool;
  op_unwritten : P -> list (@queued_batch D);                (* accepted and not processed *)
  op_join_valid p : op_valid p -> op_valid (op_join p).2;
  op_cancel_valid p : op_valid p -> op_valid (op_cancel p).2;
  op_join_left p : op_valid p -> op_left (op_join p).2;
  op_cancel_left p : op_valid p -> op_left (op_cancel p).2;
  op_join_writes p : op_valid p -> op_cancelled (op_join p).2 = false ->
    (op_join p).1 = Ok tt /\ op_unwritten (op_join p).2 = []
}.

(** ** [data_processor] *)

Section data_processor.
  Context {D : Type} (throws : option D -> option exn) (report_throws : Z -> option exn).

(** [join] to its end: the flag is set, the worker goes on until it leaves, the future is taken. *)
Definition processor_join (p : @processor D) : outcome exn unit * processor :=
  let p' := worker_runs throws report_throws (turns_left p) (join_begin p) in
  default (Ok tt, p') (join_end p').

Definition processor_cancel (p : @processor D) : outcome exn unit * processor := processor_join (cancel_begin p).

Definition unwritten (p : @processor D) : list queued_batch := taken (dp_worker p) ++ dp_queue p.

Lemma take_future_worker p : dp_worker (take_future p) = dp_worker (D := D) p.
Proof. done. Qed.

Lemma processor_join_spec p :
  dp_reachable throws report_throws p ->
  let '(o, q) := processor_join p in
  dp_reachable throws report_throws q /\ left_the_body q /\
  (dp_cancel q = false -> o = Ok tt /\ unwritten q = []).
Proof.
  intros Hr. unfold processor_join. set (p' := worker_runs _ _ _ _).
  assert (dp_reachable throws report_throws p') as Hr'.
  { apply worker_runs_reachable. eapply DpMore; [done|apply DpJoin]. }
  assert (left_the_body p') as Hl by by apply worker_runs_leaves.
  assert (forall o q, join_end p' = Some (o, q) -> dp_worker q = dp_worker p' /\ dp_cancel q = dp_cancel p' /\ dp_queue q = dp_queue p' /\
    (dp_worker p' = Finished -> o = Ok tt)) as Hq.
  { intros o q E. unfold join_end in E. repeat case_match; simplify_eq/=; done. }
  destruct (join_end p') as [[o q]|] eqn:E; cbn.
  - destruct (Hq o q eq_refl) as (Hw & Hc & Hqu & Ho).
    assert (dp_reachable throws report_throws q) as Hrq by (eapply DpMore; [done|by eapply DpJoinEnd]).
    split_and!; [done|by unfold left_the_body; rewrite Hw|]. rewrite Hc. intros Hcan. unfold unwritten. rewrite Hw, Hqu.
    pose proof (dp_reachable_inv _ _ _ Hr') as I. unfold left_the_body in Hl. destruct (dp_worker p') as [| | | | |b d e|] eqn:Ew; try done.
    + destruct (inv_failed _ I _ _ _ Ew). congruence.
    + cbn. split; [by apply Ho|]. by apply (inv_finished _ I).
  - exfalso. unfold join_end, left_the_body in *. destruct (dp_future_valid p'); [|done]. by destruct (dp_worker p') as [| | | | |? ? []|].
Qed.

#[export] Instance data_processor_ops : ProcessorOps D (@processor D).
Proof.
  refine {| op_trigger := trigger; op_only_report_batch_finished := only_report_batch_finished;
    op_complete_data_processing := completed; op_join := processor_join; op_cancel := processor_cancel;
    op_valid := dp_reachable throws report_throws; op_left := left_the_body; op_cancelled := dp_cancel; op_unwritten := unwritten |}.
  - intros p Hp. pose proof (processor_join_spec p Hp) as H. by destruct (processor_join p), H.
  - intros p Hp. pose proof (processor_join_spec (cancel_begin p)) as H. unfold processor_cancel. destruct (processor_join _).
    apply H. eapply DpMore; [done|apply DpCancel].
  - intros p Hp. pose proof (processor_join_spec p Hp) as H. by destruct (processor_join p), H as (_ & ? & _).
  - intros p Hp. pose proof (processor_join_spec (cancel_begin p)) as H. unfold processor_cancel. destruct (processor_join _).
    apply H. eapply DpMore; [done|apply DpCancel].
  - intros p Hp. pose proof (processor_join_spec p Hp) as H. destruct (processor_join p), H as (_ & _ & H). apply H.
Defined.

End data_processor.

(** ** The processors that wrap it *)

(** [string_data_processor] and [queries_commit_data_processor]: the wrapped processor runs their
    function, and every operation is forwarded to it. *)
Record wrapped_processor (P : Type) := { m_wrapped_processor : P }.
Arguments m_wrapped_processor {P}.

Definition on_wrapped {P A} (r : A * P) : A * wrapped_processor P := (r.1, {| m_wrapped_processor := r.2 |}).

Section wrapped.
  Context {D P : Type} {ops : ProcessorOps D P}.

Definition wrapped_trigger (data : option D) (last_blocknum : Z) (w : wrapped_processor P) : option (wrapped_processor P) :=
  Build_wrapped_processor P <$> op_trigger data last_blocknum (m_wrapped_processor w).

Definition wrapped_only_report (block_num : Z) (w : wrapped_processor P) : option (wrapped_processor P) :=
  Build_wrapped_processor P <$> op_only_report_batch_finished block_num (m_wrapped_processor w).

Definition wrapped_complete (w : wrapped_processor P) : bool := op_complete_data_processing (m_wrapped_processor w).
Definition wrapped_join (w : wrapped_processor P) := on_wrapped (op_join (m_wrapped_processor w)).
Definition wrapped_cancel (w : wrapped_processor P) := on_wrapped (op_cancel (m_wrapped_processor w)).

#[export] Instance wrapped_ops : ProcessorOps D (wrapped_processor P).
Proof.
  refine {| op_trigger := wrapped_trigger; op_only_report_batch_finished := wrapped_only_report;
    op_complete_data_processing := wrapped_complete; op_join := wrapped_join; op_cancel := wrapped_cancel;
    op_valid w := op_valid (m_wrapped_processor w); op_left w := op_left (m_wrapped_processor w);
    op_cancelled w := op_cancelled (m_wrapped_processor w); op_unwritten w := op_unwritten (m_wrapped_processor w) |};
  intros [p]; cbn; [apply op_join_valid|apply op_cancel_valid|apply op_join_left|apply op_cancel_left|apply op_join_writes].
Defined.

End wrapped.

(** ** [container_data_writer] and the splitters *)

Section writers.
  Context {A P : Type} {ops : ProcessorOps (container_view A) P}.

(** [trigger], as in Writers, on any processor. *)
Definition container_trigger (data : container_view A) (last_block_num : Z) (p : P) : option (outcome string unit * P) :=
  if negb (view_empty data) then
    let '(moved, rest) := view_move data in
    p' ← op_trigger (Some moved) last_block_num p;
    Some (o_assert (view_empty rest) "DATA empty 1"%string, p')
  else
    p' ← op_only_report_batch_finished last_block_num p;
    Some (o_assert (view_empty data) "DATA empty 1"%string, p').

Definition container_complete (p : P) : bool := op_complete_data_processing p.
Definition container_join (p : P) : outcome exn unit * P := op_join p.
Definition container_cancel (p : P) : outcome exn unit * P := op_cancel p.

(** [cancel_processors]: as [join_processors], with [cancel]. *)
Definition cancel_processors_impl (p : P) : option exn * P := join_processors_impl container_cancel p.
Definition cancel_processors (ps : list P) : outcome exn unit * list P :=
  let results := map cancel_processors_impl ps in
  (match coalesce (map fst results) with Some e => Throw e | None => Ok tt end, map snd results).

Fixpoint trigger_parts (views : list (container_view A)) (last_block_num : Z) (ps : list P) :
    option (outcome string unit * list P) :=
  match views, ps with
  | v :: views', p :: ps' =>
      '(o, p') ← container_trigger v last_block_num p;
      match o with
      | Ok _ => '(o', ps'') ← trigger_parts views' last_block_num ps'; Some (o', p' :: ps'')
      | Throw e => Some (Throw e, p' :: ps')
      end
  | _, _ => Some (Ok tt, ps)
  end.

Definition splitter_trigger (data : list A) (last_block_num : Z) (ps : list P) : option (outcome string unit * list P) :=
  trigger_parts (split_for_writers data (length ps)) last_block_num ps.
Definition splitter_join (ps : list P) : outcome exn unit * list P := join_processors container_join ps.
Definition splitter_cancel (ps : list P) : outcome exn unit * list P := cancel_processors ps.
Definition splitter_complete (ps : list P) : bool := forallb container_complete ps.

(** A joined splitter has joined every writer, and when no writer is cancelled all their parts are
    written and join returns; a cancelled one has ended every thread, whatever some of them threw. *)
Theorem splitter_ends ps :
  Forall op_valid ps ->
  Forall op_left (splitter_join ps).2 /\ Forall op_left (splitter_cancel ps).2 /\
  length (splitter_cancel ps).2 = length ps /\
  (Forall (fun p => op_cancelled p = false) (splitter_join ps).2 ->
   (splitter_join ps).1 = Ok tt /\ Forall (fun p => op_unwritten p = []) (splitter_join ps).2).
Proof.
  intros Hv. destruct (join_processors_joins_all container_join ps) as (Hj & Hok & _).
  destruct (join_processors_joins_all container_cancel ps) as (Hc & _ & _).
  change (splitter_cancel ps) with (join_processors container_cancel ps). unfold splitter_join. rewrite Hj, Hc.
  rewrite !Forall_map, length_map. split_and!; [| |done|].
  - eapply Forall_impl; [exact Hv|]. apply op_join_left.
  - eapply Forall_impl; [exact Hv|]. apply op_cancel_left.
  - intros Hnc. pose proof (proj2 (Forall_and _ _) (conj Hv Hnc)) as Hboth. split; [apply Hok|];
      (eapply Forall_impl; [exact Hboth|]); intros p [Hp Hcan]; by apply op_join_writes.
Qed.

(** A triggered splitter gives each writer its part: in the processor's terms, the batch of the
    part, or a report when the part is empty. *)
Lemma container_trigger_ok v last_block_num p o p' :
  container_trigger v last_block_num p = Some (o, p') ->
  o = Ok tt /\ (if view_empty v then op_only_report_batch_finished last_block_num p else op_trigger (Some v) last_block_num p) = Some p'.
Proof.
  unfold container_trigger. destruct (view_empty v) eqn:Ev; cbn; intros E; apply bind_Some in E as (q & Eq & E).
  - by injection E as <- <-.
  - rewrite Nat.eqb_refl in E. by injection E as <- <-.
Qed.

Theorem splitter_trigger_gives_parts data last_block_num ps o ps' :
  splitter_trigger data last_block_num ps = Some (o, ps') ->
  o = Ok tt /\ length ps' = length ps /\
  forall i p, ps !! i = Some p -> exists v p', split_for_writers data (length ps) !! i = Some v /\ ps' !! i = Some p' /\
    (if view_empty v then op_only_report_batch_finished last_block_num p else op_trigger (Some v) last_block_num p) = Some p'.
Proof.
  unfold splitter_trigger.
  assert (length (split_for_writers data (length ps)) = length ps) as Hl by (unfold split_for_writers; by rewrite length_map, length_seq).
  revert Hl. generalize (split_for_writers data (length ps)). intros views. revert ps ps' o.
  induction views as [|v views IH]; intros [|p ps] ps' o Hl E; try done; cbn in E.
  - by simplify_eq.
  - destruct (container_trigger v last_block_num p) as [[o1 p1]|] eqn:E1; [|done]. cbn in E.
    destruct (container_trigger_ok _ _ _ _ _ E1) as [-> Hp].
    destruct (trigger_parts views last_block_num ps) as [[o2 ps2]|] eqn:E2; [|done]. cbn in E. simplify_eq.
    cbn in Hl. destruct (IH ps ps2 o ltac:(lia) E2) as (-> & Hlen & Hrest). split_and!; [done|cbn; lia|].
    intros [|i] q Hq; cbn in *; [simplify_eq; eauto|by apply Hrest].
Qed.

End writers.

(** ** [end_massive_sync_processor] *)

Section end_massive_sync.
  Context (fails : Z -> option exn).           (* SELECT hive.end_massive_sync of a block *)

#[local] Instance sync_ops : ProcessorOps Z (wrapped_processor (@processor Z)) :=
  wrapped_ops (ops := data_processor_ops (on_chunk fails) (fun _ => None)).

(** The number travels with the chunk; the batch itself is not reported to anybody. *)
Definition trigger_block_number (last_dumped_block : Z) (p : wrapped_processor (@processor Z)) :
    option (wrapped_processor (@processor Z)) := op_trigger (Some last_dumped_block) 0 p.

Definition end_massive_sync_complete (p : wrapped_processor (@processor Z)) : bool := op_complete_data_processing p.
Definition end_massive_sync_join (p : wrapped_processor (@processor Z)) : outcome exn unit * wrapped_processor (@processor Z) := op_join p.
Definition end_massive_sync_cancel (p : wrapped_processor (@processor Z)) : outcome exn unit * wrapped_processor (@processor Z) :=
  op_cancel p.

(** The statements sent so far: those of the processed chunks. *)
Definition block_numbers (batches : list (@queued_batch Z)) : list Z := omap qb_data batches.

Definition sent (p : wrapped_processor (@processor Z)) : list Z := block_numbers (dp_processed (m_wrapped_processor p)).

Inductive sync_run : list Z -> wrapped_processor (@processor Z) -> Prop :=
| SyncStart : sync_run [] {| m_wrapped_processor := new_processor |}
| SyncTrigger bs b p p' : sync_run bs p -> trigger_block_number b p = Some p' -> sync_run (bs ++ [b]) p'
| SyncWorker bs p p' : sync_run bs p -> worker_turn (on_chunk fails) (fun _ => None) (m_wrapped_processor p) = Some p' ->
    sync_run bs {| m_wrapped_processor := p' |}.

Lemma worker_turn_frame p p' :
  worker_turn (on_chunk fails) (fun _ => None) p = Some p' ->
  dp_accepted p' = dp_accepted p /\
  ((dp_cancel p' = dp_cancel p /\ dp_continue p' = dp_continue p) \/ (dp_cancel p' = true /\ dp_continue p' = false)).
Proof.
  unfold worker_turn. destruct (dp_worker p) eqn:Ew; intros E; try done.
  - unfold worker_wake in E. rewrite Ew in E. repeat case_match; simplify_eq/=; by auto.
  - unfold worker_process in E. rewrite Ew in E. case_match; simplify_eq/=; by auto.
  - unfold worker_report in E. rewrite Ew in E. repeat case_match; simplify_eq/=; by auto.
  - unfold worker_drained in E. rewrite Ew in E. repeat case_match; simplify_eq/=; by auto.
  - unfold handle_exception in E. rewrite Ew in E. simplify_eq/=. by auto.
Qed.

Lemma sync_run_inv bs p :
  sync_run bs p ->
  let q := m_wrapped_processor p in
  dp_reachable (on_chunk fails) (fun _ => None) q /\ block_numbers (dp_accepted q) `prefix_of` bs /\
  (dp_cancel q = false -> block_numbers (dp_accepted q) = bs /\ dp_continue q = true) /\
  (dp_cancel q = true -> dp_continue q = false).
Proof.
  cbn zeta. induction 1 as [|bs b p p' _ (IHr & IHp & IHo & IHc) E|bs p p' _ (IHr & IHp & IHo & IHc) E]; cbn [m_wrapped_processor].
  - split_and!; [constructor|done..].
  - unfold trigger_block_number in E. cbn in E. apply fmap_Some in E as (q & E & ->). cbn [m_wrapped_processor].
    split; [eapply DpMore; [done|by eapply DpEnqueue]|]. unfold trigger, enqueue in E.
    destruct (dp_cancel (m_wrapped_processor p)) eqn:Ecan.
    + rewrite (IHc eq_refl), orb_true_r in E. cbn in E. injection E as <-. split_and!; [by apply prefix_app_r|congruence|by intros _; apply IHc].
    + destruct (IHo eq_refl) as [Ha Hn]. rewrite Hn in E. cbn in E.
      repeat case_match; simplify_eq/=.
      unfold block_numbers in *. rewrite omap_app. done.
  - destruct (worker_turn_frame _ _ E) as (-> & Hcase).
    split; [eapply DpMore; [done|by apply worker_turn_step]|]. split; [done|].
    destruct Hcase as [[-> ->]|[-> ->]]; [by split|done].
Qed.

(** The statements are sent in the order of the calls, none skipped or repeated; and all of them
    are sent once the worker has nothing left to do and has not failed. *)
Theorem end_massive_sync_in_order bs p :
  sync_run bs p -> sent p `prefix_of` bs /\
  (dp_cancel (m_wrapped_processor p) = false -> dp_worker (m_wrapped_processor p) = Waiting ->
   end_massive_sync_complete p = true -> sent p = bs).
Proof.
  intros Hr. destruct (sync_run_inv bs p Hr) as (Hre & Hp & Ho & _). pose proof (dp_reachable_inv _ _ _ Hre) as I.
  unfold sent, block_numbers in *. rewrite (inv_fifo _ I) in Hp, Ho. rewrite !omap_app in Hp, Ho. split.
  - etrans; [|exact Hp]. by eexists.
  - intros Hc Hw Hd. destruct (Ho Hc) as [<- _]. unfold end_massive_sync_complete in Hd. cbn in Hd. unfold wrapped_complete in Hd. cbn in Hd.
    unfold completed in Hd. rewrite Hc, orb_false_r in Hd. apply negb_true_iff in Hd.
    destruct (inv_busy _ I) as [Hq _]; [by rewrite Hw|done|]. rewrite Hw, Hq. cbn. by rewrite app_nil_r.
Qed.

End end_massive_sync.
