(* ===== verification/Collector.v ===== *)
(** * Collecting account operations

    Models [blockchain_data_filter.hpp/.cpp], [filter_collector.hpp/.cpp] and
    [accounts_collector.h/.cpp]: which accounts an operation is recorded for, with
    which sequence number, and how the creation of an account is recorded in two
    steps.

    The hive submodule's [operation] variant is a type parameter seen through
    [op_view]; the accounts an operation impacts ([operation_get_owner_impacted_accounts])
    and the trackers of a filter are functions given as parameters.  The chain's
    accounts at the moment of the operation are [find_account]; the sequence counters
    ([account_ops_seq_object]) belong to the plugin and are part of the state. *)

From S2P Require Import Prelude Text CachedData.
From Stdlib Require Import ZArith Lia Ascii String.
From stdpp Require Import base list strings gmap sorting.

Open Scope Z_scope.
Open Scope haf_scope.

(** What the visitors look at. *)
Inductive op_view :=
| AccountCreate (creator : string)
| AccountCreateWithDelegation (creator : string)
| CreateClaimedAccount (creator : string)
| Pow (worker_account : string)
| Pow2 (worker_account : string)           (* of either kind of work *)
| AccountCreated (new_account_name creator : string)
| HardforkOperation (hardfork_id : Z)
| CustomJson (id : string)
| OtherOperation.

Inductive collect_error :=
| CollectAssert (what : string)
| NullPointer.

Section collector.
  Context {operation : Type}.
  Context (which : operation -> Z) (view : operation -> op_view)
    (impacted_accounts : operation -> list string * list string).

(** ** [blockchain_filter] *)

Record blockchain_filter := {
  bf_enabled : bool;
  bf_trx_in_block_filter_accepted : gset Z;
  bf_accounts_filter_tracker : option (string -> bool);
  bf_operations_filter_tracker : option (operation -> bool);
  bf_operations_body_filter_tracker : option (operation -> bool)
}.

Definition is_trx_accepted (f : blockchain_filter) (trx_in_block : Z) : bool :=
  negb (bf_enabled f) || bool_decide (trx_in_block ∈ bf_trx_in_block_filter_accepted f).

Definition is_tracked_account (f : blockchain_filter) (name : string) : bool :=
  match bf_accounts_filter_tracker f with None => true | Some t => t name end.

Definition is_tracked_operation (f : blockchain_filter) (op : operation) : bool :=
  match bf_operations_filter_tracker f with None => true | Some t => t op end &&
  match bf_operations_body_filter_tracker f with None => true | Some t => t op end.

Definition with_accepted (s : gset Z) (f : blockchain_filter) : blockchain_filter :=
  {| bf_enabled := bf_enabled f; bf_trx_in_block_filter_accepted := s;
     bf_accounts_filter_tracker := bf_accounts_filter_tracker f;
     bf_operations_filter_tracker := bf_operations_filter_tracker f;
     bf_operations_body_filter_tracker := bf_operations_body_filter_tracker f |}.

Definition remember_trx_id (trx_in_block : Z) (f : blockchain_filter) : blockchain_filter :=
  if bf_enabled f && negb (trx_in_block =? -1)
  then with_accepted ({[ trx_in_block ]} ∪ bf_trx_in_block_filter_accepted f) f
  else f.

Definition filter_clear (f : blockchain_filter) : blockchain_filter :=
  if bf_enabled f then with_accepted ∅ f else f.

(** [fill]: the trackers the options describe, [None] where a tracker came out empty. *)
Definition filter_fill (af : option (string -> bool)) (opf obf : option (operation -> bool))
    (f : blockchain_filter) : blockchain_filter :=
  if bf_enabled f then
    {| bf_enabled := match af, opf, obf with None, None, None => false | _, _, _ => true end;
       bf_trx_in_block_filter_accepted := bf_trx_in_block_filter_accepted f;
       bf_accounts_filter_tracker :=
         match af with Some _ => af | None => bf_accounts_filter_tracker f end;
       bf_operations_filter_tracker :=
         match opf with Some _ => opf | None => bf_operations_filter_tracker f end;
       bf_operations_body_filter_tracker :=
         match obf with Some _ => obf | None => bf_operations_body_filter_tracker f end |}
  else f.

(** ** State of a collector: its members, those of its [filter_collector], the chain's
    sequence counters and the cache it appends to. *)

Record collector := {
  co_processed_operation_id : Z;
  co_processed_operation_type_id : Z;
  co_block_num : Z;
  co_creation_operation_type_id : Z;
  co_creation_operation_id : option Z;
  co_accounts_accepted : gset string;
  co_current_accepted : bool;
  co_previous_accepted : bool;
  co_operation_count : gmap Z Z;                (* account_ops_seq_object by account id *)
  co_accounts : list account_data_t;            (* _cached_data.accounts *)
  co_account_operations : list account_operation_data_t
}.

#[local] Notation CO := (ST collector collect_error).

Definition new_collector : collector :=
  {| co_processed_operation_id := -1; co_processed_operation_type_id := -1; co_block_num := 0;
     co_creation_operation_type_id := -1; co_creation_operation_id := None;
     co_accounts_accepted := ∅; co_current_accepted := false; co_previous_accepted := false;
     co_operation_count := ∅; co_accounts := []; co_account_operations := [] |}.

Definition set_processed (id type block : Z) (c : collector) : collector :=
  {| co_processed_operation_id := id; co_processed_operation_type_id := type; co_block_num := block;
     co_creation_operation_type_id := co_creation_operation_type_id c;
     co_creation_operation_id := co_creation_operation_id c;
     co_accounts_accepted := co_accounts_accepted c; co_current_accepted := co_current_accepted c;
     co_previous_accepted := co_previous_accepted c; co_operation_count := co_operation_count c;
     co_accounts := co_accounts c; co_account_operations := co_account_operations c |}.

Definition set_creation (type : Z) (id : option Z) (c : collector) : collector :=
  {| co_processed_operation_id := co_processed_operation_id c;
     co_processed_operation_type_id := co_processed_operation_type_id c;
     co_block_num := co_block_num c;
     co_creation_operation_type_id := type; co_creation_operation_id := id;
     co_accounts_accepted := co_accounts_accepted c; co_current_accepted := co_current_accepted c;
     co_previous_accepted := co_previous_accepted c; co_operation_count := co_operation_count c;
     co_accounts := co_accounts c; co_account_operations := co_account_operations c |}.

Definition set_tracked (accepted : gset string) (current previous : bool) (c : collector) : collector :=
  {| co_processed_operation_id := co_processed_operation_id c;
     co_processed_operation_type_id := co_processed_operation_type_id c;
     co_block_num := co_block_num c;
     co_creation_operation_type_id := co_creation_operation_type_id c;
     co_creation_operation_id := co_creation_operation_id c;
     co_accounts_accepted := accepted; co_current_accepted := current;
     co_previous_accepted := previous; co_operation_count := co_operation_count c;
     co_accounts := co_accounts c; co_account_operations := co_account_operations c |}.

Definition set_data (counts : gmap Z Z) (accs : list account_data_t)
    (rows : list account_operation_data_t) (c : collector) : collector :=
  {| co_processed_operation_id := co_processed_operation_id c;
     co_processed_operation_type_id := co_processed_operation_type_id c;
     co_block_num := co_block_num c;
     co_creation_operation_type_id := co_creation_operation_type_id c;
     co_creation_operation_id := co_creation_operation_id c;
     co_accounts_accepted := co_accounts_accepted c; co_current_accepted := co_current_accepted c;
     co_previous_accepted := co_previous_accepted c; co_operation_count := counts;
     co_accounts := accs; co_account_operations := rows |}.

Section operations.
  Context (f : blockchain_filter) (psql_dump_account_operations : bool)
    (find_account : string -> option Z).

(** ** [filter_collector] *)

Definition is_op_accepted (c : collector) : bool :=
  negb (bf_enabled f) ||
  (negb (bool_decide (co_accounts_accepted c = ∅)) && co_current_accepted c).

Definition is_account_tracked (account : string) (c : collector) : bool :=
  negb (bf_enabled f) || bool_decide (account ∈ co_accounts_accepted c).

Definition is_operation_tracked (is_current_operation : bool) (c : collector) : bool :=
  negb (bf_enabled f) ||
  (if is_current_operation then co_current_accepted c else co_previous_accepted c).

Definition collect_tracked_account (name : string) (c : collector) : collector :=
  if bf_enabled f && is_tracked_account f name
  then set_tracked ({[ name ]} ∪ co_accounts_accepted c) (co_current_accepted c)
         (co_previous_accepted c) c
  else c.

Definition collect_tracked_operation (op : operation) (c : collector) : collector :=
  if bf_enabled f then set_tracked ∅ (is_tracked_operation f op) (co_current_accepted c) c else c.

Definition on_collect (op : operation) (impacted : list string) (c : collector) : collector :=
  foldl (fun c name => collect_tracked_account name c) (collect_tracked_operation op c) impacted.

(** [on_before_new_operation]; with a disabled filter it is the base class's [true]. *)
Definition on_before_new_operation (account_name : string) (is_current_operation : bool)
    (c : collector) : bool :=
  is_account_tracked account_name c && is_operation_tracked is_current_operation c.

(** ** [accounts_collector] *)

Definition on_new_operation (account_name account_owner_name : string)
    (operation_id operation_type_id : Z) (is_current_operation : bool) : CO unit := fun c =>
  let allow_add_operation := on_before_new_operation account_name is_current_operation c in
  match find_account account_name with
  | None => (Ok tt, c)
  | Some account_id =>
      match find_account account_owner_name with
      | None => (Throw NullPointer, c)          (* account_owner_ptr->get_id() *)
      | Some account_owner_id =>
          match co_operation_count c !! account_id with
          | None => (Ok tt, c)
          | Some operation_count =>
              let rows :=
                if psql_dump_account_operations && allow_add_operation
                then co_account_operations c ++
                  [{| ao_block_number := i32 (co_block_num c); ao_operation_id := operation_id;
                      ao_account_id := account_id; ao_transacting_account_id := account_owner_id;
                      ao_operation_seq_no := i32 operation_count;
                      ao_op_type_id := operation_type_id |}]
                else co_account_operations c in
              (Ok tt, set_data (<[account_id := u32 (operation_count + 1)]> (co_operation_count c))
                        (co_accounts c) rows c)
          end
      end
  end.

(** [_chain_db.create< account_ops_seq_object >] throws on a duplicate id. *)
Definition on_new_account (account_name : string) : CO unit := fun c =>
  match find_account account_name with
  | None => (Throw (CollectAssert "account does not exist in chain database"), c)
  | Some account_id =>
      match co_operation_count c !! account_id with
      | Some _ => (Throw (CollectAssert "could not create object, most likely a uniqueness constraint was violated"), c)
      | None =>
          (Ok tt, set_data (<[account_id := 0]> (co_operation_count c))
             (co_accounts c ++ [{| ad_id := account_id; ad_name := account_name;
                                   ad_block_number := i32 (co_block_num c) |}])
             (co_account_operations c) c)
      end
  end.

Definition process_account_creation_op (impacted_account : option string) : CO unit :=
  st_modify (fun c => set_creation (co_processed_operation_type_id c)
                        (Some (co_processed_operation_id c)) c) ;;;
  match impacted_account with
  | Some name =>
      let* c := st_get in
      on_new_operation name name (co_processed_operation_id c) (co_processed_operation_type_id c) true
  | None => st_ret tt
  end.

(** The overloads for [pow_operation] and [pow2_operation]: the operation creates the
    worker's account when there is none. *)
Definition visit_pow (worker_account : string) : CO unit :=
  let exists_ := match find_account worker_account with Some _ => true | None => false end in
  process_account_creation_op (if exists_ then Some worker_account else None) ;;;
  st_when exists_
    (st_modify (fun c => set_creation (co_creation_operation_type_id c) None c)).

(** The overload for [account_created_operation].  The guard calls the base class's
    [is_op_accepted] by its qualified name, which is always true. *)
Definition visit_account_created (new_account_name creator : string) : CO unit :=
  on_new_account new_account_name ;;;
  (let* c := st_get in
   match co_creation_operation_id c with
   | Some creation_id =>
       on_new_operation new_account_name creator creation_id (co_creation_operation_type_id c) false ;;;
       st_modify (fun c => set_creation (co_creation_operation_type_id c) None c)
   | None => st_ret tt
   end) ;;;
  (let* c := st_get in
   on_new_operation new_account_name creator (co_processed_operation_id c)
     (co_processed_operation_type_id c) true ;;;
   st_when (negb (bool_decide (creator = new_account_name)))
     (on_new_operation creator creator (co_processed_operation_id c)
        (co_processed_operation_type_id c) true)).

(** The generic overload: the owners are paired with the impacted accounts in order,
    the last owner standing for the accounts beyond. *)
Fixpoint visit_impacted (impacted owners : list string) (last_owner : option string) : CO unit :=
  match impacted with
  | [] => st_ret tt
  | account_name :: impacted' =>
      let '(owner_name, owners', last_owner') :=
        match owners with
        | o :: owners' => (o, owners', Some o)
        | [] => match last_owner with
                | Some o => (o, [], last_owner)
                | None => (account_name, [], last_owner)
                end
        end in
      (let* c := st_get in
       on_new_operation account_name owner_name (co_processed_operation_id c)
         (co_processed_operation_type_id c) true) ;;;
      visit_impacted impacted' owners' last_owner'
  end.

Definition visit (v : op_view) (impacted owners : list string) : CO unit :=
  match v with
  | AccountCreate creator | AccountCreateWithDelegation creator | CreateClaimedAccount creator =>
      process_account_creation_op (Some creator)
  | Pow worker | Pow2 worker => visit_pow worker
  | AccountCreated new_account_name creator => visit_account_created new_account_name creator
  | _ => visit_impacted impacted owners None
  end.

Definition collect (operation_id : Z) (op : operation) (block_num : Z) : CO unit :=
  st_modify (fun c => set_processed operation_id (co_processed_operation_type_id c) (co_block_num c) c) ;;;
  st_assert (0 <=? which op) (CollectAssert "Negative value of operation type-id") ;;;
  st_assert (which op <? 32767) (CollectAssert "Too big value of operation type-id") ;;;
  st_modify (set_processed operation_id (i32 (which op)) block_num) ;;;
  (let '(impacted, owners) := impacted_accounts op in
   st_modify (on_collect op impacted) ;;;
   visit (view op) impacted owners).

End operations.

(** ** Sequence numbers *)

Definition rows_of (a : Z) (c : collector) : list account_operation_data_t :=
  filter (fun r => ao_account_id r = a) (co_account_operations c).

(** The rows of every account are numbered 0, 1, 2, ... and the counter of the account
    is the next number; an account without a counter has no rows. *)
Definition numbered (c : collector) : Prop :=
  forall a,
    match co_operation_count c !! a with
    | Some k => 0 <= k /\ map ao_operation_seq_no (rows_of a c) = map Z.of_nat (seq 0 (Z.to_nat k))
    | None => rows_of a c = []
    end.

(** As long as the numbers fit into the column. *)
Definition well_numbered (c : collector) : Prop :=
  Z.of_nat (length (co_account_operations c)) <= INT32_MAX -> numbered c.

Definition preserves (m : CO unit) : Prop := forall c, well_numbered c -> well_numbered (snd (m c)).

(** Steps that touch neither the counters nor the rows. *)
Definition same_data (g : collector -> collector) : Prop :=
  forall c, co_operation_count (g c) = co_operation_count c /\
    co_account_operations (g c) = co_account_operations c.

Lemma well_numbered_same c c' :
  co_operation_count c' = co_operation_count c -> co_account_operations c' = co_account_operations c ->
  well_numbered c -> well_numbered c'.
Proof. unfold well_numbered, numbered, rows_of. intros -> ->. done. Qed.

Lemma preserves_ret : preserves (st_ret tt).
Proof. by intros c. Qed.

Lemma preserves_modify g : same_data g -> preserves (st_modify g).
Proof. intros Hg c Hc. destruct (Hg c). by eapply well_numbered_same. Qed.

Lemma preserves_seq (m k : CO unit) : preserves m -> preserves k -> preserves (m ;;; k).
Proof.
  intros Hm Hk c Hc. unfold st_bind. specialize (Hm c Hc).
  destruct (m c) as [[]  c1]; cbn in *; [by apply Hk|done].
Qed.

Lemma preserves_get (k : collector -> CO unit) : (forall c0, preserves (k c0)) -> preserves (let* c := st_get in k c).
Proof. intros Hk c Hc. cbn. by apply Hk. Qed.

Lemma preserves_when b m : preserves m -> preserves (st_when b m).
Proof. intros Hm. destruct b; [done|apply preserves_ret]. Qed.

Lemma preserves_assert b e : preserves (st_assert b e).
Proof. intros c Hc. by destruct b. Qed.

Lemma same_data_creation (ty : collector -> Z) (i : collector -> option Z) :
  same_data (fun c => set_creation (ty c) (i c) c).
Proof. by intros c. Qed.

Lemma same_data_on_collect f op impacted : same_data (on_collect f op impacted).
Proof.
  intros c. unfold on_collect. revert c. induction impacted as [|n l IH] using rev_ind; intros c.
  - cbn. unfold collect_tracked_operation. by destruct (bf_enabled f).
  - rewrite foldl_app. cbn. destruct (IH c) as [<- <-].
    unfold collect_tracked_account. by destruct (bf_enabled f && _).
Qed.

Section numbering.
  (** No filter, account operations dumped: the default configuration. *)
  Context (f : blockchain_filter) (find_account : string -> option Z).
  Hypothesis unfiltered : bf_enabled f = false.

Lemma unfiltered_allows name cur c : on_before_new_operation f name cur c = true.
Proof. unfold on_before_new_operation, is_account_tracked, is_operation_tracked. by rewrite unfiltered. Qed.

Lemma rows_length a c : (length (rows_of a c) <= length (co_account_operations c))%nat.
Proof. apply length_filter. Qed.

Lemma preserves_on_new_operation name owner id ty cur :
  preserves (on_new_operation f true find_account name owner id ty cur).
Proof.
  intros c Hc. unfold on_new_operation. rewrite unfiltered_allows.
  destruct (find_account name) as [a|]; [|done]. destruct (find_account owner) as [o|]; [|done].
  destruct (co_operation_count c !! a) as [k|] eqn:Ek; [|done]. cbn.
  unfold well_numbered. cbn. rewrite length_app. cbn. intros Hlen.
  specialize (Hc ltac:(lia)). intros b. unfold rows_of. cbn. rewrite filter_app.
  pose proof (Hc a) as Ha. rewrite Ek in Ha. destruct Ha as [Hk Ha].
  assert (k < INT32_MAX) as Hlt.
  { apply (f_equal length) in Ha. rewrite !length_map, length_seq in Ha.
    pose proof (rows_length a c). lia. }
  destruct (decide (a = b)) as [->|Hne].
  - rewrite lookup_insert_eq, u32_small by (unfold UINT32_MAX, INT32_MAX in *; lia).
    split; [lia|]. rewrite filter_cons_True by done. rewrite map_app.
    cbn [map ao_operation_seq_no]. rewrite (i32_small k) by (unfold INT32_MAX in *; lia). cbn.
    replace (Z.to_nat (k + 1)) with (S (Z.to_nat k)) by lia.
    rewrite seq_S, map_app. cbn. f_equal; [exact Ha|]. f_equal. lia.
  - rewrite lookup_insert_ne by done. rewrite filter_cons_False by done. rewrite app_nil_r. apply Hc.
Qed.

Lemma preserves_on_new_account name : preserves (on_new_account find_account name).
Proof.
  intros c Hc. unfold on_new_account. destruct (find_account name) as [a|]; [|done].
  destruct (co_operation_count c !! a) as [k|] eqn:Ek; [done|]. intros Hlen. specialize (Hc Hlen).
  intros b. pose proof (Hc b) as Hb. cbn. destruct (decide (a = b)) as [->|Hne].
  - rewrite lookup_insert_eq. rewrite Ek in Hb. unfold rows_of in *. cbn. rewrite Hb. done.
  - rewrite lookup_insert_ne by done. exact Hb.
Qed.

Hint Resolve preserves_ret preserves_modify preserves_seq preserves_get preserves_when preserves_assert
  preserves_on_new_operation preserves_on_new_account same_data_creation same_data_on_collect : haf.

Lemma preserves_creation o : preserves (process_account_creation_op f true find_account o).
Proof.
  unfold process_account_creation_op. apply preserves_seq; [apply preserves_modify, same_data_creation|].
  destruct o; auto with haf.
Qed.

Lemma preserves_visit_impacted impacted owners last :
  preserves (visit_impacted f true find_account impacted owners last).
Proof.
  revert owners last. induction impacted as [|n l IH]; intros owners last; cbn [visit_impacted]; auto with haf.
  destruct owners as [|o owners]; [destruct last|]; auto with haf.
Qed.

Lemma preserves_visit v impacted owners : preserves (visit f true find_account v impacted owners).
Proof.
  destruct v; cbn [visit]; auto using preserves_creation, preserves_visit_impacted.
  1-2: unfold visit_pow; apply preserves_seq; [apply preserves_creation|];
    apply preserves_when, preserves_modify, same_data_creation.
  unfold visit_account_created. apply preserves_seq; [auto with haf|]. apply preserves_seq.
  - apply preserves_get. intros c0. destruct (co_creation_operation_id c0); [|auto with haf].
    apply preserves_seq; [auto with haf|apply preserves_modify, same_data_creation].
  - apply preserves_get. auto with haf.
Qed.

Lemma preserves_collect id op block : preserves (collect f true find_account id op block).
Proof.
  unfold collect. destruct (impacted_accounts op) as [impacted owners].
  repeat apply preserves_seq; auto using preserves_visit, preserves_assert.
  - apply preserves_modify. by intros c.
  - apply preserves_modify. by intros c.
  - apply preserves_modify, same_data_on_collect.
Qed.

End numbering.

(** Operations collected one after the other, each with the chain as it was then; an
    exception stops the block but the collector lives on. *)
Definition collect_all (f : blockchain_filter) (dump : bool)
    (ops : list ((string -> option Z) * Z * operation * Z)) (c : collector) : collector :=
  foldl (fun c '(find_account, id, op, block) => snd (collect f dump find_account id op block c)) c ops.

(** C36: Without a filter, whatever operations are collected, the rows of every account are
    numbered 0, 1, 2, ... without gaps or repetitions, in the order of collection, and
    the account's counter is the next number. *)
Theorem account_operations_are_numbered f ops :
  bf_enabled f = false ->
  let c := collect_all f true ops new_collector in
  Z.of_nat (length (co_account_operations c)) <= INT32_MAX -> numbered c.
Proof.
  intros Hf. cbn zeta. change (well_numbered (collect_all f true ops new_collector)).
  assert (well_numbered new_collector) as H0 by (intros _ a; done).
  revert H0. generalize new_collector. induction ops as [|[[[find_account id] op] block] ops IH]; intros c Hc;
    [done|]. cbn. apply IH. by apply preserves_collect.
Qed.

(** ** The creation of an account *)

Definition creates_account (v : op_view) (creator : string) : Prop :=
  v = AccountCreate creator \/ v = AccountCreateWithDelegation creator \/ v = CreateClaimedAccount creator.

Definition op_row (block id account owner seq_no type : Z) : account_operation_data_t :=
  {| ao_block_number := i32 block; ao_operation_id := id; ao_account_id := account;
     ao_transacting_account_id := owner; ao_operation_seq_no := i32 seq_no; ao_op_type_id := type |}.

Lemma on_new_operation_unfiltered f find name owner a o k id ty cur c :
  bf_enabled f = false -> find name = Some a -> find owner = Some o -> co_operation_count c !! a = Some k ->
  on_new_operation f true find name owner id ty cur c =
  (Ok tt, set_data (<[a := u32 (k + 1)]> (co_operation_count c)) (co_accounts c)
            (co_account_operations c ++ [op_row (co_block_num c) id a o k ty]) c).
Proof.
  intros Hf Hn Ho Hk. unfold on_new_operation. rewrite unfiltered_allows, Hn, Ho, Hk by done. done.
Qed.

Lemma on_new_account_ok find name n c :
  find name = Some n -> co_operation_count c !! n = None ->
  on_new_account find name c =
  (Ok tt, set_data (<[n := 0]> (co_operation_count c))
     (co_accounts c ++ [{| ad_id := n; ad_name := name; ad_block_number := i32 (co_block_num c) |}])
     (co_account_operations c) c).
Proof. intros Hn Hc. unfold on_new_account. by rewrite Hn, Hc. Qed.

Lemma collect_unfolds f find id op block c :
  0 <= which op < 32767 ->
  collect f true find id op block c =
  visit f true find (view op) (fst (impacted_accounts op)) (snd (impacted_accounts op))
    (on_collect f op (fst (impacted_accounts op)) (set_processed id (i32 (which op)) block c)).
Proof.
  intros Hw. unfold collect, st_assert, st_bind, st_modify.
  destruct (Z.leb_spec 0 (which op)); [|lia]. destruct (Z.ltb_spec (which op) 32767); [|lia]. cbn.
  destruct (impacted_accounts op). done.
Qed.

Lemma on_collect_unfiltered f op impacted c : bf_enabled f = false -> on_collect f op impacted c = c.
Proof.
  intros Hf. unfold on_collect, collect_tracked_operation. rewrite Hf.
  induction impacted as [|n l IH] using rev_ind; [done|]. rewrite foldl_app, IH. cbn.
  unfold collect_tracked_account. by rewrite Hf.
Qed.

Lemma creation_recorded f find id op block c creator a k :
  bf_enabled f = false -> 0 <= which op < 32767 -> creates_account (view op) creator ->
  find creator = Some a -> co_operation_count c !! a = Some k ->
  exists c1, collect f true find id op block c = (Ok tt, c1) /\
    co_creation_operation_id c1 = Some id /\ co_creation_operation_type_id c1 = i32 (which op) /\
    co_accounts c1 = co_accounts c /\
    co_operation_count c1 = <[a := u32 (k + 1)]> (co_operation_count c) /\
    co_account_operations c1 = co_account_operations c ++ [op_row block id a a k (i32 (which op))].
Proof.
  intros Hf Hw Hv Ha Hk. rewrite collect_unfolds, on_collect_unfiltered by done.
  assert (visit f true find (view op) (fst (impacted_accounts op)) (snd (impacted_accounts op)) =
    process_account_creation_op f true find (Some creator)) as -> by (by destruct Hv as [->|[->| ->]]).
  unfold process_account_creation_op. cbn -[on_new_operation].
  erewrite on_new_operation_unfiltered by done. eexists. split; [done|]. by split_and!.
Qed.

Lemma created_recorded f find id1 ty1 id2 op2 block creator name a n k c1 :
  bf_enabled f = false -> 0 <= which op2 < 32767 -> view op2 = AccountCreated name creator ->
  find creator = Some a -> find name = Some n -> a <> n -> creator <> name ->
  co_creation_operation_id c1 = Some id1 -> co_creation_operation_type_id c1 = ty1 ->
  co_operation_count c1 !! a = Some k -> co_operation_count c1 !! n = None ->
  exists c2, collect f true find id2 op2 block c1 = (Ok tt, c2) /\
    co_accounts c2 = co_accounts c1 ++ [{| ad_id := n; ad_name := name; ad_block_number := i32 block |}] /\
    co_account_operations c2 = co_account_operations c1 ++
      [op_row block id1 n a 0 ty1; op_row block id2 n a 1 (i32 (which op2));
       op_row block id2 a a k (i32 (which op2))] /\
    co_creation_operation_id c2 = None.
Proof.
  intros Hf Hw2 Hv2 Hf2 Hfn Hne Hnames Hid Hty Hk Hnone.
  rewrite collect_unfolds, on_collect_unfiltered by done. rewrite Hv2. cbn [visit].
  unfold visit_account_created. set (c0 := set_processed _ _ _ c1).
  rewrite (st_bind_ok _ _ _ _ _ (on_new_account_ok find name n c0 Hfn Hnone)).
  set (c3 := set_data _ _ _ _).
  rewrite (st_bind_ok _ _ c3 tt
    (set_creation ty1 None
      (set_data (<[n := 1]> (co_operation_count c3)) (co_accounts c3)
        (co_account_operations c3 ++ [op_row block id1 n a 0 ty1]) c3))).
  2: { unfold st_bind at 1. unfold st_get. replace (co_creation_operation_id c3) with (Some id1).
       rewrite (st_bind_ok _ _ _ _ _ (on_new_operation_unfiltered f find name creator n a 0 id1 _ false c3
         Hf Hfn Hf2 (lookup_insert_eq _ _ _))).
       unfold c3, st_modify. cbn. by rewrite Hty. }
  unfold st_bind at 1. unfold st_get. set (c4 := set_creation _ _ _).
  rewrite (st_bind_ok _ _ _ _ _ (on_new_operation_unfiltered f find name creator n a 1 _ _ true c4
    Hf Hfn Hf2 (lookup_insert_eq _ _ _))).
  rewrite bool_decide_eq_false_2 by done. cbn [st_when negb].
  erewrite (on_new_operation_unfiltered f find creator creator a a k); [|done..|].
  - eexists. split; [done|]. cbn. split; [done|]. split; [|done]. by rewrite <- !app_assoc.
  - cbn. by rewrite !lookup_insert_ne by done.
Qed.

(** The creation of an account is recorded in two steps: the creating operation for
    its creator at once, and, when the chain reports the new account, the account
    itself, the creating operation as its operation 0 and the report as its operation
    1, and the report for the creator as well. *)
Theorem account_creation_is_recorded f find1 find2 id1 id2 op1 op2 block creator name a n k c :
  bf_enabled f = false -> 0 <= which op1 < 32767 -> 0 <= which op2 < 32767 ->
  creates_account (view op1) creator -> view op2 = AccountCreated name creator ->
  find1 creator = Some a -> find2 creator = Some a -> find2 name = Some n ->
  a <> n -> creator <> name ->
  co_operation_count c !! a = Some k -> co_operation_count c !! n = None ->
  let c2 := snd (collect f true find2 id2 op2 block (snd (collect f true find1 id1 op1 block c))) in
  fst (collect f true find2 id2 op2 block (snd (collect f true find1 id1 op1 block c))) = Ok tt /\
  co_accounts c2 = co_accounts c ++ [{| ad_id := n; ad_name := name; ad_block_number := i32 block |}] /\
  co_account_operations c2 = co_account_operations c ++
    [op_row block id1 a a k (i32 (which op1));
     op_row block id1 n a 0 (i32 (which op1));
     op_row block id2 n a 1 (i32 (which op2));
     op_row block id2 a a (u32 (k + 1)) (i32 (which op2))] /\
  co_creation_operation_id c2 = None.
Proof.
  intros Hf Hw1 Hw2 Hv1 Hv2 Hf1 Hf2 Hfn Hne Hnames Hk Hnone.
  destruct (creation_recorded f find1 id1 op1 block c creator a k)
    as (c1 & E1 & Hid & Hty & Hacc & Hcnt & Hrows); [done..|].
  destruct (created_recorded f find2 id1 (i32 (which op1)) id2 op2 block creator name a n (u32 (k + 1)) c1)
    as (c2 & E2 & Hacc2 & Hrows2 & Hnone2); try done.
  - by rewrite Hcnt, lookup_insert_eq.
  - by rewrite Hcnt, lookup_insert_ne.
  - cbn zeta. rewrite E1. cbn [snd]. rewrite E2. cbn [fst snd]. rewrite Hacc2, Hrows2, Hacc, Hrows.
    split_and!; try done. by rewrite <- app_assoc.
Qed.

(** An account that exists but whose owner, as the operation names it, does not makes
    the collector read through a null pointer: only the account itself is checked. *)
Theorem missing_owner_dereferences_null f dump find name owner a id ty cur c :
  find name = Some a -> find owner = None ->
  on_new_operation f dump find name owner id ty cur c = (Throw NullPointer, c).
Proof. intros Hn Ho. unfold on_new_operation. by rewrite Hn, Ho. Qed.

End collector.

Module CollectorExamples.

(** Operations are given by their view. *)
Definition which (op : op_view) : Z :=
  match op with AccountCreate _ => 9 | AccountCreated _ _ => 80 | _ => 2 end.
Definition impact (op : op_view) : list string * list string :=
  match op with OtherOperation => (["alice"; "bob"], ["alice"])%string | _ => ([], []) end.

Definition no_filter : @blockchain_filter op_view :=
  {| bf_enabled := false; bf_trx_in_block_filter_accepted := ∅; bf_accounts_filter_tracker := None;
     bf_operations_filter_tracker := None; bf_operations_body_filter_tracker := None |}.

Definition before (name : string) : option Z :=
  if bool_decide (name = "alice"%string) then Some 1 else None.
Definition after (name : string) : option Z :=
  if bool_decide (name = "bob"%string) then Some 2 else before name.

Definition history : list ((string -> option Z) * Z * op_view * Z) :=
  [(before, 100, AccountCreated "alice" "alice", 7); (before, 101, AccountCreate "alice", 8);
   (after, 102, AccountCreated "bob" "alice", 8); (after, 103, OtherOperation, 9)].

Lemma account_operations_are_numbered_witness :
  numbered (collect_all which id impact no_filter true history new_collector) /\
  map (fun r => (ao_account_id r, ao_operation_seq_no r, ao_operation_id r))
    (co_account_operations (collect_all which id impact no_filter true history new_collector)) =
  [(1, 0, 100); (1, 1, 101); (2, 0, 101); (2, 1, 102); (1, 2, 102); (1, 3, 103); (2, 2, 103)].
Proof.
  split; [|vm_compute; reflexivity].
  apply (account_operations_are_numbered which id impact no_filter history); [reflexivity|].
  vm_compute. discriminate.
Defined.

Definition known : collector := set_data {[ 1 := 5 ]} [] [] new_collector.

Lemma account_creation_is_recorded_witness :
  let c2 := snd (collect which id impact no_filter true after 102 (AccountCreated "bob" "alice") 8
    (snd (collect which id impact no_filter true before 101 (AccountCreate "alice") 8 known))) in
  map ao_operation_seq_no (co_account_operations c2) = [5; 0; 1; 6].
Proof.
  destruct (account_creation_is_recorded which id impact no_filter before after 101 102
    (AccountCreate "alice") (AccountCreated "bob" "alice") 8 "alice" "bob" 1 2 5 known)
    as (_ & _ & H & _); [done|cbn; lia|cbn; lia|by left|done..|].
  cbn zeta in H |- *. rewrite H. vm_compute. reflexivity.
Defined.

Lemma missing_owner_dereferences_null_witness :
  on_new_operation no_filter true before "alice" "bob" 103 2 true known = (Throw NullPointer, known).
Proof. by apply (missing_owner_dereferences_null no_filter true before "alice" "bob" 1). Defined.

End CollectorExamples.
