(* ===== verification/Serializer.v ===== *)
(** * The plugin's block and operation handlers

    Models the part of [sql_serializer.cpp] that turns chain notifications into
    cached rows: the handlers connected in [connect_signals], [handle_transactions],
    the numbering of operations inside a block, [need_initialize_database] and
    [custom_json_type_cache].

    What the chain knows at the time of a notification is part of the notification;
    the operation identifier ([to_operation_id]), the classification of operations and
    the flush of [indexation_state] (file IndexationState) are parameters. *)

From S2P Require Import Prelude Text CachedData Collector.
From Stdlib Require Import ZArith Lia Ascii String.
From stdpp Require Import base list strings gmap sorting.

Open Scope Z_scope.
Open Scope haf_scope.

(** ** [custom_json_type_cache] *)

Record custom_json_type_cache := {
  cj_mapping : gmap string Z;
  cj_pending_inserts : list (Z * string);
  cj_next_id : Z                               (* int16_t *)
}.

Definition new_custom_json_type_cache : custom_json_type_cache :=
  {| cj_mapping := ∅; cj_pending_inserts := []; cj_next_id := 1 |}.

(** [load_from_db], given the rows of the table. *)
Definition load_from_db (rows : list (Z * string)) (cj : custom_json_type_cache) : custom_json_type_cache :=
  foldl (fun cj '(id, cj_id) =>
    {| cj_mapping := <[cj_id := id]> (cj_mapping cj); cj_pending_inserts := cj_pending_inserts cj;
       cj_next_id := if cj_next_id cj <=? id then i16 (id + 1) else cj_next_id cj |}) cj rows.

Definition get_type_id (custom_json_id : string) (cj : custom_json_type_cache) :
    option Z * custom_json_type_cache :=
  if bool_decide (custom_json_id = ""%string) then (None, cj)
  else
    match cj_mapping cj !! custom_json_id with
    | Some id => (Some id, cj)
    | None =>
        let new_id := cj_next_id cj in
        (Some new_id,
         {| cj_mapping := <[custom_json_id := new_id]> (cj_mapping cj);
            cj_pending_inserts := cj_pending_inserts cj ++ [(new_id, custom_json_id)];
            cj_next_id := i16 (cj_next_id cj + 1) |})
    end.

(** A quote inside a literal is doubled. *)
Definition double_quotes (s : list ascii) : list ascii :=
  concat (map (fun c => if bool_decide (c = "'"%char) then lit "'" ++ lit "'" else [c]) s).

(** [flush_pending]: the statements of its transaction. *)
Definition flush_pending (cj : custom_json_type_cache) : list (list ascii) * custom_json_type_cache :=
  (map (fun '(id, cj_id) =>
     lit "INSERT INTO hafd.custom_json_types(id, custom_json_id) OVERRIDING SYSTEM VALUE VALUES(" ++
     dec id ++ lit ", '" ++ double_quotes (lit cj_id) ++ lit "') ON CONFLICT DO NOTHING")
     (cj_pending_inserts cj),
   {| cj_mapping := cj_mapping cj; cj_pending_inserts := []; cj_next_id := cj_next_id cj |}).

(** Distinct names have distinct identifiers, all positive and below the next one. *)
Record cj_inv (cj : custom_json_type_cache) : Prop := {
  cj_range : forall s id, cj_mapping cj !! s = Some id -> 0 < id < cj_next_id cj;
  cj_inj : forall s t id, cj_mapping cj !! s = Some id -> cj_mapping cj !! t = Some id -> s = t;
  cj_next : 0 < cj_next_id cj <= 32767
}.

Lemma i16_small z : -32768 <= z <= 32767 -> i16 z = z.
Proof. intros. apply wrap_s_small; lia. Qed.

Lemma get_type_id_inv s cj :
  cj_inv cj -> cj_next_id cj < 32767 -> cj_inv (snd (get_type_id s cj)).
Proof.
  intros [Hr Hi Hn] Hlt. unfold get_type_id. case_bool_decide; [done|].
  destruct (cj_mapping cj !! s) as [id|] eqn:E; [done|]. cbn.
  constructor; cbn; rewrite ?i16_small by lia.
  - intros t id. destruct (decide (s = t)) as [->|Hne].
    + rewrite lookup_insert_eq. intros [= <-]. lia.
    + rewrite lookup_insert_ne by done. intros Ht. specialize (Hr t id Ht). lia.
  - intros t u id. destruct (decide (t = s)) as [->|Ht], (decide (u = s)) as [->|Hu].
    + done.
    + rewrite lookup_insert_eq, lookup_insert_ne by done. intros [= <-] H2. specialize (Hr u _ H2). lia.
    + rewrite lookup_insert_eq, lookup_insert_ne by done. intros H1 [= <-]. specialize (Hr t _ H1). lia.
    + rewrite !lookup_insert_ne by done. apply Hi.
  - lia.
Qed.

Definition get_all (names : list string) (cj : custom_json_type_cache) : custom_json_type_cache :=
  foldl (fun cj s => snd (get_type_id s cj)) cj names.

Lemma get_type_id_next s cj :
  cj_inv cj -> cj_next_id cj < 32767 ->
  cj_next_id cj <= cj_next_id (snd (get_type_id s cj)) <= cj_next_id cj + 1.
Proof.
  intros [_ _ Hn] Hlt. unfold get_type_id. case_bool_decide; cbn; [lia|].
  destruct (cj_mapping cj !! s); cbn; [lia|]. rewrite i16_small; lia.
Qed.

Lemma get_all_inv names cj :
  cj_inv cj -> cj_next_id cj + Z.of_nat (length names) <= 32767 -> cj_inv (get_all names cj).
Proof.
  revert cj. induction names as [|s names IH]; intros cj Hi Hl; [done|]. cbn in *.
  pose proof (get_type_id_next s cj Hi ltac:(lia)).
  apply IH; [apply get_type_id_inv; [done|lia]|lia].
Qed.

(** As long as fewer than 32767 names have been seen, every name has its own positive
    identifier, and asking again gives the same one. *)
Theorem custom_json_ids_are_unique names s :
  Z.of_nat (length names) < 32766 ->
  let cj := get_all names new_custom_json_type_cache in
  cj_inv cj /\
  (s <> ""%string ->
   fst (get_type_id s (snd (get_type_id s cj))) = fst (get_type_id s cj) /\
   cj_mapping (snd (get_type_id s cj)) !! s = fst (get_type_id s cj)).
Proof.
  intros Hl cj. split.
  - apply get_all_inv; [|cbn; lia]. constructor; cbn; [done|done|lia].
  - intros Hs. unfold get_type_id. rewrite !bool_decide_eq_false_2 by done.
    destruct (cj_mapping cj !! s) eqn:E; cbn; [by rewrite E|]. by rewrite lookup_insert_eq.
Qed.

(** The 16-bit counter overflows: the name after the one that gets 32767 gets a
    negative identifier. *)
Theorem custom_json_ids_overflow s t cj :
  cj_next_id cj = 32767 -> cj_mapping cj !! s = None -> cj_mapping cj !! t = None ->
  s <> ""%string -> t <> ""%string -> s <> t ->
  fst (get_type_id s cj) = Some 32767 /\
  fst (get_type_id t (snd (get_type_id s cj))) = Some (-32768).
Proof.
  intros Hn Hs Ht Hse Hte Hne. unfold get_type_id. rewrite !bool_decide_eq_false_2 by done.
  rewrite Hs. cbn. rewrite lookup_insert_ne, Ht, Hn by done. done.
Qed.

(** ** The handlers *)

Section serializer.
  Context {operation : Type}.
  Context (which : operation -> Z) (view : operation -> op_view)
    (impacted_accounts : operation -> list string * list string)
    (is_effective_operation is_virtual_operation : operation -> bool)
    (to_operation_id : Z -> Z -> Z).

Record operation_notification := {
  on_op : operation;                        (* already supplemented where the handler does that *)
  on_block : Z;
  on_trx_in_block : Z;
  on_op_in_trx : Z;
  on_find_account : string -> option Z      (* the chain's accounts at that moment *)
}.

Record full_transaction := {
  ft_hash : string;
  ft_ref_block_num : Z;
  ft_ref_block_prefix : Z;
  ft_expiration : Z;
  ft_signatures : list string;
  ft_rc_cost : Z
}.

Inductive serializer_error :=
| SerializerAssert (what : string)
| CollectorFailed (e : collect_error)
| UndefinedErase.                           (* revert_to_snapshot past the end *)

Record serializer := {
  s_op_in_block_number : Z;
  s_collector : collector;
  s_filter : @blockchain_filter operation;
  s_cache : cached_data_t operation;
  s_custom_json : custom_json_type_cache;
  s_operations_blocked : bool;
  s_consecutive_block_failures : Z;
  s_last_block_num : Z
}.

#[local] Notation SE := (ST serializer serializer_error).

Definition set_op_in_block (n : Z) (s : serializer) : serializer :=
  {| s_op_in_block_number := n; s_collector := s_collector s; s_filter := s_filter s;
     s_cache := s_cache s; s_custom_json := s_custom_json s;
     s_operations_blocked := s_operations_blocked s;
     s_consecutive_block_failures := s_consecutive_block_failures s;
     s_last_block_num := s_last_block_num s |}.

Definition set_rows (co : collector) (f : blockchain_filter) (c : cached_data_t operation)
    (cj : custom_json_type_cache) (s : serializer) : serializer :=
  {| s_op_in_block_number := s_op_in_block_number s; s_collector := co; s_filter := f;
     s_cache := c; s_custom_json := cj;
     s_operations_blocked := s_operations_blocked s;
     s_consecutive_block_failures := s_consecutive_block_failures s;
     s_last_block_num := s_last_block_num s |}.

Definition set_block_state (blocked : bool) (failures last : Z) (s : serializer) : serializer :=
  {| s_op_in_block_number := s_op_in_block_number s; s_collector := s_collector s;
     s_filter := s_filter s; s_cache := s_cache s; s_custom_json := s_custom_json s;
     s_operations_blocked := blocked; s_consecutive_block_failures := failures;
     s_last_block_num := last |}.

Definition set_cache (c : cached_data_t operation) (s : serializer) : serializer :=
  set_rows (s_collector s) (s_filter s) c (s_custom_json s) s.

(** The collector appends to the cache's own vectors: they are lent to it and taken
    back. *)
Definition lend (c : cached_data_t operation) (co : collector) : collector :=
  set_data (co_operation_count co) (accounts c) (account_operations c) co.

Definition take_back (co : collector) (c : cached_data_t operation) : cached_data_t operation :=
  Build_cached_data_t (blocks c) (transactions c) (transactions_multisig c) (operations c)
    (co_accounts co) (co_account_operations co) (applied_hardforks c) (total_size c) (stash c).

Definition collect_account_operations (psql_dump_account_operations : bool) (id : Z)
    (note : operation_notification) : SE unit := fun s =>
  let '(o, co) := collect which view impacted_accounts (s_filter s) psql_dump_account_operations
    (on_find_account note) id (on_op note) (on_block note) (lend (s_cache s) (s_collector s)) in
  (match o with Ok _ => Ok tt | Throw e => Throw (CollectorFailed e) end,
   set_rows co (s_filter s) (take_back co (s_cache s)) (s_custom_json s) s).

Definition get_hardfork_id (op : operation) : Z :=
  match view op with HardforkOperation id => id | _ => -1 end.

(** The rows an accepted operation adds. *)
Definition add_operation_rows (operation_id : Z) (cj_type_id : option Z)
    (note : operation_notification) (c : cached_data_t operation) : cached_data_t operation :=
  let hardfork_num := get_hardfork_id (on_op note) in
  Build_cached_data_t (blocks c) (transactions c) (transactions_multisig c)
    (operations c ++
      [{| po_operation_id := i64 operation_id; po_block_number := i32 (on_block note);
          po_trx_in_block := i32 (on_trx_in_block note); po_op_type_id := i16 (which (on_op note));
          po_op_in_trx := on_op_in_trx note; po_op := on_op note;
          po_custom_json_type_id := cj_type_id |}])
    (accounts c) (account_operations c)
    (if 0 <? hardfork_num
     then applied_hardforks c ++
       [{| ah_hardfork_num := hardfork_num; ah_block_number := i32 (on_block note);
           ah_hardfork_vop_id := i64 operation_id |}]
     else applied_hardforks c)
    (total_size c) (stash c).

Definition record_operation (operation_id : Z) (note : operation_notification) (s : serializer) :
    serializer :=
  let f := remember_trx_id (on_trx_in_block note) (s_filter s) in
  let '(cj_type_id, cj) :=
    match view (on_op note) with
    | CustomJson id => get_type_id id (s_custom_json s)
    | _ => (None, s_custom_json s)
    end in
  set_rows (s_collector s) f (add_operation_rows operation_id cj_type_id note (s_cache s)) cj s.

(** [on_pre_apply_operation]; [processing] is
    [is_processing_block() && is_producing_block() == false], [can_collect] is
    [indexation_state::collect_blocks]. *)
Definition on_pre_apply_operation (psql_dump_account_operations processing can_collect : bool)
    (note : operation_notification) : SE unit :=
  st_assert processing (SerializerAssert "SQL serializer shall process only operations contained by finished blocks") ;;;
  (if negb (is_effective_operation (on_op note)) then st_ret tt
   else if negb can_collect then st_ret tt
   else
     st_assert (is_virtual_operation (on_op note) || (0 <=? on_trx_in_block note))
       (SerializerAssert "Non is_producing real operation with trx_in_block = -1") ;;;
     (let* s := st_get in
      let operation_id := to_operation_id (on_block note) (s_op_in_block_number s) in
      collect_account_operations psql_dump_account_operations (i64 operation_id) note ;;;
      st_modify (fun s => if is_op_accepted (s_filter s) (s_collector s)
                          then record_operation operation_id note s else s) ;;;
      st_modify (fun s => set_op_in_block (u32 (s_op_in_block_number s + 1)) s))).

(** The signal reaches the handler unless it is blocked. *)
Definition notify_operation (dump processing can_collect : bool) (note : operation_notification) :
    SE unit := fun s =>
  if s_operations_blocked s then (Ok tt, s)
  else on_pre_apply_operation dump processing can_collect note s.

(** ** [handle_transactions] *)

Definition transaction_row (trx : full_transaction) (block_num trx_in_block : Z) : process_transaction_t :=
  {| pt_hash := ft_hash trx; pt_block_number := i32 block_num; pt_trx_in_block := i32 trx_in_block;
     pt_ref_block_num := ft_ref_block_num trx; pt_ref_block_prefix := ft_ref_block_prefix trx;
     pt_expiration := ft_expiration trx; pt_signature := head (ft_signatures trx);
     pt_rc_cost := if ft_rc_cost trx <? 0 then None else Some (ft_rc_cost trx) |}.

Definition multisig_rows (trx : full_transaction) (block_num : Z) : list process_transaction_multisig_t :=
  if (1 <? length (ft_signatures trx))%nat
  then map (fun sig => {| pm_hash := ft_hash trx; pm_block_number := i32 block_num; pm_signature := sig |})
         (tail (ft_signatures trx))
  else [].

(** [sizeof] of the members a transaction row is made of: hash 20, block number, index
    and cost 8 each, reference number 2 and prefix 4, expiration 4, a signature 65. *)
Definition TRANSACTION_SIZE : Z := 20 + 8 + 8 + 2 + 4 + 4 + 65 + 8.

Fixpoint handle_transactions (f : @blockchain_filter operation) (trxs : list full_transaction)
    (block_num trx_in_block : Z) (c : cached_data_t operation) : cached_data_t operation :=
  match trxs with
  | [] => c
  | trx :: trxs' =>
      if negb (is_trx_accepted f trx_in_block)
      then handle_transactions f trxs' block_num (trx_in_block + 1) c
      else
        handle_transactions f trxs' block_num (trx_in_block + 1)
          (Build_cached_data_t (blocks c)
             (transactions c ++ [transaction_row trx block_num trx_in_block])
             (transactions_multisig c ++ multisig_rows trx block_num)
             (operations c) (accounts c) (account_operations c) (applied_hardforks c)
             (total_size c + TRANSACTION_SIZE) (stash c))
  end.

(** ** Blocks *)

Definition push_block_row (row : process_block_t) (c : cached_data_t operation) : cached_data_t operation :=
  Build_cached_data_t (blocks c ++ [row]) (transactions c) (transactions_multisig c) (operations c)
    (accounts c) (account_operations c) (applied_hardforks c) (total_size c + 20 + 4) (stash c).

(** [unblock_operation_handlers], on the pre-apply signal of a block. *)
Definition unblock_operation_handlers (s : serializer) : serializer :=
  set_block_state false (s_consecutive_block_failures s) (s_last_block_num s)
    (set_cache (snapshot_current_sizes (s_cache s)) s).

Definition block_operation_handlers (s : serializer) : serializer :=
  set_block_state true (s_consecutive_block_failures s) (s_last_block_num s) s.

(** The handler of a failed block. *)
Definition on_block_failed (s : serializer) : outcome serializer_error unit * serializer :=
  let s1 := block_operation_handlers
    (set_block_state (s_operations_blocked s) (u32 (s_consecutive_block_failures s + 1))
       (s_last_block_num s) s) in
  match revert_to_snapshot (s_cache s1) with
  | Some c => (Ok tt, set_cache c s1)
  | None => (Throw UndefinedErase, s1)
  end.

(** [on_post_apply_block] up to the flush, and after it.  [row] is the block's row as the
    chain's header, witness and global properties give it; [flush] is
    [indexation_state::trigger_data_flush] on the cache. *)
Definition on_post_apply_block (can_collect : bool) (block_num : Z) (trxs : list full_transaction)
    (row : process_block_t)
    (flush : Z -> cached_data_t operation -> outcome serializer_error unit * cached_data_t operation) :
    SE (list (list ascii)) := fun s =>
  let s1 := set_block_state (s_operations_blocked s) 0 block_num s in
  if negb can_collect then (Ok [], s1)
  else
    let s2 := set_op_in_block 0 s1 in
    let c := push_block_row row (handle_transactions (s_filter s2) trxs block_num 0 (s_cache s2)) in
    let '(statements, cj) := flush_pending (s_custom_json s2) in
    match flush block_num c with
    | (Throw e, c') => (Throw e, set_rows (s_collector s2) (s_filter s2) c' cj s2)
    | (Ok _, c') => (Ok statements, set_rows (s_collector s2) (filter_clear (s_filter s2)) c' cj s2)
    end.

(** ** [need_initialize_database] *)
Definition need_initialize_database (is_database_initialized : bool) (psql_first_block block_num : Z)
    (can_collect : bool) : bool :=
  if is_database_initialized then false
  else if block_num =? u32 (psql_first_block - 1) then true
  else if (psql_first_block =? 1) && (block_num =? 1) then true
  else can_collect.

(** ** Numbering of operations *)

(** The operations of a block, one after the other; an exception ends it. *)
Fixpoint notify_operations (dump processing can_collect : bool) (notes : list operation_notification) :
    SE unit :=
  match notes with
  | [] => st_ret tt
  | note :: notes' =>
      notify_operation dump processing can_collect note ;;;
      notify_operations dump processing can_collect notes'
  end.

Definition effective (notes : list operation_notification) : list operation_notification :=
  filter (fun note => is_effective_operation (on_op note) = true) notes.

(** Identifiers of consecutive positions in a block. *)
Definition ids_from (n : Z) (notes : list operation_notification) : list Z :=
  imap (fun i note => i64 (to_operation_id (on_block note) (n + Z.of_nat i))) notes.

Lemma collect_account_operations_keeps dump id note s o s' :
  collect_account_operations dump id note s = (o, s') ->
  operations (s_cache s') = operations (s_cache s) /\ s_op_in_block_number s' = s_op_in_block_number s /\
  s_filter s' = s_filter s /\ s_operations_blocked s' = s_operations_blocked s.
Proof.
  unfold collect_account_operations. destruct (collect _ _ _ _ _ _ _ _ _ _) as [o' co].
  intros [= _ <-]. done.
Qed.

Lemma on_pre_apply_operation_ok dump note s s' :
  bf_enabled (s_filter s) = false ->
  on_pre_apply_operation dump true true note s = (Ok tt, s') ->
  (bf_enabled (s_filter s') = false /\ s_operations_blocked s' = s_operations_blocked s) /\
  if is_effective_operation (on_op note) then
    map po_operation_id (operations (s_cache s')) = map po_operation_id (operations (s_cache s)) ++
      [i64 (to_operation_id (on_block note) (s_op_in_block_number s))] /\
    map po_op (operations (s_cache s')) = map po_op (operations (s_cache s)) ++ [on_op note] /\
    s_op_in_block_number s' = u32 (s_op_in_block_number s + 1)
  else s' = s.
Proof.
  intros Hf E. unfold on_pre_apply_operation in E.
  apply st_bind_inv in E as ([] & s0 & E0 & E). injection E0 as <-.
  destruct (is_effective_operation (on_op note)); cbn [negb] in E; [|by injection E as <-].
  apply st_bind_inv in E as ([] & s1 & E1 & E). unfold st_assert in E1.
  destruct (is_virtual_operation (on_op note) || _); [|done]. injection E1 as <-.
  unfold st_bind at 1 in E. cbn [st_get] in E.
  apply st_bind_inv in E as ([] & s2 & E2 & E).
  apply collect_account_operations_keeps in E2 as (Hops & Hn & Hfil & Hbl).
  unfold st_bind, st_modify in E. injection E as <-.
  unfold is_op_accepted. rewrite Hfil, Hf. cbn [negb orb].
  unfold record_operation. destruct (match view (on_op note) with CustomJson _ => _ | _ => _ end) as [ty cj].
  unfold remember_trx_id. rewrite Hfil, Hf. cbn.
  rewrite ?Hfil, ?Hf, Hbl, Hops, Hn, !map_app. done.
Qed.

Lemma ids_from_cons n note notes :
  ids_from n (note :: notes) = i64 (to_operation_id (on_block note) n) :: ids_from (n + 1) notes.
Proof.
  unfold ids_from. cbn. f_equal; [do 2 f_equal; lia|]. apply imap_ext. intros i x _. cbn. do 2 f_equal. lia.
Qed.

Lemma notify_operations_ok dump notes s s' :
  bf_enabled (s_filter s) = false -> s_operations_blocked s = false ->
  0 <= s_op_in_block_number s -> s_op_in_block_number s + Z.of_nat (length notes) <= UINT32_MAX ->
  notify_operations dump true true notes s = (Ok tt, s') ->
  map po_operation_id (operations (s_cache s')) = map po_operation_id (operations (s_cache s)) ++
    ids_from (s_op_in_block_number s) (effective notes) /\
  map po_op (operations (s_cache s')) = map po_op (operations (s_cache s)) ++ map on_op (effective notes) /\
  s_op_in_block_number s' = s_op_in_block_number s + Z.of_nat (length (effective notes)) /\
  bf_enabled (s_filter s') = false.
Proof.
  revert s. induction notes as [|note notes IH]; intros s Hf Hb H0 Hl E.
  - injection E as <-. cbn. rewrite !app_nil_r, Z.add_0_r. done.
  - cbn [notify_operations] in E. apply st_bind_inv in E as ([] & s1 & E1 & E).
    unfold notify_operation in E1. rewrite Hb in E1. cbn [length] in Hl.
    destruct (on_pre_apply_operation_ok dump note s s1 Hf E1) as [[Hf1 Hb1] H1].
    unfold effective. rewrite filter_cons. fold (effective notes).
    destruct (is_effective_operation (on_op note)) eqn:Ee.
    + destruct H1 as (Hid & Hop & Hn). rewrite u32_small in Hn by (unfold UINT32_MAX in *; lia).
      destruct (IH s1) as (Hid2 & Hop2 & Hn2 & Hf2); [done|congruence|lia|lia|done|].
      case_decide; [|done]. rewrite Hid2, Hop2, Hid, Hop, Hn, ids_from_cons, <- !app_assoc. cbn.
      rewrite Hn in Hn2. split_and!; try done. rewrite Hn2. lia.
    + subst s1. case_decide; [done|]. by apply IH; [..|lia|].
Qed.

(** C34: When the filter is disabled, operations are not blocked and the counter of the block is 0,
    as after a block that was stored, the operations of a block that is applied, fewer than
    2^32, get the identifiers of positions 0, 1, 2, ... of that block, in the order the chain
    reports them, and when the block is stored the numbering starts again from 0.
    ([failed_block_shifts_positions] has a block that starts with another counter.) *)
Theorem operations_are_numbered_by_position dump notes s s1 block_num trxs row flush r s2 :
  bf_enabled (s_filter s) = false -> s_operations_blocked s = false -> s_op_in_block_number s = 0 ->
  Z.of_nat (length notes) <= UINT32_MAX ->
  notify_operations dump true true notes s = (Ok tt, s1) ->
  on_post_apply_block true block_num trxs row flush s1 = (r, s2) ->
  map po_operation_id (operations (s_cache s1)) =
    map po_operation_id (operations (s_cache s)) ++ ids_from 0 (effective notes) /\
  map po_op (operations (s_cache s1)) =
    map po_op (operations (s_cache s)) ++ map on_op (effective notes) /\
  s_op_in_block_number s2 = 0.
Proof.
  intros Hf Hb H0 Hl E1 E2.
  destruct (notify_operations_ok dump notes s s1 Hf Hb) as (Hid & Hop & Hn & _); [lia|lia|done|].
  rewrite H0 in Hid. split; [done|]. split; [done|].
  unfold on_post_apply_block in E2. cbn [negb] in E2. cbn zeta in E2.
  destruct (flush_pending _) as [st cj]. destruct (flush _ _) as [[] c']; injection E2 as _ <-; done.
Qed.

(** A block that fails takes its rows back but not its position counter: when the
    same operations are reported again, their identifiers start at the number of
    operations of the failed attempt instead of at 0. *)
Theorem failed_block_shifts_positions dump notes s s1 s2 s3 s4 :
  bf_enabled (s_filter s) = false -> s_op_in_block_number s = 0 ->
  2 * Z.of_nat (length notes) <= UINT32_MAX ->
  s1 = unblock_operation_handlers s ->
  notify_operations dump true true notes s1 = (Ok tt, s2) ->
  on_block_failed s2 = (Ok tt, s3) ->
  notify_operations dump true true notes (unblock_operation_handlers s3) = (Ok tt, s4) ->
  operations (s_cache s3) = take (st_operations (stash (s_cache s2))) (operations (s_cache s2)) /\
  map po_operation_id (operations (s_cache s4)) =
    map po_operation_id (operations (s_cache s3)) ++
    ids_from (Z.of_nat (length (effective notes))) (effective notes).
Proof.
  intros Hf H0 Hl -> E1 Ef E2.
  assert (length (effective notes) <= length notes)%nat as Hle by apply length_filter.
  destruct (notify_operations_ok dump notes (unblock_operation_handlers s) s2) as (_ & _ & Hn & Hf2);
    [done|done|cbn; lia|cbn; lia|done|]. cbn in Hn. rewrite H0, Z.add_0_l in Hn.
  unfold on_block_failed in Ef. destruct (revert_to_snapshot _) as [c|] eqn:Er; [|done].
  injection Ef as <-.
  assert (operations c = take (st_operations (stash (s_cache s2))) (operations (s_cache s2))) as Hc.
  { unfold revert_to_snapshot, erase_from in Er. simplify_option_eq.
    repeat case_bool_decide; by simplify_option_eq. }
  apply notify_operations_ok in E2 as (Hid & _ & _ & _); [|done|done|cbn; rewrite Hn; lia..].
  split; [done|]. cbn in Hid. rewrite Hn in Hid. exact Hid.
Qed.

(** The transactions remembered for a block that fails stay remembered: a transaction
    of the next block at such an index is stored whether or not one of its operations
    was accepted. *)
Theorem failed_block_keeps_accepted_transactions s s' trx_in_block :
  on_block_failed s = (Ok tt, s') ->
  is_trx_accepted (s_filter s') trx_in_block = is_trx_accepted (s_filter s) trx_in_block.
Proof.
  unfold on_block_failed. destruct (revert_to_snapshot _); [|done]. by intros [= <-].
Qed.

(** ** Transactions *)

(** The rows of the accepted transactions, each with its index in the block. *)
Definition accepted {A} (f : @blockchain_filter operation) (n : Z) (g : Z -> full_transaction -> list A)
    (trxs : list full_transaction) : list A :=
  concat (imap (fun i trx => let k := n + Z.of_nat i in if is_trx_accepted f k then g k trx else []) trxs).

Lemma accepted_cons {A} f n (g : Z -> full_transaction -> list A) trx trxs :
  accepted f n g (trx :: trxs) = (if is_trx_accepted f n then g n trx else []) ++ accepted f (n + 1) g trxs.
Proof.
  unfold accepted. cbn. rewrite Z.add_0_r. f_equal. f_equal. apply imap_ext. intros i x _. cbn.
  by replace (n + Z.of_nat (S i)) with (n + 1 + Z.of_nat i) by lia.
Qed.

(** Every accepted transaction of a block becomes one row with its index in the block,
    whether or not transactions before it were accepted, and its signatures are the
    row's signature followed by its rows in the multisig table; the other rows of the
    cache are untouched. *)
Theorem handle_transactions_spec f trxs block_num n c :
  let c' := handle_transactions f trxs block_num n c in
  transactions c' = transactions c ++ accepted f n (fun k trx => [transaction_row trx block_num k]) trxs /\
  transactions_multisig c' = transactions_multisig c ++ accepted f n (fun _ trx => multisig_rows trx block_num) trxs /\
  blocks c' = blocks c /\ operations c' = operations c /\ accounts c' = accounts c /\
  account_operations c' = account_operations c /\ applied_hardforks c' = applied_hardforks c /\
  (forall k trx, option_list (pt_signature (transaction_row trx block_num k)) ++
    map pm_signature (multisig_rows trx block_num) = ft_signatures trx).
Proof.
  cbn zeta.
  assert (forall k trx, option_list (pt_signature (transaction_row trx block_num k)) ++
    map pm_signature (multisig_rows trx block_num) = ft_signatures trx) as Hsig.
  { intros k trx. unfold multisig_rows. cbn. destruct (ft_signatures trx) as [|s1 [|s2 l]]; [done..|].
    cbn. do 2 f_equal. rewrite map_map. cbn. apply map_id. }
  revert n c. induction trxs as [|trx trxs IH]; intros n c; cbn [handle_transactions].
  - unfold accepted. cbn. by rewrite !app_nil_r.
  - rewrite !accepted_cons. destruct (is_trx_accepted f n); cbn [negb].
    + destruct (IH (n + 1) (Build_cached_data_t (blocks c)
        (transactions c ++ [transaction_row trx block_num n])
        (transactions_multisig c ++ multisig_rows trx block_num)
        (operations c) (accounts c) (account_operations c) (applied_hardforks c)
        (total_size c + TRANSACTION_SIZE) (stash c))) as (-> & -> & -> & -> & -> & -> & -> & _).
      cbn. by rewrite <- !app_assoc.
    + apply IH.
Qed.

End serializer.

Module SerializerExamples.

(** Operations are numbers; the even ones are effective. *)
Definition which (op : Z) : Z := op.
Definition view (op : Z) : op_view := OtherOperation.
Definition no_impact (op : Z) : list string * list string := ([], []).
Definition op_id (block pos : Z) : Z := block * 4294967296 + pos.

Definition no_filter : @blockchain_filter Z :=
  {| bf_enabled := false; bf_trx_in_block_filter_accepted := ∅; bf_accounts_filter_tracker := None;
     bf_operations_filter_tracker := None; bf_operations_body_filter_tracker := None |}.

Definition start : @serializer Z :=
  {| s_op_in_block_number := 0; s_collector := new_collector; s_filter := no_filter;
     s_cache := empty_cache; s_custom_json := new_custom_json_type_cache;
     s_operations_blocked := false; s_consecutive_block_failures := 0; s_last_block_num := 0 |}.

Definition note (op : Z) : @operation_notification Z :=
  {| on_op := op; on_block := 5; on_trx_in_block := 0; on_op_in_trx := 0;
     on_find_account := fun _ => None |}.

Definition notify := notify_operations which view no_impact Z.even (fun _ => false) op_id true true true.
Definition keep (n : Z) (c : cached_data_t Z) : outcome serializer_error unit * cached_data_t Z := (Ok tt, c).

Definition notes := [note 2; note 3; note 4].

Lemma operations_are_numbered_by_position_witness :
  map po_operation_id (operations (s_cache (snd (notify notes start)))) = [21474836480; 21474836481].
Proof.
  destruct (operations_are_numbered_by_position which view no_impact Z.even (fun _ => false) op_id true notes
    start (snd (notify notes start)) 5 [] (CacheExamples.block 5) keep
    (fst (on_post_apply_block true 5 [] (CacheExamples.block 5) keep (snd (notify notes start))))
    (snd (on_post_apply_block true 5 [] (CacheExamples.block 5) keep (snd (notify notes start)))))
    as (-> & _); [reflexivity|reflexivity|reflexivity|unfold UINT32_MAX; cbn; lia| | |].
  - vm_compute. reflexivity.
  - vm_compute. reflexivity.
  - vm_compute. reflexivity.
Defined.

Definition failed : @serializer Z := snd (notify notes (unblock_operation_handlers start)).
Definition reverted : @serializer Z := snd (on_block_failed failed).
Definition again : @serializer Z := snd (notify notes (unblock_operation_handlers reverted)).

Lemma failed_block_shifts_positions_witness :
  map po_operation_id (operations (s_cache again)) = [21474836482; 21474836483].
Proof.
  destruct (failed_block_shifts_positions which view no_impact Z.even (fun _ => false) op_id true notes
    start (unblock_operation_handlers start) failed reverted again) as (_ & ->);
    [reflexivity|reflexivity|unfold UINT32_MAX; cbn; lia|reflexivity|vm_compute; reflexivity ..|].
  vm_compute. reflexivity.
Defined.

Lemma failed_block_keeps_accepted_transactions_witness :
  is_trx_accepted (s_filter reverted) 3 = is_trx_accepted (s_filter failed) 3.
Proof. apply failed_block_keeps_accepted_transactions. vm_compute. reflexivity. Defined.

Lemma custom_json_ids_are_unique_witness :
  cj_inv (get_all ["follow"; "reblog"; "follow"]%string new_custom_json_type_cache) /\
  ("notify"%string <> ""%string ->
   fst (get_type_id "notify" (snd (get_type_id "notify"
     (get_all ["follow"; "reblog"; "follow"]%string new_custom_json_type_cache)))) =
   fst (get_type_id "notify" (get_all ["follow"; "reblog"; "follow"]%string new_custom_json_type_cache)) /\
  cj_mapping (snd (get_type_id "notify"
     (get_all ["follow"; "reblog"; "follow"]%string new_custom_json_type_cache))) !! "notify"%string =
   fst (get_type_id "notify" (get_all ["follow"; "reblog"; "follow"]%string new_custom_json_type_cache))).
Proof. apply (custom_json_ids_are_unique ["follow"; "reblog"; "follow"]%string "notify"). cbn. lia. Defined.

Definition nearly_full : custom_json_type_cache :=
  {| cj_mapping := ∅; cj_pending_inserts := []; cj_next_id := 32767 |}.

Lemma custom_json_ids_overflow_witness :
  fst (get_type_id "follow" nearly_full) = Some 32767 /\
  fst (get_type_id "reblog" (snd (get_type_id "follow" nearly_full))) = Some (-32768).
Proof. by apply custom_json_ids_overflow. Defined.

End SerializerExamples.
