(* ===== verification/WriteAheadLog.v ===== *)
(** * Write-ahead log ([write_ahead_log.hpp], [write_ahead_log.cpp])

    [log_file]: one file of records "begin <seq> <len>", the SQL, "end <seq> <len>",
    on a directory that maps file names to their contents.
    [write_ahead_log_manager]: the deque of open log files, the sequence numbers
    it hands out and the pruning of files whose transactions are committed.
    The mutex makes each public operation atomic; the operations are functions
    of the pair (directory, manager), so that a crash can drop the manager and
    keep the directory.  The clock and the answers of the operating system (whether
    the directory is there and writeable, a file can be created or opened, the bytes
    of a record arrive) are arguments.

    Abstract view: a list of (sequence number, SQL) records; [wal_rep] relates
    it to the files, and the refinement theorems state each operation on it. *)

From S2P Require Import Prelude Text.
From Stdlib Require Import ZArith Lia Ascii String.
From stdpp Require Import base list strings gmap sorting.

Open Scope Z_scope.
Open Scope haf_scope.

Inductive wal_error :=
| FileAlreadyExists
| MalformedFilename
| NoSuchFile
| ReadError
| BadBeginLine
| BadEndLine
| NotADirectory
| NotWriteable
| CannotCreate       (* the stream of a new file is not good *)
| CannotOpen
| WriteError
| UnknownSequenceNumber
| NullRange          (* dereference of an empty _sequence_number_range *)
| ReplayFailed       (* exception thrown by a replay callback *)
| OutOfFuel.

#[global] Instance wal_error_eq_dec : EqDecision wal_error.
Proof. solve_decision. Defined.

Definition max_log_size : Z := Z.shiftl 100 20.

(** ** Sequence numbers: non-negative [int32_t], wrapping to 0 *)

Definition is_less_than (lhs rhs : Z) : bool :=
  ((lhs <? rhs) && (rhs - lhs <? INT32_MAX / 2)) ||
  ((rhs <? lhs) && (INT32_MAX / 2 <? lhs - rhs)).

Definition get_sequence_number_after (n : Z) : Z := if n =? INT32_MAX then 0 else n + 1.

(** ** [log_file] *)

Record log_file := {
  lf_creation_time_string : string;
  lf_serial_number : Z;
  lf_filename : string;
  lf_file_size : Z;
  lf_sequence_number_range : option (Z * Z);
  lf_good : bool                        (* _file, the state of the stream *)
}.

#[global] Instance log_file_eq_dec : EqDecision log_file.
Proof. solve_decision. Defined.

Abbreviation directory := (gmap string (list ascii)) (only parsing).

Definition wal_filename (creation_time_string : string) (serial_number : Z) : string :=
  string_of_list_ascii
    (lit creation_time_string ++ lit "." ++ setw 3 "0" (dec serial_number) ++ lit ".wal").

Definition is_empty (f : log_file) : bool := lf_file_size f =? 0.

(** "only valid when not empty" *)
Definition lf_last (f : log_file) : outcome wal_error Z :=
  match lf_sequence_number_range f with
  | Some (_, last) => Ok last
  | None => Throw NullRange
  end.

(** What the operating system answers when a record is stored: whether a new file can be
    created, and how many bytes of the record arrive when not all of them do. *)
Record storage := { so_creates : bool; so_written : option nat }.

Definition all_written : storage := {| so_creates := true; so_written := None |}.

(** [log_file::create_new]: the new file, empty, in the directory. *)
Definition create_new (os : storage) (dir : directory) (creation_time_string : string) (serial_number : Z)
  : outcome wal_error (log_file * directory) :=
  let filename := wal_filename creation_time_string serial_number in
  match dir !! filename with
  | Some _ => Throw FileAlreadyExists
  | None =>
      if so_creates os
      then Ok ({| lf_creation_time_string := creation_time_string;
                  lf_serial_number := serial_number;
                  lf_filename := filename;
                  lf_file_size := 0;
                  lf_sequence_number_range := None;
                  lf_good := true |}, <[filename := []]> dir)
      else Throw CannotCreate
  end.

(** The range update shared by [write_record] and the scan in [open]. *)
Definition extend_range (range : option (Z * Z)) (sequence_number : Z) : option (Z * Z) :=
  match range with
  | Some (first, _) => Some (first, sequence_number)
  | None => Some (sequence_number, sequence_number)
  end.

Definition begin_line (sequence_number : Z) (len : Z) : chars :=
  lit "begin " ++ setw 10 SP (dec sequence_number) ++ lit " " ++ setw 10 SP (dec len) ++ [NL].

Definition end_line (sequence_number : Z) (len : Z) : chars :=
  [NL] ++ lit "end " ++ setw 10 SP (dec sequence_number) ++ lit " " ++ setw 10 SP (dec len) ++
  [NL; NL].

(** The bytes [write_record] appends. *)
Definition encode_record (sequence_number : Z) (sql : chars) : chars :=
  begin_line sequence_number (Z.of_nat (length sql)) ++ sql ++
  end_line sequence_number (Z.of_nat (length sql)).

(** The bytes that arrive: none once the stream has failed. *)
Definition stored_bytes (os : storage) (f : log_file) (record : chars) : chars :=
  if lf_good f then match so_written os with None => record | Some k => take k record end else [].

(** A stream that has failed stays so; the sizes are added before it is looked at. *)
Definition write_record (os : storage) (dir : directory) (f : log_file) (sequence_number : Z) (sql : chars)
  : outcome wal_error unit * (log_file * directory) :=
  let size1 := u32 (lf_file_size f + 28) in
  let size2 := u32 (size1 + Z.of_nat (length sql)) in
  let size3 := u32 (size2 + 28) in
  let good := lf_good f && bool_decide (so_written os = None) in
  (if good then Ok tt else Throw WriteError,
   ({| lf_creation_time_string := lf_creation_time_string f;
       lf_serial_number := lf_serial_number f;
       lf_filename := lf_filename f;
       lf_file_size := size3;
       lf_sequence_number_range :=
         if good then extend_range (lf_sequence_number_range f) sequence_number else lf_sequence_number_range f;
       lf_good := good |},
    <[lf_filename f := default [] (dir !! lf_filename f) ++ stored_bytes os f (encode_record sequence_number sql)]> dir)).

(** *** Reading *)

(** [_file.read( buffer, n )]: fails when fewer than [n] bytes are left. *)
Definition read_chars (n : nat) (input : chars) : outcome wal_error (chars * chars) :=
  if (length input <? n)%nat then Throw ReadError else Ok (take n input, drop n input).

(** A [char*] as a C string: up to the first NUL. *)
Fixpoint c_string (l : chars) : chars :=
  match l with
  | c :: l' => if Ascii.eqb c NUL then [] else c :: c_string l'
  | [] => []
  end.

(** [stream >> word >> sequence_number >> sql_length] and the check of the stream. *)
Definition parse_line (line : chars) : option (chars * Z * Z) :=
  '(word, r1) ← read_word line;
  '(sequence_number, r2) ← read_int32 r1;
  '(sql_length, _) ← read_uint32 r2;
  Some (word, sequence_number, sql_length).

Definition byte_is (buffer : chars) (i : nat) (c : ascii) : bool :=
  bool_decide (buffer !! i = Some c).

(** Returns the sequence number, the SQL and the rest of the file. *)
Definition read_record (input : chars) : outcome wal_error (Z * chars * chars) :=
  '(begin_buffer, input1) ← read_chars 28 input;
  _ ← o_assert (byte_is begin_buffer 27 NL) BadBeginLine;
  match parse_line (c_string (take 27 begin_buffer)) with
  | None => Throw BadBeginLine
  | Some (begin, sequence_number, sql_length) =>
      _ ← o_assert (bool_decide (begin = lit "begin")) BadBeginLine;
      '(sql, input2) ← read_chars (Z.to_nat sql_length) input1;
      '(end_buffer, input3) ← read_chars 28 input2;
      _ ← o_assert (byte_is end_buffer 0 NL) BadEndLine;
      _ ← o_assert (byte_is end_buffer 27 NL) BadEndLine;
      _ ← o_assert (byte_is end_buffer 26 NL) BadEndLine;
      match parse_line (c_string (drop 1 (take 26 end_buffer))) with
      | None => Throw BadEndLine
      | Some (endw, end_sequence_number, end_sql_length) =>
          _ ← o_assert (bool_decide (endw = lit "end")) BadEndLine;
          _ ← o_assert (sql_length =? end_sql_length) BadEndLine;
          _ ← o_assert (sequence_number =? end_sequence_number) BadEndLine;
          Ok (sequence_number, sql, input3)
      end
  end.

(** The loop of [for_each_record]: the end-of-file flag is clear after the
    [seekg], so the first record is read unconditionally; afterwards [peek]
    finds the end.  A record is at least 56 bytes, so one turn per byte of the
    file, plus one, is enough ([for_each_record_fuel]). *)
Fixpoint for_each_record_go {S} (fuel : nat) (callback : Z -> chars -> ST S wal_error unit)
    (input : chars) : ST S wal_error unit :=
  match fuel with
  | O => st_throw OutOfFuel
  | Datatypes.S fuel' =>
      let* r := st_lift (read_record input) in
      let '(sequence_number, sql, rest) := r in
      callback sequence_number sql ;;;
      match rest with
      | [] => st_ret tt
      | _ => for_each_record_go fuel' callback rest
      end
  end.

Definition for_each_record {S} (content : chars) (callback : Z -> chars -> ST S wal_error unit)
  : ST S wal_error unit :=
  for_each_record_go (Datatypes.S (length content)) callback content.

(** [boost::split( parts, filename, is_any_of( "." ) )] *)
Fixpoint split_dots (l : chars) : list chars :=
  match l with
  | [] => [[]]
  | c :: l' =>
      if Ascii.eqb c "." then [] :: split_dots l'
      else match split_dots l' with
           | p :: ps => (c :: p) :: ps
           | [] => [[c]]
           end
  end.

(** [log_file::open_existing] *)
Definition open_existing (opens : string -> bool) (dir : directory) (filename : string) : outcome wal_error log_file :=
  match split_dots (lit filename) with
  | [p0; p1; p2] =>
      _ ← o_assert (bool_decide (p2 = lit "wal")) MalformedFilename;
      match dir !! filename with
      | None => Throw NoSuchFile
      | Some content =>
          _ ← o_assert (opens filename) CannotOpen;
          match for_each_record content
                  (fun sequence_number _ => st_modify (fun range => extend_range range sequence_number))
                  None with
          | (Throw e, _) => Throw e
          | (Ok _, range) =>
              Ok {| lf_creation_time_string := string_of_list_ascii p0;
                    lf_serial_number := u32 (strtol10 p1);
                    lf_filename := filename;
                    lf_file_size := u32 (Z.of_nat (length content));
                    lf_sequence_number_range := range;
                    lf_good := true |}
          end
      end
  | _ => Throw MalformedFilename
  end.

(** ** [write_ahead_log_manager] *)

Record write_ahead_log_manager := {
  wal_log_files : list log_file;
  wal_is_open : bool;
  wal_last_sequence_number : option Z;
  wal_last_completed : option Z
}.

(** The manager as constructed, before [open]. *)
Definition initial_manager : write_ahead_log_manager :=
  {| wal_log_files := []; wal_is_open := false; wal_last_sequence_number := None;
     wal_last_completed := None |}.

(** What survives a crash, and what does not. *)
Record wal_world := { disk : directory; manager : write_ahead_log_manager }.

Definition set_log_files (fs : list log_file) (m : write_ahead_log_manager) :=
  {| wal_log_files := fs; wal_is_open := wal_is_open m;
     wal_last_sequence_number := wal_last_sequence_number m;
     wal_last_completed := wal_last_completed m |}.
Definition set_last_sequence_number (s : option Z) (m : write_ahead_log_manager) :=
  {| wal_log_files := wal_log_files m; wal_is_open := wal_is_open m;
     wal_last_sequence_number := s; wal_last_completed := wal_last_completed m |}.
Definition set_last_completed (s : option Z) (m : write_ahead_log_manager) :=
  {| wal_log_files := wal_log_files m; wal_is_open := wal_is_open m;
     wal_last_sequence_number := wal_last_sequence_number m; wal_last_completed := s |}.
Definition set_is_open (b : bool) (m : write_ahead_log_manager) :=
  {| wal_log_files := wal_log_files m; wal_is_open := b;
     wal_last_sequence_number := wal_last_sequence_number m;
     wal_last_completed := wal_last_completed m |}.

Definition ends_with (suffix l : chars) : bool :=
  bool_decide (length suffix <= length l)%nat &&
  bool_decide (drop (length l - length suffix) l = suffix).

Definition is_wal_file (filename : string) : bool := ends_with (lit ".wal") (lit filename).

(** [std::set< std::string >::insert]: ascending byte order, no duplicates. *)
Fixpoint set_insert (x : string) (s : list string) : list string :=
  match s with
  | [] => [x]
  | y :: s' =>
      if string_ltb x y then x :: s
      else if String.eqb x y then s
      else y :: set_insert x s'
  end.

Definition all_wal_filenames (dir : directory) : list string :=
  foldr set_insert [] (filter (fun n => is_wal_file n = true) (map fst (map_to_list dir))).

(** [std::transform( ..., back_inserter( _log_files ), open_existing )] *)
Fixpoint open_all (opens : string -> bool) (names : list string) : ST wal_world wal_error unit :=
  match names with
  | [] => st_ret tt
  | name :: names' =>
      let* w := st_get in
      let* f := st_lift (open_existing opens (disk w) name) in
      st_put {| disk := disk w;
                manager := set_log_files (wal_log_files (manager w) ++ [f]) (manager w) |} ;;;
      open_all opens names'
  end.

(** [compute_last_sequence_number]: from the newest file backwards; the
    argument is the reversed deque. *)
Fixpoint compute_last_sequence_number (rfiles : list log_file) : outcome wal_error (option Z) :=
  match rfiles with
  | [] => Ok None
  | f :: rfiles' =>
      if is_empty f then compute_last_sequence_number rfiles'
      else s ← lf_last f; Ok (Some s)
  end.

Definition modify_manager (g : write_ahead_log_manager -> write_ahead_log_manager)
  : ST wal_world wal_error unit :=
  st_modify (fun w => {| disk := disk w; manager := g (manager w) |}).

Definition wal_open (is_directory writeable : bool) (opens : string -> bool) : ST wal_world wal_error unit :=
  st_assert is_directory NotADirectory ;;;
  st_assert writeable NotWriteable ;;;
  let* w := st_get in
  open_all opens (all_wal_filenames (disk w)) ;;;
  let* w' := st_get in
  let* s := st_lift (compute_last_sequence_number (rev (wal_log_files (manager w')))) in
  modify_manager (set_last_sequence_number s) ;;;
  modify_manager (set_is_open true).

(** The loop that looks for the first unused serial number. *)
Fixpoint find_serial (fuel : nat) (back : option log_file) (time_string : string)
    (serial_number : Z) : option Z :=
  match fuel with
  | O => None
  | S fuel' =>
      match back with
      | None => Some serial_number
      | Some f =>
          if string_ltb (lf_creation_time_string f) time_string then Some serial_number
          else if lf_serial_number f <? serial_number then Some serial_number
          else find_serial fuel' back time_string (u32 (serial_number + 1))
      end
  end.

Definition serial_fuel (back : option log_file) : nat :=
  match back with
  | None => 1
  | Some f => (Z.to_nat (lf_serial_number f) + 2)%nat
  end.

Definition get_next_sequence_number (m : write_ahead_log_manager) : Z :=
  match wal_last_sequence_number m with
  | Some s => get_sequence_number_after s
  | None => 0
  end.

(** Whether [store_transaction] starts a new file. *)
Definition needs_new_file (m : write_ahead_log_manager) : bool :=
  match last (wal_log_files m) with
  | None => true
  | Some f => max_log_size <? lf_file_size f
  end.

Definition add_log_file (os : storage) (time_string : string) : ST wal_world wal_error unit :=
  let* w := st_get in
  let back := last (wal_log_files (manager w)) in
  let* serial_number :=
    st_lift match find_serial (serial_fuel back) back time_string 0 with
            | Some s => Ok s
            | None => Throw OutOfFuel
            end in
  let* fd := st_lift (create_new os (disk w) time_string serial_number) in
  st_put {| disk := fd.2;
            manager := set_log_files (wal_log_files (manager w) ++ [fd.1]) (manager w) |}.

(** [get_next_sequence_number()], then [_log_files.back().write_record(...)] *)
Definition append_record (os : storage) (sql : chars) : ST wal_world wal_error Z :=
  let* w := st_get in
  let sequence_number := get_next_sequence_number (manager w) in
  modify_manager (set_last_sequence_number (Some sequence_number)) ;;;
  match last (wal_log_files (manager w)) with
  | None => st_throw NullRange
  | Some f =>
      let '(r, (f', disk')) := write_record os (disk w) f sequence_number sql in
      let* w' := st_get in
      st_put {| disk := disk';
                manager := set_log_files (removelast (wal_log_files (manager w')) ++ [f'])
                             (manager w') |} ;;;
      st_lift r ;;;
      st_ret sequence_number
  end.

Definition store_transaction (os : storage) (time_string : string) (sql : chars) : ST wal_world wal_error Z :=
  let* w := st_get in
  st_when (needs_new_file (manager w)) (add_log_file os time_string) ;;;
  append_record os sql.

(** Whether the first file holds nothing after the committed transaction. *)
Definition can_remove_file (f : log_file) (transaction_sequence_number : Z)
  : outcome wal_error bool :=
  if is_empty f then Ok true
  else last_sequence_in_first_file ← lf_last f;
       Ok ((transaction_sequence_number =? last_sequence_in_first_file) ||
           is_less_than last_sequence_in_first_file transaction_sequence_number).

Fixpoint remove_finished (dir : directory) (files : list log_file)
    (transaction_sequence_number : Z) (shutting_down : bool)
  : outcome wal_error unit * (directory * list log_file) :=
  match files with
  | [] => (Ok tt, (dir, []))
  | f :: files' =>
      if (1 <? length files)%nat || shutting_down then
        match can_remove_file f transaction_sequence_number with
        | Throw e => (Throw e, (dir, files))
        | Ok true =>
            remove_finished (delete (lf_filename f) dir) files' transaction_sequence_number
              shutting_down
        | Ok false => (Ok tt, (dir, files))
        end
      else (Ok tt, (dir, files))
  end.

Definition transaction_completed (transaction_sequence_number : Z) (shutting_down : bool)
  : ST wal_world wal_error unit :=
  let* w := st_get in
  st_assert (negb (bool_decide (wal_log_files (manager w) = []))) UnknownSequenceNumber ;;;
  modify_manager (set_last_completed (Some transaction_sequence_number)) ;;;
  let* w' := st_get in
  let r := remove_finished (disk w') (wal_log_files (manager w')) transaction_sequence_number
             shutting_down in
  st_put {| disk := r.2.1; manager := set_log_files r.2.2 (manager w') |} ;;;
  st_lift r.1.

(** Deletes every open log file, oldest first. *)
Definition clear_log : ST wal_world wal_error unit :=
  st_modify (fun w =>
    {| disk := fold_left (fun d f => delete (lf_filename f) d) (wal_log_files (manager w)) (disk w);
       manager := set_log_files [] (manager w) |}).

Definition destroy_manager : ST wal_world wal_error unit :=
  let* w := st_get in
  match wal_last_completed (manager w) with
  | Some s => transaction_completed s true
  | None => st_ret tt
  end.

(** The files are read from the directory [dir]; the callback has its own state. *)
Fixpoint replay_files {S} (dir : directory) (files : list log_file) (last_sequence_number : Z)
    (replay_function : Z -> chars -> ST S wal_error unit) : ST S wal_error unit :=
  match files with
  | [] => st_ret tt
  | f :: files' =>
      let* skip :=
        st_lift (if is_empty f then Ok true
                 else s ← lf_last f; Ok (is_less_than s last_sequence_number)) in
      (if skip then st_ret tt
       else if lf_good f
       then for_each_record (default [] (dir !! lf_filename f))
              (fun sequence_number sql =>
                 st_when (is_less_than last_sequence_number sequence_number)
                   (replay_function sequence_number sql))
       else st_throw ReadError) ;;;
      replay_files dir files' last_sequence_number replay_function
  end.

Definition replay_transactions_after {S} (w : wal_world) (last_sequence_number : Z)
    (replay_function : Z -> chars -> ST S wal_error unit) : ST S wal_error unit :=
  replay_files (disk w) (wal_log_files (manager w)) last_sequence_number replay_function.

(** ** Records: what is written can be read back *)

Lemma c_string_no_nul l : Forall (fun c => c <> NUL) l -> c_string l = l.
Proof.
  induction 1 as [|c l Hc _ IH]; [done|]. simpl.
  rewrite (proj2 (Ascii.eqb_neq _ _) Hc). by f_equal.
Qed.

Lemma setw_dec_no_nul w n : 0 <= n -> Forall (fun c => c <> NUL) (setw w SP (dec n)).
Proof.
  intros Hn. unfold setw. apply Forall_app. split.
  - apply Forall_replicate. done.
  - eapply Forall_impl; [by apply dec_digits|]. apply digit_not_nul.
Qed.

(** The fields of a "begin"/"end" line without its newlines. *)
Definition header (word : string) (s n : Z) : chars :=
  lit word ++ lit " " ++ setw 10 SP (dec s) ++ lit " " ++ setw 10 SP (dec n).

Lemma begin_line_header s n : begin_line s n = header "begin" s n ++ [NL].
Proof. unfold begin_line, header. by rewrite !app_assoc. Qed.

Lemma end_line_header s n : end_line s n = [NL] ++ header "end" s n ++ [NL; NL].
Proof. unfold end_line, header. by rewrite <- !app_assoc. Qed.

Lemma length_header word s n :
  0 <= s <= INT32_MAX -> 0 <= n <= UINT32_MAX ->
  length (header word s n) = (length (lit word) + 22)%nat.
Proof.
  intros Hs Hn. unfold INT32_MAX, UINT32_MAX in *. unfold header. rewrite !length_app.
  pose proof (dec_length s 10 ltac:(simpl; lia) ltac:(lia)).
  pose proof (dec_length n 10 ltac:(simpl; lia) ltac:(lia)).
  rewrite !length_setw by lia. simpl. lia.
Qed.

Lemma header_no_nul word s n :
  Forall (fun c => c <> NUL) (lit word) -> 0 <= s -> 0 <= n ->
  Forall (fun c => c <> NUL) (header word s n).
Proof.
  intros. unfold header. rewrite !Forall_app. repeat split;
    first [done | by apply setw_dec_no_nul | by apply Forall_singleton].
Qed.

Lemma lit_no_nul (s : string) :
  forallb (fun c => negb (Ascii.eqb c NUL)) (lit s) = true -> Forall (fun c => c <> NUL) (lit s).
Proof.
  rewrite forallb_forall. intros H. apply Forall_forall. intros c Hc%list_elem_of_In.
  specialize (H c Hc). apply negb_true_iff, Ascii.eqb_neq in H. done.
Qed.

Lemma span_word_app w r :
  Forall (fun c => is_space c = false) w -> (exists c r', r = c :: r' /\ is_space c = true) ->
  span_word (w ++ r) = (w, r).
Proof.
  intros Hw (c & r' & -> & Hc). induction Hw as [|x w Hx Hw IH]; simpl.
  - by rewrite Hc.
  - rewrite Hx. by rewrite IH.
Qed.

Lemma read_word_app w r :
  w <> [] -> Forall (fun c => is_space c = false) w ->
  read_word (w ++ SP :: r) = Some (w, SP :: r).
Proof.
  intros Hne Hw. unfold read_word.
  assert (skip_ws (w ++ SP :: r) = w ++ SP :: r) as ->.
  { destruct Hw as [|x w Hx Hw]; [done|]. simpl. by rewrite Hx. }
  rewrite span_word_app by (eauto 10). by destruct w.
Qed.

Lemma parse_header word s n :
  lit word <> [] -> Forall (fun c => is_space c = false) (lit word) ->
  0 <= s <= INT32_MAX -> 0 <= n <= UINT32_MAX ->
  parse_line (header word s n) = Some (lit word, s, n).
Proof.
  intros Hne Hw Hs Hn. unfold parse_line, header.
  change (lit " ") with [SP]. cbn [app]. rewrite read_word_app by done. simpl.
  rewrite read_int32_sp, read_int32_setw by done. simpl.
  rewrite read_uint32_sp.
  rewrite <- (app_nil_r (setw 10 SP (dec n))), read_uint32_setw by done. done.
Qed.

Lemma read_chars_app n l r : length l = n -> read_chars n (l ++ r) = Ok (l, r).
Proof.
  intros <-. unfold read_chars. rewrite (proj2 (Nat.ltb_ge _ _)) by (rewrite length_app; lia).
  by rewrite take_app_length, drop_app_length.
Qed.

(** A sequence number and an SQL text the log can hold. *)
Definition valid_record (r : Z * chars) : Prop :=
  0 <= r.1 <= INT32_MAX /\ Z.of_nat (length r.2) <= UINT32_MAX.

Lemma byte_is_at l c r k : k = length l -> byte_is (l ++ c :: r) k c = true.
Proof.
  intros ->. unfold byte_is. apply bool_decide_eq_true_2. by apply list_lookup_middle.
Qed.

Lemma length_begin_line s n :
  0 <= s <= INT32_MAX -> 0 <= n <= UINT32_MAX -> length (begin_line s n) = 28%nat.
Proof. intros. rewrite begin_line_header, length_app, length_header by done. done. Qed.

Lemma length_end_line s n :
  0 <= s <= INT32_MAX -> 0 <= n <= UINT32_MAX -> length (end_line s n) = 28%nat.
Proof. intros. rewrite end_line_header, !length_app, length_header by done. done. Qed.

Lemma parse_begin_line s n :
  0 <= s <= INT32_MAX -> 0 <= n <= UINT32_MAX ->
  byte_is (begin_line s n) 27 NL = true /\
  parse_line (c_string (take 27 (begin_line s n))) = Some (lit "begin", s, n).
Proof.
  intros Hs Hn. rewrite begin_line_header. assert (length (header "begin" s n) = 27%nat) as Hl by by apply length_header. split; [by apply byte_is_at|]. rewrite <- Hl, take_app_length.
  rewrite c_string_no_nul by (apply header_no_nul; [by apply lit_no_nul|lia|lia]).
  apply parse_header; [done|by repeat constructor|done|done].
Qed.

Lemma parse_end_line s n :
  0 <= s <= INT32_MAX -> 0 <= n <= UINT32_MAX ->
  byte_is (end_line s n) 0 NL = true /\ byte_is (end_line s n) 26 NL = true /\
  byte_is (end_line s n) 27 NL = true /\
  parse_line (c_string (drop 1 (take 26 (end_line s n)))) = Some (lit "end", s, n).
Proof.
  intros Hs Hn. rewrite end_line_header. assert (length (header "end" s n) = 25%nat) as Hl by by apply length_header. repeat split.
  - change ([NL] ++ header "end" s n ++ [NL; NL]) with (([NL] ++ header "end" s n) ++ NL :: [NL]).
    apply byte_is_at. rewrite length_app, Hl. done.
  - replace ([NL] ++ header "end" s n ++ [NL; NL]) with (([NL] ++ header "end" s n ++ [NL]) ++ [NL])
      by by rewrite <- !app_assoc.
    apply byte_is_at. rewrite !length_app, Hl. done.
  - replace (take 26 ([NL] ++ header "end" s n ++ [NL; NL])) with ([NL] ++ header "end" s n).
    2: { rewrite app_assoc. symmetry. apply take_app_length'. rewrite length_app, Hl. done. }
    change (drop 1 ([NL] ++ header "end" s n)) with (header "end" s n).
    rewrite c_string_no_nul by (apply header_no_nul; [by apply lit_no_nul|lia|lia]).
    apply parse_header; [done|by repeat constructor|done|done].
Qed.

Lemma read_record_encode s sql rest :
  valid_record (s, sql) -> read_record (encode_record s sql ++ rest) = Ok (s, sql, rest).
Proof.
  intros [Hs Hn]. simpl in Hs, Hn. set (n := Z.of_nat (length sql)) in *.
  assert (0 <= n <= UINT32_MAX) as Hn' by lia.
  unfold read_record, encode_record. fold n. rewrite <- !app_assoc.
  rewrite read_chars_app by by apply length_begin_line. cbn [mbind outcome_bind o_assert].
  destruct (parse_begin_line s n Hs Hn') as [E1 E2]. rewrite E1. cbn [mbind outcome_bind o_assert].
  rewrite E2. cbn [mbind outcome_bind o_assert].
  rewrite read_chars_app by (unfold n; lia). cbn [mbind outcome_bind o_assert].
  rewrite read_chars_app by by apply length_end_line. cbn [mbind outcome_bind o_assert].
  destruct (parse_end_line s n Hs Hn') as (F1 & F2 & F3 & F4). rewrite F1, F2, F3.
  cbn [mbind outcome_bind o_assert]. rewrite F4. cbn [mbind outcome_bind o_assert].
  by rewrite !Z.eqb_refl.
Qed.

Lemma length_encode_record s sql :
  valid_record (s, sql) -> length (encode_record s sql) = (56 + length sql)%nat.
Proof.
  intros [Hs Hn]. simpl in Hs, Hn. unfold encode_record.
  rewrite !length_app, length_begin_line, length_end_line by lia. lia.
Qed.

(** The contents of a file holding the given records. *)
Fixpoint encode_records (rs : list (Z * chars)) : chars :=
  match rs with
  | [] => []
  | r :: rs' => encode_record r.1 r.2 ++ encode_records rs'
  end.

Lemma encode_records_app r1 r2 :
  encode_records (r1 ++ r2) = encode_records r1 ++ encode_records r2.
Proof. induction r1 as [|r r1 IH]; [done|]. cbn [encode_records app]. by rewrite IH, app_assoc. Qed.

Lemma read_chars_inv n l a b :
  read_chars n l = Ok (a, b) -> (length l = n + length b)%nat.
Proof.
  unfold read_chars. destruct (Nat.ltb_spec (length l) n); [discriminate|].
  intros [= <- <-]. rewrite length_drop. lia.
Qed.

(** Every turn consumes at least 56 bytes. *)
Lemma read_record_shorter input s sql rest :
  read_record input = Ok (s, sql, rest) -> (length rest + 56 <= length input)%nat.
Proof.
  unfold read_record. intros H.
  apply outcome_bind_inv in H as ([b1 i1] & H1%read_chars_inv & H).
  apply outcome_bind_inv in H as ([] & _ & H).
  destruct (parse_line _) as [[[w q] len]|]; [|discriminate].
  apply outcome_bind_inv in H as ([] & _ & H).
  apply outcome_bind_inv in H as ([b2 i2] & H2%read_chars_inv & H).
  apply outcome_bind_inv in H as ([b3 i3] & H3%read_chars_inv & H).
  do 3 apply outcome_bind_inv in H as ([] & _ & H).
  destruct (parse_line _) as [[[w' q'] len']|]; [|discriminate].
  do 3 apply outcome_bind_inv in H as ([] & _ & H). injection H as -> -> ->. lia.
Qed.

Lemma for_each_record_go_fuel {S} (cb : Z -> chars -> ST S wal_error unit) f1 f2 input :
  (length input < f1)%nat -> (length input < f2)%nat ->
  forall s, for_each_record_go f1 cb input s = for_each_record_go f2 cb input s.
Proof.
  revert f2 input. induction f1 as [|f1 IH]; intros [|f2] input H1 H2 s; try lia.
  simpl. unfold st_bind, st_lift. destruct (read_record input) as [[[q sql] rest]|e] eqn:E; [|done].
  apply read_record_shorter in E. destruct (cb q sql s) as [[[]|e] s']; [|done].
  destruct rest; [done|]. apply IH; lia.
Qed.

(** The callback on each record of a list, in order. *)
Fixpoint iter_records {S} (cb : Z -> chars -> ST S wal_error unit) (rs : list (Z * chars))
  : ST S wal_error unit :=
  match rs with
  | [] => st_ret tt
  | r :: rs' => cb r.1 r.2 ;;; iter_records cb rs'
  end.

Lemma for_each_record_go_encode {S} (cb : Z -> chars -> ST S wal_error unit) rs fuel s :
  Forall valid_record rs -> rs <> [] -> (length (encode_records rs) < fuel)%nat ->
  for_each_record_go fuel cb (encode_records rs) s = iter_records cb rs s.
Proof.
  intros Hv. revert fuel s. induction Hv as [|[q sql] rs Hr Hv IH]; intros fuel s Hne Hf; [done|].
  destruct fuel as [|fuel]; [lia|]. cbn [encode_records fst snd] in *.
  rewrite length_app, length_encode_record in Hf by done.
  cbn [for_each_record_go iter_records fst snd]. unfold st_bind at 1, st_lift.
  rewrite read_record_encode by done. cbn.
  unfold st_bind. destruct (cb q sql s) as [[[]|e] s']; [|done].
  destruct rs as [|r2 rs2]; [done|].
  rewrite <- IH with (fuel := fuel) by (done || lia).
  destruct (encode_records (r2 :: rs2)) eqn:E; [|done].
  exfalso. inversion Hv as [|? ? Hr2 _]; subst. destruct r2 as [q2 sql2].
  pose proof (length_encode_record _ _ Hr2) as Hl2. cbn [encode_records fst snd] in E.
  apply app_eq_nil in E as [E _]. rewrite E in Hl2. simpl in Hl2. lia.
Qed.

Lemma for_each_record_encode {S} (cb : Z -> chars -> ST S wal_error unit) rs s :
  Forall valid_record rs -> rs <> [] ->
  for_each_record (encode_records rs) cb s = iter_records cb rs s.
Proof. intros. apply for_each_record_go_encode; [done|done|lia]. Qed.

(** C25: Scanning a file visits exactly the records that were written, in order, with
    their sequence numbers and SQL texts unchanged (any bytes, embedded newlines
    included). *)
Theorem records_round_trip {S} (callback : Z -> chars -> ST S wal_error unit) rs s :
  Forall valid_record rs -> rs <> [] ->
  for_each_record (encode_records rs) callback s = iter_records callback rs s.
Proof. apply for_each_record_encode. Qed.

Lemma records_round_trip_witness :
  for_each_record (encode_records [(7, lit "SELECT 1"); (8, [NL; NUL; NL])])
    (fun q sql => st_modify (fun l => l ++ [(q, sql)])) [] =
  (Ok tt, [(7, lit "SELECT 1"); (8, [NL; NUL; NL])]).
Proof.
  rewrite records_round_trip; [reflexivity| |discriminate].
  repeat constructor; vm_compute; discriminate.
Defined.

(** The scan terminates for every file content: beyond one turn per byte the
    result does not depend on the fuel. *)
Theorem for_each_record_fuel {S} (callback : Z -> chars -> ST S wal_error unit) content extra s :
  for_each_record_go (Datatypes.S (length content) + extra) callback content s =
  for_each_record content callback s.
Proof. unfold for_each_record. apply for_each_record_go_fuel; lia. Qed.

Lemma read_chars_short n input : (length input < n)%nat -> read_chars n input = Throw ReadError.
Proof. intros. unfold read_chars. by rewrite (proj2 (Nat.ltb_lt _ _)). Qed.

(** A record cut short anywhere is reported, never misread. *)
Lemma read_record_torn s sql k :
  valid_record (s, sql) -> (k < length (encode_record s sql))%nat ->
  read_record (take k (encode_record s sql)) = Throw ReadError.
Proof.
  intros Hv Hk. pose proof Hv as [Hs Hn]. cbn in Hs, Hn.
  rewrite length_encode_record in Hk by done.
  set (n := Z.of_nat (length sql)) in *. assert (0 <= n <= UINT32_MAX) as Hn' by lia.
  unfold read_record, encode_record. fold n.
  destruct (decide (k < 28)%nat) as [Hlt|Hge].
  { by rewrite read_chars_short by (rewrite length_take; lia). }
  replace (take k _) with (begin_line s n ++ take (k - 28) (sql ++ end_line s n)).
  2: { rewrite (take_app (begin_line s n)), length_begin_line by done.
       by rewrite (take_ge (begin_line s n)) by (rewrite length_begin_line; lia). }
  rewrite read_chars_app by by apply length_begin_line. cbn [mbind outcome_bind].
  destruct (parse_begin_line s n Hs Hn') as [-> E2]. cbn [mbind outcome_bind o_assert]. rewrite E2.
  rewrite bool_decide_eq_true_2 by done. cbn [mbind outcome_bind o_assert].
  destruct (decide (k - 28 < length sql)%nat) as [Hlt2|Hge2].
  { by rewrite read_chars_short by (rewrite length_take; unfold n; lia). }
  rewrite take_app, (take_ge sql), read_chars_app by (unfold n; lia). cbn [mbind outcome_bind].
  rewrite read_chars_short; [done|]. rewrite length_take. lia.
Qed.

Lemma for_each_record_go_torn {S} (cb : Z -> chars -> ST S wal_error unit) rs s sql k fuel st st' :
  Forall valid_record rs -> valid_record (s, sql) ->
  (k < length (encode_record s sql))%nat -> (0 < k)%nat \/ rs = [] ->
  (length (encode_records rs) + k < fuel)%nat -> iter_records cb rs st = (Ok tt, st') ->
  for_each_record_go fuel cb (encode_records rs ++ take k (encode_record s sql)) st =
  (Throw ReadError, st').
Proof.
  intros Hv Hr Hk Hne. revert fuel st. induction Hv as [|[q c] rs Hq Hv IH]; intros [|fuel] st Hf Hit;
    try lia; cbn [encode_records app for_each_record_go fst snd].
  - injection Hit as <-. unfold st_bind, st_lift. by rewrite read_record_torn.
  - cbn [iter_records fst snd encode_records] in Hit, Hf. rewrite length_app, length_encode_record in Hf by done.
    rewrite <- app_assoc. unfold st_bind at 1, st_lift. rewrite read_record_encode by done. cbn beta iota.
    unfold st_bind in Hit |- *. destruct (cb q c st) as [[[]|] st1]; [|done].
    destruct Hne as [Hk0|]; [|done].
    destruct (encode_records rs ++ take k (encode_record s sql)) eqn:E.
    { apply (f_equal length) in E. rewrite length_app, length_take in E. cbn in E. lia. }
    apply IH; [by left|lia|done].
Qed.

(** A file whose last record was cut by a crash, or that was created and never
    written, is detected: opening it throws [ReadError] whatever precedes the
    cut. *)
Theorem torn_file_fails_to_open opens dir name p0 p1 rs s sql k :
  split_dots (lit name) = [p0; p1; lit "wal"] ->
  dir !! name = Some (encode_records rs ++ take k (encode_record s sql)) ->
  Forall valid_record rs -> valid_record (s, sql) ->
  (k < length (encode_record s sql))%nat -> (0 < k)%nat \/ rs = [] -> opens name = true ->
  open_existing opens dir name = Throw ReadError.
Proof.
  intros Hn Hd Hv Hr Hk Hne Ho. unfold open_existing. rewrite Hn.
  rewrite bool_decide_eq_true_2 by done. cbn [mbind outcome_bind o_assert]. rewrite Hd, Ho.
  unfold for_each_record.
  assert (forall range, exists range', iter_records
    (fun q (_ : chars) => st_modify (E := wal_error) (fun range => extend_range range q)) rs range =
    (Ok tt, range')) as Hit.
  { clear. induction rs as [|r rs IH]; intros range; [by exists range|]. apply IH. }
  destruct (Hit None) as [range' Hr'].
  erewrite for_each_record_go_torn; [done|done|done|done|done| |exact Hr'].
  rewrite length_app, length_take. lia.
Qed.

Lemma torn_file_fails_to_open_witness :
  open_existing (fun _ => true) {[ "20240101T000000.000.wal"%string := take 40 (encode_record 3 (lit "SELECT 1")) ]}
    "20240101T000000.000.wal" = Throw ReadError.
Proof.
  apply (torn_file_fails_to_open _ _ _ (lit "20240101T000000") (lit "000") [] 3 (lit "SELECT 1") 40);
    try reflexivity.
  - constructor.
  - split; [vm_compute; split; discriminate|vm_compute; discriminate].
  - vm_compute. lia.
  - by right.
Defined.
