(* ===== verification/WalRefinement.v ===== *)
(** * The write-ahead log as a log of records

    Abstract view of [WriteAheadLog]: consecutive sequence numbers on a circle of
    2^31 and, per open file, the list of records it holds ([wal_rep]).  The
    theorems refine the manager's operations to list operations: storing appends
    one record, completing drops whole files of committed records, replaying
    visits the records after a position, and opening the directory of a crashed
    run recovers the log. *)

From S2P Require Import Prelude Text WriteAheadLog.
From Stdlib Require Import ZArith Lia Ascii String.
From stdpp Require Import base list strings gmap sorting.

Open Scope Z_scope.
Open Scope haf_scope.

(** ** Sequence numbers as positions on a circle of 2^31 *)

Definition SEQ_MOD : Z := 2147483648.

(** [advance s k]: the sequence number [k] transactions after [s]. *)
Definition advance (s k : Z) : Z := (s + k) mod SEQ_MOD.

(** The log may hold this many transactions before the comparison of sequence
    numbers loses its meaning. *)
Definition SEQ_WINDOW : Z := 1073741822.

Lemma advance_range s k : 0 <= advance s k <= INT32_MAX.
Proof.
  unfold advance, SEQ_MOD, INT32_MAX. pose proof (Z.mod_pos_bound (s + k) 2147483648). lia.
Qed.

Lemma advance_0 s : 0 <= s <= INT32_MAX -> advance s 0 = s.
Proof. unfold advance, INT32_MAX, SEQ_MOD. intros. rewrite Z.mod_small; lia. Qed.

Lemma advance_advance s j k : advance (advance s j) k = advance s (j + k).
Proof. unfold advance. rewrite Zplus_mod_idemp_l. f_equal. lia. Qed.

Lemma get_sequence_number_after_advance s :
  0 <= s <= INT32_MAX -> get_sequence_number_after s = advance s 1.
Proof.
  unfold get_sequence_number_after, advance, INT32_MAX, SEQ_MOD. intros.
  destruct (Z.eqb_spec s 2147483647) as [->|]; [done|]. rewrite Z.mod_small; lia.
Qed.

Lemma is_less_than_forward s k :
  0 <= s <= INT32_MAX -> 0 <= k <= SEQ_WINDOW -> is_less_than s (advance s k) = (0 <? k).
Proof.
  unfold is_less_than, advance, INT32_MAX, SEQ_MOD, SEQ_WINDOW. intros Hs Hk.
  change (2147483647 / 2) with 1073741823.
  destruct (decide (s + k < 2147483648)).
  - rewrite Z.mod_small by lia. lia.
  - replace (s + k) with (s + k - 2147483648 + 1 * 2147483648) by lia.
    rewrite Z_mod_plus_full, Z.mod_small by lia. lia.
Qed.

Lemma is_less_than_backward s k :
  0 <= s <= INT32_MAX -> 0 <= k <= SEQ_WINDOW + 1 -> is_less_than (advance s k) s = false.
Proof.
  unfold is_less_than, advance, INT32_MAX, SEQ_MOD, SEQ_WINDOW. intros Hs Hk.
  change (2147483647 / 2) with 1073741823.
  destruct (decide (s + k < 2147483648)).
  - rewrite Z.mod_small by lia. lia.
  - replace (s + k) with (s + k - 2147483648 + 1 * 2147483648) by lia.
    rewrite Z_mod_plus_full, Z.mod_small by lia. lia.
Qed.

(** Comparison of two positions of one log. *)
Lemma is_less_than_advance s j k :
  j - k <= SEQ_WINDOW + 1 -> k - j <= SEQ_WINDOW ->
  is_less_than (advance s j) (advance s k) = (j <? k).
Proof.
  intros Hj Hk. destruct (Z.ltb_spec j k).
  - replace (advance s k) with (advance (advance s j) (k - j))
      by (rewrite advance_advance; f_equal; lia).
    rewrite is_less_than_forward by (apply advance_range || lia). lia.
  - replace (advance s j) with (advance (advance s k) (j - k))
      by (rewrite advance_advance; f_equal; lia).
    apply is_less_than_backward; [apply advance_range|lia].
Qed.

Lemma advance_eqb s j k :
  j - k <= SEQ_WINDOW -> k - j <= SEQ_WINDOW -> (advance s j =? advance s k) = (j =? k).
Proof.
  unfold SEQ_WINDOW. intros. destruct (Z.eqb_spec j k) as [->|]; [apply Z.eqb_refl|].
  apply Z.eqb_neq. unfold advance, SEQ_MOD. intros E.
  apply (f_equal (fun x => (x - (s + k) mod 2147483648) mod 2147483648)) in E.
  rewrite Zminus_mod_idemp_l, Zminus_mod_idemp_r, Z.sub_diag in E.
  rewrite Z.mod_0_l in E by lia.
  apply Z.mod_divide in E as [q Hq]; [|lia]. lia.
Qed.

(** Records numbered consecutively from [s]. *)
Fixpoint numbered (s : Z) (rs : list (Z * chars)) : Prop :=
  match rs with
  | [] => True
  | r :: rs' => r.1 = s /\ numbered (get_sequence_number_after s) rs'
  end.

Lemma numbered_app s r1 r2 :
  0 <= s <= INT32_MAX ->
  numbered s (r1 ++ r2) <-> numbered s r1 /\ numbered (advance s (Z.of_nat (length r1))) r2.
Proof.
  revert s. induction r1 as [|r r1 IH]; intros s Hs; cbn [numbered app length].
  - rewrite advance_0 by done. tauto.
  - rewrite get_sequence_number_after_advance by done.
    rewrite IH by apply advance_range. rewrite advance_advance.
    replace (1 + Z.of_nat (length r1)) with (Z.of_nat (S (length r1))) by lia. tauto.
Qed.

Lemma numbered_last s r1 r :
  0 <= s <= INT32_MAX -> numbered s (r1 ++ [r]) -> r.1 = advance s (Z.of_nat (length r1)).
Proof. intros Hs H. apply numbered_app in H as [_ [H _]]; done. Qed.

(** ** The files as a log of records *)

Definition range_of (rs : list (Z * chars)) : option (Z * Z) :=
  fold_left (fun range r => extend_range range r.1) rs None.

Lemma range_of_snoc rs r : range_of (rs ++ [r]) = extend_range (range_of rs) r.1.
Proof. unfold range_of. by rewrite fold_left_app. Qed.

Lemma range_of_last rs r : exists first, range_of (rs ++ [r]) = Some (first, r.1).
Proof. rewrite range_of_snoc. destruct (range_of rs) as [[]|]; simpl; eauto. Qed.

(** A creation time as [to_iso_string] prints it: fixed width and without dots. *)
Definition time_ok (t : string) : Prop := length (lit t) = 15%nat /\ "."%char ∉ lit t.

(** The open file [f] holds the records [rs]. *)
Definition file_rep (dir : directory) (f : log_file) (rs : list (Z * chars)) : Prop :=
  dir !! lf_filename f = Some (encode_records rs) /\ Forall valid_record rs /\ rs <> [] /\
  lf_file_size f = Z.of_nat (length (encode_records rs)) /\ lf_file_size f <= UINT32_MAX /\
  lf_sequence_number_range f = range_of rs /\
  lf_filename f = wal_filename (lf_creation_time_string f) (lf_serial_number f) /\
  time_ok (lf_creation_time_string f) /\ 0 <= lf_serial_number f < 1000 /\ lf_good f = true.

Definition file_before (f g : log_file) : Prop :=
  string_ltb (lf_filename f) (lf_filename g) = true.

(** The abstract log of a manager: per file, in the order of the deque.  The
    open files are all the log files of the directory, their names increase,
    and the sequence numbers are consecutive from [s]. *)
Record wal_rep (w : wal_world) (s : Z) (rss : list (list (Z * chars))) : Prop := {
  rep_files : Forall2 (file_rep (disk w)) (wal_log_files (manager w)) rss;
  rep_names : StronglySorted file_before (wal_log_files (manager w));
  rep_all : forall n, is_wal_file n = true -> is_Some (disk w !! n) ->
              n ∈ map lf_filename (wal_log_files (manager w));
  rep_seq : 0 <= s <= INT32_MAX;
  rep_numbered : numbered s (concat rss);
  rep_last : forall r, last (concat rss) = Some r -> wal_last_sequence_number (manager w) = Some r.1;
  rep_next : forall q, wal_last_sequence_number (manager w) = Some q -> 0 <= q <= INT32_MAX
}.

Lemma encode_records_nonempty rs : Forall valid_record rs -> rs <> [] -> encode_records rs <> [].
Proof.
  intros Hv Hne E. destruct Hv as [|[q sql] rs Hr Hv]; [done|].
  cbn [encode_records] in E. apply app_eq_nil in E as [E _].
  pose proof (length_encode_record _ _ Hr) as Hl. simpl in E. rewrite E in Hl. simpl in Hl. lia.
Qed.

Lemma file_rep_not_empty dir f rs : file_rep dir f rs -> is_empty f = false.
Proof.
  intros (_ & Hv & Hne & Hs & _). unfold is_empty. rewrite Hs.
  pose proof (encode_records_nonempty rs Hv Hne). destruct (encode_records rs); [done|]. simpl. lia.
Qed.

Lemma file_rep_last dir f rs r : file_rep dir f (rs ++ [r]) -> lf_last f = Ok r.1.
Proof.
  intros (_ & _ & _ & _ & _ & Hr & _). unfold lf_last. rewrite Hr.
  destruct (range_of_last rs r) as [first ->]. done.
Qed.

(** In terms of positions: the last record of a file of [k] records numbered from [s]. *)
Lemma file_rep_last_numbered dir f rs s :
  0 <= s <= INT32_MAX -> file_rep dir f rs -> numbered s rs ->
  lf_last f = Ok (advance s (Z.of_nat (length rs) - 1)).
Proof.
  intros Hs Hf Hn. destruct rs as [|r0 rs0 _] using rev_ind.
  - destruct Hf as (_ & _ & Hne & _). done.
  - rewrite (file_rep_last _ _ _ _ Hf), (numbered_last s rs0 r0 Hs Hn).
    f_equal. f_equal. rewrite length_app. simpl. lia.
Qed.

(** *** Replay *)

Lemma iter_records_when {S} (cb : Z -> chars -> ST S wal_error unit) (p : Z -> bool) rs1 rs2 st :
  Forall (fun r => p r.1 = false) rs1 -> Forall (fun r => p r.1 = true) rs2 ->
  iter_records (fun q sql => st_when (p q) (cb q sql)) (rs1 ++ rs2) st = iter_records cb rs2 st.
Proof.
  intros H1 H2. induction H1 as [|r rs1 Hr _ IH]; cbn [app].
  - revert st. induction H2 as [|r rs2 Hr _ IH]; intros st; [done|]. cbn [iter_records].
    rewrite Hr. cbn [st_when]. unfold st_bind.
    destruct (cb r.1 r.2 st) as [[[]|] st']; [apply IH|done].
  - cbn [iter_records]. rewrite Hr. cbn [st_when]. apply IH.
Qed.

Lemma iter_records_app {S} (cb : Z -> chars -> ST S wal_error unit) rs1 rs2 st :
  iter_records cb (rs1 ++ rs2) st = (iter_records cb rs1 ;;; iter_records cb rs2) st.
Proof.
  revert st. induction rs1 as [|r rs1 IH]; intros st; [done|]. cbn [app iter_records].
  unfold st_bind in *. destruct (cb r.1 r.2 st) as [[[]|] st']; [apply IH|done].
Qed.

(** Which records come after position [i]. *)
Lemma numbered_less_than s rs i :
  0 <= s <= INT32_MAX -> numbered s rs ->
  i <= SEQ_WINDOW -> Z.of_nat (length rs) - i <= SEQ_WINDOW ->
  Forall (fun r => is_less_than (advance s (i - 1)) r.1 = false) (take (Z.to_nat i) rs) /\
  Forall (fun r => is_less_than (advance s (i - 1)) r.1 = true) (drop (Z.to_nat i) rs).
Proof.
  intros Hs Hn Hi Hl.
  assert (forall k r, rs !! k = Some r -> r.1 = advance s (Z.of_nat k)) as Hk.
  { intros k r Hr. rewrite <- (take_drop_middle _ _ _ Hr) in Hn.
    apply numbered_app in Hn as [_ [Hn _]]; [|done]. rewrite Hn, length_take.
    apply lookup_lt_Some in Hr. f_equal. lia. }
  split; apply Forall_lookup; intros k r Hr.
  - apply lookup_take_Some in Hr as [Hr Hlt]. rewrite (Hk _ _ Hr).
    rewrite is_less_than_advance by lia. lia.
  - rewrite lookup_drop in Hr. rewrite (Hk _ _ Hr). apply lookup_lt_Some in Hr.
    rewrite is_less_than_advance by lia. apply Z.ltb_lt. lia.
Qed.

Lemma replay_files_spec {S} dir files rss s i (cb : Z -> chars -> ST S wal_error unit) st :
  Forall2 (file_rep dir) files rss -> 0 <= s <= INT32_MAX -> numbered s (concat rss) ->
  i <= SEQ_WINDOW -> Z.of_nat (length (concat rss)) - i <= SEQ_WINDOW ->
  replay_files dir files (advance s (i - 1)) cb st =
  iter_records cb (drop (Z.to_nat i) (concat rss)) st.
Proof.
  intros Hf. revert s i st. induction Hf as [|f rs files rss Hf Hfs IH]; intros s i st Hs Hn Hi Hl.
  { simpl. by rewrite drop_nil. }
  cbn [concat] in *. rewrite length_app in Hl. set (k := Z.of_nat (length rs)) in *.
  apply numbered_app in Hn as [Hn Hn2]; [|done]. fold k in Hn2.
  assert (advance s (i - 1) = advance (advance s k) (i - k - 1)) as Eadv
    by (rewrite advance_advance; f_equal; lia).
  cbn [replay_files]. rewrite (file_rep_not_empty _ _ _ Hf).
  rewrite (file_rep_last_numbered _ _ _ _ Hs Hf Hn). fold k.
  cbn [mbind outcome_bind]. unfold st_bind at 1, st_lift. cbv beta iota.
  rewrite is_less_than_advance by (unfold SEQ_WINDOW in *; lia).
  rewrite drop_app.
  replace (Z.to_nat i - length rs)%nat with (Z.to_nat (i - k)) by lia.
  destruct (Z.ltb_spec (k - 1) (i - 1)).
  - rewrite (drop_ge rs) by lia. cbn [app]. unfold st_bind, st_ret.
    rewrite Eadv. apply IH; [apply advance_range|done|lia|lia].
  - unfold st_bind. destruct Hf as (Hd & Hv & Hne & _ & _ & _ & _ & _ & _ & Hgood). rewrite Hd.
    rewrite Hgood. cbn [from_option id]. rewrite for_each_record_encode by done.
    destruct (numbered_less_than s rs i Hs Hn) as [Ht Hdr]; [lia|fold k; lia|].
    pose proof (iter_records_when cb (is_less_than (advance s (i - 1))) _ _ st Ht Hdr) as E.
    rewrite take_drop in E. rewrite E, iter_records_app. unfold st_bind.
    destruct (iter_records cb (drop (Z.to_nat i) rs) st) as [[[]|] st']; [|done].
    rewrite Eadv. apply IH; [apply advance_range|done|lia|lia].
Qed.

(** *** File names *)

Lemma split_dots_no_dot l : "."%char ∉ l -> split_dots l = [l].
Proof.
  induction l as [|c l IH]; intros Hn; [done|]. apply not_elem_of_cons in Hn as [Hc Hn].
  simpl. rewrite (proj2 (Ascii.eqb_neq _ _)) by done. by rewrite IH.
Qed.

Lemma split_dots_app l r : "."%char ∉ l -> split_dots (l ++ "."%char :: r) = l :: split_dots r.
Proof.
  induction l as [|c l IH]; intros Hn; [done|]. apply not_elem_of_cons in Hn as [Hc Hn].
  simpl. rewrite (proj2 (Ascii.eqb_neq _ _)) by done. by rewrite IH.
Qed.

Lemma digits_no_dot l : Forall is_digit l -> "."%char ∉ l.
Proof.
  intros Hd Hin. eapply Forall_forall in Hd; [|exact Hin]. destruct Hd as [d Hd].
  vm_compute in Hd. discriminate.
Qed.

Lemma serial_digits n : 0 <= n -> Forall is_digit (setw 3 "0" (dec n)).
Proof.
  intros. unfold setw. apply Forall_app. split; [|by apply dec_digits].
  apply Forall_replicate. by exists 0.
Qed.

Lemma split_wal_filename t n :
  "."%char ∉ lit t -> 0 <= n ->
  split_dots (lit (wal_filename t n)) = [lit t; setw 3 "0" (dec n); lit "wal"].
Proof.
  intros Ht Hn. unfold wal_filename. rewrite lit_of_chars.
  change (lit ".") with ["."%char]. cbn [app]. rewrite split_dots_app by done.
  change (lit ".wal") with ("."%char :: lit "wal").
  rewrite split_dots_app by by apply digits_no_dot, serial_digits.
  done.
Qed.

Lemma is_wal_file_wal_filename t n : is_wal_file (wal_filename t n) = true.
Proof.
  unfold is_wal_file, ends_with, wal_filename. rewrite lit_of_chars, !app_assoc.
  set (l := _ ++ setw 3 "0" (dec n)). apply andb_true_intro. split; apply bool_decide_eq_true_2.
  - rewrite length_app. lia.
  - rewrite length_app, Nat.add_sub. by rewrite drop_app_length.
Qed.

Lemma wal_filename_later t1 n1 t2 n2 :
  time_ok t1 -> time_ok t2 -> string_ltb t1 t2 = true ->
  string_ltb (wal_filename t1 n1) (wal_filename t2 n2) = true.
Proof.
  intros [L1 _] [L2 _] Hlt. unfold string_ltb, wal_filename. rewrite !lit_of_chars.
  apply chars_ltb_app_lt; [lia|done].
Qed.

Lemma wal_filename_next t n :
  0 <= n < 999 -> string_ltb (wal_filename t n) (wal_filename t (n + 1)) = true.
Proof.
  intros Hn. unfold string_ltb, wal_filename. rewrite !lit_of_chars, !chars_ltb_app_same.
  destruct (serial_order n Hn). by apply chars_ltb_app_lt.
Qed.

(** *** Opening a file reads back what was written *)

Lemma iter_records_range rs range :
  iter_records (fun q _ => st_modify (fun range => extend_range range q)) rs range =
  (Ok tt, fold_left (fun range r => extend_range range r.1) rs range).
Proof. revert range. induction rs as [|r rs IH]; intros range; [done|]. apply IH. Qed.

Lemma open_existing_reads_back dir f rs :
  file_rep dir f rs -> open_existing (fun _ => true) dir (lf_filename f) = Ok f.
Proof.
  intros (Hd & Hv & Hne & Hs & Hmax & Hr & Hname & [Hl Ht] & Hser & Hgood).
  unfold open_existing. rewrite Hname, split_wal_filename by (done || lia). rewrite <- Hname.
  rewrite (bool_decide_eq_true_2 _ eq_refl). cbn [o_assert mbind outcome_bind]. rewrite Hd.
  rewrite for_each_record_encode, iter_records_range by done.
  rewrite <- Hs, strtol10_setw, !u32_small by (unfold UINT32_MAX in *; lia).
  fold (range_of rs). rewrite <- Hr. unfold lit. rewrite string_of_list_ascii_of_string.
  rewrite <- Hgood. by destruct f.
Qed.

(** *** The directory scan *)

Definition name_before (x y : string) : Prop := string_ltb x y = true.

Lemma set_insert_elem x y s : y ∈ set_insert x s <-> y = x \/ y ∈ s.
Proof.
  induction s as [|z s IH]; simpl; [set_solver|].
  case_match; [set_solver|]. case_match; [|set_solver].
  apply String.eqb_eq in H0 as ->. set_solver.
Qed.

Lemma set_insert_sorted x s :
  StronglySorted name_before s -> StronglySorted name_before (set_insert x s).
Proof.
  induction 1 as [|y s Hs IH Hy]; simpl; [repeat constructor|].
  destruct (string_ltb x y) eqn:E.
  - constructor; [by constructor|]. constructor; [done|].
    eapply Forall_impl; [exact Hy|]. intros z Hz. by eapply chars_ltb_trans.
  - destruct (String.eqb x y) eqn:E2; [by constructor|]. constructor; [done|].
    apply Forall_forall. intros z [->|Hz]%set_insert_elem; [|by eapply Forall_forall in Hy].
    unfold name_before, string_ltb in *. destruct (chars_ltb (lit y) (lit x)) eqn:E3; [done|].
    apply String.eqb_neq in E2. exfalso. apply E2, lit_inj. by apply chars_ltb_total.
Qed.

Lemma all_wal_filenames_elem dir n :
  n ∈ all_wal_filenames dir <-> is_wal_file n = true /\ is_Some (dir !! n).
Proof.
  unfold all_wal_filenames.
  transitivity (n ∈ filter (fun n => is_wal_file n = true) (map fst (map_to_list dir))).
  - induction (filter _ _) as [|x l IH]; [done|]. simpl. rewrite set_insert_elem, IH. set_solver.
  - rewrite list_elem_of_filter. apply and_iff_compat_l. rewrite list_elem_of_fmap. split.
    + intros ([k v] & -> & Hkv%elem_of_map_to_list). simpl. eauto.
    + intros [v Hv]. exists (n, v). split; [done|]. by apply elem_of_map_to_list.
Qed.

Lemma all_wal_filenames_sorted dir : StronglySorted name_before (all_wal_filenames dir).
Proof.
  unfold all_wal_filenames. induction (filter _ _); [constructor|]. by apply set_insert_sorted.
Qed.

(** Two strictly ascending lists with the same elements are equal. *)
Lemma sorted_names_unique l1 l2 :
  StronglySorted name_before l1 -> StronglySorted name_before l2 ->
  (forall x, x ∈ l1 <-> x ∈ l2) -> l1 = l2.
Proof.
  assert (forall x, ~ name_before x x) as Hirr
    by (intros x H; unfold name_before, string_ltb in H; by rewrite chars_ltb_irrefl in H).
  assert (forall x y, name_before x y -> ~ name_before y x) as Hasym
    by (intros x y H1 H2; apply (Hirr x); by eapply chars_ltb_trans).
  intros H1. revert l2. induction H1 as [|x l1 Hs1 IH Hx]; intros l2 H2 He.
  - destruct l2 as [|y l2]; [done|]. exfalso. specialize (He y). set_solver.
  - destruct H2 as [|y l2 Hs2 Hy]; [exfalso; specialize (He x); set_solver|].
    rewrite Forall_forall in Hx, Hy.
    assert (x = y) as ->.
    { destruct (proj1 (elem_of_cons _ _ _) (proj1 (He x) (list_elem_of_here _ _)))
        as [|Hin1]; [done|].
      destruct (proj1 (elem_of_cons _ _ _) (proj2 (He y) (list_elem_of_here _ _)))
        as [|Hin2]; [done|].
      exfalso. eapply Hasym; [by apply Hx|by apply Hy]. }
    f_equal. apply IH; [done|]. intros z. specialize (He z). rewrite !elem_of_cons in He.
    split; intros Hz.
    + destruct (proj1 He (or_intror Hz)) as [->|]; [|done]. exfalso. by eapply Hirr, Hx.
    + destruct (proj2 He (or_intror Hz)) as [->|]; [|done]. exfalso. by eapply Hirr, Hy.
Qed.

Lemma StronglySorted_map_name files :
  StronglySorted file_before files -> StronglySorted name_before (map lf_filename files).
Proof.
  induction 1 as [|f files Hs IH Hf]; simpl; [constructor|]. constructor; [done|].
  apply Forall_fmap. done.
Qed.

Lemma rep_file_elem dir files rss f :
  Forall2 (file_rep dir) files rss -> f ∈ files -> exists rs, file_rep dir f rs.
Proof.
  intros H2 Hf. apply list_elem_of_lookup_1 in Hf as [i Hi].
  destruct (Forall2_lookup_l _ _ _ _ _ H2 Hi) as (rs & _ & Hrs). eauto.
Qed.

Lemma file_rep_name dir f rs :
  file_rep dir f rs -> is_wal_file (lf_filename f) = true /\ is_Some (dir !! lf_filename f).
Proof.
  intros (Hd & _ & _ & _ & _ & _ & Hname & _). split; [|by rewrite Hd].
  rewrite Hname. apply is_wal_file_wal_filename.
Qed.

Lemma wal_rep_scan w s rss :
  wal_rep w s rss -> all_wal_filenames (disk w) = map lf_filename (wal_log_files (manager w)).
Proof.
  intros R. apply sorted_names_unique.
  - apply all_wal_filenames_sorted.
  - apply StronglySorted_map_name, (rep_names _ _ _ R).
  - intros n. rewrite all_wal_filenames_elem. split.
    + intros [Hw Hd]. by apply (rep_all _ _ _ R).
    + intros (f & -> & Hf)%list_elem_of_fmap.
      destruct (rep_file_elem _ _ _ _ (rep_files _ _ _ R) Hf) as (rs & Hrs).
      by eapply file_rep_name.
Qed.

(** *** Pruning *)

Definition delete_files (files : list log_file) (dir : directory) : directory :=
  fold_left (fun d f => delete (lf_filename f) d) files dir.

Lemma file_rep_delete dir f g rs :
  file_before f g -> file_rep dir g rs -> file_rep (delete (lf_filename f) dir) g rs.
Proof.
  intros Hb (Hd & Hrest). split; [|done]. rewrite lookup_delete_ne; [done|].
  intros E. unfold file_before, string_ltb in Hb. by rewrite E, chars_ltb_irrefl in Hb.
Qed.

Lemma files_rep_delete dir f files rss :
  Forall (file_before f) files -> Forall2 (file_rep dir) files rss ->
  Forall2 (file_rep (delete (lf_filename f) dir)) files rss.
Proof.
  intros Hb H2. induction H2 as [|g rs files rss Hg H2 IH]; [constructor|].
  inversion Hb; subst. constructor; [by apply file_rep_delete|by apply IH].
Qed.

Lemma can_remove_file_numbered dir f rs s i :
  file_rep dir f rs -> 0 <= s <= INT32_MAX -> numbered s rs ->
  0 <= i <= SEQ_WINDOW -> Z.of_nat (length rs) <= SEQ_WINDOW ->
  can_remove_file f (advance s (i - 1)) = Ok (Z.of_nat (length rs) <=? i).
Proof.
  intros Hf Hs Hn Hi Hl. unfold can_remove_file. rewrite (file_rep_not_empty _ _ _ Hf).
  rewrite (file_rep_last_numbered _ _ _ _ Hs Hf Hn). cbn [mbind outcome_bind]. f_equal.
  rewrite advance_eqb, is_less_than_advance by lia. lia.
Qed.

Lemma remove_finished_spec dir files rss s i shutting_down :
  Forall2 (file_rep dir) files rss -> StronglySorted file_before files ->
  0 <= s <= INT32_MAX -> numbered s (concat rss) ->
  0 <= i <= SEQ_WINDOW -> Z.of_nat (length (concat rss)) <= SEQ_WINDOW ->
  exists k,
    remove_finished dir files (advance s (i - 1)) shutting_down =
      (Ok tt, (delete_files (take k files) dir, drop k files)) /\
    Forall2 (file_rep (delete_files (take k files) dir)) (drop k files) (drop k rss) /\
    Z.of_nat (length (concat (take k rss))) <= i /\
    (drop k files = [] /\ (shutting_down = true \/ files = []) \/
     (shutting_down = false /\ S k = length files) \/
     i < Z.of_nat (length (concat (take (S k) rss)))).
Proof.
  intros H2 Hsort. revert dir rss s i H2.
  induction Hsort as [|f files Hsort IH Hfirst]; intros dir rss0 s i H2 Hs Hn Hi Hl;
    inversion H2 as [|? rs ? rss Hf H2']; subst; clear H2.
  { exists 0%nat. cbn. split; [done|]. split; [constructor|]. split; [lia|left; tauto]. }
  cbn [concat] in Hn, Hl. rewrite length_app in Hl.
  apply numbered_app in Hn as [Hn Hn2]; [|done].
  cbn [remove_finished].
  destruct ((1 <? length (f :: files))%nat || shutting_down) eqn:Egate.
  2: { apply orb_false_iff in Egate as [Eg Ed]. apply Nat.ltb_ge in Eg. exists 0%nat.
       split; [done|]. split; [by constructor|]. split; [cbn; lia|].
       right; left. cbn in *. split; [done|lia]. }
  rewrite (can_remove_file_numbered _ _ _ _ _ Hf Hs Hn) by lia.
  destruct (Z.leb_spec (Z.of_nat (length rs)) i) as [Hle|Hgt].
  - set (k := Z.of_nat (length rs)) in *.
    destruct (IH (delete (lf_filename f) dir) rss (advance s k) (i - k)) as (j & E1 & E2 & E3 & E4);
      [by apply files_rep_delete|apply advance_range|done|lia|lia|].
    rewrite advance_advance in E1. replace (k + (i - k - 1)) with (i - 1) in E1 by lia.
    exists (S j). cbn [take drop]. split; [exact E1|]. split; [exact E2|].
    cbn [concat]. rewrite !length_app. split; [fold k; lia|].
    destruct E4 as [[E4 E5]|[[E4 E5]|E4]]; [|right; left; cbn; split; [done|lia]|right; right].
    { left. split; [done|]. left. destruct E5 as [|E5]; [done|]. subst files. cbn in Egate.
      by destruct shutting_down. }
    fold k. cbn [take] in E4. lia.
  - exists 0%nat. split; [done|]. split; [by constructor|]. split; [cbn; lia|].
    right; right. cbn [take concat]. rewrite app_nil_r. lia.
Qed.

Lemma delete_files_subseteq files dir n v :
  delete_files files dir !! n = Some v -> dir !! n = Some v /\ n ∉ map lf_filename files.
Proof.
  unfold delete_files. revert dir. induction files as [|f files IH]; intros dir H; cbn in *.
  - split; [done|apply not_elem_of_nil].
  - apply IH in H as [H1 H2]. apply lookup_delete_Some in H1 as [Hne H1].
    split; [done|]. apply not_elem_of_cons. split; [congruence|done].
Qed.

(** Dropping the first [k] files of the representation. *)
Lemma wal_rep_drop w s rss k m :
  wal_rep w s rss ->
  Forall2 (file_rep (delete_files (take k (wal_log_files (manager w))) (disk w)))
    (drop k (wal_log_files (manager w))) (drop k rss) ->
  wal_log_files m = drop k (wal_log_files (manager w)) ->
  wal_last_sequence_number m = wal_last_sequence_number (manager w) ->
  wal_rep {| disk := delete_files (take k (wal_log_files (manager w))) (disk w); manager := m |}
    (advance s (Z.of_nat (length (concat (take k rss))))) (drop k rss).
Proof.
  intros R Hk Hf Hl. rewrite <- (take_drop k rss) in R. destruct R as [R1 R2 R3 R4 R5 R6 R7].
  rewrite concat_app in R5, R6. apply numbered_app in R5 as [_ R5]; [|done].
  constructor; cbn [disk manager]; rewrite ?Hf, ?Hl; auto using advance_range.
  - rewrite <- (take_drop k (wal_log_files _)) in R2. by apply StronglySorted_app_1_r in R2.
  - intros n Hw [v Hv]. apply delete_files_subseteq in Hv as [Hv Hn].
    specialize (R3 n Hw ltac:(eauto)).
    rewrite <- (take_drop k (wal_log_files _)), map_app, elem_of_app in R3. tauto.
  - intros r Hr. apply R6. rewrite last_app, Hr. done.
Qed.

(** *** Storing *)

Lemma find_serial_go f now fuel k :
  string_ltb (lf_creation_time_string f) now = false ->
  0 <= k <= lf_serial_number f + 1 -> lf_serial_number f < 1000 ->
  lf_serial_number f + 1 - k < Z.of_nat fuel ->
  find_serial fuel (Some f) now k = Some (lf_serial_number f + 1).
Proof.
  intros Ht. revert k. induction fuel as [|fuel IH]; intros k Hk Hmax Hf; [lia|].
  cbn [find_serial]. rewrite Ht. destruct (Z.ltb_spec (lf_serial_number f) k); [f_equal; lia|].
  rewrite u32_small by (unfold UINT32_MAX; lia). apply IH; lia.
Qed.

(** The clock has not gone back since the last file was created, and serial
    numbers of the current second are not used up. *)
Definition clock_ok (m : write_ahead_log_manager) (now : string) : Prop :=
  time_ok now /\
  forall f, last (wal_log_files m) = Some f ->
    string_ltb (lf_creation_time_string f) now = true \/
    (lf_creation_time_string f = now /\ lf_serial_number f < 999).

Definition new_serial (m : write_ahead_log_manager) (now : string) : Z :=
  match last (wal_log_files m) with
  | Some f => if string_ltb (lf_creation_time_string f) now then 0 else lf_serial_number f + 1
  | None => 0
  end.

Lemma find_serial_spec m now :
  Forall (fun f => 0 <= lf_serial_number f < 1000) (wal_log_files m) ->
  find_serial (serial_fuel (last (wal_log_files m))) (last (wal_log_files m)) now 0 =
  Some (new_serial m now).
Proof.
  intros Hf. unfold new_serial. destruct (last (wal_log_files m)) as [f|] eqn:E; [|done].
  apply last_Some_elem_of in E. eapply Forall_forall in Hf; [|exact E]. simpl in Hf.
  unfold serial_fuel. destruct (string_ltb _ _) eqn:Et.
  - rewrite Nat.add_comm. cbn. by rewrite Et.
  - apply find_serial_go; [done|lia|lia|lia].
Qed.

Lemma file_rep_insert dir n v g rs :
  n <> lf_filename g -> file_rep dir g rs -> file_rep (<[n := v]> dir) g rs.
Proof. intros Hne (Hd & Hrest). split; [|done]. by rewrite lookup_insert_ne. Qed.

(** The part of [file_rep] that a freshly created file has too. *)
Definition file_rep0 (dir : directory) (f : log_file) (rs : list (Z * chars)) : Prop :=
  dir !! lf_filename f = Some (encode_records rs) /\ Forall valid_record rs /\
  lf_file_size f = Z.of_nat (length (encode_records rs)) /\
  lf_sequence_number_range f = range_of rs /\
  lf_filename f = wal_filename (lf_creation_time_string f) (lf_serial_number f) /\
  time_ok (lf_creation_time_string f) /\ 0 <= lf_serial_number f < 1000 /\ lf_good f = true.

Lemma file_rep_rep0 dir f rs : file_rep dir f rs -> file_rep0 dir f rs.
Proof. unfold file_rep, file_rep0. tauto. Qed.

Lemma write_record_rep dir f rs q sql :
  file_rep0 dir f rs -> valid_record (q, sql) ->
  lf_file_size f + 56 + Z.of_nat (length sql) <= UINT32_MAX ->
  let '(r, (f', dir')) := write_record all_written dir f q sql in
  r = Ok tt /\ file_rep dir' f' (rs ++ [(q, sql)]).
Proof.
  intros (Hd & Hv & Hs & Hr & Hname & Ht & Hser & Hgood) Hq Hmax. cbn -[encode_record u32].
  unfold stored_bytes. rewrite Hgood. cbn [all_written so_written andb bool_decide]. split; [done|].
  assert (u32 (u32 (u32 (lf_file_size f + 28) + Z.of_nat (length sql)) + 28) =
    Z.of_nat (length (encode_records (rs ++ [(q, sql)])))) as Hsize.
  { rewrite encode_records_app, length_app. cbn [encode_records fst snd].
    rewrite app_nil_r, length_encode_record by done.
    rewrite (u32_small (lf_file_size f + 28)) by lia.
    rewrite (u32_small (lf_file_size f + 28 + _)) by lia.
    rewrite u32_small by lia. lia. }
  repeat split; try done.
  - cbn. rewrite lookup_insert_eq, Hd, encode_records_app. cbn. by rewrite app_nil_r.
  - apply Forall_app. split; [done|by constructor].
  - by destruct rs.
  - cbn [lf_file_size]. rewrite Hsize, encode_records_app, length_app. cbn [encode_records fst snd].
    rewrite app_nil_r, length_encode_record by done. lia.
  - cbn. by rewrite range_of_snoc, Hr.
  - apply Ht.
  - apply Ht.
  - apply Hser.
  - apply Hser.
Qed.

(** Only the file written to changes. *)
Lemma write_record_frame os dir f q sql :
  let '(_, (f', dir')) := write_record os dir f q sql in
  lf_filename f' = lf_filename f /\ forall n, n <> lf_filename f -> dir' !! n = dir !! n.
Proof. cbn. split; [done|]. intros n Hn. by rewrite lookup_insert_ne. Qed.

Lemma removelast_snoc {A} (l : list A) x : removelast (l ++ [x]) = l.
Proof. by rewrite removelast_last. Qed.

Lemma append_record_spec w s fs f rss rs sql :
  wal_log_files (manager w) = fs ++ [f] ->
  Forall2 (file_rep (disk w)) fs rss -> file_rep0 (disk w) f rs ->
  StronglySorted file_before (fs ++ [f]) ->
  (forall n, is_wal_file n = true -> is_Some (disk w !! n) -> n ∈ map lf_filename (fs ++ [f])) ->
  0 <= s <= INT32_MAX -> numbered s (concat (rss ++ [rs])) ->
  get_next_sequence_number (manager w) = advance s (Z.of_nat (length (concat (rss ++ [rs])))) ->
  lf_file_size f + 56 + Z.of_nat (length sql) <= UINT32_MAX ->
  exists w', let q := get_next_sequence_number (manager w) in
    append_record all_written sql w = (Ok q, w') /\ wal_rep w' s (rss ++ [rs ++ [(q, sql)]]).
Proof.
  intros Hfiles H2 Hf Hsort Hall Hs Hn Hnext Hmax.
  set (q := get_next_sequence_number (manager w)) in *.
  assert (valid_record (q, sql)) as Hq.
  { split; cbn; [rewrite Hnext; apply advance_range|]. destruct Hf as (_&_&Hfs&_). lia. }
  pose proof (write_record_rep _ _ _ q sql Hf Hq Hmax) as Hrep.
  pose proof (write_record_frame all_written (disk w) f q sql) as Hd'.
  destruct (write_record all_written (disk w) f q sql) as [r [f' d']] eqn:Ewr. destruct Hd' as [Hname' Hd'].
  destruct Hrep as [-> Hrep].
  eexists {| disk := d'; manager := {| wal_log_files := fs ++ [f'];
    wal_is_open := wal_is_open (manager w); wal_last_sequence_number := Some q;
    wal_last_completed := wal_last_completed (manager w) |} |}.
  split.
  { unfold append_record, st_bind, st_get, modify_manager, st_modify. fold q.
    rewrite Hfiles, last_snoc, Ewr. unfold st_put, st_lift, st_ret. cbn [manager disk].
    unfold set_last_sequence_number, set_log_files. cbn [wal_log_files wal_is_open
      wal_last_sequence_number wal_last_completed]. rewrite Hfiles, removelast_snoc. done. }
  assert (Forall (fun g => lf_filename f <> lf_filename g) fs) as Hne.
  { apply Forall_forall. intros g Hg. eapply StronglySorted_app_1_elem_of in Hsort;
      [|exact Hg|by left]. intros E. unfold file_before, string_ltb in Hsort.
    by rewrite E, chars_ltb_irrefl in Hsort. }
  constructor; cbn [disk manager wal_log_files wal_last_sequence_number]; try done.
  - apply Forall2_app; [|by constructor].
    clear - H2 Hne Hd'. induction H2 as [|g gs fs rss Hg H2 IH]; [constructor|].
    inversion Hne; subst. constructor; [|by apply IH].
    destruct Hg as (Hg & Hrest). split; [|done]. rewrite Hd' by done. exact Hg.
  - apply StronglySorted_app. apply StronglySorted_app in Hsort as (A1 & A2 & A3).
    split; [|split]; [|done|repeat constructor].
    intros x y Hx Hy. apply list_elem_of_singleton in Hy as ->. unfold file_before. rewrite Hname'.
    apply (A1 x f Hx). by left.
  - intros n Hw [v Hv]. rewrite map_app in *. cbn in *. rewrite Hname'. destruct (decide (n = lf_filename f)) as [->|Hnf].
    + apply elem_of_app. right. by left.
    + rewrite Hd' in Hv by done. specialize (Hall n Hw ltac:(eauto)). set_solver.
  - rewrite concat_app in *. cbn in *. rewrite app_nil_r in *. rewrite app_assoc.
    apply numbered_app; [done|]. split; [done|]. by split.
  - intros r Hr. rewrite concat_app in Hr. cbn in Hr. rewrite app_nil_r, app_assoc, last_snoc in Hr.
    by injection Hr as <-.
  - intros ? [= <-]. apply Hq.
Qed.

Lemma wal_rep_serials w s rss :
  wal_rep w s rss -> Forall (fun f => 0 <= lf_serial_number f < 1000) (wal_log_files (manager w)).
Proof.
  intros R. apply Forall_forall. intros f Hf.
  destruct (rep_file_elem _ _ _ _ (rep_files _ _ _ R) Hf) as (rs & Hrs).
  destruct Hrs as (_&_&_&_&_&_&_&_&Hs&_). exact Hs.
Qed.

Lemma new_serial_range w s rss now :
  wal_rep w s rss -> clock_ok (manager w) now -> 0 <= new_serial (manager w) now < 1000.
Proof.
  intros R [_ Hc]. unfold new_serial. destruct (last (wal_log_files (manager w))) as [f|] eqn:E; [|lia].
  case_match eqn:Et; [lia|]. destruct (Hc f eq_refl) as [|[_ ?]]; [congruence|].
  apply last_Some_elem_of in E. pose proof (wal_rep_serials _ _ _ R) as Hf.
  eapply Forall_forall in Hf; [|exact E]. simpl in Hf. lia.
Qed.

(** The name chosen for a new file comes after the names of all open files. *)
Lemma new_file_after w s rss now :
  wal_rep w s rss -> clock_ok (manager w) now ->
  Forall (fun f => string_ltb (lf_filename f) (wal_filename now (new_serial (manager w) now)) = true)
    (wal_log_files (manager w)).
Proof.
  intros R Hc. destruct (wal_log_files (manager w)) as [|f fs _] eqn:Efs using rev_ind; [constructor|].
  assert (file_rep (disk w) f (default [] (last rss))) as Hf.
  { pose proof (rep_files _ _ _ R) as H2. rewrite Efs in H2.
    apply Forall2_app_inv_l in H2 as (r1 & r2 & _ & H2 & ->).
    inversion H2 as [|? ? ? ? Hf Hnil]; subst. inversion Hnil; subst. by rewrite last_snoc. }
  destruct Hf as (_&_&_&_&_&_&Hname&Ht&Hser&_).
  assert (string_ltb (lf_filename f) (wal_filename now (new_serial (manager w) now)) = true) as Hlast.
  { destruct Hc as [Hnow Hc]. unfold new_serial. rewrite Efs, last_snoc in *. rewrite Hname.
    case_match eqn:Et; [by apply wal_filename_later|].
    destruct (Hc f eq_refl) as [|[<- ?]]; [congruence|]. apply wal_filename_next. lia. }
  apply Forall_app. split; [|by constructor].
  pose proof (rep_names _ _ _ R) as Hsort. rewrite Efs in Hsort.
  apply Forall_forall. intros g Hg.
  eapply StronglySorted_app_1_elem_of in Hsort; [|exact Hg|by left].
  by eapply chars_ltb_trans.
Qed.

Lemma add_log_file_spec w s rss now :
  wal_rep w s rss -> clock_ok (manager w) now ->
  let f := {| lf_creation_time_string := now; lf_serial_number := new_serial (manager w) now;
              lf_filename := wal_filename now (new_serial (manager w) now);
              lf_file_size := 0; lf_sequence_number_range := None; lf_good := true |} in
  add_log_file all_written now w =
    (Ok tt, {| disk := <[lf_filename f := []]> (disk w);
               manager := set_log_files (wal_log_files (manager w) ++ [f]) (manager w) |}) /\
  disk w !! lf_filename f = None.
Proof.
  intros R Hc f.
  assert (disk w !! lf_filename f = None) as Hnone.
  { destruct (disk w !! lf_filename f) eqn:E; [|done]. exfalso.
    pose proof (rep_all _ _ _ R (lf_filename f) (is_wal_file_wal_filename _ _) ltac:(eauto)) as Hin.
    apply list_elem_of_fmap in Hin as (g & Hg & Hin).
    pose proof (new_file_after _ _ _ _ R Hc) as Hlt. eapply Forall_forall in Hlt; [|exact Hin].
    simpl in Hlt. rewrite <- Hg in Hlt. unfold string_ltb in Hlt. cbn in Hlt.
    by rewrite chars_ltb_irrefl in Hlt. }
  split; [|done]. unfold add_log_file, st_bind, st_get, st_lift.
  rewrite find_serial_spec by by eapply wal_rep_serials.
  unfold create_new. cbn in Hnone. rewrite Hnone. done.
Qed.

(** The sequence number the next record gets, seen from the log. *)
Lemma next_sequence_number_numbered w s rss :
  wal_rep w s rss -> concat rss <> [] ->
  get_next_sequence_number (manager w) = advance s (Z.of_nat (length (concat rss))).
Proof.
  intros R Hne. destruct (concat rss) as [|r rs _] eqn:E using rev_ind; [done|].
  unfold get_next_sequence_number. rewrite (rep_last _ _ _ R r) by by rewrite E, last_snoc.
  pose proof (rep_numbered _ _ _ R) as Hn. rewrite E in Hn.
  rewrite (numbered_last s rs r (rep_seq _ _ _ R) Hn).
  rewrite get_sequence_number_after_advance by apply advance_range.
  rewrite advance_advance, length_app. f_equal. simpl. lia.
Qed.

Lemma next_sequence_number_range w s rss :
  wal_rep w s rss -> 0 <= get_next_sequence_number (manager w) <= INT32_MAX.
Proof.
  intros R. unfold get_next_sequence_number.
  destruct (wal_last_sequence_number (manager w)) as [q|] eqn:E; [|unfold INT32_MAX; lia].
  rewrite get_sequence_number_after_advance by by eapply rep_next. apply advance_range.
Qed.

Lemma wal_rep_no_files w s rss :
  wal_rep w s rss -> (concat rss = [] <-> wal_log_files (manager w) = []).
Proof.
  intros R. pose proof (rep_files _ _ _ R) as H2. destruct H2 as [|f rs files rss' Hf H2]; [done|].
  split; [|done]. intros E. exfalso. cbn in E. apply app_eq_nil in E as [-> _].
  by destruct Hf as (_&_&Hne&_).
Qed.

(** The first sequence number of the log after a record is stored. *)
Definition log_start (w : wal_world) (s : Z) : Z :=
  if bool_decide (wal_log_files (manager w) = []) then get_next_sequence_number (manager w) else s.

Lemma log_start_range w s rss : wal_rep w s rss -> 0 <= log_start w s <= INT32_MAX.
Proof.
  intros R. unfold log_start. case_bool_decide; [by eapply next_sequence_number_range|].
  apply (rep_seq _ _ _ R).
Qed.

Lemma log_start_numbered w s rss :
  wal_rep w s rss ->
  numbered (log_start w s) (concat rss) /\
  get_next_sequence_number (manager w) = advance (log_start w s) (Z.of_nat (length (concat rss))).
Proof.
  intros R. unfold log_start. case_bool_decide as Eb.
  - apply (wal_rep_no_files _ _ _ R) in Eb. rewrite Eb. cbn.
    by rewrite advance_0 by by eapply next_sequence_number_range.
  - split; [apply (rep_numbered _ _ _ R)|]. apply next_sequence_number_numbered; [done|].
    by rewrite (wal_rep_no_files _ _ _ R).
Qed.

Lemma files_rep_insert_new dir n v files rss :
  Forall (fun f => string_ltb (lf_filename f) n = true) files ->
  Forall2 (file_rep dir) files rss -> Forall2 (file_rep (<[n := v]> dir)) files rss.
Proof.
  intros Hlt H2. induction H2 as [|g rs fs rss Hg H2 IH]; [constructor|].
  inversion Hlt as [|? ? Hg' Hlt']; subst. constructor; [|by apply IH].
  apply file_rep_insert; [|done]. intros ->. unfold string_ltb in Hg'.
  by rewrite chars_ltb_irrefl in Hg'.
Qed.

Lemma store_in_new_file w s rss now sql :
  wal_rep w s rss -> clock_ok (manager w) now -> Z.of_nat (length sql) <= 2 ^ 31 ->
  exists w', let q := get_next_sequence_number (manager w) in
    (add_log_file all_written now ;;; append_record all_written sql) w = (Ok q, w') /\
    wal_rep w' (log_start w s) (rss ++ [[(q, sql)]]).
Proof.
  intros R Hc Hlen. destruct (add_log_file_spec _ _ _ _ R Hc) as [Eadd Hnone].
  unfold st_bind. rewrite Eadd. set (f := Build_log_file _ _ _ _ _ _) in *.
  set (w1 := Build_wal_world _ _).
  pose proof (new_file_after _ _ _ _ R Hc) as Hlt.
  pose proof (new_serial_range _ _ _ _ R Hc) as Hser.
  destruct (log_start_numbered _ _ _ R) as [Hn Hq].
  destruct (append_record_spec w1 (log_start w s) (wal_log_files (manager w)) f rss [] sql)
    as (w' & E' & R'); try done.
  - apply files_rep_insert_new; [exact Hlt|apply (rep_files _ _ _ R)].
  - split; [apply lookup_insert_eq|]. split; [constructor|]. repeat split; try done; try apply Hc; apply Hser.
  - apply StronglySorted_app. split; [|split]; [|apply (rep_names _ _ _ R)|repeat constructor].
    intros x y Hx Hy. apply list_elem_of_singleton in Hy as ->. by eapply Forall_forall in Hlt.
  - intros n Hw [v Hv]. rewrite map_app. apply elem_of_app.
    destruct (decide (n = lf_filename f)) as [->|Hne]; [right; by left|left].
    unfold w1 in Hv. cbn [disk] in Hv. rewrite lookup_insert_ne in Hv by (intros E; by apply Hne).
    by apply (rep_all _ _ _ R); eauto.
  - by eapply log_start_range.
  - rewrite concat_app. cbn. by rewrite app_nil_r.
  - rewrite concat_app. cbn [concat]. rewrite app_nil_r. exact Hq.
  - cbn [lf_file_size f]. unfold UINT32_MAX. lia.
  - exists w'. split; [exact E'|exact R'].
Qed.

Lemma store_in_last_file w s rss sql :
  wal_rep w s rss -> needs_new_file (manager w) = false -> Z.of_nat (length sql) <= 2 ^ 31 ->
  exists w' rss', let q := get_next_sequence_number (manager w) in
    append_record all_written sql w = (Ok q, w') /\ wal_rep w' (log_start w s) rss' /\
    concat rss' = concat rss ++ [(q, sql)].
Proof.
  intros R Enew Hlen. unfold needs_new_file in Enew.
  destruct (wal_log_files (manager w)) as [|f fs _] eqn:Efs using rev_ind; [done|].
  rewrite last_snoc in Enew. destruct (log_start_numbered _ _ _ R) as [Hn Hq].
  pose proof (log_start_range _ _ _ R) as Hs.
  pose proof (rep_files _ _ _ R) as H2. rewrite Efs in H2.
  apply Forall2_app_inv_l in H2 as (rss0 & r2 & H2 & H2' & ->).
  inversion H2' as [|? rs ? ? Hf Hnil]; subst. inversion Hnil; subst. clear H2' Hnil.
  destruct (append_record_spec w (log_start w s) fs f rss0 rs sql) as (w' & E' & R'); try done.
  - by apply file_rep_rep0.
  - rewrite <- Efs. apply (rep_names _ _ _ R).
  - rewrite <- Efs. apply (rep_all _ _ _ R).
  - apply Z.ltb_ge in Enew. change max_log_size with 104857600 in Enew. unfold UINT32_MAX. lia.
  - exists w', (rss0 ++ [rs ++ [(get_next_sequence_number (manager w), sql)]]).
    split; [exact E'|]. split; [exact R'|]. rewrite !concat_app. cbn. by rewrite !app_nil_r, app_assoc.
Qed.

Lemma store_transaction_rep w s rss now sql :
  wal_rep w s rss -> clock_ok (manager w) now -> Z.of_nat (length sql) <= 2 ^ 31 ->
  exists w' rss', let q := get_next_sequence_number (manager w) in
    store_transaction all_written now sql w = (Ok q, w') /\
    wal_rep w' (log_start w s) rss' /\ concat rss' = concat rss ++ [(q, sql)].
Proof.
  intros R Hc Hlen. unfold store_transaction, st_bind at 1, st_get.
  destruct (needs_new_file (manager w)) eqn:Enew; cbn [st_when].
  - destruct (store_in_new_file _ _ _ _ _ R Hc Hlen) as (w' & E & R').
    exists w', (rss ++ [[(get_next_sequence_number (manager w), sql)]]).
    split; [exact E|]. split; [exact R'|]. by rewrite concat_app.
  - destruct (store_in_last_file _ _ _ _ R Enew Hlen) as (w' & rss' & E & R').
    exists w', rss'. split; [exact E|done].
Qed.

(** The operating system creates the file that is needed and takes the whole record. *)
Definition store_accepted (os : storage) (m : write_ahead_log_manager) : bool :=
  (negb (needs_new_file m) || so_creates os) && bool_decide (so_written os = None).

(** A record of which not all bytes arrive, appended to the last of the open files. *)
Lemma append_record_fails os sql fs f k w :
  wal_log_files (manager w) = fs ++ [f] -> so_written os = Some k ->
  let q := get_next_sequence_number (manager w) in
  exists w', append_record os sql w = (Throw WriteError, w') /\
    disk w' = <[lf_filename f := default [] (disk w !! lf_filename f) ++ stored_bytes os f (encode_record q sql)]> (disk w).
Proof.
  intros Hf Hk q. unfold append_record, st_bind, st_get, modify_manager, st_modify. fold q.
  rewrite Hf, last_snoc. unfold write_record. rewrite (bool_decide_false (so_written os = None)) by (by rewrite Hk).
  rewrite andb_false_r. unfold st_put, st_lift. eexists. split; [reflexivity|done].
Qed.

Lemma stored_bytes_prefix os f record : exists k, stored_bytes os f record = take k record.
Proof.
  unfold stored_bytes. destruct (lf_good f); [|by exists 0%nat]. destruct (so_written os) as [k|]; [by exists k|].
  exists (length record). by rewrite firstn_all.
Qed.

(** Every file keeps its bytes, and a part of the record may follow them. *)
Definition files_extended (record : chars) (d d' : directory) : Prop :=
  forall n c, d !! n = Some c -> exists k, d' !! n = Some (c ++ take k record).

Lemma files_extended_refl record d : files_extended record d d.
Proof. intros n c Hc. exists 0%nat. by rewrite Hc, app_nil_r. Qed.

Lemma files_extended_insert os f record d d0 :
  (forall n c, d !! n = Some c -> d0 !! n = Some c) ->
  files_extended record d
    (<[lf_filename f := default [] (d0 !! lf_filename f) ++ stored_bytes os f record]> d0).
Proof.
  intros Hd n c Hc. destruct (stored_bytes_prefix os f record) as [k ->].
  destruct (decide (n = lf_filename f)) as [->|Hn].
  - exists k. rewrite lookup_insert_eq. by rewrite (Hd _ _ Hc).
  - exists 0%nat. rewrite lookup_insert_ne, app_nil_r by done. auto.
Qed.

Lemma store_refused os w s rss now sql :
  wal_rep w s rss -> clock_ok (manager w) now -> store_accepted os (manager w) = false ->
  exists e w', store_transaction os now sql w = (Throw e, w') /\
    files_extended (encode_record (get_next_sequence_number (manager w)) sql) (disk w) (disk w').
Proof.
  intros R Hc Ha. destruct (add_log_file_spec _ _ _ _ R Hc) as [Eadd Hnone].
  unfold store_transaction, st_bind at 1, st_get. unfold store_accepted in Ha.
  destruct (needs_new_file (manager w)) eqn:En; cbn [negb orb st_when] in *.
  - unfold add_log_file in Eadd |- *. unfold st_bind, st_get, st_lift in Eadd |- *.
    rewrite find_serial_spec in Eadd |- * by by eapply wal_rep_serials.
    unfold create_new in Eadd |- *. cbn [lf_filename] in *. rewrite Hnone in Eadd |- *.
    destruct (so_creates os) eqn:Ec; cbn [andb] in Ha.
    + destruct (so_written os) as [k|] eqn:Ek; [|done]. unfold st_put.
      edestruct (append_record_fails os sql (wal_log_files (manager w))) as (w' & -> & Hw');
        [cbn [manager wal_log_files set_log_files fst]; reflexivity|exact Ek|].
      eexists _, w'. split; [reflexivity|]. rewrite Hw'. cbn [disk manager snd fst].
      apply files_extended_insert. intros n c Hn. rewrite lookup_insert_ne; [done|]. congruence.
    + eexists _, w. split; [reflexivity|]. apply files_extended_refl.
  - destruct (so_written os) as [k|] eqn:Ek; [|done].
    unfold needs_new_file in En. destruct (wal_log_files (manager w)) as [|f fs _] eqn:Ef using rev_ind; [done|].
    destruct (append_record_fails os sql fs f k w Ef Ek) as (w' & E & Hw').
    exists WriteError, w'. unfold st_bind, st_ret. split; [exact E|]. rewrite Hw'. by apply files_extended_insert.
Qed.

Lemma store_accepted_all_written os now sql w :
  store_accepted os (manager w) = true ->
  store_transaction os now sql w = store_transaction all_written now sql w.
Proof.
  destruct os as [c wr]. unfold store_accepted. cbn. intros [Ha Hw]%andb_true_iff. apply bool_decide_eq_true in Hw as ->.
  unfold store_transaction, st_bind, st_get. destruct (needs_new_file (manager w)); [|done].
  cbn in Ha. by rewrite Ha.
Qed.

(** C23: Storing a transaction, on a log whose files are complete, with a clock that is not behind
    the last file and a statement of at most 2^31 bytes: when the operating system creates the
    file it may need and takes the record, exactly one record with the next sequence number is
    appended to the abstract log, also when that starts a new file; otherwise it throws, and every
    file holds what it held, followed by at most a part of the new record. *)
Theorem store_transaction_appends os w s rss now sql :
  wal_rep w s rss -> clock_ok (manager w) now -> Z.of_nat (length sql) <= 2 ^ 31 ->
  let q := get_next_sequence_number (manager w) in
  if store_accepted os (manager w)
  then exists w' rss', store_transaction os now sql w = (Ok q, w') /\
         wal_rep w' (log_start w s) rss' /\ concat rss' = concat rss ++ [(q, sql)]
  else exists e w', store_transaction os now sql w = (Throw e, w') /\
         files_extended (encode_record q sql) (disk w) (disk w').
Proof.
  intros R Hc Hl q. destruct (store_accepted os (manager w)) eqn:Ea.
  - rewrite store_accepted_all_written by done. by apply store_transaction_rep.
  - by eapply store_refused.
Qed.

Lemma transaction_completed_rep w s rss i shutting_down :
  wal_rep w s rss -> wal_log_files (manager w) <> [] ->
  0 <= i <= SEQ_WINDOW -> Z.of_nat (length (concat rss)) <= SEQ_WINDOW ->
  exists w' k,
    transaction_completed (advance s (i - 1)) shutting_down w = (Ok tt, w') /\
    wal_rep w' (advance s (Z.of_nat (length (concat (take k rss))))) (drop k rss) /\
    Z.of_nat (length (concat (take k rss))) <= i /\
    (drop k rss = [] /\ shutting_down = true \/ (shutting_down = false /\ S k = length rss) \/
     i < Z.of_nat (length (concat (take (S k) rss)))).
Proof.
  intros R Hne Hi Hl.
  destruct (remove_finished_spec _ _ _ s i shutting_down (rep_files _ _ _ R) (rep_names _ _ _ R)
    (rep_seq _ _ _ R) (rep_numbered _ _ _ R) Hi Hl) as (k & E1 & E2 & E3 & E4).
  eexists _, k. split.
  { unfold transaction_completed, st_bind, st_get, st_assert, st_put, st_lift, modify_manager,
      st_modify. rewrite bool_decide_false by done. cbn [negb st_ret]. unfold st_ret.
    cbn [disk manager wal_log_files set_last_completed]. rewrite E1. cbn [fst snd]. reflexivity. }
  split; [by apply wal_rep_drop|]. split; [done|].
  pose proof (Forall2_length _ _ _ E2) as HL. pose proof (Forall2_length _ _ _ (rep_files _ _ _ R)).
  destruct E4 as [[E4 E5]|[E4|E4]]; [left|right; left; by rewrite <- H|by right; right].
  rewrite E4 in HL. split; [by destruct (drop k rss)|]. by destruct E5.
Qed.

(** A completed transaction prunes whole files from the front of the log: every
    record after the completed one stays, and no file but the newest is kept once
    all of its transactions are completed. *)
Theorem transaction_completed_prunes w s rss i shutting_down :
  wal_rep w s rss -> wal_log_files (manager w) <> [] ->
  0 <= i <= SEQ_WINDOW -> Z.of_nat (length (concat rss)) <= SEQ_WINDOW ->
  exists w' k,
    transaction_completed (advance s (i - 1)) shutting_down w = (Ok tt, w') /\
    wal_rep w' (advance s (Z.of_nat (length (concat (take k rss))))) (drop k rss) /\
    Z.of_nat (length (concat (take k rss))) <= i /\
    (drop k rss = [] /\ shutting_down = true \/ (shutting_down = false /\ S k = length rss) \/
     i < Z.of_nat (length (concat (take (S k) rss)))).
Proof. apply transaction_completed_rep. Qed.

Lemma replay_transactions_after_rep {S} w s rss i (f : Z -> chars -> ST S wal_error unit) st :
  wal_rep w s rss -> i <= SEQ_WINDOW -> Z.of_nat (length (concat rss)) - i <= SEQ_WINDOW ->
  replay_transactions_after w (advance s (i - 1)) f st =
  iter_records f (drop (Z.to_nat i) (concat rss)) st.
Proof.
  intros R Hi Hl. eapply replay_files_spec; [apply R|apply R|apply R|done|done].
Qed.

(** Replaying after the sequence number of the [i]-th record runs the replay
    function on exactly the records after it, oldest first. *)
Theorem replay_transactions_after_spec {S} w s rss i (f : Z -> chars -> ST S wal_error unit) st :
  wal_rep w s rss -> i <= SEQ_WINDOW -> Z.of_nat (length (concat rss)) - i <= SEQ_WINDOW ->
  replay_transactions_after w (advance s (i - 1)) f st =
  iter_records f (drop (Z.to_nat i) (concat rss)) st.
Proof. apply replay_transactions_after_rep. Qed.

(** *** Reopening the directory of a crashed run *)

Lemma open_all_reads_back dir files m :
  Forall (fun f => open_existing (fun _ => true) dir (lf_filename f) = Ok f) files ->
  open_all (fun _ => true) (map lf_filename files) {| disk := dir; manager := m |} =
  (Ok tt, {| disk := dir; manager := set_log_files (wal_log_files m ++ files) m |}).
Proof.
  intros Hf. revert m. induction Hf as [|f files Hf _ IH]; intros m; cbn [map open_all].
  - rewrite app_nil_r. by destruct m.
  - unfold st_bind, st_get, st_lift, st_put. cbn [disk manager]. rewrite Hf, IH.
    unfold set_log_files. cbn. by rewrite <- app_assoc.
Qed.

Lemma compute_last_sequence_number_rep dir files rss :
  Forall2 (file_rep dir) files rss ->
  compute_last_sequence_number (rev files) = Ok (fst <$> last (concat rss)).
Proof.
  intros H2. destruct files as [|f files _] using rev_ind.
  - by inversion H2.
  - apply Forall2_app_inv_l in H2 as (rss0 & r2 & _ & H2' & ->).
    inversion H2' as [|? rs ? ? Hf Hnil]; subst. inversion Hnil; subst.
    rewrite rev_app_distr. cbn [rev app compute_last_sequence_number].
    rewrite (file_rep_not_empty _ _ _ Hf), concat_app. cbn [concat]. rewrite app_nil_r.
    destruct rs as [|r rs _] using rev_ind; [by destruct Hf as (_&_&?&_)|].
    rewrite (file_rep_last _ _ _ _ Hf). cbn. by rewrite app_assoc, last_snoc.
Qed.

Lemma wal_open_rep w s rss :
  wal_rep w s rss ->
  exists w', wal_open true true (fun _ => true) {| disk := disk w; manager := initial_manager |} = (Ok tt, w') /\
    disk w' = disk w /\ wal_log_files (manager w') = wal_log_files (manager w) /\
    wal_rep w' s rss /\ wal_last_sequence_number (manager w') = fst <$> last (concat rss).
Proof.
  intros R. eexists. split.
  { unfold wal_open, st_bind, st_get, st_assert, st_ret. cbn [disk].
    rewrite (wal_rep_scan _ _ _ R), open_all_reads_back.
    2: { apply Forall_forall. intros f Hf.
         destruct (rep_file_elem _ _ _ _ (rep_files _ _ _ R) Hf) as (rs & Hrs).
         by eapply open_existing_reads_back. }
    cbn [disk manager set_log_files wal_log_files initial_manager app].
    unfold st_lift. rewrite (compute_last_sequence_number_rep _ _ _ (rep_files _ _ _ R)).
    unfold modify_manager, st_modify. reflexivity. }
  cbn. split; [done|]. split; [done|]. split; [|done].
  destruct R as [R1 R2 R3 R4 R5 R6 R7]. constructor; cbn; try done.
  - intros r ->. done.
  - intros q Hq. destruct (last (concat rss)) as [r|] eqn:E; [|done]. injection Hq as <-.
    by apply R7, R6.
Qed.

(** A log file whose last record was cut by a crash, or that was created and never written. *)
Definition torn_file (dir : directory) (name : string) : Prop :=
  exists t n rs q sql k,
    name = wal_filename t n /\ time_ok t /\ 0 <= n /\
    dir !! name = Some (encode_records rs ++ take k (encode_record q sql)) /\
    Forall valid_record rs /\ valid_record (q, sql) /\ (k < length (encode_record q sql))%nat /\ ((0 < k)%nat \/ rs = []).

Lemma open_all_throws opens names name e w :
  name ∈ names -> open_existing opens (disk w) name = Throw e ->
  exists e' w', open_all opens names w = (Throw e', w').
Proof.
  intros Hin He. revert w He. induction names as [|x names IH]; intros w He; [by apply elem_of_nil in Hin|].
  cbn [open_all]. unfold st_bind, st_get, st_lift, st_put.
  destruct (open_existing opens (disk w) x) as [f|e'] eqn:Ex; [|by eauto].
  apply elem_of_cons in Hin as [->|Hin]; [congruence|]. by apply IH.
Qed.

Lemma torn_file_throws opens dir name m :
  torn_file dir name -> opens name = true -> exists e w', wal_open true true opens {| disk := dir; manager := m |} = (Throw e, w').
Proof.
  intros (t & n & rs & q & sql & k & -> & Ht & Hn & Hd & Hv & Hr & Hk & Hne) Ho.
  unfold wal_open, st_assert, st_ret. unfold st_bind at 1 2 3, st_get. cbn [disk].
  destruct (open_all_throws opens (all_wal_filenames dir) (wal_filename t n) ReadError {| disk := dir; manager := m |})
    as (e & w' & E).
  - apply all_wal_filenames_elem. split; [apply is_wal_file_wal_filename|by rewrite Hd].
  - eapply torn_file_fails_to_open; [|exact Hd|done..]. apply split_wal_filename; [apply Ht|done].
  - unfold st_bind at 1. rewrite E. by eauto.
Qed.

(** C24: Opening the directory of a log whose files are all complete rebuilds the same files and the
    same log, and continues its numbering; when one file ends in a part of a record, or is empty,
    opening throws and the log stays closed. *)
Theorem wal_open_recovers w s rss :
  wal_rep w s rss ->
  (exists w', wal_open true true (fun _ => true) {| disk := disk w; manager := initial_manager |} = (Ok tt, w') /\
    disk w' = disk w /\ wal_log_files (manager w') = wal_log_files (manager w) /\
    wal_rep w' s rss /\ wal_last_sequence_number (manager w') = fst <$> last (concat rss)) /\
  (forall dir name, torn_file dir name ->
    exists e w', wal_open true true (fun _ => true) {| disk := dir; manager := initial_manager |} = (Throw e, w')).
Proof. intros R. split; [by apply wal_open_rep|]. intros dir name Ht. by eapply torn_file_throws. Qed.

(** The circular comparison orders a sequence number before each of its next
    2^30 - 2 successors, and not after any of them, across the wrap to 0. *)
Theorem is_less_than_successors a k :
  0 <= a <= INT32_MAX -> (0 < k)%nat -> Z.of_nat k <= SEQ_WINDOW ->
  is_less_than a (Nat.iter k get_sequence_number_after a) = true /\
  is_less_than (Nat.iter k get_sequence_number_after a) a = false.
Proof.
  intros Ha Hk Hw. assert (Nat.iter k get_sequence_number_after a = advance a (Z.of_nat k)) as ->.
  { clear Hk Hw. induction k as [|k IH]; [cbn; by rewrite advance_0|].
    rewrite Nat.iter_succ, IH, get_sequence_number_after_advance by apply advance_range.
    rewrite advance_advance. f_equal. lia. }
  rewrite is_less_than_forward, is_less_than_backward by lia. split; [lia|done].
Qed.

Lemma is_less_than_successors_witness :
  is_less_than 2147483646 (Nat.iter 3 get_sequence_number_after 2147483646) = true /\
  is_less_than (Nat.iter 3 get_sequence_number_after 2147483646) 2147483646 = false.
Proof. apply is_less_than_successors; [vm_compute; split; discriminate|lia|vm_compute; discriminate]. Defined.

(** ** A concrete log *)

Definition ex_world0 : wal_world :=
  {| disk := ∅; manager := set_is_open true initial_manager |}.
Definition ex_records : list (Z * chars) := [(0, lit "SELECT 1"); (1, lit "SELECT 2")].
Definition ex_world : wal_world :=
  (store_transaction all_written "20240101T000000" (lit "SELECT 2")
     (store_transaction all_written "20240101T000000" (lit "SELECT 1") ex_world0).2).2.

Lemma ex_time_no_dot : time_ok "20240101T000000".
Proof.
  split; [reflexivity|]. vm_compute. intros H.
  repeat (apply elem_of_cons in H as [H|H]; [discriminate|]). by apply elem_of_nil in H.
Qed.

Definition ex_file : log_file :=
  {| lf_creation_time_string := "20240101T000000"; lf_serial_number := 0;
     lf_filename := "20240101T000000.000.wal"; lf_file_size := 128;
     lf_sequence_number_range := Some (0, 1); lf_good := true |}.

Lemma ex_world_eq :
  disk ex_world = {[ "20240101T000000.000.wal"%string := encode_records ex_records ]} /\
  manager ex_world = {| wal_log_files := [ex_file]; wal_is_open := true;
                        wal_last_sequence_number := Some 1; wal_last_completed := None |}.
Proof. vm_compute. split; reflexivity. Qed.

Lemma ex_records_valid : Forall valid_record ex_records.
Proof. repeat constructor; vm_compute; discriminate. Qed.

Lemma ex_file_rep : file_rep (disk ex_world) ex_file ex_records.
Proof.
  rewrite (proj1 ex_world_eq).
  split; [apply lookup_singleton_eq|]. split; [apply ex_records_valid|]. split; [discriminate|].
  split; [reflexivity|]. split; [vm_compute; discriminate|]. split; [reflexivity|].
  split; [reflexivity|]. split; [apply ex_time_no_dot|]. cbn. split; [lia|done].
Qed.

Lemma ex_world_rep : wal_rep ex_world 0 [ex_records].
Proof.
  constructor; rewrite ?(proj2 ex_world_eq); cbn [wal_log_files wal_last_sequence_number].
  - constructor; [apply ex_file_rep|constructor].
  - repeat constructor.
  - intros n Hw [v Hv]. rewrite (proj1 ex_world_eq) in Hv.
    apply lookup_singleton_Some in Hv as [<- _]. left.
  - unfold INT32_MAX. lia.
  - by repeat split.
  - by intros r [= <-].
  - intros q [= <-]. unfold INT32_MAX. lia.
Qed.

Lemma ex_clock_ok : clock_ok (manager ex_world) "20240101T000000".
Proof.
  rewrite (proj2 ex_world_eq). split; [apply ex_time_no_dot|]. intros f [= <-]. right.
  split; [reflexivity|]. cbn. lia.
Qed.

Lemma store_transaction_appends_witness :
  exists w' rss',
    store_transaction all_written "20240101T000000" (lit "SELECT 3") ex_world = (Ok 2, w') /\
    wal_rep w' 0 rss' /\ concat rss' = ex_records ++ [(2, lit "SELECT 3")].
Proof.
  exact (store_transaction_appends all_written ex_world 0 [ex_records] "20240101T000000" (lit "SELECT 3")
    ex_world_rep ex_clock_ok ltac:(vm_compute; discriminate)).
Defined.

Lemma transaction_completed_prunes_witness :
  exists w' k,
    transaction_completed 1 true ex_world = (Ok tt, w') /\
    wal_rep w' (advance 0 (Z.of_nat (length (concat (take k [ex_records]))))) (drop k [ex_records]) /\
    Z.of_nat (length (concat (take k [ex_records]))) <= 2 /\
    (drop k [ex_records] = [] /\ true = true \/ (true = false /\ S k = length [ex_records]) \/
     2 < Z.of_nat (length (concat (take (S k) [ex_records])))).
Proof.
  apply (transaction_completed_prunes ex_world 0 [ex_records] 2 true); [apply ex_world_rep| | |];
    vm_compute; [discriminate|split; discriminate|discriminate].
Defined.

Lemma replay_transactions_after_spec_witness :
  replay_transactions_after ex_world 0
    (fun q sql => st_modify (fun l => l ++ [(q, sql)])) [] = (Ok tt, [(1, lit "SELECT 2")]).
Proof.
  change 0 with (advance 0 (1 - 1)) at 1.
  rewrite (replay_transactions_after_spec ex_world 0 [ex_records] 1); [reflexivity|apply ex_world_rep| |];
    vm_compute; discriminate.
Defined.

(** The second record was cut after 40 bytes. *)
Definition ex_torn : directory :=
  {[ "20240101T000000.000.wal"%string := encode_records [(0, lit "SELECT 1")] ++ take 40 (encode_record 1 (lit "SELECT 2")) ]}.

Lemma wal_open_recovers_witness :
  (exists w', wal_open true true (fun _ => true) {| disk := disk ex_world; manager := initial_manager |} = (Ok tt, w') /\
    disk w' = disk ex_world /\ wal_log_files (manager w') = wal_log_files (manager ex_world) /\
    wal_rep w' 0 [ex_records] /\ wal_last_sequence_number (manager w') = Some 1) /\
  exists e w', wal_open true true (fun _ => true) {| disk := ex_torn; manager := initial_manager |} = (Throw e, w').
Proof.
  destruct (wal_open_recovers ex_world 0 [ex_records] ex_world_rep) as [H1 H2]. split; [exact H1|].
  apply (H2 _ "20240101T000000.000.wal"%string).
  exists "20240101T000000"%string, 0, [(0, lit "SELECT 1")], 1, (lit "SELECT 2"), 40%nat.
  split; [reflexivity|]. split; [apply ex_time_no_dot|]. split; [lia|]. split; [apply lookup_singleton_eq|].
  split; [repeat constructor; vm_compute; discriminate|]. split; [split; vm_compute; [split; discriminate|discriminate]|].
  split; [vm_compute; lia|left; lia].
Defined.

(** When the clock has gone back since the last file was created, the file that
    [store_transaction] adds gets a name that sorts before it: opening the directory
    later reads the two in the wrong order. *)
Theorem clock_back_misorders_files dir m rs now f serial :
  last (wal_log_files m) = Some f -> file_rep dir f rs ->
  time_ok now -> string_ltb now (lf_creation_time_string f) = true ->
  find_serial (serial_fuel (Some f)) (Some f) now 0 = Some serial ->
  string_ltb (wal_filename now serial) (lf_filename f) = true.
Proof.
  intros Hl (_&_&_&_&_&_&->&Ht&_) Hnow Hlt _. by apply wal_filename_later.
Qed.

Lemma clock_back_misorders_files_witness :
  string_ltb (wal_filename "20230101T000000" 1) "20240101T000000.000.wal" = true.
Proof.
  apply (clock_back_misorders_files (disk ex_world) (manager ex_world) ex_records "20230101T000000"
    ex_file 1); [by rewrite (proj2 ex_world_eq)|apply ex_file_rep| |reflexivity|reflexivity].
  split; [reflexivity|]. vm_compute. intros H.
  repeat (apply elem_of_cons in H as [H|H]; [discriminate|]). by apply elem_of_nil in H.
Defined.
