(* ===== verification/WalRecovery.v ===== *)
(** * Live synchronisation through the write-ahead log, with crashes

    Models [livesync_data_dumper::processing_thread] (the queue between the main
    thread and the thread that runs SQL) and
    [sql_serializer_plugin_impl::replay_wal_if_necessary], on top of the
    write-ahead log.  The main thread and the processing thread interleave at
    their critical sections; a crash may happen between any two of them and drops
    everything but the log directory and the database.

    PostgreSQL is a parameter: it decides whether a statement succeeds; a
    committed transaction adds its statements to the executed ones and updates
    [hafd.write_ahead_log_state] atomically.

    What the steps leave out, and the theorems therefore do not speak of: a crash
    inside the write of a record (WalRefinement has what it leaves, and a restart over
    it throws), a clock that goes back, a connection that is lost inside a transaction
    (Pipeline), and the orderly shutdown followed by another run, which deletes the log
    ([stale_sequence_number_loses_command]).

    Main result: whatever the interleaving and the crashes, the commands executed
    by the database are a prefix of the commands stored in the log, each exactly
    once and in order, and a restart brings the database up to all of them.  Commands
    stored before the database has committed its first sequence number are the
    exception: a restart that finds no number gives them up, and the steps count them. *)

From S2P Require Import Prelude Text WriteAheadLog WalRefinement.
From Stdlib Require Import ZArith Lia Ascii String.
From stdpp Require Import base list strings gmap sorting.

Open Scope Z_scope.
Open Scope haf_scope.

(** Statements a committed transaction has executed, apart from the update of the
    sequence number, which is kept separately. *)
Inductive stmt :=
| Command (sql : chars)
| PruneBlocksData (tail : Z).

Record database := {
  db_executed : list stmt;
  db_wal_sequence_number : option Z    (* hafd.write_ahead_log_state *)
}.

Inductive worker :=
| Waiting                               (* in the wait of run(), or before it *)
| Running (command : Z * chars)         (* dequeued, transaction not committed *)
| Completing (sequence_number : Z).     (* committed, the log not notified *)

Record live_state := {
  ls_wal : wal_world;
  ls_db : database;
  ls_pending : option (Z * chars);      (* stored by enqueue, not yet queued *)
  ls_queue : list (Z * chars);          (* _command_queue *)
  ls_worker : worker;
  ls_up : bool                          (* false after a crash *)
}.

Section recovery.
  Context (sql_ok : list stmt -> chars -> bool) (pruning : Z) (max_queue_depth : nat).

(** ** [processing_thread::enqueue] *)

(** First critical section, inside the log: store and flush. *)
Definition enqueue_store (os : storage) (now : string) (sql : chars) : ST live_state wal_error unit :=
  fun st =>
  match store_transaction os now sql (ls_wal st) with
  | (Ok sequence_number, w) =>
      (Ok tt, {| ls_wal := w; ls_db := ls_db st; ls_pending := Some (sequence_number, sql);
                 ls_queue := ls_queue st; ls_worker := ls_worker st; ls_up := ls_up st |})
  | (Throw e, w) =>
      (Throw e, {| ls_wal := w; ls_db := ls_db st; ls_pending := ls_pending st;
                   ls_queue := ls_queue st; ls_worker := ls_worker st; ls_up := ls_up st |})
  end.

(** Second critical section: the wait of the condition variable has ended. *)
Definition enqueue_push (st : live_state) : option live_state :=
  match ls_pending st with
  | Some command =>
      if (length (ls_queue st) <? max_queue_depth)%nat then
        Some {| ls_wal := ls_wal st; ls_db := ls_db st; ls_pending := None;
                ls_queue := ls_queue st ++ [command]; ls_worker := ls_worker st;
                ls_up := ls_up st |}
      else None
  | None => None
  end.

(** ** [processing_thread::run] *)

Definition run_dequeue (st : live_state) : option live_state :=
  match ls_worker st, ls_queue st with
  | Waiting, command_to_run :: rest =>
      Some {| ls_wal := ls_wal st; ls_db := ls_db st; ls_pending := ls_pending st;
              ls_queue := rest; ls_worker := Running command_to_run; ls_up := ls_up st |}
  | _, _ => None
  end.

(** The transaction of [run]: the command, the new sequence number and, for every
    tenth sequence number, the pruning, committed together or not at all, as the
    transaction controller provides while the connection is not lost
    (TransactionControllers). *)
Definition run_transaction (db : database) (command_to_run : Z * chars) : option database :=
  if sql_ok (db_executed db) command_to_run.2 then
    Some {| db_executed := db_executed db ++ [Command command_to_run.2] ++
              (if (0 <? pruning) && (Z.rem command_to_run.1 10 =? 0) then [PruneBlocksData pruning]
               else []);
            db_wal_sequence_number := Some command_to_run.1 |}
  else None.

Definition down (w : directory) (db : database) : live_state :=
  {| ls_wal := {| disk := w; manager := initial_manager |}; ls_db := db; ls_pending := None;
     ls_queue := []; ls_worker := Waiting; ls_up := false |}.

(** A failing statement kills the application; nothing is committed. *)
Definition run_execute (st : live_state) : option live_state :=
  match ls_worker st with
  | Running command_to_run =>
      match run_transaction (ls_db st) command_to_run with
      | Some db => Some {| ls_wal := ls_wal st; ls_db := db; ls_pending := ls_pending st;
                           ls_queue := ls_queue st; ls_worker := Completing command_to_run.1;
                           ls_up := ls_up st |}
      | None => Some (down (disk (ls_wal st)) (ls_db st))
      end
  | _ => None
  end.

Definition run_complete (st : live_state) : option live_state :=
  match ls_worker st with
  | Completing sequence_number =>
      match transaction_completed sequence_number false (ls_wal st) with
      | (Ok _, w) => Some {| ls_wal := w; ls_db := ls_db st; ls_pending := ls_pending st;
                             ls_queue := ls_queue st; ls_worker := Waiting; ls_up := ls_up st |}
      | (Throw _, _) => None
      end
  | _ => None
  end.

(** [enqueue] while the log is not open: the command is executed by the caller, in a
    transaction of its own that does not touch the sequence number; [None] when the
    statement throws. *)
Definition enqueue_direct (sql : chars) (st : live_state) : option live_state :=
  if wal_is_open (manager (ls_wal st)) then None
  else if sql_ok (db_executed (ls_db st)) sql then
    Some {| ls_wal := ls_wal st;
            ls_db := {| db_executed := db_executed (ls_db st) ++ [Command sql];
                        db_wal_sequence_number := db_wal_sequence_number (ls_db st) |};
            ls_pending := ls_pending st; ls_queue := ls_queue st; ls_worker := ls_worker st;
            ls_up := ls_up st |}
  else None.

(** One turn of [run]'s loop at a time; [None] where the thread waits for a command.
    After [shutdown] that is where it leaves, and the destructor waits for it. *)
Definition run_turn (st : live_state) : option live_state :=
  match ls_worker st with
  | Waiting => run_dequeue st
  | Running _ => run_execute st
  | Completing _ => run_complete st
  end.

Fixpoint run_until_empty (fuel : nat) (st : live_state) : live_state :=
  match fuel with
  | O => st
  | S fuel' => match run_turn st with Some st' => run_until_empty fuel' st' | None => st end
  end.

(** Three turns for each queued command, and those left for the current one. *)
Definition turns_left (st : live_state) : nat :=
  3 * length (ls_queue st) +
  match ls_worker st with Waiting => 0 | Running _ => 2 | Completing _ => 1 end.

(** ** [replay_wal_if_necessary] *)

(** One replayed transaction: no pruning here. *)
Definition replay_transaction (sequence_number : Z) (query : chars) : ST database wal_error unit :=
  let* db := st_get in
  if sql_ok (db_executed db) query then
    st_put {| db_executed := db_executed db ++ [Command query];
              db_wal_sequence_number := Some sequence_number |}
  else st_throw ReplayFailed.

Definition replay_wal_if_necessary (w : wal_world) : ST database wal_error unit :=
  let* db := st_get in
  match db_wal_sequence_number db, wal_last_sequence_number (manager w) with
  | Some last_wal_sequence_number_in_db, Some sequence_number_according_to_log =>
      st_when (is_less_than last_wal_sequence_number_in_db sequence_number_according_to_log)
        (replay_transactions_after w last_wal_sequence_number_in_db replay_transaction)
  | _, _ => st_ret tt
  end.

(** Start of the program over what a crash left: [write_ahead_log.open], then the
    replay before the first block.  A failing replay leaves the program down with
    the transactions replayed so far committed. *)
Definition restart (st : live_state) : outcome wal_error live_state :=
  match wal_open true true (fun _ => true) {| disk := disk (ls_wal st); manager := initial_manager |} with
  | (Throw e, _) => Throw e
  | (Ok _, w) =>
      match replay_wal_if_necessary w (ls_db st) with
      | (Ok _, db) => Ok {| ls_wal := w; ls_db := db; ls_pending := None; ls_queue := [];
                            ls_worker := Waiting; ls_up := true |}
      | (Throw _, db) => Ok (down (disk w) db)
      end
  end.

(** ** Interleavings *)

(** [step n hist st n' hist' st']: [hist] collects the commands stored so far, of which the
    first [n] were given up by a restart that found no sequence number in the database. *)
Inductive step : nat -> list chars -> live_state -> nat -> list chars -> live_state -> Prop :=
| StepStore n hist st now sql st' :
    ls_up st = true -> ls_pending st = None ->
    clock_ok (manager (ls_wal st)) now -> Z.of_nat (length sql) <= 2 ^ 31 ->
    enqueue_store all_written now sql st = (Ok tt, st') -> step n hist st n (hist ++ [sql]) st'
| StepPush n hist st st' :
    ls_up st = true -> enqueue_push st = Some st' -> step n hist st n hist st'
| StepDequeue n hist st st' :
    ls_up st = true -> run_dequeue st = Some st' -> step n hist st n hist st'
| StepExecute n hist st st' :
    ls_up st = true -> run_execute st = Some st' -> step n hist st n hist st'
| StepComplete n hist st st' :
    ls_up st = true -> run_complete st = Some st' -> step n hist st n hist st'
| StepCrash n hist st :
    ls_up st = true -> step n hist st n hist (down (disk (ls_wal st)) (ls_db st))
| StepRestart n hist st st' :
    ls_up st = false -> restart st = Ok st' ->
    step n hist st (if db_wal_sequence_number (ls_db st) then n else length hist) hist st'.

(** First start: an empty log directory and a database that has not seen the log. *)
Definition first_start : live_state :=
  {| ls_wal := {| disk := ∅; manager := set_is_open true initial_manager |};
     ls_db := {| db_executed := []; db_wal_sequence_number := None |};
     ls_pending := None; ls_queue := []; ls_worker := Waiting; ls_up := true |}.

Inductive reachable : nat -> list chars -> live_state -> Prop :=
| ReachInit : reachable 0 [] first_start
| ReachStep n hist st n' hist' st' :
    reachable n hist st -> step n hist st n' hist' st' -> reachable n' hist' st'.

(** The commands among the executed statements. *)
Definition executed_commands (db : database) : list chars :=
  omap (fun s => match s with Command sql => Some sql | PruneBlocksData _ => None end)
    (db_executed db).

(** ** The invariant *)

Definition number (hist : list chars) : list (Z * chars) :=
  imap (fun i sql => (Z.of_nat i, sql)) hist.

Definition in_flight (st : live_state) : list (Z * chars) :=
  match ls_worker st with Running c => [c] | _ => [] end ++ ls_queue st ++
  match ls_pending st with Some c => [c] | None => [] end.

(** The database is past the first [n] commands, of which it skipped [l]; the first [d] ones
    are no longer in the log. *)
Record live_inv (l : nat) (hist : list chars) (st : live_state) (n d : nat)
    (m : write_ahead_log_manager) (rss : list (list (Z * chars))) : Prop := {
  inv_rep : wal_rep {| disk := disk (ls_wal st); manager := m |} (Z.of_nat d) rss;
  inv_log : concat rss = drop d (number hist);
  inv_kept : hist <> [] -> (d < length hist)%nat;
  inv_order : (d <= n <= length hist)%nat;
  inv_skipped : (l <= n)%nat;
  inv_executed : executed_commands (ls_db st) = drop l (take n hist);
  inv_seq : db_wal_sequence_number (ls_db st) =
              (if bool_decide (n = l) then None else Some (Z.of_nat n - 1));
  inv_manager : ls_up st = true -> manager (ls_wal st) = m;
  inv_fresh : ls_up st = true -> hist = [] -> wal_last_sequence_number m = None;
  inv_flight : ls_up st = true -> drop n (number hist) = in_flight st;
  inv_completing : forall q, ls_worker st = Completing q -> q = Z.of_nat n - 1 /\ (l < n)%nat
}.

Definition live_ok (l : nat) (hist : list chars) (st : live_state) : Prop :=
  exists n d m rss, live_inv l hist st n d m rss.

Lemma number_snoc hist sql : number (hist ++ [sql]) = number hist ++ [(Z.of_nat (length hist), sql)].
Proof. unfold number. by rewrite imap_app; cbn; rewrite Nat.add_0_r. Qed.

Lemma length_number hist : length (number hist) = length hist.
Proof. apply length_imap. Qed.

Lemma lookup_number hist i sql : hist !! i = Some sql -> number hist !! i = Some (Z.of_nat i, sql).
Proof. intros H. unfold number. by rewrite list_lookup_imap, H. Qed.

Lemma advance_small d k :
  0 <= d + k <= INT32_MAX -> advance d k = d + k.
Proof. intros. unfold advance, SEQ_MOD, INT32_MAX in *. apply Z.mod_small. lia. Qed.

Lemma executed_commands_app l1 l2 q :
  executed_commands {| db_executed := l1 ++ l2; db_wal_sequence_number := q |} =
  executed_commands {| db_executed := l1; db_wal_sequence_number := q |} ++
  executed_commands {| db_executed := l2; db_wal_sequence_number := q |}.
Proof. unfold executed_commands. cbn. apply omap_app. Qed.

Lemma live_inv_init : live_inv 0 [] first_start 0 0 (set_is_open true initial_manager) [].
Proof.
  constructor; try done.
  constructor; cbn; try done; try by constructor.
  intros n _ [v Hv]. by rewrite lookup_empty in Hv.
Qed.

(** The next sequence number is the number of commands stored so far. *)
Lemma live_inv_next l hist st n d m rss :
  live_inv l hist st n d m rss -> ls_up st = true -> Z.of_nat (length hist) <= SEQ_WINDOW ->
  get_next_sequence_number (manager (ls_wal st)) = Z.of_nat (length hist) /\
  log_start (ls_wal st) (Z.of_nat d) = Z.of_nat d.
Proof.
  intros I Hup Hw. rewrite (inv_manager _ _ _ _ _ _ _ I Hup).
  pose proof (inv_rep _ _ _ _ _ _ _ I) as R. pose proof (wal_rep_no_files _ _ _ R) as Hno.
  cbn in Hno. unfold log_start. rewrite (inv_manager _ _ _ _ _ _ _ I Hup).
  pose proof (inv_order _ _ _ _ _ _ _ I) as Ho.
  destruct hist as [|c0 hist0] eqn:Eh.
  - unfold get_next_sequence_number. rewrite (inv_fresh _ _ _ _ _ _ _ I Hup eq_refl).
    split; [done|]. cbn in Ho. case_bool_decide; lia.
  - assert (concat rss <> []) as Hne.
    { rewrite (inv_log _ _ _ _ _ _ _ I). intros E%(f_equal length).
      rewrite length_drop, length_number in E.
      pose proof (inv_kept _ _ _ _ _ _ _ I ltac:(done)). cbn in *. lia. }
    pose proof (next_sequence_number_numbered _ _ _ R Hne) as Hnext. cbn [manager] in Hnext.
    rewrite Hnext, (inv_log _ _ _ _ _ _ _ I), length_drop, length_number.
    unfold SEQ_WINDOW, INT32_MAX in *.
    split; [rewrite advance_small; unfold INT32_MAX; lia|].
    rewrite bool_decide_false; [done|]. by rewrite <- Hno.
Qed.

Lemma store_preserves l hist st now sql st' :
  live_ok l hist st -> ls_up st = true -> ls_pending st = None ->
  clock_ok (manager (ls_wal st)) now -> Z.of_nat (length sql) <= 2 ^ 31 ->
  Z.of_nat (length hist) < SEQ_WINDOW ->
  enqueue_store all_written now sql st = (Ok tt, st') -> live_ok l (hist ++ [sql]) st'.
Proof.
  intros (n & d & m & rss & I) Hup Hp Hc Hl Hw E.
  destruct (live_inv_next _ _ _ _ _ _ _ I Hup ltac:(lia)) as [Hnext Hstart].
  pose proof (inv_manager _ _ _ _ _ _ _ I Hup) as Hm. pose proof (inv_rep _ _ _ _ _ _ _ I) as R.
  rewrite <- Hm in R. destruct (ls_wal st) as [dsk mgr] eqn:Ew. cbn in R, Hc.
  destruct (store_transaction_rep _ _ _ _ _ R Hc Hl) as (w' & rss' & E' & R' & Hcat).
  rewrite Hnext in E', Hcat. rewrite Hstart in R'. unfold enqueue_store in E.
  rewrite Ew, E' in E. injection E as <-.
  destruct I as [I1 I2 I3 I4 Is I5 I6 I7 I8 I9 I10].
  exists n, d, (manager w'), rss'. constructor; cbn; try done.
  - by destruct w'.
  - rewrite Hcat, I2, number_snoc, drop_app_le; [done|]. rewrite length_number. lia.
  - intros _. rewrite length_app. cbn. destruct hist; [cbn in *; lia|].
    specialize (I3 ltac:(done)). lia.
  - rewrite length_app. lia.
  - rewrite I5, take_app_le by lia. done.
  - intros _ Hnil. by destruct hist.
  - intros _. rewrite number_snoc, drop_app_le by (rewrite length_number; lia).
    rewrite I9 by done. unfold in_flight. cbn. rewrite Hp, app_nil_r, app_assoc. done.
Qed.

Lemma push_preserves l hist st st' :
  live_ok l hist st -> ls_up st = true -> enqueue_push st = Some st' -> live_ok l hist st'.
Proof.
  intros (n & d & m & rss & I) Hup E. unfold enqueue_push in E.
  destruct (ls_pending st) as [c|] eqn:Ep; [|done]. case_match; [|done]. injection E as <-.
  destruct I as [I1 I2 I3 I4 Is I5 I6 I7 I8 I9 I10].
  exists n, d, m, rss. constructor; cbn; try done.
  intros _. rewrite I9 by done. unfold in_flight. cbn. by rewrite Ep, app_nil_r.
Qed.

Lemma dequeue_preserves l hist st st' :
  live_ok l hist st -> ls_up st = true -> run_dequeue st = Some st' -> live_ok l hist st'.
Proof.
  intros (n & d & m & rss & I) Hup E. unfold run_dequeue in E.
  destruct (ls_worker st) eqn:Ewk; try done. destruct (ls_queue st) as [|c q] eqn:Eq; [done|].
  injection E as <-. destruct I as [I1 I2 I3 I4 Is I5 I6 I7 I8 I9 I10].
  exists n, d, m, rss. constructor; cbn; try done.
  intros _. rewrite I9 by done. unfold in_flight. cbn. by rewrite Ewk, Eq.
Qed.

Lemma down_preserves l hist st : live_ok l hist st -> live_ok l hist (down (disk (ls_wal st)) (ls_db st)).
Proof.
  intros (n & d & m & rss & I). destruct I as [I1 I2 I3 I4 Is I5 I6 I7 I8 I9 I10].
  exists n, d, m, rss. constructor; cbn; done.
Qed.

Lemma run_transaction_commands db c db' :
  run_transaction db c = Some db' ->
  executed_commands db' = executed_commands db ++ [c.2] /\ db_wal_sequence_number db' = Some c.1.
Proof.
  unfold run_transaction. case_match; [|done]. intros [= <-]. split; [|done].
  unfold executed_commands. cbn. rewrite !omap_app. cbn. case_match; cbn; by rewrite ?app_nil_r.
Qed.

Lemma head_of_number hist n q sql rest :
  drop n (number hist) = (q, sql) :: rest ->
  q = Z.of_nat n /\ hist !! n = Some sql /\ rest = drop (S n) (number hist) /\
  (n < length hist)%nat.
Proof.
  intros E. assert (number hist !! n = Some (q, sql)) as Hn.
  { rewrite <- (Nat.add_0_r n), <- lookup_drop, E. done. }
  pose proof (lookup_lt_Some _ _ _ Hn) as Hlt. rewrite length_number in Hlt.
  destruct (lookup_lt_is_Some_2 _ _ Hlt) as [sql' Hs].
  pose proof (lookup_number _ _ _ Hs) as Hn'. rewrite Hn in Hn'. injection Hn' as -> ->.
  rewrite (drop_S _ _ _ Hn) in E. injection E as <-. done.
Qed.

Lemma drop_take_S {A} (l : nat) (hist : list A) n x :
  (l <= n)%nat -> hist !! n = Some x -> drop l (take n hist) ++ [x] = drop l (take (S n) hist).
Proof.
  intros Hl Hx. rewrite (take_S_r _ _ _ Hx), drop_app_le; [done|]. apply lookup_lt_Some in Hx. rewrite length_take. lia.
Qed.

Lemma execute_preserves l hist st st' :
  live_ok l hist st -> ls_up st = true -> run_execute st = Some st' -> live_ok l hist st'.
Proof.
  intros HI Hup E. unfold run_execute in E. destruct (ls_worker st) as [|[q sql]|] eqn:Ewk; try done.
  destruct (run_transaction (ls_db st) (q, sql)) as [db|] eqn:Et;
    [|injection E as <-; by apply down_preserves].
  injection E as <-. destruct (run_transaction_commands _ _ _ Et) as [Hex Hseq].
  destruct HI as (n & d & m & rss & [I1 I2 I3 I4 Is I5 I6 I7 I8 I9 I10]).
  pose proof (I9 Hup) as Hfl. unfold in_flight in Hfl. rewrite Ewk in Hfl. cbn [app] in Hfl.
  destruct (head_of_number _ _ _ _ _ Hfl) as (-> & Hs & Hrest & Hlt).
  exists (S n), d, m, rss. constructor; cbn [ls_wal ls_db ls_up ls_worker disk]; try done.
  - lia.
  - lia.
  - rewrite Hex, I5. by apply drop_take_S.
  - rewrite Hseq, bool_decide_false by lia. cbn. f_equal. lia.
  - intros ? [= <-]. cbn. lia.
Qed.

(** What the pruning after a completed command leaves is never empty: it keeps the
    last file, or stops in front of a command that is not completed. *)
Lemma pruned_log_not_empty hist d k rss w q :
  wal_rep w q (drop k rss) -> concat (drop k rss) = drop (d + length (concat (take k rss))) (number hist) ->
  (k < length rss)%nat -> (d + length (concat (take k rss)) < length hist)%nat.
Proof.
  intros R Hcat Hk. assert (drop k rss <> []) as Hdk.
  { intros E0%(f_equal length). rewrite length_drop in E0. cbn in E0. lia. }
  destruct (drop k rss) as [|rs0 rss0] eqn:Edk; [done|].
  pose proof (rep_files _ _ _ R) as H2. inversion H2 as [|f ? ? ? Hf _]; subst.
  destruct Hf as (_ & _ & Hrs0 & _). apply (f_equal length) in Hcat.
  rewrite length_drop, length_number in Hcat. cbn in Hcat. rewrite length_app in Hcat.
  destruct rs0; [done|]. cbn in Hcat. lia.
Qed.

Lemma complete_spec l hist st q :
  live_ok l hist st -> ls_up st = true -> Z.of_nat (length hist) <= SEQ_WINDOW ->
  ls_worker st = Completing q ->
  exists w, transaction_completed q false (ls_wal st) = (Ok tt, w) /\
    live_ok l hist {| ls_wal := w; ls_db := ls_db st; ls_pending := ls_pending st;
                    ls_queue := ls_queue st; ls_worker := Waiting; ls_up := ls_up st |}.
Proof.
  intros (n & d & m & rss & I) Hup Hw Ewk.
  destruct I as [I1 I2 I3 I4 Is I5 I6 I7 I8 I9 I10].
  destruct (I10 q Ewk) as [-> Hn0]. specialize (I7 Hup). subst m.
  destruct (ls_wal st) as [dsk mgr] eqn:Ew. cbn [disk manager] in I1 |- *.
  assert (hist <> []) as Hne by (intros ->; cbn in *; lia). specialize (I3 Hne).
  assert (length (concat rss) = (length hist - d)%nat) as Hlen
    by (rewrite I2, length_drop, length_number; done).
  destruct (transaction_completed_rep _ _ _ (Z.of_nat (n - d)) false I1) as
    (w' & k & Ec & Rk & Hk & Hcase).
  { cbn. rewrite <- (wal_rep_no_files _ _ _ I1). intros E0. rewrite E0 in Hlen. cbn in Hlen. lia. }
  { lia. } { lia. }
  rewrite advance_small in Ec by (unfold SEQ_WINDOW, INT32_MAX in *; lia).
  replace (Z.of_nat d + (Z.of_nat (n - d) - 1)) with (Z.of_nat n - 1) in Ec by lia.
  exists w'. split; [exact Ec|].
  set (j := length (concat (take k rss))) in *.
  rewrite advance_small in Rk by (unfold SEQ_WINDOW, INT32_MAX in *; lia).
  rewrite <- Nat2Z.inj_add in Rk.
  assert (concat (drop k rss) = drop (d + j) (number hist)) as Hcat.
  { rewrite <- drop_drop, <- I2. rewrite <- (take_drop k rss) at 2. rewrite concat_app.
    unfold j. by rewrite drop_app_length. }
  assert (d + j < length hist)%nat as Hleft.
  { destruct Hcase as [[_ ?]|[[_ Hk1]|Hk1]]; [done|by eapply pruned_log_not_empty; [..|lia]|].
    assert (length (concat (take (S k) rss)) <= length (concat rss))%nat.
    { rewrite <- (take_drop (S k) rss) at 2. rewrite concat_app, length_app. lia. }
    fold j in Hk. lia. }
  exists n, (d + j)%nat, (manager w'), (drop k rss). constructor; cbn; try done.
  - by destruct w'.
  - fold j in Hk. lia.
  - intros _. rewrite I9 by done. unfold in_flight. by rewrite Ewk.
Qed.

Lemma complete_preserves l hist st st' :
  live_ok l hist st -> ls_up st = true -> Z.of_nat (length hist) <= SEQ_WINDOW ->
  run_complete st = Some st' -> live_ok l hist st'.
Proof.
  intros HI Hup Hw E. unfold run_complete in E. destruct (ls_worker st) as [| |q] eqn:Ewk; try done.
  destruct (complete_spec _ _ _ _ HI Hup Hw Ewk) as (w & Ec & HI'). rewrite Ec in E. by injection E as <-.
Qed.

(** Replaying the commands from position [n] on: the database ends at some later
    position, at the last one when nothing failed. *)
Lemma iter_replay l hist n db :
  (l < n <= length hist)%nat -> executed_commands db = drop l (take n hist) ->
  db_wal_sequence_number db = Some (Z.of_nat n - 1) ->
  exists r n' db', iter_records replay_transaction (drop n (number hist)) db = (r, db') /\
    (n <= n' <= length hist)%nat /\ executed_commands db' = drop l (take n' hist) /\
    db_wal_sequence_number db' = Some (Z.of_nat n' - 1) /\
    (r = Ok tt -> n' = length hist) /\
    ((forall l c, sql_ok l c = true) -> r = Ok tt).
Proof.
  intros Hn. remember (length hist - n)%nat as k eqn:Ek. revert n db Hn Ek.
  induction k as [|k IH]; intros n db Hn Ek Hex Hseq.
  - rewrite drop_ge by (rewrite length_number; lia). exists (Ok tt), n, db.
    split; [done|]. repeat split; try done; lia.
  - destruct (drop n (number hist)) as [|[q sql] rest] eqn:Ed.
    { apply (f_equal length) in Ed. rewrite length_drop, length_number in Ed. cbn in Ed. lia. }
    destruct (head_of_number _ _ _ _ _ Ed) as (-> & Hs & -> & Hlt).
    cbn [iter_records fst snd]. unfold st_bind at 1, replay_transaction at 1, st_bind, st_get.
    destruct (sql_ok (db_executed db) sql) eqn:Eok.
    + unfold st_put. destruct (IH (S n)
        {| db_executed := db_executed db ++ [Command sql]; db_wal_sequence_number := Some (Z.of_nat n) |})
        as (r & n' & db' & E & Hn' & Hex' & Hseq' & Hr & Hall); try lia.
      * unfold executed_commands in *. cbn. rewrite omap_app, Hex. cbn. apply drop_take_S; [lia|done].
      * cbn. f_equal. lia.
      * exists r, n', db'. split; [exact E|]. repeat split; try done; lia.
    + unfold st_throw. exists (Throw ReplayFailed), n, db. split; [done|].
      repeat split; try done; try lia. intros Hall. congruence.
Qed.

Lemma last_drop_number hist d :
  (d < length hist)%nat -> fst <$> last (drop d (number hist)) = Some (Z.of_nat (length hist) - 1).
Proof.
  intros Hd. destruct hist as [|c hist _] using rev_ind; [cbn in Hd; lia|].
  rewrite number_snoc, length_app in *. cbn in Hd.
  rewrite drop_app_le by (rewrite length_number; lia). rewrite last_snoc. cbn. f_equal. lia.
Qed.

Lemma replay_wal_spec l hist w n d rss db :
  wal_rep w (Z.of_nat d) rss -> concat rss = drop d (number hist) -> (d < length hist)%nat ->
  (d <= n <= length hist)%nat -> (l < n)%nat -> Z.of_nat (length hist) <= SEQ_WINDOW ->
  wal_last_sequence_number (manager w) = fst <$> last (concat rss) ->
  executed_commands db = drop l (take n hist) -> db_wal_sequence_number db = Some (Z.of_nat n - 1) ->
  exists r n' db', replay_wal_if_necessary w db = (r, db') /\
    (n <= n' <= length hist)%nat /\ executed_commands db' = drop l (take n' hist) /\
    db_wal_sequence_number db' = Some (Z.of_nat n' - 1) /\
    (r = Ok tt -> n' = length hist) /\
    ((forall l c, sql_ok l c = true) -> r = Ok tt).
Proof.
  intros R Hlog Hd Hn Hn0 Hw Hlast Hex Hseq.
  unfold replay_wal_if_necessary, st_bind, st_get. rewrite Hseq, Hlast, Hlog, last_drop_number by done.
  assert (forall k, (k <= length hist)%nat -> (0 < k)%nat ->
    advance 0 (Z.of_nat k - 1) = Z.of_nat k - 1) as Hadv.
  { intros k Hk Hk0. rewrite advance_small; unfold SEQ_WINDOW, INT32_MAX in *; lia. }
  rewrite <- (Hadv n), <- (Hadv (length hist)), is_less_than_advance by lia.
  destruct (Z.ltb_spec (Z.of_nat n - 1) (Z.of_nat (length hist) - 1)); cbn [st_when].
  - rewrite Hadv by lia.
    replace (Z.of_nat n - 1) with (advance (Z.of_nat d) (Z.of_nat (n - d) - 1))
      by (rewrite advance_small; unfold SEQ_WINDOW, INT32_MAX in *; lia).
    rewrite (replay_transactions_after_rep _ _ _ (Z.of_nat (n - d)) _ _ R);
      [|lia|rewrite Hlog, length_drop, length_number; lia].
    rewrite Nat2Z.id, Hlog, drop_drop. replace (d + (n - d))%nat with n by lia.
    apply iter_replay; [lia|done|done].
  - exists (Ok tt), n, db. split; [done|]. repeat split; try done; lia.
Qed.

(** How many commands are given up by a restart. *)
Definition skipped_after (l : nat) (hist : list chars) (st : live_state) : nat :=
  if db_wal_sequence_number (ls_db st) then l else length hist.

(** Without a sequence number in the database nothing is replayed. *)
Lemma restart_without_number l hist st n d m rss :
  live_inv l hist st n d m rss -> db_wal_sequence_number (ls_db st) = None ->
  exists st', restart st = Ok st' /\ live_ok (length hist) hist st' /\ ls_up st' = true /\
    executed_commands (ls_db st') = [].
Proof.
  intros [I1 I2 I3 I4 Is I5 I6 I7 I8 I9 I10] Hnone.
  destruct (wal_open_rep _ _ _ I1) as (w' & Eo & Hdisk & _ & R' & Hlast).
  cbn [disk] in Eo, Hdisk. unfold restart. rewrite Eo. unfold replay_wal_if_necessary, st_bind, st_get.
  rewrite Hnone in I6 |- *. case_bool_decide as Hn; [|done]. subst n.
  assert (executed_commands (ls_db st) = []) as Hex by (rewrite I5; apply drop_ge; rewrite length_take; lia).
  eexists. split; [reflexivity|]. split; [|done].
  exists (length hist), d, (manager w'), rss. constructor; cbn; try done; try lia; [by destruct w'|..].
  - rewrite Hex. symmetry. apply drop_ge. rewrite length_take. lia.
  - by rewrite bool_decide_true.
  - intros _ ->. rewrite Hlast, I2. unfold number. cbn. by rewrite drop_nil.
  - intros _. by rewrite drop_ge by (rewrite length_number; lia).
Qed.

Lemma restart_with_number l hist st n d m rss :
  live_inv l hist st n d m rss -> db_wal_sequence_number (ls_db st) <> None ->
  Z.of_nat (length hist) <= SEQ_WINDOW ->
  exists st', restart st = Ok st' /\ live_ok l hist st' /\
    (ls_up st' = true -> executed_commands (ls_db st') = drop l hist) /\
    ((forall e c, sql_ok e c = true) -> ls_up st' = true).
Proof.
  intros [I1 I2 I3 I4 Is I5 I6 I7 I8 I9 I10] Hsome Hw.
  destruct (wal_open_rep _ _ _ I1) as (w' & Eo & Hdisk & _ & R' & Hlast).
  cbn [disk] in Eo, Hdisk. unfold restart. rewrite Eo. rewrite I6 in Hsome.
  case_bool_decide as Hn0; [done|].
  assert (hist <> []) as Hne by (intros ->; cbn in I4; lia). specialize (I3 Hne).
  destruct (replay_wal_spec l hist w' n d rss (ls_db st)) as
    (r & n' & db' & E & Hn' & Hex' & Hseq' & Hr & Hall); try done; try lia.
  rewrite E. destruct r as [[]|e].
  - rewrite (Hr eq_refl) in *. eexists. split; [reflexivity|]. cbn. split; [|split; [|done]].
    + exists (length hist), d, (manager w'), rss. constructor; cbn; try done; try lia.
      * by destruct w'.
      * rewrite Hseq'. rewrite bool_decide_false by lia. done.
      * intros _. rewrite drop_ge by (rewrite length_number; lia). done.
    + intros _. rewrite Hex'. by rewrite take_ge.
  - eexists. split; [reflexivity|]. cbn. split; [|split; [done|]].
    + exists n', d, (manager w'), rss. constructor; cbn; try done; try lia.
      * by destruct w'.
      * rewrite Hseq'. rewrite bool_decide_false by lia. done.
    + intros H. by specialize (Hall H).
Qed.

Lemma restart_spec l hist st :
  live_ok l hist st -> Z.of_nat (length hist) <= SEQ_WINDOW ->
  exists st', restart st = Ok st' /\ live_ok (skipped_after l hist st) hist st' /\
    (ls_up st' = true -> executed_commands (ls_db st') = drop (skipped_after l hist st) hist) /\
    ((forall e c, sql_ok e c = true) -> ls_up st' = true).
Proof.
  intros (n & d & m & rss & I) Hw. unfold skipped_after.
  destruct (db_wal_sequence_number (ls_db st)) eqn:Es; [eapply restart_with_number; [done|by rewrite Es|done]|].
  destruct (restart_without_number _ _ _ _ _ _ _ I Es) as (st' & E & HI & Hup & Hex).
  exists st'. split_and!; try done. intros _. by rewrite Hex, drop_ge.
Qed.

Lemma step_preserves l hist st l' hist' st' :
  step l hist st l' hist' st' -> Z.of_nat (length hist') <= SEQ_WINDOW ->
  live_ok l hist st -> live_ok l' hist' st'.
Proof.
  intros Hs Hw HI. destruct Hs.
  - rewrite length_app in Hw. cbn in Hw. eapply store_preserves; [exact HI|done|done|done|done|lia|done].
  - by eapply push_preserves.
  - by eapply dequeue_preserves.
  - by eapply execute_preserves.
  - by eapply complete_preserves.
  - by apply down_preserves.
  - destruct (restart_spec _ _ _ HI Hw) as (st2 & E & HI' & _). unfold skipped_after in HI'. assert (st2 = st') as <- by congruence. exact HI'.
Qed.

Lemma step_hist_grows l hist st l' hist' st' :
  step l hist st l' hist' st' -> (length hist <= length hist')%nat.
Proof. destruct 1; try done. rewrite length_app. lia. Qed.

Lemma reachable_ok l hist st :
  reachable l hist st -> Z.of_nat (length hist) <= SEQ_WINDOW -> live_ok l hist st.
Proof.
  induction 1 as [|l hist st l' hist' st' Hr IH Hs]; intros Hw.
  - eexists _, _, _, _. apply live_inv_init.
  - eapply step_preserves; [done|done|]. apply IH. apply step_hist_grows in Hs. lia.
Qed.

(** *** Orderly end of the processing thread *)

Lemma run_turn_spec l hist st :
  live_ok l hist st -> ls_up st = true -> ls_pending st = None ->
  Z.of_nat (length hist) <= SEQ_WINDOW -> (forall l c, sql_ok l c = true) ->
  match run_turn st with
  | Some st' => live_ok l hist st' /\ ls_up st' = true /\ ls_pending st' = None /\
                turns_left st = S (turns_left st')
  | None => ls_queue st = [] /\ ls_worker st = Waiting
  end.
Proof.
  intros HI Hup Hp Hw Hall. unfold run_turn, turns_left. destruct (ls_worker st) as [|c|q] eqn:Ewk.
  - destruct (run_dequeue st) as [st'|] eqn:E.
    + split; [by eapply dequeue_preserves|]. unfold run_dequeue in E. rewrite Ewk in E.
      destruct (ls_queue st); [done|]. injection E as <-. cbn. split_and!; [done|done|lia].
    + unfold run_dequeue in E. rewrite Ewk in E. by destruct (ls_queue st).
  - destruct (run_execute st) as [st'|] eqn:E.
    + split; [by eapply execute_preserves|]. unfold run_execute in E. rewrite Ewk in E.
      unfold run_transaction in E. rewrite Hall in E. injection E as <-. cbn. split_and!; [done|done|lia].
    + unfold run_execute in E. rewrite Ewk in E. by case_match.
  - destruct (complete_spec _ _ _ _ HI Hup Hw Ewk) as (w & Ec & HI').
    unfold run_complete. rewrite Ewk, Ec. cbn. split_and!; [done|done|done|lia].
Qed.

Lemma run_until_empty_spec l hist st :
  live_ok l hist st -> ls_up st = true -> ls_pending st = None ->
  Z.of_nat (length hist) <= SEQ_WINDOW -> (forall l c, sql_ok l c = true) ->
  let st' := run_until_empty (turns_left st) st in
  live_ok l hist st' /\ ls_up st' = true /\ ls_pending st' = None /\ ls_queue st' = [] /\ ls_worker st' = Waiting.
Proof.
  intros HI Hup Hp Hw Hall. remember (turns_left st) as k eqn:Ek. revert st HI Hup Hp Ek.
  induction k as [|k IH]; intros st HI Hup Hp Ek; cbn [run_until_empty].
  - split_and!; try done; unfold turns_left in Ek; destruct (ls_queue st), (ls_worker st); done || (cbn in Ek; lia).
  - pose proof (run_turn_spec l hist st HI Hup Hp Hw Hall) as Ht. destruct (run_turn st) as [st'|].
    + destruct Ht as (? & ? & ? & ?). apply IH; try done. lia.
    + destruct Ht as [Hq Hwk]. unfold turns_left in Ek. rewrite Hq, Hwk in Ek. done.
Qed.

(** With the log closed every command is executed at once, and the log and its number
    in the database stay as they are. *)
Theorem direct_commands_bypass_the_log sql st st' :
  enqueue_direct sql st = Some st' ->
  executed_commands (ls_db st') = executed_commands (ls_db st) ++ [sql] /\
  db_wal_sequence_number (ls_db st') = db_wal_sequence_number (ls_db st) /\ ls_wal st' = ls_wal st.
Proof.
  unfold enqueue_direct. repeat case_match; try done. intros [= <-]. split_and!; try done.
  unfold executed_commands. cbn. by rewrite omap_app.
Qed.

Lemma live_ok_split l hist st :
  live_ok l hist st -> ls_up st = true -> drop l hist = executed_commands (ls_db st) ++ map snd (in_flight st).
Proof.
  intros (n & d & m & rss & I) Hup.
  rewrite (inv_executed _ _ _ _ _ _ _ I), <- (inv_flight _ _ _ _ _ _ _ I Hup).
  pose proof (inv_skipped _ _ _ _ _ _ _ I). pose proof (inv_order _ _ _ _ _ _ _ I).
  rewrite <- (take_drop n hist) at 1. rewrite drop_app_le by (rewrite length_take; lia). f_equal.
  change (map snd ?l) with (snd <$> l). rewrite fmap_drop.
  f_equal. apply list_eq. intros i. rewrite list_lookup_fmap.
  unfold number. rewrite list_lookup_imap. by destruct (hist !! i).
Qed.

Lemma drained_executed l hist st :
  live_ok l hist st -> ls_up st = true -> ls_pending st = None -> ls_queue st = [] ->
  ls_worker st = Waiting -> executed_commands (ls_db st) = drop l hist.
Proof.
  intros HI Hup Hp Hq Hwk. rewrite (live_ok_split _ _ _ HI Hup). unfold in_flight.
  rewrite Hwk, Hq, Hp. cbn. by rewrite app_nil_r.
Qed.


(** An orderly shutdown loses nothing: after shutdown the processing thread works off
    its queue and stops, within three turns for each command, and when the statements
    succeed the database has executed every stored command that was not given up, once and in
    order. *)
Theorem shutdown_executes_everything skipped hist st :
  reachable skipped hist st -> Z.of_nat (length hist) <= SEQ_WINDOW -> ls_up st = true ->
  ls_pending st = None -> (forall l c, sql_ok l c = true) ->
  let st' := run_until_empty (turns_left st) st in
  run_turn st' = None /\ ls_up st' = true /\ executed_commands (ls_db st') = drop skipped hist.
Proof.
  intros Hr Hw Hup Hp Hall.
  destruct (run_until_empty_spec skipped hist st (reachable_ok _ _ _ Hr Hw) Hup Hp Hw Hall) as (HI & Hup' & Hp' & Hq & Hwk).
  cbv zeta. split; [unfold run_turn, run_dequeue; by rewrite Hwk, Hq|]. split; [done|].
  by apply drained_executed.
Qed.


End recovery.

(** ** Scenarios *)

Inductive action :=
| AStore (now sql : string)
| APush
| ADequeue
| AExecute
| AComplete
| ACrash
| AShutdown    (* orderly end: the manager's destructor runs *)
| ARestart.

Section play.
  Context (sql_ok : list stmt -> chars -> bool) (pruning : Z) (max_queue_depth : nat).

Definition play1 (st : live_state) (a : action) : option live_state :=
  match a with
  | AStore now sql =>
      match enqueue_store all_written now (lit sql) st with (Ok _, st') => Some st' | (Throw _, _) => None end
  | APush => enqueue_push max_queue_depth st
  | ADequeue => run_dequeue st
  | AExecute => run_execute sql_ok pruning st
  | AComplete => run_complete st
  | ACrash => Some (down (disk (ls_wal st)) (ls_db st))
  | AShutdown => Some (down (disk (destroy_manager (ls_wal st)).2) (ls_db st))
  | ARestart => match restart sql_ok st with Ok st' => Some st' | Throw _ => None end
  end.

Fixpoint play (st : live_state) (l : list action) : option live_state :=
  match l with
  | [] => Some st
  | a :: l' => st' ← play1 st a; play st' l'
  end.

End play.

Definition process_one (now sql : string) : list action :=
  [AStore now sql; APush; ADequeue; AExecute; AComplete].

Definition always_ok (l : list stmt) (c : chars) : bool := true.

(** An orderly shutdown deletes the log files but not the sequence number in the
    database, so the next run numbers from 0 again; a command stored by it and not
    committed before a crash is never replayed. *)
Theorem stale_sequence_number_loses_command :
  option_map (fun st => (ls_up st, map string_of_list_ascii (executed_commands (ls_db st))))
    (play always_ok 0 200 first_start
       (process_one "20240101T000000" "push 1" ++ process_one "20240101T000001" "push 2" ++
        [AShutdown; ARestart; AStore "20240101T000002" "push 3"; ACrash; ARestart]))
  = Some (true, ["push 1"%string; "push 2"%string]).
Proof. vm_compute. reflexivity. Qed.

(** Before the database has committed its first sequence number, a crash loses the
    commands stored in the log: they are not replayed. *)
Theorem null_sequence_number_loses_command :
  option_map (fun st => (ls_up st, executed_commands (ls_db st), (length (map_to_list (disk (ls_wal st))))))
    (play always_ok 0 200 first_start
       [AStore "20240101T000000" "push 1"; ACrash; ARestart])
  = Some (true, [], 1%nat).
Proof. vm_compute. reflexivity. Qed.

(** The normal case: with a sequence number in the database the same crash is harmless. *)
Lemma crash_after_commit_recovers :
  option_map (fun st => (ls_up st, map string_of_list_ascii (executed_commands (ls_db st))))
    (play always_ok 0 200 first_start
       (process_one "20240101T000000" "push 1" ++
        [AStore "20240101T000001" "push 2"; ACrash; ARestart]))
  = Some (true, ["push 1"%string; "push 2"%string]).
Proof. vm_compute. reflexivity. Qed.

(** *** Witnesses *)

Definition ex_time : string := "20240101T000000".
Definition ex_live (l : list action) : live_state :=
  default first_start (play always_ok 7 200 first_start l).
Definition ex_crashed : live_state :=
  ex_live [AStore ex_time "push 1"; APush; ADequeue; AExecute; ACrash].

Lemma ex_time_ok : time_ok ex_time.
Proof. split; [reflexivity|]. vm_compute. intros H. by repeat (apply elem_of_cons in H as [H|H]; [discriminate|]); apply elem_of_nil in H. Qed.

Lemma ex_running_reachable :
  reachable always_ok 7 200 0 [lit "push 1"] (ex_live [AStore ex_time "push 1"; APush; ADequeue; AExecute]).
Proof.
  eapply ReachStep; [eapply ReachStep; [eapply ReachStep; [eapply ReachStep; [apply ReachInit|]|]|]|].
  - eapply (StepStore _ _ _ 0 [] _ ex_time (lit "push 1")); try (vm_compute; reflexivity).
    + split; [apply ex_time_ok|]. done.
    + vm_compute. discriminate.
  - apply StepPush; vm_compute; reflexivity.
  - apply StepDequeue; vm_compute; reflexivity.
  - apply StepExecute; vm_compute; reflexivity.
Qed.

Lemma ex_crashed_reachable : reachable always_ok 7 200 0 [lit "push 1"] ex_crashed.
Proof. eapply ReachStep; [apply ex_running_reachable|]. by apply StepCrash. Qed.

(** The same crash before the command is committed, and a restart that gives it up. *)
Definition ex_given_up : live_state := ex_live [AStore ex_time "push 1"; ACrash; ARestart].

Lemma ex_given_up_reachable : reachable always_ok 7 200 1 [lit "push 1"] ex_given_up.
Proof.
  eapply ReachStep; [eapply ReachStep; [eapply ReachStep; [apply ReachInit|]|]|].
  - eapply (StepStore _ _ _ 0 [] _ ex_time (lit "push 1")); try (vm_compute; reflexivity).
    + split; [apply ex_time_ok|]. done.
    + vm_compute. discriminate.
  - by apply StepCrash.
  - apply (StepRestart _ _ _ 0 [lit "push 1"]); vm_compute; reflexivity.
Qed.



Definition ex_queued : live_state := ex_live [AStore ex_time "push 1"; APush].

Lemma ex_queued_reachable : reachable always_ok 7 200 0 [lit "push 1"] ex_queued.
Proof.
  eapply ReachStep; [eapply ReachStep; [apply ReachInit|]|].
  - eapply (StepStore _ _ _ 0 [] _ ex_time (lit "push 1")); try (vm_compute; reflexivity).
    + split; [apply ex_time_ok|]. done.
    + vm_compute. discriminate.
  - apply StepPush; vm_compute; reflexivity.
Qed.

Lemma shutdown_executes_everything_witness :
  turns_left ex_queued = 3%nat /\
  executed_commands (ls_db (run_until_empty always_ok 7 3 ex_queued)) = [lit "push 1"].
Proof.
  split; [reflexivity|].
  apply (shutdown_executes_everything always_ok 7 200 0 [lit "push 1"] ex_queued);
    [apply ex_queued_reachable|vm_compute; discriminate|reflexivity|reflexivity|done].
Defined.
