(* ===== verification/LiveThread.v ===== *)
(** * The thread that executes logged commands ([livesync_data_dumper.cpp])

    [processing_thread] with its condition variable: the caller of [enqueue] waits for room in
    the queue, the thread waits for a command, both on the same variable and woken by
    [notify_one] after the mutex is released.  WalRecovery has the commands, the log and the
    database behind them; here are the waits, the notifications, the death of the thread and
    the destructor, and the connections of the dumper to the chain's signals.

    Commands are enqueued by one caller at a time (a flush waits for the writer that pushes the
    block).  The parameters say which statements the database accepts and whether the log can be
    told that a command is completed. *)

From S2P Require Import Prelude Text Writers.
From Stdlib Require Import ZArith Lia Ascii String.
From stdpp Require Import base list strings relations.

Open Scope nat_scope.

Inductive worker_phase :=
| WCheck                                (* the predicate of the wait is evaluated *)
| WSleep                                (* asleep in the wait *)
| WNotify (command_to_run : chars)      (* dequeued, the mutex is released *)
| WExecute (command_to_run : chars)
| WComplete (command_to_run : chars)    (* committed, the log is to be told *)
| WLeft                                 (* run() has returned *)
| WDead.                                (* an exception has left run() *)

Inductive caller_phase :=
| CNext                                 (* outside of enqueue *)
| CCheck (sql_command : chars)          (* stored in the log, the predicate is evaluated *)
| CSleep (sql_command : chars)
| CNotify                               (* queued, the mutex is released *)
| CShutdownNotify
| CWait                                 (* in _future.wait() *)
| CDone.                                (* the destructor has returned *)

Record thread_state := {
  th_todo : list chars;                 (* what the caller will still enqueue *)
  th_queue : list chars;                (* _command_queue *)
  th_shutdown_requested : bool;
  th_executed : list chars;
  th_killed : bool;                     (* _app.kill() was called *)
  th_worker : worker_phase;
  th_caller : caller_phase
}.

Definition initial (commands : list chars) : thread_state :=
  {| th_todo := commands; th_queue := []; th_shutdown_requested := false; th_executed := [];
     th_killed := false; th_worker := WCheck; th_caller := CNext |}.

(** [notify_one]: there are two threads, so it wakes the other one when that sleeps. *)
Definition wake_worker (w : worker_phase) : worker_phase := match w with WSleep => WCheck | _ => w end.
Definition wake_caller (c : caller_phase) : caller_phase := match c with CSleep sql => CCheck sql | _ => c end.

Section threads.
  Context (_max_queue_depth : nat) (sql_ok : list chars -> chars -> bool) (completes : chars -> bool).

(** ** [run]: one turn of the thread, [None] where it cannot move *)

Definition worker_turn (s : thread_state) : option thread_state :=
  let at_ queue executed killed worker caller :=
    {| th_todo := th_todo s; th_queue := queue; th_shutdown_requested := th_shutdown_requested s;
       th_executed := executed; th_killed := killed; th_worker := worker; th_caller := caller |} in
  match th_worker s with
  | WCheck =>
      match th_queue s with
      | command_to_run :: rest => Some (at_ rest (th_executed s) (th_killed s) (WNotify command_to_run) (th_caller s))
      | [] => Some (at_ [] (th_executed s) (th_killed s)
                      (if th_shutdown_requested s then WLeft else WSleep) (th_caller s))
      end
  | WNotify command_to_run =>
      Some (at_ (th_queue s) (th_executed s) (th_killed s) (WExecute command_to_run) (wake_caller (th_caller s)))
  | WExecute command_to_run =>
      if sql_ok (th_executed s) command_to_run
      then Some (at_ (th_queue s) (th_executed s ++ [command_to_run]) (th_killed s) (WComplete command_to_run) (th_caller s))
      else Some (at_ (th_queue s) (th_executed s) true WDead (th_caller s))
  | WComplete command_to_run =>
      Some (at_ (th_queue s) (th_executed s) (th_killed s)
              (if completes command_to_run then WCheck else WDead) (th_caller s))
  | WSleep | WLeft | WDead => None
  end.

(** ** [enqueue], [shutdown] and the destructor *)

Definition caller_turn (s : thread_state) : option thread_state :=
  let at_ todo queue shutdown worker caller :=
    {| th_todo := todo; th_queue := queue; th_shutdown_requested := shutdown;
       th_executed := th_executed s; th_killed := th_killed s; th_worker := worker; th_caller := caller |} in
  match th_caller s with
  | CNext =>
      match th_todo s with
      | sql_command :: rest =>
          Some (at_ rest (th_queue s) (th_shutdown_requested s) (th_worker s) (CCheck sql_command))
      | [] => Some (at_ [] (th_queue s) true (th_worker s) CShutdownNotify)
      end
  | CCheck sql_command =>
      if (length (th_queue s) <? _max_queue_depth)
      then Some (at_ (th_todo s) (th_queue s ++ [sql_command]) (th_shutdown_requested s) (th_worker s) CNotify)
      else Some (at_ (th_todo s) (th_queue s) (th_shutdown_requested s) (th_worker s) (CSleep sql_command))
  | CNotify => Some (at_ (th_todo s) (th_queue s) (th_shutdown_requested s) (wake_worker (th_worker s)) CNext)
  | CShutdownNotify => Some (at_ (th_todo s) (th_queue s) (th_shutdown_requested s) (wake_worker (th_worker s)) CWait)
  | CWait =>
      match th_worker s with
      | WLeft | WDead => Some (at_ (th_todo s) (th_queue s) (th_shutdown_requested s) (th_worker s) CDone)
      | _ => None
      end
  | CSleep _ | CDone => None
  end.

Definition turn (s s' : thread_state) : Prop := worker_turn s = Some s' \/ caller_turn s = Some s'.

Definition set_phases (w : worker_phase) (c : caller_phase) (s : thread_state) : thread_state :=
  {| th_todo := th_todo s; th_queue := th_queue s; th_shutdown_requested := th_shutdown_requested s;
     th_executed := th_executed s; th_killed := th_killed s; th_worker := w; th_caller := c |}.

(** A wait may also end without a notification. *)
Inductive step : thread_state -> thread_state -> Prop :=
| Turn s s' : turn s s' -> step s s'
| SpuriousWakeups s : step s (set_phases (wake_worker (th_worker s)) (wake_caller (th_caller s)) s).

(** ** The commands on their way *)

Definition in_worker (w : worker_phase) : list chars :=
  match w with WNotify c | WExecute c => [c] | _ => [] end.
Definition in_caller (c : caller_phase) : list chars :=
  match c with CCheck sql | CSleep sql => [sql] | _ => [] end.

Definition shutting_down (c : caller_phase) : bool :=
  match c with CShutdownNotify | CWait | CDone => true | _ => false end.

(** What the waits rely on: who sleeps has nothing to do, or is about to be notified. *)
Record thread_inv (commands : list chars) (s : thread_state) : Prop := {
  inv_shutdown : th_shutdown_requested s = shutting_down (th_caller s);
  inv_worker_sleeps : th_worker s = WSleep ->
    (th_queue s = [] /\ th_shutdown_requested s = false) \/ th_caller s = CNotify \/ th_caller s = CShutdownNotify;
  inv_caller_sleeps : forall sql, th_caller s = CSleep sql ->
    _max_queue_depth <= length (th_queue s) \/ exists c, th_worker s = WNotify c;
  inv_left : th_worker s = WLeft -> th_queue s = [] /\ th_shutdown_requested s = true;
  inv_done : th_caller s = CDone -> th_worker s = WLeft \/ th_worker s = WDead;
  inv_todo : shutting_down (th_caller s) = true -> th_todo s = [];
  inv_bound : length (th_queue s) <= _max_queue_depth;
  inv_commands : exists held,
    commands = th_executed s ++ held ++ th_queue s ++ in_caller (th_caller s) ++ th_todo s /\
    length held <= 1 /\ (th_worker s <> WDead -> held = in_worker (th_worker s))
}.

Lemma initial_inv commands : thread_inv commands (initial commands).
Proof. constructor; try done; [cbn; lia|]. exists []. cbn. split; [done|]. split; [lia|done]. Qed.

Ltac inv_phases :=
  constructor; cbn -[Nat.ltb] in *; try done; auto; try (intros; simplify_eq; by auto).

Lemma caller_turn_inv commands s s' : thread_inv commands s -> caller_turn s = Some s' -> thread_inv commands s'.
Proof.
  intros [H1 H2 H3 H4 H5 H6 H7 (held & H8 & Hl & Hh)]. unfold caller_turn.
  destruct s as [todo queue shutdown executed killed w c]; cbn -[Nat.ltb] in *.
  assert (shutdown = false -> w <> WLeft) as Hleft by (intros ? Hw; destruct (H4 Hw); congruence).
  destruct c as [|sql|sql| | | |]; cbn -[Nat.ltb]; try done.
  - destruct todo as [|sql rest]; intros [= <-]; inv_phases; try (by exists held); intros Hw; [by destruct Hleft|].
    destruct (H2 Hw) as [?|[?|?]]; [by left|done..].
  - destruct (length queue <? _max_queue_depth) eqn:E; intros [= <-].
    + apply Nat.ltb_lt in E. inv_phases; [intros Hw; by destruct Hleft|rewrite length_app; cbn; lia|].
      exists held. split; [|done]. by rewrite H8, <- !app_assoc.
    + apply Nat.ltb_ge in E. inv_phases; [|by exists held].
      intros Hw. destruct (H2 Hw) as [?|[?|?]]; [by left|done..].
  - intros [= <-]. destruct w; inv_phases; by exists held; auto.
  - intros [= <-]. destruct w; inv_phases; by exists held; auto.
  - destruct w; try done; intros [= <-]; inv_phases; by exists held.
Qed.

Lemma worker_turn_inv commands s s' : thread_inv commands s -> worker_turn s = Some s' -> thread_inv commands s'.
Proof.
  intros [H1 H2 H3 H4 H5 H6 H7 (held & H8 & Hl & Hh)]. unfold worker_turn.
  destruct s as [todo queue shutdown executed killed w c]; cbn in *.
  assert (forall sql, c = CSleep sql -> (forall y, w <> WNotify y) -> _max_queue_depth <= length queue) as Hs.
  { intros sql Hc Hw. destruct (H3 sql Hc) as [?|[y Hy]]; [done|]. by destruct (Hw y). }
  assert (c = CDone -> w = WLeft \/ w = WDead) as Hd by auto.
  destruct w as [| |x|x|x| |]; cbn; try done; specialize (Hh ltac:(done)); cbn in Hh; subst held.
  - destruct queue as [|x rest]; intros [= <-].
    + destruct shutdown; inv_phases; try (by exists []). intros sql Hc. left. by apply (Hs sql).
    + inv_phases; [intros ? _; right; by eexists|by intros [?|?]%Hd|cbn in H7; lia|].
      exists [x]. cbn. split; [done|]. split; [lia|done].
  - intros [= <-]. destruct c; inv_phases; try (by exists [x]). intros _. by destruct Hd.
  - destruct (sql_ok executed x); intros [= <-]; inv_phases; try (intros sql ?; left; by apply (Hs sql));
      try by intros [?|?]%Hd.
    + exists []. cbn. rewrite <- app_assoc. split; [done|]. split; [lia|done].
    + exists [x]. cbn. split; [done|]. split; [lia|done].
  - destruct (completes x); intros [= <-]; inv_phases; try (intros sql ?; left; by apply (Hs sql));
      try (by intros [?|?]%Hd); by exists [].
Qed.

Lemma step_inv commands s s' : thread_inv commands s -> step s s' -> thread_inv commands s'.
Proof.
  intros Hi Hs. destruct Hs as [s s' [Ht|Ht]|s]; [by eapply worker_turn_inv|by eapply caller_turn_inv|].
  destruct Hi as [H1 H2 H3 H4 H5 H6 H7 (held & H8 & Hl & Hh)].
  destruct s as [todo queue shutdown executed killed w c]; cbn in *. unfold set_phases.
  destruct w, c; inv_phases; try (by exists held; auto). by destruct H5.
Qed.

Lemma reachable_inv commands s : rtc step (initial commands) s -> thread_inv commands s.
Proof.
  intros Hr. pose proof (initial_inv commands) as Hi. induction Hr as [|a b c Hs _ IH]; [done|].
  apply IH. by eapply step_inv.
Qed.

(** ** Every schedule ends *)

Definition worker_weight (w : worker_phase) : nat :=
  match w with WNotify _ => 5 | WExecute _ => 3 | WComplete _ => 2 | WCheck => 1 | WSleep | WLeft | WDead => 0 end.
Definition caller_weight (c : caller_phase) : nat :=
  match c with
  | CCheck _ => 12 | CSleep _ => 11 | CNotify => 6 | CNext => 4 | CShutdownNotify => 3 | CWait => 1 | CDone => 0
  end.

(** A bound of the turns the two threads can still make. *)
Definition turns_left (s : thread_state) : nat :=
  10 * length (th_todo s) + 5 * length (th_queue s) + worker_weight (th_worker s) + caller_weight (th_caller s).

Lemma turn_decreases s s' : turn s s' -> turns_left s' < turns_left s.
Proof.
  destruct s as [todo queue shutdown executed killed w c]. intros [Ht|Ht]; revert Ht; unfold turns_left.
  - unfold worker_turn. cbn. destruct w; cbn; try done.
    + destruct queue as [|x rest]; intros [= <-]; cbn; [destruct shutdown; cbn; lia|lia].
    + intros [= <-]. cbn. destruct c; cbn; lia.
    + destruct (sql_ok _ _); intros [= <-]; cbn; lia.
    + destruct (completes _); intros [= <-]; cbn; lia.
  - unfold caller_turn. cbn -[Nat.ltb]. destruct c; cbn -[Nat.ltb]; try done.
    + destruct todo as [|x rest]; intros [= <-]; cbn; lia.
    + destruct (length queue <? _max_queue_depth); intros [= <-]; cbn; rewrite ?length_app; cbn; lia.
    + intros [= <-]. destruct w; cbn; lia.
    + intros [= <-]. destruct w; cbn; lia.
    + destruct w; try done; intros [= <-]; cbn; lia.
Qed.

Lemma turns_bounded n s s' : nsteps turn n s s' -> n + turns_left s' <= turns_left s.
Proof. induction 1 as [|n a b c Ht _ IH]; [lia|]. apply turn_decreases in Ht. lia. Qed.

(** Where neither thread can move: the destructor has returned, or the thread is dead and the
    caller asleep. *)
Lemma stuck_state commands s :
  0 < _max_queue_depth -> thread_inv commands s -> (forall s', ~ turn s s') ->
  (th_caller s = CDone /\ (th_worker s = WLeft \/ th_worker s = WDead)) \/
  (th_worker s = WDead /\ exists sql, th_caller s = CSleep sql).
Proof.
  intros Hd [H1 H2 H3 H4 H5 H6 H7 H8] Hstuck.
  assert (worker_turn s = None) as Hw by (destruct (worker_turn s) as [x|] eqn:E; [by destruct (Hstuck x); left|done]).
  assert (caller_turn s = None) as Hc by (destruct (caller_turn s) as [x|] eqn:E; [by destruct (Hstuck x); right|done]).
  unfold worker_turn in Hw. unfold caller_turn in Hc.
  destruct s as [todo queue shutdown executed killed w c]; cbn -[Nat.ltb] in *.
  destruct w; cbn in Hw; try done; try (by destruct queue); try (by destruct (sql_ok _ _));
    destruct c as [|sql|sql| | | |]; cbn -[Nat.ltb] in *; try done; try (by destruct todo);
    try (by destruct (length queue <? _max_queue_depth)); try (by left; auto); try (by right; eauto).
  - destruct H2 as [[-> _]|[?|?]]; [done| |done..]. destruct (H3 sql eq_refl) as [H|[? ?]]; [cbn in H; lia|done].
  - destruct H2 as [[_ ?]|[?|?]]; [done|congruence|done..].
  - destruct H4 as [_ ?]; [done|congruence].
Qed.

(** A thread whose statements are accepted and whose commands complete does not die. *)
Definition alive (s : thread_state) : Prop := th_worker s <> WDead /\ th_killed s = false.

Lemma step_alive s s' :
  (forall e c, sql_ok e c = true) -> (forall c, completes c = true) -> step s s' -> alive s -> alive s'.
Proof.
  intros Hok Hcp Hs. unfold alive. destruct Hs as [s s' [Ht|Ht]|s]; revert Ht || cbn.
  - unfold worker_turn. destruct (th_worker s) eqn:Ew; try done; rewrite ?Hok, ?Hcp;
      [destruct (th_queue s); [destruct (th_shutdown_requested s)|]|..]; intros [= <-]; cbn; naive_solver.
  - unfold caller_turn. destruct (th_worker s) eqn:Ew; repeat case_match; try done; intros [= <-]; cbn; rewrite ?Ew; naive_solver.
  - destruct (th_worker s); naive_solver.
Qed.

Lemma turn_steps s s' : rtc turn s s' -> rtc step s s'.
Proof. apply rtc_subrel. intros a b. apply Turn. Qed.

(** C7: With room for at least one command and one caller at a time, whatever the interleaving and
    the spurious wake-ups so far, the two threads make a bounded number of turns.  When neither can
    move, either the destructor has returned, the thread has left its loop and every command was
    executed, once and in order; or the thread has died, and the destructor has returned or the
    caller sleeps for good, with only a first part of the commands executed.  The thread dies only
    when a statement is refused or the log cannot be told of a completed command. *)
Theorem live_queue_drains commands s n s' :
  0 < _max_queue_depth -> rtc step (initial commands) s -> nsteps turn n s s' ->
  n <= turns_left s /\
  ((forall s'', ~ turn s' s'') ->
   (th_executed s' = commands /\ th_queue s' = [] /\ th_worker s' = WLeft /\ th_caller s' = CDone) \/
   (th_worker s' = WDead /\ (th_caller s' = CDone \/ exists sql, th_caller s' = CSleep sql) /\
    exists rest, commands = th_executed s' ++ rest)) /\
  ((forall e c, sql_ok e c = true) -> (forall c, completes c = true) -> th_worker s' <> WDead).
Proof.
  intros Hd Hr Hn. split; [apply turns_bounded in Hn; lia|].
  assert (rtc step (initial commands) s') as Hr'.
  { etrans; [exact Hr|]. apply turn_steps. apply rtc_nsteps; by exists n. }
  split.
  - intros Hstuck. pose proof (reachable_inv _ _ Hr') as Hi. destruct (inv_commands _ _ Hi) as (held & Hcmd & _ & Hh).
    destruct (stuck_state _ _ Hd Hi Hstuck) as [[Hc [Hw|Hw]]|[Hw Hc]]; [left|right; by eauto..].
    destruct (inv_left _ _ Hi Hw) as [Hq _]. rewrite (inv_todo _ _ Hi), Hq, Hc, Hh, Hw in Hcmd by (by rewrite ?Hc, ?Hw).
    cbn in Hcmd. by rewrite app_nil_r in Hcmd.
  - intros Hok Hcp. assert (alive (initial commands)) as Hi by done. enough (alive s') as [Ha _] by done.
    clear - Hr' Hok Hcp Hi. induction Hr' as [|a b c Hs _ IH]; [done|]. apply IH. by eapply step_alive.
Qed.

(** In every state the database has executed the commands in their order, from the first on, and
    the queue is within its bound. *)
Theorem executed_is_a_prefix commands s :
  rtc step (initial commands) s ->
  (exists rest, commands = th_executed s ++ rest) /\ length (th_queue s) <= _max_queue_depth.
Proof.
  intros Hr. pose proof (reachable_inv _ _ Hr) as Hi. destruct (inv_commands _ _ Hi) as (held & -> & _).
  split; [by eexists|apply (inv_bound _ _ Hi)].
Qed.

(** ** Where the caller stays blocked *)

Lemma dead_stays s s' : step s s' -> th_worker s = WDead -> th_worker s' = WDead /\ th_executed s' = th_executed s.
Proof.
  intros Hs Hw. destruct Hs as [s s' [Ht|Ht]|s]; revert Ht || cbn; [|unfold caller_turn|by rewrite Hw].
  - unfold worker_turn. by rewrite Hw.
  - destruct (th_caller s); try done;
      [destruct (th_todo s)|destruct (length (th_queue s) <? _max_queue_depth)| | |]; rewrite ?Hw; by intros [= <-].
Qed.

(** Once the thread is dead, nobody makes room in the queue: when the commands left are more than
    it holds, the caller never returns, whatever wakes it, and the destructor is not reached. *)
Theorem dead_thread_blocks_caller commands s s' :
  rtc step (initial commands) s -> th_worker s = WDead ->
  length (th_executed s) + 1 + _max_queue_depth < length commands ->
  rtc step s s' -> th_caller s' <> CDone /\ th_caller s' <> CWait.
Proof.
  intros Hr Hw Hl Hs.
  assert (th_executed s' = th_executed s) as He.
  { clear Hr Hl. induction Hs as [|a b c Hab _ IH]; [done|]. destruct (dead_stays _ _ Hab Hw) as [Hb He].
    by rewrite IH. }
  assert (thread_inv commands s') as Hi by (apply reachable_inv; by etrans).
  destruct (inv_commands _ _ Hi) as (held & Hc & Hheld & _). pose proof (inv_bound _ _ Hi) as Hb.
  enough (th_todo s' ++ in_caller (th_caller s') <> []) as Hne.
  { split; intros Hc'; apply Hne; rewrite Hc'; cbn; rewrite app_nil_r; apply (inv_todo _ _ Hi); by rewrite Hc'. }
  intros [Ht Hin]%app_eq_nil. rewrite Ht, Hin, He in Hc. rewrite Hc, !length_app in Hl. cbn in Hl. lia.
Qed.

(** A queue of depth 0 is accepted as an option, and its first command is never queued. *)
Theorem no_room_blocks_caller sql commands s :
  _max_queue_depth = 0 -> rtc step (initial (sql :: commands)) s ->
  th_executed s = [] /\ th_caller s <> CDone.
Proof.
  intros Hd Hr.
  set (P s := th_executed s = [] /\ th_queue s = [] /\ in_worker (th_worker s) = [] /\
    (th_caller s = CNext /\ th_todo s = sql :: commands \/ in_caller (th_caller s) = [sql])).
  assert (P s) as (-> & _ & _ & [[-> _]|H]); [|done|split; [done|]; intros Hc; by rewrite Hc in H].
  assert (P (initial (sql :: commands))) as Hi by (split_and!; auto).
  revert Hi. induction Hr as [|a b c Hs _ IH]; [done|]. intros Ha. apply IH. clear IH.
  destruct Hs as [a b [Ht|Ht]|a]; [revert Ht..|];
    destruct a as [todo queue shutdown executed killed w cl], Ha as (H1 & H2 & H3 & H4); cbn in *; subst.
  - unfold worker_turn. cbn. destruct w; try done; cbn in H3; try done; cbn; [destruct shutdown|destruct (completes _)];
      intros Hb; injection Hb as <-; by split_and!.
  - unfold caller_turn. cbn. destruct cl; try (by destruct H4 as [[? _]|?]).
    + destruct H4 as [[_ ->]|?]; [|done]. intros [= <-]. split_and!; cbn; auto.
    + rewrite Hd. intros Hb. injection Hb as <-. destruct H4 as [[? _]|?]; [done|]. split_and!; cbn; auto.
  - split_and!; cbn; auto; [by destruct w|]. destruct H4 as [[-> ->]|H4]; [by left|right; by destruct cl].
Qed.

End threads.

(** ** The dumper's connections and its destructor *)

(** The handlers the chain has of the dumper, and whether the dumper holds the connection. *)
Record signal_connection := { connected : bool; handlers : nat }.

Definition connect_event (c : signal_connection) : signal_connection :=
  if connected c then c else {| connected := true; handlers := S (handlers c) |}.

Definition disconnect_signal (c : signal_connection) : signal_connection :=
  if connected c then {| connected := false; handlers := pred (handlers c) |} else c.

Record dumper_connections := {
  _on_irreversible_block_conn : signal_connection;
  _on_switch_fork_conn : signal_connection;
  _on_block_fail_conn : signal_connection
}.

Definition not_connected : signal_connection := {| connected := false; handlers := 0 |}.

Definition connect_irreversible_event (d : dumper_connections) : dumper_connections :=
  {| _on_irreversible_block_conn := connect_event (_on_irreversible_block_conn d);
     _on_switch_fork_conn := _on_switch_fork_conn d; _on_block_fail_conn := _on_block_fail_conn d |}.
Definition connect_fork_event (d : dumper_connections) : dumper_connections :=
  {| _on_irreversible_block_conn := _on_irreversible_block_conn d;
     _on_switch_fork_conn := connect_event (_on_switch_fork_conn d); _on_block_fail_conn := _on_block_fail_conn d |}.
Definition connect_block_fail_event (d : dumper_connections) : dumper_connections :=
  {| _on_irreversible_block_conn := _on_irreversible_block_conn d;
     _on_switch_fork_conn := _on_switch_fork_conn d; _on_block_fail_conn := connect_event (_on_block_fail_conn d) |}.

Definition disconnect_irreversible_event (d : dumper_connections) : dumper_connections :=
  {| _on_irreversible_block_conn := disconnect_signal (_on_irreversible_block_conn d);
     _on_switch_fork_conn := _on_switch_fork_conn d; _on_block_fail_conn := _on_block_fail_conn d |}.
Definition disconnect_fork_event (d : dumper_connections) : dumper_connections :=
  {| _on_irreversible_block_conn := _on_irreversible_block_conn d;
     _on_switch_fork_conn := disconnect_signal (_on_switch_fork_conn d); _on_block_fail_conn := _on_block_fail_conn d |}.
Definition disconnect_block_fail_event (d : dumper_connections) : dumper_connections :=
  {| _on_irreversible_block_conn := _on_irreversible_block_conn d;
     _on_switch_fork_conn := _on_switch_fork_conn d; _on_block_fail_conn := disconnect_signal (_on_block_fail_conn d) |}.

(** The end of the constructor. *)
Definition connect_events (lite_mode : bool) : dumper_connections :=
  let d := connect_irreversible_event {| _on_irreversible_block_conn := not_connected;
             _on_switch_fork_conn := not_connected; _on_block_fail_conn := not_connected |} in
  if lite_mode then d else connect_block_fail_event (connect_fork_event d).

(** The writers in the order they are joined in, and the one they are cancelled in. *)
Record live_writers (P : Type) := {
  _block_writer : P; _transaction_writer : P; _transaction_multisig_writer : P; _operation_writer : P;
  _account_writer : P; _account_operations_writer : P; _applied_hardforks_writer : P
}.
Arguments _block_writer {P}. Arguments _transaction_writer {P}. Arguments _transaction_multisig_writer {P}.
Arguments _operation_writer {P}. Arguments _account_writer {P}. Arguments _account_operations_writer {P}.
Arguments _applied_hardforks_writer {P}.

Section writers.
  Context {P E : Type} (join_writer cancel_writer : P -> outcome E unit * P).

Definition live_join (w : live_writers P) : outcome E unit * list P :=
  join_processors join_writer
    [_block_writer w; _transaction_writer w; _transaction_multisig_writer w; _operation_writer w; _account_writer w;
     _account_operations_writer w; _applied_hardforks_writer w].

(** [cancel_processors] is [join_processors] with the other method. *)
Definition live_cancel (w : live_writers P) : outcome E unit * list P :=
  join_processors cancel_writer
    [_block_writer w; _transaction_writer w; _operation_writer w; _transaction_multisig_writer w; _account_writer w;
     _account_operations_writer w; _applied_hardforks_writer w].

(** The destructor: an exception of a join is logged. *)
Definition destroy_live_dumper (d : dumper_connections) (w : live_writers P) : dumper_connections * list P :=
  let d := disconnect_block_fail_event (disconnect_fork_event (disconnect_irreversible_event d)) in
  (d, snd (live_join w)).

(** A dumper is called for irreversible blocks, and for forks and failed blocks exactly when it is
    not in lite mode, once each; after its destructor the chain has no handler of it and every
    writer was joined, also behind one whose join threw. *)
Theorem dumper_is_disconnected lite_mode w :
  let d := connect_events lite_mode in
  let '(d', joined) := destroy_live_dumper d w in
  handlers (_on_irreversible_block_conn d) = 1 /\
  handlers (_on_switch_fork_conn d) = (if lite_mode then 0 else 1) /\
  handlers (_on_block_fail_conn d) = (if lite_mode then 0 else 1) /\
  handlers (_on_irreversible_block_conn d') = 0 /\ handlers (_on_switch_fork_conn d') = 0 /\
  handlers (_on_block_fail_conn d') = 0 /\
  joined = map (fun p => snd (join_writer p))
    [_block_writer w; _transaction_writer w; _transaction_multisig_writer w; _operation_writer w; _account_writer w;
     _account_operations_writer w; _applied_hardforks_writer w].
Proof.
  cbn zeta. unfold destroy_live_dumper, live_join.
  rewrite (proj1 (join_processors_joins_all join_writer _)). by destruct lite_mode.
Qed.

End writers.

Module ThreadExamples.

Definition accepting (_ : list chars) (_ : chars) : bool := true.
Definition always (_ : chars) : bool := true.

(** The worker moves whenever it can, otherwise the caller. *)
Fixpoint worker_first (depth : nat) (ok : list chars -> chars -> bool) (cp : chars -> bool) (fuel : nat)
    (s : thread_state) : nat * thread_state :=
  match fuel with
  | O => (0, s)
  | S fuel' =>
      match worker_turn ok cp s with
      | Some s' => let '(n, r) := worker_first depth ok cp fuel' s' in (S n, r)
      | None =>
          match caller_turn depth s with
          | Some s' => let '(n, r) := worker_first depth ok cp fuel' s' in (S n, r)
          | None => (0, s)
          end
      end
  end.

Lemma worker_first_turns depth ok cp fuel s :
  nsteps (turn depth ok cp) (fst (worker_first depth ok cp fuel s)) s (snd (worker_first depth ok cp fuel s)).
Proof.
  revert s. induction fuel as [|fuel IH]; intros s; [constructor|]. cbn.
  destruct (worker_turn ok cp s) as [s'|] eqn:Ew.
  - specialize (IH s'). destruct (worker_first depth ok cp fuel s') as [n r]. econstructor; [by left|exact IH].
  - destruct (caller_turn depth s) as [s'|] eqn:Ec; [|constructor].
    specialize (IH s'). destruct (worker_first depth ok cp fuel s') as [n r]. econstructor; [by right|exact IH].
Qed.

Definition commands : list chars := [lit "a"; lit "b"; lit "c"].

Lemma live_queue_drains_witness :
  let run := worker_first 1 accepting always 100 (initial commands) in
  fst run <= turns_left (initial commands) /\ th_executed (snd run) = commands.
Proof.
  cbn zeta.
  destruct (live_queue_drains 1 accepting always commands (initial commands)
    (fst (worker_first 1 accepting always 100 (initial commands)))
    (snd (worker_first 1 accepting always 100 (initial commands)))) as (Hn & Hd & Ha);
    [lia|apply rtc_refl|apply worker_first_turns|].
  split; [exact Hn|]. destruct Hd as [Hd|[Hw _]]; [|apply Hd|by destruct Ha].
  intros s'' [Ht|Ht]; vm_compute in Ht; discriminate.
Defined.

(** The log refuses to be told that the first command is completed: the thread dies without
    asking the application to stop, and the caller sleeps for good behind a full queue. *)
Theorem failed_completion_is_silent :
  let '(_, s) := worker_first 1 accepting (fun _ => false) 100 (initial (commands ++ [lit "d"])) in
  th_worker s = WDead /\ th_killed s = false /\ th_caller s = CSleep (lit "c") /\ th_executed s = [lit "a"].
Proof. by vm_compute. Qed.

End ThreadExamples.
