(* ===== verification/TransactionControllers.v ===== *)
(** * Transactions and connections ([transaction_controllers.cpp])

    [own_tx_controller] owns a connection and at most one transaction; its statements
    are executed by [with_retry], which reconnects when the connection was lost.
    [single_transaction_controller] shares one such transaction among clients.

    The server is a parameter: it answers every request ([reply]) and may lose the
    connection at any of them; whether a COMMIT whose answer was lost has taken effect
    is part of the answer.  What the server has committed is a list of transactions. *)

From S2P Require Import Prelude.
From Stdlib Require Import ZArith Lia String.
From stdpp Require Import base list strings.

Open Scope Z_scope.
Open Scope haf_scope.

(** [Failed cancelled]: the statement is refused; [cancelled] when its state is 57014, a query
    cancelled on request. *)
Inductive reply := Done | Failed (cancelled : bool) | Lost (applied : bool).

Inductive tx_error :=
| BrokenConnection                (* pqxx::broken_connection *)
| SqlError (cancelled : bool)     (* pqxx::sql_error; [cancelled]: state 57014 *)
| AssertFailed.                   (* FC_ASSERT *)

Record server_env := {
  e_reply : nat -> reply;         (* the answer to the n-th request *)
  e_interrupt : nat -> bool       (* is_interrupt_request() before the n-th request *)
}.

Section controllers.
  Context {query : Type} (env : server_env) (sync_commits : bool).

(** The server's side of [pqxx::work]. *)
Inductive work := Working (pending : list query) | Aborted.

Record controller := {
  tc_connected : bool;                 (* _opened_connection != nullptr *)
  tc_own_tx : bool;                    (* _own_tx != nullptr *)
  tc_opened_tx : option work;          (* own_transaction::_opened_tx *)
  tc_committed : list (list query);
  tc_asked : nat
}.

Definition new_controller : controller :=
  {| tc_connected := false; tc_own_tx := false; tc_opened_tx := None; tc_committed := []; tc_asked := 0 |}.

Definition TX (A : Type) : Type := ST controller tx_error A.

Definition set_connected (b : bool) (c : controller) : controller :=
  {| tc_connected := b; tc_own_tx := tc_own_tx c; tc_opened_tx := tc_opened_tx c;
     tc_committed := tc_committed c; tc_asked := tc_asked c |}.
Definition set_own_tx (b : bool) (c : controller) : controller :=
  {| tc_connected := tc_connected c; tc_own_tx := b; tc_opened_tx := tc_opened_tx c;
     tc_committed := tc_committed c; tc_asked := tc_asked c |}.
Definition set_opened_tx (w : option work) (c : controller) : controller :=
  {| tc_connected := tc_connected c; tc_own_tx := tc_own_tx c; tc_opened_tx := w;
     tc_committed := tc_committed c; tc_asked := tc_asked c |}.
Definition add_committed (t : list query) (c : controller) : controller :=
  {| tc_connected := tc_connected c; tc_own_tx := tc_own_tx c; tc_opened_tx := tc_opened_tx c;
     tc_committed := tc_committed c ++ [t]; tc_asked := tc_asked c |}.

Definition ask : TX reply := fun c =>
  (Ok (e_reply env (tc_asked c)),
   {| tc_connected := tc_connected c; tc_own_tx := tc_own_tx c; tc_opened_tx := tc_opened_tx c;
      tc_committed := tc_committed c; tc_asked := S (tc_asked c) |}).

(** ** [own_tx_controller] *)

(** [do_reconnect]: [with_retry] calls it only without a connection. *)
Definition do_reconnect : TX unit :=
  st_modify (set_opened_tx None) ;;;
  let* r := ask in
  match r with
  | Done =>
      st_modify (set_connected true) ;;;
      if sync_commits then st_ret tt
      else
        let* r := ask in                  (* SET synchronous_commit = OFF; *)
        match r with Done => st_ret tt | Failed cancelled => st_throw (SqlError cancelled) | Lost _ => st_throw BrokenConnection end
  | _ => st_throw BrokenConnection
  end.

(** [std::make_unique<pqxx::work>] *)
Definition begin_work : TX unit :=
  let* r := ask in
  match r with
  | Done => st_modify (set_opened_tx (Some (Working [])))
  | Failed cancelled => st_throw (SqlError cancelled)
  | Lost _ => st_throw BrokenConnection
  end.

(** The body of [with_retry]'s loop. *)
Definition attempt {A} (ex : TX A) : TX A :=
  let* c := st_get in
  (if tc_connected c then st_ret tt else do_reconnect) ;;;
  let* c := st_get in
  (match tc_opened_tx c with None => begin_work | Some _ => st_ret tt end) ;;;
  ex.

(** The handler of [broken_connection]. *)
Definition drop_connection (c : controller) : controller :=
  set_connected false (set_opened_tx None c).

Definition MAX_RETRY_COUNT : nat := 100.

Fixpoint with_retry {A} (retries : nat) (ex : TX A) : TX A := fun c =>
  match retries with
  | O => (Throw BrokenConnection, c)
  | S retries' =>
      match attempt ex c with
      | (Throw BrokenConnection, c1) =>
          let c2 := drop_connection c1 in
          match retries' with
          | O => (Throw BrokenConnection, c2)
          | _ => if e_interrupt env (tc_asked c2) then (Throw BrokenConnection, c2)
                 else with_retry retries' ex c2
          end
      | r => r
      end
  end.

(** A statement sent to the server. *)
Definition exec_in_work (q : query) : TX unit :=
  let* c := st_get in
  match tc_opened_tx c with
  | None => st_throw AssertFailed
  | Some Aborted => st_throw (SqlError false)
  | Some (Working pending) =>
      let* r := ask in
      match r with
      | Done => st_modify (set_opened_tx (Some (Working (pending ++ [q]))))
      | Failed cancelled => st_modify (set_opened_tx (Some Aborted)) ;;; st_throw (SqlError cancelled)
      | Lost _ => st_throw BrokenConnection
      end
  end.

(** [own_transaction::exec] *)
Definition exec (q : query) : TX unit := with_retry MAX_RETRY_COUNT (exec_in_work q).

(** [own_transaction::run_in_transaction]: the whole function is tried again. *)
Definition run_in_transaction (func : TX unit) : TX unit :=
  with_retry MAX_RETRY_COUNT
    (let* c := st_get in
     match tc_opened_tx c with None => st_throw AssertFailed | Some _ => func end).

Definition finalize_transaction : TX unit := st_modify (set_own_tx false).

(** [own_transaction::do_rollback], also the destructor. *)
Definition rollback : TX unit := st_modify (set_opened_tx None) ;;; finalize_transaction.

(** [own_transaction::commit]: not retried. *)
Definition commit : TX unit :=
  let* c := st_get in
  (match tc_opened_tx c with
   | None => st_ret tt
   | Some w =>
       let* r := ask in
       match r with
       | Done =>
           st_modify (match w with Working pending => add_committed pending | Aborted => id end) ;;;
           st_modify (set_opened_tx None)
       | Failed cancelled => st_throw (SqlError cancelled)
       | Lost applied =>
           st_modify (match w with Working pending => if applied then add_committed pending else id
                      | Aborted => id end) ;;;
           st_throw BrokenConnection
       end
   end) ;;;
  finalize_transaction.

(** [openTx]: the constructor of [own_transaction]; when it throws, no destructor runs. *)
Definition open_tx : TX unit :=
  let* c := st_get in
  st_assert (negb (tc_own_tx c)) AssertFailed ;;;
  st_modify (set_own_tx true) ;;;
  with_retry MAX_RETRY_COUNT (st_ret tt).

Definition disconnect : TX unit :=
  let* c := st_get in
  st_when (tc_connected c)
    (st_when (tc_own_tx c) rollback ;;; st_modify (set_connected false)).

Fixpoint exec_all (qs : list query) : TX unit :=
  match qs with [] => st_ret tt | q :: qs' => exec q ;;; exec_all qs' end.

Lemma with_retry_ext {A} retries (ex1 ex2 : TX A) :
  (forall c, ex1 c = ex2 c) -> forall c, with_retry retries ex1 c = with_retry retries ex2 c.
Proof.
  intros He. induction retries as [|retries IH]; intros c; [done|]. cbn [with_retry].
  assert (attempt ex1 c = attempt ex2 c) as ->.
  { unfold attempt, st_bind. destruct (st_get c) as [[c0|e] c1]; [|done].
    destruct ((if tc_connected c0 then st_ret tt else do_reconnect) c1) as [[u|e] c2]; [|done]. cbn.
    destruct (match tc_opened_tx c2 with Some _ => st_ret tt | None => begin_work end c2) as [[u'|e] c3]; [|done].
    apply He. }
  destruct (attempt ex2 c) as [[a|[]] c1]; try done. destruct retries; [done|].
  destruct (e_interrupt env _); [done|]. apply IH.
Qed.

(** A function of one statement is that statement. *)
Lemma run_in_transaction_exec q c : run_in_transaction (exec_in_work q) c = exec q c.
Proof.
  apply with_retry_ext. intros c'. unfold exec_in_work, st_bind, st_get. destruct (tc_opened_tx c') eqn:E; cbn; rewrite ?E; done.
Qed.

(** A use of the controller: [openTx], statements, [commit], and the destructor, which
    runs on every path that has constructed the transaction. *)
Definition run_transaction (qs : list query) : TX unit :=
  open_tx ;;;
  (fun c => let '(o, c1) := (exec_all qs ;;; commit) c in (o, (rollback c1).2)).

(** ** The thread of a processor

    [data_processor::handle_exception] on what the function of a processor threw, as [join] sees
    it: an SQL error of state 57014 is swallowed, any other exception is rethrown to [join]; in
    both cases [kill_node] asks the node to stop. *)
Definition thread_outcome (o : outcome tx_error unit) : outcome tx_error unit * bool :=
  match o with
  | Ok _ => (Ok tt, false)
  | Throw (SqlError true) => (Ok tt, true)
  | Throw e => (Throw e, true)
  end.

(** ** [single_transaction_controller] *)

Record shared := {
  sh_client_count : Z;                 (* _clientCount *)
  sh_own_tx : bool;                    (* _own_tx != nullptr *)
  sh_own : controller                  (* _own_contoller *)
}.

Definition new_shared : shared := {| sh_client_count := 0; sh_own_tx := false; sh_own := new_controller |}.

Definition SH (A : Type) : Type := ST shared tx_error A.

Definition on_own {A} (m : TX A) : SH A := fun s =>
  let '(o, c) := m (sh_own s) in
  (o, {| sh_client_count := sh_client_count s; sh_own_tx := sh_own_tx s; sh_own := c |}).

Definition set_shared_tx (b : bool) (s : shared) : shared :=
  {| sh_client_count := sh_client_count s; sh_own_tx := b; sh_own := sh_own s |}.
Definition set_client_count (n : Z) (s : shared) : shared :=
  {| sh_client_count := n; sh_own_tx := sh_own_tx s; sh_own := sh_own s |}.

Definition initialize_tx : SH unit :=
  st_modify (fun s => set_client_count (u32 (sh_client_count s + 1)) s) ;;;
  let* s := st_get in
  st_when (sh_client_count s =? 1)
    (st_assert (negb (sh_own_tx s)) AssertFailed ;;;
     on_own open_tx ;;; st_modify (set_shared_tx true)).

(** [_own_tx.reset()] destroys the transaction. *)
Definition reset_tx : SH unit := on_own rollback ;;; st_modify (set_shared_tx false).

Definition finalize_tx : SH unit :=
  st_modify (fun s => set_client_count (u32 (sh_client_count s - 1)) s) ;;;
  let* s := st_get in
  st_when ((sh_client_count s =? 0) && sh_own_tx s) reset_tx.

Definition do_query (q : query) : SH unit :=
  let* s := st_get in if sh_own_tx s then on_own (exec q) else st_ret tt.

Definition do_run_in_transaction (func : TX unit) : SH unit :=
  let* s := st_get in if sh_own_tx s then on_own (run_in_transaction func) else st_ret tt.

Definition do_commit : SH unit :=
  let* s := st_get in
  st_when ((sh_client_count s =? 1) && sh_own_tx s) (on_own commit ;;; reset_tx).

Definition do_rollback : SH unit :=
  let* s := st_get in st_when (sh_own_tx s) (on_own rollback ;;; reset_tx).

Definition shared_disconnect : SH unit :=
  let* s := st_get in st_when (sh_client_count s =? 0) (on_own disconnect).

Fixpoint query_all (qs : list query) : SH unit :=
  match qs with [] => st_ret tt | q :: qs' => do_query q ;;; query_all qs' end.

(** The destructor of [transaction_wrapper]; the lock it holds makes the whole life of
    a wrapper one step. *)
Definition destroy_wrapper (do_implicit_rollback : bool) : SH unit :=
  st_when do_implicit_rollback do_rollback ;;; finalize_tx.

Definition run_shared (qs : list query) : SH unit :=
  initialize_tx ;;;
  (fun s =>
     match (query_all qs ;;; do_commit) s with
     | (Ok u, s1) => (Ok u, (destroy_wrapper false s1).2)
     | (Throw e, s1) => (Throw e, (destroy_wrapper true s1).2)
     end).

(** ** Properties *)

(** The transaction is open on a live connection. *)
Definition at_work (pending : list query) (c : controller) : Prop :=
  tc_connected c = true /\ tc_opened_tx c = Some (Working pending).

Lemma with_retry_once {A} n (ex : TX A) c :
  (0 < n)%nat -> (attempt ex c).1 <> Throw BrokenConnection -> with_retry n ex c = attempt ex c.
Proof.
  intros Hn Hne. destruct n as [|n]; [lia|]. cbn [with_retry].
  destruct (attempt ex c) as [[a|[]] c1]; try done.
Qed.

Lemma with_retry_again {A} n (ex : TX A) c c1 :
  attempt ex c = (Throw BrokenConnection, c1) -> (forall k, e_interrupt env k = false) ->
  with_retry (S (S n)) ex c = with_retry (S n) ex (drop_connection c1).
Proof. intros E Hi. cbn [with_retry]. by rewrite E, Hi. Qed.

Lemma attempt_at_work {A} (ex : TX A) c pending : at_work pending c -> attempt ex c = ex c.
Proof. intros [Hc Ho]. unfold attempt, st_bind, st_get. rewrite Hc. cbn. by rewrite Ho. Qed.

(** A reconnection: a new connection with a new, empty transaction. *)
Lemma attempt_reconnects {A} (ex : TX A) c :
  tc_connected c = false -> (forall n, (tc_asked c <= n < tc_asked c + if sync_commits then 2 else 3)%nat -> e_reply env n = Done) ->
  exists c', attempt ex c = ex c' /\ at_work [] c' /\ tc_own_tx c' = tc_own_tx c /\
    tc_committed c' = tc_committed c /\ tc_asked c' = (tc_asked c + if sync_commits then 2 else 3)%nat.
Proof.
  intros Hc Hd. unfold attempt, st_bind at 1, st_get at 1. rewrite Hc.
  unfold do_reconnect, begin_work, ask, st_bind, st_modify, st_get, st_ret. cbn.
  rewrite (Hd (tc_asked c)) by (destruct sync_commits; lia). destruct sync_commits; cbn.
  - rewrite (Hd (S (tc_asked c))) by lia. eexists. split; [reflexivity|]. cbn. split_and!; try done. lia.
  - rewrite (Hd (S (tc_asked c))) by lia. cbn. rewrite (Hd (S (S (tc_asked c)))) by lia.
    eexists. split; [reflexivity|]. cbn. split_and!; try done. lia.
Qed.

Lemma exec_done q c pending :
  at_work pending c -> e_reply env (tc_asked c) = Done ->
  exists c', exec q c = (Ok tt, c') /\ at_work (pending ++ [q]) c' /\ tc_own_tx c' = tc_own_tx c /\
    tc_committed c' = tc_committed c /\ tc_asked c' = S (tc_asked c).
Proof.
  intros Hw Hd. pose proof Hw as [Hc Ho].
  assert (exec_in_work q c = (Ok tt, set_opened_tx (Some (Working (pending ++ [q]))) (ask c).2)) as E.
  { unfold exec_in_work, st_bind, st_get, ask, st_modify. rewrite Ho. cbn. by rewrite Hd. }
  exists (set_opened_tx (Some (Working (pending ++ [q]))) (ask c).2). split; [|by split_and!].
  unfold exec. rewrite with_retry_once, (attempt_at_work _ _ _ Hw); [done|unfold MAX_RETRY_COUNT; lia|].
  by rewrite (attempt_at_work _ _ _ Hw), E.
Qed.

Lemma exec_all_done qs c pending :
  at_work pending c ->
  (forall n, (tc_asked c <= n < tc_asked c + length qs)%nat -> e_reply env n = Done) ->
  exists c', exec_all qs c = (Ok tt, c') /\ at_work (pending ++ qs) c' /\ tc_own_tx c' = tc_own_tx c /\
    tc_committed c' = tc_committed c /\ tc_asked c' = (tc_asked c + length qs)%nat.
Proof.
  revert c pending. induction qs as [|q qs IH]; intros c pending Hw Hd; cbn [exec_all length].
  - exists c. rewrite app_nil_r, Nat.add_0_r. by split_and!.
  - destruct (exec_done q c pending Hw) as (c1 & E1 & Hw1 & O1 & K1 & A1); [apply Hd; cbn; lia|].
    destruct (IH c1 _ Hw1) as (c2 & E2 & Hw2 & O2 & K2 & A2).
    { intros n Hn. apply Hd. cbn. lia. }
    exists c2. unfold st_bind. rewrite E1, E2. rewrite <- app_assoc in Hw2.
    split_and!; try done; congruence || lia.
Qed.

Lemma exec_all_app qs1 qs2 c :
  exec_all (qs1 ++ qs2) c = (exec_all qs1 ;;; exec_all qs2) c.
Proof.
  revert c. induction qs1 as [|q qs1 IH]; intros c; [done|]. cbn [exec_all app]. unfold st_bind in *.
  destruct (exec q c) as [[]?]; [apply IH|done].
Qed.

Lemma open_tx_unfold c :
  tc_own_tx c = false -> open_tx c = with_retry MAX_RETRY_COUNT (st_ret tt) (set_own_tx true c).
Proof. intros Ho. unfold open_tx, st_bind, st_get, st_assert, st_modify. by rewrite Ho. Qed.

Lemma open_tx_done c :
  tc_connected c = false -> tc_own_tx c = false ->
  (forall n, (tc_asked c <= n < tc_asked c + if sync_commits then 2 else 3)%nat -> e_reply env n = Done) ->
  exists c', open_tx c = (Ok tt, c') /\ at_work [] c' /\ tc_own_tx c' = true /\
    tc_committed c' = tc_committed c /\ tc_asked c' = (tc_asked c + if sync_commits then 2 else 3)%nat.
Proof.
  intros Hc Ho Hd.
  destruct (attempt_reconnects (st_ret tt) (set_own_tx true c)) as (c' & E & Hw & O & K & A); [done|done|].
  exists c'. split; [|done]. rewrite open_tx_unfold by done.
  rewrite with_retry_once, E; [done|unfold MAX_RETRY_COUNT; lia|by rewrite E].
Qed.

(** The requests that opening a transaction takes. *)
Definition opening_requests (c : controller) : nat :=
  if tc_connected c then 1 else if sync_commits then 2 else 3.

Lemma open_tx_ready c :
  tc_own_tx c = false -> tc_opened_tx c = None ->
  (forall n, (tc_asked c <= n < tc_asked c + opening_requests c)%nat -> e_reply env n = Done) ->
  exists c', open_tx c = (Ok tt, c') /\ at_work [] c' /\ tc_own_tx c' = true /\
    tc_committed c' = tc_committed c /\ tc_asked c' = (tc_asked c + opening_requests c)%nat.
Proof.
  unfold opening_requests. destruct (tc_connected c) eqn:Hc; [|intros Ho _; by apply open_tx_done].
  intros Ho Ht Hd.
  assert (attempt (st_ret tt) (set_own_tx true c)
          = (Ok tt, set_opened_tx (Some (Working [])) (ask (set_own_tx true c)).2)) as E.
  { destruct c as [connected own opened committed asked]. cbn in *. subst connected opened.
    unfold attempt, begin_work, ask, st_bind, st_get, st_modify, st_ret. cbn. rewrite (Hd asked) by lia. done. }
  eexists. split; [|split_and!].
  - rewrite open_tx_unfold by done. rewrite with_retry_once, E; [done|unfold MAX_RETRY_COUNT; lia|by rewrite E].
  - by split.
  - done.
  - done.
  - cbn. lia.
Qed.

Lemma commit_done c pending :
  at_work pending c -> e_reply env (tc_asked c) = Done ->
  exists c', commit c = (Ok tt, c') /\ tc_opened_tx c' = None /\
    tc_committed c' = tc_committed c ++ [pending].
Proof.
  intros [Hc Ho] Hd. eexists. split; [|split].
  - unfold commit, st_bind, st_get, ask, st_modify, finalize_transaction. rewrite Ho. cbn. rewrite Hd. reflexivity.
  - done.
  - done.
Qed.

(** A statement whose connection is lost is executed again on a new connection, in a
    new transaction. *)
Lemma exec_lost_once q c pending b :
  at_work pending c -> e_reply env (tc_asked c) = Lost b ->
  (forall n, (tc_asked c < n < tc_asked c + 5)%nat -> e_reply env n = Done) ->
  (forall n, e_interrupt env n = false) ->
  exists c', exec q c = (Ok tt, c') /\ at_work [q] c' /\ tc_own_tx c' = tc_own_tx c /\
    tc_committed c' = tc_committed c /\
    tc_asked c' = (tc_asked c + if sync_commits then 4 else 5)%nat.
Proof.
  intros Hw Hl Hd Hi. pose proof Hw as [Hc Ho].
  assert (attempt (exec_in_work q) c = (Throw BrokenConnection, (ask c).2)) as E.
  { rewrite (attempt_at_work _ _ _ Hw). unfold exec_in_work, st_bind, st_get, ask, st_throw. rewrite Ho. cbn. by rewrite Hl, Ho. }
  unfold exec, MAX_RETRY_COUNT. rewrite (with_retry_again _ _ _ _ E Hi).
  set (c2 := drop_connection (ask c).2).
  destruct (attempt_reconnects (exec_in_work q) c2) as (c3 & E3 & Hw3 & O3 & K3 & A3); [done| |].
  { intros n Hn. apply Hd. cbn in Hn. destruct sync_commits; lia. }
  assert (e_reply env (tc_asked c3) = Done) as Hd3.
  { apply Hd. rewrite A3. cbn. destruct sync_commits; lia. }
  assert (exec_in_work q c3 = (Ok tt, set_opened_tx (Some (Working [q])) (ask c3).2)) as Eq.
  { destruct Hw3 as [_ Ho3]. unfold exec_in_work, st_bind, st_get, ask, st_modify. rewrite Ho3. cbn. by rewrite Hd3. }
  exists (set_opened_tx (Some (Working [q])) (ask c3).2). split.
  { rewrite with_retry_once, E3; [done|lia|]. by rewrite E3, Eq. }
  destruct Hw3 as [Hc3 _]. subst c2. cbn in *. split_and!; try done. destruct sync_commits; lia.
Qed.

Definition loses_once (k n : nat) : reply := if decide (n = k) then Lost false else Done.

(** The request of the statement at position [i] of the next transaction. *)
Definition statement_request (c : controller) (i : nat) : nat := tc_asked c + opening_requests c + i.

End controllers.
Arguments controller : clear implicits.

Section findings.
  Context {query : Type} (env : server_env) (sync : bool).

Lemma loss_splits (c : controller query) (qs1 qs2 : list query) q lost :
  tc_own_tx c = false -> tc_opened_tx c = None -> (forall n, e_interrupt env n = false) ->
  e_reply env (statement_request sync c (length qs1)) = Lost lost ->
  (forall n, n <> statement_request sync c (length qs1) -> e_reply env n = Done) ->
  exists c', run_transaction env sync (qs1 ++ q :: qs2) c = (Ok tt, c') /\
    tc_committed c' = tc_committed c ++ [q :: qs2].
Proof.
  intros Hown Hopen Hi. set (k := statement_request sync c (length qs1)). intros Hk Hdone.
  destruct (open_tx_ready env sync c) as (c1 & E1 & Hw1 & _ & K1 & A1); [done|done| |].
  { intros n Hn. apply Hdone. unfold k, statement_request. lia. }
  destruct (exec_all_done env sync qs1 c1 [] Hw1) as (c2 & E2 & Hw2 & _ & K2 & A2).
  { intros n Hn. apply Hdone. unfold k, statement_request. lia. }
  assert (tc_asked c2 = k) as Ak by (unfold k, statement_request; lia).
  destruct (exec_lost_once env sync q c2 _ lost Hw2) as (c3 & E3 & Hw3 & _ & K3 & A3).
  { by rewrite Ak. }
  { intros n Hn. apply Hdone. lia. }
  { done. }
  assert (k < tc_asked c3)%nat as Hlt by (rewrite A3, Ak; destruct sync; lia).
  destruct (exec_all_done env sync qs2 c3 [q] Hw3) as (c4 & E4 & Hw4 & _ & K4 & A4).
  { intros n Hn. apply Hdone. lia. }
  destruct (commit_done env c4 _ Hw4) as (c5 & E5 & O5 & K5); [apply Hdone; lia|].
  exists (rollback c5).2. split.
  - unfold run_transaction, st_bind at 1. rewrite E1. unfold st_bind at 1. rewrite exec_all_app.
    unfold st_bind at 1. rewrite E2. cbn [exec_all]. unfold st_bind at 1. rewrite E3, E4, E5. done.
  - cbn. rewrite K5, K4, K3, K2, K1. done.
Qed.

(** C40: A transaction that loses its connection while one of its statements is executed, whichever
    one it is, is not atomic, although it returns normally when the server answers everything
    else: the statement that was interrupted is repeated on a new connection in a new
    transaction, the statements before it are not, and exactly the interrupted statement and
    those after it are committed. *)
Theorem lost_connection_splits_transaction (c : controller query) (qs1 qs2 : list query) q lost :
  tc_own_tx c = false -> tc_opened_tx c = None -> (forall n, e_interrupt env n = false) ->
  e_reply env (statement_request sync c (length qs1)) = Lost lost ->
  (forall n, n <> statement_request sync c (length qs1) -> e_reply env n = Done) ->
  exists c', run_transaction env sync (qs1 ++ q :: qs2) c = (Ok tt, c') /\
    tc_committed c' = tc_committed c ++ [q :: qs2].
Proof. apply loss_splits. Qed.

End findings.

(** ** What a failed transaction leaves *)

Section failures.
  Context {query : Type} (env : server_env) (sync : bool).

Definition keeps_committed {A} (m : @TX query A) : Prop :=
  forall c o c', m c = (o, c') -> tc_committed c' = tc_committed c.

Lemma keeps_committed_bind {A B} (m : @TX query A) (k : A -> @TX query B) :
  keeps_committed m -> (forall a, keeps_committed (k a)) -> keeps_committed (st_bind m k).
Proof.
  intros Hm Hk c o c'. unfold st_bind. destruct (m c) as [[a|e] c1] eqn:E; [|intros [= <- <-]; by eapply Hm].
  intros E2. rewrite (Hk _ _ _ _ E2). by eapply Hm.
Qed.

Lemma ask_keeps : keeps_committed (ask env).
Proof. by intros c o c' [= <- <-]. Qed.
Lemma get_keeps : keeps_committed st_get.
Proof. by intros c o c' [= <- <-]. Qed.
Lemma ret_keeps {A} (a : A) : keeps_committed (st_ret a).
Proof. by intros c o c' [= <- <-]. Qed.
Lemma throw_keeps {A} e : keeps_committed (A := A) (st_throw e).
Proof. by intros c o c' [= <- <-]. Qed.
Lemma modify_keeps (f : controller query -> controller query) :
  (forall c, tc_committed (f c) = tc_committed c) -> keeps_committed (st_modify f).
Proof. intros Hf c o c' [= <- <-]. apply Hf. Qed.

#[local] Hint Resolve ask_keeps get_keeps ret_keeps throw_keeps : keeps.
#[local] Hint Extern 1 (keeps_committed (st_modify _)) => apply modify_keeps; reflexivity : keeps.

Ltac keeps := repeat first [ apply keeps_committed_bind; [|intros] | progress eauto with keeps | case_match ].

Lemma attempt_keeps {A} (ex : @TX query A) : keeps_committed ex -> keeps_committed (attempt env sync ex).
Proof. intros Hex. unfold attempt, do_reconnect, begin_work. keeps. Qed.

Lemma with_retry_keeps {A} n (ex : @TX query A) : keeps_committed ex -> keeps_committed (with_retry env sync n ex).
Proof.
  intros Hex. induction n as [|n IH]; intros c o c' E; cbn [with_retry] in E; [by injection E as <- <-|].
  destruct (attempt env sync ex c) as [o1 c1] eqn:Ea. pose proof (attempt_keeps _ Hex _ _ _ Ea) as K.
  destruct o1 as [a|[]]; try (by injection E as <- <-).
  destruct n; [by injection E as <- <-|]. destruct (e_interrupt env _); [by injection E as <- <-|].
  by rewrite (IH _ _ _ E).
Qed.

Lemma exec_keeps q : keeps_committed (exec env sync q).
Proof. apply with_retry_keeps. unfold exec_in_work. keeps. Qed.

Lemma exec_all_keeps qs : keeps_committed (exec_all env sync qs).
Proof. induction qs as [|q qs IH]; cbn [exec_all]; [apply ret_keeps|]. apply keeps_committed_bind; [apply exec_keeps|done]. Qed.

Lemma open_tx_keeps : keeps_committed (open_tx env sync).
Proof.
  unfold open_tx. apply keeps_committed_bind; [apply get_keeps|]. intros c0. apply keeps_committed_bind.
  - unfold st_assert. case_match; [apply ret_keeps|apply throw_keeps].
  - intros _. apply keeps_committed_bind; [by apply modify_keeps|]. intros _. apply with_retry_keeps, ret_keeps.
Qed.

(** A transaction refused by the server has committed nothing. *)
Lemma sql_error_commits_nothing qs (c : controller query) cancelled c' :
  run_transaction env sync qs c = (Throw (SqlError cancelled), c') -> tc_committed c' = tc_committed c.
Proof.
  unfold run_transaction, st_bind at 1. destruct (open_tx env sync c) as [[[]|e] c1] eqn:E1;
    pose proof (open_tx_keeps _ _ _ E1) as <-; [|by intros [= _ <-]].
  unfold st_bind at 1. destruct (exec_all env sync qs c1) as [[[]|e] c2] eqn:E2;
    pose proof (exec_all_keeps _ _ _ _ E2) as <-; [|by intros [= _ <-]].
  unfold commit, st_bind, st_get, ask, st_modify, st_throw, finalize_transaction.
  destruct (tc_opened_tx c2) as [w|] eqn:Ew; [|discriminate]. cbn.
  destruct (e_reply env (tc_asked c2)) as [|b|b]; [discriminate|by intros [= <- <-]|destruct w; discriminate].
Qed.

End failures.

Section atomicity.
  Context {query : Type} (env : server_env) (sync : bool).

Definition lossless : Prop := forall n b, e_reply env n <> Lost b.

Lemma begin_work_spec (c : controller query) o c1 :
  begin_work env c = (o, c1) ->
  tc_committed c1 = tc_committed c /\ tc_own_tx c1 = tc_own_tx c /\ tc_connected c1 = tc_connected c /\
  (o = Ok tt -> tc_opened_tx c1 = Some (Working [])).
Proof.
  unfold begin_work, st_bind, ask, st_modify, st_throw. cbn.
  destruct (e_reply env (tc_asked c)); intros [= <- <-]; done.
Qed.

Lemma do_reconnect_spec (c : controller query) o c1 :
  do_reconnect env sync c = (o, c1) ->
  tc_committed c1 = tc_committed c /\ tc_own_tx c1 = tc_own_tx c /\ tc_opened_tx c1 = None /\
  (o = Ok tt -> tc_connected c1 = true).
Proof.
  unfold do_reconnect, st_bind, ask, st_modify, st_throw, st_ret. cbn.
  destruct (e_reply env (tc_asked c)); [|by intros [= <- <-]..].
  destruct sync; [by intros [= <- <-]|]. cbn.
  destruct (e_reply env (S (tc_asked c))); intros [= <- <-]; done.
Qed.

(** An attempt that only opens. *)
Lemma attempt_opens (c : controller query) o c1 :
  attempt env sync (st_ret tt) c = (o, c1) ->
  tc_committed c1 = tc_committed c /\ tc_own_tx c1 = tc_own_tx c /\
  (tc_opened_tx c = None -> o = Ok tt -> at_work [] c1).
Proof.
  intros E. unfold attempt, st_bind at 1 2, st_get at 1 in E.
  destruct ((if tc_connected c then st_ret tt else do_reconnect env sync) c) as [o2 c2] eqn:E2.
  assert (tc_committed c2 = tc_committed c /\ tc_own_tx c2 = tc_own_tx c /\
    (tc_opened_tx c = None -> tc_opened_tx c2 = None) /\ (o2 = Ok tt -> tc_connected c2 = true)) as (K2 & O2 & W2 & C2).
  { destruct (tc_connected c) eqn:Hc; [injection E2 as <- <-; by split_and!|].
    destruct (do_reconnect_spec _ _ _ E2) as (? & ? & ? & ?). auto. }
  destruct o2 as [[]|e]; [|injection E as <- <-; by split_and!].
  unfold st_bind, st_get in E. destruct (tc_opened_tx c2) as [w|] eqn:Ew.
  { injection E as <- <-. split_and!; try done. intros Hn. specialize (W2 Hn). congruence. }
  destruct (begin_work env c2) as [o3 c3] eqn:E3. destruct (begin_work_spec _ _ _ E3) as (K3 & O3 & C3 & W3).
  assert (o = o3 /\ c1 = c3) as [-> ->] by (destruct o3 as [[]|]; by injection E as <- <-).
  split_and!; [congruence..|]. intros _ Ho. split; [rewrite C3; auto|auto].
Qed.

(** Opening leaves the committed transactions alone, and when it succeeds an empty
    transaction is open. *)
Lemma with_retry_opens n (c : controller query) o c' :
  tc_opened_tx c = None -> with_retry env sync n (st_ret tt) c = (o, c') ->
  tc_committed c' = tc_committed c /\ tc_own_tx c' = tc_own_tx c /\ (o = Ok tt -> at_work [] c').
Proof.
  revert c. induction n as [|n IH]; intros c Ho E; cbn [with_retry] in E; [by simplify_eq|].
  destruct (attempt env sync (st_ret tt) c) as [o1 c1] eqn:Ea.
  destruct (attempt_opens _ _ _ Ea) as (K1 & O1 & W1).
  destruct o1 as [[]|[]]; [simplify_eq; by auto| |by simplify_eq|by simplify_eq].
  destruct n as [|n]; [by simplify_eq/=|]. destruct (e_interrupt env _); [by simplify_eq/=|].
  destruct (IH (drop_connection c1) eq_refl E) as (K & O & W). cbn in *. split_and!; [congruence..|done].
Qed.

Lemma exec_lossless q (c : controller query) pending o c' :
  lossless -> at_work pending c -> exec env sync q c = (o, c') ->
  tc_committed c' = tc_committed c /\ (o = Ok tt -> at_work (pending ++ [q]) c').
Proof.
  intros Hl Hw E. unfold exec in E. pose proof Hw as [Hc Ho].
  assert (exec_in_work env q c = (Ok tt, set_opened_tx (Some (Working (pending ++ [q]))) (ask env c).2) \/
          exists cancelled, exec_in_work env q c = (Throw (SqlError cancelled), set_opened_tx (Some Aborted) (ask env c).2)) as Hex.
  { unfold exec_in_work, st_bind, st_get, ask, st_modify, st_throw. rewrite Ho. cbn.
    destruct (e_reply env (tc_asked c)) as [|cancelled|b] eqn:Er; [by left|right; by exists cancelled|by destruct (Hl _ _ Er)]. }
  rewrite with_retry_once, (attempt_at_work _ _ _ _ _ Hw) in E;
    [|unfold MAX_RETRY_COUNT; lia|rewrite (attempt_at_work _ _ _ _ _ Hw); by destruct Hex as [-> |[? ->]]].
  destruct Hex as [Hex|[cancelled Hex]]; rewrite Hex in E; simplify_eq; done.
Qed.

Lemma exec_all_lossless qs (c : controller query) pending o c' :
  lossless -> at_work pending c -> exec_all env sync qs c = (o, c') ->
  tc_committed c' = tc_committed c /\ (o = Ok tt -> at_work (pending ++ qs) c').
Proof.
  intros Hl. revert c pending. induction qs as [|q qs IH]; intros c pending Hw E; cbn [exec_all] in E.
  - injection E as <- <-. split; [done|]. intros _. by rewrite app_nil_r.
  - unfold st_bind in E. destruct (exec env sync q c) as [[[]|e] c1] eqn:E1;
      destruct (exec_lossless _ _ _ _ _ Hl Hw E1) as [K1 W1]; [|by simplify_eq].
    destruct (IH c1 _ (W1 eq_refl) E) as [K W]. split; [by rewrite K|]. rewrite <- app_assoc in W. done.
Qed.

Lemma commit_lossless (c : controller query) pending o c' :
  lossless -> at_work pending c -> commit env c = (o, c') ->
  tc_committed c' = tc_committed c ++ match o with Ok _ => [pending] | Throw _ => [] end.
Proof.
  intros Hl [Hc Ho]. unfold commit, st_bind, st_get, ask, st_modify, st_throw, finalize_transaction.
  rewrite Ho. cbn. destruct (e_reply env (tc_asked c)) as [| |b] eqn:Er; cbn.
  - by intros [= <- <-].
  - intros [= <- <-]. cbn. by rewrite app_nil_r.
  - by destruct (Hl _ _ Er).
Qed.

(** C32: As long as no connection is lost a transaction is atomic: when it returns, all its
    statements are committed together, in order; when it throws, none is. *)
Theorem atomic_without_loss qs (c : controller query) o c' :
  lossless -> tc_opened_tx c = None -> run_transaction env sync qs c = (o, c') ->
  tc_committed c' = tc_committed c ++ match o with Ok _ => [qs] | Throw _ => [] end.
Proof.
  intros Hl Ho. unfold run_transaction, st_bind at 1.
  destruct (open_tx env sync c) as [[[]|e] c1] eqn:E1.
  - assert (tc_committed c1 = tc_committed c /\ at_work [] c1) as [K1 W1].
    { destruct (tc_own_tx c) eqn:Hown.
      - unfold open_tx, st_bind, st_get, st_assert in E1. by rewrite Hown in E1.
      - rewrite open_tx_unfold in E1 by done.
        destruct (with_retry_opens _ (set_own_tx true c) _ _ Ho E1) as (K & _ & W). auto. }
    unfold st_bind. destruct (exec_all env sync qs c1) as [[[]|e] c2] eqn:E2;
      destruct (exec_all_lossless _ _ _ _ _ Hl W1 E2) as [K2 W2].
    + destruct (commit env c2) as [o3 c3] eqn:E3. intros [= <- <-]. cbn.
      rewrite (commit_lossless _ _ _ _ Hl (W2 eq_refl) E3), K2, K1. done.
    + intros [= <- <-]. cbn. by rewrite K2, K1, app_nil_r.
  - intros [= <- <-]. rewrite app_nil_r. destruct (tc_own_tx c) eqn:Hown.
    + unfold open_tx, st_bind, st_get, st_assert in E1. rewrite Hown in E1. by injection E1 as _ <-.
    + rewrite open_tx_unfold in E1 by done.
      by destruct (with_retry_opens _ (set_own_tx true c) _ _ Ho E1) as (K & _).
Qed.

(** ** The shared transaction *)

Definition shared_idle (s : @shared query) : Prop := sh_client_count s = 0 /\ sh_own_tx s = false.

Lemma query_all_own (qs : list query) s :
  sh_own_tx s = true -> query_all env sync qs s = on_own (exec_all env sync qs) s.
Proof.
  revert s. induction qs as [|q qs IH]; intros [n b w] Hs; [done|]. cbn in Hs. subst b.
  cbn [query_all exec_all]. unfold do_query, st_bind, st_get, on_own in *. cbn [sh_own_tx sh_own sh_client_count].
  destruct (exec env sync q w) as [[[]|e] c]; [|done]. by rewrite IH.
Qed.

Lemma rollback_twice (c : controller query) : (rollback (rollback c).2).2 = (rollback c).2.
Proof. done. Qed.

Lemma initialize_idle (s : @shared query) :
  shared_idle s ->
  initialize_tx env sync s =
    match open_tx env sync (sh_own s) with
    | (Ok _, c) => (Ok tt, {| sh_client_count := 1; sh_own_tx := true; sh_own := c |})
    | (Throw e, c) => (Throw e, {| sh_client_count := 1; sh_own_tx := false; sh_own := c |})
    end.
Proof.
  intros [Hn Ho]. unfold initialize_tx, st_bind, st_modify, st_get, st_when, st_assert, on_own.
  cbn [sh_client_count sh_own_tx sh_own set_client_count]. rewrite Hn, Ho. cbn [negb].
  change (u32 (0 + 1)) with 1. cbn [Z.eqb Pos.eqb st_ret sh_client_count sh_own_tx sh_own set_client_count].
  rewrite ?Ho. by destruct (open_tx env sync (sh_own s)) as [[[]|]?].
Qed.

(** A client of the shared controller that finds it idle gets exactly what its own
    controller would give: the same result and the same committed transactions, and
    leaves the controller idle when the transaction could be opened. *)
Theorem shared_transaction_is_own (qs : list query) s :
  shared_idle s ->
  (run_shared env sync qs s).1 = (run_transaction env sync qs (sh_own s)).1 /\
  sh_own (run_shared env sync qs s).2 = (run_transaction env sync qs (sh_own s)).2 /\
  ((open_tx env sync (sh_own s)).1 = Ok tt -> shared_idle (run_shared env sync qs s).2).
Proof.
  intros Hs. unfold run_shared, run_transaction, st_bind at 1 3 5 7 9.
  rewrite initialize_idle by done. destruct (open_tx env sync (sh_own s)) as [[[]|e] c] eqn:Eo; [|done].
  set (s1 := {| sh_client_count := 1; sh_own_tx := true; sh_own := c |}).
  unfold st_bind. rewrite query_all_own by done. unfold on_own. cbn [s1 sh_own sh_client_count sh_own_tx].
  destruct (exec_all env sync qs c) as [[[]|e] c1]; [|done].
  unfold do_commit, st_bind, st_get, st_when, on_own, reset_tx.
  cbn [sh_client_count sh_own_tx sh_own Z.eqb Pos.eqb andb].
  destruct (commit env c1) as [[[]|e] c2]; (split; [reflexivity|]; split; [reflexivity|]; intros _; split; reflexivity).
Qed.

(** When the shared transaction cannot be opened, the controller is left with a client
    that does not exist: every later client is told that its statements and its commit
    succeeded, and nothing is executed. *)
Theorem failed_open_silences_clients (qs qs' : list query) s e c :
  shared_idle s -> open_tx env sync (sh_own s) = (Throw e, c) ->
  exists s1, run_shared env sync qs s = (Throw e, s1) /\ run_shared env sync qs' s1 = (Ok tt, s1).
Proof.
  intros Hs Eo. eexists. split.
  - unfold run_shared, st_bind at 1. rewrite initialize_idle, Eo by done. reflexivity.
  - assert (forall s, sh_own_tx s = false -> query_all env sync qs' s = (Ok tt, s)) as Hq.
    { induction qs' as [|q qs'' IH]; intros s' Hs'; [done|]. cbn [query_all].
      unfold do_query, st_bind, st_get. rewrite Hs'. by apply IH. }
    unfold run_shared, st_bind at 1.
    change (initialize_tx env sync {| sh_client_count := 1; sh_own_tx := false; sh_own := c |})
      with (Ok (E := tx_error) tt, {| sh_client_count := 2; sh_own_tx := false; sh_own := c |}).
    unfold st_bind. rewrite Hq by done. reflexivity.
Qed.

(** A controller whose constructor of the transaction has thrown refuses every later
    transaction: the pointer to the destroyed object stays behind. *)
Theorem failed_open_blocks_controller (c : controller query) e c1 :
  tc_opened_tx c = None -> open_tx env sync c = (Throw e, c1) ->
  open_tx env sync c1 = (Throw AssertFailed, c1).
Proof.
  intros Ho E. assert (tc_own_tx c1 = true) as H1.
  { destruct (tc_own_tx c) eqn:Hown.
    - unfold open_tx, st_bind, st_get, st_assert in E. rewrite Hown in E. by injection E as _ <-.
    - rewrite open_tx_unfold in E by done.
      by destruct (with_retry_opens _ (set_own_tx true c) _ _ Ho E) as (_ & -> & _). }
  unfold open_tx, st_bind, st_get, st_assert. by rewrite H1.
Qed.

End atomicity.

Module ControllerExamples.

Definition never_lost : server_env :=
  {| e_reply := fun n => if decide (n = 4)%nat then Failed false else Done; e_interrupt := fun _ => false |}.
Definition unreachable : server_env := {| e_reply := fun _ => Lost false; e_interrupt := fun _ => false |}.

(** The second statement is refused: nothing is committed. *)
Lemma atomic_without_loss_witness :
  tc_committed (run_transaction never_lost false ["a"; "b"]%string new_controller).2 = [].
Proof.
  apply (atomic_without_loss never_lost false ["a"; "b"]%string new_controller
    (run_transaction never_lost false ["a"; "b"]%string new_controller).1
    (run_transaction never_lost false ["a"; "b"]%string new_controller).2); [|reflexivity|].
  - intros n b. cbn. by case_decide.
  - by destruct (run_transaction never_lost false ["a"; "b"]%string new_controller).
Defined.

(** The connection is lost at the second of three statements. *)
Lemma lost_connection_splits_transaction_witness :
  exists c', run_transaction {| e_reply := loses_once 3; e_interrupt := fun _ => false |} true ["a"; "b"; "c"]%string
    new_controller = (Ok tt, c') /\ tc_committed c' = [["b"; "c"]]%string.
Proof.
  apply (lost_connection_splits_transaction {| e_reply := loses_once 3; e_interrupt := fun _ => false |} true
    new_controller ["a"]%string ["c"]%string "b"%string false); try done.
  intros n Hn. cbn in *. unfold loses_once. by rewrite decide_False.
Defined.

Lemma shared_transaction_is_own_witness :
  sh_own (run_shared never_lost true ["a"]%string new_shared).2 =
  (run_transaction never_lost true ["a"]%string new_controller).2.
Proof. apply (shared_transaction_is_own never_lost true ["a"]%string new_shared). by split. Defined.

Lemma failed_open_silences_clients_witness :
  exists s1, run_shared unreachable true ["a"]%string new_shared = (Throw BrokenConnection, s1) /\
    run_shared unreachable true ["b"]%string s1 = (Ok tt, s1).
Proof.
  apply (failed_open_silences_clients unreachable true ["a"]%string ["b"]%string new_shared BrokenConnection
    (open_tx unreachable true (@new_controller string)).2); [by split|vm_compute; reflexivity].
Defined.

End ControllerExamples.
