(* ===== verification/Pipeline.v ===== *)
(** * From the chain's notifications to the database

    Composes the components: the indexation state decides what is handed to a dumper,
    the dumpers turn it into commands and transactions (through the interface of
    DataDumper), and the write-ahead log with its processing thread brings the commands
    of the live dumper into the database, across crashes.  The handlers of
    [livesync_data_dumper] run in the order of the chain's notifications; which of them
    are connected depends on lite mode. *)

From S2P Require Import Prelude Text CachedData IndexationState DataProcessor Writers Conversions SqlText.
From S2P Require Import DataDumper Dumpers WriteAheadLog WalRefinement WalRecovery TransactionControllers.
From Stdlib Require Import ZArith Lia Ascii String.
From stdpp Require Import base list strings gmap sorting.

Open Scope Z_scope.

Section pipeline.
  Context {operation : Type}.
  Context (decodeUtf8 : list ascii -> list Z) (to_hex : ascii -> list ascii)
    (pack : operation -> list ascii) (iso : Z -> list ascii) (key_text : string -> list ascii).
  Context (lcfg : live_config).

#[local] Abbreviation live_flush := (live_trigger_data_flush decodeUtf8 to_hex pack iso key_text lcfg).
#[local] Abbreviation command := (block_command decodeUtf8 to_hex pack iso key_text).
#[local] Abbreviation live := (live_data_dumper decodeUtf8 to_hex pack iso key_text lcfg).

(** ** The live dumper and the chain's notifications *)

Inductive chain_event :=
| LiveBlock (rows : cached_data_t operation) (block_num : Z)
| IrreversibleBlock (block_num : Z)
| SwitchFork (block_num : Z)
| BlockFail (block_num : Z).

(** The commands enqueued; in lite mode the constructor does not connect the handlers
    of forks and of failed blocks. *)
Definition handle_event (e : chain_event) (ld : live_dumper) :
    outcome string (list chars) * live_dumper :=
  match e with
  | LiveBlock c n => let '(o, ld', _) := live_flush c n ld in (o, ld')
  | IrreversibleBlock n => (Ok (Dumpers.on_irreversible_block lcfg n), ld)
  | SwitchFork n => (Ok (if lc_lite_mode lcfg then [] else Dumpers.on_switch_fork n), ld)
  | BlockFail n => (Ok (if lc_lite_mode lcfg then [] else on_block_fail n ld), ld)
  end.

(** What the notifications mean for the database: a block is pushed with its rows, a
    fork rewinds, a failed block is undone when it is the one pushed last.  No threads
    and no buffers here; [last] is the block pushed last. *)
Fixpoint event_commands (last : Z) (es : list chain_event) : list chars :=
  match es with
  | [] => []
  | LiveBlock c n :: es' => command (lc_lite_mode lcfg) c :: event_commands n es'
  | IrreversibleBlock n :: es' =>
      (if lc_lite_mode lcfg || (n <? lc_psql_first_block lcfg) then []
       else [lit "SELECT hive.set_irreversible(" ++ dec n ++ lit ")"]) ++ event_commands last es'
  | SwitchFork n :: es' =>
      (if lc_lite_mode lcfg then [] else [lit "SELECT hive.back_from_fork(" ++ dec n ++ lit ")"]) ++
      event_commands last es'
  | BlockFail n :: es' =>
      (if negb (lc_lite_mode lcfg) && (n =? last)
       then [lit "SELECT hive.back_from_fork(" ++ dec (n - 1) ++ lit ")"] else []) ++
      event_commands last es'
  end.

Definition event_ok (e : chain_event) : Prop :=
  match e with
  | LiveBlock c n => live_accepts lcfg c n
  | BlockFail n => 0 < n <= UINT32_MAX
  | _ => True
  end.

(** The block pushed last after the notifications. *)
Fixpoint last_pushed (last : Z) (es : list chain_event) : Z :=
  match es with
  | [] => last
  | LiveBlock _ n :: es' => last_pushed n es'
  | _ :: es' => last_pushed last es'
  end.

Lemma event_commands_snoc last es e :
  event_commands last (es ++ [e]) = event_commands last es ++ event_commands (last_pushed last es) [e].
Proof.
  revert last. induction es as [|e0 es IH]; intros last; [done|].
  destruct e0; cbn [app event_commands last_pushed]; rewrite IH; by rewrite ?app_assoc.
Qed.

Lemma last_pushed_snoc last es e : last_pushed last (es ++ [e]) = last_pushed (last_pushed last es) [e].
Proof. revert last. induction es as [|[] es IH]; intros last; cbn; auto. Qed.

Lemma handle_event_spec e ld :
  clean lcfg ld -> event_ok e ->
  exists ld', handle_event e ld = (Ok (event_commands (ld_last_dumped_block ld) [e]), ld') /\
    clean lcfg ld' /\ ld_last_dumped_block ld' = last_pushed (ld_last_dumped_block ld) [e].
Proof.
  intros Hc Hok. destruct e as [c n|n|n|n]; cbn [handle_event event_commands last_pushed]; rewrite ?app_nil_r.
  - destruct Hok as (Hf & Hl & Hn).
    destruct (live_flush_clean decodeUtf8 to_hex pack iso key_text lcfg c n ld Hc Hf Hl Hn)
      as (ld1 & E & Hc1 & Hlast). rewrite E. eauto.
  - exists ld. split_and!; [|done..]. do 2 f_equal.
    unfold Dumpers.on_irreversible_block. destruct (lc_lite_mode lcfg); [done|]. cbn [orb].
    rewrite Z.leb_antisym. by destruct (n <? lc_psql_first_block lcfg).
  - exists ld. by destruct (lc_lite_mode lcfg).
  - exists ld. split_and!; [|done..]. do 2 f_equal.
    destruct (lc_lite_mode lcfg); [done|]. cbn [negb andb]. unfold on_block_fail, event_ok in *.
    destruct Hc as (_ & _ & _ & _ & _ & _ & _ & ->). destruct (Z.eqb_spec 0 n); [lia|]. cbn [negb andb].
    rewrite (Z.eqb_sym n). destruct (ld_last_dumped_block ld =? n); cbn [negb]; [|done].
    by rewrite u32_small by lia.
Qed.

Section database.
  Context (sql_ok : list stmt -> chars -> bool) (pruning : Z) (max_queue_depth : nat).

(** *** Several runs of the program

    A crash loses the live dumper with everything it holds; the next run makes a new one. *)

Record pipeline_state := {
  pl_past : list (list chain_event);    (* what each earlier run was notified of *)
  pl_run : list chain_event;            (* what this run was notified of *)
  pl_dumper : live_dumper;
  pl_skipped : nat;                     (* stored commands given up at a restart *)
  pl_stored : list chars;
  pl_live : WalRecovery.live_state
}.

Definition pipeline_start : pipeline_state :=
  {| pl_past := []; pl_run := []; pl_dumper := new_live_dumper lcfg; pl_skipped := 0; pl_stored := [];
     pl_live := first_start |}.

(** A handler runs to its end on the main thread, its command stored in the log; the threads
    behind the log, crashes and restarts are the steps of WalRecovery. *)
Inductive pipeline_step : pipeline_state -> pipeline_state -> Prop :=
| PlHandle p e ld' :
    ls_up (pl_live p) = true -> event_ok e -> handle_event e (pl_dumper p) = (Ok [], ld') ->
    pipeline_step p {| pl_past := pl_past p; pl_run := pl_run p ++ [e]; pl_dumper := ld';
                       pl_skipped := pl_skipped p; pl_stored := pl_stored p; pl_live := pl_live p |}
| PlStore p e ld' now sql live' :
    ls_up (pl_live p) = true -> event_ok e -> handle_event e (pl_dumper p) = (Ok [sql], ld') ->
    ls_pending (pl_live p) = None -> clock_ok (manager (ls_wal (pl_live p))) now ->
    Z.of_nat (length sql) <= 2 ^ 31 -> enqueue_store all_written now sql (pl_live p) = (Ok tt, live') ->
    pipeline_step p {| pl_past := pl_past p; pl_run := pl_run p ++ [e]; pl_dumper := ld';
                       pl_skipped := pl_skipped p; pl_stored := pl_stored p ++ [sql]; pl_live := live' |}
| PlMove p live' :
    ls_up (pl_live p) = true ->
    step sql_ok pruning max_queue_depth (pl_skipped p) (pl_stored p) (pl_live p) (pl_skipped p) (pl_stored p) live' ->
    pipeline_step p {| pl_past := pl_past p; pl_run := pl_run p; pl_dumper := pl_dumper p;
                       pl_skipped := pl_skipped p; pl_stored := pl_stored p; pl_live := live' |}
| PlRestart p skipped live' :
    ls_up (pl_live p) = false ->
    step sql_ok pruning max_queue_depth (pl_skipped p) (pl_stored p) (pl_live p) skipped (pl_stored p) live' ->
    pipeline_step p {| pl_past := pl_past p ++ [pl_run p]; pl_run := []; pl_dumper := new_live_dumper lcfg;
                       pl_skipped := skipped; pl_stored := pl_stored p; pl_live := live' |}.

Definition run_commands (p : pipeline_state) : list chars :=
  concat (map (event_commands 0) (pl_past p ++ [pl_run p])).

Record pipeline_inv (p : pipeline_state) : Prop := {
  pi_reachable : reachable sql_ok pruning max_queue_depth (pl_skipped p) (pl_stored p) (pl_live p);
  pi_stored : pl_stored p = run_commands p;
  pi_clean : clean lcfg (pl_dumper p);
  pi_last : ld_last_dumped_block (pl_dumper p) = last_pushed 0 (pl_run p)
}.

Lemma run_commands_snoc past run e :
  concat (map (event_commands 0) (past ++ [run ++ [e]])) =
  concat (map (event_commands 0) (past ++ [run])) ++ event_commands (last_pushed 0 run) [e].
Proof. rewrite !map_app, !concat_app. cbn [map concat]. by rewrite event_commands_snoc, !app_nil_r, app_assoc. Qed.

Lemma handle_event_inv p e cmds ld' :
  pipeline_inv p -> event_ok e -> handle_event e (pl_dumper p) = (Ok cmds, ld') ->
  cmds = event_commands (last_pushed 0 (pl_run p)) [e] /\ clean lcfg ld' /\
  ld_last_dumped_block ld' = last_pushed 0 (pl_run p ++ [e]).
Proof.
  intros I Hok E. destruct (handle_event_spec e (pl_dumper p)) as (ld1 & E1 & Hc & Hl); [apply I|done|].
  rewrite (pi_last _ I) in *. rewrite E1 in E. injection E as <- <-. by rewrite last_pushed_snoc.
Qed.

Lemma pipeline_step_inv p p' : pipeline_inv p -> pipeline_step p p' -> pipeline_inv p'.
Proof.
  intros I Hs. destruct Hs as [p e ld' Hup Hok E|p e ld' now sql live' Hup Hok E Hp Hclk Hl Est|p live' Hup Hst|p sk live' Hup Hst].
  - destruct (handle_event_inv _ _ _ _ I Hok E) as (Hcmd & Hc & Hlast). constructor; try done; [apply I|].
    unfold run_commands. cbn [pl_past pl_run pl_stored]. rewrite run_commands_snoc, <- Hcmd, app_nil_r. apply I.
  - destruct (handle_event_inv _ _ _ _ I Hok E) as (Hcmd & Hc & Hlast). constructor; try done.
    + eapply ReachStep; [apply I|]. by eapply StepStore.
    + unfold run_commands. cbn [pl_past pl_run pl_stored]. rewrite run_commands_snoc, <- Hcmd. f_equal. apply I.
  - destruct I as [I1 I2 I3 I4]. constructor; try done. by eapply ReachStep.
  - destruct I as [I1 I2 I3 I4]. constructor; try done; [by eapply ReachStep|].
    unfold run_commands. cbn [pl_past pl_run pl_stored]. rewrite map_app, concat_app. cbn [map concat].
    rewrite I2, !app_nil_r. by cbn.
Qed.

Lemma pipeline_reachable_inv p : rtc pipeline_step pipeline_start p -> pipeline_inv p.
Proof.
  intros Hr. assert (pipeline_inv pipeline_start) as I by (constructor; try done; constructor).
  induction Hr as [|a b c Hab _ IH]; [done|]. apply IH. by eapply pipeline_step_inv.
Qed.


End database.

(** ** The indexation state and the dumpers *)

Section indexation.
  Context (cfg : is_config) (env : environment).

(** The indexation state's view of a flush agrees with the dumpers: the live one throws
    for the same caches, and both leave the same cache behind. *)
Lemma dump_agrees_with_live (s : @istate operation) n ld :
  match live_flush (is_cache s) n ld, dump livesync_data_dumper n s with
  | (Ok _, _, c'), (Ok _, s') => is_cache s' = c'
  | (Throw _, _, c'), (Throw e, s') => e = NotSingleBlock /\ is_cache s' = c'
  | _, _ => False
  end.
Proof.
  unfold live_trigger_data_flush, dump, st_bind, st_get, st_assert, emit, st_modify.
  destruct (length (blocks (is_cache s)) =? 1)%nat; [|done].
  by destruct (u32 n =? 0); [|destruct (execute_push_block _ _ _)].
Qed.

Lemma dump_agrees_with_reindex (s : @istate operation) n mode ot trt at_ :
  (dump (reindex_data_dumper mode) n s).1 = Ok tt /\
  is_cache (dump (reindex_data_dumper mode) n s).2 =
    (reindex_trigger_data_flush mode ot trt at_ (is_cache s) n).2.
Proof. by destruct mode. Qed.

(** The rows of one block. *)
Definition block_rows (c : cached_data_t operation) (b : Z) : cached_data_t operation :=
  fresh_cache (cache_where (fun x => x =? b) c).

Lemma one_block_left (v : list process_block_t) b :
  StronglySorted (fun x y => pb_block_number x < pb_block_number y) v ->
  b ∈ map pb_block_number v -> length (items_where (fun x => x =? b) v) = 1%nat.
Proof.
  intros Hs Hb. induction Hs as [|x v Hs IH Hf]; [by apply elem_of_nil in Hb|].
  unfold items_where in *. cbn in Hb. apply elem_of_cons in Hb as [->|Hb].
  - rewrite filter_cons_True by apply Z.eqb_refl. cbn. f_equal.
    apply length_zero_iff_nil, (items_where_none (fun y => y =? pb_block_number x)).
    eapply Forall_impl; [exact Hf|]. intros y Hy. apply Z.eqb_neq. cbn in *. unfold block_number, process_block_item. lia.
  - rewrite filter_cons_False; [by apply IH|]. intros E%Z.eqb_eq.
    apply list_elem_of_fmap in Hb as (y & -> & Hy). eapply Forall_forall in Hf; [|exact Hy]. cbn in *.
    unfold block_number, process_block_item in E. lia.
Qed.

Lemma fits_where {A} `{BlockItem A} (p : Z -> bool) (v : list A) writers :
  fits v writers -> fits (items_where p v) writers.
Proof.
  intros [Hw Hl]. split; [done|]. pose proof (length_filter (fun x => p (block_number x) = true) v).
  unfold items_where. lia.
Qed.

Lemma block_fits_where (c : cached_data_t operation) p : block_fits lcfg c -> block_fits lcfg (fresh_cache (cache_where p c)).
Proof. intros (? & ? & ?). split_and!; by apply fits_where. Qed.

Lemma block_accepted (c : cached_data_t operation) b :
  cache_ok c -> block_fits lcfg c -> 0 < b -> b ∈ block_numbers c -> live_accepts lcfg (block_rows c b) b.
Proof.
  intros Hok Hf Hpos Hb. split; [by apply block_fits_where|]. split; [by apply one_block_left; [apply Hok|]|].
  split; [done|]. pose proof (ok_range _ Hok) as (Hr & _). unfold block_numbers in Hb.
  apply list_elem_of_fmap in Hb as (x & -> & Hx). eapply Forall_forall in Hr; [|exact Hx].
  cbn in Hr. unfold block_number, process_block_item, INT32_MAX, UINT32_MAX in *. lia.
Qed.

(** What the live dumper sends for blocks handed over one by one. *)
Lemma per_block_sends (c : cached_data_t operation) bs ld :
  cache_ok c -> block_fits lcfg c -> Forall (fun b => 0 < b /\ b ∈ block_numbers c) bs -> clean lcfg ld ->
  exists ld', run_dumps (dumper := live)
      (map (fun d => (d.1.2, d.2)) (per_block livesync_data_dumper c bs)) ld =
    (Ok (map (fun b => command (lc_lite_mode lcfg) (block_rows c b)) bs), ld') /\ clean lcfg ld'.
Proof.
  intros Hok Hf Hb Hc.
  destruct (run_dumps_accepted (dumper := live)
    (map (fun d => (d.1.2, d.2)) (per_block livesync_data_dumper c bs)) ld) as (ld' & E & Hc'); [done| |].
  - unfold per_block. rewrite map_map. apply Forall_fmap. eapply Forall_impl; [exact Hb|].
    intros b [Hpos Hin]. by apply block_accepted.
  - exists ld'. rewrite E. split; [|done]. do 2 f_equal. clear. induction bs; cbn; by f_equal.
Qed.

Lemma numbers_positive (c : cached_data_t operation) (P : Z -> Prop) `{!forall b, Decision (P b)} :
  Forall (fun b => 0 < b) (block_numbers c) ->
  Forall (fun b => 0 < b /\ b ∈ block_numbers c) (filter P (block_numbers c)).
Proof.
  rewrite !Forall_forall. intros Hp b [_ Hb]%list_elem_of_filter. split; [by apply Hp|done].
Qed.

(** In lite LIVE mode a flush sends to the log one push_block_lite command for every
    irreversible cached block, in ascending order, with exactly the rows of that block,
    and nothing for the reversible blocks, which stay cached. *)
Theorem lite_flush_sends_irreversible_blocks s n ld :
  good_in cfg LIVE s -> cfg_lite_mode cfg = true -> lc_lite_mode lcfg = true ->
  is_irreversible_block_num s <> NO_IRREVERSIBLE_BLOCK -> block_fits lcfg (is_cache s) ->
  Forall (fun b => 0 < b) (block_numbers (is_cache s)) -> clean lcfg ld ->
  let irr := is_irreversible_block_num s in
  exists s' handed_over ld',
    IndexationState.trigger_data_flush cfg n s = (Ok tt, s') /\ dumps s' = dumps s ++ handed_over /\
    is_cache s' = cache_where (fun b => irr <? b) (is_cache s) /\
    run_dumps (dumper := live) (map (fun d => (d.1.2, d.2)) handed_over) ld =
      (Ok (map (fun b => command true (block_rows (is_cache s) b))
             (filter (fun b => b <= irr) (block_numbers (is_cache s)))), ld') /\ clean lcfg ld'.
Proof.
  intros G Hlite Hl Hirr Hf Hpos Hc irr.
  destruct (lite_live_flush_rep cfg s n G Hlite Hirr) as (s' & E & _ & K & D).
  destruct (per_block_sends (is_cache s) (filter (fun b => b <= irr) (block_numbers (is_cache s))) ld)
    as (ld' & Er & Hc'); [apply G|done|by apply numbers_positive|done|].
  rewrite Hl in Er. eexists s', _, ld'. by split_and!.
Qed.

Lemma no_blocks_no_rows (c : cached_data_t operation) :
  cache_ok c -> blocks c = [] -> cache_rows c = nothing_written.
Proof. intros Hok Hb. by rewrite (cache_ok_no_blocks c Hok Hb). Qed.

(** Writing the batch of irreversible rows, if there is one. *)
Lemma batch_rows mode ot trt at_ (c : cached_data_t operation) n txs :
  cache_ok c -> fits (operations c) ot -> fits (transactions c) trt -> fits (account_operations c) at_ ->
  Forall2 (fun d txs => commit_orders mode ot trt at_ d.1.2 d.2 txs)
    (batch_dump (reindex_data_dumper mode) c n) txs ->
  write_commands nothing_written (concat (concat txs)) ≡ cache_rows c.
Proof.
  intros Hok Ho Ht Ha H2. unfold batch_dump in H2. case_bool_decide as Hb.
  - inversion H2. by rewrite no_blocks_no_rows.
  - inversion H2 as [|? ? ? ? Hc H3]; subst. inversion H3; subst. cbn [concat]. rewrite app_nil_r.
    by apply (commit_orders_rows mode ot trt at_ c n).
Qed.

(** C22: Entering LIVE from P2P, outside of lite mode, without an interrupt and with an irreversible
    block known, brings every cached row into the database, with fewer than 2^32 rows of a kind and at
    least one thread per writer: the irreversible rows
    through the replay dumper, each once and in its table whatever the order in which its writers
    commit, and then every reversible block through the live dumper as a push_block command of its
    own, in ascending order; the cache is left without blocks.  (The transactions of the writers
    commit as a whole.) *)
Theorem p2p_to_live_sends_everything s n mode ot trt at_ :
  good_in cfg P2P s -> is_dumper s = Some (reindex_data_dumper mode) ->
  cfg_lite_mode cfg = false -> lc_lite_mode lcfg = false -> (forall i, env_interrupt env i = false) ->
  is_irreversible_block_num s <> NO_IRREVERSIBLE_BLOCK -> block_fits lcfg (is_cache s) ->
  fits (operations (is_cache s)) ot -> fits (transactions (is_cache s)) trt ->
  fits (account_operations (is_cache s)) at_ ->
  Forall (fun b => 0 < b) (block_numbers (is_cache s)) ->
  let irreversible := fresh_cache (cache_where (fun y => y <=? is_irreversible_block_num s) (is_cache s)) in
  let reversible := cache_where (fun y => is_irreversible_block_num s <? y) (is_cache s) in
  exists s' batch blockwise ld',
    on_end_of_syncing cfg env n s = (Ok tt, s') /\ state_is LIVE s' /\ blocks (is_cache s') = [] /\
    dumps s' = dumps s ++ batch ++ blockwise /\
    (forall txs, Forall2 (fun d txs => commit_orders mode ot trt at_ d.1.2 d.2 txs) batch txs ->
      write_commands nothing_written (concat (concat txs)) ≡ cache_rows irreversible) /\
    run_dumps (dumper := live) (map (fun d => (d.1.2, d.2)) blockwise) (new_live_dumper lcfg) =
      (Ok (map (fun b => command false (block_rows reversible b)) (block_numbers reversible)), ld').
Proof.
  intros G Hd Hlite Hl Hno Hirr Hf Ho Ht Ha Hpos irreversible reversible.
  destruct (p2p_to_live_rep cfg env s n mode G Hd Hlite Hno Hirr) as (s' & E & S & B & D).
  destruct (per_block_sends reversible (block_numbers reversible) (new_live_dumper lcfg))
    as (ld' & Er & _); [by apply cache_ok_where, G|destruct Hf as (? & ? & ?); split_and!; by apply fits_where| |by split_and!|].
  - apply Forall_forall. intros b Hb. split; [|done]. rewrite Forall_forall in Hpos. apply Hpos.
    unfold block_numbers, reversible in *. apply list_elem_of_fmap in Hb as (x & -> & Hx). cbn in Hx.
    apply list_elem_of_filter in Hx as [_ Hx]. apply list_elem_of_fmap. eauto.
  - rewrite Hl in Er. eexists s', _, _, ld'. split_and!; try done.
    intros txs. apply batch_rows; [apply cache_ok_fresh, cache_ok_where, G|by apply fits_where..].
Qed.

End indexation.
End pipeline.

(** ** The transaction of the processing thread

    WalRecovery takes the transaction of [processing_thread::run] to be atomic.  It runs
    on a transaction controller, which keeps that promise only while the connection is
    not lost. *)

(** The statements of the transaction. *)
Definition wal_transaction (pruning : Z) (command_to_run : Z * chars) : list chars :=
  [command_to_run.2;
   lit "SELECT hive.update_wal_sequence_number(" ++ dec command_to_run.1 ++ lit ")"] ++
  (if (0 <? pruning) && (Z.rem command_to_run.1 10 =? 0)
   then [lit "SELECT hive.prune_blocks_data(" ++ dec pruning ++ lit ");"] else []).

(** When the connection is lost while the sequence number of a command is being recorded, after
    the command itself was executed in the same transaction, only the following statements are
    committed: the database records the command's number as done although the command was rolled
    back, so neither this run nor a replay executes it again. *)
Theorem lost_connection_skips_logged_command pruning n sql :
  let env := {| e_reply := loses_once (statement_request true (new_controller (query := chars)) 1); e_interrupt := fun _ => false |} in
  exists c, TransactionControllers.run_transaction env true (wal_transaction pruning (n, sql)) new_controller = (Ok tt, c) /\
    tc_committed c = [tail (wal_transaction pruning (n, sql))].
Proof.
  intros env. apply (loss_splits env true new_controller [sql] _ _ false); try done; cbn [e_reply env].
  intros k Hk. unfold loses_once. by rewrite decide_False.
Qed.

Module PipelineExamples.

Import IndexationState.Examples.
Import (notations) DumperExamples.

#[local] Abbreviation decode := DumperExamples.decode.
#[local] Abbreviation no_text := DumperExamples.no_text.

Definition lcfg (lite : bool) : live_config :=
  {| lc_operations_threads := 2; lc_transactions_threads := 1; lc_account_operation_threads := 1;
     lc_psql_first_block := 1; lc_lite_mode := lite |}.

#[local] Abbreviation command := (block_command decode hex2 no_text no_text no_text).

Ltac small := unfold live_accepts, block_fits, fits, UINT32_MAX, INT32_MAX; cbn; split_and!; lia.

(** A block is pushed; the failure of another one is not the dumper's business. *)
Definition sql : chars := command false (DumperExamples.one_block 7).
Definition pushed_event : @chain_event unit := LiveBlock (DumperExamples.one_block 7) 7.
Definition dumper_after : live_dumper :=
  (handle_event decode hex2 no_text no_text no_text (lcfg false) pushed_event (new_live_dumper (lcfg false))).2.

Definition stored : live_state := (enqueue_store all_written ex_time sql first_start).2.
Definition queued : live_state := default stored (enqueue_push 200 stored).

Definition piped (run : list (@chain_event unit)) (st : WalRecovery.live_state) : @pipeline_state unit :=
  {| pl_past := []; pl_run := run; pl_dumper := dumper_after; pl_skipped := 0; pl_stored := [sql]; pl_live := st |}.

Lemma piped_reachable :
  rtc (pipeline_step decode hex2 no_text no_text no_text (lcfg false) always_ok 7 200) (pipeline_start (lcfg false))
    (piped [pushed_event; BlockFail 8] queued).
Proof.
  apply (rtc_l _ _ (piped [pushed_event] stored)); [|apply (rtc_l _ _ (piped [pushed_event] queued)); [|apply rtc_once]].
  - apply (PlStore _ _ _ _ _ _ _ _ _ (pipeline_start (lcfg false)) pushed_event dumper_after ex_time sql stored);
      try (vm_compute; reflexivity).
    + split; [small|]. split; [reflexivity|unfold UINT32_MAX; lia].
    + split; [apply ex_time_ok|]. done.
    + vm_compute. discriminate.
  - apply (PlMove _ _ _ _ _ _ _ _ _ (piped [pushed_event] stored) queued); [vm_compute; reflexivity|].
    apply StepPush; vm_compute; reflexivity.
  - apply (PlHandle _ _ _ _ _ _ _ _ _ (piped [pushed_event] queued) (BlockFail 8) dumper_after);
      [vm_compute; reflexivity|cbn; unfold UINT32_MAX; lia|vm_compute; reflexivity].
Qed.


Lemma lite_flush_sends_irreversible_blocks_witness :
  exists s' handed_over ld',
    IndexationState.trigger_data_flush (config true) 1003 lite_state = (Ok tt, s') /\
    dumps s' = dumps lite_state ++ handed_over /\
    is_cache s' = cache_where (fun b => 1001 <? b) (is_cache lite_state) /\
    run_dumps (dumper := live_data_dumper decode hex2 no_text no_text no_text (lcfg true))
      (map (fun d => (d.1.2, d.2)) handed_over) (new_live_dumper (lcfg true)) =
      (Ok (map (fun b => command true (block_rows (is_cache lite_state) b)) [1000; 1001]), ld') /\
    clean (lcfg true) ld'.
Proof.
  apply (lite_flush_sends_irreversible_blocks decode hex2 no_text no_text no_text (lcfg true)
    (config true) lite_state 1003 (new_live_dumper (lcfg true)) lite_good eq_refl eq_refl);
    [discriminate|small|repeat constructor|by split_and!].
Defined.

Lemma p2p_to_live_sends_everything_witness :
  exists s' batch blockwise ld',
    on_end_of_syncing (config false) env 1002 p2p_state = (Ok tt, s') /\ state_is LIVE s' /\
    blocks (is_cache s') = [] /\ dumps s' = dumps p2p_state ++ batch ++ blockwise /\
    (forall txs, Forall2 (fun d txs => commit_orders false 2 1 1 d.1.2 d.2 txs) batch txs ->
      write_commands nothing_written (concat (concat txs)) ≡
      cache_rows (fresh_cache (cache_where (fun y => y <=? 1001) (is_cache p2p_state)))) /\
    run_dumps (dumper := live_data_dumper decode hex2 no_text no_text no_text (lcfg false))
      (map (fun d => (d.1.2, d.2)) blockwise) (new_live_dumper (lcfg false)) =
      (Ok (map (fun b => command false
             (block_rows (cache_where (fun y => 1001 <? y) (is_cache p2p_state)) b)) [1002]), ld').
Proof.
  apply (p2p_to_live_sends_everything decode hex2 no_text no_text no_text (lcfg false)
    (config false) env p2p_state 1002 false 2 1 1 (p2p_good false) eq_refl eq_refl eq_refl (fun _ => eq_refl));
    [discriminate|small|small|small|small|repeat constructor].
Defined.

End PipelineExamples.
