(* ===== verification/Vacuum.v ===== *)
(** * Vacuum of the tables ([vacuum_cleaner.cpp], [indexes_controler.cpp])

    A vacuum waits for its table's lock only for a limited time; requests of applications
    ([hafd.vacuum_requests]) are processed in order, skipped ones are tried again at the
    next poll with a longer wait.

    A session is the server's side of a [pqxx::nontransaction]: whether it is still open,
    its lock timeout, the table of requests, and the vacuum commands it has executed.
    The server's answers are a parameter. *)

From S2P Require Import Prelude Text.
From Stdlib Require Import ZArith Lia Ascii String.
From stdpp Require Import base list strings sorting sets gmap.

Open Scope Z_scope.
Open Scope haf_scope.

(** ** [vacuum_request_lock_timeout] (milliseconds and seconds) *)

Definition VACUUM_LOCK_TIMEOUT : Z := 1000.
Definition MAX_ESCALATED_LOCK_TIMEOUT : Z := 60 * 1000.
Definition UNLIMITED_LOCK_WAIT_AFTER : Z := 30 * 60.

(** [for( i = 0; i < skip_count && lock_timeout < MAX; ++i ) lock_timeout *= 2]: the
    second condition ends it after six turns. *)
Fixpoint escalate (fuel : nat) (i skip_count lock_timeout : Z) : Z :=
  match fuel with
  | O => lock_timeout
  | S fuel' =>
      if (i <? skip_count) && (lock_timeout <? MAX_ESCALATED_LOCK_TIMEOUT)
      then escalate fuel' (i + 1) skip_count (lock_timeout * 2) else lock_timeout
  end.

Definition vacuum_request_lock_timeout (skip_count skipped_for : Z) : Z :=
  if UNLIMITED_LOCK_WAIT_AFTER <=? skipped_for then 0
  else Z.min (escalate 7 0 skip_count VACUUM_LOCK_TIMEOUT) MAX_ESCALATED_LOCK_TIMEOUT.

Lemma escalate_spec fuel i skip_count t :
  0 < t -> (MAX_ESCALATED_LOCK_TIMEOUT <= t * 2 ^ Z.of_nat fuel) -> 0 <= i <= Z.max 0 skip_count ->
  Z.min (escalate fuel i skip_count t) MAX_ESCALATED_LOCK_TIMEOUT =
  Z.min (t * 2 ^ (Z.max 0 skip_count - i)) MAX_ESCALATED_LOCK_TIMEOUT.
Proof.
  revert i t. induction fuel as [|fuel IH]; intros i t Ht Hf Hi.
  - cbn in *. rewrite Z.mul_1_r in Hf.
    assert (1 <= 2 ^ (Z.max 0 skip_count - i)) by (apply (Z.pow_le_mono_r 2 0); lia). nia.
  - cbn [escalate]. destruct (Z.ltb_spec i skip_count) as [Hlt|Hge]; cbn [andb].
    + destruct (Z.ltb_spec t MAX_ESCALATED_LOCK_TIMEOUT) as [Ht2|Ht2].
      * rewrite IH; [|lia| |lia].
        -- f_equal. replace (Z.max 0 skip_count - i) with (1 + (Z.max 0 skip_count - (i + 1))) by lia.
           rewrite Z.pow_add_r by lia. lia.
        -- replace (Z.of_nat (S fuel)) with (1 + Z.of_nat fuel) in Hf by lia.
           rewrite Z.pow_add_r in Hf by lia. lia.
      * assert (1 <= 2 ^ (Z.max 0 skip_count - i)) by (apply (Z.pow_le_mono_r 2 0); lia). nia.
    + replace (Z.max 0 skip_count - i) with 0 by lia. by rewrite Z.mul_1_r.
Qed.

(** C38: The wait for a lock is the default doubled for every consecutive skip, never
    shorter than a second and never longer than a minute, until the request has been
    skipped for half an hour, when the wait has no limit; the loop needs at most seven
    turns for any number of skips, so nothing overflows. *)
Theorem lock_timeout_escalates skip_count skipped_for :
  vacuum_request_lock_timeout skip_count skipped_for =
    (if 1800 <=? skipped_for then 0 else Z.min (1000 * 2 ^ Z.max 0 skip_count) 60000) /\
  (skipped_for < 1800 -> 1000 <= vacuum_request_lock_timeout skip_count skipped_for <= 60000) /\
  (forall fuel, (7 <= fuel)%nat ->
    escalate fuel 0 skip_count VACUUM_LOCK_TIMEOUT = escalate 7 0 skip_count VACUUM_LOCK_TIMEOUT).
Proof.
  assert (vacuum_request_lock_timeout skip_count skipped_for =
    (if 1800 <=? skipped_for then 0 else Z.min (1000 * 2 ^ Z.max 0 skip_count) 60000)) as E.
  { unfold vacuum_request_lock_timeout. change UNLIMITED_LOCK_WAIT_AFTER with 1800.
    destruct (1800 <=? skipped_for); [done|]. rewrite escalate_spec, Z.sub_0_r by (unfold VACUUM_LOCK_TIMEOUT, MAX_ESCALATED_LOCK_TIMEOUT; cbn; lia). done. }
  split_and!; [done| |].
  - intros Hs. rewrite E, (proj2 (Z.leb_gt _ _)) by lia.
    assert (1 <= 2 ^ Z.max 0 skip_count) by (apply (Z.pow_le_mono_r 2 0); lia). lia.
  - intros fuel Hf. do 7 (destruct fuel as [|fuel]; [lia|]). clear.
    unfold VACUUM_LOCK_TIMEOUT. cbn [escalate Z.mul Pos.mul]. unfold MAX_ESCALATED_LOCK_TIMEOUT.
    repeat (destruct (_ <? skip_count); cbn [andb Z.ltb]; [|done]).
    destruct fuel; [done|]. cbn [escalate]. by rewrite andb_false_r.
Qed.

(** ** Sessions *)

Inductive reply :=
| RDone
| RError (lock_not_available : bool)      (* an SQL error; 55P03 or another state *)
| RLost (applied : bool).                 (* the connection broke, before or after the effect *)

Inductive db_error :=
| ConnectionBroken
| SqlFailure (lock_not_available : bool)
| InvalidArgument.

#[global] Instance db_error_eq_dec : EqDecision db_error.
Proof. solve_decision. Defined.

Inductive request_status := Requested | Vacuumed | VacuumFailed.

#[global] Instance request_status_eq_dec : EqDecision request_status.
Proof. solve_decision. Defined.

(** A row of [hafd.vacuum_requests]; the first three columns are its key. *)
Record request := {
  rq_schema_name : string;
  rq_table_name : string;
  rq_kind : string;
  rq_status : request_status;
  rq_skip_count : Z;
  rq_first_skip_time : option Z
}.

Record session := {
  ss_open : bool;
  ss_lock_timeout : option Z;             (* None: the default *)
  ss_requests : list request;
  ss_vacuumed : list string;              (* commands executed, oldest first *)
  ss_locked_table : string;               (* the local variable locked_table *)
  ss_asked : nat
}.

Definition VS (A : Type) : Type := ST session db_error A.

Definition set_open (b : bool) (s : session) : session :=
  {| ss_open := b; ss_lock_timeout := ss_lock_timeout s; ss_requests := ss_requests s;
     ss_vacuumed := ss_vacuumed s; ss_locked_table := ss_locked_table s; ss_asked := ss_asked s |}.
Definition set_lock_timeout (t : option Z) (s : session) : session :=
  {| ss_open := ss_open s; ss_lock_timeout := t; ss_requests := ss_requests s;
     ss_vacuumed := ss_vacuumed s; ss_locked_table := ss_locked_table s; ss_asked := ss_asked s |}.
Definition set_requests (rs : list request) (s : session) : session :=
  {| ss_open := ss_open s; ss_lock_timeout := ss_lock_timeout s; ss_requests := rs;
     ss_vacuumed := ss_vacuumed s; ss_locked_table := ss_locked_table s; ss_asked := ss_asked s |}.
Definition add_vacuumed (cmd : string) (s : session) : session :=
  {| ss_open := ss_open s; ss_lock_timeout := ss_lock_timeout s; ss_requests := ss_requests s;
     ss_vacuumed := ss_vacuumed s ++ [cmd]; ss_locked_table := ss_locked_table s; ss_asked := ss_asked s |}.
Definition set_locked_table (t : string) (s : session) : session :=
  {| ss_open := ss_open s; ss_lock_timeout := ss_lock_timeout s; ss_requests := ss_requests s;
     ss_vacuumed := ss_vacuumed s; ss_locked_table := t; ss_asked := ss_asked s |}.
Definition asked (s : session) : session :=
  {| ss_open := ss_open s; ss_lock_timeout := ss_lock_timeout s; ss_requests := ss_requests s;
     ss_vacuumed := ss_vacuumed s; ss_locked_table := ss_locked_table s; ss_asked := S (ss_asked s) |}.

Section vacuum.
  Context (answer : nat -> reply) (now : Z) (quote_name : string -> string).

(** A statement with its effect on the database or the session. *)
Definition exec (effect : session -> session) : VS unit := fun s =>
  if negb (ss_open s) then (Throw ConnectionBroken, s)
  else
    match answer (ss_asked s) with
    | RDone => (Ok tt, effect (asked s))
    | RError b => (Throw (SqlFailure b), asked s)
    | RLost applied =>
        (Throw ConnectionBroken, set_open false (if applied then effect (asked s) else asked s))
    end.

(** ** [vacuum_unless_locked] *)

Definition vacuum_unless_locked (vacuum_command : string) (lock_timeout : Z) : VS bool :=
  exec (set_lock_timeout (Some lock_timeout)) ;;;
  (fun s =>
     match exec (add_vacuumed vacuum_command) s with
     | (Ok _, s1) => (exec (set_lock_timeout None) ;;; st_ret true) s1
     | (Throw (SqlFailure lock_not_available), s1) =>
         (exec (set_lock_timeout None) ;;;
          if lock_not_available then st_ret false else st_throw (SqlFailure false)) s1
     | (Throw e, s1) => (Throw e, s1)
     end).

(** ** [vacuum_cleaner] *)

Fixpoint vacuum_each (commands : list string) : VS unit :=
  match commands with
  | [] => st_ret tt
  | c :: commands' => let* _ := vacuum_unless_locked c VACUUM_LOCK_TIMEOUT in vacuum_each commands'
  end.

(** [execute_vacuum_commands]: the commands are what the query returns. *)
Definition execute_vacuum_commands (commands : list string) : VS unit :=
  exec id ;;; vacuum_each commands.

Definition vacuum (is_pruning_enabled : bool) (block_num : Z) (periodic prune : list string) : VS unit :=
  st_when (block_num mod 100000 =? 0) (execute_vacuum_commands periodic) ;;;
  st_when (is_pruning_enabled && (block_num mod 500000 =? 0)) (execute_vacuum_commands prune).

(** ** [process_vacuum_requests] *)

Definition vacuum_command_prefix (kind : string) : option string :=
  if String.eqb kind "full" then Some "VACUUM FULL ANALYZE "%string
  else if String.eqb kind "vacuum" then Some "VACUUM (ANALYZE) "%string
  else if String.eqb kind "analyze" then Some "ANALYZE "%string
  else if String.eqb kind "freeze" then Some "VACUUM (FREEZE, ANALYZE) "%string
  else None.

Definition qualified_table_name (r : request) : string :=
  (quote_name (rq_schema_name r) ++ "." ++ quote_name (rq_table_name r))%string.

Definition same_key (r1 r2 : request) : bool :=
  String.eqb (rq_schema_name r1) (rq_schema_name r2) &&
  String.eqb (rq_table_name r1) (rq_table_name r2) && String.eqb (rq_kind r1) (rq_kind r2).

Definition update_request (f : request -> request) (r : request) (s : session) : session :=
  set_requests (map (fun r' => if same_key r r' then f r' else r') (ss_requests s)) s.

Definition with_progress (status : request_status) (skips : Z) (first : option Z) (r : request) : request :=
  {| rq_schema_name := rq_schema_name r; rq_table_name := rq_table_name r; rq_kind := rq_kind r;
     rq_status := status; rq_skip_count := skips; rq_first_skip_time := first |}.

(** The three UPDATE statements. *)
Definition mark_skipped (r : request) : session -> session :=
  update_request (fun r' => with_progress (rq_status r') (rq_skip_count r' + 1)
    (Some (default now (rq_first_skip_time r'))) r') r.
Definition mark_vacuumed (r : request) : session -> session :=
  update_request (with_progress Vacuumed 0 None) r.
Definition mark_failed (r : request) : session -> session :=
  update_request (with_progress VacuumFailed 0 None) r.

Definition skipped_for (r : request) : Z :=
  match rq_first_skip_time r with Some t => now - t | None => 0 end.

(** [rethrow_if_connection_lost] in a handler. *)
Definition unless_lost {A} (e : db_error) (handler : VS A) : VS A := fun s =>
  if bool_decide (e = ConnectionBroken) || negb (ss_open s) then (Throw ConnectionBroken, s) else handler s.

(** The body of the inner [try]. *)
Definition vacuum_request (r : request) : VS unit :=
  match vacuum_command_prefix (rq_kind r) with
  | None => st_throw InvalidArgument
  | Some prefix =>
      let table := qualified_table_name r in
      let* s := st_get in
      if String.eqb table (ss_locked_table s) then st_ret tt
      else
        let* vacuumed := vacuum_unless_locked (prefix ++ table)%string
          (vacuum_request_lock_timeout (rq_skip_count r) (skipped_for r)) in
        if vacuumed then exec (mark_vacuumed r)
        else st_modify (set_locked_table table) ;;; exec (mark_skipped r)
  end.

Definition process_record (r : request) : VS unit := fun s =>
  match vacuum_request r s with
  | (Ok u, s1) => (Ok u, s1)
  | (Throw e, s1) =>
      unless_lost e
        (fun s1 => match exec (mark_failed r) s1 with
                   | (Ok u, s2) => (Ok u, s2)
                   | (Throw e2, s2) => unless_lost e2 (st_ret tt) s2
                   end) s1
  end.

Fixpoint process_records (data : list request) : VS unit :=
  match data with
  | [] => st_ret tt
  | r :: data' => process_record r ;;; process_records data'
  end.

(** [ORDER BY schema_name, table_name, kind <> 'full', kind] *)
Definition order_key (r : request) : list chars :=
  [lit (rq_schema_name r); lit (rq_table_name r);
   if String.eqb (rq_kind r) "full" then [] else ["1"%char]; lit (rq_kind r)].

Fixpoint keys_ltb (k1 k2 : list chars) : bool :=
  match k1, k2 with
  | _, [] => false
  | [], _ => true
  | a :: k1', b :: k2' =>
      if chars_ltb a b then true else if chars_ltb b a then false else keys_ltb k1' k2'
  end.

Definition request_le (r1 r2 : request) : Prop := keys_ltb (order_key r2) (order_key r1) = false.

#[global] Instance request_le_dec r1 r2 : Decision (request_le r1 r2).
Proof. unfold request_le. apply _. Defined.

Definition requested (rs : list request) : list request :=
  merge_sort request_le (filter (fun r => rq_status r = Requested) rs).

Definition process_vacuum_requests : VS unit := fun s =>
  match (exec id ;;; (fun s => process_records (requested (ss_requests s)) (set_locked_table "" s))) s with
  | (Ok u, s1) => (Ok u, s1)
  | (Throw e, s1) => unless_lost e (st_ret tt) s1
  end.

(** ** The order of the requests *)

Lemma keys_ltb_irrefl k : keys_ltb k k = false.
Proof. induction k as [|a k IH]; [done|]. cbn. by rewrite chars_ltb_irrefl. Qed.

Lemma keys_ltb_asym k1 k2 : keys_ltb k1 k2 = true -> keys_ltb k2 k1 = false.
Proof.
  revert k2. induction k1 as [|a k1 IH]; intros [|b k2]; try done. cbn.
  destruct (chars_ltb a b) eqn:E1, (chars_ltb b a) eqn:E2; try done; [|by auto].
  pose proof (chars_ltb_trans _ _ _ E1 E2) as E. by rewrite chars_ltb_irrefl in E.
Qed.

(** Not after: the complement of [keys_ltb] is transitive. *)
Lemma keys_ge_trans k1 k2 k3 :
  keys_ltb k2 k1 = false -> keys_ltb k3 k2 = false -> keys_ltb k3 k1 = false.
Proof.
  revert k2 k3. induction k1 as [|a k1 IH]; intros [|b k2] [|c k3]; try done. cbn.
  destruct (chars_ltb b a) eqn:Eba; [done|]. destruct (chars_ltb c b) eqn:Ecb; [done|].
  destruct (chars_ltb a b) eqn:Eab.
  - intros _. destruct (chars_ltb b c) eqn:Ebc.
    + intros _. pose proof (chars_ltb_trans _ _ _ Eab Ebc) as Eac. rewrite Eac.
      destruct (chars_ltb c a) eqn:Eca; [|done]. pose proof (chars_ltb_trans _ _ _ Eac Eca) as E.
      by rewrite chars_ltb_irrefl in E.
    + rewrite <- (chars_ltb_total _ _ Ebc Ecb). by rewrite Eba, Eab.
  - rewrite (chars_ltb_total _ _ Eab Eba). rewrite Ecb. destruct (chars_ltb b c) eqn:Ebc; [done|]. apply IH.
Qed.

#[global] Instance request_le_total : Total request_le.
Proof.
  intros r1 r2. unfold request_le. destruct (keys_ltb (order_key r2) (order_key r1)) eqn:E; [right|by left].
  by apply keys_ltb_asym.
Qed.

#[global] Instance request_le_trans : Transitive request_le.
Proof. intros r1 r2 r3. apply keys_ge_trans. Qed.

Definition same_table (r1 r2 : request) : Prop :=
  rq_schema_name r1 = rq_schema_name r2 /\ rq_table_name r1 = rq_table_name r2.

#[global] Instance same_table_dec r1 r2 : Decision (same_table r1 r2).
Proof. unfold same_table. apply _. Defined.

Lemma same_table_qualified r1 r2 :
  same_table r1 r2 -> qualified_table_name r1 = qualified_table_name r2.
Proof. intros [H1 H2]. unfold qualified_table_name. by rewrite H1, H2. Qed.

(** Between two requests of a table there are only requests of that table. *)
Lemma same_table_between r1 r2 r3 :
  request_le r1 r2 -> request_le r2 r3 -> same_table r1 r3 -> same_table r1 r2.
Proof.
  unfold request_le. intros H12 H23 [Hs Ht]. cbn in *. rewrite <- Hs, <- Ht in H23.
  destruct (chars_ltb (lit (rq_schema_name r2)) (lit (rq_schema_name r1))) eqn:E1; [done|].
  destruct (chars_ltb (lit (rq_schema_name r1)) (lit (rq_schema_name r2))) eqn:E2; [done|].
  destruct (chars_ltb (lit (rq_table_name r2)) (lit (rq_table_name r1))) eqn:E3; [done|].
  destruct (chars_ltb (lit (rq_table_name r1)) (lit (rq_table_name r2))) eqn:E4; [done|].
  split; apply lit_inj; by apply chars_ltb_total.
Qed.

Lemma requested_sorted rs : StronglySorted request_le (requested rs).
Proof. apply StronglySorted_merge_sort; apply _. Qed.

Lemma requested_permutation rs : requested rs ≡ₚ filter (fun r => rq_status r = Requested) rs.
Proof. apply merge_sort_Permutation. Qed.

(** ** Properties *)

Definition known_kind (r : request) : Prop := is_Some (vacuum_command_prefix (rq_kind r)).

(** A statement either has its effect, or fails and leaves the connection open, or
    closes it. *)
Lemma exec_cases effect s o s' :
  exec effect s = (o, s') -> (forall s0, ss_open (effect s0) = ss_open s0) ->
  (o = Ok tt /\ s' = effect (asked s) /\ ss_open s' = true) \/
  (exists b, o = Throw (SqlFailure b) /\ s' = asked s /\ ss_open s' = true) \/
  (o = Throw ConnectionBroken /\ ss_open s' = false /\
    (s' = s \/ s' = set_open false (asked s) \/ s' = set_open false (effect (asked s)))).
Proof.
  unfold exec. destruct (ss_open s) eqn:Ho; cbn; [|intros [= <- <-] _; auto 10].
  intros E He. destruct (answer (ss_asked s)) as [|b|b]; injection E as <- <-.
  - left. split_and!; try done. rewrite He. done.
  - right. left. exists b. by split_and!.
  - right. right. split_and!; try done. destruct b; auto.
Qed.

Ltac exec_step H :=
  match type of H with
  | context [exec ?f ?s] =>
      let E := fresh "E" in
      destruct (exec f s) as [? ?] eqn:E;
      apply exec_cases in E; [|done];
      destruct E as [(-> & -> & ?)|[(? & -> & -> & ?)|(-> & ? & [-> | [-> | ->]])]]
  end.

(** What a vacuum can do to a session. *)
Lemma vacuum_unless_locked_cases cmd t s o s' :
  vacuum_unless_locked cmd t s = (o, s') ->
  ss_requests s' = ss_requests s /\ ss_locked_table s' = ss_locked_table s /\
  match o with
  | Ok b => ss_open s' = true /\ ss_lock_timeout s' = None /\
            ss_vacuumed s' = ss_vacuumed s ++ (if b then [cmd] else [])
  | Throw ConnectionBroken => ss_open s' = false
  | Throw (SqlFailure _) => ss_open s' = true
  | Throw InvalidArgument => False
  end.
Proof.
  unfold vacuum_unless_locked, st_bind, st_ret, st_throw. intros H.
  exec_step H; [|injection H as <- <-; by split_and!..].
  exec_step H.
  - exec_step H; injection H as <- <-; by split_and!.
  - exec_step H; [destruct x|..]; simplify_eq; cbn; rewrite ?app_nil_r; by split_and!.
  - injection H as <- <-; by split_and!.
  - injection H as <- <-; by split_and!.
  - injection H as <- <-; by split_and!.
Qed.

(** Errors of the server are recorded and survived; only a lost connection gets out. *)
Definition survives (m : VS unit) : Prop := forall s o s',
  ss_open s = true -> m s = (o, s') ->
  match o with Ok _ => ss_open s' = true | Throw e => e = ConnectionBroken /\ ss_open s' = false end.

Lemma survives_ret : survives (st_ret tt).
Proof. by intros s o s' Ho [= <- <-]. Qed.

Lemma survives_seq m1 m2 : survives m1 -> survives m2 -> survives (m1 ;;; m2).
Proof.
  intros H1 H2 s o s' Ho E. unfold st_bind in E. destruct (m1 s) as [[u|e] s1] eqn:E1.
  - exact (H2 _ _ _ (H1 _ _ _ Ho E1) E).
  - injection E as <- <-. exact (H1 _ _ _ Ho E1).
Qed.

(** A handler of [rethrow_if_connection_lost] around anything that closes the session
    only with [ConnectionBroken]. *)
Lemma survives_handler (m : VS unit) (handler : VS unit) :
  (forall s o s', ss_open s = true -> m s = (o, s') ->
    match o with Throw ConnectionBroken => ss_open s' = false | _ => ss_open s' = true end) ->
  survives handler ->
  survives (fun s => match m s with
                     | (Ok u, s1) => (Ok u, s1)
                     | (Throw e, s1) => unless_lost e handler s1
                     end).
Proof.
  intros Hm Hh s o s' Ho E. destruct (m s) as [[u|e] s1] eqn:Em; specialize (Hm _ _ _ Ho Em).
  - by injection E as <- <-.
  - unfold unless_lost in E. destruct (decide (e = ConnectionBroken)) as [->|He].
    + by injection E as <- <-.
    + assert (ss_open s1 = true) as Hs1 by (by destruct e).
      rewrite bool_decide_false, Hs1 in E by done. exact (Hh _ _ _ Hs1 E).
Qed.

Lemma exec_closes effect s o s' :
  (forall s0, ss_open (effect s0) = ss_open s0) -> exec effect s = (o, s') -> ss_open s = true ->
  match o with Throw ConnectionBroken => ss_open s' = false | Throw InvalidArgument => False | _ => ss_open s' = true end.
Proof.
  intros He E _. apply exec_cases in E; [|done].
  destruct E as [(-> & _ & ?)|[(b & -> & _ & ?)|(-> & ? & _)]]; done.
Qed.

Lemma vacuum_request_closes r s o s' :
  ss_open s = true -> vacuum_request r s = (o, s') ->
  match o with Throw ConnectionBroken => ss_open s' = false | _ => ss_open s' = true end.
Proof.
  intros Ho E. unfold vacuum_request in E. destruct (vacuum_command_prefix (rq_kind r)) as [prefix|];
    [|by injection E as <- <-].
  unfold st_bind, st_get in E. destruct (String.eqb _ _); [by injection E as <- <-|].
  destruct (vacuum_unless_locked _ _ s) as [[b|e] s1] eqn:Ev;
    apply vacuum_unless_locked_cases in Ev as (_ & _ & Hv).
  - destruct Hv as (Ho1 & _). destruct b.
    + pose proof (exec_closes (mark_vacuumed r) s1 o s' (fun _ => eq_refl) E Ho1). by destruct o as [|[]].
    + unfold st_modify in E.
      pose proof (exec_closes (mark_skipped r) (set_locked_table _ s1) o s' (fun _ => eq_refl) E Ho1).
      by destruct o as [|[]].
  - injection E as <- <-. by destruct e.
Qed.

Lemma process_record_survives r : survives (process_record r).
Proof.
  apply survives_handler; [apply vacuum_request_closes|].
  apply survives_handler; [|apply survives_ret].
  intros s o s' Ho E. pose proof (exec_closes (mark_failed r) s o s' (fun _ => eq_refl) E Ho).
  by destruct o as [|[]].
Qed.

Lemma process_records_survive data : survives (process_records data).
Proof.
  induction data; cbn [process_records]; [apply survives_ret|].
  apply survives_seq; [apply process_record_survives|done].
Qed.

(** Processing the vacuum requests never throws because of a statement the server
    refuses or a request it does not know; only a lost connection ends it. *)
Theorem vacuum_requests_survive_errors s o s' :
  ss_open s = true -> process_vacuum_requests s = (o, s') ->
  match o with Ok _ => ss_open s' = true | Throw e => e = ConnectionBroken /\ ss_open s' = false end.
Proof.
  intros Ho E. revert s o s' Ho E. apply survives_handler; [|apply survives_ret].
  intros s o s' Ho E. unfold st_bind in E.
  destruct (exec id s) as [[[]|e] s1] eqn:E1;
    pose proof (exec_closes id s _ _ (fun _ => eq_refl) E1 Ho) as H1; cbn in H1.
  - pose proof (process_records_survive _ (set_locked_table "" s1) o s' H1 E) as H2.
    destruct o as [|e]; [done|]. by destruct H2 as [-> ?].
  - injection E as <- <-. by destruct e.
Qed.

(** *** A skipped table *)

Lemma postponed r s :
  known_kind r -> ss_locked_table s = qualified_table_name r -> process_record r s = (Ok tt, s).
Proof.
  intros [prefix Hk] Hl. unfold process_record, vacuum_request. rewrite Hk.
  unfold st_bind, st_get. by rewrite Hl, String.eqb_refl.
Qed.

(** Of the requests of a table a full vacuum comes first. *)
Lemma full_first r1 r2 :
  request_le r1 r2 -> same_table r1 r2 -> rq_kind r2 = "full"%string -> rq_kind r1 = "full"%string.
Proof.
  unfold request_le. intros H [Hs Ht] Hk. cbn in H. rewrite Hs, Ht, Hk, !chars_ltb_irrefl in H. cbn in H.
  destruct (String.eqb_spec (rq_kind r1) "full"); [done|]. by cbn in H.
Qed.

(** Once another table has been reached, the skipped one does not come back. *)
Lemma other_tables_follow r x post :
  request_le r x -> StronglySorted request_le (x :: post) -> ~ same_table r x ->
  filter (fun r' => ~ same_table r r') post = post.
Proof.
  intros Hrx Hs Ht. apply StronglySorted_inv in Hs as [_ Hx]. rewrite filter_all; [done|].
  eapply Forall_impl; [exact Hx|]. intros y Hxy Hy. apply Ht. by apply (same_table_between r x y).
Qed.

(** When a request is skipped because its table is locked, the other requests of that
    table wait for the next poll: none of them is executed or changed.  A full vacuum is
    the first request of its table, so a skipped one stays ahead of the others. *)
Theorem skipped_table_waits rs pre r post s :
  requested rs = pre ++ r :: post -> Forall known_kind rs ->
  ss_locked_table s = qualified_table_name r ->
  process_records post s = process_records (filter (fun r' => ~ same_table r r') post) s /\
  Forall (fun r' => same_table r r' -> rq_kind r' = "full"%string -> rq_kind r = "full"%string) post.
Proof.
  intros Hq Hk Hl. pose proof (requested_sorted rs) as Hs. rewrite Hq in Hs.
  apply StronglySorted_app_r in Hs.
  assert (Forall known_kind post) as Hkp.
  { rewrite Forall_forall in Hk. apply Forall_forall. intros x Hx. apply Hk.
    assert (x ∈ requested rs) as Hin by (rewrite Hq; set_solver).
    rewrite requested_permutation in Hin. by apply list_elem_of_filter in Hin as [_ ?]. }
  clear Hq Hk. apply StronglySorted_inv in Hs as [Hs Hf]. split.
  2: { eapply Forall_impl; [exact Hf|]. intros x Hx. by apply full_first. }
  induction post as [|x post IH]; [done|]. pose proof Hs as Hsx.
  apply StronglySorted_inv in Hs as [Hs _]. inversion Hf as [|? ? Hrx Hf']; subst.
  inversion Hkp as [|? ? Hkx Hkp']; subst. cbn [process_records].
  destruct (decide (same_table r x)) as [Ht|Ht].
  - rewrite filter_cons_False by tauto. unfold st_bind.
    rewrite postponed by (done || by rewrite Hl; apply same_table_qualified). by apply IH.
  - rewrite filter_cons_True by done. by rewrite (other_tables_follow r x).
Qed.

(** *** A server that executes everything *)

Definition vacuum_command (r : request) : string :=
  (default "" (vacuum_command_prefix (rq_kind r)) ++ qualified_table_name r)%string.

Definition done_with (r : request) : request := with_progress Vacuumed 0 None r.

Lemma qualified_not_empty r : String.eqb (qualified_table_name r) "" = false.
Proof. unfold qualified_table_name. by destruct (quote_name (rq_schema_name r)). Qed.

Lemma process_record_done r s :
  (forall n, answer n = RDone) -> known_kind r -> ss_open s = true -> ss_locked_table s = "" ->
  exists s', process_record r s = (Ok tt, s') /\ ss_open s' = true /\ ss_locked_table s' = "" /\
    ss_vacuumed s' = ss_vacuumed s ++ [vacuum_command r] /\
    ss_requests s' = map (fun r' => if same_key r r' then done_with r' else r') (ss_requests s).
Proof.
  intros Hd [prefix Hk] Ho Hl. eexists. split.
  - unfold process_record, vacuum_request, st_bind, st_get. rewrite Hk, Hl, qualified_not_empty.
    unfold vacuum_unless_locked, exec, st_bind, st_ret. rewrite Ho. cbn [negb]. rewrite Hd.
    cbn [ss_open set_lock_timeout asked]. rewrite Ho. cbn [negb]. rewrite Hd.
    cbn [ss_open add_vacuumed set_lock_timeout asked]. rewrite Ho. cbn [negb]. rewrite Hd.
    cbn [ss_open add_vacuumed set_lock_timeout asked]. rewrite Ho. cbn [negb]. rewrite Hd. reflexivity.
  - cbn. unfold vacuum_command. by rewrite Hk.
Qed.

Definition key_of (r : request) : string * string * string := (rq_schema_name r, rq_table_name r, rq_kind r).

Lemma same_key_spec r1 r2 : same_key r1 r2 = true <-> key_of r1 = key_of r2.
Proof.
  unfold same_key, key_of. rewrite !andb_true_iff, !String.eqb_eq. split; [|by intros [= -> -> ->]].
  by intros [[-> ->] ->].
Qed.

Lemma process_records_done data s :
  (forall n, answer n = RDone) -> Forall known_kind data -> ss_open s = true -> ss_locked_table s = "" ->
  exists s', process_records data s = (Ok tt, s') /\
    ss_vacuumed s' = ss_vacuumed s ++ map vacuum_command data /\
    ss_requests s' =
      map (fun r' => if bool_decide (key_of r' ∈ map key_of data) then done_with r' else r') (ss_requests s).
Proof.
  intros Hd Hk. revert s. induction Hk as [|r data Hr Hk IH]; intros s Ho Hl; cbn [process_records map].
  - exists s. rewrite app_nil_r. split_and!; try done. symmetry. rewrite <- (map_id (ss_requests s)) at 2.
    apply map_ext. intros r'. by rewrite bool_decide_false by apply not_elem_of_nil.
  - destruct (process_record_done r s Hd Hr Ho Hl) as (s1 & E1 & Ho1 & Hl1 & V1 & R1).
    destruct (IH s1 Ho1 Hl1) as (s2 & E2 & V2 & R2). exists s2. unfold st_bind. rewrite E1, E2.
    split_and!; [done|by rewrite V2, V1, <- app_assoc|].
    rewrite R2, R1, map_map. apply map_ext. intros r'.
    destruct (same_key r r') eqn:Ek.
    + apply same_key_spec in Ek. rewrite (bool_decide_true (key_of r' ∈ key_of r :: map key_of data)) by (rewrite <- Ek; left).
      change (key_of (done_with r')) with (key_of r'). by case_bool_decide.
    + assert (key_of r' <> key_of r) as Hne.
      { intros E. assert (same_key r r' = true) as E' by (by apply same_key_spec). congruence. }
      rewrite (bool_decide_ext (key_of r' ∈ map key_of data) (key_of r' ∈ key_of r :: map key_of data)); [done|].
      rewrite elem_of_cons. tauto.
Qed.

(** When the server executes everything, a poll vacuums every requested table with
    the command of its kind, in the order of the requests, and marks exactly the
    requests it found as done. *)
Theorem vacuum_requests_complete s :
  (forall n, answer n = RDone) -> ss_open s = true -> NoDup (map key_of (ss_requests s)) ->
  Forall known_kind (ss_requests s) ->
  exists s', process_vacuum_requests s = (Ok tt, s') /\
    ss_vacuumed s' = ss_vacuumed s ++ map vacuum_command (requested (ss_requests s)) /\
    ss_requests s' =
      map (fun r => if decide (rq_status r = Requested) then done_with r else r) (ss_requests s).
Proof.
  intros Hd Ho Hn Hk. unfold process_vacuum_requests, st_bind, exec. rewrite Ho, Hd. cbn [negb id].
  destruct (process_records_done (requested (ss_requests s)) (set_locked_table "" (asked s)) Hd)
    as (s' & E & V & R); [|done|done|].
  { apply Forall_forall. intros r Hr. rewrite requested_permutation in Hr.
    apply list_elem_of_filter in Hr as [_ Hr]. by eapply Forall_forall in Hk. }
  cbn [ss_requests asked set_locked_table ss_vacuumed] in *. exists s'. rewrite E. split_and!; [done|done|].
  rewrite R. apply list_fmap_ext. intros i r Hi. cbn.
  assert (key_of r ∈ map key_of (requested (ss_requests s)) <-> rq_status r = Requested) as Hiff.
  { rewrite (Permutation_map _ (requested_permutation _)). split.
    - intros (r2 & Hk2 & [Hs2 Hr2]%list_elem_of_filter)%list_elem_of_fmap.
      assert (r = r2) as ->; [|done]. apply list_elem_of_lookup in Hr2 as [j Hj].
      assert (i = j) as ->; [|congruence].
      eapply (NoDup_lookup _ i j _ Hn); rewrite list_lookup_fmap, ?Hi, ?Hj; cbn; by rewrite ?Hk2.
    - intros Hs2. apply list_elem_of_fmap. exists r. split; [done|]. apply list_elem_of_filter.
      split; [done|]. by eapply list_elem_of_lookup_2. }
  destruct (decide (rq_status r = Requested)); case_bool_decide; tauto.
Qed.

End vacuum.

(** ** Examples *)

Module VacuumExamples.

Definition quote (s : string) : string := (String "034" s ++ String "034" "")%string.

Definition a_request (table kind : string) : request :=
  {| rq_schema_name := "app"; rq_table_name := table; rq_kind := kind; rq_status := Requested;
     rq_skip_count := 0; rq_first_skip_time := None |}.

Definition the_requests : list request :=
  [a_request "posts" "vacuum"; a_request "posts" "full"; a_request "votes" "analyze"].

Definition a_session (locked : string) : session :=
  {| ss_open := true; ss_lock_timeout := None; ss_requests := the_requests; ss_vacuumed := [];
     ss_locked_table := locked; ss_asked := 0 |}.

(** The second vacuum of the poll finds its table locked. *)
Definition locked_once (n : nat) : reply := if bool_decide (n = 2%nat) then RError true else RDone.

Lemma vacuum_requests_survive_errors_witness :
  let '(o, s') := process_vacuum_requests locked_once 0 quote (a_session "") in
  o = Ok tt /\
  ss_vacuumed s' = [("ANALYZE " ++ quote "app" ++ "." ++ quote "votes")%string] /\
  map rq_skip_count (ss_requests s') = [0; 1; 0] /\
  match o with Ok _ => ss_open s' = true | Throw e => e = ConnectionBroken /\ ss_open s' = false end.
Proof.
  destruct (process_vacuum_requests locked_once 0 quote (a_session "")) as [o s'] eqn:E.
  pose proof (vacuum_requests_survive_errors locked_once 0 quote (a_session "") o s' eq_refl E) as H.
  vm_compute in E. injection E as <- <-. split_and!; [reflexivity..|exact H].
Defined.

Lemma skipped_table_waits_witness :
  process_records locked_once 0 quote [a_request "posts" "vacuum"; a_request "votes" "analyze"]
    (a_session (quote "app" ++ "." ++ quote "posts")) =
  process_records locked_once 0 quote [a_request "votes" "analyze"]
    (a_session (quote "app" ++ "." ++ quote "posts")).
Proof.
  apply (skipped_table_waits locked_once 0 quote the_requests [] (a_request "posts" "full")
    [a_request "posts" "vacuum"; a_request "votes" "analyze"]
    (a_session (quote "app" ++ "." ++ quote "posts"))).
  - vm_compute. reflexivity.
  - repeat constructor; eexists; reflexivity.
  - reflexivity.
Defined.

Lemma vacuum_requests_complete_witness :
  exists s', process_vacuum_requests (fun _ => RDone) 0 quote (a_session "") = (Ok tt, s') /\
    ss_vacuumed s' =
      [("VACUUM FULL ANALYZE " ++ quote "app" ++ "." ++ quote "posts")%string;
       ("VACUUM (ANALYZE) " ++ quote "app" ++ "." ++ quote "posts")%string;
       ("ANALYZE " ++ quote "app" ++ "." ++ quote "votes")%string] /\
    map rq_status (ss_requests s') = [Vacuumed; Vacuumed; Vacuumed].
Proof.
  destruct (vacuum_requests_complete (fun _ => RDone) 0 quote (a_session "")) as (s' & E & V & R).
  - reflexivity.
  - reflexivity.
  - apply (bool_decide_unpack _). vm_compute. exact I.
  - repeat constructor; eexists; reflexivity.
  - exists s'. split_and!; [exact E|rewrite V; vm_compute; reflexivity|rewrite R; vm_compute; reflexivity].
Defined.

End VacuumExamples.
