(* ===== verification/IndexBuilds.v ===== *)
(** * Building indexes in the background ([indexes_controler.cpp])

    The monitor thread polls [hafd.indexes_constraints]; for every table with missing
    indexes it starts a thread that creates them one by one.  A build that fails is
    cleaned up by its own thread; a build whose connection was lost is noted in
    [indexes_to_reset] and cleaned up by the monitor.

    The monitor and the build threads interleave at their statements.  The server answers
    each of them: it is executed, refused, or the connection is lost, before or after
    the statement took effect.  A registered command may say IF NOT EXISTS; it is then
    executed without doing anything when the name is taken. *)

From S2P Require Import Prelude.
From Stdlib Require Import ZArith Lia String.
From stdpp Require Import base list strings gmap sets.

Inductive ix_status := Missing | Creating | Created.
Inductive physical := Invalid | Valid.

#[global] Instance ix_status_eq_dec : EqDecision ix_status.
Proof. solve_decision. Defined.
#[global] Instance physical_eq_dec : EqDecision physical.
Proof. solve_decision. Defined.

(** A CREATE INDEX CONCURRENTLY that is not completed may leave an invalid index behind. *)
Inductive answer :=
| Executed
| Refused (invalid_left : bool)
| ConnectionLost (applied invalid_left : bool).

(** Where a build thread is: the statement it executes next, with the indexes that are
    left to build. *)
Inductive build_at :=
| Connecting
| Looping (rest : list string)                      (* SET status = 'creating', or ANALYZE *)
| CreatingIndex (name : string) (rest : list string) (* CREATE INDEX CONCURRENTLY *)
| Marking (name : string) (rest : list string)      (* SET status = 'created' *)
| Dropping (name : string) (rest : list string)     (* DROP INDEX IF EXISTS *)
| Unmarking (name : string) (rest : list string)    (* SET status = 'missing' *)
| Ending                                            (* before finished_tables.insert *)
| Ended.                                            (* returned, not joined *)

(** Where the monitor is in its poll. *)
Inductive monitor_at :=
| PollBegin
| Resetting (remaining : list (string * string))    (* reset_indexes_of_lost_builds *)
| Starting                                          (* start_missing_index_builds *)
| Joining.                                          (* join_finished *)

Record world := {
  w_rows : gmap string (string * ix_status);        (* index name -> table, status *)
  w_physical : gmap string physical;                (* the indexes that exist *)
  w_finished_tables : gset string;
  w_indexes_to_reset : gmap string string;          (* index name -> table *)
  w_threads : gmap string (build_at * bool);        (* table -> thread, connection open *)
  w_monitor : monitor_at
}.

Definition set_rows (r : gmap string (string * ix_status)) (w : world) : world :=
  {| w_rows := r; w_physical := w_physical w; w_finished_tables := w_finished_tables w;
     w_indexes_to_reset := w_indexes_to_reset w; w_threads := w_threads w; w_monitor := w_monitor w |}.
Definition set_physical (p : gmap string physical) (w : world) : world :=
  {| w_rows := w_rows w; w_physical := p; w_finished_tables := w_finished_tables w;
     w_indexes_to_reset := w_indexes_to_reset w; w_threads := w_threads w; w_monitor := w_monitor w |}.
Definition set_finished (f : gset string) (w : world) : world :=
  {| w_rows := w_rows w; w_physical := w_physical w; w_finished_tables := f;
     w_indexes_to_reset := w_indexes_to_reset w; w_threads := w_threads w; w_monitor := w_monitor w |}.
Definition set_to_reset (m : gmap string string) (w : world) : world :=
  {| w_rows := w_rows w; w_physical := w_physical w; w_finished_tables := w_finished_tables w;
     w_indexes_to_reset := m; w_threads := w_threads w; w_monitor := w_monitor w |}.
Definition set_threads (t : gmap string (build_at * bool)) (w : world) : world :=
  {| w_rows := w_rows w; w_physical := w_physical w; w_finished_tables := w_finished_tables w;
     w_indexes_to_reset := w_indexes_to_reset w; w_threads := t; w_monitor := w_monitor w |}.
Definition set_monitor (m : monitor_at) (w : world) : world :=
  {| w_rows := w_rows w; w_physical := w_physical w; w_finished_tables := w_finished_tables w;
     w_indexes_to_reset := w_indexes_to_reset w; w_threads := w_threads w; w_monitor := m |}.

(** [UPDATE hafd.indexes_constraints SET status = ... WHERE index_constraint_name = ...] *)
Definition set_status (st : ix_status) (name : string) (w : world) : world :=
  match w_rows w !! name with
  | Some (table, _) => set_rows (<[name := (table, st)]> (w_rows w)) w
  | None => w
  end.

Definition drop_index (name : string) (w : world) : world := set_physical (delete name (w_physical w)) w.

Definition index_exists (name : string) (w : world) : bool := bool_decide (is_Some (w_physical w !! name)).

(** CREATE INDEX never touches an index that already has the name. *)
Definition create_index (left_behind : option physical) (name : string) (w : world) : world :=
  match left_behind with
  | Some p => if index_exists name w then w else set_physical (<[name := p]> (w_physical w)) w
  | None => w
  end.

Definition left_invalid (invalid_left : bool) : option physical := if invalid_left then Some Invalid else None.

(** [SELECT index_constraint_name ... WHERE status = 'missing' AND table_name = ...] *)
Definition missing_of (table : string) (w : world) : list string :=
  map fst (filter (fun r => r.2 = (table, Missing)) (map_to_list (w_rows w))).

(** ** [build_missing_indexes] *)

Section commands.
  (** Whether the command registered for an index says IF NOT EXISTS. *)
  Context (if_not_exists : string -> bool).

(** A build whose connection was lost notes its index and stops. *)
Definition note_lost (table name : string) (w : world) : (build_at * bool) * world :=
  ((Ending, false), set_to_reset (<[name := table]> (w_indexes_to_reset w)) w).

(** A statement on a connection that is already lost fails without reaching the server. *)
Definition answer_on (open : bool) (a : answer) : answer := if open then a else ConnectionLost false false.

(** One statement of the thread of [table]; the error of [reset_failed_index] is only
    logged. *)
Definition build_turn (table : string) (th : build_at * bool) (a : answer) (w : world) :
    (build_at * bool) * world :=
  let '(pc, open) := th in
  let a := answer_on open a in
  match pc with
  | Connecting =>
      match a with
      | Executed => ((Looping (missing_of table w), true), w)
      | _ => ((Ending, open), w)
      end
  | Looping [] => ((Ending, open), w)                    (* ANALYZE; errors are logged *)
  | Looping (name :: rest) =>
      match a with
      | Executed => ((CreatingIndex name rest, open), set_status Creating name w)
      | Refused _ => ((Dropping name rest, open), w)
      | ConnectionLost applied _ => note_lost table name (if applied then set_status Creating name w else w)
      end
  | CreatingIndex name rest =>
      match a with
      | Executed =>
          if index_exists name w
          then (if if_not_exists name then (Marking name rest, open) else (Dropping name rest, open), w)
          else ((Marking name rest, open), create_index (Some Valid) name w)
      | Refused invalid_left =>
          ((Dropping name rest, open), create_index (left_invalid invalid_left) name w)
      | ConnectionLost applied invalid_left =>
          note_lost table name
            (create_index (if applied then Some Valid else left_invalid invalid_left) name w)
      end
  | Marking name rest =>
      match a with
      | Executed => ((Looping rest, open), set_status Created name w)
      | Refused _ => ((Dropping name rest, open), w)
      | ConnectionLost applied _ => note_lost table name (if applied then set_status Created name w else w)
      end
  | Dropping name rest =>
      match a with
      | Executed => ((Unmarking name rest, open), drop_index name w)
      | Refused _ => ((Looping rest, open), w)
      | ConnectionLost applied _ => ((Looping rest, false), if applied then drop_index name w else w)
      end
  | Unmarking name rest =>
      match a with
      | Executed => ((Looping rest, open), set_status Missing name w)
      | Refused _ => ((Looping rest, open), w)
      | ConnectionLost applied _ => ((Looping rest, false), if applied then set_status Missing name w else w)
      end
  | Ending => ((Ended, open), set_finished ({[table]} ∪ w_finished_tables w) w)
  | Ended => (th, w)
  end.

(** ** The monitor *)

(** [reset_interrupted_index_builds], before the first poll. *)
Definition reset_interrupted_index_builds (w : world) : world :=
  set_rows ((fun r => if decide (r.2 = Creating) then (r.1, Missing) else r) <$> w_rows w) w.

(** [reset_failed_index] for the monitor, with the answers to its two statements; the
    entry is erased when both were executed. *)
Definition reset_lost_index (name : string) (a1 a2 : answer) (w : world) : answer * world :=
  match a1 with
  | Refused b => (Refused b, w)
  | ConnectionLost applied b => (ConnectionLost applied b, if applied then drop_index name w else w)
  | Executed =>
      let w1 := drop_index name w in
      match a2 with
      | Executed =>
          let w2 := set_status Missing name w1 in
          (Executed, set_to_reset (delete name (w_indexes_to_reset w2)) w2)
      | Refused b => (Refused b, w1)
      | ConnectionLost applied b => (ConnectionLost applied b, if applied then set_status Missing name w1 else w1)
      end
  end.

(** [table_name LIKE 'hafd.%'] *)
Definition is_hafd (table : string) : bool := String.prefix "hafd." table.

(** The tables the query of [start_missing_index_builds] returns. *)
Definition tables_to_build (w : world) : list string :=
  let rows := map snd (map_to_list (w_rows w)) in
  remove_dups (map fst (filter (fun r => r.2 = Missing /\ is_hafd r.1 = true /\ (r.1, Creating) ∉ rows) rows)).

Definition start_build (table : string) (w : world) : world :=
  match w_threads w !! table with
  | Some _ => w                                          (* is_running *)
  | None => set_threads (<[table := (Connecting, true)]> (w_threads w)) w
  end.

Definition start_missing_index_builds (w : world) : world :=
  foldl (fun w table => start_build table w) w (tables_to_build w).

(** [join_finished] *)
Definition join_finished (w : world) : world :=
  set_finished ∅ (set_threads (filter (fun th => th.1 ∉ w_finished_tables w) (w_threads w)) w).

(** The statements that clean up after a failed build. *)
Definition cleaning_up (pc : build_at) : bool :=
  match pc with Dropping _ _ | Unmarking _ _ => true | _ => false end.

Section system.
  Context (tolerant : bool).

(** [tolerant] allows clean-up statements to fail; without it a thread's own clean-up is
    executed and the monitor's is executed or loses its connection. *)
Definition cleanup_ok (th : build_at * bool) (a : answer) : Prop :=
  tolerant = true \/ cleaning_up th.1 = false \/ answer_on th.2 a = Executed.

Definition reset_ok (a : answer) : Prop := tolerant = true \/ match a with Refused _ => False | _ => True end.

Inductive step : world -> world -> Prop :=
| StepBuild w table th a th' w' :
    w_threads w !! table = Some th -> cleanup_ok th a ->
    build_turn table th a w = (th', w') ->
    step w (set_threads (<[table := th']> (w_threads w')) w')
| StepPoll w :
    w_monitor w = PollBegin ->
    step w (set_monitor (Resetting (map_to_list (w_indexes_to_reset w))) w)
| StepReset w name table remaining a1 a2 a w' :
    w_monitor w = Resetting ((name, table) :: remaining) -> reset_ok a1 -> reset_ok a2 ->
    reset_lost_index name a1 a2 w = (a, w') ->
    step w (set_monitor (match a with ConnectionLost _ _ => Joining | _ => Resetting remaining end) w')
| StepVacuum w (lost : bool) :                           (* process_vacuum_requests *)
    w_monitor w = Resetting [] ->
    step w (set_monitor (if lost then Joining else Starting) w)
| StepStart w (lost : bool) :
    w_monitor w = Starting ->
    step w (set_monitor Joining (if lost then w else start_missing_index_builds w))
| StepJoin w :
    w_monitor w = Joining -> step w (set_monitor PollBegin (join_finished w)).

Inductive reachable (w0 : world) : world -> Prop :=
| ReachRefl : reachable w0 w0
| ReachStep w w' : reachable w0 w -> step w w' -> reachable w0 w'.

(** The first poll: no thread, nothing to reset, interrupted builds reset. *)
Definition monitor_start (rows : gmap string (string * ix_status)) (phys : gmap string physical) : world :=
  reset_interrupted_index_builds
    {| w_rows := rows; w_physical := phys; w_finished_tables := ∅; w_indexes_to_reset := ∅;
       w_threads := ∅; w_monitor := PollBegin |}.

End system.

(** ** The invariant, table by table *)

Definition rest_ok (table : string) (rest : list string) (w : world) : Prop :=
  NoDup rest /\ forall n, n ∈ rest -> w_rows w !! n = Some (table, Missing).

Definition building (table name : string) (w : world) : Prop :=
  exists st, w_rows w !! name = Some (table, st) /\ st <> Created.

(** What a thread relies on at each of its statements. *)
Definition thread_ok (table : string) (pc : build_at) (w : world) : Prop :=
  match pc with
  | Looping rest => rest_ok table rest w
  | CreatingIndex n rest => w_rows w !! n = Some (table, Creating) /\ rest_ok table rest w
  | Marking n rest =>
      w_rows w !! n = Some (table, Creating) /\ (if_not_exists n = false -> w_physical w !! n = Some Valid) /\
      rest_ok table rest w
  | Dropping n rest | Unmarking n rest => building table n w /\ rest_ok table rest w
  | Connecting | Ending | Ended => True
  end.

(** The index a thread is working on. *)
Definition current (pc : build_at) : option string :=
  match pc with
  | CreatingIndex n _ | Marking n _ | Dropping n _ | Unmarking n _ => Some n
  | _ => None
  end.

Definition over (pc : build_at) : Prop := pc = Ending \/ pc = Ended.

(** A row that is being created is noted as lost or its thread is working on it. *)
Definition owned (table name : string) (w : world) : Prop :=
  w_indexes_to_reset w !! name = Some table \/
  exists pc open, w_threads w !! table = Some (pc, open) /\ current pc = Some name.

Record table_ok (table : string) (w : world) : Prop := {
  ok_thread pc open : w_threads w !! table = Some (pc, open) -> thread_ok table pc w;
  ok_reset n : w_indexes_to_reset w !! n = Some table ->
    (exists st, w_rows w !! n = Some (table, st)) /\
    forall pc open, w_threads w !! table = Some (pc, open) -> over pc;
  ok_creating n : w_rows w !! n = Some (table, Creating) -> owned table n w;
  ok_created n : w_rows w !! n = Some (table, Created) ->
    w_indexes_to_reset w !! n = Some table \/ (if_not_exists n = false -> w_physical w !! n = Some Valid);
  ok_finished : table ∈ w_finished_tables w -> exists open, w_threads w !! table = Some (Ended, open)
}.

(** The monitor starts builds only when the indexes noted before its poll are reset. *)
Record monitor_ok (w : world) : Prop := {
  ok_starting n t : w_monitor w = Starting -> w_indexes_to_reset w !! n = Some t -> is_Some (w_threads w !! t);
  ok_resetting rem n t : w_monitor w = Resetting rem -> w_indexes_to_reset w !! n = Some t ->
    (n, t) ∈ rem \/ is_Some (w_threads w !! t);
  ok_remaining rem n t : w_monitor w = Resetting rem -> (n, t) ∈ rem -> w_indexes_to_reset w !! n = Some t;
  ok_distinct rem : w_monitor w = Resetting rem -> NoDup rem.*1
}.

Definition builds_ok (w : world) : Prop := (forall table, table_ok table w) /\ monitor_ok w.

(** What [table_ok] reads. *)
Record same_for (table : string) (w w' : world) : Prop := {
  sf_rows n st : w_rows w' !! n = Some (table, st) <-> w_rows w !! n = Some (table, st);
  sf_physical n st : w_rows w !! n = Some (table, st) -> w_physical w' !! n = w_physical w !! n;
  sf_reset n : w_indexes_to_reset w' !! n = Some table <-> w_indexes_to_reset w !! n = Some table;
  sf_thread : w_threads w' !! table = w_threads w !! table;
  sf_finished : table ∈ w_finished_tables w' <-> table ∈ w_finished_tables w
}.

Lemma rest_ok_same table rest w w' :
  (forall n st, w_rows w' !! n = Some (table, st) <-> w_rows w !! n = Some (table, st)) ->
  rest_ok table rest w -> rest_ok table rest w'.
Proof. intros Hs [Hn Hr]. split; [done|]. intros n Hin. by apply Hs, Hr. Qed.

Lemma table_ok_same table w w' : same_for table w w' -> table_ok table w -> table_ok table w'.
Proof.
  intros [Hr Hp Hi Ht Hf] [O1 O2 O3 O4 O5]. split.
  - intros pc open. rewrite Ht. intros E. specialize (O1 _ _ E).
    destruct pc; cbn in *; unfold building in *; try done;
      try (destruct O1 as [(st & H1 & H2) O1]; split; [exists st; by rewrite Hr|]);
      try (destruct O1 as (H1 & H2 & O1); split_and!; [by apply Hr|by rewrite (Hp _ _ H1)|]);
      try (destruct O1 as [H1 O1]; split; [by apply Hr|]); by eapply rest_ok_same.
  - intros n Hn. rewrite Ht. apply Hi in Hn. destruct (O2 n Hn) as [[st Hst] ?].
    split; [|done]. exists st. by apply Hr.
  - intros n Hn. unfold owned. rewrite Ht, Hi. by apply O3, Hr.
  - intros n Hn. apply Hr in Hn. rewrite Hi, (Hp _ _ Hn). by apply O4.
  - rewrite Ht, Hf. apply O5.
Qed.

(** *** A thread's turn *)

(** The world after a turn of the thread of [table] on its index [name]. *)
Lemma set_status_row table st0 st name w :
  w_rows w !! name = Some (table, st0) ->
  set_status st name w = set_rows (<[name := (table, st)]> (w_rows w)) w.
Proof. unfold set_status. by intros ->. Qed.

(** A turn reads and writes only what belongs to its table. *)
Definition turn_of (table name : string) (w w' : world) : Prop :=
  (exists st0 st, w_rows w !! name = Some (table, st0) /\ w_rows w' = <[name := (table, st)]> (w_rows w)) /\
  (forall m, m <> name -> w_physical w' !! m = w_physical w !! m) /\
  (w_indexes_to_reset w' = w_indexes_to_reset w \/
   w_indexes_to_reset w' = <[name := table]> (w_indexes_to_reset w)).

Lemma create_index_other p name w m :
  m <> name -> w_physical (create_index p name w) !! m = w_physical w !! m.
Proof.
  intros Hm. destruct p; cbn; [|done]. destruct (index_exists name w); [done|]. cbn. by rewrite lookup_insert_ne.
Qed.

Lemma create_index_keeps p name w :
  w_rows (create_index p name w) = w_rows w /\ w_indexes_to_reset (create_index p name w) = w_indexes_to_reset w /\
  w_threads (create_index p name w) = w_threads w /\ w_monitor (create_index p name w) = w_monitor w /\
  w_finished_tables (create_index p name w) = w_finished_tables w.
Proof. destruct p; cbn; [|done]. by destruct (index_exists name w). Qed.

Lemma rest_ok_set table name st rest w w' :
  rest_ok table rest w -> w_rows w' = <[name := (table, st)]> (w_rows w) -> name ∉ rest \/ st = Missing ->
  rest_ok table rest w'.
Proof.
  intros [Hn Hr] E Hst. split; [done|]. intros n Hin. rewrite E.
  destruct (decide (n = name)) as [->|Hne]; [|by rewrite lookup_insert_ne; auto].
  rewrite lookup_insert_eq. by destruct Hst as [?| ->].
Qed.

Lemma creating_not_in_rest table name rest w :
  rest_ok table rest w -> w_rows w !! name = Some (table, Creating) -> name ∉ rest.
Proof. intros [_ Hr] E Hin. rewrite (Hr _ Hin) in E. discriminate. Qed.

Lemma table_ok_turn table name pc open th' w w' :
  table_ok table w -> w_threads w !! table = Some (pc, open) -> ~ over pc ->
  current pc = Some name \/ current pc = None ->
  turn_of table name w w' -> w_threads w' = <[table := th']> (w_threads w) ->
  w_finished_tables w' = w_finished_tables w -> thread_ok table th'.1 w' ->
  (w_indexes_to_reset w' = w_indexes_to_reset w \/ over th'.1) ->
  (w_rows w' !! name = Some (table, Creating) ->
     w_indexes_to_reset w' !! name = Some table \/ current th'.1 = Some name) ->
  (w_rows w' !! name = Some (table, Created) ->
     w_indexes_to_reset w' !! name = Some table \/ (if_not_exists name = false -> w_physical w' !! name = Some Valid)) ->
  table_ok table w'.
Proof.
  intros [O1 O2 O3 O4 O5] Hth Hov Hcur ((st0 & st & Hr0 & Hr) & Hp & Hi) Ht Hf Hok Hre Hcg Hcd.
  assert (forall n, w_indexes_to_reset w !! n <> Some table) as Hno.
  { intros n Hn. by apply Hov, (proj2 (O2 n Hn) pc open). }
  destruct th' as [pc' open']. cbn [fst] in *. split.
  - intros pc2 open2. rewrite Ht, lookup_insert_eq. by intros [= <- <-].
  - intros n Hn. rewrite Ht. destruct Hi as [Hi|Hi]; rewrite Hi in Hn; [by destruct (Hno n)|].
    destruct (decide (n = name)) as [->|]; [|rewrite lookup_insert_ne in Hn by done; by destruct (Hno n)].
    rewrite Hr, lookup_insert_eq. split; [by eexists|]. intros pc2 open2. rewrite lookup_insert_eq.
    intros [= <- <-]. destruct Hre as [E|?]; [|done]. rewrite Hi in E. destruct (Hno name).
    by rewrite <- E, lookup_insert_eq.
  - intros n Hn. unfold owned. rewrite Ht, lookup_insert_eq.
    destruct (decide (n = name)) as [->|Hne]; [destruct (Hcg Hn); eauto|].
    rewrite Hr, lookup_insert_ne in Hn by done.
    destruct (O3 n Hn) as [Hc|(pc2 & open2 & E & Hc)]; [by destruct (Hno n)|].
    rewrite Hth in E. injection E as <- <-. rewrite Hc in Hcur. destruct Hcur; congruence.
  - intros n Hn. destruct (decide (n = name)) as [->|Hne]; [by apply Hcd|].
    rewrite Hr, lookup_insert_ne in Hn by done. rewrite Hp by done.
    destruct (O4 n Hn) as [Hc|?]; [by destruct (Hno n)|by right].
  - rewrite Hf. intros Hfin. destruct (O5 Hfin) as [o E]. rewrite Hth in E. destruct Hov.
    injection E as -> ->. by right.
Qed.

(** The other tables do not notice. *)
Lemma turn_same table name th' w w' table' :
  table' <> table -> turn_of table name w w' -> w_threads w' = <[table := th']> (w_threads w) ->
  w_finished_tables w' = w_finished_tables w -> (forall n, w_indexes_to_reset w !! n = Some table' ->
    exists st, w_rows w !! n = Some (table', st)) -> same_for table' w w'.
Proof.
  intros Hne ((st0 & st & Hr0 & Hr) & Hp & Hi) Ht Hf Hreset. split.
  - intros n st'. rewrite Hr. destruct (decide (n = name)) as [->|?]; [|by rewrite lookup_insert_ne].
    rewrite lookup_insert_eq, Hr0. split; intros [= E ?]; congruence.
  - intros n st' E. apply Hp. intros ->. congruence.
  - intros n. destruct Hi as [-> | ->]; [done|].
    destruct (decide (n = name)) as [->|?]; [|by rewrite lookup_insert_ne].
    rewrite lookup_insert_eq. split; [congruence|]. intros [st' E]%Hreset. congruence.
  - by rewrite Ht, lookup_insert_ne.
  - by rewrite Hf.
Qed.

Lemma table_ok_move table pc open th' w w' :
  table_ok table w -> w_threads w !! table = Some (pc, open) -> ~ over pc -> current pc = None ->
  w_rows w' = w_rows w -> w_physical w' = w_physical w -> w_indexes_to_reset w' = w_indexes_to_reset w ->
  w_threads w' = <[table := th']> (w_threads w) -> w_finished_tables w' = w_finished_tables w ->
  thread_ok table th'.1 w' -> table_ok table w'.
Proof.
  intros [O1 O2 O3 O4 O5] Hth Hov Hcur Hr Hp Hi Ht Hf Hok. destruct th' as [pc' open'].
  assert (forall n, w_indexes_to_reset w !! n <> Some table) as Hno.
  { intros n Hn. by apply Hov, (proj2 (O2 n Hn) pc open). }
  split; rewrite ?Hr, ?Hp, ?Hi, ?Ht, ?Hf.
  - intros ? ?. rewrite lookup_insert_eq. by intros [= <- <-].
  - intros n Hn. by destruct (Hno n).
  - intros n Hn. destruct (O3 n Hn) as [Hc|(? & ? & E & Hc)]; [by destruct (Hno n)|]. congruence.
  - done.
  - intros Hfin. destruct (O5 Hfin) as [o E]. rewrite Hth in E. injection E as -> ->. destruct Hov. by right.
Qed.

Lemma tables_ok_turn table name pc open th' w w' :
  (forall t, table_ok t w) -> w_threads w !! table = Some (pc, open) -> ~ over pc ->
  current pc = Some name \/ current pc = None ->
  turn_of table name w w' -> w_threads w' = <[table := th']> (w_threads w) ->
  w_finished_tables w' = w_finished_tables w -> thread_ok table th'.1 w' ->
  (w_indexes_to_reset w' = w_indexes_to_reset w \/ over th'.1) ->
  (w_rows w' !! name = Some (table, Creating) ->
     w_indexes_to_reset w' !! name = Some table \/ current th'.1 = Some name) ->
  (w_rows w' !! name = Some (table, Created) ->
     w_indexes_to_reset w' !! name = Some table \/ (if_not_exists name = false -> w_physical w' !! name = Some Valid)) ->
  forall t, table_ok t w'.
Proof.
  intros Hall Hth Hov Hcur Hturn Ht Hf Hok Hre Hcg Hcd t. destruct (decide (t = table)) as [->|Hne].
  - by eapply (table_ok_turn table name).
  - eapply table_ok_same; [|apply Hall]. eapply (turn_same table name); try done.
    intros n Hn. by destruct (ok_reset _ _ (Hall t) n Hn) as [? _].
Qed.

(** Turns that only move the thread. *)
Lemma tables_ok_move table pc open th' w w' :
  (forall t, table_ok t w) -> w_threads w !! table = Some (pc, open) -> ~ over pc -> current pc = None ->
  w_rows w' = w_rows w -> w_physical w' = w_physical w -> w_indexes_to_reset w' = w_indexes_to_reset w ->
  w_threads w' = <[table := th']> (w_threads w) -> w_finished_tables w' = w_finished_tables w ->
  thread_ok table th'.1 w' -> forall t, table_ok t w'.
Proof.
  intros Hall Hth Hov Hcur Hr Hp Hi Ht Hf Hok t. destruct (decide (t = table)) as [->|Hne].
  - by eapply (table_ok_move table).
  - eapply table_ok_same; [|apply Hall].
    split; intros; rewrite ?Hr, ?Hp, ?Hi, ?Ht, ?Hf, ?lookup_insert_ne by done; done.
Qed.

Lemma tables_ok_end table open w :
  (forall t, table_ok t w) -> w_threads w !! table = Some (Ending, open) ->
  forall t, table_ok t (set_threads (<[table := (Ended, open)]> (w_threads w))
    (set_finished ({[table]} ∪ w_finished_tables w) w)).
Proof.
  intros Hall Hth t. destruct (decide (t = table)) as [->|Hne].
  - destruct (Hall table) as [O1 O2 O3 O4 O5]. split; cbn.
    + intros ? ?. rewrite lookup_insert_eq. by intros [= <- <-].
    + intros n Hn. split; [apply (O2 n Hn)|]. intros ? ?. rewrite lookup_insert_eq. intros [= <- <-]. by right.
    + intros n Hn. destruct (O3 n Hn) as [?|(? & ? & E & Hc)]; [by left|]. rewrite Hth in E.
      injection E as <- <-. done.
    + done.
    + intros _. exists open. by rewrite lookup_insert_eq.
  - eapply table_ok_same; [|apply Hall].
    split; intros; cbn; rewrite ?lookup_insert_ne by done; try done. set_solver.
Qed.

#[local] Arguments create_index : simpl never.

Lemma turn_of_intro table name st0 w w' :
  w_rows w !! name = Some (table, st0) ->
  (exists st, w_rows w' = <[name := (table, st)]> (w_rows w)) \/ w_rows w' = w_rows w ->
  (forall m, m <> name -> w_physical w' !! m = w_physical w !! m) ->
  (w_indexes_to_reset w' = w_indexes_to_reset w \/
   w_indexes_to_reset w' = <[name := table]> (w_indexes_to_reset w)) ->
  turn_of table name w w'.
Proof.
  intros Hr0 [[st Hr]|Hr] Hp Hi; split; [by exists st0, st|done| |done].
  exists st0, st0. split; [done|]. by rewrite Hr, insert_id.
Qed.

Lemma not_over pc : match pc with Ending | Ended => False | _ => True end -> ~ over pc.
Proof. by destruct pc; intros ? [[=]|[=]]. Qed.

(** The world after a turn of the thread of [table]. *)
Definition after (table : string) (r : (build_at * bool) * world) : world :=
  set_threads (<[table := r.1]> (w_threads r.2)) r.2.

(** The connection is lost at any statement of the build of [name]. *)
Lemma noted_turn table name pc open w w' st0 :
  (forall t, table_ok t w) -> w_threads w !! table = Some (pc, open) -> ~ over pc ->
  current pc = Some name \/ current pc = None -> w_rows w !! name = Some (table, st0) ->
  (exists st, w_rows w' = <[name := (table, st)]> (w_rows w)) \/ w_rows w' = w_rows w ->
  (forall m, m <> name -> w_physical w' !! m = w_physical w !! m) ->
  w_indexes_to_reset w' = w_indexes_to_reset w -> w_threads w' = w_threads w ->
  w_finished_tables w' = w_finished_tables w ->
  forall t, table_ok t (after table (note_lost table name w')).
Proof.
  intros Hall Hth Hov Hcur Hr0 Hr Hp Hi Ht Hf.
  eapply (tables_ok_turn table name pc open (Ending, false)); try done; cbn.
  - eapply turn_of_intro; cbn; [exact Hr0|exact Hr|exact Hp|]. right. by rewrite Hi.
  - by rewrite Ht.
  - right. by left.
  - left. by rewrite Hi, lookup_insert_eq.
  - left. by rewrite Hi, lookup_insert_eq.
Qed.

Lemma rest_ok_tail table n rest w : rest_ok table (n :: rest) w -> rest_ok table rest w.
Proof. intros [[Hn Hd]%NoDup_cons Hr]. split; [done|]. intros m Hm. apply Hr. by right. Qed.

Lemma looping_turn table n rest open a w :
  (forall t, table_ok t w) -> w_threads w !! table = Some (Looping (n :: rest), open) ->
  forall t, table_ok t (after table (build_turn table (Looping (n :: rest), open) a w)).
Proof.
  intros Hall Hth. pose proof (ok_thread _ _ (Hall table) _ _ Hth) as Hok. cbn [thread_ok] in Hok.
  pose proof (proj2 Hok n ltac:(left)) as Hrow. pose proof (proj1 (NoDup_cons _ _) (proj1 Hok)) as [Hn _].
  unfold build_turn. destruct (answer_on open a) as [|b|applied b].
  - rewrite (set_status_row table Missing) by done.
    eapply (tables_ok_turn table n); [done|exact Hth|by apply not_over|by right| |done..| |by left|by right|].
    + eapply turn_of_intro; [exact Hrow|left; by eexists|done|by left].
    + split; [cbn; by rewrite lookup_insert_eq|].
      eapply rest_ok_set; [by eapply rest_ok_tail|done|by left].
    + cbn. rewrite lookup_insert_eq. congruence.
  - eapply (tables_ok_turn table n); [done|exact Hth|by apply not_over|by right| |done..| |by left|by right|].
    + eapply turn_of_intro; [exact Hrow|by right|done|by left].
    + split; [by exists Missing|by eapply (rest_ok_same _ _ w); [|eapply rest_ok_tail]].
    + cbn. congruence.
  - eapply (noted_turn table n); [done|exact Hth|by apply not_over|by right|exact Hrow|..];
      destruct applied; rewrite ?(set_status_row table Missing) by done; try done.
    + left. by eexists.
    + by right.
Qed.

Lemma creating_turn table n rest open a w :
  (forall t, table_ok t w) -> w_threads w !! table = Some (CreatingIndex n rest, open) ->
  forall t, table_ok t (after table (build_turn table (CreatingIndex n rest, open) a w)).
Proof.
  intros Hall Hth. pose proof (ok_thread _ _ (Hall table) _ _ Hth) as Hok. cbn [thread_ok] in Hok.
  destruct Hok as [Hrow Hrest]. unfold build_turn.
  assert (forall p, forall t, table_ok t (after table ((Dropping n rest, open), create_index p n w))) as Hdrop.
  { intros p. pose proof (create_index_keeps p n w) as (K1 & K2 & K3 & _ & K5).
    eapply (tables_ok_turn table n); [done|exact Hth|by apply not_over|by left|..];
      cbn; rewrite ?K1, ?K2, ?K3, ?K5; try done; try by left.
    - eapply turn_of_intro; cbn; [exact Hrow|by right|by apply create_index_other|by left].
    - split; [exists Creating; cbn; by rewrite K1|]. eapply rest_ok_same; [|exact Hrest]. cbn. by rewrite K1.
    - by right.
    - congruence. }
  destruct (answer_on open a) as [|b|applied b]; [|apply Hdrop|].
  - destruct (index_exists n w) eqn:Hex.
    { destruct (if_not_exists n) eqn:Hine; [|apply (Hdrop None)].
      eapply (tables_ok_turn table n); [done|exact Hth|by apply not_over|by left| |done..| |by left|by right|].
      - eapply turn_of_intro; [exact Hrow|by right|done|by left].
      - split_and!; [done|by rewrite Hine|by eapply (rest_ok_same _ _ w)].
      - cbn. congruence. }
    unfold create_index. rewrite Hex.
    eapply (tables_ok_turn table n); [done|exact Hth|by apply not_over|by left| |done..| |by left|by right|].
    + eapply turn_of_intro; [exact Hrow|by right| |by left]. intros m Hm. cbn. by rewrite lookup_insert_ne.
    + split_and!; [done|cbn; by rewrite lookup_insert_eq|by eapply rest_ok_same; [|exact Hrest]].
    + cbn. congruence.
  - eapply (noted_turn table n); [done|exact Hth|by apply not_over|by left|exact Hrow|..];
      try apply create_index_keeps.
    + right. apply create_index_keeps.
    + intros m Hm. by apply create_index_other.
Qed.

Lemma marking_turn table n rest open a w :
  (forall t, table_ok t w) -> w_threads w !! table = Some (Marking n rest, open) ->
  forall t, table_ok t (after table (build_turn table (Marking n rest, open) a w)).
Proof.
  intros Hall Hth. pose proof (ok_thread _ _ (Hall table) _ _ Hth) as Hok. cbn [thread_ok] in Hok.
  destruct Hok as (Hrow & Hphys & Hrest). pose proof (creating_not_in_rest _ _ _ _ Hrest Hrow) as Hnin.
  unfold build_turn. destruct (answer_on open a) as [|b|applied b].
  - rewrite (set_status_row table Creating) by done.
    eapply (tables_ok_turn table n); [done|exact Hth|by apply not_over|by left| |done..| |by left| |by right].
    + eapply turn_of_intro; [exact Hrow|left; by eexists|done|by left].
    + eapply rest_ok_set; [exact Hrest|done|by left].
    + cbn. rewrite lookup_insert_eq. congruence.
  - eapply (tables_ok_turn table n); [done|exact Hth|by apply not_over|by left| |done..| |by left|by right|].
    + eapply turn_of_intro; [exact Hrow|by right|done|by left].
    + split; [by exists Creating|by eapply (rest_ok_same _ _ w)].
    + cbn. congruence.
  - eapply (noted_turn table n); [done|exact Hth|by apply not_over|by left|exact Hrow|..];
      destruct applied; rewrite ?(set_status_row table Creating) by done; try done.
    + left. by eexists.
    + by right.
Qed.

Lemma dropping_turn table n rest open a w :
  (forall t, table_ok t w) -> w_threads w !! table = Some (Dropping n rest, open) ->
  answer_on open a = Executed ->
  forall t, table_ok t (after table (build_turn table (Dropping n rest, open) a w)).
Proof.
  intros Hall Hth Ha. pose proof (ok_thread _ _ (Hall table) _ _ Hth) as Hok. cbn [thread_ok] in Hok.
  destruct Hok as ((st & Hrow & Hst) & Hrest). unfold build_turn. rewrite Ha.
  eapply (tables_ok_turn table n); [done|exact Hth|by apply not_over|by left| |done..| |by left|by right|].
  - eapply turn_of_intro; [exact Hrow|by right| |by left]. intros m Hm. cbn. by rewrite lookup_delete_ne.
  - split; [by exists st|by eapply (rest_ok_same _ _ w)].
  - cbn. congruence.
Qed.

Lemma unmarking_turn table n rest open a w :
  (forall t, table_ok t w) -> w_threads w !! table = Some (Unmarking n rest, open) ->
  answer_on open a = Executed ->
  forall t, table_ok t (after table (build_turn table (Unmarking n rest, open) a w)).
Proof.
  intros Hall Hth Ha. pose proof (ok_thread _ _ (Hall table) _ _ Hth) as Hok. cbn [thread_ok] in Hok.
  destruct Hok as ((st & Hrow & Hst) & Hrest). unfold build_turn. rewrite Ha, (set_status_row table st) by done.
  eapply (tables_ok_turn table n); [done|exact Hth|by apply not_over|by left| |done..| |by left| |].
  - eapply turn_of_intro; [exact Hrow|left; by eexists|done|by left].
  - eapply rest_ok_set; [exact Hrest|done|by right].
  - cbn. rewrite lookup_insert_eq. congruence.
  - cbn. rewrite lookup_insert_eq. congruence.
Qed.

Lemma missing_of_spec table w n : n ∈ missing_of table w <-> w_rows w !! n = Some (table, Missing).
Proof.
  unfold missing_of. rewrite list_elem_of_fmap. split.
  - intros ([m r] & -> & [Hr Hin]%list_elem_of_filter). apply elem_of_map_to_list in Hin. cbn in *. by subst.
  - intros E. exists (n, (table, Missing)). split; [done|]. apply list_elem_of_filter. split; [done|].
    by apply elem_of_map_to_list.
Qed.

Lemma missing_of_NoDup table w : NoDup (missing_of table w).
Proof.
  unfold missing_of. eapply sublist_NoDup; [apply (NoDup_fst_map_to_list (w_rows w))|].
  apply fmap_sublist, sublist_filter.
Qed.

Lemma turn_keeps_tables table th a w :
  (forall t, table_ok t w) -> w_threads w !! table = Some th -> cleanup_ok false th a ->
  forall t, table_ok t (after table (build_turn table th a w)).
Proof.
  intros Hall Hth Hc. destruct th as [pc open].
  assert (cleaning_up pc = true -> answer_on open a = Executed) as Hcl.
  { intros E. destruct Hc as [?|[E2|?]]; [done| |done]. cbn in E2. congruence. }
  destruct pc as [|[|n rest]|n rest|n rest|n rest|n rest| |].
  - cbn [build_turn]. destruct (answer_on open a);
      (eapply (tables_ok_move table); [done|exact Hth|by apply not_over|done..|]); try done.
    split; [apply missing_of_NoDup|]. intros n Hn. by apply missing_of_spec in Hn.
  - eapply (tables_ok_move table); [done|exact Hth|by apply not_over|done..].
  - by apply looping_turn.
  - by apply creating_turn.
  - by apply marking_turn.
  - apply dropping_turn; auto.
  - apply unmarking_turn; auto.
  - exact (tables_ok_end table open w Hall Hth).
  - cbn. unfold after. cbn. by rewrite insert_id; destruct w.
Qed.

(** *** The monitor's statements *)

Lemma tables_ok_reset table name st0 w w' :
  (forall t, table_ok t w) -> w_indexes_to_reset w !! name = Some table ->
  w_rows w !! name = Some (table, st0) ->
  (exists st, w_rows w' = <[name := (table, st)]> (w_rows w)) \/ w_rows w' = w_rows w ->
  (forall m, m <> name -> w_physical w' !! m = w_physical w !! m) ->
  (w_indexes_to_reset w' = w_indexes_to_reset w \/
   w_indexes_to_reset w' = delete name (w_indexes_to_reset w) /\ w_rows w' !! name = Some (table, Missing)) ->
  w_threads w' = w_threads w -> w_finished_tables w' = w_finished_tables w ->
  forall t, table_ok t w'.
Proof.
  intros Hall Hreset Hr0 Hr Hp Hi Ht Hf.
  assert (exists st, w_rows w' = <[name := (table, st)]> (w_rows w)) as [st Hr'].
  { destruct Hr as [Hr|Hr]; [done|]. exists st0. by rewrite Hr, insert_id. }
  clear Hr. rename Hr' into Hr.
  assert (forall n t, n <> name -> w_indexes_to_reset w' !! n = Some t <-> w_indexes_to_reset w !! n = Some t) as Hin.
  { intros n t Hne. destruct Hi as [-> | [-> _]]; [done|by rewrite lookup_delete_ne]. }
  intros t. destruct (decide (t = table)) as [->|Hne].
  - destruct (Hall table) as [O1 O2 O3 O4 O5]. destruct (O2 _ Hreset) as [_ Hover]. split.
    + intros pc open. rewrite Ht. intros E. by destruct (Hover _ _ E) as [-> | ->].
    + intros n Hn. rewrite Ht, Hr. split; [|done].
      destruct (decide (n = name)) as [->|Hne]; [rewrite lookup_insert_eq; by eexists|].
      rewrite lookup_insert_ne by done. by apply O2, Hin.
    + intros n Hn. left. destruct (decide (n = name)) as [->|Hne].
      * destruct Hi as [-> | [_ E]]; [done|congruence].
      * rewrite Hr, lookup_insert_ne in Hn by done. apply Hin; [done|].
        destruct (O3 n Hn) as [?|(pc & open & E & Hc)]; [done|]. by destruct (Hover _ _ E) as [-> | ->].
    + intros n Hn. destruct (decide (n = name)) as [->|Hne].
      * destruct Hi as [-> | [_ E]]; [by left|congruence].
      * rewrite Hr, lookup_insert_ne in Hn by done. rewrite Hp, Hin by done. by apply O4.
    + by rewrite Hf, Ht.
  - eapply table_ok_same; [|apply Hall]. split.
    + intros n st'. rewrite Hr. destruct (decide (n = name)) as [->|?]; [|by rewrite lookup_insert_ne].
      rewrite lookup_insert_eq, Hr0. split; congruence.
    + intros n st' E. apply Hp. congruence.
    + intros n. destruct (decide (n = name)) as [->|?]; [|by apply Hin].
      destruct Hi as [-> | [-> _]]; [done|]. rewrite lookup_delete_eq. split; congruence.
    + by rewrite Ht.
    + by rewrite Hf.
Qed.

Lemma reset_lost_index_cases name a1 a2 w a w' table st0 :
  reset_lost_index name a1 a2 w = (a, w') -> reset_ok false a1 -> reset_ok false a2 ->
  w_rows w !! name = Some (table, st0) ->
  ((exists st, w_rows w' = <[name := (table, st)]> (w_rows w)) \/ w_rows w' = w_rows w) /\
  (forall m, m <> name -> w_physical w' !! m = w_physical w !! m) /\
  w_threads w' = w_threads w /\ w_finished_tables w' = w_finished_tables w /\
  ((exists b1 b2, a = ConnectionLost b1 b2) /\ w_indexes_to_reset w' = w_indexes_to_reset w \/
   a = Executed /\ w_indexes_to_reset w' = delete name (w_indexes_to_reset w) /\
   w_rows w' !! name = Some (table, Missing) /\ w_physical w' !! name = None).
Proof.
  intros E H1 H2 Hr. unfold reset_lost_index in E.
  assert (forall m, m <> name -> delete name (w_physical w) !! m = w_physical w !! m) as Hd.
  { intros m Hm. by rewrite lookup_delete_ne. }
  destruct a1 as [|b|applied b]; [|by destruct H1|].
  - assert (forall st, set_status st name (drop_index name w) =
      set_rows (<[name := (table, st)]> (w_rows w)) (drop_index name w)) as Hs.
    { intros st. exact (set_status_row table st0 st name (drop_index name w) Hr). }
    destruct a2 as [|b|applied b]; [|by destruct H2|]; rewrite ?Hs in E.
    + injection E as <- <-. cbn. rewrite lookup_insert_eq, lookup_delete_eq. split_and!; eauto 10.
    + destruct applied; injection E as <- <-; cbn; split_and!; eauto 10.
  - destruct applied; injection E as <- <-; cbn; split_and!; eauto 10.
Qed.

Lemma start_build_thread table w t :
  w_threads (start_build table w) !! t =
    if decide (t = table) then Some (default (Connecting, true) (w_threads w !! t)) else w_threads w !! t.
Proof.
  unfold start_build. destruct (w_threads w !! table) as [th|] eqn:E; cbn; destruct (decide (t = table)) as [->|]; try done.
  - by rewrite E.
  - by rewrite lookup_insert_eq, E.
  - by rewrite lookup_insert_ne.
Qed.

(** Starting builds only adds threads that have done nothing. *)
Lemma start_missing_thread w t :
  w_threads (start_missing_index_builds w) !! t =
    if decide (t ∈ tables_to_build w) then Some (default (Connecting, true) (w_threads w !! t)) else w_threads w !! t.
Proof.
  unfold start_missing_index_builds. generalize (tables_to_build w) as ts. intros ts. revert w.
  induction ts as [|t1 ts IH]; intros w; cbn [foldl]; [done|]. rewrite IH, start_build_thread.
  destruct (decide (t = t1)) as [->|Hne].
  - rewrite (decide_True (P := t1 ∈ t1 :: ts)) by left. by destruct (decide _).
  - destruct (decide (t ∈ ts)); [rewrite decide_True by (by right)|rewrite decide_False]; try done.
    by rewrite elem_of_cons; intros [?|?].
Qed.

Lemma start_missing_keeps w :
  let w' := start_missing_index_builds w in
  w_rows w' = w_rows w /\ w_physical w' = w_physical w /\ w_indexes_to_reset w' = w_indexes_to_reset w /\
  w_finished_tables w' = w_finished_tables w.
Proof.
  unfold start_missing_index_builds. generalize (tables_to_build w) as ts. intros ts. revert w.
  induction ts as [|t1 ts IH]; intros w; cbn [foldl]; [done|]. cbn in IH. destruct (IH (start_build t1 w)) as (-> & -> & -> & ->).
  unfold start_build. by destruct (w_threads w !! t1).
Qed.

(** *** The step relation *)

(** Changing only the monitor's place. *)
Lemma tables_ok_monitor m w : (forall t, table_ok t w) -> forall t, table_ok t (set_monitor m w).
Proof. intros H t. by eapply table_ok_same; [|apply H]. Qed.

Lemma tables_ok_start w :
  (forall t, table_ok t w) -> (forall n t, w_indexes_to_reset w !! n = Some t -> is_Some (w_threads w !! t)) ->
  forall t, table_ok t (start_missing_index_builds w).
Proof.
  intros Hall Hst t. destruct (start_missing_keeps w) as (Hr & Hp & Hi & Hf).
  destruct (w_threads w !! t) as [th|] eqn:Eth.
  - eapply table_ok_same; [|apply Hall]. split; rewrite ?Hr, ?Hp, ?Hi, ?Hf; try done.
    rewrite start_missing_thread, Eth. by destruct (decide _).
  - assert (forall n, w_indexes_to_reset w !! n <> Some t) as Hno.
    { intros n Hn. destruct (Hst n t Hn) as [? E]. congruence. }
    destruct (Hall t) as [O1 O2 O3 O4 O5]. split; unfold owned; rewrite ?Hr, ?Hp, ?Hi, ?Hf, ?start_missing_thread, ?Eth.
    + intros pc open. destruct (decide _); [|done]. by intros [= <- <-].
    + intros n Hn. by destruct (Hno n).
    + intros n Hn. destruct (O3 n Hn) as [?|(? & ? & E & _)]; [by left|congruence].
    + done.
    + intros Hfin. destruct (O5 Hfin). congruence.
Qed.

Lemma tables_ok_join w : (forall t, table_ok t w) -> forall t, table_ok t (join_finished w).
Proof.
  intros Hall t.
  assert (w_threads (join_finished w) !! t = if decide (t ∈ w_finished_tables w) then None else w_threads w !! t) as Ht.
  { cbn. destruct (decide _) as [Hin|Hni].
    - apply map_lookup_filter_None. right. intros th _. cbn. tauto.
    - destruct (w_threads w !! t) as [th|] eqn:E.
      + by apply map_lookup_filter_Some.
      + apply map_lookup_filter_None. by left. }
  destruct (Hall t) as [O1 O2 O3 O4 O5].
  split; unfold owned; rewrite ?Ht; cbn [join_finished set_finished w_finished_tables w_rows w_physical w_indexes_to_reset set_threads];
    destruct (decide (t ∈ w_finished_tables w)) as [Hfin|_]; try done; try (by intros ?%not_elem_of_empty).
  - intros n Hn. split; [by apply O2|done].
  - intros n Hn. destruct (O5 Hfin) as [o Eo]. destruct (O3 n Hn) as [?|(pc & open & E & Hc)]; [by left|].
    rewrite Eo in E. by injection E as <- <-.
Qed.

(** What a turn does to the state the monitor reads. *)
Lemma turn_resets table th a w :
  w_threads w !! table = Some th -> thread_ok table th.1 w ->
  let w' := after table (build_turn table th a w) in
  w_monitor w' = w_monitor w /\
  (forall t, t = table \/ is_Some (w_threads w !! t) -> is_Some (w_threads w' !! t)) /\
  (w_indexes_to_reset w' = w_indexes_to_reset w \/
   exists n st, w_rows w !! n = Some (table, st) /\ w_indexes_to_reset w' = <[n := table]> (w_indexes_to_reset w)).
Proof.
  intros Hth Hok w'.
  assert (w_monitor (build_turn table th a w).2 = w_monitor w /\
    w_threads (build_turn table th a w).2 = w_threads w /\
    (w_indexes_to_reset (build_turn table th a w).2 = w_indexes_to_reset w \/
     exists n st, w_rows w !! n = Some (table, st) /\
       w_indexes_to_reset (build_turn table th a w).2 = <[n := table]> (w_indexes_to_reset w))) as (Hm & Ht & Hi).
  { destruct th as [pc open]. unfold build_turn, note_lost, set_status, create_index, drop_index.
    destruct pc as [|[|n rest]|n rest|n rest|n rest|n rest| |]; cbn in Hok; destruct (answer_on open a) as [|b|applied b];
      repeat case_match; cbn; split_and!; try done; try (by left); right; exists n;
      first [exists Missing; split; [apply (proj2 Hok); left|done]|exists Creating; split; [destruct Hok; congruence|done]]. }
  subst w'. unfold after. cbn. rewrite Ht. split_and!; [done| |done].
  intros t Hs. destruct (decide (t = table)) as [->|]; [by rewrite lookup_insert_eq|].
  rewrite lookup_insert_ne by done. by destruct Hs.
Qed.

Lemma monitor_ok_turn table th a w :
  w_threads w !! table = Some th -> (forall t, table_ok t w) -> monitor_ok w ->
  monitor_ok (after table (build_turn table th a w)).
Proof.
  intros Hth Hall [M1 M2 M3 M4]. destruct th as [pc open].
  destruct (turn_resets table (pc, open) a w Hth (ok_thread _ _ (Hall table) _ _ Hth)) as (Hm & Hs & Hi).
  assert (forall n t, w_indexes_to_reset (after table (build_turn table (pc, open) a w)) !! n = Some t ->
    t = table \/ w_indexes_to_reset w !! n = Some t) as Hold.
  { intros n t. destruct Hi as [-> | (m & st & _ & ->)]; [by right|].
    destruct (decide (n = m)) as [->|]; [rewrite lookup_insert_eq; intros [= <-]; by left|].
    rewrite lookup_insert_ne by done. by right. }
  split; rewrite Hm.
  - intros n t E Hn. apply Hs. destruct (Hold n t Hn); [by left|right; eauto].
  - intros rem n t E Hn. destruct (Hold n t Hn) as [->|Hn']; [right; apply Hs; by left|].
    destruct (M2 rem n t E Hn'); [by left|right; apply Hs; by right].
  - intros rem n t E Hin. pose proof (M3 rem n t E Hin) as Hn.
    destruct Hi as [-> | (m & st & Hrow & ->)]; [done|].
    destruct (decide (n = m)) as [->|]; [|by rewrite lookup_insert_ne].
    destruct (ok_reset _ _ (Hall t) m Hn) as [[st2 Hrow2] _]. rewrite lookup_insert_eq. congruence.
  - done.
Qed.

Lemma builds_ok_step w w' : builds_ok w -> step false w w' -> builds_ok w'.
Proof.
  intros [Hall Hmon] Hstep. destruct Hstep as
    [w table th a th' w' Hth Hc E|w Hm|w name table rem a1 a2 a w' Hm H1 H2 E|w lost Hm|w lost Hm|w Hm].
  - replace (set_threads (<[table := th']> (w_threads w')) w') with (after table (build_turn table th a w))
      by (by rewrite E).
    split; [by apply turn_keeps_tables|by apply monitor_ok_turn].
  - split; [by apply tables_ok_monitor|]. split; cbn; try done.
    + intros rem n t [= <-] Hn. left. by apply elem_of_map_to_list.
    + intros rem n t [= <-] Hn. by apply elem_of_map_to_list.
    + intros rem [= <-]. apply NoDup_fst_map_to_list.
  - destruct Hmon as [_ M2 M3 M4].
    pose proof (M3 _ name table Hm ltac:(left)) as Hreset.
    destruct (ok_reset _ _ (Hall table) name Hreset) as [[st0 Hrow] _].
    destruct (reset_lost_index_cases _ _ _ _ _ _ _ _ E H1 H2 Hrow) as (Hr & Hp & Ht & Hf & Hi).
    split.
    + apply tables_ok_monitor. eapply (tables_ok_reset table name); try done.
      destruct Hi as [[_ ?]|(_ & ? & ? & _)]; [by left|by right].
    + destruct Hi as [[(b1 & b2 & ->) Hi]|(-> & Hi & _)]; split; cbn; try done; rewrite ?Ht, ?Hi.
      * intros rem' n t [= <-]. rewrite lookup_delete_Some. intros [Hne Hn].
        destruct (M2 _ n t Hm Hn) as [[[= <- <-]|?]%elem_of_cons|?]; [done|by left|by right].
      * intros rem' n t [= <-] Hin. pose proof (M4 _ Hm) as Hnd. cbn in Hnd. apply NoDup_cons in Hnd as [Hni _].
        rewrite lookup_delete_ne; [apply (M3 _ n t Hm); by right|]. intros ->. apply Hni.
        by apply (list_elem_of_fmap_2 fst rem (n, t)).
      * intros rem' [= <-]. pose proof (M4 _ Hm) as Hnd. cbn in Hnd. by apply NoDup_cons in Hnd as [_ ?].
  - destruct Hmon as [_ M2 _ _]. split; [by apply tables_ok_monitor|]. destruct lost; split; cbn; try done.
    intros n t _ Hn. destruct (M2 _ n t Hm Hn) as [?%not_elem_of_nil|?]; done.
  - destruct Hmon as [M1 _ _ _]. split; [apply tables_ok_monitor; destruct lost; [done|]|by split].
    apply tables_ok_start; [done|]. intros n t Hn. by apply (M1 n t).
  - split; [apply tables_ok_monitor; by apply tables_ok_join|by split].
Qed.

(** ** Properties *)

Definition created_are_valid (rows : gmap string (string * ix_status)) (phys : gmap string physical) : Prop :=
  forall n t, rows !! n = Some (t, Created) -> if_not_exists n = false -> phys !! n = Some Valid.

Lemma builds_ok_start rows phys : created_are_valid rows phys -> builds_ok (monitor_start rows phys).
Proof.
  intros Hv. split; [|by split]. intros t. split; cbn; try done.
  - intros n. rewrite lookup_fmap_Some. intros ([t' st] & E & Hn). cbn in E.
    destruct (decide (st = Creating)); [done|]. by injection E.
  - intros n. rewrite lookup_fmap_Some. intros ([t' st] & E & Hn). cbn in E. right.
    destruct (decide (st = Creating)); [done|]. injection E as -> ->. by eapply Hv.
Qed.

Lemma builds_ok_reachable rows phys w :
  created_are_valid rows phys -> reachable false (monitor_start rows phys) w -> builds_ok w.
Proof.
  intros Hv Hr. remember (monitor_start rows phys) as w0 eqn:E.
  induction Hr as [|w w' _ IH Hs]; [subst; by apply builds_ok_start|]. eapply builds_ok_step; [by apply IH|done].
Qed.


(** An index recorded as created, whose command does not say IF NOT EXISTS, exists and is valid, in
    every state of the monitor and its threads, unless it is noted for the monitor to reset; the
    monitor's reset and a new build of the table never work on it together. *)
Theorem created_is_valid rows phys w name table :
  created_are_valid rows phys -> reachable false (monitor_start rows phys) w ->
  w_rows w !! name = Some (table, Created) -> if_not_exists name = false ->
  w_physical w !! name = Some Valid \/
  (w_indexes_to_reset w !! name = Some table /\
   forall pc open, w_threads w !! table = Some (pc, open) -> over pc).
Proof.
  intros Hv Hr Hc Hp. pose proof (proj1 (builds_ok_reachable _ _ _ Hv Hr) table) as Hok.
  destruct (ok_created _ _ Hok name Hc) as [Hn|?]; [right|left; auto].
  split; [done|]. by destruct (ok_reset _ _ Hok name Hn).
Qed.

(** *** Two polls build everything *)

(** A thread left to run on a server that executes everything. *)
Fixpoint run_thread (turns : nat) (table : string) (th : build_at * bool) (w : world) :
    (build_at * bool) * world :=
  match turns with
  | O => (th, w)
  | S turns' => let '(th', w') := build_turn table th Executed w in run_thread turns' table th' w'
  end.

Lemma run_thread_add n m table th w :
  run_thread (n + m) table th w = run_thread m table (run_thread n table th w).1 (run_thread n table th w).2.
Proof.
  revert th w. induction n as [|n IH]; intros th w; cbn; [done|].
  destruct (build_turn table th Executed w) as [th' w']. apply IH.
Qed.

Lemma run_thread_ended n table open w : run_thread n table (Ended, open) w = ((Ended, open), w).
Proof. by induction n. Qed.

(** What a build does to one index: one that exists, as an interrupted build leaves it, is only
    removed, or taken as it is when the command says IF NOT EXISTS. *)
Definition build_one (table n : string) (w : world) : world :=
  if index_exists n w
  then if if_not_exists n then set_status Created n (set_status Creating n w)
       else set_status Missing n (drop_index n (set_status Creating n w))
  else set_status Created n (create_index (Some Valid) n (set_status Creating n w)).

Lemma run_one table n rest w :
  w_rows w !! n = Some (table, Missing) ->
  exists turns, (turns <= 4)%nat /\
    run_thread turns table (Looping (n :: rest), true) w = ((Looping rest, true), build_one table n w).
Proof.
  intros Hr. unfold build_one. assert (index_exists n (set_status Creating n w) = index_exists n w) as Hex.
  { unfold set_status. by rewrite Hr. }
  destruct (index_exists n w) eqn:E; [destruct (if_not_exists n) eqn:Ei|].
  - exists 3%nat. split; [lia|]. cbn. rewrite Hex, Ei. done.
  - exists 4%nat. split; [lia|]. cbn. rewrite Hex, Ei. done.
  - exists 3%nat. split; [lia|]. cbn. rewrite Hex. done.
Qed.

(** The status and the index after one build of a missing index. *)
Definition built_status (n : string) (w : world) : ix_status :=
  if index_exists n w && negb (if_not_exists n) then Missing else Created.
Definition built_physical (n : string) (w : world) : option physical :=
  if index_exists n w then (if if_not_exists n then w_physical w !! n else None) else Some Valid.

Lemma build_one_spec table n w :
  w_rows w !! n = Some (table, Missing) ->
  w_rows (build_one table n w) = <[n := (table, built_status n w)]> (w_rows w) /\
  w_physical (build_one table n w) !! n = built_physical n w /\
  (forall m, m <> n -> w_physical (build_one table n w) !! m = w_physical w !! m).
Proof.
  intros Hr. unfold build_one, built_status, built_physical. rewrite !(set_status_row table Missing Creating n w) by done.
  destruct (index_exists n w) eqn:E; [destruct (if_not_exists n); cbn [andb negb]|].
  - rewrite (set_status_row table Creating) by (cbn; by rewrite lookup_insert_eq). cbn.
    by rewrite insert_insert_eq.
  - rewrite (set_status_row table Creating) by (cbn; by rewrite lookup_insert_eq). cbn.
    rewrite insert_insert_eq, lookup_delete_eq. split_and!; [done..|]. intros m Hm. by rewrite lookup_delete_ne.
  - unfold create_index. change (index_exists n (set_rows _ w)) with (index_exists n w). rewrite E.
    rewrite (set_status_row table Creating) by (cbn; by rewrite lookup_insert_eq). cbn.
    rewrite insert_insert_eq, lookup_insert_eq. split_and!; [done..|]. intros m Hm. by rewrite lookup_insert_ne.
Qed.

Lemma run_rest table rest w :
  rest_ok table rest w ->
  exists turns w', (turns <= 4 * length rest + 2)%nat /\
    run_thread turns table (Looping rest, true) w = ((Ended, true), w') /\
    forall m, if decide (m ∈ rest)
      then w_rows w' !! m = Some (table, built_status m w) /\ w_physical w' !! m = built_physical m w
      else w_rows w' !! m = w_rows w !! m /\ w_physical w' !! m = w_physical w !! m.
Proof.
  revert w. induction rest as [|n rest IH]; intros w Hok.
  - exists 2%nat. eexists. split; [cbn; lia|]. split; [done|]. intros m. by rewrite decide_False by apply not_elem_of_nil.
  - pose proof (proj2 Hok n ltac:(left)) as Hr. pose proof (proj1 (NoDup_cons _ _) (proj1 Hok)) as [Hn _].
    destruct (run_one table n rest w Hr) as (t1 & Ht1 & E1).
    destruct (build_one_spec table n w Hr) as (R1 & P1 & P1').
    destruct (IH (build_one table n w)) as (t2 & w' & Ht2 & E2 & Hm).
    { eapply rest_ok_set; [by eapply rest_ok_tail|exact R1|by left]. }
    exists (t1 + t2)%nat, w'. split; [cbn; lia|]. split; [by rewrite run_thread_add, E1|].
    intros m. specialize (Hm m). destruct (decide (m = n)) as [->|Hne].
    + rewrite decide_False in Hm by done. rewrite decide_True by left. destruct Hm as [-> ->].
      by rewrite R1, P1, lookup_insert_eq.
    + assert (index_exists m (build_one table n w) = index_exists m w) as Hex.
      { unfold index_exists. by rewrite P1'. }
      unfold built_status, built_physical in *. rewrite Hex, R1, P1', lookup_insert_ne in Hm by done.
      destruct (decide (m ∈ rest)); [rewrite decide_True by (by right)|rewrite decide_False by (by intros [?|?]%elem_of_cons)]; done.
Qed.

(** A whole build of a table. *)
Lemma run_build turns table w :
  (4 * length (missing_of table w) + 3 <= turns)%nat ->
  exists w', run_thread turns table (Connecting, true) w = ((Ended, true), w') /\
    forall m, if decide (w_rows w !! m = Some (table, Missing))
      then w_rows w' !! m = Some (table, built_status m w) /\ w_physical w' !! m = built_physical m w
      else w_rows w' !! m = w_rows w !! m /\ w_physical w' !! m = w_physical w !! m.
Proof.
  intros Hturns. destruct (run_rest table (missing_of table w) w) as (n & w' & Hn & E & Hm).
  { split; [apply missing_of_NoDup|]. intros m. by rewrite missing_of_spec. }
  exists w'. split.
  - replace turns with (1 + (n + (turns - 1 - n)))%nat by lia. rewrite run_thread_add. cbn [run_thread build_turn answer_on fst snd].
    rewrite run_thread_add, E. apply run_thread_ended.
  - intros m. specialize (Hm m). destruct (decide (m ∈ missing_of table w)) as [Hin|Hni].
    + rewrite decide_True; [done|by apply missing_of_spec].
    + rewrite decide_False; [done|by rewrite <- missing_of_spec].
Qed.

(** C28: On a server that executes everything, the second build of a table at the latest
    leaves all its missing indexes recorded as created, and nothing else changed; each of them is
    valid, but for one: an index that existed before, as an interrupted build leaves it, and whose
    command says IF NOT EXISTS stays as it was, invalid or not.  Without IF NOT EXISTS it makes the
    first attempt fail and is dropped then.  Each build ends within four statements per index and
    three more. *)
Theorem second_build_completes turns table w :
  (4 * length (missing_of table w) + 3 <= turns)%nat ->
  exists w1 w2,
    run_thread turns table (Connecting, true) w = ((Ended, true), w1) /\
    run_thread turns table (Connecting, true) w1 = ((Ended, true), w2) /\
    forall m, if decide (w_rows w !! m = Some (table, Missing))
      then w_rows w2 !! m = Some (table, Created) /\
           w_physical w2 !! m = (if index_exists m w && if_not_exists m then w_physical w !! m else Some Valid)
      else w_rows w2 !! m = w_rows w !! m /\ w_physical w2 !! m = w_physical w !! m.
Proof.
  intros Hturns. destruct (run_build turns table w Hturns) as (w1 & E1 & H1).
  assert (length (missing_of table w1) <= length (missing_of table w))%nat as Hlen.
  { apply submseteq_length, NoDup_submseteq; [apply missing_of_NoDup|]. intros m. rewrite !missing_of_spec.
    specialize (H1 m). destruct (decide _); [done|]. by destruct H1 as [-> _]. }
  destruct (run_build turns table w1) as (w2 & E2 & H2); [lia|].
  exists w1, w2. split_and!; [done..|]. intros m. specialize (H1 m). specialize (H2 m).
  destruct (decide (w_rows w !! m = Some (table, Missing))) as [Hm|Hm].
  - unfold built_status, built_physical in *. destruct H1 as [R1 P1]. rewrite R1 in H2.
    destruct (index_exists m w) eqn:Ex, (if_not_exists m) eqn:Ei; cbn [andb negb] in *.
    + rewrite decide_False in H2 by done. by destruct H2 as [-> ->].
    + rewrite decide_True in H2 by done. assert (index_exists m w1 = false) as Hex.
      { unfold index_exists. by rewrite P1. }
      by rewrite Hex in H2.
    + rewrite decide_False in H2 by done. by destruct H2 as [-> ->].
    + rewrite decide_False in H2 by done. by destruct H2 as [-> ->].
  - destruct H1 as [R1 P1]. rewrite R1, decide_False, P1 in H2 by done. done.
Qed.

(** So an invalid index of an interrupted build is recorded as created by the first build when its
    command says IF NOT EXISTS. *)
Theorem invalid_index_counts_as_created turns table w n :
  (4 * length (missing_of table w) + 3 <= turns)%nat ->
  w_rows w !! n = Some (table, Missing) -> w_physical w !! n = Some Invalid -> if_not_exists n = true ->
  exists w1, run_thread turns table (Connecting, true) w = ((Ended, true), w1) /\
    w_rows w1 !! n = Some (table, Created) /\ w_physical w1 !! n = Some Invalid.
Proof.
  intros Ht Hr Hp Hi. destruct (run_build turns table w Ht) as (w1 & E1 & H1). exists w1. split; [done|].
  specialize (H1 n). rewrite decide_True in H1 by done. unfold built_status, built_physical in H1.
  assert (index_exists n w = true) as Hex by (unfold index_exists; apply bool_decide_eq_true_2; by rewrite Hp).
  by rewrite Hex, Hi, Hp in H1.
Qed.

(** *** A clean-up that is refused *)

Definition names (pc : build_at) : list string :=
  match pc with
  | Looping rest => rest
  | CreatingIndex n rest | Marking n rest | Dropping n rest | Unmarking n rest => n :: rest
  | Connecting | Ending | Ended => []
  end.

(** Marked as being created with nobody to build it or to reset it. *)
Record forgotten (name table : string) (w : world) : Prop := {
  fg_row : w_rows w !! name = Some (table, Creating);
  fg_thread : w_threads w !! table = None;
  fg_reset : w_indexes_to_reset w !! name = None;
  fg_remaining rem t : w_monitor w = Resetting rem -> (name, t) ∉ rem;
  fg_names t pc open : w_threads w !! t = Some (pc, open) -> name ∉ names pc
}.

(** A turn of a thread touches only the indexes it has to build. *)
Lemma turn_other table th a w name :
  name ∉ names th.1 -> w_rows w !! name <> Some (table, Missing) ->
  let r := build_turn table th a w in
  w_rows r.2 !! name = w_rows w !! name /\ name ∉ names r.1.1 /\
  w_threads r.2 = w_threads w /\ w_monitor r.2 = w_monitor w /\
  w_indexes_to_reset r.2 !! name = w_indexes_to_reset w !! name.
Proof.
  destruct th as [pc open]. cbn [fst]. intros Hn Hrow.
  assert (forall st n, name <> n -> w_rows (set_status st n w) !! name = w_rows w !! name) as Hset.
  { intros st n Hne. unfold set_status. destruct (w_rows w !! n) as [[t0 st0]|]; [|done]. cbn. by rewrite lookup_insert_ne. }
  assert (forall p n, w_rows (create_index p n w) !! name = w_rows w !! name) as Hcr.
  { intros p n. by rewrite (proj1 (create_index_keeps p n w)). }
  assert (forall st n, w_threads (set_status st n w) = w_threads w /\ w_monitor (set_status st n w) = w_monitor w /\
    w_indexes_to_reset (set_status st n w) = w_indexes_to_reset w) as Hk.
  { intros st n. unfold set_status. by destruct (w_rows w !! n) as [[t0 st0]|]. }
  unfold build_turn, note_lost.
  destruct pc as [|[|n rest]|n rest|n rest|n rest|n rest| |]; destruct (answer_on open a) as [|b|applied b];
    cbn [names] in *; rewrite ?not_elem_of_cons in Hn; repeat case_match; cbn [fst snd names set_to_reset set_finished
      drop_index set_physical w_rows w_threads w_monitor w_indexes_to_reset];
    rewrite ?(proj1 (Hk _ _)), ?(proj1 (proj2 (Hk _ _))), ?(proj2 (proj2 (Hk _ _))), ?Hset, ?Hcr by tauto;
    try (pose proof (create_index_keeps (Some Valid) n w) as (K1 & K2 & K3 & K4 & _); rewrite ?K1, ?K2, ?K3, ?K4);
    try (pose proof (create_index_keeps (left_invalid b) n w) as (L1 & L2 & L3 & L4 & _); rewrite ?L1, ?L2, ?L3, ?L4);
    rewrite ?lookup_insert_ne, ?not_elem_of_cons by naive_solver; rewrite ?missing_of_spec; split_and!; try tauto; try done;
    by apply not_elem_of_nil.
Qed.

Lemma not_built name table w : w_rows w !! name = Some (table, Creating) -> table ∉ tables_to_build w.
Proof.
  unfold tables_to_build. rewrite elem_of_remove_dups, list_elem_of_fmap.
  intros Hr (r & -> & [(_ & _ & Hni) _]%list_elem_of_filter). apply Hni.
  apply list_elem_of_fmap. exists (name, (r.1, Creating)). split; [done|]. by apply elem_of_map_to_list.
Qed.

Lemma reset_other name m a1 a2 w :
  m <> name ->
  let w' := (reset_lost_index m a1 a2 w).2 in
  w_rows w' !! name = w_rows w !! name /\ w_threads w' = w_threads w /\
  (w_indexes_to_reset w !! name = None -> w_indexes_to_reset w' !! name = None).
Proof.
  intros Hne. unfold reset_lost_index, set_status, drop_index.
  destruct a1 as [|b|[] b]; try done. destruct a2 as [|b|[] b]; cbn; try done;
    destruct (w_rows w !! m) as [[t st]|]; cbn; rewrite ?lookup_insert_ne by done; split_and!; try done;
    intros H; by rewrite lookup_delete_ne.
Qed.

Lemma forgotten_step tolerant name table w w' :
  forgotten name table w -> step tolerant w w' -> forgotten name table w'.
Proof.
  intros Hfg Hs. pose proof Hfg as [Hr Ht Hi Hrem Hn]. destruct Hs as
    [w t th a th' w' Hth _ E|w Hm|w m t rem a1 a2 a w' Hm _ _ E|w lost Hm|w lost Hm|w Hm].
  - assert (t <> table) as Hne by congruence.
    destruct (turn_other t th a w name) as (T1 & T2 & T3 & T4 & T5); [destruct th; by eapply Hn|congruence|].
    rewrite E in T1, T2, T3, T4, T5. cbn in *. split; cbn; rewrite ?T1, ?T3, ?T4, ?T5; try done.
    + by rewrite lookup_insert_ne.
    + intros t' pc open. destruct (decide (t' = t)) as [->|?]; [|rewrite lookup_insert_ne by done; apply Hn].
      rewrite lookup_insert_eq. by intros [= ->].
  - split; cbn; try done. intros rem t [= <-] Hin. apply elem_of_map_to_list in Hin. congruence.
  - assert (m <> name) as Hne. { intros ->. apply (Hrem _ t Hm). left. }
    destruct (reset_other name m a1 a2 w Hne) as (T1 & T2 & T3). rewrite E in T1, T2, T3. cbn in *.
    split; cbn; rewrite ?T1, ?T2; try done; [by apply T3|].
    intros rem' t' E' Hin. destruct a; try discriminate; injection E' as <-; apply (Hrem _ t' Hm); by right.
  - split; cbn; try done. by destruct lost.
  - destruct (start_missing_keeps w) as (K1 & _ & K3 & _).
    destruct lost; split; cbn; rewrite ?K1, ?K3, ?start_missing_thread; try done.
    + rewrite decide_False; [done|by eapply not_built].
    + intros t pc open. rewrite start_missing_thread. destruct (decide _); [|apply Hn].
      destruct (w_threads w !! t) as [[pc' open']|] eqn:Et; cbn.
      * intros [= <- <-]. by eapply Hn.
      * intros [= <- <-]. apply not_elem_of_nil.
  - split; cbn; try done; [by apply map_lookup_filter_None; left|].
    intros t pc open [? _]%map_lookup_filter_Some. by eapply Hn.
Qed.

(** An index left marked as being created by a thread that is gone and did not note
    it (the server refused its clean-up, which is only logged) is never reset, and no
    index of its table is built again while the monitor lives. *)
Theorem forgotten_index_blocks_table tolerant name table w w' :
  forgotten name table w -> reachable tolerant w w' ->
  w_rows w' !! name = Some (table, Creating) /\ table ∉ tables_to_build w' /\ w_threads w' !! table = None.
Proof.
  intros Hf Hr. assert (forgotten name table w') as Hf'.
  { induction Hr as [|w1 w2 _ IH Hs]; [done|]. by eapply forgotten_step. }
  split_and!; [apply Hf'|eapply not_built; apply Hf'|apply Hf'].
Qed.

End commands.

(** ** Examples *)

Module IndexExamples.

(** The command of one index says IF NOT EXISTS. *)
Definition optional (name : string) : bool := String.eqb name "ix_c".

#[local] Abbreviation build_turn := (IndexBuilds.build_turn optional).
#[local] Abbreviation reachable := (IndexBuilds.reachable optional).
#[local] Abbreviation cleanup_ok := IndexBuilds.cleanup_ok.
#[local] Abbreviation run_thread := (IndexBuilds.run_thread optional).

Definition the_rows : gmap string (string * ix_status) :=
  {[ "ix_a"%string := ("hafd.blocks"%string, Missing); "ix_b"%string := ("hafd.blocks"%string, Missing) ]}.

Definition in_monitor := monitor_start the_rows {[ "ix_b"%string := Invalid ]}.

(** The monitor polls and starts the thread. *)
Definition polling : world := set_monitor (Resetting (map_to_list (w_indexes_to_reset in_monitor))) in_monitor.
Definition started : world := set_monitor Joining (start_missing_index_builds (set_monitor Starting polling)).

Lemma started_reachable tolerant : reachable tolerant in_monitor started.
Proof.
  eapply ReachStep; [eapply ReachStep; [eapply ReachStep; [apply ReachRefl|]|]|].
  - by apply StepPoll.
  - by apply (StepVacuum _ _ _ false).
  - by apply (StepStart _ _ _ false).
Defined.

(** A turn of the only thread. *)
Definition turn (a : answer) (w : world) : world :=
  match w_threads w !! "hafd.blocks"%string with
  | Some th => after "hafd.blocks" (build_turn "hafd.blocks" th a w)
  | None => w
  end.

Lemma turn_reachable tolerant w0 w a :
  reachable tolerant w0 w ->
  (forall th, w_threads w !! "hafd.blocks"%string = Some th -> cleanup_ok tolerant th a) ->
  reachable tolerant w0 (turn a w).
Proof.
  intros Hr Hc. unfold turn. destruct (w_threads w !! "hafd.blocks"%string) as [th|] eqn:E; [|done].
  eapply ReachStep; [exact Hr|]. eapply StepBuild; [exact E|by apply Hc|]. apply surjective_pairing.
Defined.

(** The thread connected and marked its first index. *)
Definition marked : world := turn Executed (turn Executed started).

Lemma marked_reachable : reachable false in_monitor marked.
Proof.
  do 2 (apply turn_reachable; [|intros th E; vm_compute in E; injection E as <-; right; by left]).
  apply started_reachable.
Defined.


(** Its connection broke after the index was marked as created. *)
Definition lost : world := turn (ConnectionLost true false) (turn Executed marked).

Lemma lost_reachable : reachable false in_monitor lost.
Proof.
  do 2 (apply turn_reachable; [|intros th E; vm_compute in E; injection E as <-; right; by left]).
  apply marked_reachable.
Defined.

Lemma created_is_valid_witness :
  w_rows lost !! "ix_a"%string = Some ("hafd.blocks"%string, Created) /\
  (w_physical lost !! "ix_a"%string = Some Valid \/
   (w_indexes_to_reset lost !! "ix_a"%string = Some "hafd.blocks"%string /\
    forall pc open, w_threads lost !! "hafd.blocks"%string = Some (pc, open) -> over pc)).
Proof.
  split; [vm_compute; reflexivity|].
  apply (created_is_valid optional the_rows {[ "ix_b"%string := Invalid ]} lost "ix_a" "hafd.blocks").
  - intros n t. unfold the_rows. rewrite lookup_insert_Some, lookup_singleton_Some. intros [[_ [=]]|[_ [_ [=]]]].
  - exact lost_reachable.
  - vm_compute. reflexivity.
  - reflexivity.
Defined.

(** Two indexes of interrupted builds, one with an IF NOT EXISTS command. *)
Definition interrupted : world :=
  monitor_start (<["ix_c"%string := ("hafd.blocks"%string, Missing)]> the_rows)
    {[ "ix_b"%string := Invalid; "ix_c"%string := Invalid ]}.

Lemma second_build_completes_witness :
  exists w1 w2,
    run_thread 15 "hafd.blocks" (Connecting, true) interrupted = ((Ended, true), w1) /\
    run_thread 15 "hafd.blocks" (Connecting, true) w1 = ((Ended, true), w2) /\
    w_rows w1 !! "ix_b"%string = Some ("hafd.blocks"%string, Missing) /\
    w_rows w2 !! "ix_b"%string = Some ("hafd.blocks"%string, Created) /\
    w_physical w2 !! "ix_b"%string = Some Valid /\ w_physical w2 !! "ix_c"%string = Some Invalid.
Proof.
  destruct (second_build_completes optional 15 "hafd.blocks" interrupted) as (w1 & w2 & E1 & E2 & H).
  - apply (bool_decide_unpack _). vm_compute. exact I.
  - exists w1, w2. split; [exact E1|]. split; [exact E2|]. split.
    { vm_compute in E1. injection E1 as <-. vm_compute. reflexivity. }
    pose proof (H "ix_b"%string) as Hb. pose proof (H "ix_c"%string) as Hc.
    rewrite decide_True in Hb, Hc by (vm_compute; reflexivity). split; [apply Hb|]. split; [apply Hb|apply Hc].
Defined.

(** CREATE INDEX was refused and so was the DROP INDEX after it; the second index went
    the same way. *)
Definition refused_twice (w : world) : world :=
  turn (Refused false) (turn (Refused true) w).

Definition abandoned : world :=
  join_finished (turn Executed (turn Executed (refused_twice (turn Executed (refused_twice marked))))).

Lemma abandoned_reachable : reachable true in_monitor (set_monitor PollBegin abandoned).
Proof.
  eapply ReachStep; [|apply StepJoin; vm_compute; reflexivity].
  unfold refused_twice, marked. repeat (apply turn_reachable; [|intros th _; by left]).
  apply started_reachable.
Defined.

Lemma forgotten_index_blocks_table_witness :
  reachable true in_monitor (set_monitor PollBegin abandoned) /\
  forall w', reachable true (set_monitor PollBegin abandoned) w' ->
    w_rows w' !! "ix_a"%string = Some ("hafd.blocks"%string, Creating) /\
    "hafd.blocks"%string ∉ tables_to_build w' /\ w_threads w' !! "hafd.blocks"%string = None.
Proof.
  split; [exact abandoned_reachable|]. intros w'.
  apply (forgotten_index_blocks_table optional true "ix_a" "hafd.blocks" (set_monitor PollBegin abandoned) w').
  assert (w_threads (set_monitor PollBegin abandoned) = ∅) as E by (vm_compute; reflexivity).
  split; try (vm_compute; reflexivity); [discriminate|].
  intros t pc open. by rewrite E.
Defined.

End IndexExamples.
