(* ===== verification/IndexShutdown.v ===== *)
(** * Stopping index builds ([indexes_interruptor.cpp], [indexes_controler.cpp])

    At an interrupt of the application the interruptor asks the server, once, to cancel the
    statements of the index connections; the monitor leaves its loop and the destructor of
    [index_build_threads] joins the build threads, or detaches them when the monitor leaves by
    an exception.  The build threads are those of IndexBuilds. *)

From S2P Require Import Prelude Text IndexBuilds.
From Stdlib Require Import ZArith Lia String.
From stdpp Require Import base list strings gmap sets.

(** ** [indexes_interruptor::run] *)

(** What a turn of the loop sees, five seconds after the turn before. *)
Record observation := { ob_stop : bool; ob_interrupt_request : bool }.

Inductive interruptor_result :=
| StillPolling
| Stopped                                           (* by the destructor *)
| CancelSent (answered : bool).                     (* an error of it is logged *)

Definition cancel_query : string :=
  "WITH targets AS (  SELECT pid, usename, client_addr, state, query   FROM pg_stat_activity   WHERE application_name = 'hived_index'     AND pid <> pg_backend_pid()    AND datname = current_database()), cancels AS (  SELECT t.*, pg_cancel_backend(t.pid) AS cancelled FROM targets t)SELECT pid, usename, client_addr, state, query FROM cancels WHERE cancelled;".

Fixpoint interruptor_run (answers : string -> bool) (turns : list observation) : interruptor_result :=
  match turns with
  | [] => StillPolling
  | o :: turns' =>
      if ob_stop o then Stopped
      else if ob_interrupt_request o then CancelSent (answers cancel_query)
      else interruptor_run answers turns'
  end.

(** The cancel is sent exactly when some turn sees the interrupt and no turn up to it the
    destructor; it is sent once. *)
Theorem interrupt_sends_one_cancel answers turns :
  (exists answered, interruptor_run answers turns = CancelSent answered) <->
  exists before o after, turns = before ++ o :: after /\
    Forall (fun x => ob_stop x = false /\ ob_interrupt_request x = false) before /\
    ob_stop o = false /\ ob_interrupt_request o = true.
Proof.
  induction turns as [|o turns IH]; cbn.
  - split; [by intros [? ?]|]. by intros ([|? ?] & ? & ? & ? & _).
  - destruct (ob_stop o) eqn:Es; [|destruct (ob_interrupt_request o) eqn:Ei].
    + split; [by intros [? ?]|]. intros (before & x & after & E & Hb & Hs & _).
      destruct before as [|y before]; injection E as -> ->; [congruence|]. apply Forall_cons in Hb as [[? _] _]. congruence.
    + split; [|intros _; by eexists]. intros _. by exists [], o, turns.
    + rewrite IH. split; intros (before & x & after & E & Hb & Hs & Hi).
      * exists (o :: before), x, after. split; [by rewrite E|]. split; [by constructor|done].
      * destruct before as [|y before]; injection E as -> ->; [congruence|].
        apply Forall_cons in Hb as [_ Hb]. by exists before, x, after.
Qed.

(** ** [~index_build_threads] *)

Inductive thread_end := Detached | Joined.

(** What happens to every joinable thread. *)
Definition destroy_build_threads (unwinding : bool) (w : world) : gmap string thread_end :=
  (fun _ => if unwinding then Detached else Joined) <$> w_threads w.

(** A joined thread has returned before the destructor goes on. *)
Definition may_return (unwinding : bool) (w : world) : Prop :=
  forall table th, w_threads w !! table = Some th ->
    destroy_build_threads unwinding w !! table = Some Joined -> fst th = Ended.

(** The one cancel ends the statement that is running, not the build: the thread cleans up the
    cancelled index and goes on with the others of its table, which are all built before the
    thread ends; the destructor that joins it waits for all of them. *)
Theorem cancel_does_not_stop_build if_not_exists table name rest w :
  rest_ok table rest w -> w_rows w !! name = Some (table, Creating) -> name ∉ rest -> w_physical w !! name = None ->
  (forall n, n ∈ rest -> w_physical w !! n = None) ->
  w_threads w !! table = Some (CreatingIndex name rest, true) ->
  let '(th, w1) := build_turn if_not_exists table (CreatingIndex name rest, true) (Refused true) w in
  exists turns w2, (turns <= 4 * length rest + 4)%nat /\ run_thread if_not_exists turns table th w1 = ((Ended, true), w2) /\
    w_rows w2 !! name = Some (table, Missing) /\
    (forall n, n ∈ rest -> w_rows w2 !! n = Some (table, Created) /\ w_physical w2 !! n = Some Valid) /\
    ~ may_return false w.
Proof.
  intros Hok Hn Hni Hp Hrest Hth. cbn [build_turn answer_on left_invalid].
  set (w1 := create_index (Some Invalid) name w).
  assert (w_rows w1 = w_rows w /\ w_physical w1 = <[name := Invalid]> (w_physical w)) as [R1 P1].
  { unfold w1, create_index, index_exists. rewrite bool_decide_eq_false_2; [done|]. rewrite Hp. by intros [? ?]. }
  set (w1' := set_status Missing name (drop_index name w1)).
  assert (w_rows (drop_index name w1) !! name = Some (table, Creating)) as Hd.
  { change (w_rows w1 !! name = Some (table, Creating)). by rewrite R1. }
  assert (w_rows w1' = <[name := (table, Missing)]> (w_rows w)) as R2.
  { unfold w1', set_status. rewrite Hd. change (<[name := (table, Missing)]> (w_rows w1) = <[name := (table, Missing)]> (w_rows w)).
    by rewrite R1. }
  assert (w_physical w1' = delete name (<[name := Invalid]> (w_physical w))) as P2.
  { unfold w1', set_status. rewrite Hd. change (delete name (w_physical w1) = delete name (<[name := Invalid]> (w_physical w))).
    by rewrite P1. }
  destruct (run_rest if_not_exists table rest w1') as (t & w2 & Ht & E & Hm).
  { eapply rest_ok_set; [exact Hok|exact R2|by left]. }
  exists (2 + t)%nat, w2. split; [lia|]. split; [by rewrite run_thread_add|].
  assert (forall n, n ∈ rest -> index_exists n w1' = false) as Hex.
  { intros n Hin. unfold index_exists. apply bool_decide_eq_false_2. rewrite P2, lookup_delete_ne, lookup_insert_ne by set_solver.
    rewrite Hrest by done. by intros [? ?]. }
  split_and!.
  - specialize (Hm name). rewrite decide_False in Hm by done. destruct Hm as [-> _]. by rewrite R2, lookup_insert_eq.
  - intros n Hin. specialize (Hm n). rewrite decide_True in Hm by done. unfold built_status, built_physical in Hm.
    by rewrite (Hex n Hin) in Hm.
  - intros Hmay. specialize (Hmay table _ Hth). unfold destroy_build_threads in Hmay.
    rewrite lookup_fmap, Hth in Hmay. by specialize (Hmay eq_refl).
Qed.
