(* ===== verification/QueryHandlers.v ===== *)
(** * Query handlers and the query supervisor ([psql_utils], [query_supervisor])

    The executor hooks walk the stack of handlers from the newest to the oldest and the
    oldest runs what was hooked before.  A handler tells the root query of a connection
    from the statements run inside it; one starts a timer for the root query, the other
    counts the tuples of the root query and its statements.

    The server's executor is modelled as far as the hooks see it: a statement is started,
    run (once, or once for each fetch from its portal, or not at all), finished and ended,
    and while it runs it may run other statements, raise an error or catch one (a PL/pgSQL
    block with an EXCEPTION clause).  What a connection does between two fetches of an open
    cursor is not modelled.  Asserts are compiled out, as in a release build. *)

From S2P Require Import Prelude.
From Stdlib Require Import ZArith Lia.
From stdpp Require Import base list gmap sets.

Open Scope Z_scope.
Open Scope haf_scope.

(** ** Data *)

Inductive CmdType := CMD_SELECT | CMD_UPDATE | CMD_INSERT | CMD_DELETE | CMD_UTILITY.
Inductive SqlCommand := SELECT | UPDATE | INSERT | DELETE | OTHER.

#[global] Instance SqlCommand_eq_dec : EqDecision SqlCommand.
Proof. solve_decision. Defined.

(** A [QueryDesc] with its address; [tuplecount] is what the instrumentation has counted
    when the statement is finished. *)
Record QueryDesc := {
  address : nat;
  operation : CmdType;
  tuplecount : Z
}.

Inductive handler := Timeout | Tuples.

Record limits := {
  lm_tuples : Z; lm_updates : Z; lm_inserts : Z; lm_deletes : Z; lm_timeout : Z
}.

(** The members of both handlers and the server's state they use. *)
Record backend := {
  m_rootQuery : handler -> option nat;
  m_statistics : SqlCommand -> Z;
  m_numberOfAllTuples : Z;
  instrumented : gset nat;                (* totaltime is not null *)
  timer : option Z;                       (* the timeout that is enabled *)
  QueryCancelPending : bool
}.

(** [PgError] travels through PG_TRY; the others end the process. *)
Inductive failure := PgError (cancelled : bool) | NullDereference | UndefinedConversion.

Definition QH (A : Type) : Type := ST backend failure A.

Definition set_root (h : handler) (q : option nat) (s : backend) : backend :=
  {| m_rootQuery := fun h' => match h, h' with Timeout, Timeout | Tuples, Tuples => q | _, _ => m_rootQuery s h' end;
     m_statistics := m_statistics s; m_numberOfAllTuples := m_numberOfAllTuples s;
     instrumented := instrumented s; timer := timer s; QueryCancelPending := QueryCancelPending s |}.
Definition set_counts (st : SqlCommand -> Z) (n : Z) (s : backend) : backend :=
  {| m_rootQuery := m_rootQuery s; m_statistics := st; m_numberOfAllTuples := n;
     instrumented := instrumented s; timer := timer s; QueryCancelPending := QueryCancelPending s |}.
Definition set_instrumented (i : gset nat) (s : backend) : backend :=
  {| m_rootQuery := m_rootQuery s; m_statistics := m_statistics s; m_numberOfAllTuples := m_numberOfAllTuples s;
     instrumented := i; timer := timer s; QueryCancelPending := QueryCancelPending s |}.
Definition set_timer (t : option Z) (s : backend) : backend :=
  {| m_rootQuery := m_rootQuery s; m_statistics := m_statistics s; m_numberOfAllTuples := m_numberOfAllTuples s;
     instrumented := instrumented s; timer := t; QueryCancelPending := QueryCancelPending s |}.
Definition set_cancel (b : bool) (s : backend) : backend :=
  {| m_rootQuery := m_rootQuery s; m_statistics := m_statistics s; m_numberOfAllTuples := m_numberOfAllTuples s;
     instrumented := instrumented s; timer := timer s; QueryCancelPending := b |}.

(** ** [TuplesStatisticsQueryHandler] *)

Definition cmdTypeToFilter (cmd : CmdType) : SqlCommand :=
  match cmd with
  | CMD_SELECT => SELECT | CMD_DELETE => DELETE | CMD_INSERT => INSERT | CMD_UPDATE => UPDATE
  | CMD_UTILITY => OTHER
  end.

(** A [uint32_t] counter plus a [double]: the sum is converted back, which is defined only
    in the range of the counter. *)
Definition add_tuples (counter tuples : Z) : outcome failure Z :=
  if counter + tuples <? 2 ^ 32 then Ok (counter + tuples) else Throw UndefinedConversion.

Definition update (f : SqlCommand -> Z) (c : SqlCommand) (n : Z) : SqlCommand -> Z :=
  fun c' => if decide (c' = c) then n else f c'.

Definition updateStatistics (q : QueryDesc) : QH unit :=
  let* s := st_get in
  if decide (address q ∈ instrumented s)
  then
    let c := cmdTypeToFilter (operation q) in
    let* n := st_lift (add_tuples (m_statistics s c) (tuplecount q)) in
    let* all := st_lift (add_tuples (m_numberOfAllTuples s) (tuplecount q)) in
    st_modify (set_counts (update (m_statistics s) c n) all)
  else st_throw NullDereference.

Definition resetStatistics : QH unit := st_modify (set_counts (fun _ => 0) 0).

Definition addInstrumentation (q : QueryDesc) : QH unit :=
  st_modify (fun s => set_instrumented ({[address q]} ∪ instrumented s) s).

Section supervisor.
  Context (conf : limits).

(** [TotalTuplesQueryHandler::breakQuery] *)
Definition breakQuery (s : backend) : bool :=
  (lm_tuples conf <? m_numberOfAllTuples s) || (lm_updates conf <? m_statistics s UPDATE) ||
  (lm_inserts conf <? m_statistics s INSERT) || (lm_deletes conf <? m_statistics s DELETE).

Definition breakPendingRootQuery : QH unit := st_modify (set_cancel true).

(** The warning reads [getRootQuery()->sourceText]. *)
Definition checkTuplesLimit : QH unit :=
  let* s := st_get in
  if breakQuery s
  then match m_rootQuery s Tuples with
       | Some _ => breakPendingRootQuery
       | None => st_throw NullDereference
       end
  else st_ret tt.

(** [onRootQueryFinish] and [onSubQueryFinish] *)
Definition count_finished (q : QueryDesc) : QH unit :=
  updateStatistics q ;;;
  let* s := st_get in
  if QueryCancelPending s then st_ret tt else checkTuplesLimit.

(** ** [TimeoutQueryHandler] *)

Definition spawnTimer : QH unit := st_modify (set_timer (Some (lm_timeout conf))).
Definition disable_timeout : QH unit := st_modify (set_timer None).

(** ** [RootQueryHandler] *)

Definition isRootQueryPending (h : handler) (s : backend) : bool := bool_decide (is_Some (m_rootQuery s h)).
Definition isPendingRootQuery (h : handler) (q : QueryDesc) (s : backend) : bool :=
  bool_decide (m_rootQuery s h = Some (address q)).
Definition endOfRootQuery (h : handler) : QH unit := st_modify (set_root h None).

Definition onRootQueryStart (h : handler) (q : QueryDesc) : QH unit :=
  match h with Timeout => spawnTimer | Tuples => st_ret tt end.
Definition onRootQueryEnd (h : handler) (q : QueryDesc) : QH unit :=
  match h with Timeout => disable_timeout | Tuples => st_ret tt end.
Definition onRootQueryRun (h : handler) (q : QueryDesc) : QH unit :=
  match h with Timeout => st_ret tt | Tuples => resetStatistics ;;; addInstrumentation q end.
Definition onSubQueryRun (h : handler) (q : QueryDesc) : QH unit :=
  match h with Timeout => st_ret tt | Tuples => addInstrumentation q end.
Definition onRootQueryFinish (h : handler) (q : QueryDesc) : QH unit :=
  match h with Timeout => st_ret tt | Tuples => count_finished q end.
Definition onSubQueryFinish (h : handler) (q : QueryDesc) : QH unit :=
  match h with Timeout => st_ret tt | Tuples => count_finished q end.

Definition onStartQuery (h : handler) (q : QueryDesc) : QH unit :=
  let* s := st_get in
  if isRootQueryPending h s then st_ret tt
  else st_modify (set_root h (Some (address q))) ;;; onRootQueryStart h q.

Definition onEndQuery (h : handler) (q : QueryDesc) : QH unit :=
  let* s := st_get in
  if isPendingRootQuery h q s then onRootQueryEnd h q ;;; endOfRootQuery h else st_ret tt.

Definition onRunQuery (h : handler) (q : QueryDesc) : QH unit :=
  let* s := st_get in
  if isPendingRootQuery h q s then onRootQueryRun h q else onSubQueryRun h q.

Definition onFinishQuery (h : handler) (q : QueryDesc) : QH unit :=
  let* s := st_get in
  if isPendingRootQuery h q s then onRootQueryFinish h q else onSubQueryFinish h q.

(** [RootQueryHandler::onError], after what the handler itself does *)
Definition onError (h : handler) : QH unit :=
  match h with Timeout => disable_timeout | Tuples => resetStatistics end ;;;
  let* s := st_get in
  if isRootQueryPending h s then endOfRootQuery h else st_ret tt.

(** ** The hooks ([query_handler.cpp]) *)

Fixpoint callErrorOnAllHandlers (stack : list handler) : QH unit :=
  match stack with
  | [] => st_ret tt
  | h :: stack' => onError h ;;; callErrorOnAllHandlers stack'
  end.

(** [PG_TRY ... PG_CATCH ... PG_RE_THROW] *)
Definition pg_try (m on_error : QH unit) : QH unit := fun s =>
  match m s with
  | (Throw (PgError c), s1) =>
      match on_error s1 with
      | (Ok _, s2) => (Throw (PgError c), s2)
      | r => r
      end
  | r => r
  end.

(** The loop of the four hooks, from the handler [stack] starts with. *)
Fixpoint hook_loop (all stack : list handler) (on : handler -> QH unit) (original : QH unit) : QH unit :=
  match stack with
  | [] => st_ret tt
  | h :: stack' =>
      pg_try (on h ;;; match stack' with [] => original | _ :: _ => st_ret tt end) (callErrorOnAllHandlers all) ;;;
      hook_loop all stack' on original
  end.

(** The members of [QueryHandlers] in reverse order of construction. *)
Definition handlers : list handler := [Timeout; Tuples].

Definition hook (on : handler -> QH unit) (original : QH unit) : QH unit := hook_loop handlers handlers on original.

(** ** Statements *)

Inductive phase := PStart | PFinish | PEnd.

#[global] Instance phase_eq_dec : EqDecision phase.
Proof. solve_decision. Defined.

(** A statement with what it runs, and where the executor itself fails, if it does; each fetch
    is a call of ExecutorRun of its own. *)
Inductive statement :=
| Statement (q : QueryDesc) (runs : fetches) (fails : option phase)
with fetches :=
| Closed
| Fetch (runs : body) (more : fetches)
with body :=
| Done
| Run (s : statement) (rest : body)
| Catch (inner rest : body)                 (* BEGIN inner EXCEPTION WHEN OTHERS ... END; rest *)
| Raise (cancelled : bool).

(** Raising the cancel error clears the flag. *)
Definition raise (cancelled : bool) : QH unit :=
  st_when cancelled (st_modify (set_cancel false)) ;;; st_throw (PgError cancelled).

Definition standard (p : phase) (fails : option phase) : QH unit :=
  if decide (fails = Some p) then raise false else st_ret tt.

Fixpoint execute (x : statement) : QH unit :=
  match x with
  | Statement q runs fails =>
      hook (fun h => onStartQuery h q) (standard PStart fails) ;;;
      execute_fetches q runs ;;;
      hook (fun h => onFinishQuery h q) (standard PFinish fails) ;;;
      hook (fun h => onEndQuery h q) (standard PEnd fails)
  end
with execute_fetches (q : QueryDesc) (rs : fetches) : QH unit :=
  match rs with
  | Closed => st_ret tt
  | Fetch runs more => hook (fun h => onRunQuery h q) (execute_body runs) ;;; execute_fetches q more
  end
with execute_body (b : body) : QH unit :=
  match b with
  | Done => st_ret tt
  | Run x rest => execute x ;;; execute_body rest
  | Catch inner rest => fun s =>
      match execute_body inner s with
      | (Ok _, s1) | (Throw (PgError _), s1) => execute_body rest s1
      | r => r
      end
  | Raise c => raise c
  end.

(** ** What a statement leaves behind *)

(** Both handlers supervise [root] and the timer runs exactly while there is one. *)
Definition supervises (root : option nat) (s : backend) : Prop :=
  m_rootQuery s Timeout = root /\ m_rootQuery s Tuples = root /\
  timer s = match root with Some _ => Some (lm_timeout conf) | None => None end.

(** Postconditions for a normal end and for an error; nothing is said when the process
    ends. *)
Definition triple (P : backend -> Prop) (m : QH unit) (Q R : backend -> Prop) : Prop := forall s, P s ->
  match m s with
  | (Ok _, s') => Q s'
  | (Throw (PgError _), s') => R s'
  | _ => True
  end.

Lemma triple_seq P m1 m2 Q1 Q R : triple P m1 Q1 R -> triple Q1 m2 Q R -> triple P (m1 ;;; m2) Q R.
Proof.
  intros H1 H2 s Hs. unfold st_bind. specialize (H1 s Hs). destruct (m1 s) as [[u|e] s1]; [by apply H2|]. done.
Qed.

Lemma triple_weaken (P : backend -> Prop) m (Q R Q' R' : backend -> Prop) :
  triple P m Q R -> (forall s, Q s -> Q' s) -> (forall s, R s -> R' s) -> triple P m Q' R'.
Proof. intros H HQ HR s Hs. specialize (H s Hs). destruct (m s) as [[u|[]] s1]; auto. Qed.

Lemma onError_ends h s : exists s', onError h s = (Ok tt, s') /\ m_rootQuery s' h = None /\
  (forall h', h' <> h -> m_rootQuery s' h' = m_rootQuery s h') /\
  timer s' = match h with Timeout => None | Tuples => timer s end.
Proof.
  unfold onError, st_bind, st_get, disable_timeout, resetStatistics, endOfRootQuery, st_modify, st_ret, isRootQueryPending.
  destruct h; cbn; case_bool_decide as Hp; eexists; (split; [reflexivity|]); cbn; split_and!; try done;
    try (by intros []); by apply eq_None_not_Some.
Qed.

Lemma error_ends_supervision s : exists s', callErrorOnAllHandlers handlers s = (Ok tt, s') /\ supervises None s'.
Proof.
  destruct (onError_ends Timeout s) as (s1 & E1 & R1 & O1 & T1).
  destruct (onError_ends Tuples s1) as (s2 & E2 & R2 & O2 & T2).
  exists s2. cbn [callErrorOnAllHandlers handlers]. unfold st_bind. rewrite E1, E2.
  split; [done|]. split_and!; [rewrite O2 by done; done|done|congruence].
Qed.

Lemma hook_unfold on original s s1 :
  on Timeout s = (Ok tt, s1) ->
  hook on original s = pg_try (on Tuples ;;; original) (callErrorOnAllHandlers handlers) s1.
Proof.
  intros E. unfold hook. cbn [hook_loop handlers]. unfold st_bind at 1, pg_try at 1, st_bind at 1. rewrite E. cbn.
  unfold st_bind at 1. destruct (pg_try _ _ s1) as [[[]|e] s2]; done.
Qed.

(** Any error that passes a hook ends the supervision. *)
Lemma hook_triple on original (P P1 Q : backend -> Prop) :
  (forall s, P s -> exists s1, on Timeout s = (Ok tt, s1) /\ P1 s1) ->
  (forall s1 s2, P1 s1 -> (on Tuples ;;; original) s1 = (Ok tt, s2) -> Q s2) ->
  triple P (hook on original) Q (supervises None).
Proof.
  intros H1 H2 s Hs. destruct (H1 s Hs) as (s1 & E1 & Hs1). rewrite (hook_unfold _ _ _ _ E1).
  unfold pg_try. destruct ((on Tuples ;;; original) s1) as [[[]|[c| |]] s2] eqn:E; try done; [by eapply H2|].
  destruct (error_ends_supervision s2) as (s3 & -> & ?). done.
Qed.

Lemma start_triple q fails root :
  triple (supervises root) (hook (fun h => onStartQuery h q) (standard PStart fails))
    (supervises (Some (default (address q) root))) (supervises None).
Proof.
  eapply (hook_triple _ _ _ (fun s => m_rootQuery s Timeout = Some (default (address q) root) /\
    m_rootQuery s Tuples = root /\ timer s = Some (lm_timeout conf))).
  - intros s (H1 & H2 & H3). unfold onStartQuery, isRootQueryPending, st_bind, st_get, st_modify, st_ret.
    rewrite H1. destruct root as [r|]; cbn; eexists; split; try reflexivity; done.
  - intros s1 s2 (H1 & H2 & H3). unfold onStartQuery, isRootQueryPending, standard, raise, st_when, st_bind, st_get, st_modify, st_ret, st_throw.
    rewrite H2. destruct root as [r|]; cbn; destruct (decide _); cbn; try done; intros [= <-]; by split_and!.
Qed.

Lemma count_finished_root q s s' : count_finished q s = (Ok tt, s') ->
  m_rootQuery s' = m_rootQuery s /\ timer s' = timer s.
Proof.
  unfold count_finished, updateStatistics, checkTuplesLimit, breakPendingRootQuery, st_bind, st_get, st_modify, st_ret, st_throw, st_lift.
  destruct (decide _); [|done]. do 2 (destruct (add_tuples _ _); [|done]). cbn.
  destruct (QueryCancelPending s); [by intros [= <-]|].
  destruct (breakQuery _); [|by intros [= <-]]. cbn. by destruct (m_rootQuery s Tuples); intros [= <-].
Qed.

Lemma finish_triple q fails root :
  triple (supervises root) (hook (fun h => onFinishQuery h q) (standard PFinish fails)) (supervises root) (supervises None).
Proof.
  eapply (hook_triple _ _ _ (supervises root)).
  - intros s Hs. exists s. split; [|done]. unfold onFinishQuery, st_bind, st_get. by destruct (isPendingRootQuery _ _ _).
  - intros s1 s2 (H1 & H2 & H3) E. unfold supervises.
    unfold onFinishQuery, onRootQueryFinish, onSubQueryFinish, st_bind, st_get in E.
    assert (exists s3, count_finished q s1 = (Ok tt, s3) /\ standard PFinish fails s3 = (Ok tt, s2)) as (s3 & E3 & E4).
    { destruct (isPendingRootQuery _ _ _); destruct (count_finished q s1) as [[[]|] s3]; try done; eauto. }
    apply count_finished_root in E3 as [R T]. unfold standard, raise, st_when, st_bind, st_throw, st_ret in E4.
    destruct (decide _); [done|]. injection E4 as <-. rewrite R, T. done.
Qed.

Lemma end_triple q fails root :
  triple (supervises root) (hook (fun h => onEndQuery h q) (standard PEnd fails))
    (supervises (if decide (root = Some (address q)) then None else root)) (supervises None).
Proof.
  eapply (hook_triple _ _ _ (fun s => m_rootQuery s Tuples = root /\
    m_rootQuery s Timeout = (if decide (root = Some (address q)) then None else root) /\
    timer s = match (if decide (root = Some (address q)) then None else root) with
              | Some _ => Some (lm_timeout conf) | None => None end)).
  - intros s (H1 & H2 & H3). unfold onEndQuery, isPendingRootQuery, st_bind, st_get, st_modify, st_ret. rewrite H1.
    destruct (decide _) as [->|Hne]; [rewrite bool_decide_true by done|rewrite bool_decide_false by done]; cbn;
      eexists; split; try reflexivity; done.
  - intros s1 s2 (H1 & H2 & H3). unfold onEndQuery, isPendingRootQuery, standard, raise, st_when, st_bind, st_get, st_modify, st_ret, st_throw.
    rewrite H1. destruct (decide (root = _)) as [->|Hne]; [rewrite bool_decide_true by done|rewrite bool_decide_false by done];
      cbn; destruct (decide _); cbn; try done; intros [= <-]; by split_and!.
Qed.

Lemma run_triple q original root (Q : backend -> Prop) :
  triple (supervises root) original Q Q ->
  triple (supervises root) (hook (fun h => onRunQuery h q) original) Q (supervises None).
Proof.
  intros Ho. eapply (hook_triple _ _ _ (supervises root)).
  - intros s Hs. exists s. split; [|done]. unfold onRunQuery, st_bind, st_get. by destruct (isPendingRootQuery _ _ _).
  - intros s1 s2 Hs E. apply st_bind_inv in E as ([] & s3 & E3 & E4). enough (supervises root s3) as H3.
    { specialize (Ho s3 H3). by rewrite E4 in Ho. }
    unfold onRunQuery, st_bind, st_get, onRootQueryRun, onSubQueryRun, resetStatistics, addInstrumentation, st_modify in E3.
    destruct (isPendingRootQuery _ _ _); injection E3 as <-; done.
Qed.

Scheme statement_mut := Induction for statement Sort Prop
with fetches_mut := Induction for fetches Sort Prop
with body_mut := Induction for body Sort Prop.

Definition leaves (root : option nat) (s : backend) : Prop := supervises root s \/ supervises None s.

Lemma triple_leaves root m :
  triple (supervises root) m (leaves root) (leaves root) ->
  triple (supervises None) m (leaves None) (leaves None) -> triple (leaves root) m (leaves root) (leaves root).
Proof.
  intros H1 H2 s [Hs|Hs]; [by apply H1|]. specialize (H2 s Hs).
  destruct (m s) as [[u|[]] s1]; try done; destruct H2; by right.
Qed.

Lemma execute_leaves x : forall root,
  triple (supervises root) (execute x) (leaves root) (supervises None).
Proof.
  eapply (statement_mut
    (fun x => forall root, triple (supervises root) (execute x) (leaves root) (supervises None))
    (fun rs => forall q root, triple (leaves root) (execute_fetches q rs) (leaves root) (supervises None))
    (fun b => forall root, triple (supervises root) (execute_body b) (leaves root) (leaves root))).
  - intros q runs IH fails root. cbn [execute]. eapply triple_seq; [apply start_triple|].
    set (r := Some (default (address q) root)).
    eapply (triple_seq _ _ _ (leaves r)); [intros s Hs; apply IH; by left|].
    eapply (triple_seq _ _ _ (leaves r)).
    { intros s [Hs|Hs]; [pose proof (finish_triple q fails r s Hs) as H|pose proof (finish_triple q fails None s Hs) as H];
        destruct (hook _ _ s) as [[u|[]] s1]; try done; [by left|by right]. }
    intros s [Hs|Hs]; [pose proof (end_triple q fails r s Hs) as H|pose proof (end_triple q fails None s Hs) as H];
      destruct (hook _ _ s) as [[u|[]] s1]; try done; [|by right].
    subst r. destruct (decide _); [by right|]. destruct root; [by left|]. cbn in *. congruence.
  - intros q root s Hs. exact Hs.
  - intros runs IHr more IHm q root. cbn [execute_fetches]. eapply (triple_seq _ _ _ (leaves root)); [|apply IHm].
    intros s [Hs|Hs]; [apply (run_triple q _ root); [apply IHr|done]|].
    pose proof (run_triple q _ None _ (IHr None) s Hs) as H. destruct (hook _ _ s) as [[u|[]] s1]; try done.
    destruct H; by right.
  - intros root s Hs. by left.
  - intros x' IHx rest IHr root. cbn [execute_body].
    eapply (triple_seq _ _ _ (leaves root)).
    + eapply triple_weaken; [apply IHx|done|]. intros s Hs. by right.
    + apply triple_leaves; [apply IHr|]. eapply triple_weaken; [apply IHr|done..].
  - intros inner IHi rest IHr root s Hs. cbn [execute_body]. pose proof (IHi root s Hs) as Hi.
    assert (triple (leaves root) (execute_body rest) (leaves root) (leaves root)) as Hr.
    { apply triple_leaves; [apply IHr|]. eapply triple_weaken; [apply IHr|done..]. }
    destruct (execute_body inner s) as [[u|[c| |]] s1]; try done; by apply (Hr s1).
  - intros c root s (H1 & H2 & H3). cbn. unfold raise, st_when, st_bind, st_modify, st_throw, st_ret.
    destruct c; cbn; left; by split_and!.
Qed.

(** C29: Whatever a root query runs, raises and catches, when it ends, normally or by an
    error, no handler supervises a query any more and the timer is stopped: a timeout
    never hits a later query of the connection. *)
Theorem supervision_ends_with_root_query x s :
  supervises None s ->
  match execute x s with
  | (Ok _, s') | (Throw (PgError _), s') => supervises None s'
  | _ => True
  end.
Proof.
  intros Hs. pose proof (execute_leaves x None s Hs) as H.
  destruct (execute x s) as [[u|[c| |]] s']; try done. by destruct H.
Qed.

(** A statement that fails inside a function which catches the error ends the
    supervision of the root query that is still running: what the function does next runs
    without the timer, and the tuples counted so far are forgotten. *)
Theorem caught_error_ends_supervision root x rest after c s s1 :
  supervises (Some root) s -> execute x s = (Throw (PgError c), s1) ->
  execute_body (Catch (Run x rest) after) s = execute_body after s1 /\ supervises None s1.
Proof.
  intros Hs E. split.
  - cbn [execute_body]. unfold st_bind. by rewrite E.
  - pose proof (execute_leaves x (Some root) s Hs) as H. by rewrite E in H.
Qed.

(** ** Counting the tuples of a query *)

(** All statements of a query in the order they finish. *)
Fixpoint finished (x : statement) : list QueryDesc :=
  match x with Statement q runs _ => finished_fetches runs ++ [q] end
with finished_fetches (rs : fetches) : list QueryDesc :=
  match rs with
  | Closed => []
  | Fetch runs more => finished_body runs ++ finished_fetches more
  end
with finished_body (b : body) : list QueryDesc :=
  match b with
  | Done | Raise _ => []
  | Run x rest => finished x ++ finished_body rest
  | Catch inner rest => finished_body inner ++ finished_body rest
  end.

Definition is_fetched (rs : fetches) : bool := match rs with Closed => false | Fetch _ _ => true end.

(** Nothing fails, and every statement runs at least once. *)
Fixpoint quiet (x : statement) : bool :=
  match x with Statement _ runs fails => is_fetched runs && quiet_fetches runs && bool_decide (fails = None) end
with quiet_fetches (rs : fetches) : bool :=
  match rs with
  | Closed => true
  | Fetch runs more => quiet_body runs && quiet_fetches more
  end
with quiet_body (b : body) : bool :=
  match b with
  | Done => true
  | Raise _ => false
  | Run x rest => quiet x && quiet_body rest
  | Catch inner rest => quiet_body inner && quiet_body rest
  end.

Definition total (l : list QueryDesc) : Z := foldr (fun q n => tuplecount q + n) 0 l.
Definition total_of (c : SqlCommand) (l : list QueryDesc) : Z :=
  foldr (fun q n => (if decide (cmdTypeToFilter (operation q) = c) then tuplecount q else 0) + n) 0 l.

Lemma tuples_total_app l1 l2 : total (l1 ++ l2) = total l1 + total l2.
Proof. unfold total. induction l1 as [|q l1 IH]; [done|]. cbn [app foldr]. lia. Qed.
Lemma total_of_app c l1 l2 : total_of c (l1 ++ l2) = total_of c l1 + total_of c l2.
Proof. unfold total_of. induction l1 as [|q l1 IH]; [done|]. cbn [app foldr]. lia. Qed.

Definition counts (l : list QueryDesc) : Prop := Forall (fun q => 0 <= tuplecount q) l.

Lemma total_of_bounds c l : counts l -> 0 <= total_of c l <= total l.
Proof. unfold total_of, total. induction 1 as [|q l Hq _ IH]; cbn [foldr]; [done|]. destruct (decide _); lia. Qed.

(** The limits a number of tuples exceeds. *)
Definition exceeds (l : list QueryDesc) : bool :=
  (lm_tuples conf <? total l) || (lm_updates conf <? total_of UPDATE l) ||
  (lm_inserts conf <? total_of INSERT l) || (lm_deletes conf <? total_of DELETE l).

(** A state in which the root query is supervised and every excess has been reported. *)
Definition tracking (root : nat) (s : backend) : Prop :=
  supervises (Some root) s /\ (forall c, 0 <= m_statistics s c <= m_numberOfAllTuples s) /\
  (breakQuery s = true -> QueryCancelPending s = true).

Definition added (l : list QueryDesc) (s s' : backend) : Prop :=
  m_numberOfAllTuples s' = m_numberOfAllTuples s + total l /\
  (forall c, m_statistics s' c = m_statistics s c + total_of c l) /\
  (QueryCancelPending s' = true -> QueryCancelPending s = true \/ breakQuery s' = true) /\
  instrumented s ⊆ instrumented s' /\
  (QueryCancelPending s = true -> QueryCancelPending s' = true).

Lemma breakQuery_grows l s s' : counts l -> added l s s' -> breakQuery s = true -> breakQuery s' = true.
Proof.
  intros Hc (Ha & Hs & _). unfold breakQuery. rewrite Ha, !Hs.
  pose proof (total_of_bounds UPDATE l Hc). pose proof (total_of_bounds INSERT l Hc). pose proof (total_of_bounds DELETE l Hc).
  rewrite !orb_true_iff, !Z.ltb_lt. lia.
Qed.

Lemma added_trans l1 l2 s s1 s2 : counts l2 -> added l1 s s1 -> added l2 s1 s2 -> added (l1 ++ l2) s s2.
Proof.
  intros Hc H1 H2. pose proof (breakQuery_grows l2 s1 s2 Hc H2) as Hg.
  destruct H1 as (A1 & S1 & C1 & I1 & P1), H2 as (A2 & S2 & C2 & I2 & P2). split_and!.
  - rewrite tuples_total_app. lia.
  - intros c. rewrite total_of_app, S2, S1. lia.
  - intros H. destruct (C2 H) as [H'|?]; [|by right]. destruct (C1 H') as [?|?]; [by left|right; auto].
  - set_solver.
  - auto.
Qed.

Lemma count_finished_added root q s :
  tracking root s -> address q ∈ instrumented s -> 0 <= tuplecount q ->
  m_numberOfAllTuples s + tuplecount q < 2 ^ 32 ->
  exists s', count_finished q s = (Ok tt, s') /\ tracking root s' /\ added [q] s s'.
Proof.
  intros ((H1 & H2 & H3) & Hb & Hbr) Hi Hq Hlt. set (c := cmdTypeToFilter (operation q)).
  pose proof (Hb c) as Hbc. unfold count_finished, updateStatistics, st_bind, st_get. rewrite decide_True by done.
  unfold st_lift, add_tuples. fold c. rewrite !(proj2 (Z.ltb_lt _ _)) by lia.
  set (s1 := set_counts (update (m_statistics s) c (m_statistics s c + tuplecount q)) (m_numberOfAllTuples s + tuplecount q) s).
  unfold st_modify. fold s1.
  assert (forall c', m_statistics s1 c' = m_statistics s c' + total_of c' [q]) as Hst.
  { intros c'. cbn. unfold update. fold c. destruct (decide (c' = c)) as [->|Hne]; [rewrite decide_True by done|rewrite decide_False by done]; lia. }
  assert (m_numberOfAllTuples s1 = m_numberOfAllTuples s + total [q]) as Hall by (cbn; lia).
  assert (forall c', 0 <= m_statistics s1 c' <= m_numberOfAllTuples s1) as Hb1.
  { intros c'. rewrite Hst, Hall. pose proof (total_of_bounds c' [q] ltac:(by constructor)). specialize (Hb c'). lia. }
  assert (supervises (Some root) s1) as Hsup by done.
  destruct (QueryCancelPending s1) eqn:Hcp.
  - exists s1. split; [done|]. split; [by split_and!|]. split_and!; [done|done|by left|done|done].
  - unfold checkTuplesLimit, st_bind, st_get. destruct (breakQuery s1) eqn:Hbq.
    + change (m_rootQuery s1 Tuples) with (m_rootQuery s Tuples). rewrite H2. eexists. split; [reflexivity|].
      split; [by split_and!|]. split_and!; [done|done|by right|done|done].
    + exists s1. split; [done|]. split; [split_and!; [done|done|congruence]|]. split_and!; [done|done|congruence|done|].
      intros H. cbn in Hcp. congruence.
Qed.

Lemma hook_ok on original s s1 s2 s3 :
  on Timeout s = (Ok tt, s1) -> on Tuples s1 = (Ok tt, s2) -> original s2 = (Ok tt, s3) ->
  hook on original s = (Ok tt, s3).
Proof. intros E1 E2 E3. rewrite (hook_unfold _ _ _ _ E1). unfold pg_try, st_bind. by rewrite E2, E3. Qed.

Lemma standard_ok p s : standard p None s = (Ok tt, s).
Proof. unfold standard. by rewrite decide_False. Qed.

(** A statement inside the root query. *)
Lemma sub_hooks root q s :
  supervises (Some root) s -> root <> address q ->
  (forall original s', original s = (Ok tt, s') -> hook (fun h => onStartQuery h q) original s = (Ok tt, s')) /\
  (forall original s', original s = (Ok tt, s') -> hook (fun h => onEndQuery h q) original s = (Ok tt, s')) /\
  (forall original s', original (set_instrumented ({[address q]} ∪ instrumented s) s) = (Ok tt, s') ->
    hook (fun h => onRunQuery h q) original s = (Ok tt, s')) /\
  (forall original s1 s2, count_finished q s = (Ok tt, s1) -> original s1 = (Ok tt, s2) ->
    hook (fun h => onFinishQuery h q) original s = (Ok tt, s2)).
Proof.
  intros (H1 & H2 & H3) Hne.
  assert (forall h, isRootQueryPending h s = true) as Hp.
  { intros []; unfold isRootQueryPending; rewrite ?H1, ?H2; done. }
  assert (forall h, isPendingRootQuery h q s = false) as Hr.
  { intros []; unfold isPendingRootQuery; rewrite ?H1, ?H2; apply bool_decide_false; congruence. }
  split_and!; intros; (eapply hook_ok; [| |eassumption]);
    unfold onStartQuery, onEndQuery, onRunQuery, onFinishQuery, st_bind, st_get; rewrite ?Hp, ?Hr; done.
Qed.

(** Inside the root query [m] counts the statements [l] and nothing else. *)
Definition counts_as (root : nat) (m : QH unit) (l : list QueryDesc) : Prop := forall s,
  tracking root s -> root ∉ map address l -> counts l -> m_numberOfAllTuples s + total l < 2 ^ 32 ->
  exists s', m s = (Ok tt, s') /\ tracking root s' /\ added l s s'.

Lemma counts_as_seq root m m1 m2 l1 l2 :
  (forall s s1, m1 s = (Ok tt, s1) -> m s = m2 s1) ->
  counts_as root m1 l1 -> counts_as root m2 l2 -> counts_as root m (l1 ++ l2).
Proof.
  intros Hm H1 H2 s Ht Hroot Hc Hlt. rewrite tuples_total_app in Hlt. rewrite map_app in Hroot.
  unfold counts in Hc. rewrite Forall_app in Hc. destruct Hc as [Hc1 Hc2].
  pose proof (total_of_bounds OTHER _ Hc2) as Hpos.
  destruct (H1 s Ht ltac:(set_solver) Hc1) as (s1 & E1 & Ht1 & Ha1); [lia|].
  destruct (H2 s1 Ht1 ltac:(set_solver) Hc2) as (s2 & E2 & Ht2 & Ha2); [destruct Ha1 as [-> _]; lia|].
  exists s2. rewrite (Hm _ _ E1), E2. split; [done|]. split; [done|]. by eapply added_trans.
Qed.

(** The fetches of a statement inside the root query; what it runs first is instrumented. *)
Lemma fetch_counts root q runs :
  root <> address q -> counts_as root (execute_body runs) (finished_body runs) ->
  counts_as root (hook (fun h => onRunQuery h q) (execute_body runs)) (finished_body runs) /\
  (forall s s', tracking root s -> hook (fun h => onRunQuery h q) (execute_body runs) s = (Ok tt, s') ->
    root ∉ map address (finished_body runs) -> counts (finished_body runs) ->
    m_numberOfAllTuples s + total (finished_body runs) < 2 ^ 32 -> address q ∈ instrumented s').
Proof.
  intros Hne IH.
  assert (forall s, tracking root s -> root ∉ map address (finished_body runs) -> counts (finished_body runs) ->
    m_numberOfAllTuples s + total (finished_body runs) < 2 ^ 32 ->
    exists s', hook (fun h => onRunQuery h q) (execute_body runs) s = (Ok tt, s') /\ tracking root s' /\
      added (finished_body runs) s s' /\ address q ∈ instrumented s') as H.
  { intros s Ht Hroot Hc Hlt. set (s0 := set_instrumented ({[address q]} ∪ instrumented s) s).
    destruct (IH s0 Ht Hroot Hc Hlt) as (s1 & E1 & Ht1 & Ha1). exists s1.
    destruct (sub_hooks root q s (proj1 Ht) Hne) as (_ & _ & HR & _). split; [by apply HR|]. split; [done|].
    destruct Ha1 as (A1 & S1 & C1 & I1 & P1). cbn in I1. split; [|set_solver]. split_and!; try done. set_solver. }
  split.
  - intros s Ht Hroot Hc Hlt. destruct (H s Ht Hroot Hc Hlt) as (s' & E & Ht' & Ha & _). eauto.
  - intros s s' Ht E Hroot Hc Hlt. destruct (H s Ht Hroot Hc Hlt) as (s1 & E1 & _ & _ & Hi). congruence.
Qed.

Lemma statement_counts root q rs :
  is_fetched rs = true -> counts_as root (execute_fetches q rs) (finished_fetches rs) ->
  (forall s s', tracking root s -> execute_fetches q rs s = (Ok tt, s') ->
    root ∉ map address (finished_fetches rs) -> root <> address q -> counts (finished_fetches rs) ->
    m_numberOfAllTuples s + total (finished_fetches rs) < 2 ^ 32 -> address q ∈ instrumented s') ->
  counts_as root (execute (Statement q rs None)) (finished_fetches rs ++ [q]).
Proof.
  intros _ IH Hinst s Ht Hroot Hc Hlt. rewrite tuples_total_app in Hlt. rewrite map_app in Hroot.
  unfold counts in Hc. rewrite Forall_app in Hc. destruct Hc as [Hc [Hcq _]%Forall_cons].
  assert (root ∉ map address (finished_fetches rs) /\ root <> address q) as [Hroot1 Hroot2] by set_solver.
  cbn [total foldr] in Hlt. rewrite Z.add_0_r in Hlt.
  destruct (IH s Ht Hroot1 Hc) as (s1 & E1 & Ht1 & Ha1); [lia|].
  assert (address q ∈ instrumented s1) as Hin by (eapply (Hinst s); try done; lia).
  destruct (count_finished_added root q s1 Ht1 Hin Hcq) as (s2 & E2 & Ht2 & Ha2).
  { destruct Ha1 as [-> _]. lia. }
  exists s2. cbn [execute]. split.
  - destruct (sub_hooks root q s (proj1 Ht) Hroot2) as (HS & _ & _ & _).
    destruct (sub_hooks root q s1 (proj1 Ht1) Hroot2) as (_ & _ & _ & HF).
    destruct (sub_hooks root q s2 (proj1 Ht2) Hroot2) as (_ & HE & _ & _).
    unfold st_bind. rewrite (HS _ _ (standard_ok PStart s)), E1, (HF _ _ _ E2 (standard_ok PFinish s2)).
    apply HE, standard_ok.
  - split; [done|]. eapply added_trans; [by constructor|exact Ha1|exact Ha2].
Qed.

(** The fetches of [q] count their statements, and [q] is instrumented after the first one. *)
Definition fetches_count (root : nat) (rs : fetches) : Prop := forall q, root <> address q ->
  counts_as root (execute_fetches q rs) (finished_fetches rs) /\
  forall s s', tracking root s -> execute_fetches q rs s = (Ok tt, s') ->
    root ∉ map address (finished_fetches rs) -> counts (finished_fetches rs) ->
    m_numberOfAllTuples s + total (finished_fetches rs) < 2 ^ 32 ->
    (is_fetched rs = true -> address q ∈ instrumented s') /\ instrumented s ⊆ instrumented s'.

Lemma fetches_count_cons root runs more :
  counts_as root (execute_body runs) (finished_body runs) -> fetches_count root more ->
  fetches_count root (Fetch runs more).
Proof.
  intros IHr IHm q Hne. destruct (fetch_counts root q runs Hne IHr) as [Hf Hi]. destruct (IHm q Hne) as [Hm Hmi]. split.
  - eapply counts_as_seq; [|exact Hf|exact Hm]. intros s s1 E. cbn [execute_fetches]. unfold st_bind. by rewrite E.
  - intros s s' Ht E Hroot Hc Hlt. cbn [finished_fetches] in *. rewrite map_app in Hroot. rewrite tuples_total_app in Hlt.
    unfold counts in Hc. rewrite Forall_app in Hc. destruct Hc as [Hc1 Hc2]. pose proof (total_of_bounds OTHER _ Hc2) as Hpos.
    destruct (Hf s Ht ltac:(set_solver) Hc1) as (s1 & E1 & Ht1 & Ha1); [lia|].
    cbn [execute_fetches] in E. unfold st_bind in E. rewrite E1 in E.
    destruct (Hmi s1 s' Ht1 E ltac:(set_solver) Hc2) as [_ Hsub]; [destruct Ha1 as [-> _]; lia|].
    pose proof (Hi s s1 Ht E1 ltac:(set_solver) Hc1 ltac:(lia)) as Hq.
    destruct Ha1 as (_ & _ & _ & Hs1 & _). split; set_solver.
Qed.

Lemma body_counts root b : quiet_body b = true -> counts_as root (execute_body b) (finished_body b).
Proof.
  revert b. eapply (body_mut
    (fun x => quiet x = true -> counts_as root (execute x) (finished x))
    (fun rs => quiet_fetches rs = true -> fetches_count root rs)
    (fun b => quiet_body b = true -> counts_as root (execute_body b) (finished_body b))).
  - intros q rs IH fails [[Hfe Hq]%andb_true_iff ->%bool_decide_eq_true]%andb_true_iff s Ht Hroot.
    assert (root <> address q) as Hne by (cbn in Hroot; rewrite map_app in Hroot; set_solver).
    destruct (IH Hq q Hne) as [Hcnt Hin]. revert s Ht Hroot. apply statement_counts; [done|done|].
    intros s s' Ht E Hr _ Hc Hlt. destruct (Hin s s' Ht E Hr Hc Hlt) as [H _]. by apply H.
  - intros _ q Hne. split.
    + intros s Ht _ _ _. exists s. split; [done|]. split; [done|].
      split_and!; [cbn; lia|intros; cbn; lia|by left|done|done].
    + intros s s' _ [= <-] _ _ _. by split.
  - intros runs IHr more IHm [Hq1 Hq2]%andb_true_iff. apply fetches_count_cons; auto.
  - intros _ s Ht _ _ _. exists s. split; [done|]. split; [done|].
    split_and!; [cbn; lia|intros; cbn; lia|by left|done|done].
  - intros x IHx rest IHr [Hq1 Hq2]%andb_true_iff.
    eapply counts_as_seq; [|by apply IHx|by apply IHr]. intros s s1 E. cbn [execute_body]. unfold st_bind. by rewrite E.
  - intros inner IHi rest IHr [Hq1 Hq2]%andb_true_iff.
    eapply counts_as_seq; [|by apply IHi|by apply IHr]. intros s s1 E. cbn [execute_body]. by rewrite E.
  - intros c Hq. discriminate.
Qed.

(** The hooks of the root query itself. *)
Lemma root_hooks q s :
  supervises None s ->
  let s1 := set_root Tuples (Some (address q)) (set_timer (Some (lm_timeout conf)) (set_root Timeout (Some (address q)) s)) in
  hook (fun h => onStartQuery h q) (standard PStart None) s = (Ok tt, s1) /\ supervises (Some (address q)) s1.
Proof.
  intros (H1 & H2 & H3) s1. split; [|done].
  assert (isRootQueryPending Timeout s = false) as P1 by (unfold isRootQueryPending; by rewrite H1).
  assert (isRootQueryPending Tuples s = false) as P2 by (unfold isRootQueryPending; by rewrite H2).
  eapply hook_ok; [| |apply standard_ok]; unfold onStartQuery, st_bind, st_get.
  - rewrite P1. reflexivity.
  - change (isRootQueryPending Tuples (set_timer _ _)) with (isRootQueryPending Tuples s). rewrite P2. reflexivity.
Qed.

Lemma root_run_hook q original s s' :
  supervises (Some (address q)) s ->
  original (set_instrumented ({[address q]} ∪ instrumented s) (set_counts (fun _ => 0) 0 s)) = (Ok tt, s') ->
  hook (fun h => onRunQuery h q) original s = (Ok tt, s').
Proof.
  intros (H1 & H2 & H3) E. eapply hook_ok; [| |exact E];
    unfold onRunQuery, isPendingRootQuery, st_bind, st_get; rewrite ?H1, ?H2, bool_decide_true by done; done.
Qed.

Lemma root_finish_hook q s s' :
  supervises (Some (address q)) s -> count_finished q s = (Ok tt, s') ->
  hook (fun h => onFinishQuery h q) (standard PFinish None) s = (Ok tt, s').
Proof.
  intros (H1 & H2 & H3) E. eapply hook_ok; [| |apply standard_ok];
    unfold onFinishQuery, isPendingRootQuery, st_bind, st_get; rewrite ?H1, ?H2, bool_decide_true by done; done.
Qed.

Lemma root_end_hook q s :
  supervises (Some (address q)) s ->
  exists s', hook (fun h => onEndQuery h q) (standard PEnd None) s = (Ok tt, s') /\ supervises None s' /\
    m_numberOfAllTuples s' = m_numberOfAllTuples s /\ m_statistics s' = m_statistics s /\
    QueryCancelPending s' = QueryCancelPending s.
Proof.
  intros (H1 & H2 & H3).
  assert (isPendingRootQuery Timeout q s = true) as P1 by (unfold isPendingRootQuery; rewrite H1; by apply bool_decide_true).
  assert (isPendingRootQuery Tuples q s = true) as P2 by (unfold isPendingRootQuery; rewrite H2; by apply bool_decide_true).
  exists (set_root Tuples None (set_root Timeout None (set_timer None s))). split; [|done].
  eapply hook_ok; [| |apply standard_ok]; unfold onEndQuery, st_bind, st_get.
  - rewrite P1. reflexivity.
  - change (isPendingRootQuery Tuples q (set_root _ _ _)) with (isPendingRootQuery Tuples q s). rewrite P2. reflexivity.
Qed.

Definition limits_ok : Prop :=
  0 <= lm_tuples conf /\ 0 <= lm_updates conf /\ 0 <= lm_inserts conf /\ 0 <= lm_deletes conf.

(** What is counted at the end: each fetch of the root query starts from nothing. *)
Fixpoint counted (q : QueryDesc) (rs : fetches) : list QueryDesc :=
  match rs with
  | Closed => [q]
  | Fetch runs Closed => finished_body runs ++ [q]
  | Fetch _ more => counted q more
  end.

(** Whether a limit was exceeded during one of the fetches, or at the end. *)
Fixpoint exceeded (q : QueryDesc) (rs : fetches) : bool :=
  match rs with
  | Closed => exceeds [q]
  | Fetch runs Closed => exceeds (finished_body runs ++ [q])
  | Fetch runs more => exceeds (finished_body runs) || exceeded q more
  end.

Lemma breakQuery_counts l s : m_numberOfAllTuples s = total l -> (forall c, m_statistics s c = total_of c l) -> breakQuery s = exceeds l.
Proof. intros A S. unfold breakQuery, exceeds. by rewrite A, !S. Qed.

(** A state in which [l] has been counted and [pending] tells whether a stop was asked for. *)
Definition has_counted (root : nat) (l : list QueryDesc) (pending : bool) (s : backend) : Prop :=
  tracking root s /\ root ∈ instrumented s /\ m_numberOfAllTuples s = total l /\
  (forall c, m_statistics s c = total_of c l) /\ QueryCancelPending s = pending.

Lemma has_counted_added root l1 l2 b s s' :
  counts l2 -> has_counted root l1 b s -> tracking root s' -> added l2 s s' ->
  has_counted root (l1 ++ l2) (b || exceeds (l1 ++ l2)) s'.
Proof.
  intros Hc (Ht & Hi & A & S & P) Ht' (A' & S' & C' & I' & P').
  assert (m_numberOfAllTuples s' = total (l1 ++ l2)) as HA by (rewrite tuples_total_app; lia).
  assert (forall c, m_statistics s' c = total_of c (l1 ++ l2)) as HS by (intros c; rewrite total_of_app, S', S; lia).
  split_and!; [apply Ht'|set_solver|done|done|].
  rewrite <- (breakQuery_counts _ _ HA HS), <- P. destruct Ht' as (_ & _ & Hb).
  destruct (QueryCancelPending s') eqn:E; destruct (breakQuery s') eqn:E2; try done; try (by rewrite orb_true_r).
  - destruct (C' eq_refl) as [->|?]; done.
  - by specialize (Hb eq_refl).
  - rewrite orb_false_r. destruct (QueryCancelPending s); [|done]. by specialize (P' eq_refl).
Qed.

(** One fetch of the root query forgets what was counted before it. *)
Lemma root_fetch q runs s :
  supervises (Some (address q)) s -> limits_ok -> quiet_body runs = true ->
  address q ∉ map address (finished_body runs) -> counts (finished_body runs) -> total (finished_body runs) < 2 ^ 32 ->
  exists s', hook (fun h => onRunQuery h q) (execute_body runs) s = (Ok tt, s') /\
    has_counted (address q) (finished_body runs) (QueryCancelPending s || exceeds (finished_body runs)) s'.
Proof.
  intros Hs Hlim Hq Hroot Hc Hlt.
  set (s2 := set_instrumented ({[address q]} ∪ instrumented s) (set_counts (fun _ => 0) 0 s)).
  assert (has_counted (address q) [] (QueryCancelPending s) s2) as H2.
  { split_and!; [|cbn; set_solver|done..]. split_and!; [exact Hs|done|]. unfold breakQuery. cbn.
    rewrite !orb_true_iff, !Z.ltb_lt. unfold limits_ok in Hlim. lia. }
  destruct (body_counts (address q) runs Hq s2 (proj1 H2) Hroot Hc) as (s3 & E3 & Ht3 & Ha3); [cbn; lia|].
  exists s3. split; [by apply root_run_hook|]. by apply (has_counted_added _ [] _ _ s2).
Qed.

Lemma root_fetches q rs s :
  is_fetched rs = true -> supervises (Some (address q)) s -> limits_ok -> quiet_fetches rs = true ->
  address q ∉ map address (finished_fetches rs) -> counts (finished_fetches rs ++ [q]) ->
  total (finished_fetches rs ++ [q]) < 2 ^ 32 ->
  exists s' s'', execute_fetches q rs s = (Ok tt, s') /\ supervises (Some (address q)) s' /\
    count_finished q s' = (Ok tt, s'') /\
    has_counted (address q) (counted q rs) (QueryCancelPending s || exceeded q rs) s''.
Proof.
  intros Hfe Hs Hlim. revert s Hs. induction rs as [|runs more IH]; intros s Hs Hq Hroot Hc Hlt; [done|].
  cbn [finished_fetches quiet_fetches] in *. apply andb_true_iff in Hq as [Hq1 Hq2].
  rewrite map_app in Hroot. rewrite <- app_assoc in Hc, Hlt. rewrite tuples_total_app in Hlt.
  unfold counts in Hc. rewrite Forall_app in Hc. destruct Hc as [Hc1 Hc2].
  pose proof (total_of_bounds OTHER _ Hc2) as Hp. pose proof (total_of_bounds OTHER _ Hc1) as Hp1.
  destruct (root_fetch q runs s Hs Hlim Hq1 ltac:(set_solver) Hc1) as (s1 & E1 & H1); [lia|].
  destruct more as [|runs2 more2].
  - cbn [finished_fetches app total foldr] in Hlt, Hc2. apply Forall_cons in Hc2 as [Hcq _]. pose proof H1 as (Ht1 & Hi1 & A1 & _).
    destruct (count_finished_added (address q) q s1 Ht1 Hi1 Hcq) as (s2 & E2 & Ht2 & Ha2); [lia|].
    exists s1, s2. cbn [execute_fetches]. unfold st_bind. rewrite E1. split_and!; [done|apply Ht1..|done|].
    pose proof (has_counted_added _ _ [q] _ _ _ ltac:(by constructor) H1 Ht2 Ha2) as Hfin. cbn [counted exceeded].
    replace (QueryCancelPending s || exceeds (finished_body runs ++ [q]))
      with (QueryCancelPending s || exceeds (finished_body runs) || exceeds (finished_body runs ++ [q])); [done|].
    destruct (exceeds (finished_body runs)) eqn:Ee; [|by rewrite orb_false_r].
    enough (exceeds (finished_body runs ++ [q]) = true) as -> by (by rewrite !orb_true_r).
    destruct Hfin as (_ & _ & A & S & _). rewrite <- (breakQuery_counts _ _ A S).
    eapply (breakQuery_grows [q] s1); [by constructor|done|]. destruct H1 as (_ & _ & A' & S' & _). by rewrite (breakQuery_counts _ _ A' S').
  - destruct (IH eq_refl s1 (proj1 (proj1 H1)) Hq2 ltac:(set_solver) Hc2) as (s2 & s3 & E2 & Hs2 & E3 & H3); [lia|].
    exists s2, s3. change (execute_fetches q (Fetch runs (Fetch runs2 more2)))
      with (hook (fun h => onRunQuery h q) (execute_body runs) ;;; execute_fetches q (Fetch runs2 more2)).
    unfold st_bind. rewrite E1. split_and!; try done; [apply Hs2..|].
    change (counted q (Fetch runs (Fetch runs2 more2))) with (counted q (Fetch runs2 more2)).
    change (exceeded q (Fetch runs (Fetch runs2 more2))) with (exceeds (finished_body runs) || exceeded q (Fetch runs2 more2)).
    destruct H1 as (_ & _ & _ & _ & P1). rewrite P1, <- orb_assoc in H3. exact H3.
Qed.

(** C18: When nothing fails, every statement runs at least once and the tuples stay below 2^32, what
    is counted at the end of a root query, in total and by kind of command, is the root query's own
    tuples and those of the statements run during its last fetch (all of its statements when
    it is fetched at once), whatever was counted before; and the query has been asked to stop exactly
    when a limit was exceeded during one of the fetches or at the end. *)
Theorem tuples_of_query_are_counted q rs s :
  supervises None s -> QueryCancelPending s = false -> limits_ok ->
  is_fetched rs = true -> quiet_fetches rs = true -> address q ∉ map address (finished_fetches rs) ->
  counts (finished_fetches rs ++ [q]) -> total (finished_fetches rs ++ [q]) < 2 ^ 32 ->
  exists s', execute (Statement q rs None) s = (Ok tt, s') /\ supervises None s' /\
    m_numberOfAllTuples s' = total (counted q rs) /\
    (forall c, m_statistics s' c = total_of c (counted q rs)) /\
    QueryCancelPending s' = exceeded q rs.
Proof.
  intros Hs Hcp Hlim Hfe Hq Hroot Hc Hlt. destruct (root_hooks q s Hs) as [E1 Hs1].
  set (s1 := set_root Tuples _ _) in *.
  destruct (root_fetches q rs s1 Hfe Hs1 Hlim Hq Hroot Hc Hlt) as (s2 & s3 & E2 & Hs2 & E3 & H3).
  destruct H3 as (Ht3 & _ & A & S & P). destruct (root_end_hook q s3 (proj1 Ht3)) as (s5 & E5 & Hs5 & N5 & T5 & C5).
  exists s5. split_and!.
  - cbn [execute]. unfold st_bind. rewrite E1, E2, (root_finish_hook q _ _ Hs2 E3). done.
  - done.
  - by rewrite N5, A.
  - intros c. by rewrite T5, S.
  - rewrite C5, P. change (QueryCancelPending s1) with (QueryCancelPending s). by rewrite Hcp.
Qed.

(** A statement that is finished without having been run, as a cursor that is opened and closed
    again is, has no instrumentation to read the tuples from. *)
Theorem closed_without_fetch_crashes q s :
  supervises None s -> address q ∉ instrumented s ->
  exists s', execute (Statement q Closed None) s = (Throw NullDereference, s').
Proof.
  intros Hs Hi. destruct (root_hooks q s Hs) as [E1 (H1 & H2 & H3)]. set (s1 := set_root Tuples _ _) in *.
  cbn [execute execute_fetches]. unfold st_bind at 1. rewrite E1. unfold st_bind at 1, st_ret at 1. unfold st_bind at 1.
  assert (forall h, isPendingRootQuery h q s1 = true) as P.
  { intros []; unfold isPendingRootQuery; rewrite ?H1, ?H2; by apply bool_decide_true. }
  rewrite (hook_unfold _ _ s1 s1); [|unfold onFinishQuery, st_bind, st_get; by rewrite P].
  unfold pg_try, onFinishQuery, st_bind at 1 2, st_get. rewrite P. cbn [onRootQueryFinish].
  unfold count_finished, updateStatistics, st_bind at 1 2, st_get. rewrite decide_False by done. by eexists.
Qed.

(** *** The limit after a caught error *)

(** A function that runs [failing] inside a block that catches its error. *)
Definition catching (q failing : QueryDesc) : statement :=
  Statement q (Fetch (Catch (Run (Statement failing Closed (Some PStart)) Done) Done) Closed) None.

Lemma onError_pending h s :
  isRootQueryPending h s = true ->
  onError h s = (Ok tt, set_root h None (match h with Timeout => set_timer None s | Tuples => set_counts (fun _ => 0) 0 s end)).
Proof.
  intros P. unfold onError, st_bind, st_get. destruct h; cbn [disable_timeout resetStatistics st_modify];
    unfold isRootQueryPending in *; cbn [m_rootQuery set_timer set_counts]; by rewrite P.
Qed.

Lemma failing_start q root s :
  supervises (Some root) s ->
  exists s', execute (Statement q Closed (Some PStart)) s = (Throw (PgError false), s') /\ supervises None s' /\
    m_numberOfAllTuples s' = 0 /\ (forall c, m_statistics s' c = 0) /\
    instrumented s' = instrumented s /\ QueryCancelPending s' = QueryCancelPending s.
Proof.
  intros (H1 & H2 & H3).
  assert (isRootQueryPending Timeout s = true) as P1 by (unfold isRootQueryPending; by rewrite H1).
  assert (isRootQueryPending Tuples s = true) as P2 by (unfold isRootQueryPending; by rewrite H2).
  exists (set_root Tuples None (set_counts (fun _ => 0) 0 (set_root Timeout None (set_timer None s)))).
  split; [|done]. cbn [execute]. unfold st_bind at 1.
  rewrite (hook_unfold _ _ s s); [|unfold onStartQuery, st_bind, st_get; by rewrite P1].
  unfold pg_try, onStartQuery, st_bind at 1 2, st_get. rewrite P2. cbn [st_ret].
  unfold standard, raise. rewrite decide_True by done. cbn [st_when]. unfold st_bind at 1, st_ret, st_throw.
  cbn [callErrorOnAllHandlers handlers]. unfold st_bind.
  rewrite (onError_pending Timeout s P1), (onError_pending Tuples (set_root Timeout None (set_timer None s)) P2). done.
Qed.

(** When a function catches the error of one of its statements and its own tuples
    then exceed the limit, the warning about the limit reads the root query that the
    error has already forgotten: the server process dereferences a null pointer. *)
Theorem limit_after_caught_error_crashes q failing s :
  supervises None s -> QueryCancelPending s = false ->
  lm_tuples conf < tuplecount q < 2 ^ 32 -> 0 <= tuplecount q ->
  exists s', execute (catching q failing) s = (Throw NullDereference, s').
Proof.
  intros Hs Hcp Hq Hpos. destruct (root_hooks q s Hs) as [E1 Hs1]. set (s1 := set_root Tuples _ _) in *.
  set (s2 := set_instrumented ({[address q]} ∪ instrumented s1) (set_counts (fun _ => 0) 0 s1)).
  destruct (failing_start failing (address q) s2 Hs1) as (s3 & E3 & (R1 & R2 & R3) & N3 & T3 & I3 & C3).
  cbn [execute catching execute_fetches]. unfold st_bind at 1. rewrite E1. unfold st_bind at 1 2.
  rewrite (root_run_hook q _ s1 s3 Hs1).
  2: { fold s2. cbn [execute_body]. unfold st_bind at 1. by rewrite E3. }
  unfold st_ret at 1. assert (forall h, isPendingRootQuery h q s3 = false) as P.
  { intros []; unfold isPendingRootQuery; rewrite ?R1, ?R2; by apply bool_decide_false. }
  unfold st_bind at 1. rewrite (hook_unfold _ _ s3 s3); [|unfold onFinishQuery, st_bind, st_get; by rewrite P].
  unfold pg_try, onFinishQuery, st_bind at 1 2, st_get. rewrite P. cbn [onSubQueryFinish].
  unfold count_finished, updateStatistics, st_bind at 1 2, st_get.
  rewrite decide_True by (rewrite I3; cbn; set_solver). unfold st_bind, st_lift, add_tuples.
  rewrite N3, T3, !(proj2 (Z.ltb_lt _ _)) by lia. unfold st_modify. cbn [set_counts QueryCancelPending]. rewrite C3. cbn [QueryCancelPending s2 s1 set_instrumented set_counts set_root set_timer].
  rewrite Hcp. unfold checkTuplesLimit, breakQuery, st_bind, st_get. cbn [m_numberOfAllTuples set_counts m_rootQuery].
  rewrite (proj2 (Z.ltb_lt _ _)) by lia. cbn [orb]. rewrite R2. by eexists.
Qed.

End supervisor.

(** ** Examples *)

Module SupervisorExamples.

Definition conf : limits :=
  {| lm_tuples := 1000; lm_updates := 1000; lm_inserts := 1000; lm_deletes := 1000; lm_timeout := 300 |}.

Definition idle : backend :=
  {| m_rootQuery := fun _ => None; m_statistics := fun _ => 7; m_numberOfAllTuples := 7; instrumented := ∅;
     timer := None; QueryCancelPending := false |}.

Definition query (a : nat) (c : CmdType) (n : Z) : QueryDesc := {| address := a; operation := c; tuplecount := n |}.

Definition failing : statement := Statement (query 2 CMD_SELECT 0) Closed (Some PStart).

Lemma supervision_ends_with_root_query_witness :
  match execute conf (Statement (query 1 CMD_SELECT 5) (Fetch (Catch (Run failing Done) (Run failing Done)) Closed) None) idle with
  | (Throw (PgError _), s') => supervises conf None s'
  | _ => False
  end.
Proof.
  pose proof (supervision_ends_with_root_query conf
    (Statement (query 1 CMD_SELECT 5) (Fetch (Catch (Run failing Done) (Run failing Done)) Closed) None) idle (conj eq_refl (conj eq_refl eq_refl))) as H.
  destruct (execute _ _ _) as [[u|[c| |]] s'] eqn:E; [vm_compute in E; discriminate|exact H|vm_compute in E; discriminate..].
Defined.

(** A running root query. *)
Definition running : backend := set_timer (Some 300) (set_root Tuples (Some 1%nat) (set_root Timeout (Some 1%nat) idle)).

Lemma caught_error_ends_supervision_witness :
  timer running = Some 300 /\
  exists s1, execute_body conf (Catch (Run failing Done) Done) running = (Ok tt, s1) /\ supervises conf None s1.
Proof.
  split; [reflexivity|].
  destruct (execute conf failing running) as [o s1] eqn:E. exists s1.
  assert (o = Throw (PgError false)) as -> by (vm_compute in E; congruence).
  destruct (caught_error_ends_supervision conf 1 failing Done Done false running s1) as [H1 H2].
  - split_and!; reflexivity.
  - exact E.
  - split; [rewrite H1; reflexivity|exact H2].
Defined.

Definition inserts (a : nat) (n : Z) : body := Run (Statement (query a CMD_INSERT n) (Fetch Done Closed) None) Done.

(** A query that is fetched in two pieces, each of which inserts tuples. *)
Definition two_pieces : fetches := Fetch (inserts 2 600) (Fetch (inserts 3 500) Closed).

Lemma tuples_of_query_are_counted_witness :
  exists s', execute conf (Statement (query 1 CMD_SELECT 1) two_pieces None) idle = (Ok tt, s') /\
    m_numberOfAllTuples s' = 501 /\ m_statistics s' INSERT = 500 /\ QueryCancelPending s' = false.
Proof.
  destruct (tuples_of_query_are_counted conf (query 1 CMD_SELECT 1) two_pieces idle)
    as (s' & E & _ & H1 & H2 & H3).
  - split_and!; reflexivity.
  - reflexivity.
  - unfold limits_ok. cbn. lia.
  - reflexivity.
  - reflexivity.
  - apply (bool_decide_unpack _). vm_compute. exact I.
  - repeat constructor; cbn; lia.
  - reflexivity.
  - exists s'. split_and!; [exact E|exact H1|exact (H2 INSERT)|exact H3].
Defined.

(** The limit for inserted tuples is 1000: 1100 tuples are reported when the query is fetched at
    once, and not when it is fetched in two pieces. *)
Theorem fetching_in_pieces_evades_the_limit :
  let inserting := Run (Statement (query 2 CMD_INSERT 600) (Fetch Done Closed) None) (inserts 3 500) in
  QueryCancelPending (execute conf (Statement (query 1 CMD_SELECT 1) (Fetch inserting Closed) None) idle).2 = true /\
  QueryCancelPending (execute conf (Statement (query 1 CMD_SELECT 1) two_pieces None) idle).2 = false.
Proof. by vm_compute. Qed.

Lemma limit_after_caught_error_crashes_witness :
  exists s', execute conf (catching (query 1 CMD_SELECT 1001) (query 2 CMD_SELECT 0)) idle = (Throw NullDereference, s').
Proof.
  apply (limit_after_caught_error_crashes conf (query 1 CMD_SELECT 1001) (query 2 CMD_SELECT 0) idle).
  - split_and!; reflexivity.
  - reflexivity.
  - cbn. lia.
  - cbn. lia.
Defined.

End SupervisorExamples.
