(* ===== verification/HookChain.v ===== *)
(** * Installing and removing the query handlers

    Models the constructors and destructors of [query_handler.cpp],
    [timeout_query_handler.cpp], [tuples_statistics_query_handler.cpp] and
    [query_supervisor/query_handlers.cpp], and the end of [_PG_init] and [_PG_fini]: a handler
    saves the executor hooks of the process, replaces them, and links itself in front of the
    handler installed before.  The hooks follow those links.

    QueryHandlers describes what the hooks do with a list of handlers; the theorems here show
    that the links make up that list and that removal leaves the process as it was. *)

From S2P Require Import Prelude QueryHandlers.
From Stdlib Require Import ZArith Lia.
From stdpp Require Import base list gmap sets.

Open Scope Z_scope.
Open Scope haf_scope.

(** ** The process *)

(** What a hook pointer of the server can hold: the functions of [query_handler.cpp], or those of
    another library. *)
Inductive hook_function := OurHook | OtherHook (library : nat).

#[global] Instance hook_function_eq_dec : EqDecision hook_function.
Proof. solve_decision. Defined.

Record executor_hooks := {
  ExecutorStart_hook : option hook_function;
  ExecutorEnd_hook : option hook_function;
  ExecutorRun_hook : option hook_function;
  ExecutorFinish_hook : option hook_function
}.

(** [QueryHandler] with the class it is the base of. *)
Record query_handler := {
  qh_class : handler;
  m_originalHooks : executor_hooks;
  m_previousHandler : option nat
}.

Record process := {
  pr_hooks : executor_hooks;
  g_topHandler : option nat;
  pr_objects : gmap nat query_handler;            (* by address *)
  pr_user_timeout : bool                          (* RegisterTimeout was called *)
}.

Definition our_hooks : executor_hooks :=
  {| ExecutorStart_hook := Some OurHook; ExecutorEnd_hook := Some OurHook;
     ExecutorRun_hook := Some OurHook; ExecutorFinish_hook := Some OurHook |}.

(** [QueryHandler::QueryHandler]. *)
Definition construct_query_handler (this : nat) (class : handler) (p : process) : process :=
  {| pr_hooks := our_hooks; g_topHandler := Some this;
     pr_objects := <[this := {| qh_class := class; m_originalHooks := pr_hooks p; m_previousHandler := g_topHandler p |}]>
                     (pr_objects p);
     pr_user_timeout := pr_user_timeout p |}.

(** [QueryHandler::~QueryHandler]; asserts are compiled out. *)
Definition destroy_query_handler (this : nat) (p : process) : process :=
  match pr_objects p !! this with
  | Some h => {| pr_hooks := m_originalHooks h; g_topHandler := m_previousHandler h;
                 pr_objects := delete this (pr_objects p); pr_user_timeout := pr_user_timeout p |}
  | None => p
  end.

(** The classes: statistics start at zero, the timeout is registered once and switched off at the
    end.  What they do to the backend is of QueryHandlers. *)
Definition construct_tuples_handler (this : nat) (p : process) : QH process :=
  resetStatistics ;;; st_ret (construct_query_handler this Tuples p).

Definition construct_timeout_handler (this : nat) (p : process) : QH process :=
  let p := construct_query_handler this Timeout p in
  st_ret {| pr_hooks := pr_hooks p; g_topHandler := g_topHandler p; pr_objects := pr_objects p; pr_user_timeout := true |}.

Definition destroy_tuples_handler (this : nat) (p : process) : QH process := st_ret (destroy_query_handler this p).

Definition destroy_timeout_handler (this : nat) (p : process) : QH process :=
  disable_timeout ;;; st_ret (destroy_query_handler this p).

(** [QueryHandlers]: the members in the order of their declaration, and back. *)
Record query_handlers := { m_tuplesHandler : nat; m_timeoutQueryHandler : nat }.

Definition construct_query_handlers (at_ : query_handlers) (p : process) : QH process :=
  let* p := construct_tuples_handler (m_tuplesHandler at_) p in
  construct_timeout_handler (m_timeoutQueryHandler at_) p.

Definition destroy_query_handlers (at_ : query_handlers) (p : process) : QH process :=
  let* p := destroy_timeout_handler (m_timeoutQueryHandler at_) p in
  destroy_tuples_handler (m_tuplesHandler at_) p.

(** [_PG_init] for a limited user and [_PG_fini], with [g_queryHandlers]. *)
Definition install_handlers (limited : bool) (at_ : query_handlers) (p : process) : QH (process * option query_handlers) :=
  if limited then let* p := construct_query_handlers at_ p in st_ret (p, Some at_) else st_ret (p, None).

Definition _PG_fini (g_queryHandlers : option query_handlers) (p : process) : QH process :=
  match g_queryHandlers with
  | Some at_ => destroy_query_handlers at_ p
  | None => st_ret p
  end.

(** ** The hooks follow the links *)

Section hooks.
  Context (p : process).

(** [currentHandler->previousHandler()]. *)
Definition previousHandler (this : nat) : option nat := h ← pr_objects p !! this; m_previousHandler h.

Fixpoint error_loop (fuel : nat) (current : option nat) : QH unit :=
  match fuel, current with
  | S fuel', Some this =>
      match pr_objects p !! this with
      | Some h => onError (qh_class h) ;;; error_loop fuel' (m_previousHandler h)
      | None => st_ret tt
      end
  | _, _ => st_ret tt
  end.

Definition callErrorOnAll (fuel : nat) : QH unit := error_loop fuel (g_topHandler p).

(** The [for] of a hook; [call] runs what the bottom handler has saved. *)
Fixpoint pointer_loop (fuel : nat) (saved : executor_hooks -> option hook_function) (on : handler -> QH unit)
    (call : option hook_function -> QH unit) (current : option nat) : QH unit :=
  match fuel, current with
  | S fuel', Some this =>
      match pr_objects p !! this with
      | Some h =>
          pg_try (on (qh_class h) ;;;
                  match m_previousHandler h with
                  | None => call (saved (m_originalHooks h))
                  | Some _ => st_ret tt
                  end) (callErrorOnAll (size (pr_objects p))) ;;;
          pointer_loop fuel' saved on call (m_previousHandler h)
      | None => st_ret tt
      end
  | _, _ => st_ret tt
  end.

Definition run_hook (saved : executor_hooks -> option hook_function) (on : handler -> QH unit)
    (call : option hook_function -> QH unit) : QH unit :=
  pointer_loop (size (pr_objects p)) saved on call (g_topHandler p).

(** The handlers from [current] on, and the hooks saved by the last one. *)
Inductive chain : option nat -> list handler -> executor_hooks -> Prop :=
| ChainLast this h :
    pr_objects p !! this = Some h -> m_previousHandler h = None -> chain (Some this) [qh_class h] (m_originalHooks h)
| ChainMore this h hs originals :
    pr_objects p !! this = Some h -> m_previousHandler h <> None -> chain (m_previousHandler h) hs originals ->
    chain (Some this) (qh_class h :: hs) originals.

Lemma error_loop_chain fuel current hs originals :
  chain current hs originals -> (length hs <= fuel)%nat -> error_loop fuel current = callErrorOnAllHandlers hs.
Proof.
  intros Hc. revert fuel. induction Hc as [this h Hh Hp|this h hs originals Hh Hp _ IH]; intros [|fuel] Hf; cbn in Hf; try lia; cbn.
  - rewrite Hh, Hp. by destruct fuel.
  - rewrite Hh, IH by lia. done.
Qed.

(** Following the links is walking the list. *)
Lemma pointer_loop_chain fuel saved on call current hs originals all :
  chain current hs originals -> (length hs <= fuel)%nat ->
  callErrorOnAll (size (pr_objects p)) = callErrorOnAllHandlers all ->
  pointer_loop fuel saved on call current = hook_loop all hs on (call (saved originals)).
Proof.
  intros Hc Hf Herr. revert fuel Hf. induction Hc as [this h Hh Hp|this h hs originals Hh Hp Hc IH]; intros [|fuel] Hf; cbn in Hf; try lia; cbn.
  - rewrite Hh, Hp, Herr. by destruct fuel.
  - rewrite Hh, Herr, IH by lia. destruct (m_previousHandler h); [|done]. by inversion Hc.
Qed.

End hooks.

(** ** Theorems *)

(** A process in which no handler of ours is installed. *)
Definition not_supervised (p : process) : Prop := g_topHandler p = None /\ pr_objects p = ∅.

Lemma install_handlers_eq at_ p s :
  install_handlers true at_ p s =
  (Ok ({| pr_hooks := our_hooks; g_topHandler := Some (m_timeoutQueryHandler at_);
          pr_objects := <[m_timeoutQueryHandler at_ := {| qh_class := Timeout; m_originalHooks := our_hooks;
                                                          m_previousHandler := Some (m_tuplesHandler at_) |}]>
                          (<[m_tuplesHandler at_ := {| qh_class := Tuples; m_originalHooks := pr_hooks p;
                                                       m_previousHandler := g_topHandler p |}]> (pr_objects p));
          pr_user_timeout := true |}, Some at_), set_counts (fun _ => 0) 0 s).
Proof. done. Qed.

(** C30: In a process of a limited user every executor hook runs the handlers of QueryHandlers in their
    order, and at the bottom, once, the hook of whichever library was loaded before (or the
    server's own function when there was none). *)
Theorem installed_hooks_run_the_handlers at_ p s p' g s' :
  m_tuplesHandler at_ <> m_timeoutQueryHandler at_ -> not_supervised p ->
  install_handlers true at_ p s = (Ok (p', g), s') ->
  pr_hooks p' = our_hooks /\
  forall saved on call, run_hook p' saved on call = hook on (call (saved (pr_hooks p))).
Proof.
  intros Hne [Ht Ho] E. rewrite install_handlers_eq, Ht, Ho in E. injection E as <- <- <-. split; [done|].
  intros saved on call. set (p' := {| pr_hooks := our_hooks |}).
  assert (chain p' (g_topHandler p') handlers (pr_hooks p)) as Hc.
  { eapply (ChainMore p' (m_timeoutQueryHandler at_) {| qh_class := Timeout; m_originalHooks := our_hooks; m_previousHandler := Some (m_tuplesHandler at_) |}); [apply lookup_insert_eq|done|]. cbn.
    apply (ChainLast p' (m_tuplesHandler at_) {| qh_class := Tuples; m_originalHooks := pr_hooks p; m_previousHandler := None |}); [|done]. cbn.
    rewrite lookup_insert_ne by done. apply lookup_insert_eq. }
  assert (size (pr_objects p') = 2%nat) as Hs.
  { cbn. rewrite map_size_insert_None; [rewrite map_size_insert_None; [by rewrite map_size_empty|apply lookup_empty]|].
    rewrite lookup_insert_ne by done. apply lookup_empty. }
  unfold run_hook, hook. apply (pointer_loop_chain p' _ _ _ _ _ _ _ _ Hc); [rewrite Hs; cbn; lia|].
  apply (error_loop_chain _ _ _ _ _ Hc). rewrite Hs. cbn. lia.
Qed.

(** C31: Unloading restores the hooks found at loading and the list of handlers, and leaves no timer
    running. *)
Theorem unloading_restores_the_hooks limited at_ p s p' g s' :
  m_tuplesHandler at_ <> m_timeoutQueryHandler at_ -> not_supervised p ->
  install_handlers limited at_ p s = (Ok (p', g), s') ->
  forall s1, exists p'' s2, _PG_fini g p' s1 = (Ok p'', s2) /\ pr_hooks p'' = pr_hooks p /\ not_supervised p'' /\
    (limited = true -> timer s2 = None).
Proof.
  intros Hne [Ht Ho] E s1. destruct limited.
  - rewrite install_handlers_eq, Ht, Ho in E. injection E as <- <- <-.
    eexists _, _. split; [cbn; unfold st_bind, st_ret; reflexivity|].
    unfold destroy_query_handler. cbn. rewrite lookup_insert_eq. cbn. rewrite delete_insert_id, lookup_insert_eq by (by rewrite lookup_insert_ne).
    cbn. split_and!; try done. by rewrite delete_insert_eq.
  - injection E as <- <- <-. exists p, s1. by split_and!.
Qed.

(** ** A backend with another library loaded first *)

Module HookExamples.

Definition loaded : process :=
  {| pr_hooks := {| ExecutorStart_hook := Some (OtherHook 3); ExecutorEnd_hook := None;
                    ExecutorRun_hook := Some (OtherHook 3); ExecutorFinish_hook := None |};
     g_topHandler := None; pr_objects := ∅; pr_user_timeout := false |}.

Definition at_ : query_handlers := {| m_tuplesHandler := 16; m_timeoutQueryHandler := 48 |}.

Definition backend_state : backend := SupervisorExamples.idle.

Definition supervised : process :=
  match fst (install_handlers true at_ loaded backend_state) with Ok (p, _) => p | Throw _ => loaded end.

Lemma installed_hooks_run_the_handlers_witness :
  pr_hooks supervised = our_hooks /\
  forall on call, run_hook supervised ExecutorStart_hook on call = hook on (call (Some (OtherHook 3))).
Proof.
  destruct (installed_hooks_run_the_handlers at_ loaded backend_state supervised (Some at_)
    (set_counts (fun _ => 0) 0 backend_state)) as [Hh Hr]; [done|done|done|].
  split; [exact Hh|]. intros on call. exact (Hr ExecutorStart_hook on call).
Defined.

Lemma unloading_restores_the_hooks_witness :
  exists p s, _PG_fini (Some at_) supervised backend_state = (Ok p, s) /\ pr_hooks p = pr_hooks loaded /\ timer s = None.
Proof.
  destruct (unloading_restores_the_hooks true at_ loaded backend_state supervised (Some at_)
    (set_counts (fun _ => 0) 0 backend_state)) with (s1 := backend_state) as (p & s & E & Hh & _ & Ht); [done|done|done|].
  exists p, s. by split_and!; [| |apply Ht].
Defined.

End HookExamples.
