(* ===== verification/IndexController.v ===== *)
(** * Index controller ([indexes_controler.cpp])

    Connection strings, the commands that drop and restore indexes and constraints of the
    irreversible tables, each in a transaction of its own, and the loop of the monitor
    that reconnects when its connection is lost.  The builds the monitor starts are in
    IndexBuilds, the vacuum requests in Vacuum. *)

From S2P Require Import Prelude Text Writers TransactionControllers.
From Stdlib Require Import ZArith Lia Ascii String.
From stdpp Require Import base list strings sets.

Open Scope Z_scope.
Open Scope haf_scope.

(** ** Connection strings *)

Fixpoint starts_with (p l : chars) : bool :=
  match p, l with
  | [], _ => true
  | _ :: _, [] => false
  | a :: p', b :: l' => Ascii.eqb a b && starts_with p' l'
  end.

(** [l.find( p ) != npos] *)
Fixpoint contains (p l : chars) : bool :=
  starts_with p l || match l with [] => false | _ :: l' => contains p l' end.

Definition is_uri (db_url : chars) : bool :=
  starts_with (lit "postgres://") db_url || starts_with (lit "postgresql://") db_url.

Definition QM : ascii := "?"%char.
Definition AMP : ascii := "&"%char.

Definition add_parameter (db_url kv : chars) : chars :=
  if is_uri db_url
  then db_url ++ [if contains [QM] db_url then AMP else QM] ++ kv
  else db_url ++ [SP] ++ kv.

Definition db_url_with_app (db_url app_name : chars) : chars :=
  if contains (lit "application_name=") db_url then db_url
  else add_parameter db_url (lit "application_name=" ++ app_name).

Definition is_separator (c : ascii) : bool := Ascii.eqb c QM || Ascii.eqb c AMP.

(** [regex_search( db_url, "([?&])user=[^&]*" )] *)
Fixpoint has_user (l : chars) : bool :=
  match l with
  | [] => false
  | c :: l' => (is_separator c && starts_with (lit "user=") l') || has_user l'
  end.

(** [regex_replace( db_url, "([?&])user=[^&]*", "$1" + user_kv )]; inside a match
    everything up to the next ampersand is skipped. *)
Fixpoint replace_user (user_kv : chars) (skipping : bool) (l : chars) : chars :=
  match l with
  | [] => []
  | c :: l' =>
      if skipping && negb (Ascii.eqb c AMP) then replace_user user_kv true l'
      else if is_separator c && starts_with (lit "user=") l'
      then c :: user_kv ++ replace_user user_kv true l'
      else c :: replace_user user_kv false l'
  end.

Definition db_url_as_user (db_url user : chars) : chars :=
  let user_kv := lit "user=" ++ user in
  if is_uri db_url && has_user db_url then replace_user user_kv false db_url
  else add_parameter db_url user_kv.

Definition db_url_with_hived_app (db_url : chars) : chars := db_url_with_app db_url (lit "hived_index").

Definition db_url_with_hived_app_as_haf_maintainer (db_url : chars) : chars :=
  db_url_with_hived_app (db_url_as_user db_url (lit "haf_maintainer")).

(** ** [massive_index_policy] *)

Inductive massive_index_policy := drop_all | keep_monotonic.

Definition policy_to_string (policy : massive_index_policy) : string :=
  match policy with drop_all => "drop-all" | keep_monotonic => "keep-monotonic" end.

Definition parse_massive_index_policy (name : string) : outcome string massive_index_policy :=
  if String.eqb name (policy_to_string drop_all) then Ok drop_all
  else if String.eqb name (policy_to_string keep_monotonic) then Ok keep_monotonic
  else Throw ("Unknown massive index policy: " ++ name ++ ", expected drop-all or keep-monotonic")%string.

(** ** Commands

    Every command runs in a processor with its own connection and transaction; [env_of n]
    is the server as the n-th of them sees it. *)

Inductive ic_error := CommandFailed (e : tx_error) | NoResponse.

Record commands_state := {
  cs_started : nat;                    (* processors started so far *)
  cs_checked : nat;                    (* is_interrupt_request() calls so far *)
  cs_committed : list (list chars);    (* transactions committed *)
  cs_node_killed : bool                (* a thread of a processor has called kill_node *)
}.

Definition IC (A : Type) : Type := ST commands_state ic_error A.

Section commands.
  Context (env_of : nat -> server_env) (interrupted : nat -> bool) (index_policy : massive_index_policy)
    (psql_index_threshold : Z) (missing : outcome ic_error bool) (vacuum_answer : outcome ic_error unit).

Definition is_interrupt_request : IC bool := fun s =>
  (Ok (interrupted (cs_checked s)),
   {| cs_started := cs_started s; cs_checked := S (cs_checked s); cs_committed := cs_committed s;
      cs_node_killed := cs_node_killed s |}).

Definition unless_interrupted {A} (a : A) (m : IC A) : IC A :=
  let* i := is_interrupt_request in if i then st_ret a else m.

(** [start_commit_sql] *)
Definition commit_sql_query (sql_function_call : chars) : chars := lit "SELECT " ++ sql_function_call ++ lit ";".

(** [queries_commit_data_processor] with the function of [start_commit_sql]: open a
    transaction, execute the query, commit.  What [join] gives, what was committed, and whether
    the thread of the processor asked the node to stop. *)
Definition run_processor (n : nat) (query : chars) : outcome tx_error unit * (list (list chars) * bool) :=
  let '(o, c) := run_transaction (env_of n) false [query] new_controller in
  let '(joined, killed) := thread_outcome o in (joined, (tc_committed c, killed)).

(** The processors of [calls] run together and are all joined; the first exception is
    thrown. *)
Definition run_commands (calls : list chars) : IC unit := fun s =>
  let results := imap (fun i call => run_processor (cs_started s + i) (commit_sql_query call)) calls in
  let s' := {| cs_started := cs_started s + length calls; cs_checked := cs_checked s;
               cs_committed := cs_committed s ++ concat (map (fun r => r.2.1) results);
               cs_node_killed := cs_node_killed s || existsb (fun r => r.2.2) results |} in
  match fst (join_processors (fun r => (r.1, r)) results) with
  | Ok _ => (Ok tt, s')
  | Throw e => (Throw (CommandFailed e), s')
  end.

Definition call_on (f table : string) : chars := lit f ++ lit "( 'hafd." ++ lit table ++ lit "' )".

Definition disable_indexes_depends_on_blocks (number_of_blocks_to_insert : Z) : IC unit :=
  unless_interrupted tt
    (if psql_index_threshold <? number_of_blocks_to_insert
     then run_commands [lit "hive.disable_indexes_of_irreversible( '" ++ lit (policy_to_string index_policy) ++ lit "' )"]
     else st_ret tt).

(** The answer of the vacuum is a parameter. *)
Definition vacuum_account_operations : IC unit := unless_interrupted tt (st_lift vacuum_answer).

Definition request_freeze_of_irreversible : IC unit :=
  unless_interrupted tt (run_commands [lit "hive.request_freeze_of_irreversible()"]).

(** In the order the processors are joined. *)
Definition indexed_tables : list string :=
  ["blocks"; "hive_state"; "transactions"; "transactions_multisig"; "operations"; "account_operations";
   "accounts"; "applied_hardforks"]%string.

Definition enable_indexes : IC unit :=
  unless_interrupted tt
    (let* m := st_lift missing in                        (* are_any_indexes_missing *)
     st_when m
       (run_commands (map (call_on "hive.restore_indexes") indexed_tables) ;;;
        vacuum_account_operations ;;; request_freeze_of_irreversible)).

Definition disable_constraints (number_of_blocks_to_insert : Z) : IC bool :=
  unless_interrupted false
    (if number_of_blocks_to_insert <=? psql_index_threshold then st_ret false
     else run_commands [lit "hive.disable_fk_of_irreversible()"] ;;; st_ret true).

Definition constrained_tables : list string :=
  ["hive_state"; "transactions"; "transactions_multisig"; "operations"; "account_operations"; "accounts";
   "applied_hardforks"]%string.

Definition enable_constrains : IC unit :=
  unless_interrupted tt
    (run_commands (map (call_on "hive.restore_foreign_keys") constrained_tables) ;;;
     run_commands [call_on "hive.restore_foreign_keys" "blocks"]).

End commands.

(** ** [poll_and_create_indexes] (microseconds) *)

Definition POLL_INTERVAL : Z := 10 * 1000000.
Definition MIN_RECONNECT_DELAY : Z := 1000000.
Definition MAX_RECONNECT_DELAY : Z := 60 * 1000000.

Record monitor := {
  mn_connected : bool;
  mn_interrupted_builds_reset : bool;
  mn_failing_since : option Z;
  mn_reconnect_delay : Z
}.

Definition new_monitor : monitor :=
  {| mn_connected := false; mn_interrupted_builds_reset := false; mn_failing_since := None;
     mn_reconnect_delay := MIN_RECONNECT_DELAY |}.

(** What the statements of a poll ended with; a lost connection may come before or after
    the builds of an earlier run were reset. *)
Inductive poll := Polled | Broken (builds_reset : bool).

(** One turn of the loop: the wait that follows and the next state, or the exception when
    the retry budget is exhausted. *)
Definition poll_turn (retry_budget : Z) (p : poll) (now : Z) (m : monitor) : outcome Z (Z * monitor) :=
  match p with
  | Polled =>
      Ok (POLL_INTERVAL,
          {| mn_connected := true; mn_interrupted_builds_reset := true; mn_failing_since := None;
             mn_reconnect_delay :=
               match mn_failing_since m with Some _ => MIN_RECONNECT_DELAY | None => mn_reconnect_delay m end |})
  | Broken builds_reset =>
      let failing_since := default now (mn_failing_since m) in
      if retry_budget <=? now - failing_since then Throw (now - failing_since)
      else Ok (mn_reconnect_delay m,
               {| mn_connected := false;
                  mn_interrupted_builds_reset := mn_interrupted_builds_reset m || builds_reset;
                  mn_failing_since := Some failing_since;
                  mn_reconnect_delay := Z.min (mn_reconnect_delay m + mn_reconnect_delay m) MAX_RECONNECT_DELAY |})
  end.

(** The waits of a sequence of polls. *)
Fixpoint run_polls (retry_budget : Z) (es : list (poll * Z)) (m : monitor) : outcome Z (list Z * monitor) :=
  match es with
  | [] => Ok ([], m)
  | (p, now) :: es' =>
      match poll_turn retry_budget p now m with
      | Throw t => Throw t
      | Ok (wait, m1) =>
          match run_polls retry_budget es' m1 with
          | Throw t => Throw t
          | Ok (waits, m2) => Ok (wait :: waits, m2)
          end
      end
  end.

(** [sleep_unless_interrupted]: the naps of an uninterrupted sleep when each lasts as long
    as asked. *)
Fixpoint naps (fuel : nat) (duration : Z) : list Z :=
  match fuel with
  | O => []
  | S fuel' => if duration <=? 0 then [] else Z.min 1000000 duration :: naps fuel' (duration - Z.min 1000000 duration)
  end.

(** ** Properties of connection strings *)

Definition more_params (params : list chars) : chars := concat (map (cons AMP) params).

(** A connection URI with its parameters. *)
Definition uri (base : chars) (params : list chars) : chars :=
  match params with [] => base | p :: ps => base ++ QM :: p ++ more_params ps end.

Definition plain (l : chars) : Prop := Forall (fun c => is_separator c = false) l.

Definition with_user (user p : chars) : chars := if starts_with (lit "user=") p then lit "user=" ++ user else p.

Definition set_user (user : chars) (params : list chars) : list chars :=
  if existsb (starts_with (lit "user=")) params then map (with_user user) params
  else params ++ [lit "user=" ++ user].

(** Where a parameter ends. *)
Definition ends (rest : chars) : Prop := match rest with [] => True | c :: _ => is_separator c = true end.

Lemma more_params_end ps : ends (more_params ps).
Proof. by destruct ps. Qed.

Lemma starts_with_plain k p rest : plain k -> ends rest -> starts_with k (p ++ rest) = starts_with k p.
Proof.
  intros Hk He. revert p. induction Hk as [|a k Ha _ IH]; intros [|b p]; cbn; try done; [|by rewrite IH].
  destruct rest as [|c rest]; [done|]. cbn in He. destruct (Ascii.eqb_spec a c); [congruence|done].
Qed.

Lemma user_plain : plain (lit "user=").
Proof. repeat constructor. Qed.

Lemma has_user_plain p rest : plain p -> has_user (p ++ rest) = has_user rest.
Proof. induction 1 as [|c p Hc _ IH]; [done|]. cbn. by rewrite Hc. Qed.

Lemma has_user_param c p rest :
  is_separator c = true -> plain p -> ends rest ->
  has_user (c :: p ++ rest) = starts_with (lit "user=") p || has_user rest.
Proof.
  intros Hc Hp He. cbn [has_user]. rewrite Hc, has_user_plain, starts_with_plain by (done || apply user_plain). done.
Qed.

Lemma has_user_more ps : Forall plain ps -> has_user (more_params ps) = existsb (starts_with (lit "user=")) ps.
Proof.
  induction 1 as [|p ps Hp _ IH]; [done|]. unfold more_params in *. cbn [map concat app existsb].
  rewrite has_user_param, IH; done || apply more_params_end.
Qed.

Lemma replace_plain kv p rest : plain p -> replace_user kv false (p ++ rest) = p ++ replace_user kv false rest.
Proof. induction 1 as [|c p Hc _ IH]; [done|]. cbn. by rewrite Hc, IH. Qed.

Lemma replace_skips kv p rest : plain p -> replace_user kv true (p ++ rest) = replace_user kv true rest.
Proof.
  induction 1 as [|c p Hc _ IH]; [done|]. cbn [app replace_user].
  unfold is_separator in Hc. apply orb_false_iff in Hc as [_ ->]. done.
Qed.

Lemma replace_param user c p rest :
  is_separator c = true -> plain p -> ends rest ->
  replace_user (lit "user=" ++ user) false (c :: p ++ rest) =
  c :: with_user user p ++ replace_user (lit "user=" ++ user) (starts_with (lit "user=") p) rest.
Proof.
  intros Hc Hp He. cbn [replace_user andb]. rewrite Hc, starts_with_plain by (done || apply user_plain). cbn [andb].
  unfold with_user. destruct (starts_with (lit "user=") p).
  - by rewrite replace_skips.
  - by rewrite replace_plain.
Qed.

Lemma replace_more user skipping ps :
  Forall plain ps ->
  replace_user (lit "user=" ++ user) skipping (more_params ps) = more_params (map (with_user user) ps).
Proof.
  intros H. revert skipping. induction H as [|p ps Hp _ IH]; intros skipping; [by destruct skipping|].
  unfold more_params in *. cbn [map concat app].
  assert (forall sk, replace_user (lit "user=" ++ user) sk (AMP :: p ++ concat (map (cons AMP) ps)) =
    replace_user (lit "user=" ++ user) false (AMP :: p ++ concat (map (cons AMP) ps))) as -> by (by intros []).
  by rewrite replace_param, IH; [|done|done|apply more_params_end].
Qed.

Lemma contains_qm_plain l : plain l -> contains [QM] l = false.
Proof.
  induction 1 as [|c l Hc _ IH]; [done|]. cbn [contains starts_with]. rewrite IH, andb_true_r, orb_false_r.
  unfold is_separator in Hc. apply orb_false_iff in Hc as [H _]. by rewrite Ascii.eqb_sym.
Qed.

Lemma contains_qm l1 l2 : contains [QM] (l1 ++ QM :: l2) = true.
Proof. induction l1 as [|c l1 IH]; [done|]. cbn [app contains]. rewrite IH. apply orb_true_r. Qed.

Lemma starts_with_app p l1 l2 : starts_with p l1 = true -> starts_with p (l1 ++ l2) = true.
Proof.
  revert l1. induction p as [|a p IH]; intros [|b l1]; cbn; try done. rewrite !andb_true_iff. intros [? ?]. auto.
Qed.

Lemma is_uri_app l1 l2 : is_uri l1 = true -> is_uri (l1 ++ l2) = true.
Proof. unfold is_uri. rewrite !orb_true_iff. intros [?|?]; [left|right]; by apply starts_with_app. Qed.

Lemma is_uri_uri base params : is_uri base = true -> is_uri (uri base params) = true.
Proof. intros H. destruct params; [done|]. by apply is_uri_app. Qed.

Lemma more_params_snoc ps p : more_params (ps ++ [p]) = more_params ps ++ AMP :: p.
Proof. unfold more_params. rewrite map_app, concat_app. cbn. by rewrite app_nil_r. Qed.

(** Adding a parameter. *)
Lemma add_parameter_uri base params kv :
  is_uri base = true -> plain base -> add_parameter (uri base params) kv = uri base (params ++ [kv]).
Proof.
  intros Hu Hb. unfold add_parameter. rewrite is_uri_uri by done. destruct params as [|p ps]; cbn [uri app].
  - rewrite contains_qm_plain by done. unfold more_params. cbn. by rewrite app_nil_r.
  - rewrite contains_qm, more_params_snoc, <- !app_assoc. cbn. by rewrite <- !app_assoc.
Qed.

Lemma db_url_as_user_uri base params user :
  is_uri base = true -> plain base -> Forall plain params ->
  db_url_as_user (uri base params) user = uri base (set_user user params).
Proof.
  intros Hu Hb Hp. unfold db_url_as_user, set_user. rewrite is_uri_uri by done. cbn [andb].
  assert (has_user (uri base params) = existsb (starts_with (lit "user=")) params) as ->.
  { destruct Hp as [|p ps Hp Hps]; cbn [uri].
    - rewrite <- (app_nil_r base). by rewrite has_user_plain.
    - rewrite has_user_plain, has_user_param, has_user_more by (done || apply more_params_end). done. }
  destruct (existsb _ params) eqn:E; [|by apply add_parameter_uri].
  destruct Hp as [|p ps Hp Hps]; [done|]. cbn [uri map].
  rewrite replace_plain, replace_param, replace_more by (done || apply more_params_end). done.
Qed.

(** The monitor connects with the parameters of the given URI, except that every
    [user] parameter names [haf_maintainer], one is added when there was none, and the
    application name by which its queries are found and cancelled is added unless the
    URI already has one. *)
Theorem monitor_url base params :
  is_uri base = true -> plain base -> Forall plain params ->
  let params' := set_user (lit "haf_maintainer") params in
  db_url_with_hived_app_as_haf_maintainer (uri base params) =
    uri base (params' ++ (if contains (lit "application_name=") (uri base params') then []
                          else [lit "application_name=hived_index"])) /\
  lit "user=haf_maintainer" ∈ params' /\
  Forall (fun p => starts_with (lit "user=") p = true -> p = lit "user=haf_maintainer") params'.
Proof.
  intros Hu Hb Hp params'. split_and!.
  - unfold db_url_with_hived_app_as_haf_maintainer, db_url_with_hived_app, db_url_with_app.
    rewrite db_url_as_user_uri by done. fold params'. destruct (contains _ _); [by rewrite app_nil_r|].
    by apply add_parameter_uri.
  - unfold params', set_user. destruct (existsb _ _) eqn:E; [|set_solver].
    apply existsb_exists in E as (p & Hin & Hs). apply list_elem_of_fmap. exists p.
    split; [|by apply list_elem_of_In]. unfold with_user. by rewrite Hs.
  - unfold params', set_user. destruct (existsb _ _) eqn:E.
    + apply Forall_fmap, Forall_forall. intros p _ Hs. unfold compose, with_user in *.
      destruct (starts_with (lit "user=") p) eqn:E2; [done|]. congruence.
    + apply Forall_app. split; [|by constructor]. apply Forall_forall. intros p Hin Hs.
      assert (existsb (starts_with (lit "user=")) params = true); [|congruence].
      apply existsb_exists. exists p. split; [by apply list_elem_of_In|done].
Qed.

(** ** Properties of the commands *)

Lemma policy_round_trip policy : parse_massive_index_policy (policy_to_string policy) = Ok policy.
Proof. by destruct policy. Qed.

(** A transaction of one statement survives lost connections. *)

Section one_statement.
  Context (env : server_env).

(** Nothing executed yet in the transaction that is open, if any. *)
Definition fresh (c : @controller chars) : Prop :=
  tc_committed c = [] /\ (tc_opened_tx c = None \/ tc_opened_tx c = Some (Working [])).

Lemma attempt_fresh {A} (ex : TX A) c o c' :
  fresh c -> attempt env false ex c = (o, c') ->
  (exists c1, tc_committed c1 = [] /\ tc_opened_tx c1 = Some (Working []) /\ ex c1 = (o, c')) \/
  (fresh c' /\ forall a, o <> Ok a).
Proof.
  intros [Hc Ho] E. unfold attempt in E. unfold st_bind at 1, st_get at 1 in E.
  destruct ((if tc_connected c then st_ret tt else do_reconnect env false) c) as [[[]|e] c1] eqn:E1.
  - assert (fresh c1) as [Hc1 Ho1].
    { destruct (tc_connected c); [injection E1 as <-; by split|].
      unfold do_reconnect, ask, st_bind, st_modify, st_throw, st_ret in E1.
      destruct (e_reply env _); [|discriminate..]. destruct (e_reply env _); [|discriminate..].
      injection E1 as <-. split; [done|by left]. }
    unfold st_bind in E. rewrite E1 in E. cbn [st_get] in E.
    destruct Ho1 as [Ho1|Ho1]; rewrite Ho1 in E.
    + unfold begin_work, ask, st_bind, st_modify, st_throw in E. destruct (e_reply env (tc_asked c1)) eqn:Er.
      * left. eexists. split; [|split]; [| |exact E]; done.
      * right. injection E as <- <-. split; [split; [done|by left]|done].
      * right. injection E as <- <-. split; [split; [done|by left]|done].
    + left. exists c1. by split_and!.
  - right. unfold st_bind in E. rewrite E1 in E. injection E as <- <-. split; [|done].
    destruct (tc_connected c); [discriminate|]. unfold do_reconnect, ask, st_bind, st_modify, st_throw, st_ret in E1.
    destruct (e_reply env _); [destruct (e_reply env _); [discriminate|..]|..]; injection E1 as <- <-; (split; [done|by left]).
Qed.

Lemma with_retry_fresh {A} n (ex : TX A) c a c' :
  (forall c o c', tc_committed c = [] -> ex c = (o, c') -> tc_committed c' = []) ->
  fresh c -> with_retry env false n ex c = (Ok a, c') ->
  exists c1, tc_committed c1 = [] /\ tc_opened_tx c1 = Some (Working []) /\ ex c1 = (Ok a, c').
Proof.
  intros Hex. revert c. induction n as [|n IH]; intros c Hf E; [discriminate|]. cbn [with_retry] in E.
  destruct (attempt env false ex c) as [o c1] eqn:Ea.
  destruct (attempt_fresh ex c o c1 Hf Ea) as [(c0 & Hc0 & Ho0 & E0)|[Hf1 Hno]].
  - destruct o as [a'|e]; [injection E as -> ->; by exists c0|]. destruct e; [|discriminate..].
    destruct n; [discriminate|]. destruct (e_interrupt env _); [discriminate|]. apply (IH (drop_connection c1) (conj (Hex _ _ _ Hc0 E0) (or_introl eq_refl)) E).
  - destruct o as [a'|e]; [by destruct (Hno a')|]. destruct e; [|discriminate..].
    destruct n; [discriminate|]. destruct (e_interrupt env _); [discriminate|].
    apply (IH (drop_connection c1) (conj (proj1 Hf1) (or_introl eq_refl)) E).
Qed.

Lemma exec_in_work_committed (q : chars) c o c' :
  tc_committed c = [] -> exec_in_work env q c = (o, c') -> tc_committed c' = [].
Proof.
  intros Hc. unfold exec_in_work, ask, st_bind, st_get, st_modify, st_throw.
  destruct (tc_opened_tx c) as [[pending|]|]; [|by intros [= <- <-]..].
  destruct (e_reply env _); by intros [= <- <-].
Qed.

Lemma ret_committed (c : @controller chars) (o : outcome tx_error unit) c' :
  tc_committed c = [] -> st_ret tt c = (o, c') -> tc_committed c' = [].
Proof. intros H E. unfold st_ret in E. by injection E as <- <-. Qed.

(** The statement is committed once, whatever connections were lost before the COMMIT. *)
Lemma one_statement_commits (q : chars) c :
  run_transaction env false [q] new_controller = (Ok tt, c) -> tc_committed c = [[q]].
Proof.
  unfold run_transaction. intros E. apply st_bind_inv in E as ([] & c1 & E1 & E).
  rewrite open_tx_unfold in E1 by done.
  destruct (with_retry_fresh _ _ (set_own_tx true new_controller) _ _ ret_committed (conj eq_refl (or_introl eq_refl)) E1)
    as (c1' & Hc1 & Ho1 & E1'). injection E1' as ->.
  cbn [exec_all] in E. destruct ((_ ;;; commit env) c1) as [o c2] eqn:E2. injection E as -> <-.
  apply st_bind_inv in E2 as ([] & c3 & E3 & E2). apply st_bind_inv in E3 as ([] & c4 & E4 & E3). injection E3 as ->.
  destruct (with_retry_fresh _ _ c1 tt c3 (exec_in_work_committed q) (conj Hc1 (or_intror Ho1)) E4)
    as (c5 & Hc5 & Ho5 & E5).
  assert (tc_committed c3 = [] /\ tc_opened_tx c3 = Some (Working [q])) as [Hc3 Ho3].
  { unfold exec_in_work, ask, st_bind, st_get, st_modify, st_throw in E5. rewrite Ho5 in E5.
    destruct (e_reply env _); [|discriminate..]. by injection E5 as <-. }
  unfold commit, ask, finalize_transaction, st_bind, st_get, st_modify, st_throw in E2. rewrite Ho3 in E2.
  destruct (e_reply env _); [|discriminate..]. injection E2 as <-. cbn. by rewrite Hc3.
Qed.
End one_statement.

(** What a processor joined without an exception has done: its command is committed once, or
    it was cancelled by the server, nothing is committed and the node is asked to stop. *)
Lemma run_processor_joined env_of n q r :
  run_processor env_of n q = (Ok tt, r) -> r = ([[q]], false) \/ r = ([], true).
Proof.
  unfold run_processor. destruct (run_transaction _ _ _ _) as [o c] eqn:E. destruct o as [[]|[|[]|]]; cbn; intros [= <-].
  - left. f_equal. by eapply one_statement_commits.
  - right. f_equal. by apply sql_error_commits_nothing in E.
Qed.

(** The commands of [calls] that were not cancelled. *)
Definition committed_commands (done : list bool) (calls : list chars) : list (list chars) :=
  concat (zip_with (fun (d : bool) call => if d then [[commit_sql_query call]] else []) done calls).

Lemma processors_joined env_of n calls :
  let results := imap (fun i call => run_processor env_of (n + i) (commit_sql_query call)) calls in
  Forall (fun r => r.1 = Ok tt) results ->
  exists done, length done = length calls /\ concat (map (fun r => r.2.1) results) = committed_commands done calls /\
    existsb (fun r => r.2.2) results = existsb negb done.
Proof.
  revert n. induction calls as [|call calls IH]; intros n results Hr; [by exists []|]. subst results. cbn [imap] in *.
  rewrite Nat.add_0_r in *. apply Forall_cons in Hr as [Hr Hrs].
  rewrite (imap_ext _ (fun i call => run_processor env_of (S n + i) (commit_sql_query call))) in Hrs |- *
    by (intros i x _; cbn; by rewrite Nat.add_succ_r).
  destruct (IH (S n) Hrs) as (done & Hl & Hc & Hk).
  destruct (run_processor env_of n (commit_sql_query call)) as [o r] eqn:E. cbn in Hr. subst o.
  destruct (run_processor_joined _ _ _ _ E) as [-> | ->].
  - exists (true :: done). cbn [length map concat existsb]. rewrite Hc, Hk. by rewrite Hl.
  - exists (false :: done). cbn [length map concat existsb]. rewrite Hc. by rewrite Hl.
Qed.

Lemma run_commands_joined env_of calls s s' :
  run_commands env_of calls s = (Ok tt, s') ->
  exists done, length done = length calls /\ cs_committed s' = cs_committed s ++ committed_commands done calls /\
    cs_node_killed s' = cs_node_killed s || existsb negb done.
Proof.
  unfold run_commands. set (results := imap _ calls). intros E.
  destruct (fst (join_processors (fun r => (r.1, r)) results)) as [[]|e] eqn:Ej; [|discriminate].
  injection E as <-. apply coalesce_ok in Ej.
  destruct (processors_joined env_of (cs_started s) calls Ej) as (done & Hl & Hc & Hk).
  exists done. cbn. fold results in Hc, Hk. by rewrite Hc, Hk.
Qed.

Lemma all_committed done calls :
  length done = length calls -> existsb negb done = false ->
  committed_commands done calls = map (fun call => [commit_sql_query call]) calls.
Proof.
  revert calls. induction done as [|d done IH]; intros [|call calls] Hl Hd; try done. cbn in *. destruct d; [|done].
  unfold committed_commands. cbn. f_equal. apply IH; [lia|done].
Qed.

Lemma run_commands_committed env_of calls s s' :
  run_commands env_of calls s = (Ok tt, s') -> cs_node_killed s' = false ->
  cs_committed s' = cs_committed s ++ map (fun call => [commit_sql_query call]) calls /\ cs_node_killed s = false.
Proof.
  intros E Hk. destruct (run_commands_joined _ _ _ _ E) as (done & Hl & -> & Hk'). rewrite Hk in Hk'.
  symmetry in Hk'. apply orb_false_iff in Hk' as [-> Hd]. by rewrite (all_committed done).
Qed.

(** C33: Commands started together have, when all are joined without an exception, each been
    committed at most once, whatever connections were lost while they were executed; a command
    that was not committed was cancelled by the server, which its processor keeps to itself but
    asks the node to stop.  So if the node was not asked to stop each command is committed
    exactly once. *)
Theorem commands_commit_once env_of calls s s' :
  run_commands env_of calls s = (Ok tt, s') ->
  (exists done, length done = length calls /\ cs_committed s' = cs_committed s ++ committed_commands done calls /\
     cs_node_killed s' = cs_node_killed s || existsb negb done) /\
  (cs_node_killed s' = false ->
   cs_committed s' = cs_committed s ++ map (fun call => [commit_sql_query call]) calls).
Proof. intros E. split; [by eapply run_commands_joined|]. intros Hk. by apply (run_commands_committed env_of). Qed.

(** Unless interrupted, restoring the constraints commits one command for each table
    whose indexes are restored, if the node was not asked to stop meanwhile, the one of [hafd.blocks] in a transaction after all the
    others were committed; an exception of a command stops the rest. *)
Theorem constraints_cover_indexed_tables env_of interrupted s s' :
  interrupted (cs_checked s) = false ->
  enable_constrains env_of interrupted s = (Ok tt, s') -> cs_node_killed s' = false ->
  exists tables, tables ++ ["blocks"%string] ≡ₚ indexed_tables /\
    cs_committed s' = cs_committed s ++
      map (fun t => [commit_sql_query (call_on "hive.restore_foreign_keys" t)]) (tables ++ ["blocks"%string]).
Proof.
  intros Hi E Hk. exists constrained_tables. split.
  { by apply (bool_decide_unpack _). }
  unfold enable_constrains, unless_interrupted, is_interrupt_request in E. unfold st_bind at 1 in E. rewrite Hi in E.
  apply st_bind_inv in E as ([] & s1 & E1 & E2).
  apply run_commands_committed in E2 as [E2 Hk1]; [|done]. apply run_commands_committed in E1 as [E1 _]; [|done].
  rewrite E2, E1, map_map, map_app. cbn [cs_committed]. by rewrite <- app_assoc.
Qed.

(** ** Properties of the monitor's loop *)

(** When the monitor's connection started to fail, after a sequence of polls. *)
Fixpoint failing_from (since : option Z) (es : list (poll * Z)) : option Z :=
  match es with
  | [] => since
  | (Polled, _) :: es' => failing_from None es'
  | (Broken _, now) :: es' => failing_from (Some (default now since)) es'
  end.

Lemma run_polls_cons budget p t es m :
  (exists r, run_polls budget ((p, t) :: es) m = Ok r) <->
  exists w m1, poll_turn budget p t m = Ok (w, m1) /\ exists r, run_polls budget es m1 = Ok r.
Proof.
  cbn [run_polls]. split.
  - intros [r E]. destruct (poll_turn budget p t m) as [[w m1]|]; [|done]. exists w, m1. split; [done|].
    destruct (run_polls budget es m1) as [[ws m2]|]; [by eexists|done].
  - intros (w & m1 & -> & [ws m2] & ->). by eexists.
Qed.

Lemma poll_turn_since budget p t m w m1 :
  poll_turn budget p t m = Ok (w, m1) -> mn_failing_since m1 = failing_from (mn_failing_since m) [(p, t)].
Proof. destruct p; cbn; [by intros [= <- <-]|]. destruct (budget <=? _); [done|]. by intros [= <- <-]. Qed.

Lemma failing_from_cons since e es : failing_from since (e :: es) = failing_from (failing_from since [e]) es.
Proof. by destruct e as [[|b] t]. Qed.

Lemma run_polls_ok budget es m :
  (exists r, run_polls budget es m = Ok r) <->
  forall pre b now post, es = pre ++ (Broken b, now) :: post ->
    now - default now (failing_from (mn_failing_since m) pre) < budget.
Proof.
  revert m. induction es as [|[p t] es IH]; intros m.
  { split; [|cbn; by eauto]. intros _ pre b now post E. by destruct pre. }
  rewrite run_polls_cons. split.
  - intros (w & m1 & Et & Hr) pre b now post Ep. destruct pre as [|e pre].
    + injection Ep as -> -> ->. cbn in Et |- *. destruct (Z.leb_spec budget (now - default now (mn_failing_since m))); [done|lia].
    + injection Ep as <- ->. rewrite failing_from_cons, <- (poll_turn_since _ _ _ _ _ _ Et).
      by eapply (proj1 (IH m1) Hr).
  - intros H. assert (exists w m1, poll_turn budget p t m = Ok (w, m1)) as (w & m1 & Et).
    { destruct p as [|b]; cbn; [by eauto|]. specialize (H [] b t es eq_refl). cbn in H.
      destruct (Z.leb_spec budget (t - default t (mn_failing_since m))); [lia|by eauto]. }
    exists w, m1. split; [done|]. apply IH. intros pre b now post ->.
    rewrite (poll_turn_since _ _ _ _ _ _ Et), <- failing_from_cons. by eapply (H ((p, t) :: pre)).
Qed.

(** The monitor keeps polling exactly as long as no poll fails a whole retry budget
    after the first of the failures that precede it without a success between. *)
Theorem monitor_survives_within_budget budget es :
  (exists r, run_polls budget es new_monitor = Ok r) <->
  forall pre b now post, es = pre ++ (Broken b, now) :: post ->
    now - default now (failing_from None pre) < budget.
Proof. apply (run_polls_ok budget es new_monitor). Qed.

(** The state between failures: a recovered connection starts again with the shortest
    delay. *)
Definition monitor_ok (m : monitor) : Prop :=
  MIN_RECONNECT_DELAY <= mn_reconnect_delay m <= MAX_RECONNECT_DELAY /\
  (mn_failing_since m = None -> mn_reconnect_delay m = MIN_RECONNECT_DELAY).

Lemma poll_turn_ok budget p now m w m' :
  monitor_ok m -> poll_turn budget p now m = Ok (w, m') -> monitor_ok m'.
Proof.
  intros [Hb Hn] E. unfold MIN_RECONNECT_DELAY, MAX_RECONNECT_DELAY in *. destruct p; cbn in E.
  - injection E as <- <-. split; cbn; unfold MIN_RECONNECT_DELAY, MAX_RECONNECT_DELAY;
      destruct (mn_failing_since m); [lia|lia|done|intros _; by apply Hn].
  - destruct (budget <=? _); [done|]. injection E as <- <-. split; cbn; unfold MIN_RECONNECT_DELAY, MAX_RECONNECT_DELAY; [lia|done].
Qed.

Lemma failing_waits budget times m ws m' :
  monitor_ok m ->
  run_polls budget (map (fun t => (Broken false, t)) times) m = Ok (ws, m') ->
  ws = imap (fun k _ => Z.min (mn_reconnect_delay m * 2 ^ Z.of_nat k) MAX_RECONNECT_DELAY) times.
Proof.
  revert m ws. induction times as [|t times IH]; intros m ws Hm E; cbn [map run_polls] in E.
  { by injection E as <- <-. }
  destruct (poll_turn budget (Broken false) t m) as [[w m1]|] eqn:Et; [|done].
  destruct (run_polls budget _ m1) as [[ws1 m2]|] eqn:Er; [|done]. injection E as <- <-.
  pose proof (poll_turn_ok _ _ _ _ _ _ Hm Et) as Hm1. rewrite (IH m1 ws1 Hm1 Er).
  cbn in Et. destruct (budget <=? _); [done|]. injection Et as <- <-. cbn [imap mn_reconnect_delay].
  f_equal; [destruct Hm; lia|]. apply imap_ext. intros k x _. cbn -[Z.pow Z.of_nat].
  replace (Z.of_nat (S k)) with (1 + Z.of_nat k) by lia. rewrite Z.pow_add_r by lia.
  assert (1 <= 2 ^ Z.of_nat k) by (apply (Z.pow_le_mono_r 2 0); lia). destruct Hm as [Hb _]. unfold MIN_RECONNECT_DELAY, MAX_RECONNECT_DELAY in *.
  set (y := 2 ^ Z.of_nat k) in *. set (d := mn_reconnect_delay m) in *.
  destruct (Z.min_spec (d + d) (60 * 1000000)) as [[H1 ->]|[H1 ->]]; [f_equal; ring|].
  rewrite !Z.min_r by nia. done.
Qed.

(** After any sequence of polls that ended with a working connection, the waits of
    consecutive failures are 1, 2, 4, 8, 16, 32 seconds and then always a minute. *)
Theorem reconnect_waits_double budget es ws m times ws' m' :
  run_polls budget es new_monitor = Ok (ws, m) -> mn_failing_since m = None ->
  run_polls budget (map (fun t => (Broken false, t)) times) m = Ok (ws', m') ->
  ws' = imap (fun k _ => 1000000 * Z.min (2 ^ Z.of_nat k) 60) times.
Proof.
  intros E Hf E'.
  assert (monitor_ok m) as Hm.
  { assert (monitor_ok new_monitor) as H0 by (split; [by vm_compute|done]).
    revert H0 ws E. generalize new_monitor. induction es as [|[p t] es IH]; intros m0 H0 ws E; cbn [run_polls] in E.
    { by injection E as <- <-. }
    destruct (poll_turn budget p t m0) as [[w m1]|] eqn:Et; [|done].
    destruct (run_polls budget es m1) as [[ws1 m2]|] eqn:Er; [|done]. injection E as <- <-.
    eapply (IH m1); [by eapply poll_turn_ok|done]. }
  rewrite (failing_waits _ _ _ _ _ Hm E'). destruct Hm as [_ Hd]. rewrite (Hd Hf).
  apply imap_ext. intros k x _. unfold MIN_RECONNECT_DELAY, MAX_RECONNECT_DELAY. generalize (2 ^ Z.of_nat k). lia.
Qed.

Lemma naps_sum duration fuel :
  0 <= duration <= Z.of_nat fuel * 1000000 ->
  foldr Z.add 0 (naps fuel duration) = duration /\ Forall (fun d => 0 < d <= 1000000) (naps fuel duration).
Proof.
  revert duration. induction fuel as [|fuel IH]; intros duration Hd; cbn [naps]; [split; [cbn; lia|constructor]|].
  destruct (Z.leb_spec duration 0); [split; [cbn; lia|constructor]|].
  destruct (IH (duration - Z.min 1000000 duration)) as [H1 H2]; [lia|]. cbn [foldr]. rewrite H1.
  split; [lia|]. constructor; [lia|done].
Qed.

(** ** Examples *)

Module ControllerUrlExamples.

Definition base : chars := lit "postgresql://haf@localhost/haf_block_log".

Lemma monitor_url_witness :
  db_url_with_hived_app_as_haf_maintainer (lit "postgresql://haf@localhost/haf_block_log?user=joe&sslmode=off") =
    lit "postgresql://haf@localhost/haf_block_log?user=haf_maintainer&sslmode=off&application_name=hived_index".
Proof.
  destruct (monitor_url base [lit "user=joe"; lit "sslmode=off"]) as (H & _ & _).
  - vm_compute. reflexivity.
  - apply (bool_decide_unpack _). vm_compute. exact I.
  - apply (bool_decide_unpack _). vm_compute. exact I.
  - etransitivity; [etransitivity; [|exact H]|]; vm_compute; reflexivity.
Defined.

(** The connection is lost while the statement is executed. *)
Definition flaky : server_env := {| e_reply := fun n => if bool_decide (n = 3%nat) then Lost true else Done; e_interrupt := fun _ => false |}.

Definition idle : commands_state := {| cs_started := 0; cs_checked := 0; cs_committed := []; cs_node_killed := false |}.

Lemma commands_commit_once_witness :
  exists s', run_commands (fun _ => flaky) [lit "f()"; lit "g()"] idle = (Ok tt, s') /\
    cs_committed s' = [[lit "SELECT f();"]; [lit "SELECT g();"]].
Proof.
  destruct (run_commands (fun _ => flaky) [lit "f()"; lit "g()"] idle) as [o s'] eqn:E. exists s'.
  assert (o = Ok tt) as -> by (vm_compute in E; congruence).
  split; [reflexivity|]. rewrite (proj2 (commands_commit_once (fun _ => flaky) _ idle s' E)); vm_compute in E; injection E as <-; reflexivity.
Defined.

Lemma constraints_cover_indexed_tables_witness :
  exists s', enable_constrains (fun _ => flaky) (fun _ => false) idle = (Ok tt, s') /\
    length (cs_committed s') = 8%nat.
Proof.
  destruct (enable_constrains (fun _ => flaky) (fun _ => false) idle) as [o s'] eqn:E. exists s'.
  assert (o = Ok tt) as -> by (vm_compute in E; congruence).
  split; [reflexivity|].
  destruct (constraints_cover_indexed_tables (fun _ => flaky) (fun _ => false) idle s' eq_refl E) as (tables & Hp & ->);
    [vm_compute in E; by injection E as <-|]. cbn. rewrite length_map, Hp. reflexivity.
Defined.

Lemma reconnect_waits_double_witness :
  run_polls (100 * 1000000) [(Broken false, 0); (Polled, 1000000)] new_monitor =
    Ok ([1000000; 10000000],
        {| mn_connected := true; mn_interrupted_builds_reset := true; mn_failing_since := None; mn_reconnect_delay := 1000000 |}) /\
  exists m', run_polls (100 * 1000000) (map (fun t => (Broken false, t)) [1; 2; 3])
    {| mn_connected := true; mn_interrupted_builds_reset := true; mn_failing_since := None; mn_reconnect_delay := 1000000 |} =
    Ok ([1000000; 2000000; 4000000], m').
Proof.
  split; [reflexivity|].
  destruct (run_polls (100 * 1000000) (map (fun t => (Broken false, t)) [1; 2; 3])
    {| mn_connected := true; mn_interrupted_builds_reset := true; mn_failing_since := None; mn_reconnect_delay := 1000000 |})
    as [[ws m']|] eqn:E; [|vm_compute in E; discriminate].
  exists m'. rewrite (reconnect_waits_double (100 * 1000000) [(Broken false, 0); (Polled, 1000000)] [1000000; 10000000] _
    [1; 2; 3] ws m' eq_refl eq_refl E). reflexivity.
Defined.

End ControllerUrlExamples.
