(* ===== verification/Plugin.v ===== *)
(** * Life of the serializer plugin ([sql_serializer.cpp])

    Options, the checks of the database, construction, the notifications of the chain that
    are not about the content of a block, and shutdown.  The indexation state, the
    write-ahead log and the processors with a connection are the ones of the other files.

    A processor of this file runs one transaction; [env_of n] is the server as the n-th of
    them sees it.  What its queries return at startup is a record of [answers]. *)

From S2P Require Import Prelude Text CachedData IndexationState WriteAheadLog.
From S2P Require Import WalRecovery TransactionControllers IndexController Serializer.
From Stdlib Require Import ZArith Lia Ascii String.
From stdpp Require Import base list strings.

Open Scope Z_scope.
Open Scope haf_scope.

(** ** Options *)

Record options := {
  o_psql_url : option chars;
  o_index_threshold : Z;
  o_massive_index_policy : string;
  o_index_monitor_retry_budget : Z;
  o_operations_threads_number : Z;
  o_transactions_threads_number : Z;
  o_account_operations_threads_number : Z;
  o_enable_account_operations_dump : bool;
  o_force_open_inconsistent : bool;
  o_livesync_threshold : Z;
  o_enable_filter : bool;
  o_first_block : Z;
  o_wal_directory : option chars;
  o_wal_queue_depth : Z;
  o_prune_blocks : Z;
  o_lite_mode : bool;
  o_lite_schema : bool;
  o_force_replay : option bool;                     (* of the chain plugin *)
  o_replay_blockchain : bool
}.

(** The values [set_program_options] gives to options that are not set. *)
Definition set_program_options (DEFAULT_INDEX_MONITOR_RETRY_BUDGET : Z) : options := {|
  o_psql_url := None;
  o_index_threshold := 20000000;
  o_massive_index_policy := "drop-all";
  o_index_monitor_retry_budget := DEFAULT_INDEX_MONITOR_RETRY_BUDGET;
  o_operations_threads_number := 5;
  o_transactions_threads_number := 2;
  o_account_operations_threads_number := 2;
  o_enable_account_operations_dump := true;
  o_force_open_inconsistent := false;
  o_livesync_threshold := 0;
  o_enable_filter := true;
  o_first_block := 1;
  o_wal_directory := None;
  o_wal_queue_depth := 200;
  o_prune_blocks := 0;
  o_lite_mode := false;
  o_lite_schema := false;
  o_force_replay := None;
  o_replay_blockchain := false
|}.

(** [boost::filesystem::path] *)
Definition is_relative (p : chars) : bool := match p with c :: _ => negb (Ascii.eqb c "/") | [] => true end.
Definition append_path (p q : chars) : chars := p ++ lit "/" ++ q.

Definition wal_directory_of (data_dir : chars) (o : options) : chars :=
  match o_wal_directory o with
  | None => append_path (append_path data_dir (lit "blockchain")) (lit "haf_wal")
  | Some wal_dir_option =>
      if is_relative wal_dir_option then append_path data_dir wal_dir_option else wal_dir_option
  end.

Definition replay_blocklog_of (o : options) : bool :=
  o_replay_blockchain o || default false (o_force_replay o).

(** ** Processors *)

Inductive plugin_error :=
| UrlRequired                                       (* "`psql-url` is required argument" *)
| FirstBlockLessThanOne
| InvalidDatabase                                   (* "SQL database is in invalid state" *)
| UnknownPolicy (msg : string)
| ProcessorFailed (e : tx_error)
| WalFailed (e : wal_error)
| IndexationFailed (e : is_error)
| FailedToStart (cause : plugin_error).             (* hive::chain::plugin_exception *)

Record processors := {
  pr_started : nat;
  pr_committed : list (list chars);                 (* the transactions committed *)
  pr_node_killed : bool                             (* a thread has called kill_node *)
}.

(** What the server answers to the questions of startup. *)
Record answers := {
  a_extension : bool;                               (* a row of pg_extension *)
  a_irreversible_dirty : list bool;                 (* rows of hive.is_irreversible_dirty() *)
  a_operation_types : bool;                         (* a row of hafd.operation_types *)
  a_max_block : option Z;                           (* the row of the last block *)
  a_interrupted : bool; a_psql_head : Z;            (* of the indexation state *)
  a_sync_state : string
}.

Section processors.
  Context (env_of : nat -> server_env).

(** The function of a processor executes the statements; [ok] is false when an assertion on
    their results fails, before the commit. *)
Definition transaction_of (env : server_env) (statements : list chars) (ok : bool) : TX unit :=
  open_tx env false ;;;
  (fun c => let '(r, c1) := (exec_all env false statements ;;;
                             (if ok then commit env else st_throw AssertFailed)) c in
            (r, (rollback c1).2)).

(** Whether the function gets to the answers to its statements. *)
Definition function_ran (env : server_env) (statements : list chars) : bool :=
  match (open_tx env false ;;; exec_all env false statements) new_controller with (Ok _, _) => true | (Throw _, _) => false end.

(** [trigger] and [join] of a [queries_commit_data_processor]: true when the function has seen
    the answers.  A statement cancelled by the server ends the thread, asks the node to stop and
    does not make [join] throw. *)
Definition run_function (statements : list chars) (ok : bool) : ST processors plugin_error bool := fun s =>
  let env := env_of (pr_started s) in
  let '(r, c) := transaction_of env statements ok new_controller in
  let '(joined, killed) := thread_outcome r in
  let s' := {| pr_started := S (pr_started s); pr_committed := pr_committed s ++ tc_committed c;
               pr_node_killed := pr_node_killed s || killed |} in
  match joined with Ok _ => (Ok (function_ran env statements), s') | Throw e => (Throw (ProcessorFailed e), s') end.

Definition extension_query : chars := lit "select 1 as _result from pg_extension where extname='hive_fork_manager';".
Definition initialize_query : chars := lit "SELECT hive.initialize_extension_data();".
Definition dirty_query : chars := lit "select hive.is_irreversible_dirty() as _result;".

Definition is_database_correct (a : answers) (force_open_inconsistant : bool) : ST processors plugin_error bool :=
  let* ran := run_function [extension_query] true in
  let is_extension_created := ran && a_extension a in
  if negb is_extension_created then st_ret false
  else
    let* ran := run_function [initialize_query; dirty_query] (length (a_irreversible_dirty a) =? 1)%nat in
    let is_irreversible_dirty := ran && default false (a_irreversible_dirty a !! 0%nat) in
    st_ret (negb is_irreversible_dirty || force_open_inconsistant).

Definition operation_types_query : chars := lit "select 1 from hafd.operation_types limit 1".

Definition is_database_initialized (a : answers) : ST processors plugin_error bool :=
  let* ran := run_function [operation_types_query] true in st_ret (ran && a_operation_types a).

Definition max_block_query : chars :=
  lit "SELECT hb.num AS _max_block FROM hafd.blocks hb ORDER BY hb.num DESC LIMIT 1;".

(** The number of the last block in the database; [custom_json_cache_query] is the query of
    [custom_json_type_cache::load_from_db]. *)
Definition load_initial_db_data (custom_json_cache_query : chars) (a : answers) : ST processors plugin_error Z :=
  let* ran := run_function [max_block_query] true in
  run_function [custom_json_cache_query] true ;;;
  st_ret (if ran then u32 (default 0 (a_max_block a)) else 0).

End processors.

(** ** Types of operations ([sql_serializer_objects.hpp]) *)

Definition SQL_bool (val : bool) : chars := if val then lit "TRUE" else lit "FALSE".

Definition type_definition (d : Z * (chars * bool)) : chars :=
  lit "( " ++ dec d.1 ++ lit " , '" ++ d.2.1 ++ lit "', " ++ SQL_bool d.2.2 ++ lit " )".

Fixpoint type_definitions (l : list (Z * (chars * bool))) : chars :=
  match l with
  | [] => []
  | [d] => type_definition d
  | d :: l' => type_definition d ++ lit "," ++ type_definitions l'
  end.

Definition get_all_type_definitions (result : list (Z * (chars * bool))) : chars :=
  match result with
  | [] => []
  | _ => lit "INSERT INTO hafd.operation_types VALUES " ++ type_definitions result
         ++ lit " ON CONFLICT DO NOTHING"
  end.

(** ** The plugin *)

(** The connections to the signals of the chain. *)
Inductive signal :=
| on_pre_apply_operation_con
| on_pre_apply_block_con_initialization
| on_finished_reindex_con | on_starting_reindex_con
| on_end_of_syncing_con
| on_switch_fork_conn
| on_pre_apply_block_con_unblock_operations
| on_post_apply_block_con_block_operations
| on_block_failed_con.

#[global] Instance signal_dec : EqDecision signal.
Proof. solve_decision. Defined.

(** In the order of [connect_signals]. *)
Definition all_signals : list signal :=
  [on_pre_apply_operation_con; on_pre_apply_block_con_initialization; on_finished_reindex_con;
   on_starting_reindex_con; on_end_of_syncing_con; on_switch_fork_conn;
   on_pre_apply_block_con_unblock_operations; on_post_apply_block_con_block_operations;
   on_block_failed_con].

Record settings := {
  db_url : chars;
  psql_operations_threads_number : Z;
  psql_transactions_threads_number : Z;
  psql_account_operations_threads_number : Z;
  psql_index_threshold : Z;
  psql_first_block : Z;
  psql_pruning_tail_size : Z;
  psql_dump_account_operations : bool;
  lite_mode : bool;
  lite_schema : bool;
  filter_enabled : bool;
  replay_blocklog : bool;
  massive_policy : massive_index_policy;
  livesync_threshold : Z;
  index_monitor_retry_budget : Z;
  wal_queue_depth : Z;
  wal_directory : chars
}.

Definition settings_of (data_dir url : chars) (policy : massive_index_policy) (o : options) : settings := {|
  db_url := url;
  psql_operations_threads_number := o_operations_threads_number o;
  psql_transactions_threads_number := o_transactions_threads_number o;
  psql_account_operations_threads_number := o_account_operations_threads_number o;
  psql_index_threshold := o_index_threshold o;
  psql_first_block := o_first_block o;
  psql_pruning_tail_size := o_prune_blocks o;
  psql_dump_account_operations := o_enable_account_operations_dump o;
  lite_mode := o_lite_mode o || o_lite_schema o;
  lite_schema := o_lite_schema o;
  filter_enabled := o_enable_filter o;
  replay_blocklog := replay_blocklog_of o;
  massive_policy := policy;
  livesync_threshold := o_livesync_threshold o;
  index_monitor_retry_budget := o_index_monitor_retry_budget o;
  wal_queue_depth := o_wal_queue_depth o;
  wal_directory := wal_directory_of data_dir o
|}.

Section plugin.
  Context {operation : Type}.
  Context (env_of : nat -> server_env) (sql_ok : list stmt -> chars -> bool).
  Context (is_env : environment).
  Context (git_revision_sha : chars) (custom_json_cache_query : chars).
  Context (operation_details : list (Z * (chars * bool))).

Record plugin := {
  pl_settings : settings;
  pl_config : is_config;
  pl_indexation : @istate operation;
  pl_processors : processors;
  pl_wal : wal_world;
  pl_wal_database : database;                       (* what replaying the log changes *)
  pl_last_block_num : Z;
  pl_psql_block_number : Z;
  pl_is_database_initialized : bool;
  pl_is_hfm_informed_about_starting : bool;
  pl_accounts_dumped : list Z;                      (* threads of each dump of all accounts *)
  pl_signals : list signal                          (* connected *)
}.

Definition PL (A : Type) : Type := ST plugin plugin_error A.

Definition set_indexation (i : istate) (p : plugin) : plugin :=
  {| pl_settings := pl_settings p; pl_config := pl_config p; pl_indexation := i;
     pl_processors := pl_processors p; pl_wal := pl_wal p; pl_wal_database := pl_wal_database p;
     pl_last_block_num := pl_last_block_num p; pl_psql_block_number := pl_psql_block_number p;
     pl_is_database_initialized := pl_is_database_initialized p;
     pl_is_hfm_informed_about_starting := pl_is_hfm_informed_about_starting p;
     pl_accounts_dumped := pl_accounts_dumped p; pl_signals := pl_signals p |}.

(** What the handlers below change besides the indexation state. *)
Definition set_progress (pr : processors) (db : database) (initialized informed : bool) (dumped : list Z)
    (signals : list signal) (p : plugin) : plugin :=
  {| pl_settings := pl_settings p; pl_config := pl_config p; pl_indexation := pl_indexation p;
     pl_processors := pr; pl_wal := pl_wal p; pl_wal_database := db;
     pl_last_block_num := pl_last_block_num p; pl_psql_block_number := pl_psql_block_number p;
     pl_is_database_initialized := initialized; pl_is_hfm_informed_about_starting := informed;
     pl_accounts_dumped := dumped; pl_signals := signals |}.

Definition set_processors (pr : processors) (p : plugin) : plugin :=
  set_progress pr (pl_wal_database p) (pl_is_database_initialized p)
    (pl_is_hfm_informed_about_starting p) (pl_accounts_dumped p) (pl_signals p) p.
Definition set_wal_database (db : database) (p : plugin) : plugin :=
  set_progress (pl_processors p) db (pl_is_database_initialized p)
    (pl_is_hfm_informed_about_starting p) (pl_accounts_dumped p) (pl_signals p) p.
Definition set_is_database_initialized (b : bool) (p : plugin) : plugin :=
  set_progress (pl_processors p) (pl_wal_database p) b
    (pl_is_hfm_informed_about_starting p) (pl_accounts_dumped p) (pl_signals p) p.
Definition set_is_hfm_informed_about_starting (b : bool) (p : plugin) : plugin :=
  set_progress (pl_processors p) (pl_wal_database p) (pl_is_database_initialized p) b
    (pl_accounts_dumped p) (pl_signals p) p.
Definition add_accounts_dump (threads : Z) (p : plugin) : plugin :=
  set_progress (pl_processors p) (pl_wal_database p) (pl_is_database_initialized p)
    (pl_is_hfm_informed_about_starting p) (pl_accounts_dumped p ++ [threads]) (pl_signals p) p.
Definition set_signals (l : list signal) (p : plugin) : plugin :=
  set_progress (pl_processors p) (pl_wal_database p) (pl_is_database_initialized p)
    (pl_is_hfm_informed_about_starting p) (pl_accounts_dumped p) l p.

(** A call of the indexation state, on [*currently_caching_data]. *)
Definition with_indexation {A} (m : IS A) : PL A := fun p =>
  match m (pl_indexation p) with
  | (Ok a, i) => (Ok a, set_indexation i p)
  | (Throw e, i) => (Throw (IndexationFailed e), set_indexation i p)
  end.

Definition processor (statements : list chars) : PL unit := fun p =>
  match run_function env_of statements true (pl_processors p) with
  | (Ok _, pr) => (Ok tt, set_processors pr p)
  | (Throw e, pr) => (Throw e, set_processors pr p)
  end.

(** *** Construction *)

Definition connect_signals : PL unit := st_modify (set_signals all_signals).

(** [hive::utilities::disconnect_signal] *)
Definition disconnect_signal (s : signal) : PL unit :=
  st_modify (fun p => set_signals (filter (fun x => x <> s) (pl_signals p)) p).

Fixpoint disconnect_all (l : list signal) : PL unit :=
  match l with [] => st_ret tt | s :: l' => disconnect_signal s ;;; disconnect_all l' end.

(** In the order of [disconnect_signals]. *)
Definition disconnect_signals : PL unit :=
  disconnect_all
    [on_pre_apply_block_con_initialization; on_pre_apply_operation_con; on_starting_reindex_con;
     on_finished_reindex_con; on_end_of_syncing_con; on_switch_fork_conn;
     on_pre_apply_block_con_unblock_operations; on_post_apply_block_con_block_operations;
     on_block_failed_con].

(** The constructor of [sql_serializer_plugin_impl]: the members, then the two questions. *)
Definition construct_plugin (st : settings) (a : answers) (w : wal_world) (db : database) :
    ST processors plugin_error plugin :=
  let* initialized := is_database_initialized env_of a in
  let* block_number := load_initial_db_data env_of custom_json_cache_query a in
  let* pr := st_get in
  st_ret {| pl_settings := st;
            pl_config := {| cfg_livesync_threshold := livesync_threshold st;
                            cfg_first_block := psql_first_block st;
                            cfg_pruning_tail_size := psql_pruning_tail_size st;
                            cfg_lite_mode := lite_mode st;
                            cfg_prior_massive_sync_interrupted := a_interrupted a;
                            cfg_psql_head_at_startup := a_psql_head a |};
            pl_indexation := construct (a_sync_state a);
            pl_processors := pr; pl_wal := w; pl_wal_database := db;
            pl_last_block_num := block_number; pl_psql_block_number := block_number;
            pl_is_database_initialized := initialized;
            pl_is_hfm_informed_about_starting := false;
            pl_accounts_dumped := []; pl_signals := [] |}.

(** [write_ahead_log.open] and [connect_signals], on the constructed plugin. *)
Definition open_wal (is_directory writeable : bool) (opens : string -> bool) : PL unit := fun p =>
  match wal_open is_directory writeable opens (pl_wal p) with
  | (Ok _, w) =>
      (Ok tt, {| pl_settings := pl_settings p; pl_config := pl_config p; pl_indexation := pl_indexation p;
                 pl_processors := pl_processors p; pl_wal := w; pl_wal_database := pl_wal_database p;
                 pl_last_block_num := pl_last_block_num p; pl_psql_block_number := pl_psql_block_number p;
                 pl_is_database_initialized := pl_is_database_initialized p;
                 pl_is_hfm_informed_about_starting := pl_is_hfm_informed_about_starting p;
                 pl_accounts_dumped := pl_accounts_dumped p; pl_signals := pl_signals p |})
  | (Throw e, _) => (Throw (WalFailed e), p)
  end.

Definition plugin_initialize (data_dir : chars) (o : options) (a : answers) (w : wal_world) (db : database)
    (is_directory writeable : bool) (opens : string -> bool) : ST processors plugin_error plugin :=
  match o_psql_url o with
  | None => st_throw UrlRequired
  | Some url =>
      st_assert (0 <? o_first_block o) FirstBlockLessThanOne ;;;
      let* correct := is_database_correct env_of a (o_force_open_inconsistent o) in
      st_assert correct InvalidDatabase ;;;
      match parse_massive_index_policy (o_massive_index_policy o) with
      | Throw msg => st_throw (UnknownPolicy msg)
      | Ok policy =>
          let* p := construct_plugin (settings_of data_dir url policy o) a w db in
          match (open_wal is_directory writeable opens ;;; connect_signals) p with
          | (Ok _, p') => st_ret p'
          | (Throw e, _) => st_throw e
          end
      end
  end.

Definition plugin_shutdown : PL unit := disconnect_signals.

(** The destructor. *)
Definition destroy_plugin : PL unit := fun p =>
  with_indexation (flush_all_cached_data (pl_config p) (pl_last_block_num p)) p.

(** *** The first block *)

Definition SQL_BOOLEAN (b : bool) : chars := SQL_bool b ++ lit "::BOOLEAN".

Definition CONNECT_QUERY (head_block_num : Z) (st : settings) : chars :=
  lit "SELECT hive.connect('" ++ git_revision_sha ++ lit "'," ++ dec head_block_num ++ lit "::INTEGER"
  ++ lit "," ++ dec (psql_first_block st) ++ lit "::INTEGER"
  ++ lit "," ++ dec (psql_pruning_tail_size st) ++ lit "::INTEGER"
  ++ lit "," ++ SQL_BOOLEAN (lite_mode st) ++ lit "," ++ SQL_BOOLEAN (lite_schema st) ++ lit ")".

Definition inform_hfm_about_starting (head_block_num : Z) : PL unit :=
  let* p := st_get in processor [CONNECT_QUERY head_block_num (pl_settings p)].

Definition replay_wal : PL unit := fun p =>
  match replay_wal_if_necessary sql_ok (pl_wal p) (pl_wal_database p) with
  | (Ok _, db) => (Ok tt, set_wal_database db p)
  | (Throw e, db) => (Throw (WalFailed e), set_wal_database db p)
  end.

(** The handlers of the [try] block: an [fc::exception] or a [std::exception]. *)
Definition rethrow_as_plugin_exception (m : PL unit) : PL unit := fun p =>
  match m p with (Throw e, p') => (Throw (FailedToStart e), p') | r => r end.

Definition init_database : PL unit :=
  let* p := st_get in
  let st := pl_settings p in
  st_when (1 <? psql_first_block st)
    (st_modify (add_accounts_dump (u32 (psql_operations_threads_number st
       + psql_transactions_threads_number st + psql_account_operations_threads_number st)))) ;;;
  (let types := get_all_type_definitions operation_details in
   processor (match types with [] => [] | _ => [types] end)) ;;;
  st_modify (set_is_database_initialized true).

Definition initialize_db : PL unit := init_database.

Definition can_collect_blocks : PL bool := with_indexation collect_blocks.

(** [need_initialize_database]; the state is asked only when the block does not decide. *)
Definition need_initialize (block_num : Z) : PL bool :=
  let* p := st_get in
  if need_initialize_database (pl_is_database_initialized p) (psql_first_block (pl_settings p)) block_num false
  then st_ret true
  else if pl_is_database_initialized p then st_ret false
  else can_collect_blocks.

Definition initialize_if_needed (block_num : Z) : PL unit :=
  let* need := need_initialize block_num in st_when need initialize_db.

Definition on_pre_apply_block (head_block_num block_num : Z) : PL unit :=
  let* p := st_get in
  st_when (negb (pl_is_hfm_informed_about_starting p))
    (rethrow_as_plugin_exception (replay_wal ;;; inform_hfm_about_starting head_block_num) ;;;
     st_modify (set_is_hfm_informed_about_starting true)) ;;;
  with_indexation (IndexationState.on_block (pl_config p) is_env block_num) ;;;
  initialize_if_needed block_num ;;;
  let* collect := can_collect_blocks in
  st_when collect (disconnect_signal on_pre_apply_block_con_initialization).

(** *** Reindex and end of synchronisation *)

Definition on_pre_reindex_notification (stop_replay_at : Z) : PL unit :=
  let* p := st_get in
  if negb (stop_replay_at =? 0) then
    with_indexation (on_pre_reindex (pl_config p) is_env (i32 (pl_last_block_num p))
      (u32 (stop_replay_at - pl_last_block_num p)))
  else
    with_indexation (on_pre_reindex (pl_config p) is_env (i32 (pl_last_block_num p)) 0).

Definition on_post_reindex_notification (stop_replay_at : Z) : PL unit :=
  let* p := st_get in
  with_indexation (on_post_reindex (pl_config p) is_env (pl_last_block_num p) stop_replay_at).

Definition on_end_of_syncing_notification : PL unit :=
  let* p := st_get in
  with_indexation (on_end_of_syncing (pl_config p) is_env (pl_last_block_num p)) ;;;
  initialize_if_needed (pl_last_block_num p).

Definition on_switch_fork_notification (block_num : Z) : PL unit :=
  let* p := st_get in with_indexation (on_switch_fork (pl_config p) block_num).

End plugin.

(** ** The number of blocks of a reindex *)

(** The length of the reindex that the plugin computes from the block to stop at changes
    nothing: the state entered forgets it, and the first block asks for another estimate. *)
Theorem reindex_length_is_ignored {operation} cfg env n k k' (s : @istate operation) :
  on_pre_reindex cfg env n k s = on_pre_reindex cfg env n k' s.
Proof. done. Qed.

(** ** Startup *)

Section startup.
  Context {operation : Type}.
  Context (env_of : nat -> server_env) (custom_json_cache_query : chars).

Lemma transaction_checked env qs c : transaction_of env qs false new_controller <> (Ok tt, c).
Proof.
  intros E. unfold transaction_of in E. apply st_bind_inv in E as ([] & c1 & _ & E).
  destruct ((_ ;;; _) c1) as [o c2] eqn:E2. injection E as -> <-.
  apply st_bind_inv in E2 as ([] & c3 & _ & E2). discriminate.
Qed.

Lemma refused_commits_nothing env qs ok cancelled c :
  transaction_of env qs ok new_controller = (Throw (SqlError cancelled), c) -> tc_committed c = [].
Proof.
  destruct ok; [exact (sql_error_commits_nothing env false qs new_controller cancelled c)|]. unfold transaction_of, st_bind at 1.
  destruct (open_tx env false new_controller) as [[[]|e] c1] eqn:E1;
    pose proof (open_tx_keeps _ _ _ _ _ E1) as K1; [|intros [= _ <-]; by rewrite K1].
  unfold st_bind. destruct (exec_all env false qs c1) as [[[]|e] c2] eqn:E2; intros [= _ <-]; cbn;
    by rewrite (exec_all_keeps _ _ _ _ _ _ E2), K1.
Qed.

(** A processor that is joined without an exception has committed what its function did, or
    nothing when a statement was cancelled, and then the node is asked to stop. *)
Lemma run_function_joined qs ok s ran s' :
  run_function env_of qs ok s = (Ok ran, s') ->
  pr_started s' = S (pr_started s) /\
  ((ok = true /\ ran = true /\ pr_node_killed s' = pr_node_killed s /\
    exists c, run_transaction (env_of (pr_started s)) false qs new_controller = (Ok tt, c) /\
      pr_committed s' = pr_committed s ++ tc_committed c) \/
   (pr_node_killed s' = true /\ pr_committed s' = pr_committed s)).
Proof.
  unfold run_function. destruct (transaction_of _ _ _ _) as [r c] eqn:E.
  destruct r as [[]|[|[]|]]; cbn [thread_outcome]; intros [= <- <-]; (split; [done|]); cbn.
  - left. destruct ok; [|by destruct (transaction_checked _ _ _ E)]. split_and!; [done| |by rewrite orb_false_r|by exists c].
    unfold function_ran. unfold transaction_of in E. apply st_bind_inv in E as ([] & c1 & E1 & E).
    destruct ((_ ;;; _) c1) as [o c2] eqn:E2. injection E as -> <-. apply st_bind_inv in E2 as ([] & c3 & E3 & _).
    by rewrite (st_bind_ok _ _ _ _ _ E1), E3.
  - right. rewrite orb_true_r. split; [done|]. by rewrite (refused_commits_nothing _ _ _ _ _ E), app_nil_r.
Qed.

Lemma run_function_one q s ran s' :
  run_function env_of [q] true s = (Ok ran, s') ->
  (ran = true /\ pr_node_killed s' = pr_node_killed s /\ pr_committed s' = pr_committed s ++ [[q]]) \/
  (pr_node_killed s' = true /\ pr_committed s' = pr_committed s).
Proof.
  intros E. destruct (run_function_joined _ _ _ _ _ E) as (_ & [(_ & Hr & Hk & c & Ec & Hc)|H]); [left|by right].
  split_and!; [done..|]. rewrite Hc. f_equal. by eapply one_statement_commits.
Qed.

(** The node is not spared once it was asked to stop. *)
Lemma run_function_killed qs ok s r s' :
  run_function env_of qs ok s = (r, s') -> pr_node_killed s = true -> pr_node_killed s' = true.
Proof.
  unfold run_function. destruct (transaction_of _ _ _ _) as [o c]. destruct (thread_outcome o) as [[] k];
    intros [= <- <-] Hk; cbn; by rewrite Hk.
Qed.

Lemma run_function_ran qs ok s ran s' :
  run_function env_of qs ok s = (Ok ran, s') -> pr_node_killed s' = false ->
  ok = true /\ ran = true /\ pr_node_killed s = false.
Proof.
  intros E Hk. destruct (run_function_joined _ _ _ _ _ E) as (_ & [(Ho & Hr & Hk' & _)|[Hk' _]]); [|congruence].
  split_and!; [done..|congruence].
Qed.

(** A server that does what it is asked. *)
Definition working : Prop := forall n k, e_reply (env_of n) k = Done.

Lemma run_function_working qs s :
  working -> run_function env_of qs true s
  = (Ok true, {| pr_started := S (pr_started s); pr_committed := pr_committed s ++ [qs]; pr_node_killed := pr_node_killed s |}).
Proof.
  intros W. unfold run_function, transaction_of, function_ran. set (env := env_of (pr_started s)).
  assert (forall k, e_reply env k = Done) as Hd by (intros; apply W).
  destruct (open_tx_done env false (query := chars) new_controller) as (c1 & E1 & Hw & O & K & A); [done|done|done|].
  destruct (exec_all_done env false qs c1 [] Hw) as (c2 & E2 & Hw2 & O2 & K2 & A2); [done|].
  destruct (commit_done env c2 qs Hw2 (Hd _)) as (c3 & E3 & Ho3 & K3).
  rewrite !(st_bind_ok _ _ _ _ _ E1), (st_bind_ok _ _ _ _ _ E2), E2, E3. cbn.
  by rewrite K3, K2, K, orb_false_r.
Qed.

(** What startup requires. *)
Definition acceptable (o : options) (a : answers) : bool :=
  bool_decide (is_Some (o_psql_url o)) && (0 <? o_first_block o) && a_extension a
  && match a_irreversible_dirty a with
     | [dirty] => negb dirty || o_force_open_inconsistent o
     | _ => false
     end
  && match parse_massive_index_policy (o_massive_index_policy o) with Ok _ => true | Throw _ => false end.

(** A plugin that has just started: nothing sent to the fork manager, every handler connected. *)
Record just_started (o : options) (a : answers) (p : @plugin operation) : Prop := {
  js_signals : pl_signals p = all_signals;
  js_informed : pl_is_hfm_informed_about_starting p = false;
  js_initialized : pl_is_database_initialized p = a_operation_types a;
  js_last_block : pl_last_block_num p = u32 (default 0 (a_max_block a));
  js_lite : lite_mode (pl_settings p) = o_lite_mode o || o_lite_schema o;
  js_same_config : cfg_first_block (pl_config p) = psql_first_block (pl_settings p)
                   /\ cfg_lite_mode (pl_config p) = lite_mode (pl_settings p);
  js_first_block : 0 < psql_first_block (pl_settings p);
  js_state : state_is START (pl_indexation p);
  js_accounts : pl_accounts_dumped p = []
}.

Lemma is_database_correct_ok a force s s' :
  is_database_correct env_of a force s = (Ok true, s') -> pr_node_killed s' = false ->
  a_extension a = true /\ exists dirty, a_irreversible_dirty a = [dirty] /\ negb dirty || force = true.
Proof.
  unfold is_database_correct. intros E Hk. apply st_bind_inv in E as (ran & s1 & E1 & E).
  destruct (ran && a_extension a) eqn:Hx; cbn [negb] in E; [|discriminate]. apply andb_true_iff in Hx as [_ Hx].
  split; [done|]. apply st_bind_inv in E as (ran2 & s2 & E2 & E). injection E as E ->.
  apply run_function_ran in E2 as (Ho & -> & _); [|done].
  destruct (a_irreversible_dirty a) as [|d [|]]; [done| |done]. by exists d.
Qed.

(** The two questions of the constructor, when no statement was cancelled. *)
Lemma construct_plugin_ok st a w db s p s' :
  construct_plugin (operation := operation) env_of custom_json_cache_query st a w db s = (Ok p, s') ->
  pr_node_killed s' = false ->
  pr_node_killed s = false /\ pl_is_database_initialized p = a_operation_types a /\
  pl_last_block_num p = u32 (default 0 (a_max_block a)) /\ pl_settings p = st /\ pl_signals p = [] /\
  pl_is_hfm_informed_about_starting p = false /\ pl_accounts_dumped p = [] /\
  cfg_first_block (pl_config p) = psql_first_block st /\ cfg_lite_mode (pl_config p) = lite_mode st /\
  state_is START (pl_indexation p).
Proof.
  unfold construct_plugin. intros E Hk. apply st_bind_inv in E as (i & s1 & Ei & E).
  apply st_bind_inv in E as (n & s2 & En & E). apply st_bind_inv in E as (pr & s3 & Eg & E). injection Eg as <- <-.
  injection E as <- <-.
  unfold load_initial_db_data in En. apply st_bind_inv in En as (r1 & t1 & E1 & En).
  apply st_bind_inv in En as (r2 & t2 & E2 & En). injection En as <- <-.
  apply run_function_ran in E2 as (_ & _ & K2); [|done]. apply run_function_ran in E1 as (_ & -> & K1); [|done].
  unfold is_database_initialized in Ei. apply st_bind_inv in Ei as (r3 & t3 & E3 & Ei). injection Ei as <- ->.
  apply run_function_ran in E3 as (_ & -> & K3); [|done]. split_and!; cbn; try done. split; [done|by left].
Qed.

Lemma plugin_initialize_ok data_dir o a w db d wr op s p s' :
  plugin_initialize (operation := operation) env_of custom_json_cache_query data_dir o a w db d wr op s = (Ok p, s') ->
  pr_node_killed s' = false -> acceptable o a = true /\ just_started o a p.
Proof.
  unfold plugin_initialize, acceptable. destruct (o_psql_url o) as [url|]; [|discriminate].
  intros E Hk. apply st_bind_inv in E as ([] & s1 & E1 & E).
  unfold st_assert in E1. destruct (Z.ltb_spec 0 (o_first_block o)) as [Hf|]; [|discriminate].
  apply st_bind_inv in E as (correct & s2 & E2 & E). apply st_bind_inv in E as ([] & s3 & E3 & E).
  unfold st_assert in E3. destruct correct; [|discriminate]. injection E3 as <-.
  destruct (parse_massive_index_policy _) as [policy|]; [|discriminate].
  apply st_bind_inv in E as (p0 & s4 & E4 & E).
  destruct ((open_wal d wr op ;;; connect_signals) p0) as [[[]|] p1] eqn:E5; [|discriminate].
  injection E as -> ->. destruct (construct_plugin_ok _ _ _ _ _ _ _ E4 Hk) as (Hk2 & H1 & H2 & H3 & H4 & H5 & H6 & H7 & H8 & H9).
  apply is_database_correct_ok in E2 as (-> & dirty & -> & Hd); [|done]. rewrite Hd.
  split; [by rewrite bool_decide_eq_true_2|]. apply st_bind_inv in E5 as ([] & p2 & E5 & E6). injection E6 as <-.
  unfold open_wal in E5. destruct (wal_open d wr op (pl_wal p0)) as [[[]|] w1]; [|discriminate].
  injection E5 as <-. constructor; cbn; rewrite ?H3, ?H7, ?H8; done.
Qed.

(** The transactions of a start that succeeds, one per processor. *)
Definition startup_transactions : list (list chars) :=
  [[extension_query]; [initialize_query; dirty_query]; [operation_types_query]; [max_block_query];
   [custom_json_cache_query]].

Lemma plugin_initialize_total data_dir o a w db d wr op s w' :
  working -> wal_open d wr op w = (Ok tt, w') -> acceptable o a = true ->
  exists p s', plugin_initialize (operation := operation) env_of custom_json_cache_query data_dir o a w db d wr op s
    = (Ok p, s') /\ pr_committed s' = pr_committed s ++ startup_transactions.
Proof.
  intros W Hw. unfold acceptable. rewrite !andb_true_iff. intros ((((Hu & Hf) & He) & Hd) & Hp).
  apply bool_decide_eq_true_1 in Hu as [url Hu]. unfold plugin_initialize. rewrite Hu, Hf.
  destruct (parse_massive_index_policy _) as [policy|]; [|done].
  destruct (a_irreversible_dirty a) as [|dirty [|]] eqn:Ea; [done| |done].
  unfold is_database_correct, construct_plugin, is_database_initialized, load_initial_db_data, open_wal.
  rewrite He, Ea. unfold st_assert, st_bind, st_ret, st_get, connect_signals, st_modify. cbn [negb length Nat.eqb].
  rewrite run_function_working by done. cbn [negb andb].
  rewrite run_function_working by done. cbn [lookup list_lookup default andb].
  replace (negb _ || _) with true. rewrite !run_function_working by done. cbn [pl_wal]. rewrite Hw.
  eexists _, _. split; [reflexivity|]. cbn. by rewrite <- !app_assoc.
Qed.

End startup.

(** The plugin starts exactly when a URL and a first block are given, the extension
    exists, the irreversible data are consistent or opening them was forced, and the index
    policy is known: a start that succeeds without the node being asked to stop satisfies all of them and leaves every handler
    connected, the state machine in START and the fork manager not yet informed; and with a
    working server and log directory the requirements are enough. *)
Theorem startup_decides {operation} env_of cj data_dir o a w db d wr op s :
  (forall p s', plugin_initialize (operation := operation) env_of cj data_dir o a w db d wr op s = (Ok p, s') ->
     pr_node_killed s' = false -> acceptable o a = true /\ just_started o a p) /\
  (forall w', working env_of -> wal_open d wr op w = (Ok tt, w') -> acceptable o a = true ->
     exists p s', plugin_initialize (operation := operation) env_of cj data_dir o a w db d wr op s = (Ok p, s') /\
       pr_committed s' = pr_committed s ++ startup_transactions cj).
Proof. split; intros *; [apply plugin_initialize_ok|apply plugin_initialize_total]. Qed.

(** ** The first block *)

Section first_block.
  Context {operation : Type}.
  Context (env_of : nat -> server_env) (sql_ok : list stmt -> chars -> bool) (is_env : environment).
  Context (git_revision_sha : chars) (operation_details : list (Z * (chars * bool))).

  Abbreviation plugin := (@plugin operation).
  Abbreviation pre_apply := (on_pre_apply_block (operation := operation) env_of sql_ok is_env git_revision_sha operation_details).
  Abbreviation connect := (CONNECT_QUERY git_revision_sha).

(** What a start that was refused leaves as it was. *)
Record untouched (p p' : plugin) : Prop := {
  u_indexation : pl_indexation p' = pl_indexation p;
  u_signals : pl_signals p' = pl_signals p;
  u_initialized : pl_is_database_initialized p' = pl_is_database_initialized p;
  u_informed : pl_is_hfm_informed_about_starting p' = pl_is_hfm_informed_about_starting p;
  u_accounts : pl_accounts_dumped p' = pl_accounts_dumped p;
  u_settings : pl_settings p' = pl_settings p
}.

(** A processor of the plugin. *)
Lemma processor_joined q (p p' : plugin) :
  processor env_of [q] p = (Ok tt, p') ->
  exists pr, p' = set_processors pr p /\
    ((pr_node_killed pr = pr_node_killed (pl_processors p) /\ pr_committed pr = pr_committed (pl_processors p) ++ [[q]]) \/
     (pr_node_killed pr = true /\ pr_committed pr = pr_committed (pl_processors p))).
Proof.
  unfold processor. destruct (run_function _ _ _ _) as [[ran|e] pr] eqn:E; [|done]. intros [= <-]. exists pr. split; [done|].
  apply run_function_one in E as [(_ & Hk & Hc)|H]; [left|right]; done.
Qed.

(** What the transaction that informs leaves: it is committed, or it was cancelled and the node is
    asked to stop. *)
Definition informed_by (h : Z) (p p' : plugin) : Prop :=
  exists sent : bool, pr_committed (pl_processors p') = pr_committed (pl_processors p)
    ++ (if sent then [[connect h (pl_settings p)]] else []) /\
  (sent = false -> pr_node_killed (pl_processors p') = true) /\
  (pr_node_killed (pl_processors p) = true -> pr_node_killed (pl_processors p') = true).

(** Starting: the log is replayed, then the fork manager is informed. *)
Lemma start_ok h p p' :
  (replay_wal sql_ok ;;; inform_hfm_about_starting env_of git_revision_sha h) p = (Ok tt, p') ->
  untouched p p' /\ informed_by h p p' /\
  exists db, replay_wal_if_necessary sql_ok (pl_wal p) (pl_wal_database p) = (Ok tt, db) /\ pl_wal_database p' = db.
Proof.
  intros E. apply st_bind_inv in E as ([] & p1 & E1 & E). unfold replay_wal in E1.
  destruct (replay_wal_if_necessary _ _ _) as [[[]|] db] eqn:Hr; [|discriminate]. injection E1 as <-.
  unfold inform_hfm_about_starting, st_bind at 1, st_get at 1 in E. apply processor_joined in E as (pr & -> & H).
  cbn in H |- *. split_and!; [by constructor| |by exists db].
  destruct H as [[Hk Hc]|[Hk Hc]]; [exists true|exists false]; cbn; rewrite ?Hk, ?Hc, ?app_nil_r; by split_and!.
Qed.

(** When the start throws the fork manager was asked only if the log was replayed. *)
Definition start_failed (p p' : plugin) : Prop :=
  (exists e, replay_wal_if_necessary sql_ok (pl_wal p) (pl_wal_database p) = (Throw e, pl_wal_database p') /\
     pl_processors p' = pl_processors p) \/
  (replay_wal_if_necessary sql_ok (pl_wal p) (pl_wal_database p) = (Ok tt, pl_wal_database p') /\
   pr_started (pl_processors p') = S (pr_started (pl_processors p))).

Lemma start_throws h p e p' :
  (replay_wal sql_ok ;;; inform_hfm_about_starting env_of git_revision_sha h) p = (Throw e, p') ->
  untouched p p' /\ start_failed p p'.
Proof.
  unfold st_bind, replay_wal. destruct (replay_wal_if_necessary _ _ _) as [[[]|e'] db] eqn:Hr.
  - unfold inform_hfm_about_starting, processor, st_bind, st_get. unfold run_function.
    destruct (transaction_of _ _ _ _) as [r c]. destruct (thread_outcome r) as [[] k]; intros [= _ <-].
    split; [by constructor|]. right. by split.
  - intros [= _ <-]. split; [by constructor|]. left. by exists e'.
Qed.

(** The calls that can follow keep the flag. *)
Definition keeps_informed {A} (m : @PL operation A) : Prop :=
  forall p r p', m p = (r, p') ->
    pl_is_hfm_informed_about_starting p' = pl_is_hfm_informed_about_starting p /\ pl_settings p' = pl_settings p /\
    (exists l, pr_committed (pl_processors p') = pr_committed (pl_processors p) ++ l) /\
    (pl_wal_database p' = pl_wal_database p /\
     (pr_node_killed (pl_processors p) = true -> pr_node_killed (pl_processors p') = true)) /\
    forall e, r <> Throw (FailedToStart e).

Lemma keeps_bind {A B} (m : @PL operation A) (k : A -> @PL operation B) :
  keeps_informed m -> (forall a, keeps_informed (k a)) -> keeps_informed (st_bind m k).
Proof.
  intros Hm Hk p r p'. unfold st_bind. destruct (m p) as [[a|e] p1] eqn:E1.
  - intros E2. destruct (Hm _ _ _ E1) as (I1 & S1 & (l1 & L1) & (W1 & K1) & _).
    destruct (Hk a _ _ _ E2) as (I2 & S2 & (l2 & L2) & (W2 & K2) & N2). split_and!; try congruence; try done; [|auto].
    exists (l1 ++ l2). by rewrite L2, L1, app_assoc.
  - intros [= <- <-]. destruct (Hm _ _ _ E1) as (I1 & S1 & L1 & W1 & N1). split_and!; try done; [apply W1..|].
    intros e' [= ->]. by apply (N1 e').
Qed.

Lemma keeps_when b (m : @PL operation unit) : keeps_informed m -> keeps_informed (st_when b m).
Proof. intros Hm. destruct b; [done|]. intros p r p' [= <- <-]. split_and!; try done. exists []. by rewrite app_nil_r. Qed.

Lemma keeps_get : keeps_informed (st_get (S := plugin)).
Proof. intros p r p' [= <- <-]. split_and!; try done. exists []. by rewrite app_nil_r. Qed.

Lemma keeps_ret {A} (a : A) : keeps_informed (st_ret a).
Proof. intros p r p' [= <- <-]. split_and!; try done. exists []. by rewrite app_nil_r. Qed.

Lemma keeps_indexation {A} (m : IS A) : keeps_informed (with_indexation m).
Proof.
  intros p r p'. unfold with_indexation. destruct (m (pl_indexation p)) as [[a|e] i]; intros [= <- <-];
    (split_and!; try done; exists []; by rewrite app_nil_r).
Qed.

Lemma run_function_grows qs s r s' :
  run_function env_of qs true s = (r, s') -> exists l, pr_committed s' = pr_committed s ++ l.
Proof.
  unfold run_function. destruct (transaction_of _ _ _ _) as [o c]. destruct (thread_outcome o) as [[] k];
    intros [= <- <-]; by eexists.
Qed.

Lemma keeps_processor qs : keeps_informed (processor env_of qs).
Proof.
  intros p r p'. unfold processor. destruct (run_function _ _ _ _) as [r1 pr] eqn:E.
  pose proof (run_function_grows _ _ _ _ E) as G. pose proof (run_function_killed _ _ _ _ _ _ E) as K.
  destruct r1 as [ran|e]; intros [= <- <-]; (split_and!; try done).
  intros e' [= ->]. unfold run_function in E. destruct (transaction_of _ _ _ _) as [o c].
  destruct (thread_outcome o) as [[] k]; discriminate.
Qed.

Lemma keeps_modify (f : plugin -> plugin) :
  (forall p, pl_is_hfm_informed_about_starting (f p) = pl_is_hfm_informed_about_starting p /\
     pl_settings (f p) = pl_settings p /\ pl_processors (f p) = pl_processors p /\
     pl_wal_database (f p) = pl_wal_database p) -> keeps_informed (st_modify f).
Proof.
  intros Hf p r p' [= <- <-]. destruct (Hf p) as (I & S & C & W). split_and!; try done; [|by rewrite C].
  exists []. by rewrite C, app_nil_r.
Qed.

Lemma keeps_init : keeps_informed (init_database env_of operation_details).
Proof.
  unfold init_database. apply keeps_bind; [apply keeps_get|]. intros p.
  apply keeps_bind; [apply keeps_when, keeps_modify; done|]. intros _.
  apply keeps_bind; [apply keeps_processor|]. intros _. by apply keeps_modify.
Qed.

Lemma keeps_initialize_if_needed n : keeps_informed (initialize_if_needed env_of operation_details n).
Proof.
  unfold initialize_if_needed, need_initialize.
  apply keeps_bind; [|intros; apply keeps_when, keeps_init].
  apply keeps_bind; [apply keeps_get|]. intros p. case_match; [apply keeps_ret|].
  case_match; [apply keeps_ret|]. apply keeps_indexation.
Qed.

(** What [on_pre_apply_block] does once the fork manager is informed. *)
Definition process_block (cfg : is_config) (n : Z) : @PL operation unit :=
  with_indexation (IndexationState.on_block cfg is_env n) ;;;
  initialize_if_needed env_of operation_details n ;;;
  let* collect := can_collect_blocks in
  st_when collect (disconnect_signal on_pre_apply_block_con_initialization).

Lemma keeps_process_block cfg n : keeps_informed (process_block cfg n).
Proof.
  apply keeps_bind; [apply keeps_indexation|]. intros _.
  apply keeps_bind; [apply keeps_initialize_if_needed|]. intros _.
  apply keeps_bind; [apply keeps_indexation|]. intros b. apply keeps_when. by apply keeps_modify.
Qed.


(** ** Sequences of notifications *)

Inductive notification :=
| NPreApplyBlock (head_block_num block_num : Z)
| NPreReindex (stop_replay_at : Z)
| NPostReindex (stop_replay_at : Z)
| NEndOfSyncing
| NSwitchFork (block_num : Z).

Definition signal_of (x : notification) : signal :=
  match x with
  | NPreApplyBlock _ _ => on_pre_apply_block_con_initialization
  | NPreReindex _ => on_starting_reindex_con
  | NPostReindex _ => on_finished_reindex_con
  | NEndOfSyncing => on_end_of_syncing_con
  | NSwitchFork _ => on_switch_fork_conn
  end.

Definition handle (x : notification) : @PL operation unit :=
  match x with
  | NPreApplyBlock h n => pre_apply h n
  | NPreReindex stop => on_pre_reindex_notification is_env stop
  | NPostReindex stop => on_post_reindex_notification is_env stop
  | NEndOfSyncing => on_end_of_syncing_notification env_of is_env operation_details
  | NSwitchFork n => on_switch_fork_notification n
  end.

(** A notification reaches a handler that is connected; the handlers of the content of a
    block change the indexation state and its cache only. *)
Inductive delivered : plugin -> list (outcome plugin_error unit) -> plugin -> Prop :=
| DeliveredNil p : delivered p [] p
| DeliveredHandled p x r p1 l p2 :
    signal_of x ∈ pl_signals p -> handle x p = (r, p1) -> delivered p1 l p2 -> delivered p (r :: l) p2
| DeliveredMissed p x l p2 :
    signal_of x ∉ pl_signals p -> delivered p l p2 -> delivered p l p2
| DeliveredContent p i l p2 :
    delivered (set_indexation i p) l p2 -> delivered p l p2.

Definition types_transaction : list chars := [get_all_type_definitions operation_details].

Definition dump_threads (st : settings) : Z :=
  u32 (psql_operations_threads_number st + psql_transactions_threads_number st
       + psql_account_operations_threads_number st).

(** What initialising the database adds to the plugin's history, if it was done. *)
Record initialized_by (done : bool) (p p' : plugin) : Prop := {
  ib_initialized : pl_is_database_initialized p' = pl_is_database_initialized p || done;
  ib_fresh : done = true -> pl_is_database_initialized p = false;
  ib_killed : pr_node_killed (pl_processors p) = true -> pr_node_killed (pl_processors p') = true;
  ib_committed : pr_node_killed (pl_processors p') = false ->
    pr_committed (pl_processors p') = pr_committed (pl_processors p) ++ (if done then [types_transaction] else []);
  ib_accounts : pl_accounts_dumped p' = pl_accounts_dumped p ++
    (if done && (1 <? psql_first_block (pl_settings p)) then [dump_threads (pl_settings p)] else []);
  ib_settings : pl_settings p' = pl_settings p;
  ib_informed : pl_is_hfm_informed_about_starting p' = pl_is_hfm_informed_about_starting p;
  ib_signals : pl_signals p' = pl_signals p
}.

Lemma initialized_by_false p : initialized_by false p p.
Proof. constructor; rewrite ?orb_false_r, ?app_nil_r; done. Qed.

Lemma types_not_empty : operation_details <> [] -> exists c t, get_all_type_definitions operation_details = c :: t.
Proof. unfold get_all_type_definitions. destruct operation_details; [done|]. intros _. cbn. eauto. Qed.

Lemma init_database_ok p p' :
  operation_details <> [] -> pl_is_database_initialized p = false ->
  init_database env_of operation_details p = (Ok tt, p') ->
  initialized_by true p p' /\ pl_indexation p' = pl_indexation p.
Proof.
  intros Hne Hi E. destruct (types_not_empty Hne) as (c & t & Ht).
  unfold init_database in E. apply st_bind_inv in E as (p0 & p1 & E0 & E). injection E0 as <- <-.
  apply st_bind_inv in E as ([] & p1 & E1 & E). rewrite Ht in E.
  apply st_bind_inv in E as ([] & p2 & E2 & E). injection E as <-.
  apply processor_joined in E2 as (pr & -> & H).
  assert (pr_node_killed pr = false -> pr_committed pr = pr_committed (pl_processors p1) ++ [types_transaction]) as Hc.
  { intros Hk. unfold types_transaction. rewrite Ht. destruct H as [[_ ->]|[Hk' _]]; [done|congruence]. }
  assert (pr_node_killed (pl_processors p1) = true -> pr_node_killed pr = true) as Hk.
  { intros Hp. destruct H as [[-> _]|[-> _]]; done. }
  destruct (Z.ltb_spec 1 (psql_first_block (pl_settings p))) as [Hf|Hf]; cbn [st_when] in E1;
    injection E1 as <-; (split; [|done]); constructor; cbn; try done; rewrite ?Hi; try done.
  - by rewrite (proj2 (Z.ltb_lt _ _) Hf).
  - by rewrite (proj2 (Z.ltb_ge _ _) Hf), app_nil_r.
Qed.

Lemma collect_blocks_stable (i i1 : @istate operation) b :
  collect_blocks i = (Ok b, i1) -> collect_blocks i1 = (Ok b, i1).
Proof.
  unfold collect_blocks, get_state, st_bind, st_get, st_ret, st_modify, st_throw.
  destruct (is_cached_state_value i) as [st|] eqn:Hc.
  - intros [= <- <-]. by rewrite Hc.
  - destruct (string_to_enum _) as [st|]; [|done]. by intros [= <- <-].
Qed.

Lemma can_collect_ok (p : plugin) b p' :
  can_collect_blocks p = (Ok b, p') ->
  exists i, p' = set_indexation i p /\ collect_blocks (pl_indexation p) = (Ok b, i).
Proof.
  unfold can_collect_blocks, with_indexation. destruct (collect_blocks (pl_indexation p)) as [[x|] i]; [|done].
  intros [= <- <-]. by exists i.
Qed.

(** After it the database is initialised, or the state does not collect blocks. *)
Lemma initialize_if_needed_ok n (p p' : plugin) :
  operation_details <> [] ->
  initialize_if_needed env_of operation_details n p = (Ok tt, p') ->
  exists done, initialized_by done p p' /\
    (pl_is_database_initialized p' = true \/ collect_blocks (pl_indexation p') = (Ok false, pl_indexation p')).
Proof.
  intros Hne E. unfold initialize_if_needed in E. apply st_bind_inv in E as (need & p1 & E1 & E).
  unfold need_initialize in E1. apply st_bind_inv in E1 as (q & q' & E0 & E1). injection E0 as <- <-.
  destruct (pl_is_database_initialized p) eqn:Hi.
  { cbn in E1. injection E1 as <- <-. injection E as <-. exists false. split; [apply initialized_by_false|by left]. }
  destruct (need_initialize_database _ _ _ _).
  - injection E1 as <- <-. cbn [st_when] in E. destruct (init_database_ok _ _ Hne Hi E) as [B _].
    exists true. split; [done|]. left. by rewrite (ib_initialized _ _ _ B), orb_true_r.
  - apply can_collect_ok in E1 as (i & -> & Hc). destruct need; cbn [st_when] in E.
    + destruct (init_database_ok (set_indexation i p) _ Hne Hi E) as [B _]. exists true.
      split; [by destruct B; constructor|]. left. by rewrite (ib_initialized _ _ _ B), orb_true_r.
    + injection E as <-. exists false. split; [constructor; cbn; rewrite ?orb_false_r, ?app_nil_r; done|].
      right. by eapply collect_blocks_stable.
Qed.

Lemma initialized_by_indexation done (p p' : plugin) i j :
  initialized_by done p p' -> initialized_by done (set_indexation i p) (set_indexation j p').
Proof. intros []; by constructor. Qed.

(** *** What failing handlers keep too *)

Definition respects (R : plugin -> plugin -> Prop) {A} (m : @PL operation A) : Prop :=
  forall p r p', m p = (r, p') -> R p p'.

Lemma respects_bind R `{!PreOrder R} {A B} (m : @PL operation A) (k : A -> @PL operation B) :
  respects R m -> (forall a, respects R (k a)) -> respects R (st_bind m k).
Proof.
  intros Hm Hk p r p'. unfold st_bind. destruct (m p) as [[a|e] p1] eqn:E1.
  - intros E2. transitivity p1; [by eapply Hm|by eapply Hk].
  - intros [= <- <-]. by eapply Hm.
Qed.

Lemma respects_refl R `{!PreOrder R} {A} (f : plugin -> outcome plugin_error A) : respects R (fun p => (f p, p)).
Proof. intros p r p' [= <- <-]. reflexivity. Qed.

Lemma respects_when R `{!PreOrder R} b (m : @PL operation unit) : respects R m -> respects R (st_when b m).
Proof. destruct b; [done|]. intros _. apply (respects_refl R (fun _ => Ok tt)). Qed.

(** Flags are not taken back and no handler is disconnected. *)
Definition progress (p p' : plugin) : Prop :=
  (pl_is_database_initialized p = true -> pl_is_database_initialized p' = true) /\
  (pl_is_hfm_informed_about_starting p = true -> pl_is_hfm_informed_about_starting p' = true) /\
  pl_signals p' = pl_signals p.

#[local] Instance progress_preorder : PreOrder progress.
Proof. split; [done|]. intros p q r (A1 & B1 & C1) (A2 & B2 & C2). split_and!; [auto|auto|congruence]. Qed.

Lemma progress_indexation {A} (m : IS A) : respects progress (with_indexation m).
Proof. intros p r p'. unfold with_indexation. destruct (m _) as [[]]; intros [= <- <-]; done. Qed.

Lemma progress_get : respects progress st_get.
Proof. by intros p r p' [= <- <-]. Qed.

Lemma progress_init : respects progress (init_database env_of operation_details).
Proof.
  unfold init_database. apply (respects_bind progress); [apply progress_get|]. intros p0.
  apply (respects_bind progress); [apply (respects_when progress); by intros p r p' [= <- <-]|]. intros _.
  apply (respects_bind progress); [|intros _; by intros p r p' [= <- <-]].
  intros p r p'. unfold processor. destruct (run_function _ _ _ _) as [[]]; by intros [= <- <-].
Qed.

Lemma progress_initialize_if_needed n : respects progress (initialize_if_needed env_of operation_details n).
Proof.
  unfold initialize_if_needed, need_initialize.
  apply (respects_bind progress); [|intros; apply (respects_when progress), progress_init].
  apply (respects_bind progress); [apply progress_get|]. intros p0.
  case_match; [by intros p r p' [= <- <-]|]. case_match; [by intros p r p' [= <- <-]|]. apply progress_indexation.
Qed.

Lemma progress_other x :
  (forall h n, x <> NPreApplyBlock h n) -> respects progress (handle x).
Proof.
  intros Hx. destruct x as [h n| | | |]; [by destruct (Hx h n)|..]; cbn [handle];
    (apply (respects_bind progress); [apply progress_get|]); intros p0.
  - case_match; apply progress_indexation.
  - apply progress_indexation.
  - apply (respects_bind progress); [apply progress_indexation|]. intros _. apply progress_initialize_if_needed.
  - apply progress_indexation.
Qed.

(** The handler of the first block is left connected, or both flags are set. *)
Definition prepared (p : plugin) : Prop :=
  on_pre_apply_block_con_initialization ∈ pl_signals p \/
  (pl_is_database_initialized p = true /\ pl_is_hfm_informed_about_starting p = true).

Lemma process_block_prepared cfg n p r p' :
  operation_details <> [] -> pl_is_hfm_informed_about_starting p = true ->
  on_pre_apply_block_con_initialization ∈ pl_signals p ->
  process_block cfg n p = (r, p') -> prepared p'.
Proof.
  intros Hne Hi Hs E. unfold process_block, st_bind in E.
  destruct (with_indexation _ p) as [[[]|e] p1] eqn:E1;
    destruct (progress_indexation _ _ _ _ E1) as (A1 & B1 & C1); [|injection E as <- <-; left; congruence].
  destruct (initialize_if_needed _ _ _ p1) as [[[]|e] p2] eqn:E2;
    destruct (progress_initialize_if_needed _ _ _ _ E2) as (A2 & B2 & C2); [|injection E as <- <-; left; congruence].
  destruct (can_collect_blocks p2) as [[collect|e] p3] eqn:E3;
    destruct (progress_indexation _ _ _ _ E3) as (A3 & B3 & C3); [|injection E as <- <-; left; congruence].
  destruct collect; cbn in E; injection E as <- <-; [|left; congruence].
  destruct (initialize_if_needed_ok _ _ _ Hne E2) as (done & B & [Hd|Hd]); [right; cbn; auto|].
  apply can_collect_ok in E3 as (i & _ & Hc). rewrite Hd in Hc. discriminate.
Qed.

Lemma handle_prepared x p r p' :
  operation_details <> [] -> prepared p -> signal_of x ∈ pl_signals p -> handle x p = (r, p') -> prepared p'.
Proof.
  intros Hne Hp Hx E. assert ((forall h n, x <> NPreApplyBlock h n) -> prepared p') as Hother.
  { intros Hno. destruct (progress_other x Hno _ _ _ E) as (A & B & C).
    destruct Hp as [Hs|[]]; [left; congruence|right; auto]. }
  destruct x as [h n| | | |]; [clear Hother|by apply Hother..].
  cbn [handle signal_of] in E, Hx. unfold on_pre_apply_block in E. rewrite (st_bind_ok _ _ _ _ _ (eq_refl : st_get p = (Ok p, p))) in E.
  destruct (pl_is_hfm_informed_about_starting p) eqn:Hi; cbn [negb st_when] in E.
  - eapply process_block_prepared; [done|done|done|exact E].
  - unfold st_bind at 1 2 in E. unfold rethrow_as_plugin_exception in E.
    destruct ((replay_wal sql_ok ;;; _) p) as [[[]|e] p1] eqn:E1.
    + apply start_ok in E1 as (U & _). cbn in E. eapply process_block_prepared; [done| | |exact E]; [done|].
      cbn. by rewrite (u_signals _ _ U).
    + injection E as <- <-. left. destruct (start_throws _ _ _ _ E1) as [U _]. by rewrite (u_signals _ _ U).
Qed.

Lemma delivered_prepared p rs p' :
  operation_details <> [] -> prepared p -> delivered p rs p' -> prepared p'.
Proof.
  intros Hne Hp H. revert Hp. induction H as [p|p x r p1 l p2 Hx E _ IH|p x l p2 _ _ IH|p i l p2 _ IH]; intros Hp; [done| | |].
  - apply IH. by eapply handle_prepared.
  - by apply IH.
  - by apply IH.
Qed.

(** *** What handlers that succeed do *)

(** From [p] to [p'] the fork manager was informed ([inf], with the head block) and the
    database initialised ([done]), each at most once and in any order, and their transactions
    are committed unless the node was asked to stop. *)
Record history (inf : option Z) (done : bool) (p p' : plugin) : Prop := {
  hi_informed : pl_is_hfm_informed_about_starting p' = pl_is_hfm_informed_about_starting p || bool_decide (is_Some inf);
  hi_not_informed : is_Some inf -> pl_is_hfm_informed_about_starting p = false;
  hi_initialized : pl_is_database_initialized p' = pl_is_database_initialized p || done;
  hi_not_initialized : done = true -> pl_is_database_initialized p = false;
  hi_killed : pr_node_killed (pl_processors p) = true -> pr_node_killed (pl_processors p') = true;
  hi_committed : pr_node_killed (pl_processors p') = false ->
    exists l, pr_committed (pl_processors p') = pr_committed (pl_processors p) ++ l /\
    l ≡ₚ (match inf with Some h => [[connect h (pl_settings p)]] | None => [] end)
         ++ (if done then [types_transaction] else []);
  hi_accounts : pl_accounts_dumped p' = pl_accounts_dumped p ++
    (if done && (1 <? psql_first_block (pl_settings p)) then [dump_threads (pl_settings p)] else []);
  hi_settings : pl_settings p' = pl_settings p
}.

Lemma history_refl p : history None false p p.
Proof.
  constructor; rewrite ?orb_false_r, ?app_nil_r; try done; try (by intros []).
  intros _. exists []. by rewrite app_nil_r.
Qed.

Lemma history_indexation i p : history None false p (set_indexation i p).
Proof.
  constructor; cbn; rewrite ?orb_false_r, ?app_nil_r; try done; try (by intros []).
  intros _. exists []. by rewrite app_nil_r.
Qed.

Lemma history_of_initialized done p p' : initialized_by done p p' -> history None done p p'.
Proof.
  intros [A B K C D E F G]. constructor; rewrite ?orb_false_r; try done; try (by intros []).
  intros Hk. eexists. split; [by apply C|done].
Qed.

Lemma history_trans inf1 done1 inf2 done2 p q r :
  history inf1 done1 p q -> history inf2 done2 q r ->
  history (match inf1 with Some h => Some h | None => inf2 end) (done1 || done2) p r.
Proof.
  intros [A1 B1 C1 D1 K1 E1 F1 G1] [A2 B2 C2 D2 K2 E2 F2 G2].
  assert (is_Some inf1 -> inf2 = None) as Hinf.
  { intros H1. destruct inf2 as [h|]; [|done]. rewrite B2 in A1 by done.
    by rewrite bool_decide_eq_true_2, orb_true_r in A1 by done. }
  assert (done1 = true -> done2 = false) as Hdone.
  { intros ->. destruct done2; [|done]. rewrite D2, orb_true_r in C1 by done. done. }
  rewrite G1 in *. constructor.
  - rewrite A2, A1, <- orb_assoc. f_equal. destruct inf1; [by rewrite Hinf by done|done].
  - destruct inf1; [by intros _; apply B1|]. intros H. rewrite <- (B2 H), A1. by rewrite orb_false_r.
  - by rewrite C2, C1, orb_assoc.
  - intros [H|H]%orb_true_iff; subst; [auto|]. specialize (D2 eq_refl). rewrite D2 in C1.
    by destruct (pl_is_database_initialized p).
  - auto.
  - intros Hk. destruct (E2 Hk) as (l2 & L2 & P2). destruct E1 as (l1 & L1 & P1).
    { destruct (pr_node_killed (pl_processors q)); [|done]. by rewrite K2 in Hk. }
    exists (l1 ++ l2). split; [by rewrite L2, L1, app_assoc|]. rewrite P1, P2.
    destruct inf1; [rewrite Hinf by done|]; (destruct done1; [rewrite (Hdone eq_refl)|]);
      cbn [app orb]; rewrite ?app_nil_r; try done.
    apply (Permutation_app_comm [types_transaction]).
  - rewrite F2, F1, <- app_assoc. f_equal. destruct done1; [|done].
    rewrite (Hdone eq_refl). cbn. by rewrite app_nil_r.
  - congruence.
Qed.

Lemma process_block_history cfg n p p' :
  operation_details <> [] -> process_block cfg n p = (Ok tt, p') -> exists done, history None done p p'.
Proof.
  intros Hne E. apply st_bind_inv in E as ([] & p1 & E1 & E). apply st_bind_inv in E as ([] & p2 & E2 & E).
  apply st_bind_inv in E as (collect & p3 & E3 & E).
  unfold with_indexation in E1. destruct (IndexationState.on_block _ _ _ _) as [[[]|]i]; [|done]. injection E1 as <-.
  apply initialize_if_needed_ok in E2 as (did & B & _); [|done]. apply can_collect_ok in E3 as (j & -> & _).
  exists did. pose proof (history_trans _ _ _ _ _ _ _ (history_indexation i p) (history_of_initialized _ _ _ B)) as H.
  pose proof (history_trans _ _ _ _ _ _ _ H (history_indexation j p2)) as H'. rewrite orb_false_r in H'.
  destruct collect; cbn [st_when] in E; injection E as <-; [|done]. destruct H'; by constructor.
Qed.

Lemma handle_history x p p' :
  operation_details <> [] -> handle x p = (Ok tt, p') -> exists inf done, history inf done p p'.
Proof.
  intros Hne E. destruct x as [h n|k|k| |n]; cbn [handle] in E.
  - unfold on_pre_apply_block in E. rewrite (st_bind_ok _ _ _ _ _ (eq_refl : st_get p = (Ok p, p))) in E.
    destruct (pl_is_hfm_informed_about_starting p) eqn:Hi; cbn [negb st_when] in E.
    + destruct (process_block_history _ n p p' Hne E) as (did & H). by exists None, did.
    + apply st_bind_inv in E as ([] & p1 & E1 & E). apply st_bind_inv in E1 as ([] & p2 & E2 & E1).
      injection E1 as <-. unfold rethrow_as_plugin_exception in E2.
      destruct ((replay_wal sql_ok ;;; _) p) as [[[]|e] p3] eqn:E3; [|done]. injection E2 as <-.
      apply start_ok in E3 as ([U1 U2 U3 U4 U5 U6] & (sent & C & Hsent & Hkill) & _). destruct (process_block_history _ _ _ _ Hne E) as (did & H).
      exists (Some h), did.
      assert (history (Some h) false p (set_is_hfm_informed_about_starting true p3)) as H0.
      { constructor; cbn; rewrite ?orb_false_r, ?app_nil_r, ?Hi; try done. intros Hk.
        exists [[connect h (pl_settings p)]]. split; [|done]. rewrite C. destruct sent; [done|]. by rewrite Hsent in Hk. }
      exact (history_trans _ _ _ _ _ _ _ H0 H).
  - apply st_bind_inv in E as (q & q' & E0 & E). injection E0 as <- <-. exists None, false.
    destruct (negb _) in E; unfold with_indexation in E; destruct (on_pre_reindex _ _ _ _ _) as [[[]|]i];
      try done; injection E as <-; apply history_indexation.
  - apply st_bind_inv in E as (q & q' & E0 & E). injection E0 as <- <-. exists None, false.
    unfold with_indexation in E. destruct (on_post_reindex _ _ _ _ _) as [[[]|]i]; [|done]. injection E as <-.
    apply history_indexation.
  - apply st_bind_inv in E as (q & q' & E0 & E). injection E0 as <- <-.
    apply st_bind_inv in E as ([] & p1 & E1 & E). unfold with_indexation in E1.
    destruct (on_end_of_syncing _ _ _ _) as [[[]|]i]; [|done]. injection E1 as <-.
    apply initialize_if_needed_ok in E as (did & B & _); [|done]. exists None, did.
    exact (history_trans _ _ _ _ _ _ _ (history_indexation i p) (history_of_initialized _ _ _ B)).
  - apply st_bind_inv in E as (q & q' & E0 & E). injection E0 as <- <-. exists None, false.
    unfold with_indexation in E. destruct (on_switch_fork _ _ _) as [[[]|]i]; [|done]. injection E as <-.
    apply history_indexation.
Qed.

Lemma delivered_history p rs p' :
  operation_details <> [] -> delivered p rs p' -> Forall (fun r => r = Ok tt) rs ->
  exists inf done, history inf done p p'.
Proof.
  intros Hne H. induction H as [p|p x r p1 l p2 Hx E _ IH|p x l p2 _ _ IH|p i l p2 _ IH].
  - intros _. exists None, false. apply history_refl.
  - intros [-> Hl]%Forall_cons. destruct (IH Hl) as (inf2 & done2 & H2).
    destruct (handle_history _ _ _ Hne E) as (inf1 & done1 & H1). eexists _, _. by eapply history_trans.
  - done.
  - intros Hl. destruct (IH Hl) as (inf2 & done2 & H2).
    eexists _, _. exact (history_trans _ _ _ _ _ _ _ (history_indexation i p) H2).
Qed.

(** C13: However notifications come, the handler of the first block is disconnected only when
    both flags are set, that the fork manager has been informed and that the database is
    initialised; and when no handler fails, each of the two has been done at most once, with
    one dump of all accounts when the first synced block is not the first of the chain.  If the
    node was not asked to stop (a thread asks when the server refuses or cancels a statement),
    exactly one connecting transaction and one transaction with the types of operations are
    committed for them, and no other. *)
Theorem database_prepared_once p rs p' :
  operation_details <> [] -> on_pre_apply_block_con_initialization ∈ pl_signals p -> delivered p rs p' ->
  (on_pre_apply_block_con_initialization ∉ pl_signals p' ->
     pl_is_database_initialized p' = true /\ pl_is_hfm_informed_about_starting p' = true) /\
  (Forall (fun r => r = Ok tt) rs -> exists inf done, history inf done p p').
Proof.
  intros Hne Hs Hd. split.
  - intros Hn. destruct (delivered_prepared p rs p' Hne (or_introl Hs) Hd); [done|done].
  - by apply delivered_history.
Qed.

End first_block.

(** ** A start *)

Module PluginExamples.

Definition with_failures (failing : list nat) (n : nat) : server_env :=
  {| e_reply := fun _ => if decide (n ∈ failing) then Failed false else Done; e_interrupt := fun _ => false |}.

Definition opts : options :=
  let d := set_program_options 600 in
  {| o_psql_url := Some (lit "postgresql:///haf"); o_index_threshold := o_index_threshold d;
     o_massive_index_policy := o_massive_index_policy d;
     o_index_monitor_retry_budget := o_index_monitor_retry_budget d;
     o_operations_threads_number := o_operations_threads_number d;
     o_transactions_threads_number := o_transactions_threads_number d;
     o_account_operations_threads_number := o_account_operations_threads_number d;
     o_enable_account_operations_dump := true; o_force_open_inconsistent := false;
     o_livesync_threshold := 0; o_enable_filter := true; o_first_block := 5;
     o_wal_directory := Some (lit "wal"); o_wal_queue_depth := 200; o_prune_blocks := 0;
     o_lite_mode := false; o_lite_schema := true; o_force_replay := None; o_replay_blockchain := false |}.

Definition answered : answers :=
  {| a_extension := true; a_irreversible_dirty := [false]; a_operation_types := false;
     a_max_block := None; a_interrupted := false; a_psql_head := 0; a_sync_state := "LIVE" |}.

Definition no_log : wal_world := {| disk := ∅; manager := initial_manager |}.
Definition no_commands : database := {| db_executed := []; db_wal_sequence_number := None |}.
Definition sync_env : environment :=
  {| env_behind_less_than := fun _ _ => false; env_seconds_behind := fun _ => 3600;
     env_interrupt := fun _ => false; env_constraints_dropped := fun _ _ => true |}.
Definition details : list (Z * (chars * bool)) := [(0, (lit "vote_operation", false))].

Definition no_processors : processors := {| pr_started := 0; pr_committed := []; pr_node_killed := false |}.

Definition starting (failing : list nat) :=
  plugin_initialize (operation := unit) (with_failures failing) (lit "SELECT id, name FROM hafd.custom_json_types")
    (lit "/data") opts answered no_log no_commands true true (fun _ => true) no_processors.

(** The plugin after a start without failures. *)
Definition started : @plugin unit :=
  match starting [] with
  | (Ok p, _) => p
  | (Throw _, s) => {| pl_settings := settings_of [] [] IndexController.drop_all opts; pl_config := Build_is_config 0 0 0 false false 0;
      pl_indexation := construct "START"; pl_processors := s; pl_wal := no_log; pl_wal_database := no_commands;
      pl_last_block_num := 0; pl_psql_block_number := 0; pl_is_database_initialized := true;
      pl_is_hfm_informed_about_starting := true; pl_accounts_dumped := []; pl_signals := [] |}
  end.

Example start_example :
  wal_directory (pl_settings started) = lit "/data/wal" /\ lite_mode (pl_settings started) = true /\
  pl_signals started = all_signals /\ pr_started (pl_processors started) = 5%nat.
Proof. by vm_compute. Qed.

Definition block (failing : list nat) (n : Z) (p : @plugin unit) :=
  on_pre_apply_block (with_failures failing) (fun _ _ => true) sync_env (lit "1a2b3c") details n n p.

Definition after_blocks : @plugin unit := (block [] 5 (block [] 4 started).2).2.

(** The database is initialised one block before the first synced one; the handler is
    disconnected when the first block is collected. *)
Example first_blocks_example :
  (block [] 4 started).1 = Ok tt /\ pl_is_database_initialized (block [] 4 started).2 = true /\
  on_pre_apply_block_con_initialization ∈ pl_signals (block [] 4 started).2 /\
  on_pre_apply_block_con_initialization ∉ pl_signals after_blocks /\
  pl_accounts_dumped after_blocks = [9].
Proof. split_and!; try (by vm_compute); apply (bool_decide_unpack _); by vm_compute. Qed.


Lemma database_prepared_once_witness :
  pl_is_database_initialized after_blocks = true /\ pl_is_hfm_informed_about_starting after_blocks = true.
Proof.
  refine (proj1 (database_prepared_once (with_failures []) (fun _ _ => true) sync_env (lit "1a2b3c") details started
    [Ok tt; Ok tt] after_blocks _ _ _) _).
  - done.
  - apply (bool_decide_unpack _). by vm_compute.
  - eapply (DeliveredHandled _ _ _ _ _ _ (NPreApplyBlock 4 4) _ (block [] 4 started).2);
      [apply (bool_decide_unpack _); by vm_compute|by vm_compute|].
    eapply (DeliveredHandled _ _ _ _ _ _ (NPreApplyBlock 5 5) _ after_blocks);
      [apply (bool_decide_unpack _); by vm_compute|by vm_compute|]. constructor.
  - apply (bool_decide_unpack _). by vm_compute.
Defined.

(** A failure to initialise the database is not a plugin exception: the state already
    collects blocks and the database has no types of operations. *)
Theorem failed_initialization_still_collects :
  let r := block [6%nat] 5 started in
  r.1 = Throw (ProcessorFailed BrokenConnection) /\ pl_is_database_initialized r.2 = false /\
  fst (collect_blocks (pl_indexation r.2)) = Ok true.
Proof. by vm_compute. Qed.

(** The server cancels the transaction that informs the fork manager: the handler returns with the
    flag set, so that it is not tried again, and only the signal to the node tells of it. *)
Theorem cancelled_start_counts_as_started :
  let env n := {| e_reply := fun k => if decide (n = 5 /\ k = 3)%nat then Failed true else Done; e_interrupt := fun _ => false |} in
  let r := on_pre_apply_block env (fun _ _ => true) sync_env (lit "1a2b3c") details 3 3 started in
  r.1 = Ok tt /\ pl_is_hfm_informed_about_starting r.2 = true /\
  pr_committed (pl_processors r.2) = pr_committed (pl_processors started) /\
  pr_node_killed (pl_processors r.2) = true.
Proof. by vm_compute. Qed.

End PluginExamples.
