(* ===== verification/AssetIds.v ===== *)
(** * Unique asset identifiers ([asset_unique_id.hpp], [asset_unique_id.cpp])

    A 128-bit identifier holds an operation id, a numeric asset identifier and a number;
    it travels through SQL as the decimal text of a NUMERIC.  The decoding of an asset
    symbol is a parameter. *)

From S2P Require Import Prelude Text.
From Stdlib Require Import ZArith Lia Ascii String.
From stdpp Require Import base list strings.

Open Scope Z_scope.

Definition u128 (n : Z) : Z := n mod 2 ^ 128.
Definition i64 (n : Z) : Z := let m := n mod 2 ^ 64 in if m <? 2 ^ 63 then m else m - 2 ^ 64.

(** ** Fields *)

Definition asset_unique_id_to_operation_id (id : Z) : Z := i64 (Z.shiftr id 64).
Definition asset_unique_id_to_nai (id : Z) : Z := u32 (Z.land (Z.shiftr id 32) 0xFFFFFFFF).
Definition asset_unique_id_to_subsequent_no (id : Z) : Z := u32 (Z.land id 0xFFFFFFFF).

(** ** Text *)

(** The loop of [string_to_u128], which stops at the first character that is no digit. *)
Fixpoint digits_to_u128 (result : Z) (str : chars) : Z :=
  match str with
  | [] => result
  | c :: str' =>
      match digit_of c with
      | Some d => digits_to_u128 (u128 (result * 10 + d)) str'
      | None => result
      end
  end.

Definition string_to_u128 (str : chars) : outcome string Z :=
  match str with
  | c :: _ =>
      match digit_of c with
      | Some _ => Ok (digits_to_u128 0 str)
      | None => Throw "string_to_u128: unexpected input"%string
      end
  | [] => Throw "string_to_u128: unexpected input"%string
  end.

(** [char buffer[40]] filled with the digits from the last to the first; every turn
    divides by ten, so 40 turns are more than 128 bits need. *)
Fixpoint fill_buffer (fuel : nat) (n : Z) : chars :=
  match fuel with
  | O => []
  | S fuel' => if 0 <? n then digit_char (n mod 10) :: fill_buffer fuel' (n / 10) else []
  end.

Definition u128_to_string (n : Z) : chars := if n =? 0 then lit "0" else rev (fill_buffer 40 n).

(** ** [generate_asset_unique_id] *)

Section generate.
  Context (decimals to_nai : Z -> Z).          (* asset_symbol_type::from_asset_num( asset_num ) *)

Definition full_id (operation_id nai subsequent_no : Z) : Z :=
  Z.lor (Z.lor (u128 (Z.shiftl operation_id 64)) (Z.shiftl nai 32)) subsequent_no.

Definition generate_asset_unique_id (asset_symbol operation_id subsequent_no : Z) : outcome string chars :=
  let asset_num := u32 asset_symbol in
  if operation_id <? 0 then Throw "operation_id must be non-negative"%string
  else if (subsequent_no <? 0) || (UINT32_MAX <? subsequent_no)
  then Throw "subsequent_no must be between 0 and 4294967295 (uint32_t range)"%string
  else if negb (decimals asset_num =? 0)
  then Throw "generate_asset_unique_id only supports precision 0 assets"%string
  else Ok (u128_to_string (full_id (operation_id mod 2 ^ 64) (to_nai asset_num) subsequent_no)).

(** The SQL functions that take an identifier apart. *)
Definition sql_operation_id (id : chars) : outcome string Z :=
  match string_to_u128 id with Ok n => Ok (asset_unique_id_to_operation_id n) | Throw e => Throw e end.
Definition sql_subsequent_no (id : chars) : outcome string Z :=
  match string_to_u128 id with Ok n => Ok (asset_unique_id_to_subsequent_no n) | Throw e => Throw e end.
Definition sql_asset_symbol (from_nai : Z -> Z) (id : chars) : outcome string Z :=
  match string_to_u128 id with Ok n => Ok (from_nai (asset_unique_id_to_nai n)) | Throw e => Throw e end.

(** ** Properties *)

Lemma full_id_sum op nai no :
  0 <= op < 2 ^ 63 -> 0 <= nai < 2 ^ 32 -> 0 <= no < 2 ^ 32 ->
  full_id op nai no = op * 2 ^ 64 + nai * 2 ^ 32 + no.
Proof.
  intros Ho Hn Hs. unfold full_id, u128. rewrite !Z.shiftl_mul_pow2 by lia. rewrite Z.mod_small by lia.
  rewrite lor_fields by lia.
  replace (op * 2 ^ 64 + nai * 2 ^ 32) with ((op * 2 ^ 32 + nai) * 2 ^ 32) by lia.
  rewrite lor_fields by lia. done.
Qed.

Lemma fields_of_full_id op nai no :
  0 <= op < 2 ^ 63 -> 0 <= nai < 2 ^ 32 -> 0 <= no < 2 ^ 32 ->
  asset_unique_id_to_operation_id (full_id op nai no) = op /\
  asset_unique_id_to_nai (full_id op nai no) = nai /\
  asset_unique_id_to_subsequent_no (full_id op nai no) = no.
Proof.
  intros Ho Hn Hs. rewrite full_id_sum by done.
  unfold asset_unique_id_to_operation_id, asset_unique_id_to_nai, asset_unique_id_to_subsequent_no.
  change 0xFFFFFFFF with (Z.ones 32). rewrite !Z.land_ones, !Z.shiftr_div_pow2 by lia.
  assert ((op * 2 ^ 64 + nai * 2 ^ 32 + no) / 2 ^ 64 = op) as ->.
  { symmetry. apply (Z.div_unique_pos _ _ _ (nai * 2 ^ 32 + no)); lia. }
  assert ((op * 2 ^ 64 + nai * 2 ^ 32 + no) / 2 ^ 32 = op * 2 ^ 32 + nai) as ->.
  { symmetry. apply (Z.div_unique_pos _ _ _ no); lia. }
  split_and!.
  - unfold i64. rewrite Z.mod_small by lia. by rewrite (proj2 (Z.ltb_lt _ _)) by lia.
  - replace (op * 2 ^ 32 + nai) with (nai + op * 2 ^ 32) by lia. rewrite Z.mod_add, Z.mod_small by lia.
    apply u32_small. unfold UINT32_MAX. lia.
  - replace (op * 2 ^ 64 + nai * 2 ^ 32 + no) with (no + (op * 2 ^ 32 + nai) * 2 ^ 32) by lia.
    rewrite Z.mod_add, Z.mod_small by lia. apply u32_small. unfold UINT32_MAX. lia.
Qed.

(** *** The decimal text *)

Lemma digits_to_u128_snoc r l d :
  Forall is_digit l -> 0 <= d <= 9 ->
  digits_to_u128 r (l ++ [digit_char d]) = u128 (digits_to_u128 r l * 10 + d).
Proof.
  intros Hl Hd. revert r. induction Hl as [|c l [x Hc] _ IH]; intros r; cbn.
  - by rewrite digit_of_digit_char.
  - rewrite Hc. apply IH.
Qed.

Lemma fill_buffer_digits fuel n : Forall is_digit (fill_buffer fuel n).
Proof.
  revert n. induction fuel as [|fuel IH]; intros n; [constructor|]. cbn [fill_buffer].
  destruct (0 <? n); [|constructor]. constructor; [|apply IH]. eexists. apply digit_of_digit_char.
  pose proof (Z.mod_pos_bound n 10). lia.
Qed.

(** The buffer holds the number, and 39 characters are enough for 128 bits. *)
Lemma fill_buffer_value fuel n :
  0 <= n < 10 ^ Z.of_nat fuel -> n < 2 ^ 128 ->
  digits_to_u128 0 (rev (fill_buffer fuel n)) = n /\ (length (fill_buffer fuel n) <= fuel)%nat.
Proof.
  revert n. induction fuel as [|fuel IH]; intros n Hn Hb; cbn [fill_buffer]; [cbn in *; split; [lia|done]|].
  destruct (Z.ltb_spec 0 n) as [Hpos|Hz]; [|cbn; split; lia].
  pose proof (Z.mod_pos_bound n 10 ltac:(lia)). pose proof (Z.div_mod n 10 ltac:(lia)) as Hdm.
  replace (Z.of_nat (S fuel)) with (1 + Z.of_nat fuel) in Hn by lia. rewrite Z.pow_add_r in Hn by lia.
  destruct (IH (n / 10)) as [Hv Hl]; [split; [apply Z.div_pos; lia|apply Z.div_lt_upper_bound; lia]|apply Z.div_lt_upper_bound; lia|].
  split; [|cbn; lia]. cbn [rev]. rewrite digits_to_u128_snoc, Hv; [|apply Forall_rev, fill_buffer_digits|lia].
  unfold u128. rewrite Z.mod_small; lia.
Qed.

Lemma u128_to_string_value n : 0 <= n < 2 ^ 128 -> string_to_u128 (u128_to_string n) = Ok n.
Proof.
  intros Hn. unfold u128_to_string. destruct (Z.eqb_spec n 0) as [->|Hz]; [done|].
  destruct (fill_buffer_value 40 n) as [Hv _]; [split; [lia|]; eapply Z.lt_trans; [apply Hn|reflexivity]|lia|].
  assert (Forall is_digit (rev (fill_buffer 40 n))) as Hd by apply Forall_rev, fill_buffer_digits.
  destruct (rev (fill_buffer 40 n)) as [|c l]; [cbn in Hv; lia|]. apply Forall_cons in Hd as [[x Hx] _].
  unfold string_to_u128. by rewrite Hx, Hv.
Qed.

(** The text of a 128-bit number is read back as the number, and the loop that writes
    it never fills the last of the 40 places of its buffer. *)
Theorem u128_text_round_trip n :
  0 <= n < 2 ^ 128 ->
  string_to_u128 (u128_to_string n) = Ok n /\ (length (u128_to_string n) <= 39)%nat.
Proof.
  intros Hn. split; [by apply u128_to_string_value|]. unfold u128_to_string.
  destruct (n =? 0); [cbn; lia|]. rewrite length_rev.
  assert (forall fuel k, 0 <= n < 10 ^ Z.of_nat k -> (k <= fuel)%nat -> (length (fill_buffer fuel n) <= k)%nat) as H.
  { clear. intros fuel. revert n. induction fuel as [|fuel IH]; intros n k Hk Hle; cbn [fill_buffer]; [cbn; lia|].
    destruct (Z.ltb_spec 0 n); [|cbn; lia]. destruct k as [|k]; [cbn in Hk; lia|]. cbn [length].
    apply le_n_S, IH; [|lia]. replace (Z.of_nat (S k)) with (1 + Z.of_nat k) in Hk by lia.
    rewrite Z.pow_add_r in Hk by lia. split; [apply Z.div_pos; lia|apply Z.div_lt_upper_bound; lia]. }
  apply (H 40%nat 39%nat); [|lia]. split; [lia|]. eapply Z.lt_trans; [apply Hn|reflexivity].
Qed.

(** An identifier that is generated is decoded into the operation, the asset and the
    number it was made of, so two different ones never collide; arguments out of range
    are refused. *)
Theorem asset_ids_round_trip from_nai asset_symbol operation_id subsequent_no id :
  (forall n, 0 <= to_nai n < 2 ^ 32) ->
  (forall n, 0 <= n <= UINT32_MAX -> decimals n = 0 -> from_nai (to_nai n) = n) ->
  0 <= asset_symbol <= UINT32_MAX -> operation_id < 2 ^ 63 ->
  generate_asset_unique_id asset_symbol operation_id subsequent_no = Ok id ->
  sql_operation_id id = Ok operation_id /\ sql_asset_symbol from_nai id = Ok asset_symbol /\
  sql_subsequent_no id = Ok subsequent_no.
Proof.
  intros Hnai Hfrom Ha Ho E. unfold generate_asset_unique_id in E.
  destruct (Z.ltb_spec operation_id 0); [done|].
  destruct ((subsequent_no <? 0) || (UINT32_MAX <? subsequent_no)) eqn:Es; [done|].
  apply orb_false_iff in Es as [Es1 Es2]. apply Z.ltb_ge in Es1, Es2.
  rewrite u32_small in E by done.
  destruct (decimals asset_symbol =? 0) eqn:Ed; [|done]. cbn [negb] in E. injection E as <-.
  rewrite Z.mod_small by lia. unfold sql_operation_id, sql_asset_symbol, sql_subsequent_no.
  specialize (Hnai asset_symbol). unfold UINT32_MAX in *.
  destruct (fields_of_full_id operation_id (to_nai asset_symbol) subsequent_no) as (F1 & F2 & F3); [lia..|].
  rewrite u128_to_string_value, F1, F2, F3, Hfrom by (try apply Z.eqb_eq, Ed; try rewrite full_id_sum by lia; lia). done.
Qed.
End generate.

(** ** Examples *)

Module AssetExamples.

Lemma u128_text_round_trip_witness :
  string_to_u128 (u128_to_string (2 ^ 128 - 1)) = Ok (2 ^ 128 - 1).
Proof. apply (u128_text_round_trip (2 ^ 128 - 1)). lia. Defined.

(** An asset symbol that is its own identifier. *)
Lemma asset_ids_round_trip_witness :
  let id := u128_to_string (full_id 77 5 3) in
  generate_asset_unique_id (fun _ => 0) (fun n => n mod 2 ^ 32) 5 77 3 = Ok id /\
  sql_operation_id id = Ok 77 /\ sql_asset_symbol (fun n => n) id = Ok 5 /\ sql_subsequent_no id = Ok 3.
Proof.
  split; [vm_compute; reflexivity|].
  apply (asset_ids_round_trip (fun _ => 0) (fun n => n mod 2 ^ 32) (fun n => n) 5 77 3).
  - intros n. apply Z.mod_pos_bound. lia.
  - intros n Hn _. apply Z.mod_small. unfold UINT32_MAX in Hn. lia.
  - unfold UINT32_MAX. lia.
  - lia.
  - vm_compute. reflexivity.
Defined.

End AssetExamples.
