(* ===== verification/Jcs.v ===== *)
(** * Canonical JSON of second-layer transactions ([l2_jcs.cpp])

    The text that is hashed and signed: RFC 8785 restricted to integers of the safe range.
    Values are [fc::variant]s; an object is the list of its entries in the order they are
    stored.  Bytes are [ascii], code units and code points [Z]. *)

From S2P Require Import Prelude Text.
From Stdlib Require Import ZArith Lia Ascii String.
From stdpp Require Import base list strings sorting.

Open Scope Z_scope.

Inductive variant :=
| VNull
| VBool (b : bool)
| VInt64 (i : Z)
| VUint64 (u : Z)
| VDouble
| VString (s : chars)
| VArray (items : list variant)
| VObject (entries : list (chars * variant))
| VBlob.                                          (* a type of fc::variant JSON does not have *)

Definition JCS_MAX_SAFE_INT : Z := 9007199254740991.
Definition JCS_MIN_SAFE_INT : Z := -9007199254740991.

Definition byte_val (c : ascii) : Z := Z.of_N (N_of_ascii c).

(** ** [utf8_to_utf16] *)

(** The first byte: its bits of the code point and the length of the sequence. *)
Definition first_byte (c : Z) : Z * nat :=
  if c <? 0x80 then (c, 1%nat)
  else if Z.shiftr c 5 =? 0x6 then (Z.land c 0x1F, 2%nat)
  else if Z.shiftr c 4 =? 0xE then (Z.land c 0x0F, 3%nat)
  else (Z.land c 0x07, 4%nat).

(** The loop over the following bytes, as far as there are any. *)
Fixpoint more_bytes (cp : Z) (l : list Z) : Z :=
  match l with
  | [] => cp
  | b :: l' => more_bytes (Z.lor (Z.shiftl cp 6) (Z.land b 0x3F) mod 2 ^ 32) l'
  end.

Definition code_units (cp : Z) : list Z :=
  if cp <=? 0xFFFF then [cp mod 2 ^ 16]
  else
    let cp := cp - 0x10000 in
    [(0xD800 + Z.shiftr cp 10) mod 2 ^ 16; (0xDC00 + Z.land cp 0x3FF) mod 2 ^ 16].

(** Every turn consumes at least a byte. *)
Fixpoint utf16_go (fuel : nat) (s : list Z) : list Z :=
  match fuel, s with
  | S fuel', c :: s' =>
      let '(cp, len) := first_byte c in
      code_units (more_bytes cp (take (len - 1) s')) ++ utf16_go fuel' (drop (len - 1) s')
  | _, _ => []
  end.

Definition utf8_to_utf16 (s : chars) : list Z := utf16_go (length s) (map byte_val s).

(** [std::vector<uint16_t>::operator<] *)
Fixpoint units_ltb (l1 l2 : list Z) : bool :=
  match l1, l2 with
  | _, [] => false
  | [], _ => true
  | a :: l1', b :: l2' => if a <? b then true else if b <? a then false else units_ltb l1' l2'
  end.

(** ** [append_json_string] *)

Definition DQ : ascii := "034"%char.
Definition BS : ascii := "092"%char.

Definition HEX (d : Z) : ascii :=
  nth (Z.to_nat d) (lit "0123456789abcdef") "0"%char.

Definition escape_byte (c : ascii) : chars :=
  let n := byte_val c in
  if n =? 34 then [BS; DQ]
  else if n =? 92 then [BS; BS]
  else if n =? 8 then [BS; "b"%char]
  else if n =? 12 then [BS; "f"%char]
  else if n =? 10 then [BS; "n"%char]
  else if n =? 13 then [BS; "r"%char]
  else if n =? 9 then [BS; "t"%char]
  else if n <? 0x20 then BS :: lit "u00" ++ [HEX (Z.land (Z.shiftr n 4) 0xF); HEX (Z.land n 0xF)]
  else [c].

Definition append_json_string (s : chars) : chars := DQ :: concat (map escape_byte s) ++ [DQ].

(** ** [jcs_canonicalize]: what is appended to [out], or the assertion that failed *)

(** The loop over the elements, with the comma before all but the first. *)
Fixpoint emit_items (first : bool) (l : list (outcome string chars)) : outcome string chars :=
  match l with
  | [] => Ok []
  | x :: l' =>
      t ← x;
      rest ← emit_items false l';
      Ok ((if first then [] else [","%char]) ++ t ++ rest)
  end.

Definition key_le {A} (e1 e2 : chars * A) : Prop :=
  units_ltb (utf8_to_utf16 e2.1) (utf8_to_utf16 e1.1) = false.

#[global] Instance key_le_dec {A} (e1 e2 : chars * A) : Decision (key_le e1 e2).
Proof. unfold key_le. apply _. Defined.

(** [std::sort] of the entries. *)
Definition sort_entries {A} (l : list (chars * A)) : list (chars * A) := merge_sort key_le l.

Definition entry_text (e : chars * outcome string chars) : outcome string chars :=
  t ← e.2; Ok (append_json_string e.1 ++ [":"%char] ++ t).

Fixpoint jcs_canonicalize (v : variant) : outcome string chars :=
  match v with
  | VNull => Ok (lit "null")
  | VBool b => Ok (lit (if b then "true" else "false"))
  | VInt64 i =>
      if (JCS_MIN_SAFE_INT <=? i) && (i <=? JCS_MAX_SAFE_INT) then Ok (dec i)
      else Throw "L2 JCS: integer is outside the safe range"%string
  | VUint64 u =>
      if u <=? JCS_MAX_SAFE_INT then Ok (dec u)
      else Throw "L2 JCS: integer is outside the safe range"%string
  | VDouble => Throw "L2 JCS: floating-point numbers are not allowed"%string
  | VString s => Ok (append_json_string s)
  | VArray items =>
      t ← emit_items true (map jcs_canonicalize items);
      Ok (["["%char] ++ t ++ ["]"%char])
  | VObject entries =>
      t ← emit_items true
            (map entry_text (sort_entries (map (fun e => (e.1, jcs_canonicalize e.2)) entries)));
      Ok (["{"%char] ++ t ++ ["}"%char])
  | VBlob => Throw "L2 JCS: unsupported JSON value type"%string
  end.

(** ** The value a text stands for *)

(** The characters up to the closing quote. *)
Definition hex_val (c : ascii) : Z :=
  let n := byte_val c in if n <? 58 then n - 48 else n - 87.

Fixpoint read_chars (l : chars) : option (chars * chars) :=
  match l with
  | [] => None
  | c :: l1 =>
      if Ascii.eqb c DQ then Some ([], l1)
      else if Ascii.eqb c BS then
        match l1 with
        | e :: l2 =>
            let put c l := match read_chars l with Some (s, r) => Some (c :: s, r) | None => None end in
            if Ascii.eqb e "b" then put "008"%char l2
            else if Ascii.eqb e "f" then put "012"%char l2
            else if Ascii.eqb e "n" then put "010"%char l2
            else if Ascii.eqb e "r" then put "013"%char l2
            else if Ascii.eqb e "t" then put "009"%char l2
            else if Ascii.eqb e "u" then
              match l2 with
              | _ :: _ :: h1 :: h2 :: l3 =>
                  match read_chars l3 with
                  | Some (s, r) => Some (ascii_of_N (Z.to_N (16 * hex_val h1 + hex_val h2)) :: s, r)
                  | None => None
                  end
              | _ => None
              end
            else put e l2
        | [] => None
        end
      else match read_chars l1 with Some (s, r) => Some (c :: s, r) | None => None end
  end.

Definition read_number (l : chars) : option (variant * chars) :=
  let '(neg, l1) := match l with c :: l' => if Ascii.eqb c "-" then (true, l') else (false, l) | [] => (false, l) end in
  let '(n, seen, rest) := read_digits 0 false l1 in
  if seen : bool then Some (VInt64 (if neg : bool then - n else n), rest) else None.

(** A reader of JSON without white space. *)
Fixpoint read_value (fuel : nat) (l : chars) : option (variant * chars) :=
  match fuel with
  | O => None
  | S fuel' =>
      match l with
      | [] => None
      | c :: l1 =>
          if Ascii.eqb c DQ then
            match read_chars l1 with Some (s, r) => Some (VString s, r) | None => None end
          else if Ascii.eqb c "n" then Some (VNull, drop 3 l1)
          else if Ascii.eqb c "t" then Some (VBool true, drop 3 l1)
          else if Ascii.eqb c "f" then Some (VBool false, drop 4 l1)
          else if Ascii.eqb c "[" then
            match l1 with
            | d :: l2 =>
                if Ascii.eqb d "]" then Some (VArray [], l2)
                else match read_items fuel' l1 with Some (vs, r) => Some (VArray vs, r) | None => None end
            | [] => None
            end
          else if Ascii.eqb c "{" then
            match l1 with
            | d :: l2 =>
                if Ascii.eqb d "}" then Some (VObject [], l2)
                else match read_members fuel' l1 with Some (es, r) => Some (VObject es, r) | None => None end
            | [] => None
            end
          else read_number l
      end
  end
with read_items (fuel : nat) (l : chars) : option (list variant * chars) :=
  match fuel with
  | O => None
  | S fuel' =>
      match read_value fuel' l with
      | Some (v, c :: r) =>
          if Ascii.eqb c "," then
            match read_items fuel' r with Some (vs, r') => Some (v :: vs, r') | None => None end
          else if Ascii.eqb c "]" then Some ([v], r) else None
      | _ => None
      end
  end
with read_members (fuel : nat) (l : chars) : option (list (chars * variant) * chars) :=
  match fuel with
  | O => None
  | S fuel' =>
      match l with
      | _ :: l0 =>
          match read_chars l0 with
          | Some (k, _ :: l1) =>
              match read_value fuel' l1 with
              | Some (v, c :: r) =>
                  if Ascii.eqb c "," then
                    match read_members fuel' r with Some (es, r') => Some ((k, v) :: es, r') | None => None end
                  else if Ascii.eqb c "}" then Some ([(k, v)], r) else None
              | _ => None
              end
          | _ => None
          end
      | [] => None
      end
  end.

Definition read_json (l : chars) : option variant :=
  match read_value (length l) l with Some (v, []) => Some v | _ => None end.

(** The value itself, with its entries in the canonical order. *)
Fixpoint normalize (v : variant) : variant :=
  match v with
  | VUint64 u => VInt64 u
  | VArray items => VArray (map normalize items)
  | VObject entries => VObject (sort_entries (map (fun e => (e.1, normalize e.2)) entries))
  | _ => v
  end.

(** Integers of the safe range only, no other types. *)
Fixpoint in_profile (v : variant) : bool :=
  match v with
  | VNull | VBool _ | VString _ => true
  | VInt64 i => (JCS_MIN_SAFE_INT <=? i) && (i <=? JCS_MAX_SAFE_INT)
  | VUint64 u => (0 <=? u) && (u <=? JCS_MAX_SAFE_INT)
  | VDouble | VBlob => false
  | VArray items => forallb in_profile items
  | VObject entries => forallb (fun e => in_profile e.2) entries
  end.

(** ** The order of the keys *)

Lemma units_ltb_irrefl l : units_ltb l l = false.
Proof. induction l as [|a l IH]; [done|]. cbn. by rewrite Z.ltb_irrefl. Qed.

Lemma units_ltb_asym l1 l2 : units_ltb l1 l2 = true -> units_ltb l2 l1 = false.
Proof.
  revert l2. induction l1 as [|a l1 IH]; intros [|b l2]; try done. cbn.
  destruct (Z.ltb_spec a b), (Z.ltb_spec b a); try done; [lia|auto].
Qed.

Lemma units_total l1 l2 : units_ltb l1 l2 = false -> units_ltb l2 l1 = false -> l1 = l2.
Proof.
  revert l2. induction l1 as [|a l1 IH]; intros [|b l2]; try done. cbn.
  destruct (Z.ltb_spec a b), (Z.ltb_spec b a); try done. intros H1 H2. f_equal; [lia|auto].
Qed.

(** Not after is transitive. *)
Lemma units_ge_trans l1 l2 l3 :
  units_ltb l2 l1 = false -> units_ltb l3 l2 = false -> units_ltb l3 l1 = false.
Proof.
  revert l2 l3. induction l1 as [|a l1 IH]; intros [|b l2] [|c l3]; try done. cbn.
  destruct (Z.ltb_spec b a), (Z.ltb_spec a b), (Z.ltb_spec c b), (Z.ltb_spec b c),
    (Z.ltb_spec c a), (Z.ltb_spec a c); try done; try lia. apply IH.
Qed.

Section entries.
  Context {A : Type}.

#[global] Instance key_le_total : Total (key_le (A := A)).
Proof.
  intros e1 e2. unfold key_le. destruct (units_ltb (utf8_to_utf16 e2.1) (utf8_to_utf16 e1.1)) eqn:E; [right|by left].
  by apply units_ltb_asym.
Qed.

#[global] Instance key_le_trans : Transitive (key_le (A := A)).
Proof. intros e1 e2 e3. apply units_ge_trans. Qed.

(** Keys that differ as UTF-16. *)
Definition distinct_keys (l : list (chars * A)) : Prop := NoDup (map (fun e => utf8_to_utf16 e.1) l).

Lemma sort_entries_unique l1 l2 : distinct_keys l1 -> l1 ≡ₚ l2 -> sort_entries l1 = sort_entries l2.
Proof.
  intros Hd Hp. apply (StronglySorted_unique_strong key_le).
  - intros e1 e2 H1 H2 H12 H21. unfold sort_entries in H1, H2. rewrite merge_sort_Permutation in H1, H2. rewrite <- Hp in H2.
    pose proof (units_total _ _ H21 H12) as E. unfold distinct_keys in Hd.
    apply list_elem_of_lookup in H1 as [i Hi], H2 as [j Hj].
    assert (i = j) as ->; [|congruence]. apply (NoDup_lookup _ i j (utf8_to_utf16 e1.1) Hd); rewrite list_lookup_fmap, ?Hi, ?Hj; cbn; by rewrite ?E.
  - apply StronglySorted_merge_sort; apply _.
  - apply StronglySorted_merge_sort; apply _.
  - unfold sort_entries. by rewrite !merge_sort_Permutation.
Qed.

End entries.

Definition on_value {A B} (f : A -> B) (e : chars * A) : chars * B := (e.1, f e.2).

(** Sorting looks only at the keys. *)
Lemma sort_entries_map {A B} (f : A -> B) l :
  distinct_keys l -> sort_entries (map (on_value f) l) = map (on_value f) (sort_entries l).
Proof.
  intros Hd. apply (StronglySorted_unique_strong key_le).
  - intros e1 e2 H1 H2 H12 H21. unfold sort_entries in H1, H2. rewrite merge_sort_Permutation in H1.
    rewrite (Permutation_map (on_value f) (merge_sort_Permutation _ l)) in H2.
    pose proof (units_total _ _ H21 H12) as E. unfold distinct_keys in Hd.
    apply list_elem_of_fmap in H1 as (x1 & -> & H1), H2 as (x2 & -> & H2). cbn [on_value fst] in E.
    apply list_elem_of_lookup in H1 as [i Hi], H2 as [j Hj].
    assert (i = j) as ->; [|congruence].
    apply (NoDup_lookup _ i j (utf8_to_utf16 x1.1) Hd); rewrite list_lookup_fmap, ?Hi, ?Hj; cbn; congruence.
  - apply StronglySorted_merge_sort; apply _.
  - assert (StronglySorted key_le (sort_entries l)) as Hs by (apply StronglySorted_merge_sort; apply _).
    induction Hs as [|x xs _ IH Hx]; cbn; constructor; [done|]. by apply Forall_fmap.
  - unfold sort_entries. rewrite merge_sort_Permutation. by rewrite (merge_sort_Permutation _ l).
Qed.

(** ** Induction over values *)

Section variant_ind.
  Context (P : variant -> Prop)
    (Hscalar : forall v, match v with VArray _ | VObject _ => False | _ => True end -> P v)
    (Harray : forall items, Forall P items -> P (VArray items))
    (Hobject : forall entries, Forall (fun e => P e.2) entries -> P (VObject entries)).

Fixpoint variant_rect' (v : variant) : P v :=
  match v with
  | VArray items =>
      Harray items ((fix go l : Forall P l :=
        match l with [] => Forall_nil_2 P | x :: l' => Forall_cons_2 P x l' (variant_rect' x) (go l') end) items)
  | VObject entries =>
      Hobject entries ((fix go l : Forall (fun e => P e.2) l :=
        match l with
        | [] => Forall_nil_2 _
        | e :: l' => Forall_cons_2 _ e l' (variant_rect' e.2) (go l')
        end) entries)
  | v => Hscalar v I
  end.
End variant_ind.

(** Keys are distinct in every object. *)
Fixpoint well_keyed (v : variant) : bool :=
  match v with
  | VArray items => forallb well_keyed items
  | VObject entries =>
      bool_decide (NoDup (map (fun e => utf8_to_utf16 e.1) entries)) && forallb (fun e => well_keyed e.2) entries
  | _ => true
  end.

(** ** The text of a value whose entries are in order *)

Fixpoint join_comma (l : list chars) : chars :=
  match l with
  | [] => []
  | [t] => t
  | t :: l' => t ++ ","%char :: join_comma l'
  end.

Fixpoint text (v : variant) : chars :=
  match v with
  | VNull => lit "null"
  | VBool b => lit (if b then "true" else "false")
  | VInt64 i | VUint64 i => dec i
  | VString s => append_json_string s
  | VArray items => ["["%char] ++ join_comma (map text items) ++ ["]"%char]
  | VObject entries =>
      ["{"%char] ++ join_comma (map (fun e => append_json_string e.1 ++ [":"%char] ++ text e.2) entries) ++ ["}"%char]
  | VDouble | VBlob => []
  end.

Lemma emit_items_ok ts : emit_items true (map Ok ts) = Ok (join_comma ts).
Proof.
  assert (forall ts, emit_items false (map Ok ts) =
    Ok (match ts with [] => [] | _ => ","%char :: join_comma ts end)) as H.
  { clear. induction ts as [|t ts IH]; [done|]. cbn [map emit_items]. unfold mbind, outcome_bind. rewrite IH. f_equal.
    destruct ts as [|t2 ts]; cbn [join_comma]; [by rewrite app_nil_r|done]. }
  destruct ts as [|t ts]; [done|]. cbn [map emit_items]. unfold mbind, outcome_bind. rewrite H. f_equal.
  destruct ts as [|t2 ts]; cbn [join_comma app]; [by rewrite app_nil_r|done].
Qed.

Lemma emit_items_throws first l : (exists e, Throw e ∈ l) -> exists e, emit_items first l = Throw e.
Proof.
  revert first. induction l as [|x l IH]; intros first [e He]; [by apply not_elem_of_nil in He|].
  cbn [emit_items]. unfold mbind, outcome_bind. destruct x as [t|e']; [|by eexists].
  apply elem_of_cons in He as [He|He]; [done|]. destruct (IH false) as [e' ->]; [by exists e|by eexists].
Qed.

Lemma distinct_keys_map {A B} (f : A -> B) l : distinct_keys (map (on_value f) l) <-> distinct_keys l.
Proof. unfold distinct_keys. by rewrite map_map. Qed.

Lemma map_outcomes {A} (f : A -> outcome string chars) (g : A -> chars) l :
  Forall (fun x => f x = Ok (g x)) l -> map f l = map Ok (map g l).
Proof. intros H. rewrite map_map. by apply map_ext_Forall. Qed.

(** A value of the profile is written as the text of its normal form. *)
Lemma jcs_text v :
  in_profile v = true -> well_keyed v = true -> jcs_canonicalize v = Ok (text (normalize v)).
Proof.
  induction v as [v Hs|items IH|entries IH] using variant_rect'; intros Hp Hk.
  - destruct v; try done; cbn in *.
    + by rewrite Hp.
    + apply andb_true_iff in Hp as [_ ->]. done.
  - cbn [jcs_canonicalize normalize text in_profile well_keyed] in *. rewrite forallb_forall in Hp, Hk.
    rewrite (map_outcomes _ (fun x => text (normalize x))), emit_items_ok.
    + cbn. by rewrite map_map.
    + rewrite Forall_forall in *. intros x Hx. apply list_elem_of_In in Hx as Hx'. auto.
  - cbn [jcs_canonicalize normalize text in_profile well_keyed] in *. rewrite forallb_forall in Hp.
    apply andb_true_iff in Hk as [Hd%bool_decide_eq_true Hk]. rewrite forallb_forall in Hk.
    assert (map (fun e => (e.1, jcs_canonicalize e.2)) entries = map (on_value (fun v => Ok (text v)))
      (map (on_value normalize) entries)) as ->.
    { rewrite map_map. apply map_ext_Forall. rewrite Forall_forall in *. intros e He.
      apply list_elem_of_In in He as He'. unfold on_value. cbn. by rewrite IH by auto. }
    change (fun e => (e.1, normalize e.2)) with (on_value normalize).
    rewrite (sort_entries_map (fun v => Ok (text v))) by (by apply distinct_keys_map).
    rewrite map_map. rewrite (map_outcomes _ (fun e => append_json_string e.1 ++ [":"%char] ++ text e.2)).
    + by rewrite emit_items_ok.
    + apply Forall_forall. by intros e _.
Qed.

(** Integers have the range of their type. *)
Fixpoint typed (v : variant) : bool :=
  match v with
  | VUint64 u => 0 <=? u
  | VArray items => forallb typed items
  | VObject entries => forallb (fun e => typed e.2) entries
  | _ => true
  end.

Lemma forallb_false {A} (p : A -> bool) l : forallb p l = false -> exists x, x ∈ l /\ p x = false.
Proof.
  induction l as [|x l IH]; [done|]. intros [?|?]%andb_false_iff; [by exists x; split; [left|]|].
  destruct IH as (y & Hy & ?); [done|]. exists y. split; [by right|done].
Qed.

Lemma jcs_refuses v : typed v = true -> in_profile v = false -> exists e, jcs_canonicalize v = Throw e.
Proof.
  induction v as [v Hs|items IH|entries IH] using variant_rect'; intros Ht Hp.
  - destruct v; try done; cbn in *; [rewrite Hp|rewrite Ht in Hp; cbn in Hp; rewrite Hp|..]; by eexists.
  - cbn in *. assert (exists x, x ∈ items /\ in_profile x = false) as (x & Hx & Hxp).
    { by apply forallb_false. }
    rewrite forallb_forall in Ht. rewrite Forall_forall in IH.
    destruct (IH x Hx) as [e He]; [by apply Ht, list_elem_of_In|done|].
    destruct (emit_items_throws true (map jcs_canonicalize items)) as [e' ->]; [|by exists e'].
    exists e. rewrite <- He. by apply list_elem_of_fmap_2.
  - cbn in *. assert (exists x, x ∈ entries /\ in_profile x.2 = false) as (x & Hx & Hxp).
    { by apply (forallb_false (fun e => in_profile e.2)). }
    rewrite forallb_forall in Ht. rewrite Forall_forall in IH.
    destruct (IH x Hx) as [e He]; [by apply Ht, list_elem_of_In|done|].
    destruct (emit_items_throws true (map entry_text (sort_entries (map (fun e => (e.1, jcs_canonicalize e.2)) entries)))) as [e' ->];
      [|by exists e'].
    exists e. apply list_elem_of_fmap. exists (x.1, Throw e). split; [done|]. unfold sort_entries.
    rewrite merge_sort_Permutation. apply list_elem_of_fmap. exists x. by rewrite <- He.
Qed.

(** ** Reading the text *)

Lemma read_escaped c l :
  read_chars (escape_byte c ++ l) = match read_chars l with Some (s, r) => Some (c :: s, r) | None => None end.
Proof. destruct c as [[] [] [] [] [] [] [] []]; reflexivity. Qed.

Lemma read_chars_string s rest : read_chars (concat (map escape_byte s) ++ DQ :: rest) = Some (s, rest).
Proof.
  induction s as [|c s IH]; [done|]. cbn [map concat]. rewrite <- app_assoc, read_escaped, IH. done.
Qed.

(** The values the reader returns for canonical text. *)
Fixpoint readable (v : variant) : bool :=
  match v with
  | VNull | VBool _ | VString _ => true
  | VInt64 i => (JCS_MIN_SAFE_INT <=? i) && (i <=? JCS_MAX_SAFE_INT)
  | VUint64 _ | VDouble | VBlob => false
  | VArray items => forallb readable items
  | VObject entries => forallb (fun e => readable e.2) entries
  end.

Lemma readable_normalize v : in_profile v = true -> readable (normalize v) = true.
Proof.
  induction v as [v Hs|items IH|entries IH] using variant_rect'; intros Hp.
  - destruct v; try done; cbn in *. apply andb_true_iff in Hp as [H1 ->]. apply Z.leb_le in H1. rewrite andb_true_r.
    apply Z.leb_le. unfold JCS_MIN_SAFE_INT. lia.
  - cbn in *. rewrite forallb_forall in *. rewrite Forall_forall in IH. intros x Hx.
    apply in_map_iff in Hx as (y & <- & Hy). apply IH; [by apply list_elem_of_In|auto].
  - cbn in *. rewrite forallb_forall in *. rewrite Forall_forall in IH. intros x Hx.
    apply list_elem_of_In in Hx. unfold sort_entries in Hx. rewrite merge_sort_Permutation in Hx.
    apply list_elem_of_fmap in Hx as (y & -> & Hy). cbn. apply IH; [done|]. apply Hp. by apply list_elem_of_In.
Qed.

Fixpoint weight (v : variant) : nat :=
  match v with
  | VArray items => S (list_sum (map (fun x => S (weight x)) items))
  | VObject entries => S (list_sum (map (fun e => S (weight e.2)) entries))
  | _ => 1
  end.

Lemma digit_not_special c : is_digit c ->
  Ascii.eqb c DQ = false /\ Ascii.eqb c "n" = false /\ Ascii.eqb c "t" = false /\ Ascii.eqb c "f" = false /\
  Ascii.eqb c "[" = false /\ Ascii.eqb c "{" = false /\ Ascii.eqb c "-" = false /\ Ascii.eqb c "]" = false.
Proof.
  intros [x Hx]. destruct c as [[] [] [] [] [] [] [] []]; try discriminate Hx; by vm_compute.
Qed.

(** The first character of an integer and what the reader makes of it. *)
Lemma dec_reads i rest :
  JCS_MIN_SAFE_INT <= i <= JCS_MAX_SAFE_INT -> number_ends rest ->
  exists c t, dec i = c :: t /\ (c = "-"%char \/ is_digit c) /\ read_number (dec i ++ rest) = Some (VInt64 i, rest).
Proof.
  unfold JCS_MIN_SAFE_INT, JCS_MAX_SAFE_INT. intros Hi Hr. destruct (Z.ltb_spec i 0) as [Hn|Hp].
  - assert (dec i = "-"%char :: dec (- i)) as E.
    { unfold dec. rewrite (proj2 (Z.ltb_lt i 0)), (proj2 (Z.ltb_ge (- i) 0)) by lia. done. }
    exists "-"%char, (dec (- i)). split; [done|]. split; [by left|]. rewrite E. change (("-"%char :: dec (- i)) ++ rest) with ("-"%char :: (dec (- i) ++ rest)).
    assert (forall l, read_number ("-"%char :: l) =
      (let '(n, seen, rest) := read_digits 0 false l in if seen : bool then Some (VInt64 (- n), rest) else None)) as ->
      by done.
    rewrite read_digits_dec by (done || lia). do 3 f_equal. lia.
  - destruct (dec_head i) as (c & t & E & Hc); [lia|]. exists c, t. split; [done|]. split; [by right|].
    unfold read_number. pose proof (digit_not_special c Hc) as (_ & _ & _ & _ & _ & _ & Hm & _).
    pose proof (read_digits_dec i rest ltac:(lia) Hr) as Hd. rewrite E in *. cbn [app] in *. rewrite Hm, Hd. done.
Qed.

Lemma read_int fuel i rest :
  JCS_MIN_SAFE_INT <= i <= JCS_MAX_SAFE_INT -> number_ends rest ->
  read_value (S fuel) (dec i ++ rest) = Some (VInt64 i, rest).
Proof.
  intros Hi Hr. destruct (dec_reads i rest Hi Hr) as (c & t & E & Hc & R). rewrite E in *. cbn [app] in *.
  cbn [read_value]. destruct Hc as [->|Hc]; [exact R|].
  destruct (digit_not_special c Hc) as (-> & -> & -> & -> & -> & -> & _ & _). exact R.
Qed.

(** A canonical text is never empty and never starts with a closing bracket. *)
Lemma text_head v : readable v = true -> exists c t, text v = c :: t /\ Ascii.eqb c "]" = false.
Proof.
  destruct v; try done; cbn; intros H; try (by eexists _, _).
  - destruct b; by eexists _, _.
  - apply andb_true_iff in H as [H1%Z.leb_le H2%Z.leb_le].
    destruct (dec_reads i [] (conj H1 H2) I) as (c & t & E & Hc & _). exists c, t. split; [done|].
    destruct Hc as [->|Hc]; [done|]. by destruct (digit_not_special c Hc) as (_ & _ & _ & _ & _ & _ & _ & ->).
Qed.

Definition reads (v : variant) : Prop := forall fuel rest,
  (weight v <= fuel)%nat -> number_ends rest -> read_value fuel (text v ++ rest) = Some (v, rest).

Lemma read_items_text items fuel rest :
  items <> [] -> Forall reads items -> (list_sum (map (fun x => S (weight x)) items) <= fuel)%nat ->
  read_items fuel (join_comma (map text items) ++ "]"%char :: rest) = Some (items, rest).
Proof.
  intros Hne H. revert fuel. induction H as [|v items Hv H IH]; intros fuel Hf; [done|].
  destruct fuel as [|fuel]; [cbn in Hf; lia|]. cbn [map list_sum foldr] in Hf. cbn [read_items].
  destruct items as [|v2 items]; cbn [map join_comma].
  - rewrite Hv by (done || lia). done.
  - rewrite <- app_assoc. cbn [app]. rewrite Hv by (done || lia).
    change (Ascii.eqb "," ",") with true. cbn iota. rewrite (IH ltac:(done)) by (cbn [map list_sum foldr] in *; lia). done.
Qed.

Lemma read_members_text entries fuel rest :
  entries <> [] -> Forall (fun e => reads e.2) entries ->
  (list_sum (map (fun e => S (weight e.2)) entries) <= fuel)%nat ->
  read_members fuel (join_comma (map (fun e => append_json_string e.1 ++ [":"%char] ++ text e.2) entries) ++ "}"%char :: rest)
    = Some (entries, rest).
Proof.
  intros Hne H. revert fuel. induction H as [|[k v] entries Hv H IH]; intros fuel Hf; [done|].
  destruct fuel as [|fuel]; [cbn in Hf; lia|]. cbn [map list_sum foldr fst snd] in *.
  assert (forall tail, read_members (S fuel) ((append_json_string k ++ [":"%char] ++ text v) ++ tail) =
    match read_value fuel (text v ++ tail) with
    | Some (v', c :: r) =>
        if Ascii.eqb c "," then
          match read_members fuel r with Some (es, r') => Some ((k, v') :: es, r') | None => None end
        else if Ascii.eqb c "}" then Some ([(k, v')], r) else None
    | _ => None
    end) as Hstep.
  { intros tail. unfold append_json_string. rewrite <- !app_assoc. cbn [app read_members].
    rewrite <- app_assoc. cbn [app]. rewrite read_chars_string. done. }
  destruct entries as [|[k2 v2] entries]; cbn [map join_comma].
  - rewrite Hstep, Hv by (done || lia). done.
  - rewrite <- (app_assoc (append_json_string k ++ _)). cbn [fst snd]. rewrite Hstep. cbn [app]. rewrite Hv by (done || lia).
    change (Ascii.eqb "," ",") with true. cbn iota. rewrite (IH ltac:(done)) by (cbn [map list_sum foldr] in *; lia). done.
Qed.

Lemma readable_reads v : readable v = true -> reads v.
Proof.
  induction v as [v Hs|items IH|entries IH] using variant_rect'; intros Hr fuel rest Hf Hend.
  - destruct fuel as [|fuel]; [destruct v; cbn in Hf; lia|]. destruct v; try done.
    + by destruct b.
    + cbn in Hr. apply andb_true_iff in Hr as [H1%Z.leb_le H2%Z.leb_le]. by apply read_int.
    + cbn [text]. unfold append_json_string. cbn [app read_value]. rewrite <- app_assoc. cbn [app].
      change (Ascii.eqb DQ DQ) with true. cbn iota. by rewrite read_chars_string.
  - cbn [weight] in Hf. destruct fuel as [|fuel]; [lia|]. cbn in Hr. rewrite forallb_forall in Hr.
    assert (Forall reads items) as Hi.
    { rewrite Forall_forall in *. intros x Hx. apply IH; [done|]. by apply Hr, list_elem_of_In. }
    cbn [text app]. destruct items as [|v items]; [done|].
    destruct (text_head v) as (c & t & E & Hc); [by apply Hr; left|].
    rewrite <- app_assoc. cbn [app]. pose proof (read_items_text (v :: items) fuel rest ltac:(done) Hi ltac:(lia)) as R.
    assert (exists t', join_comma (map text (v :: items)) ++ "]"%char :: rest = c :: t') as [t' Et'].
    { cbn [map join_comma]. rewrite E. destruct items; cbn [map app]; by eexists. }
    rewrite Et' in *. cbn [read_value]. change (Ascii.eqb "[" DQ) with false. cbn. by rewrite Hc, R.
  - cbn [weight] in Hf. destruct fuel as [|fuel]; [lia|]. cbn in Hr. rewrite forallb_forall in Hr.
    assert (Forall (fun e => reads e.2) entries) as Hi.
    { rewrite Forall_forall in *. intros x Hx. apply IH; [done|]. by apply Hr, list_elem_of_In. }
    cbn [text app]. destruct entries as [|e entries]; [done|].
    rewrite <- app_assoc. cbn [app]. pose proof (read_members_text (e :: entries) fuel rest ltac:(done) Hi ltac:(lia)) as R.
    set (body := join_comma _) in *. assert (exists t', body ++ "}"%char :: rest = DQ :: t') as [t' Et'].
    { subst body. cbn [map join_comma]. destruct entries; cbn [map app append_json_string]; by eexists. }
    rewrite Et' in *. cbn [read_value]. change (Ascii.eqb "{" DQ) with false. cbn. by rewrite R.
Qed.

(** *** The length of the text is enough fuel *)

Lemma join_comma_length l : l <> [] -> S (length (join_comma l)) = list_sum (map (fun t => S (length t)) l).
Proof.
  induction l as [|t l IH]; [done|]. intros _. destruct l as [|t2 l]; [cbn; lia|].
  cbn [join_comma map list_sum foldr] in *. rewrite length_app. cbn [length]. specialize (IH ltac:(done)). lia.
Qed.

Lemma list_sum_le {A} (f g : A -> nat) l :
  Forall (fun x => (f x <= g x)%nat) l -> (list_sum (map f l) <= list_sum (map g l))%nat.
Proof. unfold list_sum. induction 1; cbn [map foldr]; lia. Qed.

Lemma weight_length v : readable v = true -> (weight v <= length (text v))%nat.
Proof.
  induction v as [v Hs|items IH|entries IH] using variant_rect'; intros Hr.
  - destruct (text_head v Hr) as (c & t & E & _). rewrite E. destruct v; cbn; lia || done.
  - cbn in Hr. rewrite forallb_forall in Hr. cbn [weight text app length]. rewrite length_app. cbn [length].
    destruct items as [|v items]; [cbn; lia|].
    pose proof (join_comma_length (map text (v :: items)) ltac:(done)) as Hl. rewrite map_map in Hl.
    assert (list_sum (map (fun x => S (weight x)) (v :: items)) <= list_sum (map (fun x => S (length (text x))) (v :: items)))%nat; [|lia].
    apply list_sum_le. rewrite Forall_forall in *. intros x Hx. apply le_n_S, IH; [done|]. by apply Hr, list_elem_of_In.
  - cbn in Hr. rewrite forallb_forall in Hr. cbn [weight text]. rewrite !length_app. cbn [length].
    destruct entries as [|e entries]; [cbn; lia|].
    set (f := fun e : chars * variant => append_json_string e.1 ++ [":"%char] ++ text e.2).
    pose proof (join_comma_length (map f (e :: entries)) ltac:(done)) as Hl. rewrite map_map in Hl.
    assert (list_sum (map (fun e => S (weight e.2)) (e :: entries)) <= list_sum (map (fun e => S (length (f e))) (e :: entries)))%nat.
    { apply list_sum_le. rewrite Forall_forall in *. intros x Hx. unfold f. rewrite !length_app.
      assert (weight x.2 <= length (text x.2))%nat; [|lia]. apply IH; [done|]. by apply Hr, list_elem_of_In. }
    fold f. lia.
Qed.

Lemma read_json_text v : readable v = true -> read_json (text v) = Some v.
Proof.
  intros Hr. unfold read_json. pose proof (readable_reads v Hr (length (text v)) [] (weight_length v Hr) I) as E.
  rewrite app_nil_r in E. by rewrite E.
Qed.

(** ** UTF-8 and UTF-16 *)

Definition scalar (cp : Z) : Prop := 0 <= cp < 0x110000 /\ ~ (0xD800 <= cp <= 0xDFFF).

(** The encodings of a code point. *)
Definition utf8 (cp : Z) : list Z :=
  if cp <? 0x80 then [cp]
  else if cp <? 0x800 then [0xC0 + cp / 64; 0x80 + cp mod 64]
  else if cp <? 0x10000 then [0xE0 + cp / 4096; 0x80 + cp / 64 mod 64; 0x80 + cp mod 64]
  else [0xF0 + cp / 262144; 0x80 + cp / 4096 mod 64; 0x80 + cp / 64 mod 64; 0x80 + cp mod 64].

Definition utf16 (cp : Z) : list Z :=
  if cp <? 0x10000 then [cp] else [0xD800 + (cp - 0x10000) / 1024; 0xDC00 + (cp - 0x10000) mod 1024].

Definition byte_char (b : Z) : ascii := ascii_of_N (Z.to_N b).

Lemma byte_val_char b : 0 <= b < 256 -> byte_val (byte_char b) = b.
Proof. intros Hb. unfold byte_val, byte_char. rewrite N_ascii_embedding by lia. lia. Qed.

(** One more byte of a sequence. *)
Lemma more_byte cp b l :
  0 <= cp -> cp * 64 + b < 2 ^ 32 -> 0 <= b < 64 -> more_bytes cp ((0x80 + b) :: l) = more_bytes (cp * 64 + b) l.
Proof.
  intros Hc Hlt Hb. cbn [more_bytes]. f_equal. change 0x3F with (Z.ones 6). rewrite Z.land_ones, Z.shiftl_mul_pow2 by lia.
  replace ((0x80 + b) mod 2 ^ 6) with b.
  - rewrite lor_fields by lia. apply Z.mod_small. lia.
  - replace (0x80 + b) with (b + 2 * 2 ^ 6) by lia. rewrite Z.mod_add, Z.mod_small by lia. done.
Qed.

Lemma land_low c k m : 0 <= k -> 0 <= m < 2 ^ k -> (exists q, c = q * 2 ^ k + m) -> Z.land c (Z.ones k) = m.
Proof.
  intros Hk Hm [q ->]. rewrite Z.land_ones by done. rewrite Z.add_comm, Z.mod_add, Z.mod_small; lia.
Qed.

Lemma shiftr_high c k q : 0 <= k -> q * 2 ^ k <= c < (q + 1) * 2 ^ k -> Z.shiftr c k = q.
Proof.
  intros Hk Hc. rewrite Z.shiftr_div_pow2 by done. symmetry. apply (Z.div_unique_pos _ _ _ (c - q * 2 ^ k)); lia.
Qed.

Lemma first_byte_spec c :
  (0 <= c < 0x80 -> first_byte c = (c, 1%nat)) /\
  (0 <= c < 32 -> first_byte (0xC0 + c) = (c, 2%nat)) /\
  (0 <= c < 16 -> first_byte (0xE0 + c) = (c, 3%nat)) /\
  (0 <= c < 8 -> first_byte (0xF0 + c) = (c, 4%nat)).
Proof.
  unfold first_byte. split_and!; intros Hc.
  - by rewrite (proj2 (Z.ltb_lt _ _)) by lia.
  - rewrite (proj2 (Z.ltb_ge _ _)), (shiftr_high _ 5 6) by lia. cbn [Z.eqb Pos.eqb].
    change 0x1F with (Z.ones 5). rewrite (land_low _ 5 c); [done|lia|lia|]. exists 6. lia.
  - rewrite (proj2 (Z.ltb_ge _ _)), (shiftr_high _ 5 7), (shiftr_high _ 4 14) by lia. cbn [Z.eqb Pos.eqb].
    change 0x0F with (Z.ones 4). rewrite (land_low _ 4 c); [done|lia|lia|]. exists 14. lia.
  - rewrite (proj2 (Z.ltb_ge _ _)), (shiftr_high _ 5 7), (shiftr_high _ 4 15) by lia. cbn [Z.eqb Pos.eqb].
    change 0x07 with (Z.ones 3). rewrite (land_low _ 3 c); [done|lia|lia|]. exists 30. lia.
Qed.

Lemma code_units_utf16 cp : 0 <= cp < 0x110000 -> code_units cp = utf16 cp.
Proof.
  intros Hc. unfold code_units, utf16. destruct (Z.leb_spec cp 0xFFFF), (Z.ltb_spec cp 0x10000); try lia.
  - by rewrite Z.mod_small by lia.
  - change 0x3FF with (Z.ones 10). rewrite Z.land_ones, Z.shiftr_div_pow2 by lia.
    change (2 ^ 10) with 1024. pose proof (Z.mod_pos_bound (cp - 0x10000) 1024 ltac:(lia)).
    pose proof (Z.div_pos (cp - 0x10000) 1024 ltac:(lia) ltac:(lia)).
    pose proof (Z.div_lt_upper_bound (cp - 0x10000) 1024 1024 ltac:(lia) ltac:(lia)).
    rewrite !Z.mod_small by lia. done.
Qed.

Lemma utf16_go_step fuel cp rest :
  0 <= cp < 0x110000 -> utf16_go (S fuel) (utf8 cp ++ rest) = utf16 cp ++ utf16_go fuel rest.
Proof.
  intros Hc. rewrite <- code_units_utf16 by done. unfold utf8.
  pose proof (Z.div_mod cp 64 ltac:(lia)) as D1. pose proof (Z.mod_pos_bound cp 64 ltac:(lia)) as B1.
  pose proof (Z.div_mod (cp / 64) 64 ltac:(lia)) as D2. pose proof (Z.mod_pos_bound (cp / 64) 64 ltac:(lia)) as B2.
  pose proof (Z.div_mod (cp / 4096) 64 ltac:(lia)) as D3. pose proof (Z.mod_pos_bound (cp / 4096) 64 ltac:(lia)) as B3.
  assert (cp / 64 / 64 = cp / 4096) as E2 by (rewrite Z.div_div by lia; done).
  assert (cp / 4096 / 64 = cp / 262144) as E3 by (rewrite Z.div_div by lia; done).
  rewrite E2 in D2. rewrite E3 in D3.
  destruct (Z.ltb_spec cp 0x80); [|destruct (Z.ltb_spec cp 0x800); [|destruct (Z.ltb_spec cp 0x10000)]];
    cbn [app utf16_go].
  - by rewrite (proj1 (first_byte_spec cp)) by lia.
  - rewrite (proj1 (proj2 (first_byte_spec (cp / 64)))) by lia. cbn [Nat.sub take drop].
    rewrite more_byte by lia. rewrite take_0. cbn [more_bytes]. do 2 f_equal. lia.
  - rewrite (proj1 (proj2 (proj2 (first_byte_spec (cp / 4096))))) by lia. cbn [Nat.sub take drop].
    rewrite !more_byte by lia. rewrite take_0. cbn [more_bytes]. do 2 f_equal. lia.
  - rewrite (proj2 (proj2 (proj2 (first_byte_spec (cp / 262144))))) by lia. cbn [Nat.sub take drop].
    rewrite !more_byte by lia. rewrite take_0. cbn [more_bytes]. do 2 f_equal. lia.
Qed.

Lemma utf8_bytes cp : 0 <= cp < 0x110000 -> Forall (fun b => 0 <= b < 256) (utf8 cp) /\ utf8 cp <> [].
Proof.
  intros Hc. unfold utf8.
  pose proof (Z.mod_pos_bound cp 64 ltac:(lia)). pose proof (Z.mod_pos_bound (cp / 64) 64 ltac:(lia)).
  pose proof (Z.mod_pos_bound (cp / 4096) 64 ltac:(lia)).
  pose proof (Z.div_mod cp 64 ltac:(lia)). pose proof (Z.div_mod cp 4096 ltac:(lia)). pose proof (Z.div_mod cp 262144 ltac:(lia)).
  pose proof (Z.mod_pos_bound cp 4096 ltac:(lia)). pose proof (Z.mod_pos_bound cp 262144 ltac:(lia)).
  destruct (Z.ltb_spec cp 0x80); [|destruct (Z.ltb_spec cp 0x800); [|destruct (Z.ltb_spec cp 0x10000)]];
    (split; [|done]); repeat constructor; lia.
Qed.

Definition utf8_text (cps : list Z) : chars := map byte_char (concat (map utf8 cps)).

Lemma utf16_go_encodes cps fuel :
  Forall scalar cps -> (length (concat (map utf8 cps)) <= fuel)%nat ->
  utf16_go fuel (concat (map utf8 cps)) = concat (map utf16 cps).
Proof.
  intros H. revert fuel. induction H as [|cp cps [Hcp _] _ IH]; intros fuel Hf; [by destruct fuel|].
  cbn [map concat] in *. rewrite length_app in Hf. destruct (utf8_bytes cp Hcp) as [_ Hne].
  destruct fuel as [|fuel]; [destruct (utf8 cp); [done|cbn in Hf; lia]|].
  rewrite utf16_go_step by done. f_equal. apply IH. destruct (utf8 cp); [done|cbn in Hf; lia].
Qed.

Lemma utf8_to_utf16_encodes cps : Forall scalar cps -> utf8_to_utf16 (utf8_text cps) = concat (map utf16 cps).
Proof.
  intros H. unfold utf8_to_utf16, utf8_text. rewrite length_map, map_map.
  assert (map (fun x => byte_val (byte_char x)) (concat (map utf8 cps)) = concat (map utf8 cps)) as ->.
  { rewrite <- (map_id (concat (map utf8 cps))) at 2. apply map_ext_Forall, Forall_concat, Forall_fmap.
    eapply Forall_impl; [exact H|]. intros cp [Hcp _]. cbn. eapply Forall_impl; [apply (utf8_bytes cp Hcp)|].
    intros b Hb. by apply byte_val_char. }
  by apply utf16_go_encodes.
Qed.

Lemma utf16_inj cps1 cps2 :
  Forall scalar cps1 -> Forall scalar cps2 -> concat (map utf16 cps1) = concat (map utf16 cps2) -> cps1 = cps2.
Proof.
  intros H1. revert cps2. induction H1 as [|c1 cps1 [Hc1 Hs1] H1 IH]; intros cps2 H2 E.
  - destruct H2 as [|c2 cps2 _ _]; [done|]. cbn in E. unfold utf16 in E. by destruct (c2 <? _).
  - destruct H2 as [|c2 cps2 [Hc2 Hs2] H2].
    { cbn in E. unfold utf16 in E. by destruct (c1 <? _). }
    cbn [map concat] in E. unfold utf16 at 1 3 in E.
    pose proof (Z.div_mod (c1 - 0x10000) 1024 ltac:(lia)) as D1. pose proof (Z.mod_pos_bound (c1 - 0x10000) 1024 ltac:(lia)).
    pose proof (Z.div_mod (c2 - 0x10000) 1024 ltac:(lia)) as D2. pose proof (Z.mod_pos_bound (c2 - 0x10000) 1024 ltac:(lia)).
    destruct (Z.ltb_spec c1 0x10000), (Z.ltb_spec c2 0x10000); cbn [app] in E.
    + injection E as -> E. f_equal. by apply IH.
    + injection E as E _. lia.
    + injection E as E _. lia.
    + injection E as Ea Eb E. f_equal; [lia|by apply IH].
Qed.

(** On UTF-8 text the conversion computes the UTF-16 encoding of its code points, with
    surrogate pairs above the basic plane, so different texts are different keys. *)
Theorem utf8_to_utf16_correct cps1 cps2 :
  Forall scalar cps1 -> Forall scalar cps2 ->
  utf8_to_utf16 (utf8_text cps1) = concat (map utf16 cps1) /\
  (utf8_to_utf16 (utf8_text cps1) = utf8_to_utf16 (utf8_text cps2) <-> cps1 = cps2).
Proof.
  intros H1 H2. rewrite !utf8_to_utf16_encodes by done. split; [done|]. split; [by apply utf16_inj|by intros ->].
Qed.

(** ** Properties of the canonical form *)

(** A value of the profile with distinct keys has a canonical text, and reading the
    text as JSON gives the value back, with its entries in the canonical order: every
    string, escapes included, and every integer survives exactly. *)
Theorem canonical_text_round_trip v :
  in_profile v = true -> well_keyed v = true ->
  exists t, jcs_canonicalize v = Ok t /\ read_json t = Some (normalize v).
Proof.
  intros Hp Hk. exists (text (normalize v)). split; [by apply jcs_text|]. by apply read_json_text, readable_normalize.
Qed.

(** C17: Two values of the profile have the same canonical text, hence the same digest to
    sign, exactly when they are the same value up to the order of the entries of their
    objects; values outside the profile (floating point, unsafe integers, other types)
    are refused at any depth. *)
Theorem canonical_text_identifies_value v1 v2 :
  well_keyed v1 = true -> well_keyed v2 = true -> typed v1 = true ->
  (in_profile v1 = true -> in_profile v2 = true ->
    (jcs_canonicalize v1 = jcs_canonicalize v2 <-> normalize v1 = normalize v2)) /\
  (in_profile v1 = false -> exists e, jcs_canonicalize v1 = Throw e).
Proof.
  intros Hk1 Hk2 Ht. split; [|by apply jcs_refuses]. intros Hp1 Hp2. rewrite !jcs_text by done. split; [|by intros ->].
  intros [= E]. pose proof (read_json_text _ (readable_normalize v1 Hp1)) as R1.
  rewrite E, read_json_text in R1 by (by apply readable_normalize). congruence.
Qed.

(** The order in which the entries of an object are stored does not change the
    result, whether it is a text or an error. *)
Theorem entry_order_is_irrelevant es1 es2 :
  NoDup (map (fun e => utf8_to_utf16 e.1) es1) -> es1 ≡ₚ es2 ->
  jcs_canonicalize (VObject es1) = jcs_canonicalize (VObject es2).
Proof.
  intros Hd Hp. cbn [jcs_canonicalize].
  rewrite (sort_entries_unique (map (fun e => (e.1, jcs_canonicalize e.2)) es1)
    (map (fun e => (e.1, jcs_canonicalize e.2)) es2)); [done| |by apply Permutation_map].
  unfold distinct_keys. by rewrite map_map.
Qed.

(** ** Examples *)

Module JcsExamples.

Definition nested (z : Z) : variant :=
  VObject [(lit "b", VArray [VInt64 (-3); VNull; VString (NL :: lit "x")]); (lit "a", VUint64 z)].

Lemma canonical_text_round_trip_witness :
  jcs_canonicalize (nested 7) = Ok (lit "{" ++ [DQ] ++ lit "a" ++ [DQ] ++ lit ":7," ++ [DQ] ++ lit "b" ++ [DQ] ++
    lit ":[-3,null," ++ [DQ; BS] ++ lit "nx" ++ [DQ] ++ lit "]}") /\
  exists t, jcs_canonicalize (nested 7) = Ok t /\ read_json t = Some (normalize (nested 7)).
Proof.
  split; [vm_compute; reflexivity|]. apply (canonical_text_round_trip (nested 7)); vm_compute; reflexivity.
Defined.

Lemma canonical_text_identifies_value_witness :
  jcs_canonicalize (nested 7) <> jcs_canonicalize (nested 8) /\
  exists e, jcs_canonicalize (VArray [VNull; VDouble]) = Throw e.
Proof.
  split.
  - intros E. apply (canonical_text_identifies_value (nested 7) (nested 8)) in E; [|vm_compute; reflexivity..].
    vm_compute in E. discriminate.
  - apply (canonical_text_identifies_value (VArray [VNull; VDouble]) VNull); vm_compute; reflexivity.
Defined.

Lemma entry_order_is_irrelevant_witness :
  jcs_canonicalize (VObject [(lit "b", VNull); (lit "a", VDouble)]) =
  jcs_canonicalize (VObject [(lit "a", VDouble); (lit "b", VNull)]).
Proof.
  apply (entry_order_is_irrelevant [(lit "b", VNull); (lit "a", VDouble)]).
  - apply (bool_decide_unpack _). vm_compute. exact I.
  - apply perm_swap.
Defined.

Lemma utf8_to_utf16_correct_witness :
  utf8_to_utf16 (utf8_text [0x1F600; 65]) = [0xD83D; 0xDE00; 65].
Proof.
  rewrite (proj1 (utf8_to_utf16_correct [0x1F600; 65] [] ltac:(repeat constructor; cbn; lia) ltac:(constructor))).
  vm_compute. reflexivity.
Defined.

End JcsExamples.
