(* ===== verification/Jsonb.v ===== *)
(** * Operations as JSONB ([to_jsonb.cpp], [from_jsonb.cpp])

    The C++ conversions are templates over the types of the protocol: overloads for the
    basic types, containers and variants, and [fc::reflector] for structures.  Here a type
    is a description [ty], its values are [denote t], and the overload set is a function
    on descriptions.

    The protocol library (texts of keys, times and assets, defaults of structures, orders)
    and the server's JSONB functions are classes; what the conversions rely on are the
    laws of these classes. *)

From S2P Require Import Prelude Text.
From Stdlib Require Import ZArith Lia Ascii String.
From stdpp Require Import base list strings sorting.

Open Scope Z_scope.

Inductive jsonb_error :=
| assert_failed                                     (* FC_ASSERT *)
| invalid_arg                                       (* fc::invalid_arg_exception *)
| null_pointer
| library_error (what : chars).

(** ** Types *)

(** The integers with overloads in both directions. *)
Inductive integer := Int16 | Int64 | UInt8 | UInt16 | UInt32 | UInt64.

(** The library's types whose JSON is a string. *)
Inductive text_type :=
| fixed_string (size : nat)
| public_key_type
| time_point_sec
| legacy_asset.

Inductive ty :=
| TBool
| TInteger (i : integer)
| TString
| TJsonString
| TText (k : text_type)
| TBytes                                            (* std::vector< char > *)
| TArray (n : nat)                                  (* fc::array, fc::sha256, fc::ripemd160 *)
| TSafe (t : ty)
| TOptional (t : ty)
| TVector (t : ty)
| TPair (a b : ty)
| TFlatSet (t : ty)
| TFlatSetEx (t : ty)
| TFlatMap (k v : ty)
| TAsset
| TLegacyHiveAsset
| TStruct (name : chars) (members : list (chars * ty))
| TStaticVariant (name : chars) (t : ty) (rest : list (chars * ty)).

Record asset (symbol : Type) := Asset { amount : Z; asset_symbol : symbol }.
Arguments Asset {symbol}.
Arguments amount {symbol}.
Arguments asset_symbol {symbol}.

(** ** The protocol library *)
Class Protocol := {
  text_value : text_type -> Type;
  text_of : forall k, text_value k -> chars;
  text_parse : forall k, chars -> outcome jsonb_error (text_value k);
  text_default : forall k, text_value k;
  symbol : Type;
  symbol_default : symbol;
  decimals : symbol -> Z;
  to_nai_string : symbol -> chars;
  from_nai_string : chars -> Z -> outcome jsonb_error symbol;
  legacy_of_asset : asset symbol -> text_value legacy_asset;
  asset_of_legacy : text_value legacy_asset -> asset symbol;
  legacy_hive_asset : Type;
  hive_asset_default : legacy_hive_asset;
  to_asset : legacy_hive_asset -> asset symbol;
  from_asset : asset symbol -> legacy_hive_asset;
  legacy_enabled : bool;                            (* serialization_mode_controller *)
  max_positive_value : Z;                           (* fc::json *)
  max_negative_value : Z;
  to_hex : list ascii -> chars;
  from_hex : chars -> nat -> list ascii;            (* the bytes written to a buffer of that size *)
  string_to_uint64_fc : chars -> outcome jsonb_error Z;   (* fc::from_variant of a string *)
  lexical_cast_int64 : chars -> outcome jsonb_error Z;    (* boost *)
}.

(** ** The server *)

Inductive JsonbIteratorToken :=
| WJB_KEY | WJB_VALUE | WJB_ELEM
| WJB_BEGIN_ARRAY | WJB_END_ARRAY | WJB_BEGIN_OBJECT | WJB_END_OBJECT.

Inductive JsonbValue (numeric container : Type) :=
| jbvNull
| jbvString (s : chars)
| jbvNumeric (n : numeric)
| jbvBool (b : bool)
| jbvBinary (c : container).
Arguments jbvNull {numeric container}.
Arguments jbvString {numeric container}.
Arguments jbvNumeric {numeric container}.
Arguments jbvBool {numeric container}.
Arguments jbvBinary {numeric container}.

(** A call of [pushJsonbValue]; the parse state is the sequence of calls. *)
Record push (numeric container : Type) := Push {
  push_token : JsonbIteratorToken;
  push_value : option (JsonbValue numeric container)
}.
Arguments Push {numeric container}.

Class Server := {
  numeric : Type;
  numeric_in : chars -> numeric;
  numeric_out : numeric -> chars;
  container : Type;
  JsonContainerIsObject : container -> bool;
  JsonContainerIsArray : container -> bool;
  JsonContainerSize : container -> nat;
  getIthJsonbValueFromContainer : container -> nat -> option (JsonbValue numeric container);
  getKeyJsonValueFromContainer : container -> chars -> option (JsonbValue numeric container);
  assembled : list (push numeric container) -> option (JsonbValue numeric container)
}.

(** ** Values *)

Section denote.
  Context {P : Protocol}.

(** The members of a structure and the alternatives of a variant, one by one. *)
Definition members (D : ty -> Type) : list (chars * ty) -> Type :=
  fix go ms := match ms with [] => unit | (_, t) :: ms' => (D t * go ms')%type end.

Definition alternatives (D : ty -> Type) : list (chars * ty) -> Type :=
  fix go alts := match alts with [] => Empty_set | (_, t) :: alts' => (D t + go alts')%type end.

Fixpoint denote (t : ty) : Type :=
  match t with
  | TBool => bool
  | TInteger _ => Z
  | TString | TJsonString => chars
  | TText k => text_value k
  | TBytes | TArray _ => list ascii
  | TSafe t => denote t
  | TOptional t => option (denote t)
  | TVector t | TFlatSet t | TFlatSetEx t => list (denote t)
  | TPair a b => (denote a * denote b)%type
  | TFlatMap k v => list (denote k * denote v)
  | TAsset => asset symbol
  | TLegacyHiveAsset => legacy_hive_asset
  | TStruct _ ms => members denote ms
  | TStaticVariant _ t rest => (denote t + alternatives denote rest)%type
  end.

End denote.

(** What the library defines for its own types: the values of default-constructed
    structures and the order used by the flat containers. *)
Class Structures {P : Protocol} := {
  struct_default : forall (name : chars) (ms : list (chars * ty)), members denote ms;
  less : forall t, denote t -> denote t -> bool
}.

Section conversions.
  Context {P : Protocol} {S : Structures} {J : Server}.

  Abbreviation pushes := (list (push numeric container)) (only parsing).
  Abbreviation json := (JsonbValue numeric container) (only parsing).
  Abbreviation result := (outcome jsonb_error) (only parsing).

(** ** Writing: [to_jsonb.cpp] *)

(** [pstrdup_truncate_nul] *)
Fixpoint pstrdup_truncate_nul (data : chars) : chars :=
  match data with
  | [] => []
  | c :: data' => if Ascii.eqb c NUL then [] else c :: pstrdup_truncate_nul data'
  end.

Definition push_key_to_jsonb (key : chars) : pushes :=
  [Push WJB_KEY (Some (jbvString (pstrdup_truncate_nul key)))].

Definition push_string_to_jsonb (value : chars) (token : JsonbIteratorToken) : pushes :=
  [Push token (Some (jbvString (pstrdup_truncate_nul value)))].

Definition push_bool_to_jsonb (value : bool) (token : JsonbIteratorToken) : pushes :=
  [Push token (Some (jbvBool value))].

Definition push_numeric_to_jsonb (num : chars) (token : JsonbIteratorToken) : pushes :=
  [Push token (Some (jbvNumeric (numeric_in num)))].

Definition push_uint64_to_jsonb (value : Z) (token : JsonbIteratorToken) : pushes :=
  if value <=? max_positive_value then push_numeric_to_jsonb (dec value) token
  else push_string_to_jsonb (dec value) token.

Definition push_int64_to_jsonb (value : Z) (token : JsonbIteratorToken) : pushes :=
  if (value <=? max_positive_value) && (max_negative_value <=? value)
  then push_numeric_to_jsonb (dec value) token
  else push_string_to_jsonb (dec value) token.

(** The overloads for integers. *)
Definition integer_to_jsonb (i : integer) (value : Z) (token : JsonbIteratorToken) : pushes :=
  match i with
  | Int16 | UInt8 | UInt16 | UInt32 => push_numeric_to_jsonb (dec value) token
  | Int64 => push_int64_to_jsonb value token
  | UInt64 => push_uint64_to_jsonb value token
  end.

Definition asset_to_jsonb (value : asset symbol) (token : JsonbIteratorToken) : pushes :=
  if legacy_enabled then push_string_to_jsonb (text_of legacy_asset (legacy_of_asset value)) token
  else
    [Push WJB_BEGIN_OBJECT None]
    ++ push_key_to_jsonb (lit "amount")
    ++ push_string_to_jsonb (dec (amount value)) WJB_VALUE
    ++ push_key_to_jsonb (lit "precision")
    ++ push_numeric_to_jsonb (dec (decimals (asset_symbol value))) WJB_VALUE
    ++ push_key_to_jsonb (lit "nai")
    ++ push_string_to_jsonb (to_nai_string (asset_symbol value)) WJB_VALUE
    ++ [Push WJB_END_OBJECT None].

(** The loop of [std::vector], [flat_set] and [flat_map]. *)
Definition sequence_to_jsonb {A} (f : A -> JsonbIteratorToken -> pushes) (value : list A) : pushes :=
  [Push WJB_BEGIN_ARRAY None] ++ concat (map (fun elem => f elem WJB_ELEM) value)
  ++ [Push WJB_END_ARRAY None].

Definition pair_to_jsonb {A B} (f : A -> JsonbIteratorToken -> pushes)
    (g : B -> JsonbIteratorToken -> pushes) (value : A * B) : pushes :=
  [Push WJB_BEGIN_ARRAY None] ++ f value.1 WJB_ELEM ++ g value.2 WJB_ELEM
  ++ [Push WJB_END_ARRAY None].

Definition map_to_jsonb {A B} (f : A -> JsonbIteratorToken -> pushes) (g : B -> JsonbIteratorToken -> pushes)
    (value : list (A * B)) : pushes :=
  sequence_to_jsonb (fun kv _ => pair_to_jsonb f g kv) value.
Arguments map_to_jsonb /.

(** [tiny_asset], given as the asset [to_asset] makes of it. *)
Definition tiny_asset_to_jsonb (value : asset symbol) (token : JsonbIteratorToken) : pushes :=
  if legacy_enabled then push_string_to_jsonb (text_of legacy_asset (legacy_of_asset value)) token
  else asset_to_jsonb value token.

(** The test for the legacy form is made twice. *)
Lemma tiny_asset_is_asset value token : tiny_asset_to_jsonb value token = asset_to_jsonb value token.
Proof. unfold tiny_asset_to_jsonb, asset_to_jsonb. by destruct legacy_enabled. Qed.

(** [fc::reflector::visit] with [member_to_jsonb_visitor]. *)
Definition members_to_jsonb (f : forall t, denote t -> JsonbIteratorToken -> pushes) :
    forall ms, members denote ms -> pushes :=
  fix go ms := match ms with
  | [] => fun _ => []
  | (name, t) :: ms' => fun v =>
      push_key_to_jsonb name ++ f t v.1 WJB_VALUE ++ go ms' v.2
  end.

(** [static_variant_to_jsonb_visitor], on the alternative that is stored. *)
Definition alternative_to_jsonb (type_name : chars) (value : pushes) : pushes :=
  [Push WJB_BEGIN_OBJECT None]
  ++ push_key_to_jsonb (lit "type") ++ push_string_to_jsonb type_name WJB_VALUE
  ++ push_key_to_jsonb (lit "value") ++ value
  ++ [Push WJB_END_OBJECT None].

Definition alternatives_to_jsonb (f : forall t, denote t -> JsonbIteratorToken -> pushes) :
    forall alts, alternatives denote alts -> pushes :=
  fix go alts := match alts with
  | [] => fun v => match v with end
  | (name, t) :: alts' => fun v =>
      match v with
      | inl o => alternative_to_jsonb name (f t o WJB_VALUE)
      | inr v' => go alts' v'
      end
  end.

Fixpoint to_jsonb (t : ty) : denote t -> JsonbIteratorToken -> pushes :=
  match t with
  | TBool => push_bool_to_jsonb
  | TInteger i => integer_to_jsonb i
  | TString | TJsonString => push_string_to_jsonb
  | TText k => fun value => push_string_to_jsonb (text_of k value)
  | TBytes => fun value => push_string_to_jsonb (to_hex value)
  | TArray n => fun value => push_string_to_jsonb (to_hex value)
  | TSafe t => fun value => to_jsonb t value
  | TOptional t => fun value token =>
      match value with Some v => to_jsonb t v token | None => [] end
  | TVector t | TFlatSet t | TFlatSetEx t => fun value _ => sequence_to_jsonb (to_jsonb t) value
  | TPair a b => fun value _ => pair_to_jsonb (to_jsonb a) (to_jsonb b) value
  | TFlatMap k v => fun value _ =>
      map_to_jsonb (to_jsonb k) (to_jsonb v) value
  | TAsset => asset_to_jsonb
  | TLegacyHiveAsset => fun value => asset_to_jsonb (to_asset value)
  | TStruct _ ms => fun value _ =>
      [Push WJB_BEGIN_OBJECT None] ++ members_to_jsonb to_jsonb ms value
      ++ [Push WJB_END_OBJECT None]
  | TStaticVariant name t rest => fun value _ =>
      match value with
      | inl o => alternative_to_jsonb name (to_jsonb t o WJB_VALUE)
      | inr v => alternatives_to_jsonb to_jsonb rest v
      end
  end.

(** ** Reading: [from_jsonb.cpp] *)

(** A value-initialised object, [T{}]. *)
Fixpoint default_value (t : ty) : denote t :=
  match t with
  | TBool => false
  | TInteger _ => 0
  | TString | TJsonString => []
  | TText k => text_default k
  | TBytes => []
  | TArray n => replicate n NUL
  | TSafe t => default_value t
  | TOptional _ => None
  | TVector _ | TFlatSet _ | TFlatSetEx _ => []
  | TPair a b => (default_value a, default_value b)
  | TFlatMap _ _ => []
  | TAsset => Asset 0 symbol_default
  | TLegacyHiveAsset => hive_asset_default
  | TStruct name ms => struct_default name ms
  | TStaticVariant _ t _ => inl (default_value t)
  end.

Definition string_to_uint64 (str : chars) : result Z := string_to_uint64_fc str.
Definition numeric_to_uint64 (num : numeric) : result Z := string_to_uint64 (numeric_out num).

(** The conversions [static_cast< T >] of a [uint64_t]. *)
Definition cast (i : integer) (z : Z) : Z :=
  match i with
  | Int16 => wrap_s 16 z
  | Int64 => wrap_s 64 z
  | UInt8 => wrap_u 8 z
  | UInt16 => wrap_u 16 z
  | UInt32 => wrap_u 32 z
  | UInt64 => z
  end.

Definition set_integer (i : integer) (j : json) : result Z :=
  match i with
  | Int64 | UInt64 =>
      match j with
      | jbvNumeric n => z ← numeric_to_uint64 n; Ok (cast i z)
      | jbvString s => z ← string_to_uint64 s; Ok (cast i z)
      | _ => Throw invalid_arg
      end
  | _ =>
      match j with
      | jbvNumeric n => z ← numeric_to_uint64 n; Ok (cast i z)
      | _ => Throw assert_failed
      end
  end.

(** [FC_ASSERT( json.type == jbvString )] and the text. *)
Definition get_string (j : json) : result chars :=
  match j with jbvString s => Ok s | _ => Throw assert_failed end.

Definition get_array (j : json) : result container :=
  match j with
  | jbvBinary c => _ ← o_assert (JsonContainerIsArray c) assert_failed; Ok c
  | _ => Throw assert_failed
  end.

Definition get_object (j : json) : result container :=
  match j with
  | jbvBinary c => _ ← o_assert (JsonContainerIsObject c) assert_failed; Ok c
  | _ => Throw assert_failed
  end.

(** A key looked up into a value that is null to begin with. *)
Definition get_key (c : container) (key : chars) : json :=
  match getKeyJsonValueFromContainer c key with Some v => v | None => jbvNull end.

Definition get_ith (c : container) (n : nat) : result json :=
  match getIthJsonbValueFromContainer c n with Some v => Ok v | None => Throw null_pointer end.

Definition set_bytes (j : json) : result (list ascii) :=
  s ← get_string j; Ok (from_hex s (length s / 2)).

(** [fc::array], [fc::sha256] and [fc::ripemd160]: [memcpy] over the member. *)
Definition set_array (n : nat) (member : list ascii) (j : json) : result (list ascii) :=
  s ← get_string j;
  if (0 <? length s)%nat then
    data ← set_bytes j;
    let count := Nat.min (length data) n in
    Ok (take count data ++ drop count member)
  else Ok (replicate n NUL).

Definition set_legacy_asset (j : json) : result (text_value legacy_asset) :=
  s ← get_string j; text_parse legacy_asset s.

Definition set_asset (j : json) : result (asset symbol) :=
  if legacy_enabled then a ← set_legacy_asset j; Ok (asset_of_legacy a)
  else
    c ← get_object j;
    amount_str ← get_string (get_key c (lit "amount"));
    _ ← o_assert (match get_key c (lit "precision") with jbvNumeric _ => true | _ => false end)
                 assert_failed;
    nai_str ← get_string (get_key c (lit "nai"));
    precision ← set_integer UInt8 (get_key c (lit "precision"));
    amount_int ← lexical_cast_int64 amount_str;
    _ ← o_assert (0 <=? amount_int) assert_failed;
    sym ← from_nai_string nai_str precision;
    Ok (Asset amount_int sym).

Definition set_pair {A B} (f : json -> result A) (g : json -> result B) (j : json) : result (A * B) :=
  c ← get_array j;
  _ ← o_assert (JsonContainerSize c =? 2)%nat assert_failed;
  ja ← get_ith c 0; a ← f ja;
  jb ← get_ith c 1; b ← g jb;
  Ok (a, b).

Definition set_bool (j : json) : result bool :=
  match j with jbvBool b => Ok b | _ => Throw assert_failed end.
Arguments set_bool /.

Definition set_optional {A} (f : json -> result A) (j : json) : result (option A) :=
  match j with
  | jbvNull => Ok None
  | _ => v ← f j; Ok (Some v)
  end.
Arguments set_optional {A} /.

(** [std::vector::resize] and the loop over its elements. *)
Definition resize {A} (n : nat) (d : A) (l : list A) : list A :=
  take n l ++ replicate (n - length l) d.

Fixpoint set_elements {A} (f : A -> json -> result A) (c : container) (n : nat) (l : list A) :
    result (list A) :=
  match l with
  | [] => Ok []
  | x :: l' => j ← get_ith c n; y ← f x j; ys ← set_elements f c (n + 1) l'; Ok (y :: ys)
  end.

(** [insert] of the flat containers: an element with an equal key stays. *)
Fixpoint flat_insert {A} (lt : A -> A -> bool) (x : A) (l : list A) : list A :=
  match l with
  | [] => [x]
  | y :: l' => if lt y x then y :: flat_insert lt x l' else if lt x y then x :: l else l
  end.

(** The loop of the flat containers over the elements from [n] on; [ordered] is the check
    of [flat_set_ex] against the last element. *)
Fixpoint insert_elements {A} (f : json -> result A) (lt : A -> A -> bool) (ordered : bool)
    (c : container) (count n : nat) (member : list A) : result (list A) :=
  match count with
  | O => Ok member
  | Datatypes.S count' =>
      j ← get_ith c n; x ← f j;
      _ ← (if ordered then
             match last member with Some y => o_assert (lt y x) assert_failed | None => Ok tt end
           else Ok tt);
      insert_elements f lt ordered c count' (n + 1) (flat_insert lt x member)
  end.

Definition set_flat {A} (f : json -> result A) (lt : A -> A -> bool) (ordered : bool)
    (member : list A) (j : json) : result (list A) :=
  c ← get_array j; insert_elements f lt ordered c (JsonContainerSize c) 0 member.

(** [member_from_jsonb_visitor]: a missing key leaves the member as it is. *)
Definition fill_members (f : forall t, denote t -> json -> result (denote t)) (c : container) :
    forall ms, members denote ms -> result (members denote ms) :=
  fix go ms := match ms with
  | [] => fun _ => Ok tt
  | (name, t) :: ms' => fun obj =>
      x ← match getKeyJsonValueFromContainer c name with
          | Some value => f t obj.1 value
          | None => Ok obj.1
          end;
      xs ← go ms' obj.2; Ok (x, xs)
  end.

(** The alternative found by [to_tag]; of two with the same name the later one counts. *)
Definition set_alternative (f : forall t, denote t -> json -> result (denote t)) (tag : chars)
    (value : json) : forall alts, option (result (alternatives denote alts)) :=
  fix go alts := match alts with
  | [] => None
  | (name, t) :: alts' =>
      match go alts' with
      | Some r => Some (v ← r; Ok (inr v))
      | None =>
          if decide (name = tag) then Some (v ← f t (default_value t) value; Ok (inl v)) else None
      end
  end.

Fixpoint set_member (t : ty) : denote t -> json -> result (denote t) :=
  match t with
  | TBool => fun _ j => set_bool j
  | TInteger i => fun _ j => set_integer i j
  | TString | TJsonString => fun _ j => get_string j
  | TText k => fun _ j => s ← get_string j; text_parse k s
  | TBytes => fun _ j => set_bytes j
  | TArray n => fun member j => set_array n member j
  | TSafe t => fun _ j => set_member t (default_value t) j
  | TOptional t => fun _ j => set_optional (set_member t (default_value t)) j
  | TVector t => fun member j =>
      c ← get_array j;
      set_elements (set_member t) c 0 (resize (JsonContainerSize c) (default_value t) member)
  | TPair a b => fun _ j => set_pair (set_member a (default_value a)) (set_member b (default_value b)) j
  | TFlatSet t => fun member j => set_flat (set_member t (default_value t)) (less t) false member j
  | TFlatSetEx t => fun member j => set_flat (set_member t (default_value t)) (less t) true member j
  | TFlatMap k v => fun member j =>
      set_flat (set_pair (set_member k (default_value k)) (set_member v (default_value v)))
               (fun x y => less k x.1 y.1) false member j
  | TAsset => fun _ j => set_asset j
  | TLegacyHiveAsset => fun _ j => a ← set_asset j; Ok (from_asset a)
  | TStruct _ ms => fun member j =>
      c ← get_object j; fill_members set_member c ms member
  | TStaticVariant name t rest => fun _ j =>
      c ← get_object j;
      tag ← get_string (get_key c (lit "type"));
      _ ← get_object (get_key c (lit "value"));
      match set_alternative set_member tag (get_key c (lit "value")) rest with
      | Some r => v ← r; Ok (inr v)
      | None =>
          if decide (name = tag)
          then v ← set_member t (default_value t) (get_key c (lit "value")); Ok (inl v)
          else Throw assert_failed
      end
  end.

(** [operation_to_jsonb_value] and [operation_from_jsonb_value] for the variant
    [hive::protocol::operation]. *)
Definition operation_to_jsonb_value (name : chars) (t : ty) (rest : list (chars * ty))
    (op : denote (TStaticVariant name t rest)) : option json :=
  assembled (to_jsonb (TStaticVariant name t rest) op WJB_VALUE).

Definition operation_from_jsonb_value (name : chars) (t : ty) (rest : list (chars * ty)) (j : json) :
    result (denote (TStaticVariant name t rest)) :=
  set_member (TStaticVariant name t rest) (default_value (TStaticVariant name t rest)) j.

End conversions.

(** ** JSON documents

    What a sequence of pushes spells.  A member may be a key without a value: the key of
    an empty [fc::optional]. *)

Inductive jtree (numeric : Type) :=
| JString (s : chars)
| JNumeric (n : numeric)
| JBool (b : bool)
| JArray (l : list (jtree numeric))
| JObject (ms : list (chars * option (jtree numeric))).
Arguments JString {numeric}.
Arguments JNumeric {numeric}.
Arguments JBool {numeric}.
Arguments JArray {numeric}.
Arguments JObject {numeric}.

Fixpoint tokens {numeric container} (token : JsonbIteratorToken) (j : jtree numeric) :
    list (push numeric container) :=
  match j with
  | JString s => [Push token (Some (jbvString s))]
  | JNumeric n => [Push token (Some (jbvNumeric n))]
  | JBool b => [Push token (Some (jbvBool b))]
  | JArray l =>
      [Push WJB_BEGIN_ARRAY None] ++ concat (map (tokens WJB_ELEM) l) ++ [Push WJB_END_ARRAY None]
  | JObject ms =>
      [Push WJB_BEGIN_OBJECT None]
      ++ concat (map (fun m => Push WJB_KEY (Some (jbvString m.1))
                               :: match m.2 with Some v => tokens WJB_VALUE v | None => [] end) ms)
      ++ [Push WJB_END_OBJECT None]
  end.

(** The value of a key: the last one given to it. *)
Fixpoint last_value {A} (key : chars) (ms : list (chars * option A)) : option A :=
  match ms with
  | [] => None
  | (k, o) :: ms' =>
      match last_value key ms' with
      | Some v => Some v
      | None => if decide (k = key) then o else None
      end
  end.

(** ** What the conversions rely on *)

(** A document spelled by pushes is read back: arrays by position, objects by key; keys
    without a value are not members. *)
Class ServerLaws {J : Server} := {
  numeric_text z : - 2 ^ 63 <= z < 2 ^ 64 -> numeric_out (numeric_in (dec z)) = dec z;
  value_of : jtree numeric -> JsonbValue numeric container;
  value_of_string s : value_of (JString s) = jbvString s;
  value_of_numeric n : value_of (JNumeric n) = jbvNumeric n;
  value_of_bool b : value_of (JBool b) = jbvBool b;
  value_of_array l : exists c, value_of (JArray l) = jbvBinary c
    /\ JsonContainerIsArray c = true /\ JsonContainerSize c = length l
    /\ forall n, getIthJsonbValueFromContainer c n = value_of <$> l !! n;
  value_of_object ms : exists c, value_of (JObject ms) = jbvBinary c
    /\ JsonContainerIsObject c = true
    /\ forall key, getKeyJsonValueFromContainer c key = value_of <$> last_value key ms;
  assembled_object ms token : assembled (tokens token (JObject ms)) = Some (value_of (JObject ms))
}.

Definition no_nul (s : chars) : Prop := NUL ∉ s.

(** Texts and numbers of the library are read back. *)
Class ProtocolLaws {P : Protocol} {S : Structures} := {
  text_round_trip k v : text_parse k (text_of k v) = Ok v;
  nai_round_trip s : from_nai_string (to_nai_string s) (decimals s) = Ok s;
  nai_no_nul s : no_nul (to_nai_string s);
  decimals_range s : 0 <= decimals s < 256;
  hex_round_trip bytes : from_hex (to_hex bytes) (length bytes) = bytes;
  hex_length bytes : length (to_hex bytes) = (2 * length bytes)%nat;
  hex_no_nul bytes : no_nul (to_hex bytes);
  uint64_text z : - 2 ^ 63 <= z < 2 ^ 64 -> string_to_uint64_fc (dec z) = Ok (z mod 2 ^ 64);
  int64_text z : 0 <= z < 2 ^ 63 -> lexical_cast_int64 (dec z) = Ok z;
  less_irrefl t x : less t x x = false;
  less_trans t x y z : less t x y = true -> less t y z = true -> less t x z = true
}.

(** ** Values that survive *)

Section spec.
  Context {P : Protocol} {S : Structures} {J : Server}.

(** The document of a value; nothing for an empty [fc::optional]. *)
Definition integer_tree (i : integer) (z : Z) : jtree numeric :=
  match i with
  | Int16 | UInt8 | UInt16 | UInt32 => JNumeric (numeric_in (dec z))
  | Int64 =>
      if (z <=? max_positive_value) && (max_negative_value <=? z)
      then JNumeric (numeric_in (dec z)) else JString (pstrdup_truncate_nul (dec z))
  | UInt64 =>
      if z <=? max_positive_value
      then JNumeric (numeric_in (dec z)) else JString (pstrdup_truncate_nul (dec z))
  end.

Definition asset_tree (a : asset symbol) : jtree numeric :=
  if legacy_enabled then JString (pstrdup_truncate_nul (text_of legacy_asset (legacy_of_asset a)))
  else JObject [(lit "amount", Some (JString (pstrdup_truncate_nul (dec (amount a)))));
                (lit "precision", Some (JNumeric (numeric_in (dec (decimals (asset_symbol a))))));
                (lit "nai", Some (JString (pstrdup_truncate_nul (to_nai_string (asset_symbol a)))))].

Definition members_tree (f : forall t, denote t -> option (jtree numeric)) :
    forall ms, members denote ms -> list (chars * option (jtree numeric)) :=
  fix go ms := match ms with
  | [] => fun _ => []
  | (name, t) :: ms' => fun v => (pstrdup_truncate_nul name, f t v.1) :: go ms' v.2
  end.

Definition alternative_tree (name : chars) (value : option (jtree numeric)) : jtree numeric :=
  JObject [(lit "type", Some (JString (pstrdup_truncate_nul name))); (lit "value", value)].

Definition alternatives_tree (f : forall t, denote t -> option (jtree numeric)) :
    forall alts, alternatives denote alts -> jtree numeric :=
  fix go alts := match alts with
  | [] => fun v => match v with end
  | (name, t) :: alts' => fun v =>
      match v with inl o => alternative_tree name (f t o) | inr v' => go alts' v' end
  end.

Definition pair_tree {A B} (f : A -> option (jtree numeric)) (g : B -> option (jtree numeric))
    (v : A * B) : jtree numeric :=
  JArray (omap id [f v.1; g v.2]).

Fixpoint tree (t : ty) : denote t -> option (jtree numeric) :=
  match t with
  | TBool => fun v => Some (JBool v)
  | TInteger i => fun v => Some (integer_tree i v)
  | TString | TJsonString => fun v => Some (JString (pstrdup_truncate_nul v))
  | TText k => fun v => Some (JString (pstrdup_truncate_nul (text_of k v)))
  | TBytes | TArray _ => fun v => Some (JString (pstrdup_truncate_nul (to_hex v)))
  | TSafe t => tree t
  | TOptional t => fun v => match v with Some x => tree t x | None => None end
  | TVector t | TFlatSet t | TFlatSetEx t => fun v => Some (JArray (omap (tree t) v))
  | TPair a b => fun v => Some (pair_tree (tree a) (tree b) v)
  | TFlatMap k v => fun l => Some (JArray (map (pair_tree (tree k) (tree v)) l))
  | TAsset => fun v => Some (asset_tree v)
  | TLegacyHiveAsset => fun v => Some (asset_tree (to_asset v))
  | TStruct _ ms => fun v => Some (JObject (members_tree tree ms v))
  | TStaticVariant name t rest => fun v =>
      Some (match v with
            | inl o => alternative_tree name (tree t o)
            | inr v' => alternatives_tree tree rest v'
            end)
  end.

Definition in_range (i : integer) (z : Z) : Prop :=
  match i with
  | Int16 => - 2 ^ 15 <= z < 2 ^ 15
  | Int64 => - 2 ^ 63 <= z < 2 ^ 63
  | UInt8 => 0 <= z < 2 ^ 8
  | UInt16 => 0 <= z < 2 ^ 16
  | UInt32 => 0 <= z < 2 ^ 32
  | UInt64 => 0 <= z < 2 ^ 64
  end.

(** A value that is written: not an empty [fc::optional]. *)
Fixpoint present (t : ty) : denote t -> Prop :=
  match t with
  | TOptional t => fun v => match v with Some x => present t x | None => False end
  | TSafe t => present t
  | _ => fun _ => True
  end.

Definition lossless_asset (a : asset symbol) : Prop :=
  if legacy_enabled
  then no_nul (text_of legacy_asset (legacy_of_asset a))
       /\ asset_of_legacy (legacy_of_asset a) = a
  else 0 <= amount a < 2 ^ 63.

Definition all_members (Q : forall t, denote t -> Prop) : forall ms, members denote ms -> Prop :=
  fix go ms := match ms with
  | [] => fun _ => True
  | (_, t) :: ms' => fun v => Q t v.1 /\ go ms' v.2
  end.

Definition alternative_holds (Q : forall t, denote t -> Prop) :
    forall alts, alternatives denote alts -> Prop :=
  fix go alts := match alts with
  | [] => fun _ => True
  | (_, t) :: alts' => fun v => match v with inl o => Q t o | inr v' => go alts' v' end
  end.

(** A value that is what its document says: integers of their type's range, strings without
    NUL, flat containers in order, no empty optional where a value is needed. *)
Fixpoint lossless (t : ty) : denote t -> Prop :=
  match t with
  | TBool => fun _ => True
  | TInteger i => in_range i
  | TString | TJsonString => no_nul
  | TText k => fun v => no_nul (text_of k v)
  | TBytes => fun _ => True
  | TArray n => fun v => length v = n
  | TSafe t => lossless t
  | TOptional t => fun v => match v with Some x => lossless t x /\ present t x | None => True end
  | TVector t => Forall (fun x => lossless t x /\ present t x)
  | TPair a b => fun v => (lossless a v.1 /\ present a v.1) /\ lossless b v.2 /\ present b v.2
  | TFlatSet t | TFlatSetEx t => fun v =>
      Forall (fun x => lossless t x /\ present t x) v
      /\ StronglySorted (fun x y => less t x y = true) v
  | TFlatMap k w => fun v =>
      Forall (fun x => (lossless k x.1 /\ present k x.1) /\ lossless w x.2 /\ present w x.2) v
      /\ StronglySorted (fun x y => less k x.1 y.1 = true) v
  | TAsset => lossless_asset
  | TLegacyHiveAsset => fun v => lossless_asset (to_asset v) /\ from_asset (to_asset v) = v
  | TStruct _ ms => all_members lossless ms
  | TStaticVariant _ t rest => fun v =>
      match v with inl o => lossless t o | inr v' => alternative_holds lossless rest v' end
  end.

(** An object nothing has been read into: its containers and optionals are empty. *)
Fixpoint untouched (t : ty) : denote t -> Prop :=
  match t with
  | TArray n => fun v => length v = n
  | TSafe t => untouched t
  | TOptional t => fun v => v = None
  | TVector t | TFlatSet t | TFlatSetEx t => fun v => v = []
  | TFlatMap _ _ => fun v => v = []
  | TStruct _ ms => all_members untouched ms
  | _ => fun _ => True
  end.

(** Names of members are distinct C identifiers; the alternatives of a variant are
    structures with distinct names. *)
Definition distinct_names (ms : list (chars * ty)) : Prop :=
  NoDup ms.*1 /\ Forall (fun m => no_nul m.1) ms.

Definition is_struct (t : ty) : Prop := match t with TStruct _ _ => True | _ => False end.

Definition every_type (Q : ty -> Prop) : list (chars * ty) -> Prop :=
  fix go ms := match ms with [] => True | (_, t) :: ms' => Q t /\ go ms' end.

Fixpoint well_formed (t : ty) : Prop :=
  match t with
  | TSafe t | TOptional t | TVector t | TFlatSet t | TFlatSetEx t => well_formed t
  | TPair a b | TFlatMap a b => well_formed a /\ well_formed b
  | TStruct _ ms => distinct_names ms /\ every_type well_formed ms
  | TStaticVariant name t rest =>
      distinct_names ((name, t) :: rest)
      /\ (is_struct t /\ well_formed t)
      /\ every_type (fun t => is_struct t) rest /\ every_type well_formed rest
  | _ => True
  end.

End spec.

(** Default-constructed structures of the protocol have empty containers and optionals. *)
Class DefaultLaws {P : Protocol} {S : Structures} := {
  struct_default_fresh name ms : untouched (TStruct name ms) (struct_default name ms)
}.

(** ** Induction over types *)

Section ty_ind.
  Context (Q : ty -> Prop).
  Hypothesis basic : forall t,
    match t with
    | TBool | TInteger _ | TString | TJsonString | TText _ | TBytes | TArray _
    | TAsset | TLegacyHiveAsset => True
    | _ => False
    end -> Q t.
  Hypothesis inner : forall t, Q t ->
    Q (TSafe t) /\ Q (TOptional t) /\ Q (TVector t) /\ Q (TFlatSet t) /\ Q (TFlatSetEx t).
  Hypothesis pairs : forall a b, Q a -> Q b -> Q (TPair a b) /\ Q (TFlatMap a b).
  Hypothesis structs : forall name ms, every_type Q ms -> Q (TStruct name ms).
  Hypothesis variants : forall name t rest, Q t -> every_type Q rest ->
    Q (TStaticVariant name t rest).

Fixpoint ty_nested_ind (t : ty) : Q t :=
  let all := fix all (ms : list (chars * ty)) : every_type Q ms :=
    match ms with [] => I | (_, t) :: ms' => conj (ty_nested_ind t) (all ms') end in
  match t with
  | TSafe t => proj1 (inner t (ty_nested_ind t))
  | TOptional t => proj1 (proj2 (inner t (ty_nested_ind t)))
  | TVector t => proj1 (proj2 (proj2 (inner t (ty_nested_ind t))))
  | TFlatSet t => proj1 (proj2 (proj2 (proj2 (inner t (ty_nested_ind t)))))
  | TFlatSetEx t => proj2 (proj2 (proj2 (proj2 (inner t (ty_nested_ind t)))))
  | TPair a b => proj1 (pairs a b (ty_nested_ind a) (ty_nested_ind b))
  | TFlatMap a b => proj2 (pairs a b (ty_nested_ind a) (ty_nested_ind b))
  | TStruct name ms => structs name ms (all ms)
  | TStaticVariant name t rest => variants name t rest (ty_nested_ind t) (all rest)
  | t => basic t I
  end.

End ty_ind.

(** ** The document a value is written as *)

Section proofs.
  Context {P : Protocol} {S : Structures} {J : Server}.

  Abbreviation json_of := (JsonbValue numeric container) (only parsing).

Definition opt_tokens (token : JsonbIteratorToken) (o : option (jtree numeric)) :
    list (push numeric container) :=
  match o with Some j => tokens token j | None => [] end.

Lemma asset_tokens a token : asset_to_jsonb a token = tokens token (asset_tree a).
Proof. unfold asset_to_jsonb, asset_tree. by destruct legacy_enabled. Qed.

Lemma integer_tokens i z token : integer_to_jsonb i z token = tokens token (integer_tree i z).
Proof.
  destruct i; try done; unfold integer_to_jsonb, integer_tree, push_int64_to_jsonb, push_uint64_to_jsonb;
    by case_match.
Qed.

Lemma sequence_tokens {A} (f : A -> JsonbIteratorToken -> list (push numeric container)) g l token :
  (forall x token, f x token = opt_tokens token (g x)) ->
  sequence_to_jsonb f l = tokens token (JArray (omap g l)).
Proof.
  intros Hf. unfold sequence_to_jsonb. cbn. f_equal. f_equal.
  induction l as [|x l IH]; cbn; [done|]. rewrite IH, Hf.
  by destruct (g x).
Qed.

Lemma pair_tokens {A B} (f : A -> JsonbIteratorToken -> list (push numeric container))
    (g : B -> JsonbIteratorToken -> list (push numeric container)) f' g' v token :
  (forall x token, f x token = opt_tokens token (f' x)) ->
  (forall x token, g x token = opt_tokens token (g' x)) ->
  pair_to_jsonb f g v = tokens token (pair_tree f' g' v).
Proof.
  intros Hf Hg. unfold pair_to_jsonb, pair_tree. rewrite Hf, Hg. cbn.
  by destruct (f' v.1), (g' v.2); cbn; rewrite ?app_nil_r, <- ?app_assoc.
Qed.

Lemma members_tokens ms (v : members denote ms) :
  every_type (fun t => forall v token, to_jsonb t v token = opt_tokens token (tree t v)) ms ->
  members_to_jsonb to_jsonb ms v
  = concat (map (fun m => Push WJB_KEY (Some (jbvString m.1)) :: opt_tokens WJB_VALUE m.2)
                (members_tree tree ms v)).
Proof.
  induction ms as [|[name t] ms IH]; cbn; [done|]. intros [Ht Hms].
  by rewrite Ht, IH.
Qed.

Lemma alternatives_tokens alts (v : alternatives denote alts) token :
  every_type (fun t => forall v token, to_jsonb t v token = opt_tokens token (tree t v)) alts ->
  alternatives_to_jsonb to_jsonb alts v = tokens token (alternatives_tree tree alts v).
Proof.
  induction alts as [|[name t] alts IH]; cbn; [done|]. intros [Ht Halts].
  destruct v as [o|v]; [|by apply IH]. unfold alternative_to_jsonb. rewrite Ht. cbn.
  by rewrite app_nil_r.
Qed.

(** The pushes of a value spell its document. *)
Lemma to_jsonb_tokens t : forall v token, to_jsonb t v token = opt_tokens token (tree t v).
Proof.
  pattern t. apply ty_nested_ind; clear t;
    [intros t Ht|intros t IH|intros a b IHa IHb|intros name ms IH|intros name t rest IHt IH].
  - destruct t; try done; intros v token; cbn; auto using integer_tokens, asset_tokens.
  - split_and!; intros v token; cbn [to_jsonb tree opt_tokens]; auto using sequence_tokens.
    by destruct v.
  - split; intros v token; cbn [to_jsonb tree opt_tokens].
    + by apply pair_tokens.
    + unfold map_to_jsonb. erewrite sequence_tokens with (g := fun x => Some (pair_tree (tree a) (tree b) x)).
      2:{ intros x tok. by apply pair_tokens. }
      done.
  - intros v token. cbn. by rewrite members_tokens.
  - intros [o|v] token; cbn; [|by apply alternatives_tokens].
    unfold alternative_to_jsonb. rewrite IHt. cbn. by rewrite app_nil_r.
Qed.

(** ** Reading a document back *)

  Context {SL : ServerLaws} {PL : ProtocolLaws} {DL : DefaultLaws}.

Lemma no_nul_truncate s : no_nul s -> pstrdup_truncate_nul s = s.
Proof.
  induction s as [|c s IH]; intros Hs; cbn; [done|].
  apply not_elem_of_cons in Hs as [Hc Hs].
  destruct (Ascii.eqb_spec c NUL); [by subst|]. by rewrite IH.
Qed.

Lemma dec_no_nul z : no_nul (dec z).
Proof.
  assert (forall n, 0 <= n -> no_nul (dec_go 20 n [])) as Hgo.
  { intros n Hn Hin. pose proof (dec_go_digits 20 n Hn) as Hd.
    rewrite Forall_forall in Hd. by apply (digit_not_nul NUL (Hd _ Hin)). }
  unfold dec. destruct (Z.ltb_spec z 0); [|by apply Hgo].
  intros [H0|H0]%elem_of_cons; [done|]. apply (Hgo (- z)); [lia|done].
Qed.

Lemma cast_in_range i z : in_range i z -> cast i (z mod 2 ^ 64) = z.
Proof.
  destruct i; cbn [in_range cast]; intros Hz; unfold wrap_s, wrap_u; 
    try (rewrite Z.mod_small; lia).
  all: Z.div_mod_to_equations; lia.
Qed.

Lemma in_range_text i z : in_range i z -> - 2 ^ 63 <= z < 2 ^ 64.
Proof. destruct i; cbn [in_range]; lia. Qed.

Lemma set_integer_tree i z : in_range i z -> set_integer i (value_of (integer_tree i z)) = Ok z.
Proof.
  intros Hz. pose proof (in_range_text i z Hz) as Ht.
  assert (numeric_to_uint64 (numeric_in (dec z)) = Ok (z mod 2 ^ 64)) as Hn.
  { unfold numeric_to_uint64, string_to_uint64. by rewrite numeric_text, uint64_text. }
  assert (string_to_uint64 (pstrdup_truncate_nul (dec z)) = Ok (z mod 2 ^ 64)) as Hs.
  { unfold string_to_uint64. rewrite no_nul_truncate by apply dec_no_nul. by apply uint64_text. }
  pose proof (cast_in_range i z Hz) as Hc.
  destruct i; cbn [integer_tree]; try case_match;
    rewrite ?value_of_numeric, ?value_of_string; cbn [set_integer];
    rewrite ?Hn, ?Hs; cbn [mbind outcome_bind]; by rewrite Hc.
Qed.

Lemma set_text_tree k v : no_nul (text_of k v) ->
  (s ← get_string (value_of (JString (pstrdup_truncate_nul (text_of k v)))); text_parse k s) = Ok v.
Proof.
  intros Hv. rewrite value_of_string, no_nul_truncate by done. apply text_round_trip.
Qed.

Lemma half n : (2 * n / 2)%nat = n.
Proof. rewrite Nat.mul_comm. by apply Nat.div_mul. Qed.

Lemma set_bytes_tree v :
  set_bytes (value_of (JString (pstrdup_truncate_nul (to_hex v)))) = Ok v.
Proof.
  rewrite value_of_string, no_nul_truncate by apply hex_no_nul. unfold set_bytes. cbn [get_string mbind outcome_bind].
  by rewrite hex_length, half, hex_round_trip.
Qed.

Lemma set_array_tree n v old : length v = n -> length old = n ->
  set_array n old (value_of (JString (pstrdup_truncate_nul (to_hex v)))) = Ok v.
Proof.
  intros Hv Hold. unfold set_array. rewrite set_bytes_tree.
  rewrite value_of_string, no_nul_truncate by apply hex_no_nul. cbn [get_string mbind outcome_bind].
  rewrite hex_length. destruct (Nat.ltb_spec 0 (2 * length v)) as [Hp|Hp].
  - rewrite Hv, Nat.min_id, <- Hv, firstn_all, drop_ge, app_nil_r by lia. done.
  - destruct v; cbn in *; [by subst|lia].
Qed.

Lemma get_object_tree ms : exists c, get_object (value_of (JObject ms)) = Ok c
  /\ forall key, getKeyJsonValueFromContainer c key = value_of <$> last_value key ms.
Proof.
  destruct (value_of_object ms) as (c & -> & Ho & Hk). exists c. cbn. by rewrite Ho.
Qed.

Lemma get_array_tree l : exists c, get_array (value_of (JArray l)) = Ok c
  /\ JsonContainerSize c = length l
  /\ forall n j, l !! n = Some j -> get_ith c n = Ok (value_of j).
Proof.
  destruct (value_of_array l) as (c & -> & Ho & Hs & Hn). exists c. cbn. rewrite Ho.
  split_and!; [done|done|]. intros n j Hj. unfold get_ith. by rewrite Hn, Hj.
Qed.

Lemma get_key_tree c ms key j :
  (forall key, getKeyJsonValueFromContainer c key = value_of <$> last_value key ms) ->
  last_value key ms = Some j -> get_key c key = value_of j.
Proof. intros Hc Hj. unfold get_key. by rewrite Hc, Hj. Qed.

Lemma set_asset_tree a : lossless_asset a -> set_asset (value_of (asset_tree a)) = Ok a.
Proof.
  unfold lossless_asset, set_asset, asset_tree. destruct legacy_enabled; intros Ha.
  - destruct Ha as [Hn Ha]. unfold set_legacy_asset.
    rewrite set_text_tree by done. cbn. by rewrite Ha.
  - destruct (get_object_tree [(lit "amount", Some (JString (pstrdup_truncate_nul (dec (amount a)))));
                (lit "precision", Some (JNumeric (numeric_in (dec (decimals (asset_symbol a))))));
                (lit "nai", Some (JString (pstrdup_truncate_nul (to_nai_string (asset_symbol a)))))])
      as (c & -> & Hc). cbn [mbind outcome_bind].
    rewrite (get_key_tree c _ (lit "amount") _ Hc eq_refl), (get_key_tree c _ (lit "nai") _ Hc eq_refl),
      (get_key_tree c _ (lit "precision") _ Hc eq_refl), !value_of_string, value_of_numeric.
    rewrite !no_nul_truncate by (apply dec_no_nul || apply nai_no_nul). cbn.
    pose proof (decimals_range (asset_symbol a)) as Hd.
    unfold numeric_to_uint64, string_to_uint64. rewrite numeric_text, uint64_text by lia. cbn.
    rewrite int64_text by lia. cbn.
    rewrite (proj2 (Z.leb_le 0 (amount a))) by lia. cbn.
    unfold wrap_u. rewrite !Z.mod_small by (rewrite ?Z.mod_small; lia).
    rewrite nai_round_trip. cbn. by destruct a.
Qed.

(** *** Containers *)

(** What is proved of a type: its values are read back from their documents. *)
Definition reads_back {A} (f : json_of -> outcome jsonb_error A) (g : A -> option (jtree numeric))
    (x : A) : Prop :=
  exists j, g x = Some j /\ f (value_of j) = Ok x.

Lemma set_pair_tree {A B} (f : json_of -> outcome jsonb_error A) f' (g : json_of -> outcome jsonb_error B)
    g' v :
  reads_back f f' v.1 -> reads_back g g' v.2 ->
  set_pair f g (value_of (pair_tree f' g' v)) = Ok v.
Proof.
  intros (ja & Ha & Hfa) (jb & Hb & Hgb). unfold set_pair, pair_tree. rewrite Ha, Hb.
  destruct (get_array_tree [ja; jb]) as (c & Hc & Hs & Hn). cbn in Hc |- *.
  rewrite Hc. cbn. rewrite Hs. cbn.
  rewrite (Hn 0%nat ja eq_refl). cbn. rewrite Hfa. cbn.
  rewrite (Hn 1%nat jb eq_refl). cbn. rewrite Hgb. by destruct v.
Qed.

(** The elements from a position on, as a container gives them. *)
Definition gives (c : container) (n : nat) (js : list (jtree numeric)) : Prop :=
  forall i j, js !! i = Some j -> get_ith c (n + i) = Ok (value_of j).

Lemma gives_cons c n j js : gives c n (j :: js) -> get_ith c n = Ok (value_of j) /\ gives c (n + 1) js.
Proof.
  intros H. split.
  - specialize (H 0%nat j eq_refl). by rewrite Nat.add_0_r in H.
  - intros i j' Hj. specialize (H (Datatypes.S i) j' Hj). by replace (n + 1 + i)%nat with (n + Datatypes.S i)%nat by lia.
Qed.

Lemma set_elements_tree {A} (f : A -> json_of -> outcome jsonb_error A) g c (l olds : list A) n :
  length olds = length l ->
  Forall (fun x => forall old, old ∈ olds -> reads_back (f old) g x) l ->
  gives c n (omap g l) -> set_elements f c n olds = Ok l.
Proof.
  revert olds n. induction l as [|x l IH]; intros [|old olds] n Hlen Hl Hg; try done.
  inversion_clear Hl as [|? ? Hx Hl']. destruct (Hx old) as (j & Hj & Hf); [left|].
  cbn in Hg. rewrite Hj in Hg. apply gives_cons in Hg as [H0 Hg].
  cbn. rewrite H0. cbn. rewrite Hf. cbn. rewrite IH; [done|by injection Hlen| |done].
  eapply Forall_impl; [done|]. intros y Hy o Ho. apply Hy. by right.
Qed.

Lemma flat_insert_last {A} (lt : A -> A -> bool) x l :
  Forall (fun y => lt y x = true) l -> flat_insert lt x l = l ++ [x].
Proof. induction 1 as [|y l Hy _ IH]; cbn; [done|]. by rewrite Hy, IH. Qed.

Lemma insert_elements_tree {A} (f : json_of -> outcome jsonb_error A) g (lt : A -> A -> bool) ordered c
    l n member :
  Forall (reads_back f g) l -> gives c n (omap g l) ->
  StronglySorted (fun x y => lt x y = true) (member ++ l) ->
  insert_elements f lt ordered c (length l) n member = Ok (member ++ l).
Proof.
  revert n member. induction l as [|x l IH]; intros n member Hl Hg Hs.
  { by rewrite app_nil_r. }
  inversion_clear Hl as [|? ? (j & Hj & Hf) Hl']. cbn in Hg. rewrite Hj in Hg.
  apply gives_cons in Hg as [H0 Hg]. cbn. rewrite H0. cbn. rewrite Hf. cbn.
  assert (Forall (fun y => lt y x = true) member) as Hm.
  { clear -Hs. induction member as [|y member IHm]; constructor.
    - inversion_clear Hs as [|? ? _ Hy]. rewrite Forall_app in Hy. destruct Hy as [_ Hy].
      by inversion_clear Hy.
    - apply IHm. by inversion_clear Hs. }
  assert ((if ordered then match last member with
            | Some y => o_assert (lt y x) assert_failed | None => Ok tt end else Ok tt) = Ok tt) as ->.
  { destruct ordered; [|done]. destruct (last member) as [y|] eqn:Hy; [|done].
    apply last_Some_elem_of in Hy. rewrite Forall_forall in Hm. by rewrite Hm. }
  cbn. rewrite flat_insert_last by done. rewrite IH; [by rewrite <- app_assoc|done|done|].
  by rewrite <- app_assoc.
Qed.

Lemma length_omap_present {A} (g : A -> option (jtree numeric)) l :
  Forall (fun x => is_Some (g x)) l -> length (omap g l) = length l.
Proof. induction 1 as [|x l [j Hj] _ IH]; cbn; [done|]. rewrite Hj. cbn. by rewrite IH. Qed.

Lemma set_flat_tree {A} (f : json_of -> outcome jsonb_error A) g (lt : A -> A -> bool) ordered l :
  Forall (reads_back f g) l -> StronglySorted (fun x y => lt x y = true) l ->
  set_flat f lt ordered [] (value_of (JArray (omap g l))) = Ok l.
Proof.
  intros Hl Hs. unfold set_flat.
  destruct (get_array_tree (omap g l)) as (c & -> & Hsize & Hn). cbn. rewrite Hsize.
  rewrite length_omap_present by (eapply Forall_impl; [done|]; intros x (j & Hj & _); by eexists).
  by apply (insert_elements_tree f g).
Qed.

Lemma set_vector_tree {A} (f : A -> json_of -> outcome jsonb_error A) g d l :
  Forall (reads_back (f d) g) l ->
  (c ← get_array (value_of (JArray (omap g l)));
   set_elements f c 0 (resize (JsonContainerSize c) d [])) = Ok l.
Proof.
  intros Hl. destruct (get_array_tree (omap g l)) as (c & -> & Hsize & Hn). cbn. rewrite Hsize.
  rewrite length_omap_present by (eapply Forall_impl; [done|]; intros x (j & Hj & _); by eexists).
  apply (set_elements_tree f g); [|..|done].
  - unfold resize. rewrite take_nil. cbn. rewrite length_replicate. lia.
  - eapply Forall_impl; [done|]. intros x Hx old Hold. unfold resize in Hold.
    rewrite take_nil in Hold. apply elem_of_replicate in Hold as [-> _]. done.
Qed.

(** *** Structures and variants *)

Lemma present_tree t v : present t v -> is_Some (tree t v).
Proof.
  revert v. pattern t. apply ty_nested_ind; clear t;
    [intros t Ht|intros t IH|intros a b IHa IHb|intros name ms IH|intros name t rest IHt IH].
  - destruct t; try done; intros v _; by eexists.
  - split_and!; intros v Hv; [by apply IH| |by eexists..]. destruct v; [by apply IH|done].
  - split; intros v _; by eexists.
  - intros v _. by eexists.
  - intros v _. by eexists.
Qed.

(** What is not written is what a fresh object holds. *)
Lemma absent_is_fresh t v old : lossless t v -> tree t v = None -> untouched t old -> old = v.
Proof.
  revert v old. pattern t. apply ty_nested_ind; clear t;
    [intros t Ht|intros t IH|intros a b IHa IHb|intros name ms IH|intros name t rest IHt IH].
  - by destruct t.
  - split_and!; intros v old Hl Ht Hf; [by eapply IH| |done..].
    destruct v as [x|]; [|done]. destruct Hl as [_ Hp].
    apply present_tree in Hp as [j Hj]. cbn in Ht. congruence.
  - by split.
  - done.
  - done.
Qed.

Lemma default_fresh t : untouched t (default_value t).
Proof.
  pattern t. apply ty_nested_ind; clear t;
    [intros t Ht|intros t IH|intros a b IHa IHb|intros name ms IH|intros name t rest IHt IH].
  - destruct t; try done. apply length_replicate.
  - done.
  - done.
  - apply struct_default_fresh.
  - done.
Qed.

(** The claim for a type. *)
Definition round_trips (t : ty) : Prop := forall v old j,
  well_formed t -> lossless t v -> untouched t old -> tree t v = Some j ->
  set_member t old (value_of j) = Ok v.

Lemma round_trips_back t v : round_trips t -> well_formed t -> lossless t v -> present t v ->
  reads_back (set_member t (default_value t)) (tree t) v.
Proof.
  intros Ht Hw Hl Hp. destruct (present_tree t v Hp) as [j Hj].
  exists j. split; [done|]. apply Ht; auto using default_fresh.
Qed.

Lemma round_trips_all t l : round_trips t -> well_formed t ->
  Forall (fun x => lossless t x /\ present t x) l ->
  Forall (reads_back (set_member t (default_value t)) (tree t)) l.
Proof.
  intros Ht Hw Hl. eapply Forall_impl; [done|]. intros x [Hx Hp]. by apply round_trips_back.
Qed.

Lemma last_value_notin {A} key (ms : list (chars * option A)) :
  key ∉ ms.*1 -> last_value key ms = None.
Proof.
  induction ms as [|[k o] ms IH]; [done|]. cbn. intros [Hk Hms]%not_elem_of_cons.
  rewrite IH by done. by rewrite decide_False.
Qed.

Lemma members_tree_names ms (v : members denote ms) :
  Forall (fun m => no_nul m.1) ms -> (members_tree tree ms v).*1 = ms.*1.
Proof.
  induction ms as [|[name t] ms IH]; intros Hms; [done|].
  inversion_clear Hms as [|? ? Hn Hms']. cbn. rewrite no_nul_truncate by done. f_equal. by apply IH.
Qed.

Lemma fill_members_tree c ms (v old : members denote ms) :
  every_type round_trips ms -> NoDup ms.*1 -> Forall (fun m => no_nul m.1) ms ->
  every_type well_formed ms -> all_members lossless ms v -> all_members untouched ms old ->
  (forall key, key ∈ ms.*1 ->
     getKeyJsonValueFromContainer c key = value_of <$> last_value key (members_tree tree ms v)) ->
  fill_members set_member c ms old = Ok v.
Proof.
  induction ms as [|[name t] ms IH]; cbn [every_type all_members]; intros Hr Hd Hn Hw Hl Hf Hc.
  { by destruct v. }
  destruct Hr as [Ht Hr], Hw as [Hwt Hw], Hl as [Hlt Hl], Hf as [Hft Hf].
  inversion_clear Hn as [|? ? Hname Hn']. cbn in Hd. apply NoDup_cons in Hd as [Hni Hd].
  assert (last_value name (members_tree tree ms v.2) = None) as Hnone.
  { apply last_value_notin. by rewrite members_tree_names. }
  pose proof (Hc name ltac:(left)) as Hkey. cbn in Hkey, Hname |- *.
  rewrite no_nul_truncate, Hnone, decide_True in Hkey by done. rewrite Hkey.
  assert (match value_of <$> tree t v.1 with
          | Some value => set_member t old.1 value | None => Ok old.1 end = Ok v.1) as ->.
  { destruct (tree t v.1) as [j|] eqn:Hj; cbn; [by apply Ht|].
    by rewrite (absent_is_fresh t v.1 old.1). }
  cbn. rewrite (IH v.2 old.2); [by destruct v|done..|].
  intros key Hin. rewrite Hc by (by right). cbn. rewrite no_nul_truncate by done.
  destruct (last_value key (members_tree tree ms v.2)) eqn:E; [done|].
  rewrite decide_False; [done|]. intros ->. done.
Qed.

(** The name and the value of the alternative that is stored. *)
Definition stored_name : forall alts, alternatives denote alts -> chars :=
  fix go alts := match alts with
  | [] => fun v => match v with end
  | (name, t) :: alts' => fun v => match v with inl _ => name | inr v' => go alts' v' end
  end.

Lemma stored_name_in alts (v : alternatives denote alts) : stored_name alts v ∈ alts.*1.
Proof.
  induction alts as [|[name t] alts IH]; [done|]. cbn. destruct v as [o|v]; [left|right; apply IH].
Qed.

Lemma set_alternative_other f tag value alts :
  tag ∉ alts.*1 -> set_alternative f tag value alts = None.
Proof.
  induction alts as [|[name t] alts IH]; [done|]. cbn. intros [Hk Halts]%not_elem_of_cons.
  rewrite IH by done. by rewrite decide_False.
Qed.

Lemma struct_tree t v : is_struct t -> exists ms, tree t v = Some (JObject ms).
Proof. destruct t; try done. intros _. by eexists. Qed.

Lemma set_alternative_tree alts (v : alternatives denote alts) :
  every_type round_trips alts -> distinct_names alts ->
  every_type (fun t => is_struct t) alts -> every_type well_formed alts ->
  alternative_holds lossless alts v ->
  exists ms, alternatives_tree tree alts v
             = alternative_tree (stored_name alts v) (Some (JObject ms))
    /\ set_alternative set_member (stored_name alts v) (value_of (JObject ms)) alts = Some (Ok v).
Proof.
  induction alts as [|[name t] alts IH]; [done|].
  intros [Ht Hr] [Hd Hn] [Hst Hs] [Hwt Hw] Hl. inversion_clear Hn as [|? ? Hname Hn'].
  cbn in Hd. apply NoDup_cons in Hd as [Hni Hd]. destruct v as [o|v]; cbn in Hl |- *.
  - destruct (struct_tree t o Hst) as [ms Hms]. exists ms. rewrite Hms. split; [done|].
    rewrite set_alternative_other by done. rewrite decide_True by done.
    rewrite (Ht o); auto using default_fresh.
  - destruct (IH v) as (ms & Ha & Hset); [done..|]. exists ms. by rewrite Ha, Hset.
Qed.

Lemma alternative_keys name ms : exists c,
  get_object (value_of (alternative_tree name (Some (JObject ms)))) = Ok c
  /\ (no_nul name -> get_string (get_key c (lit "type")) = Ok name)
  /\ get_key c (lit "value") = value_of (JObject ms)
  /\ exists c', get_object (get_key c (lit "value")) = Ok c'.
Proof.
  unfold alternative_tree. destruct (get_object_tree
    [(lit "type", Some (JString (pstrdup_truncate_nul name))); (lit "value", Some (JObject ms))])
    as (c & Ho & Hk). exists c.
  assert (get_key c (lit "value") = value_of (JObject ms)) as Hv by (by eapply get_key_tree).
  split_and!; [done| |done|].
  - intros Hn. rewrite (get_key_tree c _ (lit "type") _ Hk eq_refl), value_of_string.
    cbn. by rewrite no_nul_truncate.
  - rewrite Hv. destruct (get_object_tree ms) as (c' & Hc' & _). by exists c'.
Qed.

Lemma set_variant_tree name t rest : round_trips t -> every_type round_trips rest ->
  round_trips (TStaticVariant name t rest).
Proof.
  intros Ht Hr v old j [[Hd Hn] [[Hst Hwt] [Hs Hw]]] Hl _ [= <-].
  cbn in Hd. apply NoDup_cons in Hd as [Hni Hd]. inversion_clear Hn as [|? ? Hname Hn']. cbn in Hname.
  destruct v as [o|v]; cbn [lossless set_member] in Hl |- *.
  - destruct (struct_tree t o Hst) as [ms Hms]. rewrite Hms.
    destruct (alternative_keys name ms) as (c & -> & Htype & Hv & c' & Hc'). cbn [mbind outcome_bind].
    rewrite Htype by done. cbn [mbind outcome_bind]. rewrite Hc'. cbn [mbind outcome_bind].
    rewrite set_alternative_other by done. rewrite decide_True by done. rewrite Hv.
    rewrite (Ht o); auto using default_fresh.
  - destruct (set_alternative_tree rest v) as (ms & Ha & Hset); [done..|]. rewrite Ha.
    destruct (alternative_keys (stored_name rest v) ms) as (c & -> & Htype & Hv & c' & Hc').
    cbn [mbind outcome_bind].
    assert (no_nul (stored_name rest v)) as Hnn.
    { pose proof (stored_name_in rest v) as Hin. apply list_elem_of_fmap in Hin as (m & -> & Hm).
      rewrite Forall_forall in Hn'. by apply Hn'. }
    rewrite Htype by done. cbn [mbind outcome_bind]. rewrite Hc'. cbn [mbind outcome_bind].
    by rewrite Hv, Hset.
Qed.

Lemma value_of_not_null j : value_of j <> jbvNull.
Proof.
  destruct j as [s|n|b|l|ms]; rewrite ?value_of_string, ?value_of_numeric, ?value_of_bool; try done.
  - by destruct (value_of_array l) as (c & -> & _).
  - by destruct (value_of_object ms) as (c & -> & _).
Qed.

Lemma all_round_trip t : round_trips t.
Proof.
  pattern t. apply ty_nested_ind; clear t;
    [intros t Ht|intros t IH|intros a b IHa IHb|intros name ms IH|intros name t rest IHt IH].
  - destruct t; try done; intros v old j Hw Hl Hf [= <-]; cbn [set_member].
    + by rewrite value_of_bool.
    + by apply set_integer_tree.
    + by rewrite value_of_string, no_nul_truncate.
    + by rewrite value_of_string, no_nul_truncate.
    + by apply set_text_tree.
    + apply set_bytes_tree.
    + by apply set_array_tree.
    + by apply set_asset_tree.
    + destruct Hl as [Hl Ha]. rewrite set_asset_tree by done. cbn. by rewrite Ha.
  - split_and!; intros v old j Hw Hl Hf Hj; cbn [set_member well_formed lossless untouched tree] in *.
    + apply IH; auto using default_fresh.
    + destruct v as [x|]; [|done]. destruct Hl as [Hx Hp].
      unfold set_optional. rewrite (IH x (default_value t) j) by auto using default_fresh.
      pose proof (value_of_not_null j). by destruct (value_of j).
    + subst old. injection Hj as <-. apply (set_vector_tree (set_member t)).
      by apply round_trips_all.
    + subst old. injection Hj as <-. destruct Hl as [Hl Hs].
      apply set_flat_tree; [by apply round_trips_all|done].
    + subst old. injection Hj as <-. destruct Hl as [Hl Hs].
      apply set_flat_tree; [by apply round_trips_all|done].
  - split; intros v old j [Hwa Hwb] Hl Hf [= <-]; cbn [set_member lossless untouched] in *.
    + destruct Hl as [[Hla Hpa] [Hlb Hpb]]. apply set_pair_tree; by apply round_trips_back.
    + subst old. destruct Hl as [Hl Hs].
      apply (set_flat_tree _ (fun x => Some (pair_tree (tree a) (tree b) x))); [|done].
      eapply Forall_impl; [done|]. intros x [[Hla Hpa] [Hlb Hpb]]. eexists. split; [done|].
      apply set_pair_tree; by apply round_trips_back.
  - intros v old j [[Hd Hn] Hw] Hl Hf [= <-]. cbn [set_member].
    destruct (get_object_tree (members_tree tree ms v)) as (c & -> & Hc). cbn [mbind outcome_bind].
    apply fill_members_tree; auto.
  - by apply set_variant_tree.
Qed.

(** An operation written as JSONB and read back is the operation: whatever the protocol
    types are made of, provided the value is lossless (integers of their range, strings
    without NUL, flat containers in order, no empty optional inside a container). *)
Theorem jsonb_round_trip name t rest (op : denote (TStaticVariant name t rest)) :
  well_formed (TStaticVariant name t rest) -> lossless (TStaticVariant name t rest) op ->
  exists j, operation_to_jsonb_value name t rest op = Some j
    /\ operation_from_jsonb_value name t rest j = Ok op.
Proof.
  intros Hw Hl. unfold operation_to_jsonb_value, operation_from_jsonb_value.
  rewrite to_jsonb_tokens.
  assert (exists ms, tree (TStaticVariant name t rest) op = Some (JObject ms)) as [ms Hms].
  { destruct op as [o|v]; [by eexists|]. cbn. clear. induction rest as [|[n u] rest IH]; [done|].
    destruct v as [o|v]; [by eexists|]. apply IH. }
  rewrite Hms. exists (value_of (JObject ms)). split; [apply assembled_object|].
  by apply all_round_trip.
Qed.

End proofs.
