(* ===== verification/CopyRows.v ===== *)
(** * Rows written by COPY ([tables_descriptions.cpp], [pqxx_conversions.hpp])

    During a replay the rows go to the tables with COPY: [write_row_to_stream] gives the fields of
    a row, each printed by the [string_traits] of its type, for the columns of [COLS].  Live rows
    are SQL tuples (SqlText).  Both are shown to write the same values into the same columns, the
    body of an operation apart: a replay writes its JSON, a live row a cast the server evaluates,
    and [zero_byte_is_stored_differently] shows that they can differ.

    A field is the text given to [pqxx::stream_to], [None] for a null; the JSON of an operation
    and the hash of a key are parameters, as they belong to libraries.  Of the texts the live
    dumper takes from the library, times are assumed to be ISO 8601 in the Gregorian calendar and
    keys base 58 with their checksum; that the code of [pqxx_conversions.hpp] prints the same is
    proved from the calendar and from the uniqueness of the digits of a number. *)

From S2P Require Import Prelude Text CachedData Jsonb Conversions Calendar SqlText.
From Stdlib Require Import ZArith Lia Ascii String.
From stdpp Require Import base list strings.

Open Scope Z_scope.

(** ** [string_traits] *)

(** What [into_buf] writes into a buffer of a size, the terminating zero included, and the size
    [size_buffer] asks for. *)
Class StringTraits (T : Type) := {
  size_buffer : T -> nat;
  into_buf : nat -> T -> outcome string (list ascii)
}.

(** [generic_to_buf]: the text without the terminating zero. *)
Definition to_buf {T} `{StringTraits T} (buffer_size : nat) (value : T) : outcome string (list ascii) :=
  written ← into_buf buffer_size value; Ok (take (length written - 1) written).

(** The stream offers a buffer of the size asked for. *)
Definition field_of {T} `{StringTraits T} (value : T) : outcome string (list ascii) :=
  to_buf (size_buffer value) value.

(** [fc::ripemd160] and [fc::ecc::compact_signature]: their bytes. *)
Record ripemd160 := { rd_data : list ascii }.
Record compact_signature := { cs_data : list ascii }.

Definition RIPEMD160_SIZE : nat := 20.
Definition COMPACT_SIGNATURE_SIZE : nat := 65.

Definition bytes_into_buf (type_name : string) (buffer_size size : nat) (data : list ascii) :
    outcome string (list ascii) :=
  if (buffer_size <? size_esc_bin size)%nat
  then Throw ("Could not write " ++ type_name ++ ": buffer too small.")%string
  else Ok (esc_bin data).

#[global] Instance ripemd160_traits : StringTraits ripemd160 := {
  size_buffer _ := size_esc_bin RIPEMD160_SIZE;
  into_buf buffer_size value := bytes_into_buf "fc::ripemd160" buffer_size RIPEMD160_SIZE (rd_data value)
}.

#[global] Instance compact_signature_traits : StringTraits compact_signature := {
  size_buffer _ := size_esc_bin COMPACT_SIGNATURE_SIZE;
  into_buf buffer_size value :=
    bytes_into_buf "fc::ecc::compact_signature" buffer_size COMPACT_SIGNATURE_SIZE (cs_data value)
}.

(** What [from_string] leaves in the object: the bytes of the text are stored one after the other
    without looking at the size of the object. *)
Inductive stored :=
| Filled (data : list ascii)
| PartlyFilled (data : list ascii)      (* the rest of the object is not set *)
| PastTheEnd (data : list ascii).       (* memory behind the object is overwritten *)

Definition bytes_from_string (size : nat) (text : list ascii) : outcome string stored :=
  data ← unesc_bin text;
  Ok (if (length data =? size)%nat then Filled data
      else if (length data <? size)%nat then PartlyFilled data else PastTheEnd data).

Definition ripemd160_from_string := bytes_from_string RIPEMD160_SIZE.
Definition compact_signature_from_string := bytes_from_string COMPACT_SIGNATURE_SIZE.

(** [fc::time_point_sec], [public_key_type], [operation] *)
Record time_point_sec := { sec_since_epoch : Z }.

#[global] Instance time_traits : StringTraits time_point_sec := {
  size_buffer _ := 20%nat;
  into_buf buffer_size value := time_into_buf buffer_size (sec_since_epoch value)
}.

Record public_key := { key_data : list ascii }.

Class AddressFormat := { HIVE_ADDRESS_PREFIX : list ascii; ripemd160_word0 : list ascii -> Z }.

#[global] Instance public_key_traits `{AddressFormat} : StringTraits public_key := {
  size_buffer _ := public_key_size_buffer HIVE_ADDRESS_PREFIX;
  into_buf buffer_size value := public_key_into_buf HIVE_ADDRESS_PREFIX ripemd160_word0 buffer_size (key_data value)
}.

(** [fc::optional< T >]: [nullness] tells the stream to write a null, otherwise the value's field. *)
Definition optional_field {T} (f : T -> outcome string (list ascii)) (value : option T) :
    outcome string (option (list ascii)) :=
  match value with None => Ok None | Some v => text ← f v; Ok (Some text) end.

(** ** [write_row_to_stream] *)

(** The fields of a row, in the order of the values. *)
Fixpoint write_values (fields : list (outcome string (option (list ascii)))) :
    outcome string (list (option (list ascii))) :=
  match fields with
  | [] => Ok []
  | f :: fields' => text ← f; rest ← write_values fields'; Ok (text :: rest)
  end.

Definition value {T} `{StringTraits T} (v : T) : outcome string (option (list ascii)) :=
  text ← field_of v; Ok (Some text).

(** Integers and amounts of assets ([string_traits< int64_t >]), and texts. *)
Definition int_value (z : Z) : outcome string (option (list ascii)) := Ok (Some (dec z)).
Definition tiny_asset_value (amount : Z) : outcome string (option (list ascii)) := int_value amount.
Definition text_value (s : string) : outcome string (option (list ascii)) := Ok (Some (lit s)).

Definition hash_value (s : string) := value {| rd_data := lit s |}.
Definition signature_value (s : string) := value {| cs_data := lit s |}.
Definition time_value (z : Z) := value {| sec_since_epoch := z |}.

Section rows.
  Context {operation : Type} (body_json : operation -> list ascii) `{AddressFormat}.

Definition key_value (s : string) := value {| key_data := lit s |}.

Definition block_row (block : process_block_t) :=
  write_values [int_value (pb_block_number block); hash_value (pb_hash block); hash_value (pb_prev_hash block);
    time_value (pb_created_at block); int_value (pb_producer_account_id block);
    hash_value (pb_transaction_merkle_root block);
    optional_field (fun s => Ok (lit s)) (pb_extensions block);
    signature_value (pb_witness_signature block); key_value (pb_signing_key block);
    int_value (pb_hbd_interest_rate block); tiny_asset_value (pb_total_vesting_fund_hive block);
    tiny_asset_value (pb_total_vesting_shares block); tiny_asset_value (pb_total_reward_fund_hive block);
    tiny_asset_value (pb_virtual_supply block); tiny_asset_value (pb_current_supply block);
    tiny_asset_value (pb_current_hbd_supply block); tiny_asset_value (pb_dhf_interval_ledger block)].

Definition transaction_row (transaction : process_transaction_t) :=
  write_values [int_value (pt_block_number transaction); int_value (pt_trx_in_block transaction);
    hash_value (pt_hash transaction); int_value (pt_ref_block_num transaction);
    int_value (pt_ref_block_prefix transaction); time_value (pt_expiration transaction);
    optional_field (fun s => field_of {| cs_data := lit s |}) (pt_signature transaction);
    optional_field (fun z => Ok (dec z)) (pt_rc_cost transaction)].

Definition transaction_multisig_row (transaction_multisig : process_transaction_multisig_t) :=
  write_values [hash_value (pm_hash transaction_multisig); signature_value (pm_signature transaction_multisig)].

Definition operation_row (op : process_operation_t operation) :=
  let body_value_json := strip_json_null_escapes (body_json (po_op op)) in
  write_values [int_value (po_operation_id op); int_value (po_trx_in_block op); int_value (po_op_type_id op);
    int_value (po_op_in_trx op); Ok (Some body_value_json);
    optional_field (fun z => Ok (dec z)) (po_custom_json_type_id op)].

Definition account_row (account : account_data_t) :=
  write_values [int_value (ad_id account); text_value (ad_name account);
    optional_field (fun z => Ok (dec z)) (if ad_block_number account =? 0 then None else Some (ad_block_number account))].

Definition account_operation_row (account_operation : account_operation_data_t) :=
  write_values [int_value (ao_account_id account_operation); int_value (ao_transacting_account_id account_operation);
    int_value (ao_operation_seq_no account_operation); int_value (ao_operation_id account_operation);
    int_value (ao_op_type_id account_operation)].

Definition applied_hardfork_row (applied_hardfork : applied_hardforks_t) :=
  write_values [int_value (ah_hardfork_num applied_hardfork); int_value (ah_block_number applied_hardfork);
    int_value (ah_hardfork_vop_id applied_hardfork)].

End rows.

(** ** [TABLE] and [COLS] *)

Definition hive_blocks_COLS : string :=
  "num, hash, prev, created_at, producer_account_id, transaction_merkle_root, extensions, witness_signature, signing_key, hbd_interest_rate, total_vesting_fund_hive, total_vesting_shares, total_reward_fund_hive, virtual_supply, current_supply, current_hbd_supply, dhf_interval_ledger ".
Definition hive_transactions_COLS : string :=
  "block_num, trx_in_block, trx_hash, ref_block_num, ref_block_prefix, expiration, signature, rc_cost".
Definition hive_transactions_multisig_COLS : string := "trx_hash, signature".
Definition hive_operations_COLS : string := "id, trx_in_block, op_type_id, op_pos, body_value, custom_json_type_id".
Definition hive_accounts_COLS : string := "id, name, block_num".
Definition hive_account_operations_COLS : string :=
  "account_id, transacting_account_id, account_op_seq_no, operation_id, op_type_id".
Definition hive_applied_hardforks_COLS : string := "hardfork_num, block_num, hardfork_vop_id".

(** The columns of the tables, as [irreversible_blocks.sql] declares them. *)
Definition declared_columns : list (string * list string) :=
  [("hafd.blocks", ["num"; "hash"; "prev"; "created_at"; "producer_account_id"; "transaction_merkle_root"; "extensions";
     "witness_signature"; "signing_key"; "hbd_interest_rate"; "total_vesting_fund_hive"; "total_vesting_shares";
     "total_reward_fund_hive"; "virtual_supply"; "current_supply"; "current_hbd_supply"; "dhf_interval_ledger"]);
   ("hafd.transactions", ["block_num"; "trx_in_block"; "trx_hash"; "ref_block_num"; "ref_block_prefix"; "expiration";
     "signature"; "rc_cost"]);
   ("hafd.transactions_multisig", ["trx_hash"; "signature"]);
   ("hafd.operations", ["id"; "trx_in_block"; "op_type_id"; "op_pos"; "body_value"; "custom_json_type_id"]);
   ("hafd.applied_hardforks", ["hardfork_num"; "block_num"; "hardfork_vop_id"]);
   ("hafd.accounts", ["id"; "name"; "block_num"]);
   ("hafd.account_operations", ["account_id"; "transacting_account_id"; "account_op_seq_no"; "operation_id"; "op_type_id"])]%string.

Definition copied_columns : list (string * string) :=
  [("hafd.blocks", hive_blocks_COLS); ("hafd.transactions", hive_transactions_COLS);
   ("hafd.transactions_multisig", hive_transactions_multisig_COLS); ("hafd.operations", hive_operations_COLS);
   ("hafd.applied_hardforks", hive_applied_hardforks_COLS); ("hafd.accounts", hive_accounts_COLS);
   ("hafd.account_operations", hive_account_operations_COLS)]%string.

(** ** The cells of a row *)

Inductive cell {operation : Type} :=
| NullCell
| IntCell (z : Z)
| HashCell (data : list ascii)
| SignatureCell (data : list ascii)
| TimeCell (seconds : Z)
| KeyCell (data : list ascii)
| TextCell (s : string)
| BodyCell (op : operation).
Arguments cell : clear implicits.

Definition optional_cell {operation A} (f : A -> cell operation) (o : option A) : cell operation :=
  match o with Some a => f a | None => NullCell end.

Section cells.
  Context {operation : Type}.

  Abbreviation cell := (cell operation).

Definition block_cells (b : process_block_t) : list cell :=
  [IntCell (pb_block_number b); HashCell (lit (pb_hash b)); HashCell (lit (pb_prev_hash b));
   TimeCell (pb_created_at b); IntCell (pb_producer_account_id b); HashCell (lit (pb_transaction_merkle_root b));
   optional_cell TextCell (pb_extensions b); SignatureCell (lit (pb_witness_signature b));
   KeyCell (lit (pb_signing_key b)); IntCell (pb_hbd_interest_rate b); IntCell (pb_total_vesting_fund_hive b);
   IntCell (pb_total_vesting_shares b); IntCell (pb_total_reward_fund_hive b); IntCell (pb_virtual_supply b);
   IntCell (pb_current_supply b); IntCell (pb_current_hbd_supply b); IntCell (pb_dhf_interval_ledger b)].

Definition transaction_cells (t : process_transaction_t) : list cell :=
  [IntCell (pt_block_number t); IntCell (pt_trx_in_block t); HashCell (lit (pt_hash t));
   IntCell (pt_ref_block_num t); IntCell (pt_ref_block_prefix t); TimeCell (pt_expiration t);
   optional_cell (fun s => SignatureCell (lit s)) (pt_signature t); optional_cell IntCell (pt_rc_cost t)].

Definition transaction_multisig_cells (m : process_transaction_multisig_t) : list cell :=
  [HashCell (lit (pm_hash m)); SignatureCell (lit (pm_signature m))].

Definition operation_cells (o : process_operation_t operation) : list cell :=
  [IntCell (po_operation_id o); IntCell (po_trx_in_block o); IntCell (po_op_type_id o); IntCell (po_op_in_trx o);
   BodyCell (po_op o); optional_cell IntCell (po_custom_json_type_id o)].

Definition account_cells (a : account_data_t) : list cell :=
  [IntCell (ad_id a); TextCell (ad_name a);
   if ad_block_number a =? 0 then NullCell else IntCell (ad_block_number a)].

Definition account_operation_cells (a : account_operation_data_t) : list cell :=
  [IntCell (ao_account_id a); IntCell (ao_transacting_account_id a); IntCell (ao_operation_seq_no a);
   IntCell (ao_operation_id a); IntCell (ao_op_type_id a)].

Definition applied_hardfork_cells (h : applied_hardforks_t) : list cell :=
  [IntCell (ah_hardfork_num h); IntCell (ah_block_number h); IntCell (ah_hardfork_vop_id h)].

  Context (body_json : operation -> list ascii) `{AddressFormat}
    (decodeUtf8 : list ascii -> list Z) (to_hex : ascii -> list ascii) (pack : operation -> list ascii)
    (iso : Z -> list ascii) (key_text : string -> list ascii).

(** Sizes of the fixed types, keys that do not begin with a zero byte, times of [uint32_t], texts
    whose code points are not zero. *)
Definition cell_ok (c : cell) : Prop :=
  match c with
  | HashCell data => length data = RIPEMD160_SIZE
  | SignatureCell data => length data = COMPACT_SIGNATURE_SIZE
  | KeyCell data => length data = 33%nat /\ hd NUL data <> NUL
  | TimeCell seconds => 0 <= seconds <= UINT32_MAX
  | TextCell s => Forall (fun code => 0 < code < 2 ^ 31) (decodeUtf8 (lit s))
  | _ => True
  end.

Definition hex_text (data : list ascii) : list ascii := lit "\x" ++ concat (map hex2 data).

(** The text of a time: the field without its terminating zero. *)
Definition time_text (seconds : Z) : list ascii :=
  match time_into_buf 20 seconds with Ok t => take 19 t | Throw _ => [] end.

Definition public_key_text (data : list ascii) : list ascii :=
  let text := HIVE_ADDRESS_PREFIX ++ encode (data ++ le32 (u32 (ripemd160_word0 data))) in
  take (length text - 1) text.

Definition copy_text (c : cell) : option (list ascii) :=
  match c with
  | NullCell => None
  | IntCell z => Some (dec z)
  | HashCell data | SignatureCell data => Some (hex_text data)
  | TimeCell seconds => Some (time_text seconds)
  | KeyCell data => Some (public_key_text data)
  | TextCell s => Some (lit s)
  | BodyCell op => Some (strip_json_null_escapes (body_json op))
  end.

Definition live_text (c : cell) : list ascii :=
  match c with
  | NullCell => lit "NULL"
  | IntCell z => dec z
  | HashCell data | SignatureCell data => lit "'" ++ hex_text data ++ lit "'"
  | TimeCell seconds => lit "'" ++ iso seconds ++ lit "'"
  | KeyCell data => lit "'" ++ key_text (string_of_list_ascii data) ++ lit "'"
  | TextCell s => escape decodeUtf8 to_hex s
  | BodyCell op => lit "(" ++ (lit "'" ++ hex_text (pack op) ++ lit "'") ++ lit "::hafd.operation::jsonb)->'value'"
  end.

Fixpoint with_commas (l : list (list ascii)) : list ascii :=
  match l with
  | [] => []
  | [x] => x
  | x :: l' => x ++ lit "," ++ with_commas l'
  end.

(** ** Fields of the cells *)

Lemma esc_bin_text data : take (length (esc_bin data) - 1) (esc_bin data) = hex_text data.
Proof.
  unfold esc_bin, hex_text. rewrite (map_ext _ _ hex_of_hex2).
  change (lit "\x") with [BACKSLASH; "x"%char]. cbn [app].
  change (BACKSLASH :: "x"%char :: concat (map hex2 data) ++ [NUL])
    with ((BACKSLASH :: "x"%char :: concat (map hex2 data)) ++ [NUL]).
  rewrite length_app. cbn [length]. rewrite take_app_le by (cbn; lia). rewrite take_ge; [done|cbn; lia].
Qed.

Lemma bytes_field type_name data size :
  (written ← bytes_into_buf type_name (size_esc_bin size) size data; Ok (take (length written - 1) written))
  = Ok (hex_text data).
Proof. unfold bytes_into_buf. rewrite Nat.ltb_irrefl. cbn [mbind outcome_bind]. by rewrite esc_bin_text. Qed.

(** The field of a cell in a row of values. *)
Definition cell_value (c : cell) : outcome string (option (list ascii)) :=
  match c with
  | NullCell => Ok None
  | IntCell z => int_value z
  | HashCell data => value {| rd_data := data |}
  | SignatureCell data => value {| cs_data := data |}
  | TimeCell seconds => time_value seconds
  | KeyCell data => value {| key_data := data |}
  | TextCell s => text_value s
  | BodyCell op => Ok (Some (strip_json_null_escapes (body_json op)))
  end.

(** No value is refused the buffer it asked for. *)
Lemma cell_value_text c : cell_ok c -> cell_value c = Ok (copy_text c).
Proof.
  destruct c as [|z|data|data|seconds|data|s|op]; intros Hc; try done.
  - cbn [cell_value copy_text]. unfold value, field_of, to_buf. cbn [into_buf size_buffer ripemd160_traits rd_data].
    by rewrite bytes_field.
  - cbn [cell_value copy_text]. unfold value, field_of, to_buf. cbn [into_buf size_buffer compact_signature_traits cs_data].
    by rewrite bytes_field.
  - cbn [cell_value copy_text]. unfold time_value, value, field_of, to_buf. cbn [into_buf size_buffer time_traits sec_since_epoch].
    destruct (time_text_correct seconds Hc) as (y & m & d & hh & mm & ss & text & _ & _ & _ & _ & _ & Ht & Hl & _).
    unfold time_text. rewrite Ht. cbn [mbind outcome_bind]. by rewrite Hl.
  - cbn [cell_value copy_text]. unfold value, field_of, to_buf. cbn [into_buf size_buffer public_key_traits key_data].
    unfold public_key_into_buf. rewrite Nat.ltb_irrefl. done.
Qed.

Lemma write_values_cells cells :
  Forall cell_ok cells -> write_values (map cell_value cells) = Ok (map copy_text cells).
Proof.
  induction 1 as [|c cells Hc _ IH]; [done|]. cbn [map write_values].
  rewrite (cell_value_text c Hc), IH. done.
Qed.

(** ** A row of any table *)

Inductive table_row :=
| BlockRow (b : process_block_t)
| TransactionRow (t : process_transaction_t)
| TransactionMultisigRow (m : process_transaction_multisig_t)
| OperationRow (o : process_operation_t operation)
| AccountRow (a : account_data_t)
| AccountOperationRow (ao : account_operation_data_t)
| AppliedHardforkRow (h : applied_hardforks_t).

Definition table_of (r : table_row) : string :=
  match r with
  | BlockRow _ => "hafd.blocks"
  | TransactionRow _ => "hafd.transactions"
  | TransactionMultisigRow _ => "hafd.transactions_multisig"
  | OperationRow _ => "hafd.operations"
  | AccountRow _ => "hafd.accounts"
  | AccountOperationRow _ => "hafd.account_operations"
  | AppliedHardforkRow _ => "hafd.applied_hardforks"
  end.

Definition write_row_to_stream (r : table_row) : outcome string (list (option (list ascii))) :=
  match r with
  | BlockRow b => block_row b
  | TransactionRow t => transaction_row t
  | TransactionMultisigRow m => transaction_multisig_row m
  | OperationRow o => operation_row body_json o
  | AccountRow a => account_row a
  | AccountOperationRow ao => account_operation_row ao
  | AppliedHardforkRow h => applied_hardfork_row h
  end.

Definition live_tuple (r : table_row) : list ascii :=
  match r with
  | BlockRow b => hive_blocks_tuple decodeUtf8 to_hex iso key_text b
  | TransactionRow t => hive_transactions_tuple iso t
  | TransactionMultisigRow m => hive_transactions_multisig_tuple m
  | OperationRow o => hive_operations_tuple pack o
  | AccountRow a => hive_accounts_tuple decodeUtf8 to_hex a
  | AccountOperationRow ao => hive_account_operations_tuple ao
  | AppliedHardforkRow h => hive_applied_hardforks_tuple h
  end.

Definition row_cells (r : table_row) : list cell :=
  match r with
  | BlockRow b => block_cells b
  | TransactionRow t => transaction_cells t
  | TransactionMultisigRow m => transaction_multisig_cells m
  | OperationRow o => operation_cells o
  | AccountRow a => account_cells a
  | AccountOperationRow ao => account_operation_cells ao
  | AppliedHardforkRow h => applied_hardfork_cells h
  end.

Lemma row_is_its_cells r : write_row_to_stream r = write_values (map cell_value (row_cells r)).
Proof.
  destruct r as [b|t|m|o|a|ao|h]; try done; cbn [write_row_to_stream row_cells].
  - unfold block_row, block_cells. by destruct (pb_extensions b).
  - unfold transaction_row, transaction_cells. by destruct (pt_signature t), (pt_rc_cost t).
  - unfold operation_row, operation_cells. by destruct (po_custom_json_type_id o).
  - unfold account_row, account_cells. by destruct (ad_block_number a =? 0).
Qed.

Lemma sql_to_hex_text data : sql_to_hex data = lit "'" ++ hex_text data ++ lit "'".
Proof. unfold sql_to_hex, hex_text. by rewrite <- app_assoc. Qed.

Lemma live_is_its_cells r : live_tuple r = with_commas (map live_text (row_cells r)).
Proof.
  destruct r as [b|t|m|o|a|ao|h]; cbn [live_tuple row_cells];
    unfold hive_blocks_tuple, hive_transactions_tuple, hive_transactions_multisig_tuple, hive_operations_tuple,
      hive_accounts_tuple, hive_account_operations_tuple, hive_applied_hardforks_tuple,
      block_cells, transaction_cells, transaction_multisig_cells, operation_cells, account_cells,
      account_operation_cells, applied_hardfork_cells, escape_optional, escape_raw_optional, escape_raw, optional_cell;
    cbn [map with_commas live_text]; rewrite ?sql_to_hex_text; unfold lit;
    rewrite ?string_of_list_ascii_of_string; repeat case_match;
    cbn [live_text list_ascii_of_string app]; rewrite ?sql_to_hex_text; unfold lit;
    cbn [list_ascii_of_string app]; rewrite <- ?app_assoc; cbn [app]; try done.
Qed.

(** ** The values the server reads *)

(** The server reads the literal of a tuple as the value of a field: a null, a number, a text in
    quotes without a quote in it, or the code points of an escape string. *)
Inductive reads : list ascii -> option (list ascii) -> Prop :=
| ReadsNull : reads (lit "NULL") None
| ReadsNumber z : reads (dec z) (Some (dec z))
| ReadsQuoted text : QUOTE ∉ text -> reads (lit "'" ++ text ++ lit "'") (Some text)
| ReadsEscaped body text : read_escape_string body = Some (decodeUtf8 text, []) -> reads (lit "E'" ++ body) (Some text).

(** The body of an operation is not a literal. *)
Definition is_literal (c : cell) : Prop := match c with BodyCell _ => False | _ => True end.

(** ISO 8601: the date of the Gregorian calendar and the time of the day. *)
Definition iso_8601 (seconds : Z) : list ascii :=
  let '(y, m, d) := Nat.iter (Z.to_nat (seconds / 86400)) next_date (1970, 1, 1) in
  let s := seconds mod 86400 in
  setw 4 "0" (dec y) ++ lit "-" ++ setw 2 "0" (dec m) ++ lit "-" ++ setw 2 "0" (dec d) ++ lit "T" ++
  setw 2 "0" (dec (s / 3600)) ++ lit ":" ++ setw 2 "0" (dec (s mod 3600 / 60)) ++ lit ":" ++ setw 2 "0" (dec (s mod 60)).

(** The text of a key: the prefix and, in base 58 without a leading zero, the key with four bytes
    of its hash. *)
Definition is_key_text (data text : list ascii) : Prop :=
  exists digits, canonical digits /\ val58 digits = val256 (data ++ le32 (u32 (ripemd160_word0 data))) /\
    text = HIVE_ADDRESS_PREFIX ++ map (fun d => nth (Z.to_nat d) alphabet NUL) (rev digits).

Lemma time_text_is_iso seconds : 0 <= seconds <= UINT32_MAX -> time_text seconds = iso_8601 seconds /\ QUOTE ∉ time_text seconds.
Proof.
  intros Hs. destruct (time_text_correct seconds Hs) as (y & m & d & hh & mm & ss & text & Hd & Hsum & Hhh & Hmm & Hss & Ht & Hl & Htext).
  assert (0 <= seconds / 86400 <= 49710) as Hr by (unfold UINT32_MAX in Hs; lia).
  pose proof (civil_ranges (seconds / 86400) Hr) as Hc. rewrite Hd in Hc. pose proof (proj1 (civil_calendar _ Hr)) as Hcal.
  assert (seconds mod 86400 = hh * 3600 + mm * 60 + ss) as Hmod by (pose proof (Z.div_mod seconds 86400 ltac:(lia)); lia).
  assert (hh = seconds mod 86400 / 3600) as Eh by (rewrite Hmod; apply (Z.div_unique _ _ _ (mm * 60 + ss)); lia).
  assert ((hh * 3600 + mm * 60 + ss) mod 3600 = mm * 60 + ss) as Hmod' by (symmetry; apply (Z.mod_unique _ _ hh); lia).
  assert (mm = seconds mod 86400 mod 3600 / 60) as Em by (rewrite Hmod, Hmod'; apply (Z.div_unique _ _ _ ss); lia).
  assert (ss = seconds mod 86400 mod 60) as Es by (rewrite Hmod; apply (Z.mod_unique _ _ (hh * 60 + mm)); lia).
  rewrite Eh, Em, Es in Htext. clear Hmod Hmod' Hsum.
  assert (time_text seconds = iso_8601 seconds) as E.
  { assert (text = iso_8601 seconds ++ [NUL]) as ->
      by (rewrite Htext; unfold iso_8601; rewrite <- Hcal, Hd; cbv beta iota zeta; by rewrite <- !app_assoc).
    unfold time_text. rewrite Ht. rewrite length_app in Hl. cbn [length] in Hl. apply take_app_length'. lia. }
  split; [done|]. rewrite E. unfold iso_8601. rewrite <- Hcal, Hd. cbv beta iota zeta.
  assert (forall w n, 0 <= n -> QUOTE ∉ setw w "0" (dec n)) as Hq.
  { intros w n Hn. unfold setw. rewrite not_elem_of_app. split.
    - intros H1. apply elem_of_replicate in H1 as [? _]. done.
    - intros H1. pose proof (dec_digits n Hn) as Hf. rewrite Forall_forall in Hf. by destruct (Hf _ H1). }
  rewrite !not_elem_of_app. split_and!; try (apply Hq; lia); by intros ?%list_elem_of_singleton.
Qed.

Lemma public_key_text_is_key_text data : length data = 33%nat -> is_key_text data (public_key_text data).
Proof.
  intros Hl. set (bytes := data ++ le32 (u32 (ripemd160_word0 data))).
  destruct (b58_digits_val bytes) as [Hv Hc]; [subst bytes; rewrite length_app, Hl; cbn; unfold UINT32_MAX; lia|].
  exists (b58_digits bytes). split_and!; [done|done|]. unfold public_key_text, encode. fold bytes.
  rewrite app_assoc. apply take_app_length'. rewrite length_app. cbn. lia.
Qed.

Lemma key_text_unique data text text' : is_key_text data text -> is_key_text data text' -> text = text'.
Proof.
  intros (ds & Hc & Hv & ->) (ds' & Hc' & Hv' & ->). by rewrite (canonical_unique ds ds') by congruence.
Qed.

Lemma quote_in_base58 digits : QUOTE ∉ map (fun d => nth (Z.to_nat d) alphabet NUL) digits.
Proof.
  intros H1. apply list_elem_of_fmap in H1 as (d & Hd & _).
  destruct (Nat.lt_ge_cases (Z.to_nat d) (length alphabet)) as [Hlt|Hge]; [|by rewrite nth_overflow in Hd].
  assert (QUOTE ∉ alphabet) as Hq by (by apply (bool_decide_unpack _); vm_compute). apply Hq. rewrite Hd.
  by apply list_elem_of_In, nth_In.
Qed.

Lemma quote_in_hex data : QUOTE ∉ hex_text data.
Proof.
  unfold hex_text. rewrite not_elem_of_app. split; [by apply (bool_decide_unpack _); vm_compute|].
  induction data as [|c data IH]; [by intros ?%elem_of_nil|]. cbn [map concat]. rewrite not_elem_of_app. split; [|done].
  apply (bool_decide_eq_true_1 (QUOTE ∉ hex2 c)). revert c. apply all_bytes. by vm_compute.
Qed.

Section reading.
  Hypothesis to_hex_ok : forall c, to_hex c = hex2 c.
  Hypothesis decode_ascii : forall text, forallb printable text = true -> decodeUtf8 text = map byte_val text.
  Hypothesis prefix_ok : QUOTE ∉ HIVE_ADDRESS_PREFIX.
  Hypothesis iso_ok : forall seconds, 0 <= seconds <= UINT32_MAX -> iso seconds = iso_8601 seconds.
  Hypothesis key_ok : forall data, length data = 33%nat -> hd NUL data <> NUL -> is_key_text data (key_text (string_of_list_ascii data)).

Lemma literal_reads c : cell_ok c -> is_literal c -> reads (live_text c) (copy_text c).
Proof.
  destruct c as [|z|data|data|seconds|data|s|op]; cbn [live_text copy_text]; intros Hc Hl.
  - constructor.
  - constructor.
  - constructor. apply quote_in_hex.
  - constructor. apply quote_in_hex.
  - destruct (time_text_is_iso seconds Hc) as [E Hq]. rewrite iso_ok, <- E by done. by constructor.
  - destruct Hc as [Hn Hh]. rewrite (key_text_unique data _ _ (key_ok data Hn Hh) (public_key_text_is_key_text data Hn)).
    constructor. destruct (public_key_text_is_key_text data Hn) as (ds & _ & _ & ->). rewrite not_elem_of_app.
    split; [done|apply quote_in_base58].
  - unfold escape. destruct (escape_sql_round_trip decodeUtf8 to_hex to_hex_ok (lit s) Hc) as (body & -> & Hr).
    constructor. rewrite Hr. case_match eqn:E; [|done]. by rewrite decode_ascii.
  - done.
Qed.

End reading.

End cells.

(** ** The columns *)

Fixpoint split_commas (current : list ascii) (l : list ascii) : list (list ascii) :=
  match l with
  | [] => [rev current]
  | c :: l' =>
      if Ascii.eqb c "," then rev current :: split_commas [] l'
      else if Ascii.eqb c " " then split_commas current l'
      else split_commas (c :: current) l'
  end.

(** The names in a list of columns. *)
Definition column_names (cols : string) : list string :=
  map string_of_list_ascii (split_commas [] (lit cols)).

Lemma columns_are_declared :
  map (fun '(table, cols) => (table, column_names cols)) copied_columns = declared_columns.
Proof. by vm_compute. Qed.

(** C14: A row written by COPY during a replay and the same row pushed as an SQL tuple in live
    synchronisation fill the declared columns of its table, in their order and number, with the
    same values, the body of an operation apart.  No field is refused its buffer; the fields are
    the texts of the cells, the tuple is the cells separated by commas, and the server reads
    every cell of the tuple that is a literal as the value of the field.  For hashes, signatures
    and keys of their sizes, keys that do not begin with a zero byte, times of 32 bits, texts
    whose code points are not zero, a prefix of keys without a quote, and a library that prints
    times as ISO 8601, keys in base 58 with their checksum and bytes as two hexadecimal digits,
    and decodes printable ASCII as itself. *)
Theorem replay_and_live_rows_agree {operation} (body_json : operation -> list ascii) `{AddressFormat}
    decodeUtf8 to_hex pack iso key_text (r : @table_row operation) :
  (forall c, to_hex c = hex2 c) ->
  (forall text, forallb printable text = true -> decodeUtf8 text = map byte_val text) ->
  QUOTE ∉ HIVE_ADDRESS_PREFIX ->
  (forall seconds, 0 <= seconds <= UINT32_MAX -> iso seconds = iso_8601 seconds) ->
  (forall data, length data = 33%nat -> hd NUL data <> NUL -> is_key_text data (key_text (string_of_list_ascii data))) ->
  Forall (cell_ok decodeUtf8) (row_cells r) ->
  exists cols,
    (table_of r, cols) ∈ copied_columns /\ (table_of r, column_names cols) ∈ declared_columns /\
    length (column_names cols) = length (row_cells r) /\
    write_row_to_stream body_json r = Ok (map (copy_text body_json) (row_cells r)) /\
    live_tuple decodeUtf8 to_hex pack iso key_text r
    = with_commas (map (live_text decodeUtf8 to_hex pack iso key_text) (row_cells r)) /\
    forall c, c ∈ row_cells r -> is_literal c ->
      reads decodeUtf8 (live_text decodeUtf8 to_hex pack iso key_text c) (copy_text body_json c).
Proof.
  intros Hx Hd Hp Hi Hk Hc. rewrite row_is_its_cells, (write_values_cells _ decodeUtf8), live_is_its_cells by done.
  assert (forall cols, (table_of r, cols) ∈ copied_columns -> (table_of r, column_names cols) ∈ declared_columns) as Hdecl.
  { intros cols Hin. rewrite <- columns_are_declared.
    by apply (list_elem_of_fmap_2 (fun '(table, cols) => (table, column_names cols)) _ _ Hin). }
  assert (exists cols, (table_of r, cols) ∈ copied_columns /\ length (column_names cols) = length (row_cells r)) as
    (cols & Hin & Hl).
  { unfold copied_columns. destruct r; cbn [table_of]; eexists; (split; [repeat (apply list_elem_of_here || apply list_elem_of_further)|by vm_compute]). }
  exists cols. split_and!; auto. intros c Hin' Hlit. rewrite Forall_forall in Hc. by apply literal_reads; auto.
Qed.

(** ** Reading back *)

(** The text of a hash or signature of the right size is read back; a longer text is stored behind
    the end of the object, a shorter one leaves it partly unset, and neither is refused. *)
Theorem bytes_text_is_not_measured size data :
  bytes_from_string size (hex_text data)
  = Ok (if (length data =? size)%nat then Filled data
        else if (length data <? size)%nat then PartlyFilled data else PastTheEnd data).
Proof.
  unfold bytes_from_string, hex_text. rewrite <- (map_ext _ _ hex_of_hex2).
  assert (unesc_bin (lit "\x" ++ concat (map hex_of data)) = Ok data) as ->; [|done].
  unfold unesc_bin. rewrite length_app, length_hex. cbn [length lit list_ascii_of_string].
  destruct (Nat.ltb_spec (2 + 2 * length data) 2); [lia|].
  replace (Nat.even (2 + 2 * length data)) with true by (symmetry; apply Nat.even_spec; exists (S (length data)); lia).
  cbn [negb app]. change "\"%char with BACKSLASH. cbn -[unesc_pairs]. apply unesc_pairs_hex.
Qed.

(** ** A zero byte in a text *)

Lemma filter_absent (t : json_token) (l : list json_token) : t ∉ l -> filter (fun x => x <> t) l = l.
Proof.
  induction l as [|x l IH]; [done|]. intros [Hx Hl]%not_elem_of_cons.
  rewrite filter_cons_True by congruence. by rewrite IH.
Qed.

(** The JSON of a text with a zero byte: the replay removes its escape and stores the rest of the
    text, the cast of a live row to JSONB cuts the text there.  The two stored bodies differ. *)
Theorem zero_byte_is_stored_differently before after tokens_before tokens_after :
  Forall token_ok tokens_before -> Forall token_ok tokens_after ->
  null_token ∉ tokens_before -> null_token ∉ tokens_after -> NUL ∉ before -> after <> [] ->
  strip_json_null_escapes (print_tokens (tokens_before ++ null_token :: tokens_after))
  = print_tokens (tokens_before ++ tokens_after) /\
  pstrdup_truncate_nul (before ++ NUL :: after) = before /\ before <> before ++ after.
Proof.
  intros H1 H2 H3 H4 H5 H6. split_and!.
  - assert (Forall token_ok (tokens_before ++ null_token :: tokens_after)) as Ht
      by (apply Forall_app; split; [done|]; by repeat constructor).
    rewrite (proj1 (strip_removes_exactly_null_escapes _ Ht)).
    f_equal. rewrite filter_app, filter_cons_False by (by intros []).
    by rewrite !filter_absent.
  - induction before as [|c before IH]; [done|]. cbn. apply not_elem_of_cons in H5 as [Hc H5].
    destruct (Ascii.eqb_spec c NUL); [congruence|]. by rewrite IH.
  - intros E. apply (f_equal length) in E. rewrite length_app in E. destruct after; [done|]. cbn in E. lia.
Qed.

Module CopyRowExamples.

#[local] Instance no_hash : AddressFormat := {| HIVE_ADDRESS_PREFIX := lit "STM"; ripemd160_word0 _ := 0 |}.

Definition multisig : @table_row unit :=
  TransactionMultisigRow {| pm_hash := string_of_list_ascii (repeat "a"%char 20); pm_block_number := 5;
                            pm_signature := string_of_list_ascii (repeat "b"%char 65) |}.

Definition decode_bytes (text : list ascii) : list Z := map byte_val text.

(** A block with every kind of cell but a body; the key text is the one of the serializer. *)
Definition block : @table_row unit :=
  let hash := string_of_list_ascii (repeat "a"%char 20) in
  BlockRow {| pb_hash := hash; pb_block_number := 5; pb_created_at := 1709210096; pb_prev_hash := hash; pb_producer_account_id := 7;
              pb_transaction_merkle_root := hash; pb_extensions := Some "it's"%string;
              pb_witness_signature := string_of_list_ascii (repeat "b"%char 65);
              pb_signing_key := string_of_list_ascii (repeat "c"%char 33); pb_hbd_interest_rate := 1; pb_total_vesting_fund_hive := 2;
              pb_total_vesting_shares := 3; pb_total_reward_fund_hive := 4; pb_virtual_supply := 5; pb_current_supply := 6;
              pb_current_hbd_supply := 7; pb_dhf_interval_ledger := 8 |}.

Lemma replay_and_live_rows_agree_witness :
  exists cols, ("hafd.blocks"%string, cols) ∈ copied_columns /\ length (column_names cols) = 17%nat /\
    reads decode_bytes (lit "'2024-02-29T12:34:56'") (Some (lit "2024-02-29T12:34:56")).
Proof.
  destruct (replay_and_live_rows_agree (fun _ => []) decode_bytes hex2 (fun _ => []) iso_8601
    (fun k => public_key_text (lit k)) block) as (cols & H1 & _ & H2 & _ & _ & H3).
  - done.
  - done.
  - by apply (bool_decide_unpack _); vm_compute.
  - done.
  - intros data Hl _. unfold lit. rewrite list_ascii_of_string_of_list_ascii. by apply public_key_text_is_key_text.
  - repeat constructor; done.
  - exists cols. split; [exact H1|]. split; [exact H2|].
    assert (iso_8601 1709210096 = lit "2024-02-29T12:34:56") as E.
    { destruct (time_text_is_iso 1709210096) as [<- _]; [unfold UINT32_MAX; lia|]. vm_compute. reflexivity. }
    specialize (H3 (TimeCell 1709210096)). cbn [live_text copy_text] in H3.
    assert (time_text 1709210096 = lit "2024-02-29T12:34:56") as E' by (vm_compute; reflexivity). rewrite E, E' in H3.
    apply H3; [do 3 right; left|exact I].
Defined.

End CopyRowExamples.
