(* ===== verification/JsonbServer.v ===== *)
(** * A server and a protocol library for the JSONB conversions

    The interfaces of Jsonb can be met: a builder with a stack of open containers stands
    for the server, plain texts for the protocol's types.  With them the conversions
    compute. *)

From S2P Require Import Prelude Text Conversions Jsonb.
From Stdlib Require Import ZArith Lia Ascii String.
From stdpp Require Import base list strings sorting.

Open Scope Z_scope.

(** ** The builder *)

Abbreviation document := (jtree chars) (only parsing).

(** Containers that are open, the innermost first, their contents in reverse; the key a
    value is awaited for. *)
Inductive frame :=
| in_array (items : list document)
| in_object (ms : list (chars * option document)) (key : option chars).

Definition close_key (ms : list (chars * option document)) (key : option chars) :=
  match key with Some k => (k, None) :: ms | None => ms end.

Definition builder : Type := list frame * option document.

Definition add_value (v : document) (b : builder) : builder :=
  match b.1 with
  | in_array items :: st => (in_array (v :: items) :: st, b.2)
  | in_object ms (Some k) :: st => (in_object ((k, Some v) :: ms) None :: st, b.2)
  | in_object ms None :: st => b
  | [] => ([], Some v)
  end.

Definition scalar (v : JsonbValue chars document) : option document :=
  match v with
  | jbvString s => Some (JString s)
  | jbvNumeric n => Some (JNumeric n)
  | jbvBool b => Some (JBool b)
  | _ => None
  end.

Definition push_step (b : builder) (p : push chars document) : builder :=
  match push_token _ _ p, push_value _ _ p with
  | WJB_BEGIN_ARRAY, _ => (in_array [] :: b.1, b.2)
  | WJB_BEGIN_OBJECT, _ => (in_object [] None :: b.1, b.2)
  | WJB_END_ARRAY, _ =>
      match b.1 with in_array items :: st => add_value (JArray (rev items)) (st, b.2) | _ => b end
  | WJB_END_OBJECT, _ =>
      match b.1 with
      | in_object ms key :: st => add_value (JObject (rev (close_key ms key))) (st, b.2)
      | _ => b
      end
  | WJB_KEY, Some (jbvString k) =>
      match b.1 with
      | in_object ms key :: st => (in_object (close_key ms key) (Some k) :: st, b.2)
      | _ => b
      end
  | WJB_VALUE, Some v | WJB_ELEM, Some v =>
      match scalar v with Some j => add_value j b | None => b end
  | _, _ => b
  end.

Definition as_value (j : document) : JsonbValue chars document :=
  match j with
  | JString s => jbvString s
  | JNumeric n => jbvNumeric n
  | JBool b => jbvBool b
  | _ => jbvBinary j
  end.

#[export] Instance stack_server : Server := {|
  numeric := chars;
  numeric_in := id;
  numeric_out := id;
  container := document;
  JsonContainerIsObject j := match j with JObject _ => true | _ => false end;
  JsonContainerIsArray j := match j with JArray _ => true | _ => false end;
  JsonContainerSize j := match j with JArray l => length l | _ => 0%nat end;
  getIthJsonbValueFromContainer j n :=
    match j with JArray l => as_value <$> l !! n | _ => None end;
  getKeyJsonValueFromContainer j key :=
    match j with JObject ms => as_value <$> last_value key ms | _ => None end;
  assembled ps := as_value <$> (foldl push_step ([], None) ps).2
|}.

Lemma build_items (items acc : list document) st done_ :
  Forall (fun j => forall b,
            foldl push_step b (tokens WJB_ELEM j) = add_value j b) items ->
  foldl push_step (in_array acc :: st, done_) (concat (map (tokens WJB_ELEM) items))
  = (in_array (rev items ++ acc) :: st, done_).
Proof.
  intros H. revert acc. induction H as [|j items Hj _ IH]; intros acc; [done|].
  cbn [map concat]. rewrite foldl_app, Hj by done. cbn [add_value fst snd]. rewrite IH. cbn [rev].
  by rewrite <- app_assoc.
Qed.

Definition member_tokens (m : chars * option document) : list (push chars document) :=
  Push WJB_KEY (Some (jbvString m.1))
  :: match m.2 with Some v => tokens WJB_VALUE v | None => [] end.

Lemma build_members (ms acc : list (chars * option document)) key st done_ :
  Forall (fun m => forall j b, m.2 = Some j ->
            foldl push_step b (tokens WJB_VALUE j) = add_value j b) ms ->
  exists acc' key',
    foldl push_step (in_object acc key :: st, done_) (concat (map member_tokens ms))
      = (in_object acc' key' :: st, done_)
    /\ close_key acc' key' = rev ms ++ close_key acc key.
Proof.
  intros H. revert acc key. induction H as [|[k o] ms Hm _ IH]; intros acc key.
  { by exists acc, key. }
  cbn [map concat]. rewrite foldl_app. destruct o as [j|].
  - cbn [member_tokens snd fst foldl push_step push_token push_value].
    rewrite (Hm j) by done. cbn [add_value fst snd].
    destruct (IH ((k, Some j) :: close_key acc key) None) as (a & y & Hf & Hk).
    exists a, y. split; [done|]. rewrite Hk. cbn [rev close_key]. by rewrite <- app_assoc.
  - cbn [member_tokens snd fst foldl push_step push_token push_value].
    destruct (IH (close_key acc key) (Some k)) as (a & y & Hf & Hk).
    exists a, y. split; [done|]. rewrite Hk. cbn [rev close_key]. by rewrite <- app_assoc.
Qed.

Definition builds (j : document) : Prop := forall token b,
  token = WJB_VALUE \/ token = WJB_ELEM -> foldl push_step b (tokens token j) = add_value j b.

Lemma build_array l : Forall builds l -> builds (JArray l).
Proof.
  intros Hl token [st done_] _. cbn [tokens].
  rewrite !foldl_app. cbn [foldl push_step push_token push_value fst snd].
  rewrite build_items by (eapply Forall_impl; [done|]; intros j Hj b; apply Hj; by right).
  cbn [fst snd]. by rewrite app_nil_r, rev_involutive.
Qed.

Lemma build_object ms token b :
  Forall (fun m => match m.2 with Some j => builds j | None => True end) ms ->
  foldl push_step b (tokens token (JObject ms)) = add_value (JObject ms) b.
Proof.
  intros Hms. destruct b as [st done_]. cbn [tokens]. fold member_tokens.
  rewrite !foldl_app. cbn [foldl push_step push_token push_value fst snd].
  destruct (build_members ms [] None st done_) as (acc & key & -> & Hk).
  { eapply Forall_impl; [done|]. intros [k o] Hm j b Hj. cbn in Hm, Hj. subst o. apply Hm. by left. }
  cbn [fst snd]. by rewrite Hk, app_nil_r, rev_involutive.
Qed.

Fixpoint build_document (j : document) : builds j.
Proof.
  destruct j as [s|n|b|l|ms]; [intros token x [-> | ->]; reflexivity..| |].
  - apply build_array. induction l as [|j l IH]; constructor; [apply build_document|exact IH].
  - intros token b _. apply build_object. induction ms as [|[k [j|]] ms IH]; constructor;
      [apply build_document|exact IH|exact I|exact IH].
Qed.

#[export] Program Instance stack_server_laws : ServerLaws (J := stack_server) := {|
  value_of := as_value
|}.
Next Obligation. done. Qed.
Next Obligation. done. Qed.
Next Obligation. done. Qed.
Next Obligation. done. Qed.
Next Obligation. intros l. by exists (JArray l). Qed.
Next Obligation. intros ms. by exists (JObject ms). Qed.
Next Obligation.
  intros ms token. cbn [assembled stack_server].
  rewrite build_object; [done|]. apply Forall_true. intros [k [j|]]; [apply build_document|done].
Qed.

(** ** The protocol *)

(** Numbers with a sign, modulo 2^64. *)
Definition parse_number (s : chars) : outcome jsonb_error Z :=
  let '(neg, l) := match s with "-"%char :: l => (true, l) | _ => (false, s) end in
  let '(v, seen, r) := read_digits 0 false l in
  match r with
  | [] => if seen then Ok (if neg then - v else v) else Throw (library_error s)
  | _ => Throw (library_error s)
  end.

Lemma parse_number_dec z : - 2 ^ 63 <= z < 2 ^ 64 -> parse_number (dec z) = Ok z.
Proof.
  intros Hz.
  assert (forall n, 0 <= n < 10 ^ 20 -> read_digits 0 false (dec n) = (n, true, [])) as Hr.
  { intros n Hn. rewrite <- (app_nil_r (dec n)). by apply read_digits_dec. }
  destruct (Z.ltb_spec z 0) as [Hneg|Hpos].
  - unfold parse_number. unfold dec at 1. rewrite (proj2 (Z.ltb_lt _ _)) by lia.
    specialize (Hr (- z) ltac:(lia)). unfold dec in Hr. rewrite (proj2 (Z.ltb_ge _ _)) in Hr by lia.
    rewrite Hr. f_equal. lia.
  - destruct (dec_head z ltac:(lia)) as (c & t & Hd & Hc).
    assert (c <> "-"%char) as Hm by (intros ->; by destruct Hc).
    specialize (Hr z ltac:(lia)). unfold parse_number. rewrite Hd in Hr |- *.
    replace (match c :: t with "-"%char :: l => (true, l) | _ => (false, c :: t) end)
      with (false, c :: t); [by rewrite Hr|].
    destruct c as [[] [] [] [] [] [] [] []]; done.
Qed.

#[export] Instance plain_protocol : Protocol := {|
  text_value _ := chars;
  text_of _ s := s;
  text_parse _ s := Ok s;
  text_default _ := [];
  symbol := bool;
  symbol_default := false;
  decimals b := if b then 6 else 3;
  to_nai_string b := if b then lit "@@000000037" else lit "@@000000021";
  from_nai_string s _ := Ok (bool_decide (s = lit "@@000000037"));
  legacy_of_asset a := dec (amount a);
  asset_of_legacy s := Asset 0 false;
  legacy_hive_asset := Z;
  hive_asset_default := 0;
  to_asset z := Asset z false;
  from_asset a := amount a;
  legacy_enabled := false;
  max_positive_value := 4294967295;
  max_negative_value := -2147483648;
  to_hex bytes := concat (map hex_of bytes);
  from_hex s n := match unesc_pairs s with Ok l => take n l | Throw _ => [] end;
  string_to_uint64_fc s := z ← parse_number s; Ok (z mod 2 ^ 64);
  lexical_cast_int64 := parse_number
|}.

Fixpoint initial (t : ty) : denote t :=
  match t with
  | TBool => false
  | TInteger _ => 0
  | TString | TJsonString => []
  | TText k => []
  | TBytes => []
  | TArray n => replicate n NUL
  | TSafe t => initial t
  | TOptional _ => None
  | TVector _ | TFlatSet _ | TFlatSetEx _ => []
  | TPair a b => (initial a, initial b)
  | TFlatMap _ _ => []
  | TAsset => Asset 0 false
  | TLegacyHiveAsset => 0
  | TStruct name ms =>
      (fix go ms : members denote ms := match ms with
       | [] => tt
       | (_, t) :: ms' => (initial t, go ms')
       end) ms
  | TStaticVariant _ t _ => inl (initial t)
  end.

#[export] Instance plain_structures : Structures := {|
  struct_default name ms := initial (TStruct name ms);
  less t := match t with
            | TString | TJsonString => chars_ltb
            | TInteger _ => Z.ltb
            | TText _ => chars_ltb
            | _ => fun _ _ => false
            end
|}.

#[export] Program Instance plain_protocol_laws : ProtocolLaws (P := plain_protocol) (S := plain_structures).
Next Obligation. done. Qed.
Next Obligation. by intros []. Qed.
Next Obligation. intros []; apply (bool_decide_unpack _); vm_compute; exact I. Qed.
Next Obligation. intros []; cbn; lia. Qed.
Next Obligation. intros bytes. cbn. by rewrite unesc_pairs_hex, firstn_all. Qed.
Next Obligation. intros bytes. apply length_hex. Qed.
Next Obligation.
  intros bytes. cbn. unfold no_nul. intros Hin.
  apply list_elem_of_In, in_concat in Hin as (p & Hp & Hin).
  apply in_map_iff in Hp as (c & <- & _). apply list_elem_of_In in Hin. revert Hin.
  apply (bool_decide_unpack (NUL ∉ hex_of c)). 
  cut (bool_decide (NUL ∉ hex_of c) = true); [by intros ->|].
  revert c. apply all_bytes. vm_compute. reflexivity.
Qed.
Next Obligation. intros z Hz. cbn. by rewrite parse_number_dec. Qed.
Next Obligation. intros z Hz. apply parse_number_dec. lia. Qed.
Next Obligation. intros t x. destruct t; try done; apply chars_ltb_irrefl || apply Z.ltb_irrefl. Qed.
Next Obligation.
  intros t x y z. destruct t; try done; cbn; try apply chars_ltb_trans.
  rewrite !Z.ltb_lt. lia.
Qed.

#[export] Program Instance plain_defaults : DefaultLaws (P := plain_protocol) (S := plain_structures).
Next Obligation.
  intros name ms. change (untouched (TStruct name ms) (initial (TStruct name ms))).
  generalize (TStruct name ms) as t. clear. intros t. pattern t. apply ty_nested_ind; clear t;
    [intros t Ht|intros t IH|intros a b IHa IHb|intros name ms IH|intros name t rest IHt IH]; try done.
  - destruct t; try done. apply length_replicate.
  - cbn. induction ms as [|[n t] ms IHms]; [done|]. destruct IH as [Ht IH]. by split; [|apply IHms].
Qed.

(** ** A protocol with two operations *)

Module JsonbExamples.

Definition transfer : ty := TStruct (lit "transfer_operation")
  [(lit "from", TText (fixed_string 16)); (lit "amount", TAsset);
   (lit "memo", TOptional TString); (lit "weight", TInteger Int16);
   (lit "nonce", TSafe (TInteger UInt64)); (lit "keys", TFlatSet TString)].

Definition hardfork : ty := TStruct (lit "hardfork_operation")
  [(lit "id", TInteger UInt32); (lit "digest", TArray 2);
   (lit "votes", TFlatMap TString (TInteger UInt16)); (lit "extensions", TVector (TPair TBool TBytes))].

Definition rest : list (chars * ty) := [(lit "hardfork_operation", hardfork)].

Definition operation : ty := TStaticVariant (lit "transfer_operation") transfer rest.

Definition a_transfer : denote operation :=
  inl (lit "alice", (Asset 1500 true, (None, (-300, (18446744073709551615, ([lit "a"; lit "b"], tt)))))).

Definition a_hardfork : denote operation :=
  inr (inl (28, (lit "ab", ([(lit "x", 7); (lit "y", 8)], ([(true, lit "z")], tt))))).

Ltac check_text := apply (bool_decide_unpack (NUL ∉ _)); vm_compute; exact I.
Ltac check_value :=
  repeat first [exact I | progress cbn; lia | check_text | split | constructor].

Lemma operation_well_formed : well_formed operation.
Proof.
  repeat split; try (apply (bool_decide_unpack _); vm_compute; exact I); check_value.
Defined.

Lemma a_transfer_lossless : lossless operation a_transfer.
Proof. check_value. Defined.

Lemma a_hardfork_lossless : lossless operation a_hardfork.
Proof. check_value. Defined.

(** The document of the transfer has no member for the empty memo, and the number that does
    not fit a JSON number is a string. *)
Example transfer_document : exists ms value,
  operation_to_jsonb_value _ _ _ a_transfer = Some (jbvBinary (JObject ms))
  /\ last_value (lit "value") ms = Some (JObject value)
  /\ last_value (lit "memo") value = None
  /\ last_value (lit "nonce") value = Some (JString (lit "18446744073709551615"))
  /\ last_value (lit "weight") value = Some (JNumeric (lit "-300")).
Proof. vm_compute. eexists _, _. repeat split. Qed.

Example operations_round_trip :
  (exists j, operation_to_jsonb_value _ _ _ a_transfer = Some j
     /\ operation_from_jsonb_value _ _ _ j = Ok a_transfer)
  /\ exists j, operation_to_jsonb_value _ _ _ a_hardfork = Some j
     /\ operation_from_jsonb_value _ _ _ j = Ok a_hardfork.
Proof.
  split.
  - apply jsonb_round_trip; [apply operation_well_formed|apply a_transfer_lossless].
  - apply jsonb_round_trip; [apply operation_well_formed|apply a_hardfork_lossless].
Qed.

End JsonbExamples.
