(* ===== verification/OperationType.v ===== *)
(** * The SQL type [hafd.operation] ([operation_base.cpp], [operation_conversion.cpp])

    An operation is stored as its packed bytes.  Here are its input and output functions,
    its casts to JSON and JSONB, its order, the boundary between C++ exceptions and the
    server's errors ([pg_cxx.hpp]), and the stream the JSON parser reads ([svstream.cpp]).

    Packing, the JSON parser and the server's text of a bytea are parameters. *)

From S2P Require Import Prelude Text Jsonb JsonbServer.
From Stdlib Require Import ZArith Lia Ascii String.
From stdpp Require Import base list strings sorting.

Open Scope Z_scope.

(** ** C++ called from the server and back ([pg_cxx.hpp]) *)

Inductive errcode :=
| ERRCODE_DATA_EXCEPTION
| ERRCODE_INVALID_TEXT_REPRESENTATION
| ERRCODE_INVALID_BINARY_REPRESENTATION
| ERRCODE_INVALID_PARAMETER_VALUE
| ERRCODE_FEATURE_NOT_SUPPORTED
| ERRCODE_NULL_VALUE_NOT_ALLOWED
| ERRCODE_UNDEFINED_TABLE
| ERRCODE_CONNECTION_FAILURE
| ERRCODE_INTERNAL_ERROR.                           (* ereport without errcode *)

(** How a piece of C++ ends; [longjmps] is an error of the server that passes through it. *)
Inductive cxx (A : Type) :=
| returns (a : A)
| throws_fc (msg : chars)
| throws_std (msg : chars)
| throws_other
| longjmps (code : errcode) (msg : chars).
Arguments returns {A}.
Arguments throws_fc {A}.
Arguments throws_std {A}.
Arguments throws_other {A}.
Arguments longjmps {A}.

(** What a function of the extension gives to the server; [undefined] when a C++ exception
    leaves it. *)
Inductive pg (A : Type) :=
| pg_ok (a : A)
| pg_error (code : errcode) (msg : chars)
| undefined.
Arguments pg_ok {A}.
Arguments pg_error {A}.
Arguments undefined {A}.

#[global] Instance cxx_ret : MRet cxx := fun A a => returns a.
#[global] Instance cxx_bind : MBind cxx := fun A B f m =>
  match m with
  | returns a => f a
  | throws_fc msg => throws_fc msg
  | throws_std msg => throws_std msg
  | throws_other => throws_other
  | longjmps code msg => longjmps code msg
  end.

#[global] Instance pg_bind : MBind pg := fun A B f m =>
  match m with pg_ok a => f a | pg_error code msg => pg_error code msg | undefined => undefined end.

Definition pg_call_cxx {A} (f : cxx A) (errorcode : errcode) : pg A :=
  match f with
  | returns a => pg_ok a
  | throws_fc msg | throws_std msg => pg_error errorcode msg
  | throws_other => pg_error errorcode (lit "Unexpected error calling cpp function")
  | longjmps _ msg =>
      pg_error ERRCODE_INTERNAL_ERROR
        (lit "An unexpected error occurred when executing C++ code: " ++ msg)
  end.

(** [PgError] is a [std::runtime_error]. *)
Definition cxx_call_pg {A} (f : cxx A) : cxx A :=
  match f with
  | returns a => returns a
  | throws_fc msg | throws_std msg => throws_std msg
  | throws_other => throws_std (lit "Unexpected error calling pg function")
  | longjmps _ msg => throws_std msg
  end.

(** ** [svstream] *)

Record svstream := { sv : chars; read_pos : nat }.

Definition make_svstream (raw_data : chars) : svstream := {| sv := raw_data; read_pos := 0 |}.

(** The bytes copied to the buffer, or [fc::eof_exception]. *)
Definition readsome (s : svstream) (len : nat) : option (chars * svstream) :=
  if (read_pos s <? length (sv s))%nat then
    let bytes_copied := Nat.min len (length (sv s) - read_pos s) in
    Some (take bytes_copied (drop (read_pos s) (sv s)),
          {| sv := sv s; read_pos := (read_pos s + bytes_copied)%nat |})
  else None.

Definition get (s : svstream) : option (ascii * svstream) :=
  match sv s !! read_pos s with
  | Some c => Some (c, {| sv := sv s; read_pos := (read_pos s + 1)%nat |})
  | None => None
  end.

(** ** The bytes of operations *)

Definition bytes := list ascii.

(** [memcmp] of the same number of bytes, compared as unsigned. *)
Fixpoint memcmp (l r : bytes) : Z :=
  match l, r with
  | a :: l', b :: r' =>
      let d := Z.of_N (N_of_ascii a) - Z.of_N (N_of_ascii b) in
      if d =? 0 then memcmp l' r' else d
  | _, _ => 0
  end.

Definition operation_cmp_impl (lhs rhs : bytes) : Z :=
  if (length rhs <? length lhs)%nat then 1
  else if (length lhs <? length rhs)%nat then -1
  else memcmp lhs rhs.

Definition operation_eq (lhs rhs : bytes) : bool := operation_cmp_impl lhs rhs =? 0.
Definition operation_ne (lhs rhs : bytes) : bool := negb (operation_cmp_impl lhs rhs =? 0).
Definition operation_gt (lhs rhs : bytes) : bool := 0 <? operation_cmp_impl lhs rhs.
Definition operation_ge (lhs rhs : bytes) : bool := 0 <=? operation_cmp_impl lhs rhs.
Definition operation_lt (lhs rhs : bytes) : bool := operation_cmp_impl lhs rhs <? 0.
Definition operation_le (lhs rhs : bytes) : bool := operation_cmp_impl lhs rhs <=? 0.

(** A value of the SQL type: the bytes behind its header. *)
Definition make_operation (raw_data : bytes) (data_length : nat) : bytes := take data_length raw_data.

Definition operation_bin_in (data : bytes) : bytes := make_operation data (length data).
Definition operation_bin_out (op : bytes) : bytes := op.

(** The buffer of the RECEIVE function; one byte less is taken. *)
Definition operation_bin_in_internal (buf : bytes) : bytes := make_operation buf (length buf - 1).

Section operation_type.
  Context {P : Protocol} {S : Structures} {J : Server}.
  Context (name : chars) (t : ty) (rest : list (chars * ty)).

  Abbreviation operation := (denote (TStaticVariant name t rest)).

  Context (unpack : bytes -> cxx operation) (pack : operation -> bytes).
  Context (variant : Type) (no_variant : variant).
  Context (to_variant : operation -> variant) (variant_to_string : variant -> chars).
  Context (operation_of_json : svstream -> cxx operation).  (* json::from_stream, from_variant *)
  Context (byteain : chars -> pg bytes) (byteaout : bytes -> chars).
  Context (nth_type_name : Z -> cxx chars).
  Context (error_text : jsonb_error -> chars).

(** *** [operation_conversion.cpp] *)

Definition raw_to_operation (raw_data : bytes) : cxx operation :=
  if (length raw_data =? 0)%nat then returns (default_value (TStaticVariant name t rest))
  else unpack raw_data.

Definition raw_to_variant_impl (raw_data : bytes) : cxx variant :=
  if (length raw_data =? 0)%nat then returns no_variant
  else op ← unpack raw_data; returns (to_variant op).

Definition raw_to_json (raw_data : bytes) : cxx chars :=
  v ← raw_to_variant_impl raw_data; returns (variant_to_string v).

(** *** [operation_base.cpp] *)

Definition json_to_op (json : chars) : cxx bytes :=
  match json with
  | [] => returns []
  | _ => op ← operation_of_json (make_svstream json); returns (pack op)
  end.

Definition of_outcome {A} (o : outcome jsonb_error A) : cxx A :=
  match o with Ok a => returns a | Throw e => throws_fc (error_text e) end.

Definition operation_to_jsonb (op : bytes) : pg (JsonbValue numeric container) :=
  pg_call_cxx
    (operation ← raw_to_operation op;
     match operation_to_jsonb_value name t rest operation with
     | Some j => returns j
     | None => longjmps ERRCODE_INTERNAL_ERROR (lit "JsonbValueToJsonb")
     end) ERRCODE_DATA_EXCEPTION.

Definition operation_from_jsonb (j : JsonbValue numeric container) : pg bytes :=
  pg_call_cxx
    (operation ← of_outcome (operation_from_jsonb_value name t rest j);
     _ ← of_outcome (operation_from_jsonb_value name t rest j);
     returns (make_operation (pack operation) (length (pack operation))))
    ERRCODE_INVALID_TEXT_REPRESENTATION.

Definition operation_from_jsontext (str : chars) : pg bytes :=
  pg_call_cxx (data ← json_to_op str; returns (make_operation data (length data)))
    ERRCODE_INVALID_TEXT_REPRESENTATION.

(** The text up to its first NUL: it is passed as a C string. *)
Definition operation_to_jsontext (op : bytes) : pg chars :=
  pg_call_cxx (json ← raw_to_json op; returns (pstrdup_truncate_nul json))
    ERRCODE_INVALID_BINARY_REPRESENTATION.

(** The bytes are unpacked for the check only. *)
Definition operation_in (data : chars) : pg bytes :=
  bs ← byteain data;
  _ ← pg_call_cxx (raw_to_operation bs) ERRCODE_INVALID_BINARY_REPRESENTATION;
  pg_ok (make_operation bs (length bs)).

Definition operation_out (op : bytes) : chars := byteaout op.

(** [char] is signed; the call is not inside [pg_call_cxx]. *)
Definition operation_type_name (op : bytes) : pg chars :=
  match op with
  | c :: _ =>
      match nth_type_name (wrap_s 8 (Z.of_N (N_of_ascii c))) with
      | returns type_name => pg_ok (pstrdup_truncate_nul type_name)
      | longjmps code msg => pg_error code msg
      | _ => undefined
      end
  | [] =>
      pg_error ERRCODE_INVALID_PARAMETER_VALUE (lit "Cannot get type name of zero length operation")
  end.

(** ** Casts *)

  Context {SL : ServerLaws} {PL : ProtocolLaws} {DL : DefaultLaws}.

(** C19: [op::jsonb::hafd.operation] gives back the bytes of a packed operation, whatever the
    protocol's types are made of, when its value is lossless. *)
Theorem jsonb_cast_round_trip (op : operation) :
  unpack (pack op) = returns op -> pack op <> [] ->
  well_formed (TStaticVariant name t rest) -> lossless (TStaticVariant name t rest) op ->
  (j ← operation_to_jsonb (pack op); operation_from_jsonb j) = pg_ok (pack op).
Proof.
  intros Hpack Hne Hw Hl. destruct (jsonb_round_trip name t rest op Hw Hl) as (j & Hto & Hfrom).
  unfold operation_to_jsonb, raw_to_operation.
  destruct (Nat.eqb_spec (length (pack op)) 0) as [H0|_]; [by destruct (pack op)|].
  rewrite Hpack. cbn [mbind cxx_bind]. rewrite Hto. cbn [pg_call_cxx mbind pg_bind].
  unfold operation_from_jsonb. rewrite Hfrom. cbn.
  unfold make_operation. by rewrite firstn_all.
Qed.

(** A value without bytes is shown as the default operation and reads back as its bytes. *)
Lemma empty_operation_is_default :
  well_formed (TStaticVariant name t rest) ->
  lossless (TStaticVariant name t rest) (default_value (TStaticVariant name t rest)) ->
  (j ← operation_to_jsonb []; operation_from_jsonb j)
  = pg_ok (pack (default_value (TStaticVariant name t rest))).
Proof.
  intros Hw Hl. destruct (jsonb_round_trip name t rest _ Hw Hl) as (j & Hto & Hfrom).
  unfold operation_to_jsonb, raw_to_operation. cbn [length Nat.eqb mbind cxx_bind]. rewrite Hto.
  cbn [pg_call_cxx mbind pg_bind]. unfold operation_from_jsonb. rewrite Hfrom. cbn.
  unfold make_operation. by rewrite firstn_all.
Qed.

(** The text form of a value the checks accept is read back. *)
Lemma text_form_round_trip (op : bytes) :
  (forall bs, byteain (byteaout bs) = pg_ok bs) ->
  (op = [] \/ exists o, unpack op = returns o) -> operation_in (operation_out op) = pg_ok op.
Proof.
  intros Hb Hop. unfold operation_in, operation_out. rewrite Hb. cbn.
  assert (exists o, raw_to_operation op = returns o) as [o ->].
  { unfold raw_to_operation. destruct Hop as [-> | [o Ho]]; [by eexists|].
    case_match; [by eexists|by exists o]. }
  cbn. unfold make_operation. by rewrite firstn_all.
Qed.

End operation_type.

(** Errors of the server that pass through [cxx_call_pg] keep their text and get the code
    the caller asked for. *)
Lemma guarded_call_reports {A B} (f : cxx A) (k : A -> cxx B) code code' msg :
  f = longjmps code' msg -> pg_call_cxx (a ← cxx_call_pg f; k a) code = pg_error code msg.
Proof. by intros ->. Qed.

(** ** Order *)

Lemma memcmp_refl l : memcmp l l = 0.
Proof. induction l as [|a l IH]; cbn; [done|]. by rewrite Z.sub_diag. Qed.

Lemma memcmp_zero l r : length l = length r -> memcmp l r = 0 -> l = r.
Proof.
  revert r. induction l as [|a l IH]; intros [|b r] Hlen; try done. cbn.
  destruct (Z.eqb_spec (Z.of_N (N_of_ascii a) - Z.of_N (N_of_ascii b)) 0) as [E|E]; intros H; [|done].
  assert (a = b) as ->.
  { rewrite <- (ascii_N_embedding a), <- (ascii_N_embedding b). f_equal. lia. }
  f_equal. apply IH; [by injection Hlen|done].
Qed.

Lemma memcmp_sgn l r : memcmp r l = - memcmp l r.
Proof.
  revert r. induction l as [|a l IH]; intros [|b r]; try done. cbn.
  destruct (Z.eqb_spec (Z.of_N (N_of_ascii b) - Z.of_N (N_of_ascii a)) 0),
    (Z.eqb_spec (Z.of_N (N_of_ascii a) - Z.of_N (N_of_ascii b)) 0); try lia. apply IH.
Qed.

Lemma memcmp_trans l m r : length l = length m -> length m = length r ->
  memcmp l m < 0 -> memcmp m r < 0 -> memcmp l r < 0.
Proof.
  revert m r. induction l as [|a l IH]; intros [|b m] [|c r] H1 H2; try done. cbn.
  injection H1 as H1. injection H2 as H2. specialize (IH m r H1 H2).
  destruct (Z.eqb_spec (Z.of_N (N_of_ascii a) - Z.of_N (N_of_ascii b)) 0),
    (Z.eqb_spec (Z.of_N (N_of_ascii b) - Z.of_N (N_of_ascii c)) 0),
    (Z.eqb_spec (Z.of_N (N_of_ascii a) - Z.of_N (N_of_ascii c)) 0); lia || auto.
Qed.

Lemma cmp_zero l r : operation_cmp_impl l r = 0 <-> l = r.
Proof.
  unfold operation_cmp_impl. split.
  - destruct (Nat.ltb_spec (length r) (length l)), (Nat.ltb_spec (length l) (length r)); try done.
    intros H1. apply memcmp_zero; [lia|done].
  - intros ->. rewrite Nat.ltb_irrefl. apply memcmp_refl.
Qed.

Lemma cmp_sgn l r : operation_cmp_impl r l = - operation_cmp_impl l r.
Proof.
  unfold operation_cmp_impl.
  destruct (Nat.ltb_spec (length r) (length l)), (Nat.ltb_spec (length l) (length r)); try lia.
  apply memcmp_sgn.
Qed.

Lemma cmp_trans l m r :
  operation_cmp_impl l m < 0 -> operation_cmp_impl m r < 0 -> operation_cmp_impl l r < 0.
Proof.
  unfold operation_cmp_impl.
  destruct (Nat.ltb_spec (length m) (length l)), (Nat.ltb_spec (length l) (length m)),
    (Nat.ltb_spec (length r) (length m)), (Nat.ltb_spec (length m) (length r)),
    (Nat.ltb_spec (length r) (length l)), (Nat.ltb_spec (length l) (length r)); try lia.
  apply memcmp_trans; lia.
Qed.

(** The comparison functions are the operators of one total order, as an operator class
    needs: [=] is equality of the bytes, [<] is transitive, exactly one of [<], [=], [>]
    holds, and [<>], [<=], [>=] are their unions. *)
Theorem operation_order_is_total (a b c : bytes) :
  (operation_eq a b = true <-> a = b)
  /\ operation_gt a b = operation_lt b a
  /\ operation_ne a b = negb (operation_eq a b)
  /\ operation_le a b = (operation_lt a b || operation_eq a b)
  /\ operation_ge a b = (operation_gt a b || operation_eq a b)
  /\ operation_le a b = negb (operation_gt a b)
  /\ implb (operation_lt a b && operation_lt b c) (operation_lt a c) = true.
Proof.
  unfold operation_eq, operation_gt, operation_ne, operation_le, operation_ge, operation_lt.
  rewrite implb_true_iff, andb_true_iff, !Z.ltb_lt, Z.eqb_eq, cmp_zero, (cmp_sgn a b).
  split_and!; try done; [lia..|]. intros [H1 H2]. by eapply cmp_trans.
Qed.

(** ** Binary transfer *)

Lemma bin_round_trip op : operation_bin_in (operation_bin_out op) = op.
Proof. unfold operation_bin_in, operation_bin_out, make_operation. apply firstn_all. Qed.

(** What SEND writes is not what RECEIVE reads: fed with the bytes [operation_bin_out]
    returned, the RECEIVE function loses the last byte of the operation. *)
Theorem receive_loses_last_byte op c :
  operation_bin_in_internal (operation_bin_out (op ++ [c])) = op.
Proof.
  unfold operation_bin_in_internal, operation_bin_out, make_operation.
  rewrite length_app. cbn. rewrite Nat.add_sub. by rewrite take_app_length.
Qed.

(** ** The stream *)

(** A sequence of calls: [Some len] is [readsome], [None] is [get]; stops at the exception. *)
Fixpoint read_calls (calls : list (option nat)) (s : svstream) : chars * bool * svstream :=
  match calls with
  | [] => ([], false, s)
  | call :: calls' =>
      match (match call with
             | Some len => readsome s len
             | None => p ← get s; Some ([p.1], p.2)
             end) with
      | Some (chunk, s') =>
          let '(text, eof, s'') := read_calls calls' s' in (chunk ++ text, eof, s'')
      | None => ([], true, s)
      end
  end.

(** However it is read, the stream delivers a prefix of the text, and the end of file only
    behind all of it. *)
Lemma stream_delivers_text calls s :
  (read_pos s <= length (sv s))%nat ->
  let '(text, eof, s') := read_calls calls s in
  drop (read_pos s) (sv s) = text ++ drop (read_pos s') (sv s')
  /\ (eof = true -> text = drop (read_pos s) (sv s)).
Proof.
  revert s. induction calls as [|call calls IH]; intros s Hs; [done|]. cbn [read_calls].
  assert (forall chunk s', (read_pos s' <= length (sv s'))%nat -> sv s' = sv s ->
    drop (read_pos s) (sv s) = chunk ++ drop (read_pos s') (sv s) ->
    let '(text, eof, s'') := (let '(text, eof, s'') := read_calls calls s' in (chunk ++ text, eof, s'')) in
    drop (read_pos s) (sv s) = text ++ drop (read_pos s'') (sv s'')
    /\ (eof = true -> text = drop (read_pos s) (sv s))) as Hstep.
  { intros chunk s' Hp Hsv Hd. specialize (IH s' Hp). destruct (read_calls calls s') as [[text eof] s''].
    rewrite Hsv in IH. destruct IH as [IH1 IH2]. rewrite Hd. split.
    - by rewrite IH1, app_assoc.
    - intros He. by rewrite (IH2 He). }
  assert ((length (sv s) <= read_pos s)%nat ->
    drop (read_pos s) (sv s) = [] ++ drop (read_pos s) (sv s)
    /\ (true = true -> [] = drop (read_pos s) (sv s))) as Hend.
  { intros He. split; [done|]. intros _. by rewrite drop_ge. }
  destruct call as [len|].
  - unfold readsome. destruct (Nat.ltb_spec (read_pos s) (length (sv s))) as [Hlt|Hge]; [|by apply Hend].
    apply Hstep; cbn; [lia|done|]. by rewrite <- drop_drop, take_drop.
  - unfold get. destruct (sv s !! read_pos s) as [c|] eqn:Hc; cbn [mbind option_bind].
    + apply Hstep; cbn; [|done|].
      * apply lookup_lt_Some in Hc. lia.
      * rewrite Nat.add_1_r. by apply drop_S.
    + apply Hend. by apply lookup_ge_None.
Qed.

Module OperationExamples.
Import JsonbExamples.

(** Two operations, told apart by their first byte. *)
Definition pack_example (op : denote operation) : bytes :=
  match op with inl _ => lit "02" | inr _ => lit "3" end.

Definition unpack_example (raw : bytes) : cxx (denote operation) :=
  match raw with
  | "0"%char :: _ => returns a_transfer
  | "3"%char :: _ => returns a_hardfork
  | _ => throws_fc (lit "unpack")
  end.

Lemma jsonb_cast_round_trip_witness :
  (j ← operation_to_jsonb (lit "transfer_operation") transfer rest unpack_example (lit "02");
   operation_from_jsonb (lit "transfer_operation") transfer rest pack_example (fun _ => []) j)
  = pg_ok (lit "02").
Proof.
  apply (jsonb_cast_round_trip (lit "transfer_operation") transfer rest unpack_example pack_example
           (fun _ => []) a_transfer); [reflexivity|discriminate| |].
  - apply operation_well_formed.
  - apply a_transfer_lossless.
Defined.

Example order_is_by_length_first :
  operation_lt (lit "z") (lit "aa") = true /\ operation_lt (lit "aa") (lit "ab") = true.
Proof. by vm_compute. Qed.

End OperationExamples.
