(* ===== verification/RcDelegation.v ===== *)
(** * Delegations of resource credits ([rc_delegation.cpp])

    The set-returning function [parse_rc_delegation]: the JSON of a custom operation, the
    delegations in it, one row per delegatee.  It accepts what a node accepts that replays
    blocks: either serialisation of an operation, account names cut to their size, and a
    list only as a whole.

    The JSON parser, the reading of [delegate_rc_operation] and the rules for account names
    are parameters; the reading depends on the library's switch for the verification of
    truncated names, which is the state. *)

From S2P Require Import Prelude Text Jcs.
From Stdlib Require Import ZArith Lia Ascii String.
From stdpp Require Import base list strings.

Open Scope Z_scope.
Open Scope haf_scope.

Record rc_delegation_row := { from_account : chars; to_account : chars; row_max_rc : Z }.

Record delegate_rc_operation := { op_from : chars; delegatees : list chars; max_rc : Z }.

(** ** [fc::variant] *)

Definition is_delegate_rc_legacy_name_or_id (name_or_id : variant) : bool :=
  match name_or_id with
  | VUint64 u => u =? 0
  | VString s => bool_decide (s = lit "delegate_rc")
  | _ => false
  end.

(** [is_integer] holds for both integers and for bool; [as_int64] converts them. *)
Definition is_delegate_rc_type (type : variant) : bool :=
  match type with
  | VInt64 i => i =? 0
  | VUint64 u => wrap_s 64 u =? 0
  | VBool b => negb b
  | VString s => bool_decide (s = lit "delegate_rc_operation")
  | _ => false
  end.

(** [variant_object::find] *)
Fixpoint find_entry (key : chars) (entries : list (chars * variant)) : option variant :=
  match entries with
  | [] => None
  | (k, v) :: entries' => if decide (k = key) then Some v else find_entry key entries'
  end.

Section rc_delegation.
  Context (E : Type).
  Context (from_string : chars -> outcome E variant).
  Context (from_variant : bool -> variant -> outcome E delegate_rc_operation).
  Context (is_valid_account_name : chars -> bool).
  Context (HIVE_RC_MAX_ACCOUNTS_PER_DELEGATION_OP : nat).

  (** The state is [truncation_controller::is_verifying_enabled]. *)
  Abbreviation RC := (ST bool E).

(** The life of a [truncating_account_names]: the destructor restores the switch also when
    an exception leaves its scope. *)
Definition truncating_account_names {A} (body : RC A) : RC A := fun old_verify_status =>
  let '(r, _) := body false in (r, old_verify_status).

Fixpoint validate_delegatees (from : chars) (l : list chars) : bool :=
  match l with
  | [] => true
  | delegatee :: l' =>
      if decide (delegatee = from) then false
      else if negb (is_valid_account_name delegatee) then false
      else validate_delegatees from l'
  end.

Definition validate_delegate_rc_operation (op : delegate_rc_operation) : bool :=
  if (length (delegatees op) =? 0)%nat then false
  else if (HIVE_RC_MAX_ACCOUNTS_PER_DELEGATION_OP <? length (delegatees op))%nat then false
  else if max_rc op <? 0 then false
  else if negb (is_valid_account_name (op_from op)) then false
  else validate_delegatees (op_from op) (delegatees op).

(** The operation's data, in either serialisation. *)
Definition operation_data (v : variant) : option variant :=
  match v with
  | VArray (name_or_id :: op_data :: _) =>
      if is_delegate_rc_legacy_name_or_id name_or_id then Some op_data else None
  | VArray _ => None
  | VObject obj =>
      match find_entry (lit "type") obj, find_entry (lit "value") obj with
      | Some type, Some value => if is_delegate_rc_type type then Some value else None
      | _, _ => None
      end
  | _ => None
  end.

(** The operation read, or [false]. *)
Definition parse_single_operation (v : variant) : RC (option delegate_rc_operation) :=
  match operation_data v with
  | Some (VObject fields) =>
      let* op := truncating_account_names
                   (let* verify := st_get in st_lift (from_variant verify (VObject fields))) in
      st_ret (if validate_delegate_rc_operation op then Some op else None)
  | _ => st_ret None
  end.

(** The loop over a list; stops at the first operation that is not accepted. *)
Fixpoint parse_operations (l : list variant) : RC (option (list delegate_rc_operation)) :=
  match l with
  | [] => st_ret (Some [])
  | op_variant :: l' =>
      let* o := parse_single_operation op_variant in
      match o with
      | None => st_ret None
      | Some op =>
          let* os := parse_operations l' in
          st_ret (match os with Some ops => Some (op :: ops) | None => None end)
      end
  end.

Definition op_rows (op : delegate_rc_operation) : list rc_delegation_row :=
  map (fun delegatee => {| from_account := op_from op; to_account := delegatee; row_max_rc := max_rc op |})
    (delegatees op).

(** A list is recognised by its first element being an array. *)
Definition operations_of (v : variant) : list variant :=
  match v with
  | VArray ((VArray _ :: _) as l) => l
  | _ => [v]
  end.

Definition parse_body (json_text : chars) : RC (list rc_delegation_row) :=
  let* v := st_lift (from_string json_text) in
  let* os := parse_operations (operations_of v) in
  st_ret (match os with Some ops => concat (map op_rows ops) | None => [] end).

(** Both handlers clear the rows. *)
Definition parse_rc_delegations_from_json (json_text : option chars) (verify : bool) :
    list rc_delegation_row * bool :=
  match json_text with
  | None | Some [] => ([], verify)
  | Some text =>
      match parse_body text verify with
      | (Ok rows, verify') => (rows, verify')
      | (Throw _, verify') => ([], verify')
      end
  end.

(** ** The set-returning function *)

(** [FuncCallContext], as far as the function uses it. *)
Record srf := { call_cntr : nat; max_calls : nat; user_fctx : list rc_delegation_row }.

Definition first_call (arg : option chars) (verify : bool) : srf :=
  let rows := match arg with
              | None => []
              | Some text => (parse_rc_delegations_from_json (Some text) verify).1
              end in
  {| call_cntr := 0; max_calls := length rows; user_fctx := rows |}.

(** [SRF_RETURN_NEXT] counts the call; [None] is [SRF_RETURN_DONE]. *)
Definition next_call (f : srf) : option (rc_delegation_row * srf) :=
  if (call_cntr f <? max_calls f)%nat then
    match user_fctx f !! call_cntr f with
    | Some row => Some (row, {| call_cntr := call_cntr f + 1; max_calls := max_calls f;
                                user_fctx := user_fctx f |})
    | None => None
    end
  else None.

Fixpoint calls (n : nat) (f : srf) : list rc_delegation_row * option srf :=
  match n with
  | O => ([], Some f)
  | S n' => match next_call f with
            | Some (row, f') => let '(rows, r) := calls n' f' in (row :: rows, r)
            | None => ([], None)
            end
  end.

(** ** Specification *)

(** An operation a node accepts while it does not verify the length of names. *)
Definition accepted (v : variant) : option delegate_rc_operation :=
  match operation_data v with
  | Some (VObject fields) =>
      match from_variant false (VObject fields) with
      | Ok op => if validate_delegate_rc_operation op then Some op else None
      | Throw _ => None
      end
  | _ => None
  end.

Definition rc_delegations (json_text : chars) : list rc_delegation_row :=
  match json_text with
  | [] => []
  | _ => match from_string json_text with
         | Ok v => match mapM accepted (operations_of v) with
                   | Some ops => concat (map op_rows ops)
                   | None => []
                   end
         | Throw _ => []
         end
  end.

Lemma parse_single_spec v verify :
  (parse_single_operation v verify).2 = verify
  /\ accepted v = match (parse_single_operation v verify).1 with Ok o => o | Throw _ => None end.
Proof.
  unfold parse_single_operation, accepted. destruct (operation_data v) as [[]|]; try done.
  unfold st_bind, truncating_account_names, st_get, st_lift, st_ret. cbn.
  by destruct (from_variant false _).
Qed.

Lemma parse_operations_spec l verify :
  (parse_operations l verify).2 = verify
  /\ mapM accepted l = match (parse_operations l verify).1 with Ok o => o | Throw _ => None end.
Proof.
  induction l as [|v l [IH1 IH2]]; [done|]. destruct (parse_single_spec v verify) as [Hs Ha].
  cbn [parse_operations mapM]. unfold st_bind.
  destruct (parse_single_operation v verify) as [[[op|]|e] verify']; cbn in Hs, Ha; subst verify';
    rewrite Ha; try done.
  cbn [mbind option_bind]. rewrite IH2.
  destruct (parse_operations l verify) as [[[ops|]|e] verify']; cbn in IH1 |- *; by subst.
Qed.

Lemma parse_spec text verify :
  parse_rc_delegations_from_json (Some text) verify = (rc_delegations text, verify).
Proof.
  unfold parse_rc_delegations_from_json, rc_delegations. destruct text as [|c text]; [done|].
  unfold parse_body, st_bind at 1, st_lift at 1.
  destruct (from_string (c :: text)) as [v|e]; [|done].
  destruct (parse_operations_spec (operations_of v) verify) as [Hs Hm]. rewrite Hm. unfold st_bind.
  destruct (parse_operations (operations_of v) verify) as [[[ops|]|e] verify']; cbn in Hs |- *;
    by rewrite Hs.
Qed.

Lemma validate_delegatees_spec from l :
  validate_delegatees from l = true <->
  Forall (fun d => d <> from /\ is_valid_account_name d = true) l.
Proof.
  induction l as [|d l IH]; cbn; [done|]. rewrite Forall_cons, <- IH.
  destruct (decide (d = from)); [naive_solver|].
  destruct (is_valid_account_name d); naive_solver.
Qed.

Lemma validate_spec op : validate_delegate_rc_operation op = true ->
  delegatees op <> [] /\ (length (delegatees op) <= HIVE_RC_MAX_ACCOUNTS_PER_DELEGATION_OP)%nat
  /\ 0 <= max_rc op /\ is_valid_account_name (op_from op) = true
  /\ Forall (fun d => d <> op_from op /\ is_valid_account_name d = true) (delegatees op).
Proof.
  unfold validate_delegate_rc_operation. intros H.
  destruct (Nat.eqb_spec (length (delegatees op)) 0) as [|Hne]; [done|].
  destruct (Nat.ltb_spec HIVE_RC_MAX_ACCOUNTS_PER_DELEGATION_OP (length (delegatees op))); [done|].
  destruct (Z.ltb_spec (max_rc op) 0); [done|].
  destruct (is_valid_account_name (op_from op)); [|done].
  split_and!; [by intros Hnil; rewrite Hnil in Hne|lia|lia|done|by apply validate_delegatees_spec].
Qed.

(** A row that may be applied. *)
Definition row_ok (row : rc_delegation_row) : Prop :=
  0 <= row_max_rc row /\ from_account row <> to_account row
  /\ is_valid_account_name (from_account row) = true
  /\ is_valid_account_name (to_account row) = true.

Lemma op_rows_ok op : validate_delegate_rc_operation op = true -> Forall row_ok (op_rows op).
Proof.
  intros (_ & _ & Hm & Hf & Hd)%validate_spec. unfold op_rows. apply Forall_map.
  eapply Forall_impl; [done|]. intros d [Hne Hv]. by split_and!; [| intros Heq; apply Hne| |].
Qed.

Lemma accepted_valid l ops : mapM accepted l = Some ops ->
  Forall (fun op => validate_delegate_rc_operation op = true) ops.
Proof.
  intros H%mapM_Some. induction H as [|v op l ops Hv _ IH]; constructor; [|done].
  unfold accepted in Hv. repeat case_match; try done. by injection Hv as <-.
Qed.

Lemma rc_delegations_ok text : Forall row_ok (rc_delegations text).
Proof.
  unfold rc_delegations. destruct text as [|c text]; [constructor|].
  destruct (from_string (c :: text)) as [v|e]; [|constructor].
  destruct (mapM accepted (operations_of v)) as [ops|] eqn:Hm; [|constructor].
  apply accepted_valid in Hm. induction Hm as [|op ops Hop _ IH]; cbn; [constructor|].
  apply Forall_app. split; [by apply op_rows_ok|done].
Qed.

(** C20: The rows are those of the document's operations when every one of them is accepted,
    and none otherwise, whichever way an operation is refused (wrong shape, an exception,
    invalid data); every row is a delegation that may be applied; and the switch for the
    verification of names is as before on every path. *)
Theorem delegations_all_or_nothing text verify :
  let '(rows, verify') := parse_rc_delegations_from_json (Some text) verify in
  rows = rc_delegations text /\ Forall row_ok rows /\ verify' = verify.
Proof. rewrite parse_spec. split_and!; [done|apply rc_delegations_ok|done]. Qed.

Lemma calls_rest n f :
  max_calls f = length (user_fctx f) ->
  (calls n f).1 = take n (drop (call_cntr f) (user_fctx f))
  /\ ((length (drop (call_cntr f) (user_fctx f)) < n)%nat -> (calls n f).2 = None).
Proof.
  revert f. induction n as [|n IH]; intros f Hm; [by split; [|lia]|]. cbn [calls]. unfold next_call.
  destruct (Nat.ltb_spec (call_cntr f) (max_calls f)) as [Hlt|Hge].
  - rewrite Hm in Hlt. destruct (lookup_lt_is_Some_2 _ _ Hlt) as [row Hrow]. rewrite Hrow.
    specialize (IH {| call_cntr := call_cntr f + 1; max_calls := max_calls f;
                      user_fctx := user_fctx f |} Hm). cbn in IH.
    destruct (calls n _) as [rows r]. cbn in IH |- *. rewrite Nat.add_1_r in IH.
    rewrite (drop_S _ _ _ Hrow). cbn. destruct IH as [-> IH]. split; [done|]. intros. apply IH. lia.
  - rewrite drop_ge by lia. done.
Qed.

(** Called until it is done, the function returns the rows one by one. *)
Lemma all_calls_return_rows text verify n :
  (length (rc_delegations text) < n)%nat ->
  calls n (first_call (Some text) verify) = (rc_delegations text, None).
Proof.
  intros Hn. destruct (calls_rest n (first_call (Some text) verify) eq_refl) as [H1 H2].
  unfold first_call in *. rewrite parse_spec in *. cbn in H1, H2. rewrite drop_0 in *.
  rewrite take_ge in H1 by lia. specialize (H2 Hn). cbn [fst].
  destruct (calls n _) as [rows r]. cbn in H1, H2. by subst.
Qed.

End rc_delegation.

Module DelegationExamples.

Definition two_delegations : variant :=
  VArray [VArray [VString (lit "delegate_rc"); VObject [(lit "max_rc", VInt64 5)]];
          VObject [(lit "type", VBool false); (lit "value", VObject [(lit "max_rc", VInt64 7)])]].

Definition read_example (verify : bool) (v : variant) : outcome string delegate_rc_operation :=
  match v with
  | VObject [(_, VInt64 n)] =>
      Ok {| op_from := lit "alice"; delegatees := [lit "bob"; lit "carol"]; max_rc := n |}
  | _ => Throw "bad"%string
  end.

Example both_serialisations_in_one_list :
  map row_max_rc (parse_rc_delegations_from_json string (fun _ => Ok two_delegations) read_example
                    (fun _ => true) 100 (Some (lit "[..]")) true).1
  = [5; 5; 7; 7].
Proof. by vm_compute. Qed.

(** One refused operation of a list discards the others. *)
Example refused_list :
  parse_rc_delegations_from_json string
    (fun _ => Ok (VArray [VArray [VUint64 0; VObject [(lit "max_rc", VInt64 5)]]; VNull]))
    read_example (fun _ => true) 100 (Some (lit "[..]")) true = ([], true).
Proof. by vm_compute. Qed.

End DelegationExamples.
