(* ===== verification/AllAccounts.v ===== *)
(** * Dump of all accounts ([all_accounts_dumper.cpp])

    When the serializer starts from a state snapshot, every account of the chain is written
    to [hafd.accounts]: in batches, each divided among the writers.  Before that the
    constructor creates a processor whose function truncates the table. *)

From S2P Require Import Prelude Text CachedData DataProcessor Writers.
From Stdlib Require Import ZArith Lia Ascii String.
From stdpp Require Import base list strings.

Open Scope Z_scope.

Definition MAX_NUMBER_OF_ACCOUNTS_IN_ONE_TURN : Z := 10000.
Definition BLOCK_NUM_SINK : Z := 0.

Definition account_row (id : Z) (name : string) : account_data_t :=
  {| ad_id := id; ad_name := name; ad_block_number := BLOCK_NUM_SINK |}.

(** The loop over the accounts by their id: the batches triggered, the last one included. *)
Fixpoint dump_batches (id : Z) (data_to_dump : list account_data_t) (accounts : list string) :
    list (list account_data_t) :=
  match accounts with
  | [] => if (0 <? length data_to_dump)%nat then [data_to_dump] else []
  | name :: accounts' =>
      let id := i32 (id + 1) in
      let data_to_dump := data_to_dump ++ [account_row id name] in
      if Z.rem id MAX_NUMBER_OF_ACCOUNTS_IN_ONE_TURN =? 0
      then data_to_dump :: dump_batches id [] accounts'
      else dump_batches id data_to_dump accounts'
  end.

(** What the writers copy: every batch is split among them. *)
Definition rows_written (number_of_threads : nat) (batches : list (list account_data_t)) :
    list account_data_t :=
  concat (map (fun b => concat (map view_elems (split_for_writers b number_of_threads))) batches).

(** The processor that truncates is joined without having been triggered: the worker runs
    until it leaves its loop. *)
Definition truncate_accounts : processor :=
  worker_runs (D := unit) (fun _ => None) (fun _ => None) (turns_left (D := unit) new_processor)
    (join_begin new_processor).

(** The rows of the table behind the statements of the processor's function. *)
Definition truncated (p : processor (D := unit)) (table : list account_data_t) : list account_data_t :=
  match dp_processed p with [] => table | _ => [] end.

Definition all_accounts_dumper (number_of_threads : nat) (accounts : list string)
    (table : list account_data_t) : list account_data_t :=
  truncated truncate_accounts table
  ++ rows_written number_of_threads (dump_batches (-1) [] accounts).

(** ** The rows of the accounts *)

Fixpoint account_rows (id : Z) (accounts : list string) : list account_data_t :=
  match accounts with
  | [] => []
  | name :: accounts' => account_row id name :: account_rows (id + 1) accounts'
  end.

Definition small_chain (accounts : list string) : Prop := Z.of_nat (length accounts) <= INT32_MAX.

Lemma dump_batches_rows id data accounts :
  0 <= id + 1 -> id + 1 + Z.of_nat (length accounts) <= INT32_MAX + 1 ->
  concat (dump_batches id data accounts) = data ++ account_rows (id + 1) accounts.
Proof.
  revert id data. induction accounts as [|name accounts IH]; intros id data Hid Hlen.
  - cbn. destruct data; cbn; [done|]. by rewrite !app_nil_r.
  - cbn [dump_batches account_rows length] in *. rewrite i32_small by lia.
    destruct (_ =? 0).
    + cbn [concat]. rewrite IH by lia. by rewrite <- app_assoc.
    + rewrite IH by lia. by rewrite <- app_assoc.
Qed.

(** Since the last full batch, [id mod 10000] rows have been collected. *)
Definition collected (id : Z) (data : list account_data_t) : Prop :=
  (0 <= id /\ Z.of_nat (length data) = id mod 10000) \/ (id = -1 /\ data = []).

Lemma collected_next id data name :
  collected id data ->
  let data' := data ++ [account_row (id + 1) name] in
  if (id + 1) mod 10000 =? 0
  then (length data' = 1%nat \/ Z.of_nat (length data') = 10000) /\ collected (id + 1) []
  else collected (id + 1) data'.
Proof.
  intros Hd data'. subst data'. rewrite length_app. cbn [length].
  destruct Hd as [[Hid Hd] | [-> ->]].
  - destruct (Z.eqb_spec ((id + 1) mod 10000) 0) as [E|E].
    + split; [right|left; cbn]; Z.div_mod_to_equations; lia.
    + left. rewrite length_app. cbn [length]. Z.div_mod_to_equations. lia.
  - cbn. split; [by left|]. by left.
Qed.

Lemma dump_batches_size id data accounts :
  id + 1 + Z.of_nat (length accounts) <= INT32_MAX + 1 -> collected id data ->
  Forall (fun b => Z.of_nat (length b) <= MAX_NUMBER_OF_ACCOUNTS_IN_ONE_TURN)
    (dump_batches id data accounts).
Proof.
  revert id data. induction accounts as [|name accounts IH]; intros id data Hlen Hd.
  - cbn [dump_batches]. destruct (0 <? length data)%nat; repeat constructor.
    destruct Hd as [[_ Hd] | [_ ->]]; [|by cbn]. pose proof (Z.mod_pos_bound id 10000).
    unfold MAX_NUMBER_OF_ACCOUNTS_IN_ONE_TURN. lia.
  - cbn [dump_batches length] in *.
    assert (0 <= id + 1) as Hid by (destruct Hd as [[? _] | [-> _]]; lia).
    pose proof (collected_next id data name Hd) as Hn. cbn zeta in Hn.
    rewrite i32_small by lia. unfold MAX_NUMBER_OF_ACCOUNTS_IN_ONE_TURN in *.
    rewrite Z.rem_mod_nonneg by lia. destruct ((id + 1) mod 10000 =? 0).
    + destruct Hn as [Hn Hc]. constructor; [lia|]. apply IH; [lia|done].
    + apply IH; [lia|done].
Qed.

Lemma rows_written_batches threads batches :
  Forall (fun b => fits b threads) batches -> rows_written threads batches = concat batches.
Proof.
  unfold rows_written. induction 1 as [|b batches Hb _ IH]; [done|]. cbn [map concat].
  by rewrite IH, split_concat.
Qed.

(** Nothing was given to the processor, so its function has not run. *)
Lemma truncate_does_nothing table : truncated truncate_accounts table = table.
Proof. by vm_compute. Qed.

(** The dump adds one row per account, with its position among the accounts as id, in
    batches of at most 10000 rows; and the rows the table had before are still there:
    the processor that would truncate the table is never triggered. *)
Theorem accounts_are_dumped_once threads accounts table :
  small_chain accounts -> (0 < threads <= 255)%nat ->
  all_accounts_dumper threads accounts table = table ++ account_rows 0 accounts
  /\ Forall (fun b => Z.of_nat (length b) <= MAX_NUMBER_OF_ACCOUNTS_IN_ONE_TURN)
       (dump_batches (-1) [] accounts).
Proof.
  intros Hs Ht. unfold small_chain in Hs.
  assert (Forall (fun b => Z.of_nat (length b) <= MAX_NUMBER_OF_ACCOUNTS_IN_ONE_TURN)
            (dump_batches (-1) [] accounts)) as Hb.
  { apply dump_batches_size; [lia|by right]. }
  split; [|done]. unfold all_accounts_dumper. rewrite truncate_does_nothing. f_equal.
  rewrite rows_written_batches.
  - rewrite dump_batches_rows; [done|lia..].
  - eapply Forall_impl; [done|]. intros b Hl. unfold fits, UINT32_MAX.
    unfold MAX_NUMBER_OF_ACCOUNTS_IN_ONE_TURN in Hl. lia.
Qed.

Module AllAccountsExamples.

(** The row of an earlier run stays. *)
Lemma accounts_are_dumped_once_witness :
  all_accounts_dumper 2 ["miners"; "null"; "temp"]%string [account_row 0 "miners"]
  = [account_row 0 "miners"] ++ account_rows 0 ["miners"; "null"; "temp"]%string.
Proof.
  apply (accounts_are_dumped_once 2 ["miners"; "null"; "temp"]%string [account_row 0 "miners"]).
  - unfold small_chain, INT32_MAX. cbn. lia.
  - lia.
Defined.

(** The first batch has one row: the id of the first account is divisible by the size. *)
Example first_batch_is_one_row :
  map length (dump_batches (-1) [] ["miners"; "null"; "temp"]%string) = [1; 2]%nat.
Proof. by vm_compute. Qed.

End AllAccountsExamples.
