(* ===== verification/Utilities.v ===== *)
(** * Functions of the extension on operations and signatures ([utilities.cpp])

    How a function collects data of an operation and returns a set of rows, with every
    C++ exception turned into an error of the server; the function that returns the
    impacted accounts call by call; the guard of registered tables; digests and keys of
    signatures.

    What is collected ([hive::app]), packing, hashes and the recovery of keys are
    parameters. *)

From S2P Require Import Prelude Text Jcs Jsonb JsonbServer OperationType.
From Stdlib Require Import ZArith Lia Ascii String.
From stdpp Require Import base list strings.

Open Scope Z_scope.

(** [CStringGetTextDatum( s.c_str() )] *)
Definition c_str (s : chars) : chars := pstrdup_truncate_nul s.

Inductive Datum :=
| Text (s : chars)
| Int64 (z : Z)
| Int32 (z : Z)
| Bytea (b : bytes).

(** A datum and whether it is null. *)
Definition make_datum_pair (value : Datum) (null : bool) : Datum * bool := (value, null).

(** ** Errors *)

Definition issue_error {A} (msg : chars) : pg A := pg_error ERRCODE_FEATURE_NOT_SUPPORTED msg.
Definition issue_error_with_code {A} (code : errcode) (msg : chars) : pg A := pg_error code msg.

(** [HFM_NOEXCEPT_CAPTURE_AND_ISSUE_ERROR]: the handlers around a [try] block. *)
Definition capture {A} (C_function_name : chars) (arg_val : cxx chars) (body : cxx A) : pg A :=
  let issue (tail : chars) :=
    match arg_val with
    | longjmps code msg => pg_error code msg
    | returns arg1 => issue_error (lit "Broken " ++ C_function_name ++ lit "()" ++ arg1 ++ tail)
    | _ => issue_error (lit "Broken " ++ C_function_name ++ lit "()"
                        ++ lit "[error retrieving arg1 value]" ++ tail)
    end in
  match body with
  | returns a => pg_ok a
  | throws_fc msg | throws_std msg => issue (lit ". Error: " ++ msg)
  | throws_other => issue (lit ". Unknown error")
  | longjmps code msg => pg_error code msg
  end.

Definition colect_data_and_fill_returned_recordset {A B} (collect : cxx A) (fill_return_tuple : A -> cxx B)
    (C_function_name : chars) (arg_getter : cxx chars) : pg B :=
  d ← capture C_function_name
        (a ← arg_getter; returns (lit " input argument: '" ++ a ++ lit "'")) collect;
  capture C_function_name (returns (lit ": fill_return_tuple invocation")) (fill_return_tuple d).

(** ** Sets of rows *)

(** What the caller of a set-returning function can take ([ReturnSetInfo]). *)
Record call_context := {
  accepts_set : bool;                               (* resultinfo is a ReturnSetInfo *)
  materialize_allowed : bool;
  returns_row_type : bool                           (* get_call_result_type is composite *)
}.

(** [issue_error] called inside a [try] block: the server's error passes the handlers. *)
Definition server_error (msg : string) : cxx unit := longjmps ERRCODE_FEATURE_NOT_SUPPORTED (lit msg).

Definition check_return_mode (ctx : call_context) : cxx unit :=
  if negb (accepts_set ctx) then
    server_error "set-valued function called in context that cannot accept a set"
  else if negb (materialize_allowed ctx) then
    server_error "materialize mode required, but it is not allowed in this context"
  else returns tt.

Definition build_tuple_descriptor (ctx : call_context) : cxx unit :=
  if returns_row_type ctx then returns tt else server_error "return type must be a row type".

Section tuples.
  Context {A : Type}.

Abbreviation field := (A -> Datum * bool).

Definition fill_record_field (arrays : list Datum * list bool) (elem : A) (func : field) (counter : nat) :
    list Datum * list bool :=
  let '(result, is_null) := func elem in
  (<[counter := result]> arrays.1, <[counter := is_null]> arrays.2).

Fixpoint fill_record_from (arrays : list Datum * list bool) (elem : A) (funcs : list field) (counter : nat) :
    list Datum * list bool :=
  match funcs with
  | [] => arrays
  | func :: funcs' => fill_record_from (fill_record_field arrays elem func counter) elem funcs' (counter + 1)
  end.

Definition fill_record (arrays : list Datum * list bool) (elem : A) (funcs : list field) :=
  fill_record_from arrays elem funcs 0.

(** The loop; the arrays are filled again for every row. *)
Fixpoint put_rows (arrays : list Datum * list bool) (funcs : list field) (collection : list A) :
    list (list Datum * list bool) :=
  match collection with
  | [] => []
  | item :: collection' =>
      let arrays' := fill_record arrays item funcs in
      arrays' :: put_rows arrays' funcs collection'
  end.

Definition fill_return_tuples (collection : list A) (ctx : call_context) (funcs : list field) :
    cxx (list (list Datum * list bool)) :=
  _ ← check_return_mode ctx;
  _ ← build_tuple_descriptor ctx;
  returns (put_rows (replicate (length funcs) (Int64 0), replicate (length funcs) false) funcs collection).

(** The row of an item. *)
Definition row_of (funcs : list field) (item : A) : list Datum * list bool :=
  (map (fun f => (f item).1) funcs, map (fun f => (f item).2) funcs).

Lemma fill_record_from_spec funcs elem d1 n1 d2 n2 :
  length d2 = length funcs -> length n2 = length funcs -> length d1 = length n1 ->
  fill_record_from (d1 ++ d2, n1 ++ n2) elem funcs (length d1)
  = (d1 ++ (row_of funcs elem).1, n1 ++ (row_of funcs elem).2).
Proof.
  revert d1 n1 d2 n2. induction funcs as [|f funcs IH]; intros d1 n1 [|d d2] [|n n2] H1 H2 H3; try done.
  cbn [fill_record_from]. unfold fill_record_field. destruct (f elem) as [v b] eqn:Hf. cbn [fst snd].
  rewrite (insert_app_r_alt d1) by done. rewrite H3, (insert_app_r_alt n1) by done.
  rewrite !Nat.sub_diag. cbn [insert list_insert].
  specialize (IH (d1 ++ [v]) (n1 ++ [b]) d2 n2). rewrite !length_app, <- !app_assoc in IH. cbn in IH.
  rewrite H3 in IH. cbn [row_of map fst snd]. rewrite Hf. cbn in H1, H2. apply IH; lia.
Qed.

Lemma fill_record_spec funcs elem arrays :
  length arrays.1 = length funcs -> length arrays.2 = length funcs ->
  fill_record arrays elem funcs = row_of funcs elem.
Proof.
  intros H1 H2. destruct arrays as [d n].
  by apply (fill_record_from_spec funcs elem [] [] d n).
Qed.

Lemma put_rows_spec funcs collection arrays :
  length arrays.1 = length funcs -> length arrays.2 = length funcs ->
  put_rows arrays funcs collection = map (row_of funcs) collection.
Proof.
  revert arrays. induction collection as [|item l IH]; intros arrays H1 H2; [done|]. cbn.
  rewrite fill_record_spec by done. f_equal. apply IH; apply length_map.
Qed.

(** Every item of the collection becomes one row, and no row keeps a value of another one,
    although the arrays are shared. *)
Theorem one_row_per_item collection ctx funcs :
  accepts_set ctx = true -> materialize_allowed ctx = true -> returns_row_type ctx = true ->
  fill_return_tuples collection ctx funcs = returns (map (row_of funcs) collection).
Proof.
  intros H1 H2 H3. unfold fill_return_tuples, check_return_mode, build_tuple_descriptor.
  rewrite H1, H2, H3. cbn. by rewrite put_rows_spec by apply length_replicate.
Qed.

End tuples.

(** A set-returning function answers with rows or with an error of the server: no exception
    leaves it. *)
Theorem recordset_never_throws {A B} (collect : cxx A) (fill : A -> cxx B) name arg :
  colect_data_and_fill_returned_recordset collect fill name arg <> undefined.
Proof.
  unfold colect_data_and_fill_returned_recordset, capture.
  destruct collect as [d| | | |]; cbn; try (by destruct arg).
  by destruct (fill d).
Qed.

(** ** Functions of an operation *)

Section of_operation.
  Context (operation : Type) (unpack : bytes -> cxx operation) (to_json : operation -> cxx chars).

Definition colect_operation_data_and_fill_returned_recordset {A B} (collect : operation -> cxx A)
    (fill_return_tuple : A -> cxx B) (C_function_name : chars) (raw_data : bytes) : pg B :=
  op ← capture C_function_name (returns (lit ": unpack_from_char_array invocation")) (unpack raw_data);
  colect_data_and_fill_returned_recordset (collect op) fill_return_tuple C_function_name (to_json op).

(** *** Text results *)

  Context (created_account : operation -> cxx chars) (legacy_text : operation -> cxx chars).

Definition get_created_from_account_create_operations (op : bytes) : pg Datum :=
  colect_operation_data_and_fill_returned_recordset created_account (fun a => returns (Text (c_str a)))
    (lit "get_created_from_account_create_operations") op.

Definition get_legacy_style_operation (op : bytes) : pg Datum :=
  colect_operation_data_and_fill_returned_recordset legacy_text (fun a => returns (Text (c_str a)))
    (lit "get_legacy_style_operation") op.

(** *** Balances *)

Record balance := { b_account : chars; b_amount : Z; b_decimals : Z; b_nai : Z }.
  Context (impacted_balances : operation -> bool -> cxx (list balance)).

Definition get_impacted_balances (op : bytes) (is_hf01 : bool) (ctx : call_context) :=
  colect_operation_data_and_fill_returned_recordset
    (fun op => impacted_balances op is_hf01)
    (fun l => fill_return_tuples l ctx
      [(fun b => make_datum_pair (Text (c_str (b_account b))) false);
       (fun b => make_datum_pair (Int64 (b_amount b)) false);
       (fun b => make_datum_pair (Int32 (i32 (b_decimals b))) false);
       (fun b => make_datum_pair (Int32 (i32 (b_nai b))) false)])
    (lit "get_impacted_balances") op.

(** *** Keys *)

Record keyauth := {
  k_account_name : chars; k_kind : Z; k_key_auth : bytes; k_account_auth : chars;
  k_weight_threshold : Z; k_w : Z; k_null_key_auth : bool; k_null_account_auth : bool
}.

Definition fill_and_return_keyauths (l : list keyauth) (ctx : call_context) :=
  fill_return_tuples l ctx
    [(fun k => make_datum_pair (Text (c_str (k_account_name k))) false);
     (fun k => make_datum_pair (Int32 (i32 (k_kind k))) false);
     (fun k => make_datum_pair (Bytea (k_key_auth k)) (k_null_key_auth k));
     (fun k => make_datum_pair (Text (c_str (k_account_auth k))) (k_null_account_auth k));
     (fun k => make_datum_pair (Int32 (i32 (k_weight_threshold k))) false);
     (fun k => make_datum_pair (Int32 (i32 (k_w k))) false)].

  Context (keyauths : operation -> cxx (list keyauth)).

Definition get_keyauths_wrapped (op : bytes) (ctx : call_context) :=
  colect_operation_data_and_fill_returned_recordset keyauths
    (fun l => fill_and_return_keyauths l ctx) (lit "get_keyauths_wrapped") op.

(** *** Metadata *)

Record metadata := { m_account : chars; m_json : chars; m_posting : chars }.
  Context (metadata_of : operation -> bool -> cxx (list metadata)).

Definition get_metadata (op : bytes) (is_hf21 : bool) (ctx : call_context) :=
  colect_operation_data_and_fill_returned_recordset
    (fun op => metadata_of op is_hf21)
    (fun l => fill_return_tuples l ctx
      [(fun m => make_datum_pair (Text (c_str (m_account m))) false);
       (fun m => make_datum_pair (Text (c_str (m_json m))) false);
       (fun m => make_datum_pair (Text (c_str (m_posting m))) false)])
    (lit "get_metadata") op.

(** *** Required authorities *)

(** What [get_required_auth_visitor] collects. *)
Record required := {
  req_active : list chars; req_owner : list chars; req_posting : list chars; req_witness : list chars;
  other_auths : list (list chars)                   (* the accounts of each authority *)
}.
  Context (required_auth : operation -> cxx required).

Definition authority_rows (r : required) : list (chars * chars) :=
  map (fun name => (name, lit "active")) (req_active r)
  ++ map (fun name => (name, lit "owner")) (req_owner r)
  ++ map (fun name => (name, lit "posting")) (req_posting r)
  ++ map (fun name => (name, lit "witness")) (req_witness r)
  ++ concat (map (map (fun account => (account, lit "other"))) (other_auths r)).

Definition collect_required_authorities (op : operation) : cxx (list (chars * chars)) :=
  r ← required_auth op; returns (authority_rows r).

Definition get_required_authorities (op : bytes) (ctx : call_context) :=
  colect_operation_data_and_fill_returned_recordset collect_required_authorities
    (fun l => fill_return_tuples l ctx
      [(fun i => make_datum_pair (Text (c_str i.1)) false);
       (fun i => make_datum_pair (Text (c_str i.2)) false)])
    (lit "get_required_authorities") op.

End of_operation.

(** ** Impacted accounts, call by call *)

Section impacted.
  Context (E : Type) (get_accounts : bytes -> outcome E (list chars)).

(** [FuncCallContext]: the buffer holds every account but the first. *)
Record func_ctx := { fc_call_cntr : nat; fc_max_calls : nat; fc_buffer : option (list Datum) }.

Inductive srf_answer := RETURN_NEXT (d : Datum) | RETURN_DONE.

Definition to_text (account : chars) : Datum := Text (c_str account).

(** [None] when the function was left by an exception before its context had data. *)
Definition first_stage (arg : bytes) : option (func_ctx * Datum) :=
  match get_accounts arg with
  | Ok accounts =>
      Some ({| fc_call_cntr := 0; fc_max_calls := length accounts;
               fc_buffer := match accounts with
                            | _ :: (_ :: _) as rest => Some (map to_text rest)
                            | _ => None
                            end |},
            match accounts with a :: _ => to_text a | [] => Text [] end)
  | Throw _ => None
  end.

(** What is done on every call; [inr] is a read outside the buffer. *)
Definition every_call (first : option Datum) (f : func_ctx) : srf_answer * func_ctx + unit :=
  if (fc_call_cntr f <? fc_max_calls f)%nat then
    let next := {| fc_call_cntr := fc_call_cntr f + 1; fc_max_calls := fc_max_calls f;
                   fc_buffer := fc_buffer f |} in
    match first with
    | Some current_account => inl (RETURN_NEXT current_account, next)
    | None =>
        match fc_buffer f ≫= (fun b => b !! (fc_call_cntr f - 1)%nat) with
        | Some d => inl (RETURN_NEXT d, next)
        | None => inr tt
        end
    end
  else inl (RETURN_DONE, f).

(** The caller calls until it is told that there is no more. *)
Fixpoint next_calls (n : nat) (f : func_ctx) : option (list Datum) :=
  match n with
  | O => None
  | S n' =>
      match every_call None f with
      | inl (RETURN_NEXT d, f') => rows ← next_calls n' f'; Some (d :: rows)
      | inl (RETURN_DONE, _) => Some []
      | inr _ => None
      end
  end.

Definition get_impacted_accounts (calls : nat) (arg : bytes) : option (list Datum) :=
  match first_stage arg with
  | None => Some []                                 (* the handler of any exception *)
  | Some (f, current_account) =>
      match every_call (Some current_account) f with
      | inl (RETURN_NEXT d, f') => rows ← next_calls calls f'; Some (d :: rows)
      | inl (RETURN_DONE, _) => Some []
      | inr _ => None
      end
  end.

Lemma next_calls_rest b n done_ rest :
  b = done_ ++ rest -> (length rest < n)%nat ->
  next_calls n {| fc_call_cntr := S (length done_); fc_max_calls := S (length b); fc_buffer := Some b |}
  = Some rest.
Proof.
  revert done_ rest. induction n as [|n IH]; intros done_ rest Hb Hn; [lia|]. cbn [next_calls].
  unfold every_call. cbn [fc_call_cntr fc_max_calls fc_buffer].
  destruct rest as [|d rest].
  - rewrite app_nil_r in Hb. subst b. by rewrite Nat.ltb_irrefl.
  - rewrite (proj2 (Nat.ltb_lt _ _)) by (rewrite Hb, length_app; cbn; lia).
    cbn [mbind option_bind].
    replace (S (length done_) - 1)%nat with (length done_) by lia.
    rewrite Hb at 1. rewrite lookup_app_r, Nat.sub_diag by lia. cbn [lookup list_lookup].
    specialize (IH (done_ ++ [d]) rest). rewrite length_app in IH. cbn in IH, Hn.
    replace (S (length done_) + 1)%nat with (S (length done_ + 1)) by lia.
    rewrite IH; [done|by rewrite <- app_assoc|lia].
Qed.

(** Every impacted account is returned once, in order, and no call reads outside the buffer;
    an operation that cannot be unpacked has no impacted accounts. *)
Theorem impacted_accounts_are_returned calls arg :
  match get_accounts arg with
  | Ok accounts =>
      (length accounts <= calls)%nat ->
      get_impacted_accounts calls arg = Some (map to_text accounts)
  | Throw _ => get_impacted_accounts calls arg = Some []
  end.
Proof.
  unfold get_impacted_accounts, first_stage.
  destruct (get_accounts arg) as [accounts|e]; [|done]. intros Hn.
  destruct accounts as [|a [|b rest]]; [done| |].
  - cbn in Hn. destruct calls; [lia|]. done.
  - unfold every_call. cbn [fc_call_cntr fc_max_calls Nat.ltb Nat.leb length fc_buffer Nat.add].
    pose proof (next_calls_rest (map to_text (b :: rest)) calls [] (map to_text (b :: rest)) eq_refl) as H.
    rewrite length_map in H. cbn [length] in H, Hn. rewrite H by lia. done.
Qed.

End impacted.

(** ** Registered tables *)

Inductive AlterTableType :=
| AT_AddColumn | AT_AddColumnToView | AT_DropColumn | AT_AlterColumnType | AT_AddInherit
| AT_AddColumnRecurse | AT_DropColumnRecurse | AT_Other (n : Z).

Inductive CollectedCommand := SCT_AlterTable (subcmds : list AlterTableType) | SCT_Other.

(** [recurse_types]: built for a server before 16.2. *)
Definition changes_columns (recurse_types : bool) (sub : AlterTableType) : bool :=
  match sub with
  | AT_AddColumn | AT_AddColumnToView | AT_DropColumn | AT_AlterColumnType | AT_AddInherit => true
  | AT_AddColumnRecurse | AT_DropColumnRecurse => recurse_types
  | AT_Other _ => false
  end.

Fixpoint ignore_subcommands (recurse_types : bool) (l : list AlterTableType) : bool :=
  match l with
  | [] => true
  | sub :: l' => if changes_columns recurse_types sub then false else ignore_subcommands recurse_types l'
  end.

Definition ignore_registered_table_edition (recurse_types : bool) (cmd : CollectedCommand) : bool :=
  match cmd with
  | SCT_Other => true
  | SCT_AlterTable subcmds => ignore_subcommands recurse_types subcmds
  end.

(** A command is ignored exactly when none of its parts changes columns. *)
Theorem ignored_iff_no_column_changes recurse cmd :
  ignore_registered_table_edition recurse cmd = true <->
  match cmd with
  | SCT_Other => True
  | SCT_AlterTable subcmds => Forall (fun sub => changes_columns recurse sub = false) subcmds
  end.
Proof.
  destruct cmd as [l|]; [|done]. cbn. induction l as [|sub l IH]; cbn; [done|].
  rewrite Forall_cons, <- IH. destruct (changes_columns recurse sub); naive_solver.
Qed.

(** ** Signatures *)

Section signatures.
  Context (signature_size digest_size key_size : nat).
  Context (recover : bytes -> bytes -> cxx chars) (key_text : bytes -> chars).
  Context (parse_key : chars -> cxx bytes).
  Context (HIVE_CHAIN_ID : bytes) (parse_chain_id : chars -> cxx bytes).
  Context (sig_digest : variant -> bytes -> cxx bytes).
  Context (json_from_string : chars -> cxx variant) (sha256 : bytes -> bytes).

Definition public_key_to_string (arg : option bytes) : pg chars :=
  match arg with
  | None => pg_ok []
  | Some input_key =>
      if (length input_key =? key_size)%nat then pg_ok (c_str (key_text input_key))
      else pg_error ERRCODE_INVALID_PARAMETER_VALUE
             (lit "Size mismatch between bytea and fc::ecc::public_key_data")
  end.

Definition pubkey_from_signature (sig dig : option bytes) : pg chars :=
  match sig, dig with
  | Some signature, Some digest =>
      if negb (length signature =? signature_size)%nat then
        issue_error_with_code ERRCODE_INVALID_PARAMETER_VALUE (lit "Invalid signature size")
      else if negb (length digest =? digest_size)%nat then
        issue_error_with_code ERRCODE_INVALID_PARAMETER_VALUE (lit "Invalid digest size")
      else
        retval ← pg_call_cxx (recover signature digest) ERRCODE_DATA_EXCEPTION;
        pg_ok (c_str retval)
  | _, _ =>
      issue_error_with_code ERRCODE_NULL_VALUE_NOT_ALLOWED
        (lit "pubkey_from_signature requires non-null _signature and _digest arguments")
  end.

Definition chain_id_of (arg : option chars) : pg bytes :=
  match arg with
  | None => pg_ok HIVE_CHAIN_ID
  | Some chain_id_str => pg_call_cxx (parse_chain_id chain_id_str) ERRCODE_DATA_EXCEPTION
  end.

Definition transaction_sig_digest (transaction : option chars) (chain : option chars) : pg bytes :=
  match transaction with
  | None =>
      issue_error_with_code ERRCODE_NULL_VALUE_NOT_ALLOWED
        (lit "transaction_sig_digest requires non-null _transaction argument")
  | Some transaction_json =>
      chain_id ← chain_id_of chain;
      pg_call_cxx (v ← json_from_string transaction_json; sig_digest v chain_id) ERRCODE_DATA_EXCEPTION
  end.

Definition canonical (v : variant) : cxx chars :=
  match jcs_canonicalize v with Ok text => returns text | Throw e => throws_fc (lit e) end.

Definition l2_transaction_digest (signed_fields : option chars) (chain : option chars) : pg bytes :=
  match signed_fields with
  | None =>
      issue_error_with_code ERRCODE_NULL_VALUE_NOT_ALLOWED
        (lit "l2_transaction_digest requires non-null _signed_fields argument")
  | Some signed_fields_json =>
      chain_id ← chain_id_of chain;
      pg_call_cxx
        (v ← json_from_string signed_fields_json;
         text ← canonical v;
         returns (sha256 (chain_id ++ text))) ERRCODE_DATA_EXCEPTION
  end.

Definition l2_pubkey_to_bytea (public_key : option chars) : pg bytes :=
  match public_key with
  | None =>
      issue_error_with_code ERRCODE_NULL_VALUE_NOT_ALLOWED
        (lit "l2_pubkey_to_bytea requires non-null _public_key argument")
  | Some pubkey_str => pg_call_cxx (parse_key pubkey_str) ERRCODE_DATA_EXCEPTION
  end.

(** The digest to sign is one of the value, not of its text: two documents whose values
    differ only in the order of object entries have the same digest, on every chain. *)
Theorem l2_digest_of_value json1 json2 v1 v2 chain :
  json_from_string json1 = returns v1 -> json_from_string json2 = returns v2 ->
  in_profile v1 = true -> in_profile v2 = true -> well_keyed v1 = true -> well_keyed v2 = true ->
  normalize v1 = normalize v2 ->
  l2_transaction_digest (Some json1) chain = l2_transaction_digest (Some json2) chain.
Proof.
  intros H1 H2 Hp1 Hp2 Hk1 Hk2 Hn. unfold l2_transaction_digest. destruct (chain_id_of chain); try done.
  cbn. rewrite H1, H2. cbn. unfold canonical. by rewrite !jcs_text, Hn.
Qed.

End signatures.
