(* ===== verification/WitnessProperties.v ===== *)
(** * Properties set by a witness ([extract_set_witness_properties.cpp])

    The packed properties of [witness_set_properties_operation] become texts of JSON
    values: every known property is looked up by its name and, when it has an older one,
    by that name, unpacked at its type and printed.  The function of the extension that
    returns the pairs ([utilities.cpp]) is here too.

    Unpacking and printing a value are parameters, as they belong to the library. *)

From S2P Require Import Prelude Text Jsonb OperationType Utilities.
From Stdlib Require Import ZArith Lia Ascii String.
From stdpp Require Import base list strings sorting sets.

Open Scope Z_scope.

(** ** [fc::flat_map< fc::string, T >]: pairs sorted by key *)

Section flat_map.
  Context {A : Type}.

Abbreviation flat_map := (list (chars * A)).

Fixpoint find (m : flat_map) (key : chars) : option A :=
  match m with
  | [] => None
  | (k, a) :: m' => if decide (k = key) then Some a else find m' key
  end.

(** [m[ key ] = a] *)
Fixpoint assign (m : flat_map) (key : chars) (a : A) : flat_map :=
  match m with
  | [] => [(key, a)]
  | (k, b) :: m' =>
      if decide (k = key) then (key, a) :: m'
      else if chars_ltb key k then (key, a) :: m
      else (k, b) :: assign m' key a
  end.

Definition ordered (m : flat_map) : Prop :=
  StronglySorted (fun x y => chars_ltb x.1 y.1 = true) m.

Lemma assign_keys m key a x : x ∈ (assign m key a).*1 <-> x = key \/ x ∈ m.*1.
Proof.
  induction m as [|[k b] m IH]; cbn; [set_solver|].
  case_decide; [set_solver|]. destruct (chars_ltb key k); cbn; set_solver.
Qed.

Lemma assign_ordered m key a : ordered m -> ordered (assign m key a).
Proof.
  unfold ordered. induction m as [|[k b] m IH]; cbn; [repeat constructor|].
  intros [Hs Hf]%StronglySorted_inv. case_decide as Hk; [subst; by constructor|].
  destruct (chars_ltb key k) eqn:Hlt.
  - constructor; [by constructor|]. constructor; [done|].
    eapply Forall_impl; [exact Hf|]. cbn. intros y. by apply chars_ltb_trans.
  - constructor; [by apply IH|]. apply Forall_forall. intros [k' b'] Hin. cbn.
    destruct (proj1 (assign_keys m key a k')) as [->|Hk'];
      [by apply (list_elem_of_fmap_2 fst _ _ Hin)| |].
    + destruct (chars_ltb k key) eqn:E; [done|]. by destruct Hk; apply chars_ltb_total.
    + apply list_elem_of_fmap in Hk' as ([? ?] & -> & Hin').
      rewrite Forall_forall in Hf. by specialize (Hf _ Hin').
Qed.

Lemma find_assign m key a x :
  find (assign m key a) x = if decide (key = x) then Some a else find m x.
Proof.
  induction m as [|[k b] m IH]; cbn; [done|].
  destruct (decide (k = key)) as [->|Hk]; cbn; [by destruct (decide (key = x))|].
  destruct (chars_ltb key k); cbn; [done|]. rewrite IH.
  destruct (decide (k = x)), (decide (key = x)); congruence.
Qed.

End flat_map.

(** ** [wsp_fill_helper] *)

(** The types the properties are unpacked at. *)
Inductive property_type :=
| public_key_type | asset | uint32 | uint16 | int32 | price | fc_string.

Section extract.
  Context (unpack_to_json : property_type -> bytes -> cxx chars).

Definition try_fill (T : property_type) (pname alt_pname : chars)
    (source : list (chars * bytes)) (result : list (chars * chars)) : cxx (list (chars * chars)) :=
  let itr := find source pname in
  let itr := match itr with
             | None => if decide (alt_pname = []) then None else find source alt_pname
             | _ => itr
             end in
  match itr with
  | Some packed => text ← unpack_to_json T packed; returns (assign result pname text)
  | None => returns result
  end.

(** The calls of [extract_set_witness_properties_from_flat_map], in their order. *)
Definition known_properties : list (property_type * chars * chars) :=
  [(public_key_type, lit "key", []);
   (asset, lit "account_creation_fee", []);
   (uint32, lit "maximum_block_size", []);
   (uint16, lit "hbd_interest_rate", lit "sbd_interest_rate");
   (int32, lit "account_subsidy_budget", []);
   (uint32, lit "account_subsidy_decay", []);
   (public_key_type, lit "new_signing_key", []);
   (price, lit "hbd_exchange_rate", lit "sbd_exchange_rate");
   (fc_string, lit "url", [])].

Fixpoint fill_all (calls : list (property_type * chars * chars)) (source : list (chars * bytes))
    (output : list (chars * chars)) : cxx (list (chars * chars)) :=
  match calls with
  | [] => returns output
  | (T, pname, alt_pname) :: calls' =>
      output ← try_fill T pname alt_pname source output; fill_all calls' source output
  end.

Definition extract_set_witness_properties_from_flat_map (output : list (chars * chars))
    (_input : list (chars * bytes)) : cxx (list (chars * chars)) :=
  fill_all known_properties _input output.

(** [fc::json::from_string] and [fc::from_variant] *)
  Context (properties_of_json : chars -> cxx (list (chars * bytes))).

Definition extract_set_witness_properties_from_string (output : list (chars * chars)) (_input : chars) :
    cxx (list (chars * chars)) :=
  input_properties ← properties_of_json _input;
  extract_set_witness_properties_from_flat_map output input_properties.

(** The function of [utilities.cpp]. *)
Definition extract_set_witness_properties (_props_to_extract : chars) (ctx : call_context) :=
  colect_data_and_fill_returned_recordset
    (extract_set_witness_properties_from_string [] (c_str _props_to_extract))
    (fun l => fill_return_tuples l ctx
      [(fun d => make_datum_pair (Text (c_str d.1)) false);
       (fun d => make_datum_pair (Text (c_str d.2)) false)])
    (lit "extract_set_witness_properties") (returns (c_str _props_to_extract)).

(** ** What is extracted *)

(** The packed value of a property: its own name first, then the older one. *)
Definition packed_property (source : list (chars * bytes)) (pname alt_pname : chars) : option bytes :=
  match find source pname with
  | Some packed => Some packed
  | None => if decide (alt_pname = []) then None else find source alt_pname
  end.

Lemma try_fill_spec T pname alt source result output :
  try_fill T pname alt source result = returns output ->
  match packed_property source pname alt with
  | Some packed => exists text, unpack_to_json T packed = returns text /\ output = assign result pname text
  | None => output = result
  end.
Proof.
  unfold try_fill, packed_property. destruct (find source pname) as [p|] eqn:Hp.
  - destruct (unpack_to_json T p) as [x| | | |] eqn:E; cbn; try done. intros [= <-]. eauto.
  - case_decide; [by intros [= <-]|]. destruct (find source alt) as [p|]; [|by intros [= <-]].
    destruct (unpack_to_json T p) as [x| | | |] eqn:E; cbn; try done. intros [= <-]. eauto.
Qed.

Lemma fill_all_inv T pname alt calls source result output :
  fill_all ((T, pname, alt) :: calls) source result = returns output ->
  exists result', try_fill T pname alt source result = returns result' /\ fill_all calls source result' = returns output.
Proof. cbn. destruct (try_fill T pname alt source result) as [r| | | |]; cbn; try done. eauto. Qed.

Lemma fill_all_frame calls source result output key :
  ordered result -> fill_all calls source result = returns output ->
  key ∉ (calls.*1).*2 -> ordered output /\ find output key = find result key.
Proof.
  revert result. induction calls as [|[[T pname] alt] calls IH]; intros result Ho.
  - by intros [= <-] _.
  - intros (r & Hr & H)%fill_all_inv Hk. apply not_elem_of_cons in Hk as [Hne Hk]. cbn in Hne.
    apply try_fill_spec in Hr. destruct (packed_property source pname alt) as [p|].
    + destruct Hr as (x & _ & ->). destruct (IH _ (assign_ordered _ _ _ Ho) H Hk) as [? ->].
      split; [done|]. rewrite find_assign. by case_decide.
    + subst. by apply IH.
Qed.

Lemma fill_all_found calls source result output T pname alt :
  ordered result -> fill_all calls source result = returns output ->
  NoDup ((calls.*1).*2) -> (T, pname, alt) ∈ calls ->
  match packed_property source pname alt with
  | Some packed => exists text, unpack_to_json T packed = returns text /\ find output pname = Some text
  | None => find output pname = find result pname
  end.
Proof.
  revert result. induction calls as [|[[T' p'] alt'] calls IH]; intros result Ho; [set_solver|].
  intros (r & Hr & H)%fill_all_inv [Hnotin Hnd]%NoDup_cons Hin. cbn in Hnotin.
  apply try_fill_spec in Hr. apply elem_of_cons in Hin as [[= -> -> ->]|Hin].
  - destruct (packed_property source p' alt') as [p|].
    + destruct Hr as (x & Hx & ->). exists x. split; [done|].
      destruct (fill_all_frame _ _ _ _ p' (assign_ordered _ _ x Ho) H Hnotin) as [_ ->].
      rewrite find_assign. by case_decide.
    + subst. by destruct (fill_all_frame _ _ _ _ p' Ho H Hnotin) as [_ ->].
  - assert (pname <> p') as Hne.
    { intros ->. apply Hnotin. apply (list_elem_of_fmap_2 snd _ (T, p')).
      by apply (list_elem_of_fmap_2 fst _ (T, p', alt)). }
    destruct (packed_property source p' alt') as [p|].
    + destruct Hr as (x & _ & ->). specialize (IH _ (assign_ordered _ _ x Ho) H Hnd Hin).
      rewrite find_assign in IH. by rewrite decide_False in IH by done.
    + subst. by apply IH.
Qed.

End extract.

#[global] Instance property_type_dec : EqDecision property_type.
Proof. solve_decision. Defined.

(** Extracting succeeds when every packed value does, and then the result is a map sorted
    by name that holds exactly the known properties present in the input, each unpacked
    at its type from its own name or, only when that is absent, from its older one. *)
Theorem extracted_properties unpack input output :
  extract_set_witness_properties_from_flat_map unpack [] input = returns output ->
  ordered output /\
  (forall T pname alt, (T, pname, alt) ∈ known_properties ->
     match packed_property input pname alt with
     | Some packed => exists text, unpack T packed = returns text /\ find output pname = Some text
     | None => find output pname = None
     end) /\
  (forall key, key ∉ (known_properties.*1).*2 -> find output key = None).
Proof.
  intros H. assert (ordered (@nil (chars * chars))) as Ho by constructor.
  split_and!.
  - by eapply (fill_all_frame _ _ _ _ _ []) in H as [? _]; [| |cbn; set_solver].
  - intros T pname alt Hin. eapply fill_all_found in H; try done.
    apply (bool_decide_unpack _). vm_compute. done.
  - intros key Hk. by eapply fill_all_frame in H as [_ ->].
Qed.

Lemma fill_all_total unpack source calls result :
  (forall T pname alt packed, (T, pname, alt) ∈ calls -> packed_property source pname alt = Some packed ->
     exists text, unpack T packed = returns text) ->
  exists output, fill_all unpack calls source result = returns output.
Proof.
  revert result. induction calls as [|[[T p] alt] calls IH]; intros result H; [by eexists|]. cbn.
  assert (exists r, try_fill unpack T p alt source result = returns r) as [r ->].
  { specialize (H T p alt). unfold packed_property in H. unfold try_fill.
    destruct (find source p) as [x|]; [|case_decide; [by eexists|]; destruct (find source alt) as [x|]; [|by eexists]];
      (destruct (H x) as [text ->]; [left|done|]; by eexists). }
  apply IH. intros. eapply H; [by right|done].
Qed.
