(* ===== verification/BodyFilter.v ===== *)
(** * The tool that tries out filters of operations ([op_body_filter.cpp])

    It reads the answer of [block_api.get_block] from a file, keeps the operations that a
    filter made of one operation type and one regular expression tracks
    ([utils::make_filter] of [blockchain_data_filter.cpp]) and prints them.

    The JSON library, the reading of an operation, boost's reader of configuration files and
    the filter the node builds from an option are parameters. *)

From Stdlib Require Import ZArith Lia Ascii String.
From stdpp Require Import base list strings sorting sets.
From S2P Require Import Prelude Text Jcs RcDelegation Collector WitnessProperties.

Open Scope Z_scope.

(** ** [std::map< std::string, operation >] *)

(** [emplace] and [insert] keep the value of a key that is there already. *)
Definition emplace {A} (m : list (chars * A)) (key : chars) (a : A) : list (chars * A) :=
  match find m key with Some _ => m | None => assign m key a end.

Lemma emplace_ordered {A} (m : list (chars * A)) key a : ordered m -> ordered (emplace m key a).
Proof. unfold emplace. intros Hm. destruct (find m key); [done|]. by apply assign_ordered. Qed.

Lemma find_emplace {A} (m : list (chars * A)) key a x :
  find (emplace m key a) x = match find m x with Some b => Some b | None => if decide (key = x) then Some a else None end.
Proof.
  unfold emplace. destruct (find m key) eqn:E.
  - destruct (find m x) eqn:Ex; [done|]. destruct (decide (key = x)) as [->|]; congruence.
  - rewrite find_assign. destruct (decide (key = x)) as [<-|]; [by rewrite E|]. by destruct (find m x).
Qed.

(** An ordered map is determined by what it finds. *)
Lemma elem_of_ordered {A} (m : list (chars * A)) key a : ordered m -> (key, a) ∈ m <-> find m key = Some a.
Proof.
  unfold ordered. induction m as [|[k b] m IH]; cbn; [set_solver|].
  intros [Hs Hf]%StronglySorted_inv. rewrite elem_of_cons, IH by done.
  destruct (decide (k = key)) as [->|Hk]; [|naive_solver].
  split; [|intros [= ->]; by left]. intros [[= ->]|Hin]; [done|]. apply IH in Hin; [|done].
  rewrite Forall_forall in Hf. specialize (Hf (key, a)). rewrite chars_ltb_irrefl in Hf. naive_solver.
Qed.

(** ** [utils::make_filter] *)

Section body_filter.
  Context {operation E : Type}.
  Context (parse_config_file : chars -> outcome E (list chars)).       (* values of psql-track-body-operations *)
  Context (operation_body_tracker : list chars -> option (operation -> bool)).   (* None: empty after fill *)

Definition track_body_line (operation_type body_filter : chars) : chars :=
  lit "psql-track-body-operations = " ++ lit "[" ++ [DQ] ++ operation_type ++ [DQ] ++ lit "," ++
  [DQ] ++ body_filter ++ [DQ] ++ lit "]".

(** The other two options are not in the text, their trackers stay empty. *)
Definition make_filter (operation_type body_filter : chars) : outcome E (@blockchain_filter operation) :=
  values ← parse_config_file (track_body_line operation_type body_filter);
  Ok (filter_fill None None (operation_body_tracker values)
        {| bf_enabled := true; bf_trx_in_block_filter_accepted := ∅; bf_accounts_filter_tracker := None;
           bf_operations_filter_tracker := None; bf_operations_body_filter_tracker := None |}).

(** ** [filter_processor] *)

  Context (from_string : chars -> outcome E variant) (to_string : variant -> chars)
    (from_variant : variant -> outcome E operation).

  Abbreviation collection := (list (chars * operation)).

(** [v.is_object() && v.get_object().contains( key )], then the member. *)
Definition member (key : string) (v : variant) : option variant :=
  match v with VObject entries => find_entry (lit key) entries | _ => None end.

(** The operations of the transactions, in their order; what is not a transaction with a list of
    operations is skipped. *)
Definition transaction_operations (trx : variant) : list variant :=
  match member "operations" trx with Some (VArray _ops) => _ops | _ => [] end.

Definition block_operations (_json : variant) : list variant :=
  match (_result ← member "result" _json; _block ← member "block" _result; member "transactions" _block) with
  | Some (VArray _trxs) => concat (map transaction_operations _trxs)
  | _ => []
  end.

Fixpoint read_ops (l : list variant) (ops : collection) : outcome E collection :=
  match l with
  | [] => Ok ops
  | op :: l' => _current_op ← from_variant op; read_ops l' (emplace ops (to_string op) _current_op)
  end.

(** An empty file, or one that cannot be opened, has no operations. *)
Definition find_ops (_content : chars) : outcome E collection :=
  match _content with
  | [] => Ok []
  | _ => _json ← from_string _content; read_ops (block_operations _json) []
  end.

Definition cmp (f : @blockchain_filter operation) (ops : collection) : collection :=
  fold_left (fun result_ops op => if is_tracked_operation f op.2 then emplace result_ops op.1 op.2 else result_ops)
    ops [].

Definition print_items (verbose : bool) (items : collection) : chars :=
  concat (map (fun item => item.1 ++ [NL]) items) ++
  (if verbose then lit "======================================" ++ [NL] else []).

Definition summary (verbose : bool) (ops result_ops : collection) : chars :=
  if verbose then
    print_items verbose ops ++ print_items verbose result_ops ++
    lit "total: " ++ dec (u32 (Z.of_nat (length ops))) ++
    lit " filtered: " ++ dec (u32 (Z.of_nat (length result_ops))) ++ [NL]
  else print_items verbose result_ops.

(** The command line: [None] for an option that is not given. *)
Record arguments := {
  op_type : option chars; op_body_regex : option chars; ops_file : option chars; verbose : bool
}.

Inductive exit_code := EXIT_SUCCESS | EXIT_FAILURE.

(** The code and the output; the contents of a file are given. *)
Definition main (content : chars -> chars) (a : arguments) : exit_code * chars :=
  match op_type a, op_body_regex a, ops_file a with
  | Some op_type, Some op_body_regex, Some ops_file =>
      match (f ← make_filter op_type op_body_regex; ops ← find_ops (content ops_file); Ok (f, ops)) with
      | Throw _ => (EXIT_FAILURE, [])
      | Ok (f, ops) => (EXIT_SUCCESS, summary (verbose a) ops (cmp f ops))
      end
  | _, _, _ => (EXIT_SUCCESS, [])                   (* return 0 *)
  end.

(** ** Properties *)

Lemma read_ops_ordered l ops r : read_ops l ops = Ok r -> ordered ops -> ordered r.
Proof.
  revert ops. induction l as [|v l IH]; cbn; [by intros ops [= <-]|].
  intros ops (op & _ & Hr)%outcome_bind_inv Ho. eapply IH; [exact Hr|]. by apply emplace_ordered.
Qed.

Lemma cmp_go_ordered f l (acc : collection) :
  ordered acc ->
  ordered (fold_left (fun result_ops op =>
    if is_tracked_operation f op.2 then emplace result_ops op.1 op.2 else result_ops) l acc).
Proof.
  revert acc. induction l as [|[k op] l IH]; cbn; [done|]. intros acc Ha. apply IH.
  destruct (is_tracked_operation f op); [by apply emplace_ordered|done].
Qed.

(** What the comparison finds: the operations of the map that the filter tracks. *)
Lemma find_cmp_go f l (acc : collection) key :
  ordered l ->
  find (fold_left (fun result_ops op =>
    if is_tracked_operation f op.2 then emplace result_ops op.1 op.2 else result_ops) l acc) key
  = match find acc key with
    | Some op => Some op
    | None => op ← find l key; if is_tracked_operation f op then Some op else None
    end.
Proof.
  unfold ordered. revert acc. induction l as [|[k op] l IH]; cbn; intros acc.
  { intros _. by destruct (find acc key). }
  intros [Hs Hf]%StronglySorted_inv. rewrite IH by done.
  assert (k = key -> find l key = None) as Hk.
  { intros ->. destruct (find l key) as [b|] eqn:Eb; [|done]. apply elem_of_ordered in Eb; [|done].
    rewrite Forall_forall in Hf. specialize (Hf _ Eb). cbn in Hf. by rewrite chars_ltb_irrefl in Hf. }
  destruct (is_tracked_operation f op) eqn:Et.
  - rewrite find_emplace. destruct (find acc key); [done|].
    destruct (decide (k = key)); [cbn; by rewrite Et|done].
  - destruct (find acc key); [done|]. destruct (decide (k = key)) as [E1|]; [|done].
    rewrite Hk by done. cbn. by rewrite Et.
Qed.

(** Operations with the same text are read as the same operation. *)
Definition texts_identify : Prop :=
  forall v w, to_string v = to_string w -> from_variant v = from_variant w.

Lemma find_read_ops l ops r key op :
  texts_identify -> read_ops l ops = Ok r ->
  find r key = Some op <->
  find ops key = Some op \/
  (find ops key = None /\ exists v, v ∈ l /\ to_string v = key /\ from_variant v = Ok op).
Proof.
  intros Ht. revert ops. induction l as [|v l IH]; cbn; intros ops.
  { intros [= <-]. set_solver. }
  intros (o & Hv & Hr)%outcome_bind_inv. rewrite (IH _ Hr), find_emplace.
  destruct (find ops key) as [b|]; [naive_solver|].
  destruct (decide (to_string v = key)) as [E1|E1].
  - split.
    + intros [[= <-]|[? _]]; [|done]. right. split; [done|]. exists v. set_solver.
    + intros [?|(_ & w & _ & Hw & Ho)]; [done|]. left.
      assert (from_variant w = from_variant v) as Heq by (apply Ht; congruence). congruence.
  - split.
    + intros [?|(_ & w & Hw & Hk & Ho)]; [done|]. right. split; [done|]. exists w. set_solver.
    + intros [?|(_ & w & Hw & Hk & Ho)]; [done|]. right. split; [done|]. exists w. set_solver.
Qed.

(** When the file is read and every operation in it converts, the tool succeeds and prints
    the operations of the block that the filter tracks and no others: each of their texts is one
    line, once, in increasing order; with the switch all operations are listed before them and
    both lists are counted. *)
Theorem tracked_operations_are_printed content a type regex file f _json :
  texts_identify ->
  op_type a = Some type -> op_body_regex a = Some regex -> ops_file a = Some file ->
  make_filter type regex = Ok f ->
  content file <> [] -> from_string (content file) = Ok _json ->
  Forall (fun v => exists op, from_variant v = Ok op) (block_operations _json) ->
  exists ops tracked,
    main content a = (EXIT_SUCCESS,
      if verbose a then
        print_items true ops ++ print_items true tracked ++
        lit "total: " ++ dec (u32 (Z.of_nat (length ops))) ++
        lit " filtered: " ++ dec (u32 (Z.of_nat (length tracked))) ++ [NL]
      else concat (map (fun item => item.1 ++ [NL]) tracked)) /\
    ordered ops /\ ordered tracked /\
    (forall text op, (text, op) ∈ ops <->
       exists v, v ∈ block_operations _json /\ to_string v = text /\ from_variant v = Ok op) /\
    (forall text op, (text, op) ∈ tracked <-> (text, op) ∈ ops /\ is_tracked_operation f op = true).
Proof.
  intros Ht Ha Hb Hc Hf Hne Hj Hall.
  assert (forall l acc, Forall (fun v => exists op, from_variant v = Ok op) l -> exists r, read_ops l acc = Ok r) as Htot.
  { induction l as [|v l IH]; intros acc H; [by eexists|]. apply Forall_cons in H as [(op & Hop) H].
    cbn. rewrite Hop. cbn. by apply IH. }
  destruct (Htot _ [] Hall) as [ops Hr].
  assert (ordered ops) as Ho by (eapply read_ops_ordered; [exact Hr|constructor]).
  assert (ordered (cmp f ops)) as Hco by (apply cmp_go_ordered; constructor).
  exists ops, (cmp f ops). split_and!; [|done|done| |].
  - unfold main. rewrite Ha, Hb, Hc, Hf. cbn. unfold find_ops.
    destruct (content file) as [|c l]; [done|]. rewrite Hj. cbn. rewrite Hr. cbn.
    unfold summary. destruct (verbose a); [done|]. unfold print_items. by rewrite app_nil_r.
  - intros text op. rewrite elem_of_ordered by done. rewrite (find_read_ops _ _ _ _ _ Ht Hr). cbn.
    split; [intros [?|(_ & H)]; [done|exact H]|intros H; right; by split].
  - intros text op. rewrite !elem_of_ordered by done. unfold cmp. rewrite find_cmp_go by done. cbn.
    destruct (find ops text) as [o|]; cbn; [|by split; [|intros [? _]]].
    destruct (is_tracked_operation f o) eqn:Eo; (split; [|intros [[= ->] ?]; congruence]); [intros [= <-]|]; done.
Qed.

(** A first operation that cannot be read, a file that is not JSON or a refused option ends the
    tool with a failure and without output, also for the operations read before. *)
Theorem failures_print_nothing content a output :
  main content a = (EXIT_FAILURE, output) -> output = [].
Proof.
  unfold main. destruct (op_type a), (op_body_regex a), (ops_file a); try (by intros [= <-]).
  by destruct (make_filter _ _ ≫= _) as [[f ops]|e]; intros [= <-].
Qed.

(** A number sign in the regular expression starts a comment of the configuration text: when the
    rest is no filter, every operation is tracked and no error is reported. *)
Theorem number_sign_tracks_everything type before after values :
  (forall l r, (forall c, c ∈ r -> c <> NL) -> parse_config_file (l ++ lit "#" ++ r) = parse_config_file l) ->
  (forall c, c ∈ after -> c <> NL) ->
  parse_config_file (lit "psql-track-body-operations = " ++ lit "[" ++ [DQ] ++ type ++ [DQ] ++ lit "," ++
                     [DQ] ++ before) = Ok values ->
  operation_body_tracker values = None ->
  exists f, make_filter type (before ++ lit "#" ++ after) = Ok f /\ forall op, is_tracked_operation f op = true.
Proof.
  intros Hcut Ha Hp Hn. unfold make_filter, track_body_line.
  replace (lit "psql-track-body-operations = " ++ lit "[" ++ [DQ] ++ type ++ [DQ] ++ lit "," ++
    [DQ] ++ (before ++ lit "#" ++ after) ++ [DQ] ++ lit "]")
    with ((lit "psql-track-body-operations = " ++ lit "[" ++ [DQ] ++ type ++ [DQ] ++ lit "," ++ [DQ] ++ before) ++
      lit "#" ++ (after ++ [DQ] ++ lit "]")) by (rewrite <- !app_assoc; done).
  rewrite Hcut.
  - rewrite Hp. cbn. rewrite Hn. eexists. by split.
  - intros c [Hc|Hc]%elem_of_app; [by apply Ha|]. intros ->. cbn in Hc.
    rewrite !elem_of_cons in Hc. by destruct Hc as [?|[?|?%elem_of_nil]].
Qed.

End body_filter.

Module BodyFilterExamples.

(** A block with three operations, one of them twice; an operation is its text, the filter keeps
    the ones that begin with the first letter of the regular expression. *)
Definition block : variant :=
  VObject [(lit "result", VObject [(lit "block", VObject [(lit "transactions",
    VArray [VObject [(lit "operations", VArray [VString (lit "vote"); VString (lit "transfer")])];
            VNull;
            VObject [(lit "operations", VArray [VString (lit "vote"); VString (lit "value")])]])])])].

Definition config (text : chars) : outcome unit (list chars) := Ok [drop 52 text].
Definition tracker (values : list chars) : option (chars -> bool) :=
  match values with
  | (c :: _) :: _ => Some (fun op => match op with d :: _ => Ascii.eqb c d | [] => false end)
  | _ => None
  end.
Definition text_of (v : variant) : chars := match v with VString s => s | _ => [] end.
Definition op_of (v : variant) : outcome unit chars := Ok (text_of v).
Definition args : arguments :=
  {| op_type := Some (lit "transfer_operation"); op_body_regex := Some (lit "v.*"); ops_file := Some (lit "f");
     verbose := false |}.

Lemma tracked_operations_are_printed_witness :
  main config tracker (fun _ => Ok block) text_of op_of (fun _ => lit "{") args
  = (EXIT_SUCCESS, lit "value" ++ [NL] ++ lit "vote" ++ [NL]) /\
  exists ops tracked : list (chars * chars),
    ordered ops /\ ordered tracked /\ (forall text op, (text, op) ∈ tracked <-> (text, op) ∈ ops /\
      match op with d :: _ => Ascii.eqb "v" d | [] => false end = true).
Proof.
  split; [by vm_compute|].
  destruct (make_filter config tracker (lit "transfer_operation") (lit "v.*")) as [f|] eqn:Ef;
    [|by vm_compute in Ef].
  destruct (tracked_operations_are_printed config tracker (fun _ => Ok block) text_of op_of (fun _ => lit "{") args
    (lit "transfer_operation") (lit "v.*") (lit "f") f block) as (ops & tracked & _ & Ho & Ht & _ & H);
    [by intros v w H; unfold op_of; rewrite H|done|done|done|exact Ef|done|done| |].
  - apply Forall_forall. intros v _. by eexists.
  - exists ops, tracked. split; [done|]. split; [done|]. intros text op. rewrite H.
    vm_compute in Ef. by injection Ef as <-.
Defined.

End BodyFilterExamples.
