(* ===== verification/SqlCatalog.v ===== *)
(** * SQL types of operations ([types/types.sql], [types/domains.sql],
    [types/cast_functions.sql], [asset_utils.sql])

    The composite types the extension declares for operations, the domains their attributes
    use, and the functions of the shared library that the casts of [hafd.operation] call.
    The server's view of them is the instance [hive_catalog]: the tuple descriptor of a
    composite type and the type a name of a schema stands for. *)

From Stdlib Require Import String.
From stdpp Require Import base list strings.

Open Scope string_scope.

(** Base types; rows are named by their type in the schema [hive], arrays by the schema and
    name of their elements. *)
Inductive sql_type :=
| sql_bool | sql_int2 | sql_int4 | sql_int8 | sql_numeric | sql_text | sql_bytea | sql_timestamp
| sql_row (name : string)
| sql_array (namespace_name type_name : string).

#[global] Instance sql_type_dec : EqDecision sql_type.
Proof. solve_decision. Defined.

(** A type as a declaration writes it. *)
Inductive declared :=
| named (namespace_name type_name : string)
| array_of (namespace_name type_name : string).

Definition builtin (name : string) : declared := named "pg_catalog" name.
Definition hafd (name : string) : declared := named "hafd" name.
Definition hive (name : string) : declared := named "hive" name.
Definition array (d : declared) : declared :=
  match d with named ns n | array_of ns n => array_of ns n end.

(** The server's catalog, as the conversions look into it. *)
Class Catalog := {
  tuple_desc : string -> option (list (string * sql_type));    (* RelationNameGetTupleDesc *)
  pg_type : string -> string -> option sql_type                (* the system cache *)
}.

(** ** Declarations *)

(** Lengths of [varchar] are left out: the server does not check them on attributes of a row
    that is formed from datums. *)
Definition declared_domains : list ((string * string) * declared) :=
  [(("hafd", "account_name_type"), builtin "varchar");
   (("hafd", "permlink"), builtin "varchar");
   (("hafd", "comment_title"), builtin "varchar");
   (("hafd", "memo"), builtin "varchar");
   (("hafd", "public_key_type"), builtin "varchar");
   (("hafd", "weight_type"), builtin "int4");
   (("hafd", "share_type"), builtin "int8");
   (("hafd", "ushare_type"), builtin "numeric");
   (("hafd", "signature_type"), builtin "bytea");
   (("hafd", "block_id_type"), builtin "bytea");
   (("hafd", "transaction_id_type"), builtin "bytea");
   (("hafd", "digest_type"), builtin "bytea");
   (("hafd", "custom_id_type"), builtin "varchar");
   (("hafd", "asset_symbol"), builtin "int8");
   (("hafd", "asset_unique_id"), builtin "numeric");
   (("hafd", "proposal_subject"), builtin "varchar");
   (("hive", "extensions_type"), array (hive "hive_future_extensions"));
   (("hive", "allowed_vote_assets"), array (hive "allowed_vote_asset"))].

(** The types of assets, extensions and authorities and of the operations users sign, in the order of the file. *)
Definition declared_types : list (string * list (string * declared)) :=
  [("asset",
      [("amount", hafd "share_type"); ("precision", builtin "int2"); ("nai", builtin "text")]);
   ("price",
      [("base", hive "asset"); ("quote", hive "asset")]);
   ("legacy_hive_asset_symbol_type",
      [("ser", builtin "numeric")]);
   ("legacy_hive_asset",
      [("amount", hafd "share_type"); ("precision", builtin "int2"); ("nai", builtin "text")]);
   ("hive_future_extensions",
      []);
   ("beneficiary_route_type",
      [("account", hafd "account_name_type"); ("weight", builtin "int4")]);
   ("comment_payout_beneficiaries",
      [("beneficiaries", array (hive "beneficiary_route_type"))]);
   ("votable_asset_info_v1",
      [("max_accepted_payout", hafd "share_type"); ("allow_curation_rewards", builtin "boolean")]);
   ("votable_asset_info",
      [("v1", hive "votable_asset_info_v1")]);
   ("allowed_vote_asset",
      [("asset_symbol_type", hafd "asset_symbol"); ("votable_asset_info", hive "votable_asset_info")]);
   ("comment_options_extensions_type",
      [("comment_payout_beneficiaries", hive "comment_payout_beneficiaries");
       ("allowed_vote_assets", hive "allowed_vote_assets")]);
   ("comment_operation",
      [("parent_author", hafd "account_name_type"); ("parent_permlink", hafd "permlink");
       ("author", hafd "account_name_type"); ("permlink", hafd "permlink");
       ("title", hafd "comment_title"); ("body", builtin "text"); ("json_metadata", builtin "text")]);
   ("comment_options_operation",
      [("author", hafd "account_name_type"); ("permlink", hafd "permlink");
       ("max_accepted_payout", hive "asset"); ("percent_hbd", builtin "int4"); ("allow_votes", builtin "boolean");
       ("allow_curation_rewards", builtin "boolean"); ("extensions", hive "comment_options_extensions_type")]);
   ("vote_operation",
      [("voter", hafd "account_name_type"); ("author", hafd "account_name_type");
       ("permlink", hafd "permlink"); ("weight", builtin "int4")]);
   ("witness_property",
      [("name", builtin "text"); ("value", builtin "text")]);
   ("witness_set_properties_operation",
      [("owner", hafd "account_name_type"); ("props", array (hive "witness_property"));
       ("extensions", hive "extensions_type")]);
   ("account_auth",
      [("name", hafd "account_name_type"); ("weight", hafd "weight_type")]);
   ("key_auth",
      [("public_key", hafd "public_key_type"); ("weight", hafd "weight_type")]);
   ("authority",
      [("weight_treshold", builtin "int8"); ("account_auths", array (hive "account_auth"));
       ("key_auths", array (hive "key_auth"))]);
   ("account_create_operation",
      [("fee", hive "asset"); ("creator", hafd "account_name_type");
       ("new_account_name", hafd "account_name_type"); ("owner", hive "authority");
       ("active", hive "authority"); ("posting", hive "authority"); ("memo_key", hafd "public_key_type");
       ("json_metadata", builtin "text")]);
   ("account_create_with_delegation_operation",
      [("fee", hive "asset"); ("delegation", hive "asset"); ("creator", hafd "account_name_type");
       ("new_account_name", hafd "account_name_type"); ("owner", hive "authority");
       ("active", hive "authority"); ("posting", hive "authority"); ("memo_key", hafd "public_key_type");
       ("json_metadata", builtin "text"); ("extensions", hive "extensions_type")]);
   ("account_update2_operation",
      [("account", hafd "account_name_type"); ("owner", hive "authority"); ("active", hive "authority");
       ("posting", hive "authority"); ("memo_key", hafd "public_key_type"); ("json_metadata", builtin "text");
       ("posting_json_metadata", builtin "text"); ("extensions", hive "extensions_type")]);
   ("account_update_operation",
      [("account", hafd "account_name_type"); ("owner", hive "authority"); ("active", hive "authority");
       ("posting", hive "authority"); ("memo_key", hafd "public_key_type"); ("json_metadata", builtin "text")]);
   ("account_witness_proxy_operation",
      [("account", hafd "account_name_type"); ("proxy", hafd "account_name_type")]);
   ("account_witness_vote_operation",
      [("account", hafd "account_name_type"); ("witness", hafd "account_name_type");
       ("approve", builtin "boolean")]);
   ("cancel_transfer_from_savings_operation",
      [("from", hafd "account_name_type"); ("request_id", builtin "int8")]);
   ("change_recovery_account_operation",
      [("account_to_recover", hafd "account_name_type");
       ("new_recovery_account", hafd "account_name_type"); ("extensions", hive "extensions_type")]);
   ("claim_account_operation",
      [("creator", hafd "account_name_type"); ("fee", hive "asset"); ("extensions", hive "extensions_type")]);
   ("claim_reward_balance_operation",
      [("account", hafd "account_name_type"); ("reward_hive", hive "asset"); ("reward_hbd", hive "asset");
       ("reward_vests", hive "asset")]);
   ("collateralized_convert_operation",
      [("owner", hafd "account_name_type"); ("requestid", builtin "int8"); ("amount", hive "asset")]);
   ("convert_operation",
      [("owner", hafd "account_name_type"); ("requestid", builtin "int8"); ("amount", hive "asset")]);
   ("create_claimed_account_operation",
      [("creator", hafd "account_name_type"); ("new_account_name", hafd "account_name_type");
       ("owner", hive "authority"); ("active", hive "authority"); ("posting", hive "authority");
       ("memo_key", hafd "public_key_type"); ("json_metadata", builtin "text");
       ("extensions", hive "extensions_type")]);
   ("custom_binary_operation",
      [("required_owner_auths", array (hafd "account_name_type"));
       ("required_active_auths", array (hafd "account_name_type"));
       ("required_posting_auths", array (hafd "account_name_type"));
       ("required_auths", array (hive "authority")); ("id", hafd "custom_id_type"); ("data", builtin "bytea")]);
   ("custom_json_operation",
      [("required_auths", array (hafd "account_name_type"));
       ("required_posting_auths", array (hafd "account_name_type")); ("id", hafd "custom_id_type");
       ("json", builtin "text")]);
   ("custom_operation",
      [("required_auths", array (hafd "account_name_type")); ("id", builtin "int4"); ("data", builtin "bytea")]);
   ("decline_voting_rights_operation",
      [("account", hafd "account_name_type"); ("decline", builtin "boolean")]);
   ("delegate_vesting_shares_operation",
      [("delegator", hafd "account_name_type"); ("delegatee", hafd "account_name_type");
       ("vesting_shares", hive "asset")]);
   ("delete_comment_operation",
      [("author", hafd "account_name_type"); ("permlink", hafd "permlink")]);
   ("escrow_approve_operation",
      [("from", hafd "account_name_type"); ("to", hafd "account_name_type");
       ("agent", hafd "account_name_type"); ("who", hafd "account_name_type"); ("escrow_id", builtin "int8");
       ("approve", builtin "boolean")]);
   ("escrow_dispute_operation",
      [("from", hafd "account_name_type"); ("to", hafd "account_name_type");
       ("agent", hafd "account_name_type"); ("who", hafd "account_name_type"); ("escrow_id", builtin "int8")]);
   ("escrow_release_operation",
      [("from", hafd "account_name_type"); ("to", hafd "account_name_type");
       ("agent", hafd "account_name_type"); ("who", hafd "account_name_type");
       ("receiver", hafd "account_name_type"); ("escrow_id", builtin "int8"); ("hbd_amount", hive "asset");
       ("hive_amount", hive "asset")]);
   ("escrow_transfer_operation",
      [("from", hafd "account_name_type"); ("to", hafd "account_name_type"); ("hbd_amount", hive "asset");
       ("hive_amount", hive "asset"); ("escrow_id", builtin "int8"); ("agent", hafd "account_name_type");
       ("fee", hive "asset"); ("json_meta", builtin "text"); ("ratification_deadline", builtin "timestamp");
       ("escrow_expiration", builtin "timestamp")]);
   ("feed_publish_operation",
      [("publisher", hafd "account_name_type"); ("exchange_rate", hive "price")]);
   ("limit_order_cancel_operation",
      [("owner", hafd "account_name_type"); ("orderid", builtin "int8")]);
   ("limit_order_create2_operation",
      [("owner", hafd "account_name_type"); ("orderid", builtin "int8"); ("amount_to_sell", hive "asset");
       ("exchange_rate", hive "price"); ("fill_or_kill", builtin "boolean"); ("expiration", builtin "timestamp")]);
   ("limit_order_create_operation",
      [("owner", hafd "account_name_type"); ("orderid", builtin "int8"); ("amount_to_sell", hive "asset");
       ("min_to_receive", hive "asset"); ("fill_or_kill", builtin "boolean"); ("expiration", builtin "timestamp")]);
   ("pow2_input",
      [("worker_account", hafd "account_name_type"); ("prev_block", hafd "block_id_type");
       ("nonce", builtin "numeric")]);
   ("pow2",
      [("input", hive "pow2_input"); ("pow_summary", builtin "int8")]);
   ("proof",
      [("n", builtin "int8"); ("k", builtin "int8"); ("seed", builtin "text"); ("inputs", array (builtin "int8"))]);
   ("equihash_pow",
      [("input", hive "pow2_input"); ("proof", hive "proof"); ("prev_block", hafd "block_id_type");
       ("pow_summary", builtin "int8")]);
   ("pow2_work",
      [("pow2", hive "pow2"); ("equihash_pow", hive "equihash_pow")]);
   ("legacy_chain_properties",
      [("account_creation_fee", hive "legacy_hive_asset"); ("maximum_block_size", builtin "int8");
       ("hbd_interest_rate", builtin "int4")]);
   ("pow2_operation",
      [("work", hive "pow2_work"); ("new_owner_key", hafd "public_key_type");
       ("props", hive "legacy_chain_properties")]);
   ("pow",
      [("worker", hafd "public_key_type"); ("input", hafd "digest_type");
       ("signature", hafd "signature_type"); ("work", hafd "digest_type")]);
   ("pow_operation",
      [("worker_account", hafd "account_name_type"); ("block_id", hafd "block_id_type");
       ("nonce", builtin "numeric"); ("work", hive "pow"); ("props", hive "legacy_chain_properties")]);
   ("recover_account_operation",
      [("account_to_recover", hafd "account_name_type"); ("new_owner_authority", hive "authority");
       ("recent_owner_authority", hive "authority"); ("extensions", hive "extensions_type")]);
   ("recurrent_transfer_pair_id",
      [("pair_id", builtin "int2")]);
   ("recurrent_transfer_extensions_type",
      [("recurrent_transfer_pair_id", hive "recurrent_transfer_pair_id")]);
   ("recurrent_transfer_operation",
      [("from", hafd "account_name_type"); ("to", hafd "account_name_type"); ("amount", hive "asset");
       ("memo", hafd "memo"); ("recurrence", builtin "int4"); ("executions", builtin "int4");
       ("extensions", hive "recurrent_transfer_extensions_type")]);
   ("request_account_recovery_operation",
      [("recovery_account", hafd "account_name_type"); ("account_to_recover", hafd "account_name_type");
       ("new_owner_authority", hive "authority"); ("extensions", hive "extensions_type")]);
   ("reset_account_operation",
      [("reset_account", hafd "account_name_type"); ("account_to_reset", hafd "account_name_type");
       ("new_owner_authority", hive "authority")]);
   ("set_reset_account_operation",
      [("account", hafd "account_name_type"); ("current_reset_account", hafd "account_name_type");
       ("reset_account", hafd "account_name_type")]);
   ("set_withdraw_vesting_route_operation",
      [("from_account", hafd "account_name_type"); ("to_account", hafd "account_name_type");
       ("percent", builtin "int4"); ("auto_vest", builtin "boolean")]);
   ("transfer_from_savings_operation",
      [("from", hafd "account_name_type"); ("request_id", builtin "int8"); ("to", hafd "account_name_type");
       ("amount", hive "asset"); ("memo", hafd "memo")]);
   ("transfer_operation",
      [("from", hafd "account_name_type"); ("to", hafd "account_name_type"); ("amount", hive "asset");
       ("memo", hafd "memo")]);
   ("transfer_to_savings_operation",
      [("from", hafd "account_name_type"); ("to", hafd "account_name_type"); ("amount", hive "asset");
       ("memo", hafd "memo")]);
   ("transfer_to_vesting_operation",
      [("from", hafd "account_name_type"); ("to", hafd "account_name_type"); ("amount", hive "asset")]);
   ("withdraw_vesting_operation",
      [("to", hafd "account_name_type"); ("vesting_shares", hive "asset")]);
   ("witness_update_operation",
      [("owner", hafd "account_name_type"); ("url", hafd "permlink");
       ("block_signing_key", hafd "public_key_type"); ("props", hive "legacy_chain_properties");
       ("fee", hive "asset")]);
   ("create_proposal_operation",
      [("creator", hafd "account_name_type"); ("receiver", hafd "account_name_type");
       ("start_date", builtin "timestamp"); ("end_date", builtin "timestamp"); ("daily_pay", hive "asset");
       ("subject", builtin "text"); ("permlink", builtin "text"); ("extensions", hive "extensions_type")]);
   ("proposal_pay_operation",
      [("proposal_id", builtin "int8"); ("receiver", hafd "account_name_type");
       ("payer", hafd "account_name_type"); ("payment", hive "asset")]);
   ("remove_proposal_operation",
      [("proposal_owner", hafd "account_name_type"); ("proposal_ids", array (builtin "int8"));
       ("extensions", hive "extensions_type")]);
   ("update_proposal_end_date",
      [("end_date", builtin "timestamp")]);
   ("update_proposal_extensions_type",
      [("update_proposal_end_date", hive "update_proposal_end_date")]);
   ("update_proposal_operation",
      [("proposal_id", builtin "int8"); ("creator", hafd "account_name_type"); ("daily_pay", hive "asset");
       ("subject", hafd "proposal_subject"); ("permlink", hafd "permlink");
       ("extensions", hive "update_proposal_extensions_type")]);
   ("update_proposal_votes_operation",
      [("voter", hafd "account_name_type"); ("proposal_ids", array (builtin "int8")); ("approve", builtin "boolean");
       ("extensions", hive "extensions_type")])].

(** The types of virtual operations. *)
Definition declared_virtual_types : list (string * list (string * declared)) :=
  [("account_created_operation",
      [("new_account_name", hafd "account_name_type"); ("creator", hafd "account_name_type");
       ("initial_vesting_shares", hive "asset"); ("initial_delegation", hive "asset")]);
   ("author_reward_operation",
      [("author", hafd "account_name_type"); ("permlink", hafd "permlink"); ("hbd_payout", hive "asset");
       ("hive_payout", hive "asset"); ("vesting_payout", hive "asset");
       ("curators_vesting_payout", hive "asset"); ("payout_must_be_claimed", builtin "boolean")]);
   ("changed_recovery_account_operation",
      [("account", hafd "account_name_type"); ("old_recovery_account", hafd "account_name_type");
       ("new_recovery_account", hafd "account_name_type")]);
   ("clear_null_account_balance_operation",
      [("total_cleared", array (hive "asset"))]);
   ("comment_benefactor_reward_operation",
      [("benefactor", hafd "account_name_type"); ("author", hafd "account_name_type");
       ("permlink", hafd "permlink"); ("hbd_payout", hive "asset"); ("hive_payout", hive "asset");
       ("vesting_payout", hive "asset"); ("payout_must_be_claimed", builtin "boolean")]);
   ("comment_payout_update_operation",
      [("author", hafd "account_name_type"); ("permlink", hafd "permlink")]);
   ("comment_reward_operation",
      [("author", hafd "account_name_type"); ("permlink", hafd "permlink"); ("payout", hive "asset");
       ("author_rewards", hafd "share_type"); ("total_payout_value", hive "asset");
       ("curator_payout_value", hive "asset"); ("beneficiary_payout_value", hive "asset")]);
   ("consolidate_treasury_balance_operation",
      [("total_moved", array (hive "asset"))]);
   ("curation_reward_operation",
      [("curator", hafd "account_name_type"); ("reward", hive "asset");
       ("author", hafd "account_name_type"); ("permlink", hafd "permlink");
       ("payout_must_be_claimed", builtin "boolean")]);
   ("delayed_voting_operation",
      [("voter", hafd "account_name_type"); ("votes", hafd "ushare_type")]);
   ("effective_comment_vote_operation",
      [("voter", hafd "account_name_type"); ("author", hafd "account_name_type");
       ("permlink", hafd "permlink"); ("weight", builtin "numeric"); ("rshares", builtin "int8");
       ("total_vote_weight", builtin "numeric"); ("pending_payout", hive "asset")]);
   ("expired_account_notification_operation",
      [("account", hafd "account_name_type")]);
   ("failed_recurrent_transfer_operation",
      [("from", hafd "account_name_type"); ("to", hafd "account_name_type"); ("amount", hive "asset");
       ("memo", hafd "memo"); ("consecutive_failures", builtin "int2"); ("remaining_executions", builtin "int4");
       ("deleted", builtin "boolean"); ("extensions", hive "recurrent_transfer_extensions_type")]);
   ("fill_collateralized_convert_request_operation",
      [("owner", hafd "account_name_type"); ("requestid", builtin "int8"); ("amount_in", hive "asset");
       ("amount_out", hive "asset"); ("excess_collateral", hive "asset")]);
   ("fill_convert_request_operation",
      [("owner", hafd "account_name_type"); ("requestid", builtin "int8"); ("amount_in", hive "asset");
       ("amount_out", hive "asset")]);
   ("fill_order_operation",
      [("current_owner", hafd "account_name_type"); ("current_orderid", builtin "int8");
       ("current_pays", hive "asset"); ("open_owner", hafd "account_name_type");
       ("open_orderid", builtin "int8"); ("open_pays", hive "asset")]);
   ("fill_recurrent_transfer_operation",
      [("from", hafd "account_name_type"); ("to", hafd "account_name_type"); ("amount", hive "asset");
       ("memo", hafd "memo"); ("remaining_executions", builtin "int4");
       ("extensions", hive "recurrent_transfer_extensions_type")]);
   ("fill_transfer_from_savings_operation",
      [("from", hafd "account_name_type"); ("to", hafd "account_name_type"); ("amount", hive "asset");
       ("request_id", builtin "int8"); ("memo", hafd "memo")]);
   ("fill_vesting_withdraw_operation",
      [("from_account", hafd "account_name_type"); ("to_account", hafd "account_name_type");
       ("withdrawn", hive "asset"); ("deposited", hive "asset")]);
   ("hardfork_hive_operation",
      [("account", hafd "account_name_type"); ("treasury", hafd "account_name_type");
       ("other_affected_accounts", array (hafd "account_name_type")); ("hbd_transferred", hive "asset");
       ("hive_transferred", hive "asset"); ("vests_converted", hive "asset");
       ("total_hive_from_vests", hive "asset")]);
   ("hardfork_hive_restore_operation",
      [("account", hafd "account_name_type"); ("treasury", hafd "account_name_type");
       ("hbd_transferred", hive "asset"); ("hive_transferred", hive "asset")]);
   ("hardfork_operation",
      [("hardfork_id", builtin "int8")]);
   ("ineffective_delete_comment_operation",
      [("author", hafd "account_name_type"); ("permlink", hafd "permlink")]);
   ("interest_operation",
      [("owner", hafd "account_name_type"); ("interest", hive "asset");
       ("is_saved_into_hbd_balance", builtin "boolean")]);
   ("limit_order_cancelled_operation",
      [("seller", hafd "account_name_type"); ("orderid", builtin "int4"); ("amount_back", hive "asset")]);
   ("liquidity_reward_operation",
      [("owner", hafd "account_name_type"); ("payout", hive "asset")]);
   ("pow_reward_operation",
      [("worker", hafd "account_name_type"); ("reward", hive "asset")]);
   ("producer_reward_operation",
      [("producer", hafd "account_name_type"); ("vesting_shares", hive "asset")]);
   ("return_vesting_delegation_operation",
      [("account", hafd "account_name_type"); ("vesting_shares", hive "asset")]);
   ("shutdown_witness_operation",
      [("owner", hafd "account_name_type")]);
   ("system_warning_operation",
      [("message", builtin "text")]);
   ("transfer_to_vesting_completed_operation",
      [("from_account", hafd "account_name_type"); ("to_account", hafd "account_name_type");
       ("hive_vested", hive "asset"); ("vesting_shares_received", hive "asset")]);
   ("vesting_shares_split_operation",
      [("owner", hafd "account_name_type"); ("vesting_shares_before_split", hive "asset");
       ("vesting_shares_after_split", hive "asset")]);
   ("witness_block_approve_operation",
      [("witness", hafd "account_name_type"); ("block_id", hafd "block_id_type")]);
   ("dhf_funding_operation",
      [("treasury", hafd "account_name_type"); ("additional_funds", hive "asset")]);
   ("dhf_conversion_operation",
      [("treasury", hafd "account_name_type"); ("hive_amount_in", hive "asset");
       ("hbd_amount_out", hive "asset")]);
   ("producer_missed_operation",
      [("producer", hafd "account_name_type")]);
   ("proposal_fee_operation",
      [("creator", hafd "account_name_type"); ("treasury", hafd "account_name_type");
       ("proposal_id", builtin "int8"); ("fee", hive "asset")]);
   ("collateralized_convert_immediate_conversion_operation",
      [("owner", hafd "account_name_type"); ("requestid", builtin "int8"); ("hbd_out", hive "asset")]);
   ("escrow_approved_operation",
      [("from", hafd "account_name_type"); ("to", hafd "account_name_type");
       ("agent", hafd "account_name_type"); ("escrow_id", builtin "int8"); ("fee", hive "asset")]);
   ("escrow_rejected_operation",
      [("from", hafd "account_name_type"); ("to", hafd "account_name_type");
       ("agent", hafd "account_name_type"); ("escrow_id", builtin "int8"); ("hbd_amount", hive "asset");
       ("hive_amount", hive "asset"); ("fee", hive "asset")]);
   ("proxy_cleared_operation",
      [("account", hafd "account_name_type"); ("proxy", hafd "account_name_type")]);
   ("declined_voting_rights_operation",
      [("account", hafd "account_name_type")]);
   ("void_t",
      [])].
(** The type of [asset_utils.sql]. *)
Definition declared_asset_types : list (string * list (string * declared)) :=
  [("asset_symbol_info",
      [("precision", builtin "int2"); ("nai", builtin "int4"); ("is_liquid", builtin "boolean");
       ("is_native", builtin "boolean")])].

(** The functions of [cast_functions.sql]: name, type of the result, symbol of the library. *)
Definition cast_functions : list (string * string * string) :=
  [("_operation_to_comment_operation",
     "comment_operation", "operation_to_comment_operation");
   ("_operation_to_comment_options_operation",
     "comment_options_operation", "operation_to_comment_options_operation");
   ("_operation_to_vote_operation",
     "vote_operation", "operation_to_vote_operation");
   ("_operation_to_witness_set_properties_operation",
     "witness_set_properties_operation", "operation_to_witness_set_properties_operation");
   ("_operation_to_account_create_operation",
     "account_create_operation", "operation_to_account_create_operation");
   ("_operation_to_account_create_with_delegation_operation",
     "account_create_with_delegation_operation", "operation_to_account_create_with_delegation_operation");
   ("_operation_to_account_update2_operation",
     "account_update2_operation", "operation_to_account_update2_operation");
   ("_operation_to_account_update_operation",
     "account_update_operation", "operation_to_account_update_operation");
   ("_operation_to_account_witness_proxy_operation",
     "account_witness_proxy_operation", "operation_to_account_witness_proxy_operation");
   ("_operation_to_account_witness_vote_operation",
     "account_witness_vote_operation", "operation_to_account_witness_vote_operation");
   ("_operation_to_cancel_transfer_from_savings_operation",
     "cancel_transfer_from_savings_operation", "operation_to_cancel_transfer_from_savings_operation");
   ("_operation_to_change_recovery_account_operation",
     "change_recovery_account_operation", "operation_to_change_recovery_account_operation");
   ("_operation_to_claim_account_operation",
     "claim_account_operation", "operation_to_claim_account_operation");
   ("_operation_to_claim_reward_balance_operation",
     "claim_reward_balance_operation", "operation_to_claim_reward_balance_operation");
   ("_operation_to_collateralized_convert_operation",
     "collateralized_convert_operation", "operation_to_collateralized_convert_operation");
   ("_operation_to_convert_operation",
     "convert_operation", "operation_to_convert_operation");
   ("_operation_to_create_claimed_account_operation",
     "create_claimed_account_operation", "operation_to_create_claimed_account_operation");
   ("_operation_to_custom_binary_operation",
     "custom_binary_operation", "operation_to_custom_binary_operation");
   ("_operation_to_custom_json_operation",
     "custom_json_operation", "operation_to_custom_json_operation");
   ("_operation_to_custom_operation",
     "custom_operation", "operation_to_custom_operation");
   ("_operation_to_decline_voting_rights_operation",
     "decline_voting_rights_operation", "operation_to_decline_voting_rights_operation");
   ("_operation_to_delegate_vesting_shares_operation",
     "delegate_vesting_shares_operation", "operation_to_delegate_vesting_shares_operation");
   ("_operation_to_delete_comment_operation",
     "delete_comment_operation", "operation_to_delete_comment_operation");
   ("_operation_to_escrow_approve_operation",
     "escrow_approve_operation", "operation_to_escrow_approve_operation");
   ("_operation_to_escrow_dispute_operation",
     "escrow_dispute_operation", "operation_to_escrow_dispute_operation");
   ("_operation_to_escrow_release_operation",
     "escrow_release_operation", "operation_to_escrow_release_operation");
   ("_operation_to_escrow_transfer_operation",
     "escrow_transfer_operation", "operation_to_escrow_transfer_operation");
   ("_operation_to_feed_publish_operation",
     "feed_publish_operation", "operation_to_feed_publish_operation");
   ("_operation_to_limit_order_cancel_operation",
     "limit_order_cancel_operation", "operation_to_limit_order_cancel_operation");
   ("_operation_to_limit_order_create2_operation",
     "limit_order_create2_operation", "operation_to_limit_order_create2_operation");
   ("_operation_to_limit_order_create_operation",
     "limit_order_create_operation", "operation_to_limit_order_create_operation");
   ("_operation_to_pow2_operation",
     "pow2_operation", "operation_to_pow2_operation");
   ("_operation_to_pow_operation",
     "pow_operation", "operation_to_pow_operation");
   ("_operation_to_recover_account_operation",
     "recover_account_operation", "operation_to_recover_account_operation");
   ("_operation_to_recurrent_transfer_operation",
     "recurrent_transfer_operation", "operation_to_recurrent_transfer_operation");
   ("_operation_to_request_account_recovery_operation",
     "request_account_recovery_operation", "operation_to_request_account_recovery_operation");
   ("_operation_to_reset_account_operation",
     "reset_account_operation", "operation_to_reset_account_operation");
   ("_operation_to_set_reset_account_operation",
     "set_reset_account_operation", "operation_to_set_reset_account_operation");
   ("_operation_to_set_withdraw_vesting_route_operation",
     "set_withdraw_vesting_route_operation", "operation_to_set_withdraw_vesting_route_operation");
   ("_operation_to_transfer_from_savings_operation",
     "transfer_from_savings_operation", "operation_to_transfer_from_savings_operation");
   ("_operation_to_transfer_operation",
     "transfer_operation", "operation_to_transfer_operation");
   ("_operation_to_transfer_to_savings_operation",
     "transfer_to_savings_operation", "operation_to_transfer_to_savings_operation");
   ("_operation_to_transfer_to_vesting_operation",
     "transfer_to_vesting_operation", "operation_to_transfer_to_vesting_operation");
   ("_operation_to_withdraw_vesting_operation",
     "withdraw_vesting_operation", "operation_to_withdraw_vesting_operation");
   ("_operation_to_witness_update_operation",
     "witness_update_operation", "operation_to_witness_update_operation");
   ("_operation_to_create_proposal_operation",
     "create_proposal_operation", "operation_to_create_proposal_operation");
   ("_operation_to_proposal_pay_operation",
     "proposal_pay_operation", "operation_to_proposal_pay_operation");
   ("_operation_to_remove_proposal_operation",
     "remove_proposal_operation", "operation_to_remove_proposal_operation");
   ("_operation_to_update_proposal_operation",
     "update_proposal_operation", "operation_to_update_proposal_operation");
   ("_operation_to_update_proposal_votes_operation",
     "update_proposal_votes_operation", "operation_to_update_proposal_votes_operation");
   ("_operation_to_account_created_operation",
     "account_created_operation", "operation_to_account_created_operation");
   ("_operation_to_author_reward_operation",
     "author_reward_operation", "operation_to_author_reward_operation");
   ("_operation_to_changed_recovery_account_operation",
     "changed_recovery_account_operation", "operation_to_changed_recovery_account_operation");
   ("_operation_to_clear_null_account_balance_operation",
     "clear_null_account_balance_operation", "operation_to_clear_null_account_balance_operation");
   ("_operation_to_comment_benefactor_reward_operation",
     "comment_benefactor_reward_operation", "operation_to_comment_benefactor_reward_operation");
   ("_operation_to_comment_payout_update_operation",
     "comment_payout_update_operation", "operation_to_comment_payout_update_operation");
   ("_operation_to_comment_reward_operation",
     "comment_reward_operation", "operation_to_comment_reward_operation");
   ("_operation_to_consolidate_treasury_balance_operation",
     "consolidate_treasury_balance_operation", "operation_to_consolidate_treasury_balance_operation");
   ("_operation_to_curation_reward_operation",
     "curation_reward_operation", "operation_to_curation_reward_operation");
   ("_operation_to_delayed_voting_operation",
     "delayed_voting_operation", "operation_to_delayed_voting_operation");
   ("_operation_to_effective_comment_vote_operation",
     "effective_comment_vote_operation", "operation_to_effective_comment_vote_operation");
   ("_operation_to_expired_account_notification_operation",
     "expired_account_notification_operation", "operation_to_expired_account_notification_operation");
   ("_operation_to_failed_recurrent_transfer_operation",
     "failed_recurrent_transfer_operation", "operation_to_failed_recurrent_transfer_operation");
   ("_operation_to_fill_collateralized_convert_request_operation",
     "fill_collateralized_convert_request_operation", "operation_to_fill_collateralized_convert_request_operation");
   ("_operation_to_fill_convert_request_operation",
     "fill_convert_request_operation", "operation_to_fill_convert_request_operation");
   ("_operation_to_fill_order_operation",
     "fill_order_operation", "operation_to_fill_order_operation");
   ("_operation_to_fill_recurrent_transfer_operation",
     "fill_recurrent_transfer_operation", "operation_to_fill_recurrent_transfer_operation");
   ("_operation_to_fill_transfer_from_savings_operation",
     "fill_transfer_from_savings_operation", "operation_to_fill_transfer_from_savings_operation");
   ("_operation_to_fill_vesting_withdraw_operation",
     "fill_vesting_withdraw_operation", "operation_to_fill_vesting_withdraw_operation");
   ("_operation_to_hardfork_hive_operation",
     "hardfork_hive_operation", "operation_to_hardfork_hive_operation");
   ("_operation_to_hardfork_hive_restore_operation",
     "hardfork_hive_restore_operation", "operation_to_hardfork_hive_restore_operation");
   ("_operation_to_hardfork_operation",
     "hardfork_operation", "operation_to_hardfork_operation");
   ("_operation_to_ineffective_delete_comment_operation",
     "ineffective_delete_comment_operation", "operation_to_ineffective_delete_comment_operation");
   ("_operation_to_interest_operation",
     "interest_operation", "operation_to_interest_operation");
   ("_operation_to_limit_order_cancelled_operation",
     "limit_order_cancelled_operation", "operation_to_limit_order_cancelled_operation");
   ("_operation_to_liquidity_reward_operation",
     "liquidity_reward_operation", "operation_to_liquidity_reward_operation");
   ("_operation_to_pow_reward_operation",
     "pow_reward_operation", "operation_to_pow_reward_operation");
   ("_operation_to_producer_reward_operation",
     "producer_reward_operation", "operation_to_producer_reward_operation");
   ("_operation_to_return_vesting_delegation_operation",
     "return_vesting_delegation_operation", "operation_to_return_vesting_delegation_operation");
   ("_operation_to_shutdown_witness_operation",
     "shutdown_witness_operation", "operation_to_shutdown_witness_operation");
   ("_operation_to_system_warning_operation",
     "system_warning_operation", "operation_to_system_warning_operation");
   ("_operation_to_transfer_to_vesting_completed_operation",
     "transfer_to_vesting_completed_operation", "operation_to_transfer_to_vesting_completed_operation");
   ("_operation_to_vesting_shares_split_operation",
     "vesting_shares_split_operation", "operation_to_vesting_shares_split_operation");
   ("_operation_to_witness_block_approve_operation",
     "witness_block_approve_operation", "operation_to_witness_block_approve_operation");
   ("_operation_to_dhf_funding_operation",
     "dhf_funding_operation", "operation_to_dhf_funding_operation");
   ("_operation_to_dhf_conversion_operation",
     "dhf_conversion_operation", "operation_to_dhf_conversion_operation");
   ("_operation_to_producer_missed_operation",
     "producer_missed_operation", "operation_to_producer_missed_operation");
   ("_operation_to_proposal_fee_operation",
     "proposal_fee_operation", "operation_to_proposal_fee_operation");
   ("_operation_to_collateralized_convert_immediate_conversion_operation",
     "collateralized_convert_immediate_conversion_operation", "operation_to_collateralized_convert_immediate_conversion_operation");
   ("_operation_to_escrow_approved_operation",
     "escrow_approved_operation", "operation_to_escrow_approved_operation");
   ("_operation_to_escrow_rejected_operation",
     "escrow_rejected_operation", "operation_to_escrow_rejected_operation");
   ("_operation_to_proxy_cleared_operation",
     "proxy_cleared_operation", "operation_to_proxy_cleared_operation");
   ("_operation_to_declined_voting_rights_operation",
     "declined_voting_rights_operation", "operation_to_declined_voting_rights_operation")].

(** ** Names *)

Fixpoint lookup_name {K V} `{EqDecision K} (k : K) (l : list (K * V)) : option V :=
  match l with
  | [] => None
  | (k', v) :: l' => if decide (k = k') then Some v else lookup_name k l'
  end.

Definition builtin_types : list (string * sql_type) :=
  [("boolean", sql_bool); ("int2", sql_int2); ("int4", sql_int4); ("int8", sql_int8);
   ("numeric", sql_numeric); ("text", sql_text); ("varchar", sql_text); ("bytea", sql_bytea);
   ("timestamp", sql_timestamp)].

Definition composite_types : list (string * list (string * declared)) :=
  (declared_types ++ declared_virtual_types ++ declared_asset_types)%list.

(** The base type a name stands for; the domains here are over built-in types and arrays. *)
Definition type_of_name (ns name : string) : option sql_type :=
  if decide (ns = "pg_catalog") then lookup_name name builtin_types
  else match lookup_name (ns, name) declared_domains with
  | Some (named "pg_catalog" base) => lookup_name base builtin_types
  | Some (named _ _) => None
  | Some (array_of ens ename) => Some (sql_array ens ename)
  | None =>
      if decide (ns = "hive") then _ ← lookup_name name composite_types; Some (sql_row name) else None
  end.

Definition resolve (d : declared) : option sql_type :=
  match d with named ns n => type_of_name ns n | array_of ns n => Some (sql_array ns n) end.

Definition resolve_attributes (attributes : list (string * declared)) : option (list (string * sql_type)) :=
  mapM (fun a => t ← resolve a.2; Some (a.1, t)) attributes.

(** The qualified names of the composite types with their resolved attributes. *)
Definition relations : list (string * list (string * sql_type)) :=
  omap (fun c => attributes ← resolve_attributes c.2; Some ("hive." ++ c.1, attributes)) composite_types.

#[global] Instance hive_catalog : Catalog :=
  {| tuple_desc := fun relname => lookup_name relname relations; pg_type := type_of_name |}.

(** Every declaration refers to types that are declared, and every array has elements of a
    declared type. *)
Definition element_declared (t : sql_type) : bool :=
  match t with
  | sql_array ns n => bool_decide (is_Some (type_of_name ns n))
  | sql_row n => bool_decide (is_Some (lookup_name n composite_types))
  | _ => true
  end.

Lemma declarations_resolve :
  length relations = length composite_types /\
  forallb (fun r => forallb (fun a => element_declared a.2) r.2) relations = true /\
  NoDup (composite_types.*1).
Proof. vm_compute. split_and!; [done..|]. apply (bool_decide_unpack _). by vm_compute. Qed.
