(* ===== verification/CompositeTypes.v ===== *)
(** * Operations as composite SQL types ([operation_types.cpp])

    The casts of [hafd.operation] to the composite type of an operation.  The overloads of
    [to_datum] are a function on descriptions of the C++ types; a structure is converted
    member by member by the visitor that [fc::reflector] calls, a container to an array, a
    set of extensions to a row with one attribute per kind of extension.

    Datums are kept as the server passes them: a 64-bit word for a type passed by value, a
    pointer to the data otherwise. *)

From S2P Require Import Prelude Text WitnessProperties Jsonb OperationType SqlCatalog.
From Stdlib Require Import ZArith Lia Ascii String.
From stdpp Require Import base list strings.

Open Scope Z_scope.

(** ** Types of C++ *)

Inductive cty :=
| CBool
| CUInt8 | CUInt16 | CInt16 | CUInt32 | CUInt64 | CInt64
| CString
| CJsonString
| CAccountName
| CFixedString (size : nat)
| CPublicKey
| CRipemd160 | CSha256
| CTime
| CBytes                                            (* std::vector< char > *)
| CArray (n : nat)                                  (* fc::array *)
| CSafe (t : cty)
| COptional (t : cty)
| CVector (t : cty)                                 (* and the flat maps, whose elements are pairs *)
| CFlatSet (t : cty)
| CFlatSetEx (t : cty)
| CStringPair | CAccountAuth | CKeyAuth             (* std::pair *)
| CAsset
| CLegacyHiveAsset
| CTinyAsset
| CPrice
| CFutureExtensions
| CRecurrentTransferPairId
| CRecurrentTransferExtensions
| CCommentOptionsExtensions (beneficiaries : cty)
| CPow2Work (pow2 equihash_pow : cty)
| CUpdateProposalExtensions (end_date : cty)
| CWitnessSetProperties
| CStruct (name : string) (members : list (string * cty)).

Class Composites {P : Protocol} := {
  tiny_asset : Type;
  tiny_to_asset : tiny_asset -> asset symbol;
  timestamp_in : chars -> cxx Z;                    (* microseconds, or the server's error *)
  unpack_to_json : property_type -> bytes -> cxx chars;
  wsp_member_count : nat;         (* fc::reflector< witness_set_properties_operation > *)
  get_typename : cty -> string                      (* of the types that are not structures *)
}.

Section cdenote.
  Context {P : Protocol} {C : Composites}.

Definition cmembers (D : cty -> Type) : list (string * cty) -> Type :=
  fix go ms := match ms with [] => unit | (_, t) :: ms' => (D t * go ms')%type end.

Abbreviation account_name := (text_value (fixed_string 16)).

(** [None] in a set of extensions is [hive::void_t]. *)
Fixpoint cdenote (t : cty) : Type :=
  match t with
  | CBool => bool
  | CUInt8 | CUInt16 | CInt16 | CUInt32 | CUInt64 | CInt64 => Z
  | CString | CJsonString => chars
  | CAccountName => account_name
  | CFixedString n => text_value (fixed_string n)
  | CPublicKey => text_value public_key_type
  | CRipemd160 | CSha256 | CBytes | CArray _ => bytes
  | CTime => text_value time_point_sec
  | CSafe t => cdenote t
  | COptional t => option (cdenote t)
  | CVector t | CFlatSet t | CFlatSetEx t => list (cdenote t)
  | CStringPair => (chars * chars)%type
  | CAccountAuth => (account_name * Z)%type
  | CKeyAuth => (text_value public_key_type * Z)%type
  | CAsset => asset symbol
  | CLegacyHiveAsset => legacy_hive_asset
  | CTinyAsset => tiny_asset
  | CPrice => (asset symbol * asset symbol)%type
  | CFutureExtensions => unit
  | CRecurrentTransferPairId => Z
  | CRecurrentTransferExtensions => list (option Z)
  | CCommentOptionsExtensions b => list (cdenote b)
  | CPow2Work p e => (cdenote p + cdenote e)%type
  | CUpdateProposalExtensions e => list (option (cdenote e))
  | CWitnessSetProperties => (account_name * list (chars * bytes) * list unit)%type
  | CStruct _ ms => cmembers cdenote ms
  end.

End cdenote.

(** ** Datums *)

Inductive datum {numeric : Type} :=
| word (w : Z)
| varlena (b : chars)                               (* text, varchar, bytea *)
| numeric_datum (n : numeric)
| tuple_datum (type_name : string) (attributes : list (option datum))
| array_datum (namespace_name type_name : string) (elements : list datum)
| indeterminate.
Arguments datum : clear implicits.

Definition BoolGetDatum (b : bool) : Z := if b then 1 else 0.
Definition UInt16GetDatum (z : Z) : Z := wrap_u 16 z.
Definition Int16GetDatum (z : Z) : Z := u64 (i16 z).
Definition Int32GetDatum (z : Z) : Z := u64 (i32 z).
Definition UInt32GetDatum (z : Z) : Z := u32 z.
Definition Int64GetDatum (z : Z) : Z := u64 (i64 z).

Section to_datum.
  Context {P : Protocol} {C : Composites} {J : Server} {K : Catalog}.

  Abbreviation Datum := (datum numeric).

(** [CStringGetTextDatum( s.c_str() )] *)
Definition text_datum (s : chars) : Datum := varlena (pstrdup_truncate_nul s).

Definition hive_relation (name : string) : string := ("hive." ++ name)%string.

Definition RelationNameGetTupleDesc (relname : string) : cxx (list (string * sql_type)) :=
  match tuple_desc relname with
  | Some desc => returns desc
  | None => longjmps ERRCODE_UNDEFINED_TABLE (lit "relation does not exist")
  end.

(** The server reads one value and one flag per attribute of the descriptor. *)
Definition heap_form_tuple (type_name : string) (desc : list (string * sql_type))
    (values : list Datum) (nulls : list bool) : Datum :=
  tuple_datum type_name
    (map (fun i => if default false (nulls !! i) then None else Some (default indeterminate (values !! i)))
       (seq 0 (length desc))).

(** *** Arrays *)

Definition sql_namespace_and_type_name_from_type (t : cty) : string * string :=
  match t with
  | CFutureExtensions => ("hive", "hive_future_extensions")
  | CAccountName => ("hafd", "account_name_type")
  | CUInt32 | CInt64 => ("pg_catalog", "int8")
  | CStringPair => ("hive", "witness_property")
  | CAccountAuth => ("hive", "account_auth")
  | CKeyAuth => ("hive", "key_auth")
  | CStruct name _ => ("hive", name)
  | _ => ("hive", get_typename t)
  end%string.

Definition make_sql_array (elements : list Datum) (namespace_name type_name : string) : cxx Datum :=
  match pg_type namespace_name type_name with
  | Some _ => returns (array_datum namespace_name type_name elements)
  | None => longjmps ERRCODE_DATA_EXCEPTION (lit "could not determine data type of input")
  end.

Fixpoint transform {A B} (f : A -> cxx B) (l : list A) : cxx (list B) :=
  match l with
  | [] => returns []
  | a :: l' => b ← f a; bs ← transform f l'; returns (b :: bs)
  end.

Definition to_sql_array {A} (t : cty) (f : A -> cxx Datum) (l : list A) : cxx Datum :=
  let '(namespace_name, type_name) := sql_namespace_and_type_name_from_type t in
  elements ← transform f l;
  make_sql_array elements namespace_name type_name.

(** *** Rows written by hand *)

Definition asset_to_datum (a : asset symbol) : cxx Datum :=
  desc ← RelationNameGetTupleDesc "hive.asset";
  returns (heap_form_tuple "asset" desc
    [word (Int64GetDatum (amount a)); word (Int16GetDatum (decimals (asset_symbol a)));
     text_datum (to_nai_string (asset_symbol a))]
    [false; false; false]).

Definition price_to_datum (p : asset symbol * asset symbol) : cxx Datum :=
  desc ← RelationNameGetTupleDesc "hive.price";
  base ← asset_to_datum p.1;
  quote ← asset_to_datum p.2;
  returns (heap_form_tuple "price" desc [base; quote] [false; false]).

Definition string_pair_to_datum (value : chars * chars) : cxx Datum :=
  desc ← RelationNameGetTupleDesc "hive.witness_property";
  returns (heap_form_tuple "witness_property" desc [text_datum value.1; text_datum value.2] [false; false]).

Definition account_auth_to_datum (value : text_value (fixed_string 16) * Z) : cxx Datum :=
  desc ← RelationNameGetTupleDesc "hive.account_auth";
  returns (heap_form_tuple "account_auth" desc
    [text_datum (text_of _ value.1); word (Int32GetDatum value.2)] [false; false]).

Definition key_auth_to_datum (value : text_value public_key_type * Z) : cxx Datum :=
  desc ← RelationNameGetTupleDesc "hive.key_auth";
  returns (heap_form_tuple "key_auth" desc
    [text_datum (text_of _ value.1); word (Int32GetDatum value.2)] [false; false]).

Definition future_extensions_to_datum (extensions : unit) : cxx Datum :=
  desc ← RelationNameGetTupleDesc "hive.void_t";
  returns (heap_form_tuple "void_t" desc [] []).

Definition recurrent_transfer_pair_id_to_datum (pair_id : Z) : cxx Datum :=
  desc ← RelationNameGetTupleDesc "hive.recurrent_transfer_pair_id";
  returns (heap_form_tuple "recurrent_transfer_pair_id" desc [word (Int16GetDatum pair_id)] [false]).

(** The loops over extensions: a visitor writes the slot of the extension it is called with. *)
Definition slots : Type := list Datum * list bool.

Definition set_slot (s : slots) (i : nat) (d : Datum) : slots :=
  (<[i := d]> s.1, <[i := false]> s.2).

Fixpoint visit_extensions {A} (visit : slots -> A -> cxx slots) (s : slots) (extensions : list A) : cxx slots :=
  match extensions with
  | [] => returns s
  | extension :: extensions' => s ← visit s extension; visit_extensions visit s extensions'
  end.

Definition recurrent_transfer_extensions_visitor (s : slots) (extension : option Z) : cxx slots :=
  match extension with
  | Some id => d ← recurrent_transfer_pair_id_to_datum id; returns (set_slot s 0 d)
  | None => returns s
  end.

Definition recurrent_transfer_extensions_to_datum (extensions : list (option Z)) : cxx Datum :=
  desc ← RelationNameGetTupleDesc "hive.recurrent_transfer_extensions_type";
  s ← visit_extensions recurrent_transfer_extensions_visitor ([word 0], [true]) extensions;
  returns (heap_form_tuple "recurrent_transfer_extensions_type" desc s.1 s.2).

Definition comment_options_extensions_to_datum {A} (f : A -> cxx Datum) (extensions : list A) : cxx Datum :=
  desc ← RelationNameGetTupleDesc "hive.comment_options_extensions_type";
  s ← visit_extensions (fun s payout_beneficiaries => d ← f payout_beneficiaries; returns (set_slot s 0 d))
        ([word 0; word 0], [true; true]) extensions;
  returns (heap_form_tuple "comment_options_extensions_type" desc s.1 s.2).

Definition pow_visitor {A B} (f : A -> cxx Datum) (g : B -> cxx Datum) (s : slots) (work : A + B) : cxx slots :=
  match work with
  | inl pow2 => d ← f pow2; returns (set_slot s 0 d)
  | inr pow => d ← g pow; returns (set_slot s 1 d)
  end.

Definition pow2_work_to_datum {A B} (f : A -> cxx Datum) (g : B -> cxx Datum) (work : A + B) : cxx Datum :=
  desc ← RelationNameGetTupleDesc "hive.pow2_work";
  s ← pow_visitor f g ([word 0; word 0], [true; true]) work;
  returns (heap_form_tuple "pow2_work" desc s.1 s.2).

Definition update_proposal_extensions_visitor {A} (f : A -> cxx Datum) (s : slots) (extension : option A) :
    cxx slots :=
  match extension with
  | Some new_date => d ← f new_date; returns (set_slot s 0 d)
  | None => returns s
  end.

Definition update_proposal_extensions_to_datum {A} (f : A -> cxx Datum) (extensions : list (option A)) : cxx Datum :=
  desc ← RelationNameGetTupleDesc "hive.update_proposal_extensions_type";
  s ← visit_extensions (update_proposal_extensions_visitor f) ([word 0], [true]) extensions;
  returns (heap_form_tuple "update_proposal_extensions_type" desc s.1 s.2).

Definition mismatch (type_name : string) : chars :=
  lit "Fatal: mismatch between member count and tuple size for " ++ lit type_name ++ lit " type".

Definition witness_set_properties_to_datum
    (value : text_value (fixed_string 16) * list (chars * bytes) * list unit) : cxx Datum :=
  let '(owner, props, extensions) := value in
  desc ← RelationNameGetTupleDesc "hive.witness_set_properties_operation";
  if negb (wsp_member_count =? length desc)%nat then
    throws_fc (mismatch "witness_set_properties_operation")
  else if negb (wsp_member_count =? 3)%nat then
    throws_fc (lit "Fatal: member count mismatch in to_datum(witness_set_properties_operation)")
  else
    output ← extract_set_witness_properties_from_flat_map unpack_to_json [] props;
    props ← to_sql_array CStringPair string_pair_to_datum output;
    exts ← to_sql_array CFutureExtensions future_extensions_to_datum extensions;
    returns (heap_form_tuple "witness_set_properties_operation" desc
      [text_datum (text_of _ owner); props; exts] [false; false; false]).

(** *** Structures *)

(** [members_to_datum_visitor]: the arrays and the index it keeps. *)
Definition visit_member (s : slots * nat) (datum : option Datum) : slots * nat :=
  let '((values, nulls), i) := s in
  match datum with
  | Some d => ((<[i := d]> values, nulls), (i + 1)%nat)
  | None => ((<[i := word 0]> values, <[i := true]> nulls), (i + 1)%nat)
  end.

Definition members_to_datum (f : forall t, cdenote t -> cxx (option Datum)) :
    forall ms, cmembers cdenote ms -> slots * nat -> cxx (slots * nat) :=
  fix go ms := match ms with
  | [] => fun _ s => returns s
  | (_, t) :: ms' => fun v s => datum ← f t v.1; go ms' v.2 (visit_member s datum)
  end.

Definition struct_to_datum (f : forall t, cdenote t -> cxx (option Datum)) (type_name : string)
    (ms : list (string * cty)) (value : cmembers cdenote ms) : cxx Datum :=
  desc ← RelationNameGetTupleDesc (hive_relation type_name);
  let member_count := length ms in
  if negb (member_count =? length desc)%nat then throws_fc (mismatch type_name)
  else
    s ← members_to_datum f ms value
          ((replicate member_count indeterminate, replicate member_count false), O);
    returns (heap_form_tuple type_name desc s.1.1 s.1.2).

(** *** The overloads *)

(** The result of an overload that returns [Datum], not [std::optional< Datum >]. *)
Definition plain (m : cxx (option Datum)) : cxx Datum := d ← m; returns (default indeterminate d).
Definition valued (m : cxx Datum) : cxx (option Datum) := d ← m; returns (Some d).

Fixpoint to_datum (t : cty) : cdenote t -> cxx (option Datum) :=
  match t with
  | CBool => fun v => returns (Some (word (BoolGetDatum v)))
  | CUInt8 => fun v => returns (Some (word (UInt16GetDatum v)))
  | CUInt16 => fun v => returns (Some (word (Int32GetDatum v)))
  | CInt16 => fun v => returns (Some (word (UInt32GetDatum v)))
  | CUInt32 | CInt64 => fun v => returns (Some (word (Int64GetDatum v)))
  | CUInt64 => fun v => returns (Some (numeric_datum (numeric_in (dec v))))
  | CString => fun v => returns (Some (text_datum v))
  | CJsonString => fun v => returns (match v with [] => None | _ => Some (text_datum v) end)
  | CAccountName => fun v => returns (Some (text_datum (text_of (fixed_string 16) v)))
  | CFixedString n => fun v => returns (Some (text_datum (text_of (fixed_string n) v)))
  | CPublicKey => fun v => returns (Some (text_datum (text_of public_key_type v)))
  | CRipemd160 | CSha256 => fun v => returns (Some (text_datum (to_hex v)))
  | CTime => fun v =>
      z ← cxx_call_pg (timestamp_in (text_of time_point_sec v)); returns (Some (word (Int64GetDatum z)))
  | CBytes | CArray _ => fun v => returns (Some (varlena v))
  | CSafe t => to_datum t
  | COptional t => fun v => match v with Some value => to_datum t value | None => returns None end
  | CVector t | CFlatSet t | CFlatSetEx t => fun v =>
      valued (to_sql_array t (fun e => plain (to_datum t e)) v)
  | CStringPair => fun v => valued (string_pair_to_datum v)
  | CAccountAuth => fun v => valued (account_auth_to_datum v)
  | CKeyAuth => fun v => valued (key_auth_to_datum v)
  | CAsset => fun v => valued (asset_to_datum v)
  | CLegacyHiveAsset => fun v => valued (asset_to_datum (to_asset v))
  | CTinyAsset => fun v => valued (asset_to_datum (tiny_to_asset v))
  | CPrice => fun v => valued (price_to_datum v)
  | CFutureExtensions => fun v => valued (future_extensions_to_datum v)
  | CRecurrentTransferPairId => fun v => valued (recurrent_transfer_pair_id_to_datum v)
  | CRecurrentTransferExtensions => fun v => valued (recurrent_transfer_extensions_to_datum v)
  | CCommentOptionsExtensions b => fun v =>
      valued (comment_options_extensions_to_datum (fun x => plain (to_datum b x)) v)
  | CPow2Work p e => fun v =>
      valued (pow2_work_to_datum (fun x => plain (to_datum p x)) (fun x => plain (to_datum e x)) v)
  | CUpdateProposalExtensions e => fun v =>
      valued (update_proposal_extensions_to_datum (fun x => plain (to_datum e x)) v)
  | CWitnessSetProperties => fun v => valued (witness_set_properties_to_datum v)
  | CStruct name ms => fun v => valued (struct_to_datum to_datum name ms v)
  end.

End to_datum.
