(* ===== verification/CompositeValues.v ===== *)
(** * The values of composite SQL types

    How the server reads a datum at a SQL type ([read]), the value an object of C++ stands
    for in SQL ([sql_value_of]), and that the conversions of [CompositeTypes] implement it:
    the words, rows and arrays they form are read back as that value, and they fail only
    where the library or the server's input functions do. *)

From S2P Require Import Prelude Text WitnessProperties Jsonb OperationType SqlCatalog CompositeTypes.
From Stdlib Require Import ZArith Lia Ascii String.
From stdpp Require Import base list strings.

Open Scope Z_scope.

(** ** What the server reads *)

Inductive sql_value {numeric : Type} :=
| VNull
| VBool (b : bool)
| VInt (z : Z)
| VNumeric (n : numeric)
| VChars (s : chars)                                (* of text, varchar or bytea *)
| VTimestamp (z : Z)
| VRow (type_name : string) (attributes : list sql_value)
| VArray (namespace_name type_name : string) (elements : list sql_value).
Arguments sql_value : clear implicits.

Section read.
  Context {J : Server} {K : Catalog}.

  Abbreviation Datum := (datum numeric).
  Abbreviation value := (sql_value numeric).

(** Types whose data have the same representation: text and bytea are a length and bytes, and
    a row carries its own type, so that it is read at every type with the same attributes. *)
Definition same_layout (t u : sql_type) : bool :=
  match t, u with
  | (sql_text | sql_bytea), (sql_text | sql_bytea) => true
  | sql_row n, sql_row m => bool_decide (tuple_desc (hive_relation n) = tuple_desc (hive_relation m))
  | _, _ => bool_decide (t = u)
  end.

(** A word at a type passed by value: the bytes the type has are kept. *)
Definition read_word (w : Z) (t : sql_type) : option value :=
  match t with
  | sql_bool => Some (VBool (negb (wrap_u 8 w =? 0)))
  | sql_int2 => Some (VInt (i16 w))
  | sql_int4 => Some (VInt (i32 w))
  | sql_int8 => Some (VInt (i64 w))
  | sql_timestamp => Some (VTimestamp (i64 w))
  | _ => None
  end.

Definition read_attributes (r : Datum -> sql_type -> option value) :
    list (option Datum) -> list sql_type -> option (list value) :=
  fix go attributes types := match attributes, types with
  | [], [] => Some []
  | None :: attributes', _ :: types' => xs ← go attributes' types'; Some (VNull :: xs)
  | Some d :: attributes', t :: types' => x ← r d t; xs ← go attributes' types'; Some (x :: xs)
  | _, _ => None
  end.

Definition read_elements (r : Datum -> sql_type -> option value) (t : sql_type) :
    list Datum -> option (list value) :=
  fix go elements := match elements with
  | [] => Some []
  | d :: elements' => x ← r d t; xs ← go elements'; Some (x :: xs)
  end.

(** [None] when the datum is not a value of the type. *)
Fixpoint read (d : Datum) (t : sql_type) : option value :=
  match d, t with
  | word w, _ => read_word w t
  | varlena b, (sql_text | sql_bytea) => Some (VChars b)
  | numeric_datum n, sql_numeric => Some (VNumeric n)
  | tuple_datum n attributes, sql_row m =>
      if same_layout (sql_row n) (sql_row m) then
        desc ← tuple_desc (hive_relation n);
        xs ← read_attributes read attributes (desc.*2);
        Some (VRow n xs)
      else None
  | array_datum ns n elements, sql_array ns' n' =>
      if bool_decide (ns = ns' /\ n = n') then
        e ← pg_type ns n;
        xs ← read_elements read e elements;
        Some (VArray ns n xs)
      else None
  | _, _ => None
  end.

Definition read_null (d : option Datum) (t : sql_type) : option value :=
  match d with None => Some VNull | Some d => read d t end.

Lemma same_layout_refl t : same_layout t t = true.
Proof. destruct t; cbn; try done; by apply bool_decide_eq_true. Qed.

Lemma read_layout d t u x : same_layout t u = true -> read d t = Some x -> read d u = Some x.
Proof.
  destruct (decide (t = u)) as [->|Hne]; [done|].
  destruct t, u; cbn; try done; try (by intros H%bool_decide_eq_true_1; simplify_eq); destruct d; try done.
  intros H%bool_decide_eq_true_1. cbn. intros Hx. repeat case_bool_decide; congruence.
Qed.

Lemma read_attributes_layout attributes ts us xs :
  Forall2 (fun t u => same_layout t u = true) ts us ->
  read_attributes read attributes ts = Some xs -> read_attributes read attributes us = Some xs.
Proof.
  intros H. revert attributes xs. induction H as [|t u ts us Htu H IH]; intros [|[d|] ds] xs; cbn; try done.
  - destruct (read d t) as [x|] eqn:Hx; cbn; [|done]. rewrite (read_layout _ _ _ _ Htu Hx). cbn.
    destruct (read_attributes read ds ts) as [ys|] eqn:Hy; cbn; [|done]. by rewrite (IH _ _ Hy).
  - destruct (read_attributes read ds ts) as [ys|] eqn:Hy; cbn; [|done]. by rewrite (IH _ _ Hy).
Qed.

Lemma read_attributes_cons d ds t ts x xs :
  read_null d t = Some x -> read_attributes read ds ts = Some xs ->
  read_attributes read (d :: ds) (t :: ts) = Some (x :: xs).
Proof. destruct d as [d|]; cbn; [|intros [= <-]]; intros; simplify_option_eq; done. Qed.

Lemma read_elements_Forall2 t ds xs :
  Forall2 (fun d x => read d t = Some x) ds xs -> read_elements read t ds = Some xs.
Proof. induction 1 as [|d x ds xs Hd _ IH]; cbn; [done|]. by rewrite Hd, IH. Qed.

(** A value and its flag. *)
Definition attribute (d : Datum) (b : bool) : option Datum := if b then None else Some d.

Lemma heap_form_tuple_spec name desc (values : list Datum) nulls :
  length values = length desc -> length nulls = length desc ->
  heap_form_tuple name desc values nulls
  = tuple_datum name (zip_with attribute values nulls).
Proof.
  intros H1 H2. unfold heap_form_tuple. f_equal. apply list_eq. intros i.
  rewrite lookup_zip_with. destruct (decide (i < length desc)%nat) as [Hi|Hi].
  - destruct (lookup_lt_is_Some_2 values i) as [d Hd]; [lia|].
    destruct (lookup_lt_is_Some_2 nulls i) as [b Hb]; [lia|].
    change (map ?f ?l) with (f <$> l). rewrite list_lookup_fmap, lookup_seq_lt by done.
    cbn. by rewrite Hd, Hb.
  - change (map ?f ?l) with (f <$> l). rewrite list_lookup_fmap, lookup_seq_ge by lia.
    by rewrite (lookup_ge_None_2 values) by lia.
Qed.

End read.

(** ** The values the rows stand for *)

Section spec.
  Context {P : Protocol} {C : Composites} {J : Server} {K : Catalog}.

  Abbreviation value := (sql_value numeric).

(** The SQL type of the datum an overload produces. *)
Fixpoint sql_type_of (t : cty) : sql_type :=
  match t with
  | CBool => sql_bool
  | CUInt8 => sql_int2
  | CUInt16 | CInt16 => sql_int4
  | CUInt32 | CInt64 => sql_int8
  | CUInt64 => sql_numeric
  | CString | CJsonString | CAccountName | CFixedString _ | CPublicKey | CRipemd160 | CSha256 => sql_text
  | CTime => sql_timestamp
  | CBytes | CArray _ => sql_bytea
  | CSafe t | COptional t => sql_type_of t
  | CVector t | CFlatSet t | CFlatSetEx t =>
      let '(ns, n) := sql_namespace_and_type_name_from_type t in sql_array ns n
  | CStringPair => sql_row "witness_property"
  | CAccountAuth => sql_row "account_auth"
  | CKeyAuth => sql_row "key_auth"
  | CAsset | CLegacyHiveAsset | CTinyAsset => sql_row "asset"
  | CPrice => sql_row "price"
  | CFutureExtensions => sql_row "void_t"
  | CRecurrentTransferPairId => sql_row "recurrent_transfer_pair_id"
  | CRecurrentTransferExtensions => sql_row "recurrent_transfer_extensions_type"
  | CCommentOptionsExtensions _ => sql_row "comment_options_extensions_type"
  | CPow2Work _ _ => sql_row "pow2_work"
  | CUpdateProposalExtensions _ => sql_row "update_proposal_extensions_type"
  | CWitnessSetProperties => sql_row "witness_set_properties_operation"
  | CStruct name _ => sql_row name
  end.

(** The overloads that return [std::optional< Datum >]; they cannot be elements of an array. *)
Definition nullable (t : cty) : bool :=
  match t with CJsonString | CSafe _ | COptional _ => true | _ => false end.

(** The declaration of a row has attributes of the layout the code gives them. *)
Definition row_declared (name : string) (types : list sql_type) : bool :=
  match tuple_desc (hive_relation name) with
  | Some desc => bool_decide (Forall2 (fun t u => same_layout t u = true) types (desc.*2))
  | None => false
  end.

(** The declaration of the elements of an array. *)
Definition element_type_declared (t : cty) : bool :=
  let '(ns, n) := sql_namespace_and_type_name_from_type t in
  match pg_type ns n with Some e => same_layout (sql_type_of t) e | None => false end.

Definition asset_declared : bool := row_declared "asset" [sql_int8; sql_int2; sql_text].
Definition string_pair_declared : bool := row_declared "witness_property" [sql_text; sql_text].
Definition void_declared : bool := row_declared "void_t" [].
Definition pair_id_declared : bool := row_declared "recurrent_transfer_pair_id" [sql_int2].

(** The catalog fits a type: every row and array that converting it can form is declared
    with the types the code produces. *)
Fixpoint declared_in_catalog (t : cty) : bool :=
  match t with
  | CSafe t | COptional t => declared_in_catalog t
  | CVector t | CFlatSet t | CFlatSetEx t =>
      declared_in_catalog t && negb (nullable t) && element_type_declared t
  | CStringPair => string_pair_declared
  | CAccountAuth => row_declared "account_auth" [sql_text; sql_int4]
  | CKeyAuth => row_declared "key_auth" [sql_text; sql_int4]
  | CAsset | CLegacyHiveAsset | CTinyAsset => asset_declared
  | CPrice => row_declared "price" [sql_row "asset"; sql_row "asset"] && asset_declared
  | CFutureExtensions => void_declared
  | CRecurrentTransferPairId => pair_id_declared
  | CRecurrentTransferExtensions =>
      row_declared "recurrent_transfer_extensions_type" [sql_row "recurrent_transfer_pair_id"]
      && pair_id_declared
  | CCommentOptionsExtensions b =>
      declared_in_catalog b && negb (nullable b)
      && match tuple_desc "hive.comment_options_extensions_type" with
         | Some [(_, u); _] => same_layout (sql_type_of b) u
         | _ => false
         end
  | CPow2Work p e =>
      declared_in_catalog p && declared_in_catalog e && negb (nullable p) && negb (nullable e)
      && row_declared "pow2_work" [sql_type_of p; sql_type_of e]
  | CUpdateProposalExtensions e =>
      declared_in_catalog e && negb (nullable e)
      && row_declared "update_proposal_extensions_type" [sql_type_of e]
  | CWitnessSetProperties =>
      (wsp_member_count =? 3)%nat && string_pair_declared && void_declared
      && element_type_declared CStringPair && element_type_declared CFutureExtensions
      && row_declared "witness_set_properties_operation"
           [sql_text; sql_array "hive" "witness_property"; sql_array "hive" "hive_future_extensions"]
  | CStruct name ms =>
      forallb (fun m => declared_in_catalog m.2) ms
      && row_declared name (map (fun m => sql_type_of m.2) ms)
  | _ => true
  end.

(** *** Values *)

Definition chars_value (s : chars) : value := VChars (pstrdup_truncate_nul s).

Definition asset_value (a : asset symbol) : value :=
  VRow "asset" [VInt (amount a); VInt (decimals (asset_symbol a)); chars_value (to_nai_string (asset_symbol a))].

Definition string_pair_value (p : chars * chars) : value :=
  VRow "witness_property" [chars_value p.1; chars_value p.2].

Definition array_value (t : cty) (elements : list value) : value :=
  let '(ns, n) := sql_namespace_and_type_name_from_type t in VArray ns n elements.

(** The last extension of a kind, or null. *)
Definition last_or_null (l : list value) : value := default VNull (last l).

Definition members_value (f : forall t, cdenote t -> cxx value) :
    forall ms, cmembers cdenote ms -> cxx (list value) :=
  fix go ms := match ms with
  | [] => fun _ => returns []
  | (_, t) :: ms' => fun v => x ← f t v.1; xs ← go ms' v.2; returns (x :: xs)
  end.

(** The value of a C++ object in SQL, with the errors of the library and of the server's
    functions that its conversion calls. *)
Fixpoint sql_value_of (t : cty) : cdenote t -> cxx value :=
  match t with
  | CBool => fun v => returns (VBool v)
  | CUInt8 | CUInt16 | CInt16 | CUInt32 | CInt64 => fun v => returns (VInt v)
  | CUInt64 => fun v => returns (VNumeric (numeric_in (dec v)))
  | CString => fun v => returns (chars_value v)
  | CJsonString => fun v => returns (match v with [] => VNull | _ => chars_value v end)
  | CAccountName => fun v => returns (chars_value (text_of (fixed_string 16) v))
  | CFixedString n => fun v => returns (chars_value (text_of (fixed_string n) v))
  | CPublicKey => fun v => returns (chars_value (text_of public_key_type v))
  | CRipemd160 | CSha256 => fun v => returns (chars_value (to_hex v))
  | CTime => fun v => z ← cxx_call_pg (timestamp_in (text_of time_point_sec v)); returns (VTimestamp z)
  | CBytes | CArray _ => fun v => returns (VChars v)
  | CSafe t => sql_value_of t
  | COptional t => fun v => match v with Some a => sql_value_of t a | None => returns VNull end
  | CVector t | CFlatSet t | CFlatSetEx t => fun v =>
      xs ← transform (sql_value_of t) v; returns (array_value t xs)
  | CStringPair => fun v => returns (string_pair_value v)
  | CAccountAuth => fun v => returns (VRow "account_auth" [chars_value (text_of _ v.1); VInt v.2])
  | CKeyAuth => fun v => returns (VRow "key_auth" [chars_value (text_of _ v.1); VInt v.2])
  | CAsset => fun v => returns (asset_value v)
  | CLegacyHiveAsset => fun v => returns (asset_value (to_asset v))
  | CTinyAsset => fun v => returns (asset_value (tiny_to_asset v))
  | CPrice => fun v => returns (VRow "price" [asset_value v.1; asset_value v.2])
  | CFutureExtensions => fun _ => returns (VRow "void_t" [])
  | CRecurrentTransferPairId => fun v => returns (VRow "recurrent_transfer_pair_id" [VInt v])
  | CRecurrentTransferExtensions => fun v =>
      returns (VRow "recurrent_transfer_extensions_type"
        [last_or_null (map (fun id => VRow "recurrent_transfer_pair_id" [VInt id]) (omap id v))])
  | CCommentOptionsExtensions b => fun v =>
      xs ← transform (sql_value_of b) v;
      returns (VRow "comment_options_extensions_type" [last_or_null xs; VNull])
  | CPow2Work p e => fun v =>
      match v with
      | inl a => x ← sql_value_of p a; returns (VRow "pow2_work" [x; VNull])
      | inr a => x ← sql_value_of e a; returns (VRow "pow2_work" [VNull; x])
      end
  | CUpdateProposalExtensions e => fun v =>
      xs ← transform (sql_value_of e) (omap id v);
      returns (VRow "update_proposal_extensions_type" [last_or_null xs])
  | CWitnessSetProperties => fun v =>
      output ← extract_set_witness_properties_from_flat_map unpack_to_json [] v.1.2;
      returns (VRow "witness_set_properties_operation"
        [chars_value (text_of _ v.1.1); array_value CStringPair (map string_pair_value output);
         array_value CFutureExtensions (map (fun _ => VRow "void_t" []) v.2)])
  | CStruct name ms => fun v => xs ← members_value sql_value_of ms v; returns (VRow name xs)
  end.

(** Integers within the range of their C++ types. *)
Definition int64_range (z : Z) : Prop := - 2 ^ 63 <= z < 2 ^ 63.
Definition asset_range (a : asset symbol) : Prop := int64_range (amount a).

Definition members_range (f : forall t, cdenote t -> Prop) : forall ms, cmembers cdenote ms -> Prop :=
  fix go ms := match ms with
  | [] => fun _ => True
  | (_, t) :: ms' => fun v => f t v.1 /\ go ms' v.2
  end.

Definition if_present {A} (Q : A -> Prop) (o : option A) : Prop :=
  match o with Some a => Q a | None => True end.

Fixpoint in_range (t : cty) : cdenote t -> Prop :=
  match t with
  | CUInt8 | CRecurrentTransferPairId => fun v => 0 <= v < 2 ^ 8
  | CUInt16 => fun v => 0 <= v < 2 ^ 16
  | CInt16 => fun v => - 2 ^ 15 <= v < 2 ^ 15
  | CUInt32 => fun v => 0 <= v < 2 ^ 32
  | CUInt64 => fun v => 0 <= v < 2 ^ 64
  | CInt64 => int64_range
  | CSafe t => in_range t
  | COptional t => if_present (in_range t)
  | CVector t | CFlatSet t | CFlatSetEx t => Forall (in_range t)
  | CAccountAuth | CKeyAuth => fun v => 0 <= v.2 < 2 ^ 16
  | CAsset => asset_range
  | CLegacyHiveAsset => fun v => asset_range (to_asset v)
  | CTinyAsset => fun v => asset_range (tiny_to_asset v)
  | CPrice => fun v => asset_range v.1 /\ asset_range v.2
  | CRecurrentTransferExtensions => Forall (if_present (fun v => 0 <= v < 2 ^ 8))
  | CCommentOptionsExtensions b => Forall (in_range b)
  | CPow2Work p e => fun v => match v with inl a => in_range p a | inr a => in_range e a end
  | CUpdateProposalExtensions e => Forall (if_present (in_range e))
  | CStruct _ ms => members_range in_range ms
  | _ => fun _ => True
  end.

End spec.

(** What the library and the server document: the precision of a symbol is an 8-bit integer,
    a timestamp a 64-bit one. *)
Class CompositeLaws {P : Protocol} (C : Composites) := {
  decimals_range s : 0 <= decimals s < 2 ^ 8;
  timestamp_range s z : timestamp_in s = returns z -> int64_range z
}.

(** ** Two computations that end the same way *)

Definition agree {A B} (R : A -> B -> Prop) (m : cxx A) (s : cxx B) : Prop :=
  match m, s with
  | returns a, returns b => R a b
  | throws_fc x, throws_fc y | throws_std x, throws_std y => x = y
  | throws_other, throws_other => True
  | longjmps c x, longjmps c' y => c = c' /\ x = y
  | _, _ => False
  end.

Lemma agree_bind {A B A' B'} (R : A -> B -> Prop) (R' : A' -> B' -> Prop) m s f g :
  agree R m s -> (forall a b, R a b -> agree R' (f a) (g b)) -> agree R' (m ≫= f) (s ≫= g).
Proof. destruct m, s; cbn; try done. auto. Qed.

Lemma agree_returns {A B} (R : A -> B -> Prop) m b : agree R m (returns b) -> exists a, m = returns a /\ R a b.
Proof. destruct m; cbn; try done. eauto. Qed.

Lemma agree_refl {A} (m : cxx A) : agree eq m m.
Proof. by destruct m. Qed.

Lemma agree_impl {A B} (R R' : A -> B -> Prop) m s :
  agree R m s -> (forall a b, R a b -> R' a b) -> agree R' m s.
Proof. destruct m, s; cbn; auto. Qed.

Lemma agree_transform {A A' B B'} (R : B -> B' -> Prop) (f : A -> cxx B) (g : A' -> cxx B') l l' :
  Forall2 (fun a a' => agree R (f a) (g a')) l l' -> agree (Forall2 R) (transform f l) (transform g l').
Proof.
  induction 1 as [|a a' l l' H _ IH]; cbn; [by constructor|].
  eapply agree_bind; [exact H|]. intros b b' Hb.
  eapply agree_bind; [exact IH|]. intros bs bs' Hbs. by constructor.
Qed.

Section cty_nested_ind.
  Context (Q : cty -> Prop).
  Context (Hbase : forall t, (forall u, t <> CSafe u) -> (forall u, t <> COptional u) ->
    (forall u, t <> CVector u) -> (forall u, t <> CFlatSet u) -> (forall u, t <> CFlatSetEx u) ->
    (forall u, t <> CCommentOptionsExtensions u) -> (forall u w, t <> CPow2Work u w) ->
    (forall u, t <> CUpdateProposalExtensions u) -> (forall n ms, t <> CStruct n ms) -> Q t).
  Context (Hsafe : forall t, Q t -> Q (CSafe t)) (Hopt : forall t, Q t -> Q (COptional t)).
  Context (Hvec : forall t, Q t -> Q (CVector t)) (Hset : forall t, Q t -> Q (CFlatSet t)).
  Context (Hsetex : forall t, Q t -> Q (CFlatSetEx t)).
  Context (Hcomment : forall t, Q t -> Q (CCommentOptionsExtensions t)).
  Context (Hpow : forall t u, Q t -> Q u -> Q (CPow2Work t u)).
  Context (Hupdate : forall t, Q t -> Q (CUpdateProposalExtensions t)).
  Context (Hstruct : forall n ms, Forall (fun m => Q m.2) ms -> Q (CStruct n ms)).

Fixpoint cty_nested_ind (t : cty) : Q t.
Proof.
  destruct t as [ | | | | | | | | | | | | | | | | |t |t |t |t |t | | | | | | | | | | |b |p e |e | |name ms];
    try (apply Hbase; done); [apply Hsafe|apply Hopt|apply Hvec|apply Hset|apply Hsetex
    |apply Hcomment|apply Hpow|apply Hupdate|apply Hstruct]; try apply cty_nested_ind.
  induction ms as [|[n t] ms IH]; constructor; [apply cty_nested_ind|exact IH].
Defined.

End cty_nested_ind.

Section represents.
  Context {P : Protocol} {C : Composites} {L : CompositeLaws C} {J : Server} {K : Catalog}.

  Abbreviation Datum := (datum numeric).
  Abbreviation value := (sql_value numeric).

Definition reads (t : sql_type) (d : Datum) (x : value) : Prop := read d t = Some x.
Definition reads_null (t : sql_type) (d : option Datum) (x : value) : Prop := read_null d t = Some x.

(** *** Words *)

Lemma wrap_s_u64 w z : 0 < w -> w <= 64 -> wrap_s w (u64 z) = wrap_s w z.
Proof.
  intros H0 H1. unfold wrap_s, u64, wrap_u.
  assert (2 ^ 64 = 2 ^ (64 - w) * 2 ^ w) as E by (rewrite <- Z.pow_add_r by lia; f_equal; lia).
  rewrite (Z.mod_eq z (2 ^ 64)) by lia. rewrite E.
  replace (z - 2 ^ (64 - w) * 2 ^ w * (z / (2 ^ (64 - w) * 2 ^ w)) + 2 ^ (w - 1))
    with (z + 2 ^ (w - 1) + (- (2 ^ (64 - w) * (z / (2 ^ (64 - w) * 2 ^ w)))) * 2 ^ w) by ring.
  by rewrite Z_mod_plus_full.
Qed.

Lemma read_bool b : read_word (BoolGetDatum b) sql_bool = Some (VBool b : value).
Proof. by destruct b. Qed.

Lemma read_uint8 z : 0 <= z < 2 ^ 8 -> read_word (UInt16GetDatum z) sql_int2 = Some (VInt z : value).
Proof.
  intros H. cbn [read_word]. unfold UInt16GetDatum, i16.
  rewrite wrap_u_small by lia. by rewrite wrap_s_small by lia.
Qed.

Lemma read_uint16 z : 0 <= z < 2 ^ 16 -> read_word (Int32GetDatum z) sql_int4 = Some (VInt z : value).
Proof.
  intros H. cbn [read_word]. unfold Int32GetDatum, i32. rewrite wrap_s_u64 by lia.
  by rewrite !(wrap_s_small 32 z) by lia.
Qed.

Lemma read_int16 z : - 2 ^ 15 <= z < 2 ^ 15 -> read_word (UInt32GetDatum z) sql_int4 = Some (VInt z : value).
Proof.
  intros H. cbn [read_word]. unfold UInt32GetDatum, i32, u32, wrap_u, wrap_s. do 2 f_equal.
  rewrite Zplus_mod_idemp_l. fold (wrap_s 32 z). apply wrap_s_small; lia.
Qed.

Lemma read_int64 z : int64_range z -> read_word (Int64GetDatum z) sql_int8 = Some (VInt z : value).
Proof.
  unfold int64_range. intros H. cbn [read_word]. unfold Int64GetDatum, i64. rewrite wrap_s_u64 by lia.
  by rewrite !(wrap_s_small 64 z) by lia.
Qed.

Lemma read_small_int16 z : 0 <= z < 2 ^ 8 -> read_word (Int16GetDatum z) sql_int2 = Some (VInt z : value).
Proof.
  intros H. cbn [read_word]. unfold Int16GetDatum, i16. rewrite wrap_s_u64 by lia.
  by rewrite !(wrap_s_small 16 z) by lia.
Qed.

Lemma read_timestamp z : int64_range z -> read_word (Int64GetDatum z) sql_timestamp = Some (VTimestamp z : value).
Proof. intros H. pose proof (read_int64 z H) as E. cbn in *. congruence. Qed.

(** *** Rows *)

Lemma row_declared_desc name types :
  row_declared name types = true ->
  exists desc, tuple_desc (hive_relation name) = Some desc /\
    Forall2 (fun t u => same_layout t u = true) types (desc.*2).
Proof.
  unfold row_declared. destruct (tuple_desc (hive_relation name)) as [desc|]; [|done].
  intros H%bool_decide_eq_true_1. eauto.
Qed.

Lemma read_row name types (values : list Datum) nulls xs desc :
  tuple_desc (hive_relation name) = Some desc ->
  Forall2 (fun t u => same_layout t u = true) types (desc.*2) ->
  length values = length types -> length nulls = length types ->
  read_attributes read (zip_with attribute values nulls) types = Some xs ->
  reads (sql_row name) (heap_form_tuple name desc values nulls) (VRow name xs).
Proof.
  intros Hd Ht H1 H2 Hr. pose proof (Forall2_length _ _ _ Ht) as Hl. rewrite length_fmap in Hl.
  unfold reads. rewrite heap_form_tuple_spec by congruence. cbn [read].
  rewrite same_layout_refl, Hd. cbn. by rewrite (read_attributes_layout _ _ _ _ Ht Hr).
Qed.

(** The rows whose attributes are all there. *)
Lemma declared_row name types (f : list (string * sql_type) -> cxx Datum) (s : cxx value) :
  row_declared name types = true ->
  (forall desc, Forall2 (fun t u => same_layout t u = true) types (desc.*2) ->
     tuple_desc (hive_relation name) = Some desc -> agree (reads (sql_row name)) (f desc) s) ->
  agree (reads (sql_row name)) (RelationNameGetTupleDesc (hive_relation name) ≫= f) s.
Proof.
  intros (desc & Hd & Ht)%row_declared_desc Hf. unfold RelationNameGetTupleDesc. rewrite Hd. by apply Hf.
Qed.

Lemma read_text s : read_null (Some (text_datum s)) sql_text = Some (chars_value s).
Proof. done. Qed.

Lemma asset_represents a :
  asset_declared = true -> asset_range a -> agree (reads (sql_row "asset")) (asset_to_datum a) (returns (asset_value a)).
Proof.
  intros H Ha. eapply (declared_row "asset"); [exact H|]. intros desc Ht Hd. cbn [agree].
  eapply read_row; [done..|]. cbn [zip_with].
  eapply read_attributes_cons; [by apply read_int64|].
  eapply read_attributes_cons; [apply read_small_int16, decimals_range|].
  by eapply read_attributes_cons.
Qed.

Lemma string_pair_represents p :
  string_pair_declared = true ->
  agree (reads (sql_row "witness_property")) (string_pair_to_datum p) (returns (string_pair_value p)).
Proof.
  intros H. eapply (declared_row "witness_property"); [exact H|]. intros desc Ht Hd. cbn [agree].
  by eapply read_row.
Qed.

Lemma void_represents u :
  void_declared = true -> agree (reads (sql_row "void_t")) (future_extensions_to_datum u) (returns (VRow "void_t" [])).
Proof.
  intros H. eapply (declared_row "void_t"); [exact H|]. intros desc Ht Hd. cbn [agree]. by eapply read_row.
Qed.

Lemma pair_id_represents z :
  pair_id_declared = true -> 0 <= z < 2 ^ 8 ->
  agree (reads (sql_row "recurrent_transfer_pair_id")) (recurrent_transfer_pair_id_to_datum z)
    (returns (VRow "recurrent_transfer_pair_id" [VInt z])).
Proof.
  intros H Hz. eapply (declared_row "recurrent_transfer_pair_id"); [exact H|]. intros desc Ht Hd. cbn [agree].
  eapply read_row; [done..|]. cbn [zip_with]. eapply read_attributes_cons; [|done]. by apply read_small_int16.
Qed.

(** *** Arrays *)

Lemma array_represents {A B} t (f : A -> cxx Datum) (g : B -> cxx value) l l' :
  element_type_declared t = true ->
  Forall2 (fun a b => agree (reads (sql_type_of t)) (f a) (g b)) l l' ->
  agree (reads (sql_type_of (CVector t))) (to_sql_array t f l)
    (xs ← transform g l'; returns (array_value t xs)).
Proof.
  unfold element_type_declared, to_sql_array, array_value. cbn [sql_type_of].
  destruct (sql_namespace_and_type_name_from_type t) as [ns n].
  destruct (pg_type ns n) as [e|] eqn:He; [|done]. intros Hl H.
  eapply agree_bind; [by apply agree_transform|]. intros ds xs Hds.
  unfold make_sql_array. rewrite He. cbn [agree]. unfold reads. cbn [read].
  rewrite bool_decide_eq_true_2 by done. rewrite He. cbn.
  erewrite read_elements_Forall2; [done|].
  eapply Forall2_impl; [exact Hds|]. intros d x Hd. by eapply read_layout.
Qed.

(** *** Extensions *)

(** What the loop leaves: the slots as they were, or the first one holding the last value. *)
Definition first_slot (t : sql_type) (s : slots) (s' : slots) (xs : list value) : Prop :=
  match last xs with
  | None => s' = s
  | Some x => exists d, s' = set_slot s 0 d /\ reads t d x
  end.

Lemma set_slot_set_slot (s : slots) i (d d' : Datum) : set_slot (set_slot s i d) i d' = set_slot s i d'.
Proof. unfold set_slot. cbn. by rewrite !list_insert_insert_eq. Qed.

Lemma extensions_represent {A B} t (visit : slots -> A -> cxx slots) (pick : A -> option B)
    (f : B -> cxx Datum) (g : B -> cxx value) s l :
  (forall s a, visit s a = match pick a with
                           | Some b => d ← f b; returns (set_slot s 0 d)
                           | None => returns s
                           end) ->
  Forall (fun a => if_present (fun b => agree (reads t) (f b) (g b)) (pick a)) l ->
  agree (first_slot t s) (visit_extensions visit s l) (transform g (omap pick l)).
Proof.
  intros Hv H. revert s. induction H as [|a l Ha _ IH]; intros s; cbn; [done|].
  rewrite Hv. destruct (pick a) as [b|]; [|by apply IH]. cbn in Ha.
  cbn [transform]. destruct (f b) as [d| | | |], (g b) as [x| | | |]; cbn in Ha |- *; try done.
  specialize (IH (set_slot s 0 d)).
  destruct (visit_extensions visit (set_slot s 0 d) l) as [s'| | | |],
    (transform g (omap pick l)) as [xs| | | |]; cbn in IH |- *; try done.
  unfold first_slot in *. rewrite last_cons. destruct (last xs) as [y|].
  - destruct IH as (d' & -> & Hd'). exists d'. by rewrite set_slot_set_slot.
  - subst. by exists d.
Qed.

Lemma first_slot_read t s' xs :
  first_slot t ([word 0], [true]) s' xs ->
  length s'.1 = 1%nat /\ length s'.2 = 1%nat /\
  read_attributes read (zip_with attribute s'.1 s'.2) [t]
  = Some [last_or_null xs].
Proof.
  unfold first_slot, last_or_null. destruct (last xs) as [x|]; [|by intros ->].
  intros (d & -> & Hd). split_and!; [done..|]. cbn. by rewrite Hd.
Qed.

Lemma first_of_two_slots_read t u s' xs :
  first_slot t ([word 0; word 0], [true; true]) s' xs ->
  length s'.1 = 2%nat /\ length s'.2 = 2%nat /\
  read_attributes read (zip_with attribute s'.1 s'.2) [t; u]
  = Some [last_or_null xs; VNull].
Proof.
  unfold first_slot, last_or_null. destruct (last xs) as [x|]; [|by intros ->].
  intros (d & -> & Hd). split_and!; [done..|]. cbn. by rewrite Hd.
Qed.

(** *** Members *)

(** What the arrays hold when the visitor has written some of the members. *)
Lemma visit_member_spec (written : list (option Datum)) values nulls (o : option Datum) k :
  length values = length written -> length nulls = length written ->
  zip_with attribute values nulls = written ->
  exists values' nulls',
    visit_member ((values ++ replicate (S k) indeterminate, nulls ++ replicate (S k) false), length written) o
    = ((values' ++ replicate k indeterminate, nulls' ++ replicate k false), length (written ++ [o])) /\
    length values' = length (written ++ [o]) /\ length nulls' = length (written ++ [o]) /\
    zip_with attribute values' nulls' = written ++ [o].
Proof.
  intros H1 H2 Hz. rewrite length_app. cbn [length].
  assert (forall d : Datum, <[length written := d]> (values ++ replicate (S k) indeterminate)
      = (values ++ [d]) ++ replicate k indeterminate) as Ev.
  { intros d. rewrite <- H1, insert_app_r_alt by lia. rewrite Nat.sub_diag. cbn. by rewrite <- app_assoc. }
  assert (forall b, <[length written := b]> (nulls ++ replicate (S k) false)
      = (nulls ++ [b]) ++ replicate k false) as En.
  { intros b. rewrite <- H2, insert_app_r_alt by lia. rewrite Nat.sub_diag. cbn. by rewrite <- app_assoc. }
  destruct o as [d|].
  - exists (values ++ [d]), (nulls ++ [false]). unfold visit_member. rewrite Ev.
    replace (nulls ++ replicate (S k) false) with ((nulls ++ [false]) ++ replicate k false)
      by (cbn; by rewrite <- app_assoc).
    rewrite !length_app, zip_with_app by congruence. rewrite Hz, H1, H2. done.
  - exists (values ++ [word 0]), (nulls ++ [true]). unfold visit_member. rewrite Ev, En.
    rewrite !length_app, zip_with_app by congruence. rewrite Hz, H1, H2. done.
Qed.

Lemma members_represent f g ms v written values nulls :
  members_range (fun t a => agree (reads_null (sql_type_of t)) (f t a) (g t a)) ms v ->
  length values = length written -> length nulls = length written ->
  zip_with attribute values nulls = written ->
  agree (fun (s : slots * nat) xs => exists ds,
           zip_with attribute s.1.1 s.1.2 = written ++ ds /\
           length s.1.1 = (length written + length ms)%nat /\ length s.1.2 = (length written + length ms)%nat /\
           read_attributes read ds (map (fun m => sql_type_of m.2) ms) = Some xs)
    (members_to_datum f ms v
       ((values ++ replicate (length ms) indeterminate, nulls ++ replicate (length ms) false), length written))
    (members_value g ms v).
Proof.
  revert v written values nulls. induction ms as [|[name t] ms IH]; intros v written values nulls H H1 H2 Hz.
  - cbn. exists []. rewrite !app_nil_r. split_and!; [done|lia|lia|done].
  - destruct H as [Ha Hms]. cbn [members_to_datum members_value].
    eapply agree_bind; [exact Ha|]. intros o x Ho.
    destruct (visit_member_spec written values nulls o (length ms) H1 H2 Hz)
      as (values' & nulls' & E & H1' & H2' & Hz').
    cbn [length]. rewrite E. specialize (IH v.2 _ _ _ Hms H1' H2' Hz').
    destruct (members_to_datum _ _ _ _) as [s| | | |], (members_value _ _ _) as [xs| | | |];
      cbn in IH |- *; try done.
    destruct IH as (ds & Hs & Hl1 & Hl2 & Hr). rewrite length_app in Hl1, Hl2. cbn in Hl1, Hl2.
    exists (o :: ds). rewrite <- app_assoc in Hs. split_and!; [done|lia|lia|]. by eapply read_attributes_cons.
Qed.

Lemma struct_represents f g name ms v :
  row_declared name (map (fun m => sql_type_of m.2) ms) = true ->
  members_range (fun t a => agree (reads_null (sql_type_of t)) (f t a) (g t a)) ms v ->
  agree (reads (sql_row name)) (struct_to_datum f name ms v) (xs ← members_value g ms v; returns (VRow name xs)).
Proof.
  intros Hrow Hms. eapply declared_row; [exact Hrow|]. intros desc Ht Hd.
  pose proof (Forall2_length _ _ _ Ht) as Hl. rewrite length_map, length_fmap in Hl.
  cbv beta zeta. rewrite (proj2 (Nat.eqb_eq _ _) Hl). cbn [negb].
  eapply agree_bind; [apply (members_represent f g ms v [] [] [] Hms); done|].
  intros s xs (ds & Hs & H1 & H2 & Hr). cbn [agree].
  eapply read_row; [done|exact Ht|by rewrite length_map..|].
  etrans; [|exact Hr]. f_equal. exact Hs.
Qed.

(** *** Results that are not null *)

Lemma not_nullable t v d : nullable t = false -> to_datum t v = returns d -> exists x, d = Some x.
Proof.
  assert (forall m : cxx Datum, valued m = returns d -> exists x, d = Some x) as Hv.
  { intros m. unfold valued. destruct m; cbn; [intros [= <-]; eauto|done..]. }
  destruct t; cbn; intros Hn H; try discriminate; try (by eapply Hv); try (injection H as <-; eauto).
  destruct (cxx_call_pg _); cbn in H; [injection H as <-; eauto|done..].
Qed.

Lemma plain_represents t v s :
  nullable t = false -> agree (reads_null (sql_type_of t)) (to_datum t v) s ->
  agree (reads (sql_type_of t)) (plain (to_datum t v)) s.
Proof.
  intros Hn. unfold plain. pose proof (not_nullable t v) as Hd.
  destruct (to_datum t v) as [d| | | |], s as [x| | | |]; cbn; try done.
  destruct (Hd d Hn eq_refl) as [d' ->]. done.
Qed.

Lemma valued_represents t (m : cxx Datum) s : agree (reads t) m s -> agree (reads_null t) (valued m) s.
Proof. unfold valued. by destruct m, s. Qed.

Abbreviation represented := (fun t => forall v, declared_in_catalog t = true -> in_range t v ->
  agree (reads_null (sql_type_of t)) (to_datum t v) (sql_value_of t v)).

Lemma elements_represent t (l : list (cdenote t)) :
  represented t -> declared_in_catalog t && negb (nullable t) && element_type_declared t = true ->
  Forall (in_range t) l ->
  agree (reads_null (sql_type_of (CVector t)))
    (valued (to_sql_array t (fun e => plain (to_datum t e)) l))
    (xs ← transform (sql_value_of t) l; returns (array_value t xs)).
Proof.
  intros IH [[Hd Hn]%andb_prop He]%andb_prop Hl. apply negb_true_iff in Hn.
  apply valued_represents, array_represents; [done|].
  induction Hl as [|a l Ha _ IHl]; constructor; [|done].
  apply plain_represents; [done|]. by apply IH.
Qed.

Lemma transform_returns {A B} (h : A -> B) l : transform (fun a => returns (h a)) l = returns (map h l).
Proof. induction l as [|a l IH]; cbn; [done|]. by rewrite IH. Qed.

Lemma values_represent {A} t (f : A -> cxx Datum) (h : A -> value) l :
  element_type_declared t = true -> (forall a, agree (reads (sql_type_of t)) (f a) (returns (h a))) ->
  agree (reads (sql_type_of (CVector t))) (to_sql_array t f l) (returns (array_value t (map h l))).
Proof.
  intros He Hf. pose proof (array_represents t f (fun a => returns (h a)) l l He) as H.
  rewrite transform_returns in H. apply H. apply Forall_Forall2_diag, Forall_forall. auto.
Qed.

Lemma witness_set_properties_represents v :
  declared_in_catalog CWitnessSetProperties = true ->
  agree (reads (sql_row "witness_set_properties_operation")) (witness_set_properties_to_datum v)
    (sql_value_of CWitnessSetProperties v).
Proof.
  cbn [declared_in_catalog]. rewrite !andb_true_iff. intros (((((Hm & Hp) & Hv) & Hep) & Hev) & Hr).
  destruct v as [[owner props] extensions]. unfold witness_set_properties_to_datum.
  eapply (declared_row "witness_set_properties_operation"); [exact Hr|]. intros desc Ht Hd.
  pose proof (Forall2_length _ _ _ Ht) as Hl. rewrite length_fmap in Hl. cbn in Hl.
  apply Nat.eqb_eq in Hm. rewrite Hm, <- Hl. cbn [negb Nat.eqb fst snd sql_value_of].
  eapply agree_bind; [apply agree_refl|]. intros output ? <-.
  destruct (agree_returns _ _ _ (values_represent CStringPair string_pair_to_datum string_pair_value output Hep
    (fun p => string_pair_represents p Hp))) as (d1 & -> & H1).
  destruct (agree_returns _ _ _ (values_represent CFutureExtensions future_extensions_to_datum
    (fun _ => VRow "void_t" []) extensions Hev (fun u => void_represents u Hv))) as (d2 & E & H2).
  cbn [mbind cxx_bind]. rewrite E. cbn [agree mbind cxx_bind].
  eapply read_row; [done|exact Ht|done..|]. cbn [zip_with].
  eapply read_attributes_cons; [apply read_text|].
  eapply read_attributes_cons; [exact H1|]. by eapply read_attributes_cons; [exact H2|].
Qed.

Lemma timestamp_represents v :
  agree (reads_null sql_timestamp) (to_datum CTime v) (sql_value_of CTime v).
Proof.
  cbn. destruct (timestamp_in _) as [z| | | |] eqn:E; cbn; try done.
  apply read_timestamp. by eapply timestamp_range.
Qed.

Lemma price_represents v :
  declared_in_catalog CPrice = true -> in_range CPrice v ->
  agree (reads (sql_row "price")) (price_to_datum v) (sql_value_of CPrice v).
Proof.
  cbn [declared_in_catalog]. rewrite andb_true_iff. intros [Hr Ha] [H1 H2].
  eapply (declared_row "price"); [exact Hr|]. intros desc Ht Hd.
  destruct (agree_returns _ _ _ (asset_represents _ Ha H1)) as (d1 & -> & R1).
  destruct (agree_returns _ _ _ (asset_represents _ Ha H2)) as (d2 & E & R2).
  cbn [mbind cxx_bind]. rewrite E. cbn [agree sql_value_of mbind cxx_bind].
  eapply read_row; [done|exact Ht|done..|]. cbn [zip_with].
  eapply read_attributes_cons; [exact R1|]. by eapply read_attributes_cons; [exact R2|].
Qed.

Lemma auth_represents name (key : chars) weight :
  row_declared name [sql_text; sql_int4] = true -> 0 <= weight < 2 ^ 16 ->
  agree (reads (sql_row name))
    (desc ← RelationNameGetTupleDesc (hive_relation name);
     returns (heap_form_tuple name desc [text_datum key; word (Int32GetDatum weight)] [false; false]))
    (returns (VRow name [chars_value key; VInt weight])).
Proof.
  intros Hr Hw. eapply declared_row; [exact Hr|]. intros desc Ht Hd. cbn [agree].
  eapply read_row; [done|exact Ht|done..|]. cbn [zip_with].
  eapply read_attributes_cons; [apply read_text|]. eapply read_attributes_cons; [by apply read_uint16|done].
Qed.

Lemma recurrent_extensions_represent v :
  declared_in_catalog CRecurrentTransferExtensions = true -> in_range CRecurrentTransferExtensions v ->
  agree (reads (sql_row "recurrent_transfer_extensions_type")) (recurrent_transfer_extensions_to_datum v)
    (sql_value_of CRecurrentTransferExtensions v).
Proof.
  cbn [declared_in_catalog in_range sql_value_of]. rewrite andb_true_iff. intros [Hr Hp] Hv.
  eapply (declared_row "recurrent_transfer_extensions_type"); [exact Hr|]. intros desc Ht Hd.
  pose proof (extensions_represent (sql_row "recurrent_transfer_pair_id") recurrent_transfer_extensions_visitor id
    recurrent_transfer_pair_id_to_datum (fun id => returns (VRow "recurrent_transfer_pair_id" [VInt id]))
    ([word 0], [true]) v) as H.
  rewrite transform_returns in H. destruct (agree_returns _ _ _ (H ltac:(done) ltac:(
    eapply Forall_impl; [exact Hv|]; intros [z|] Hz; [|done]; by apply pair_id_represents))) as (s & -> & Hs).
  apply first_slot_read in Hs as (H1 & H2 & Hs). cbn [mbind cxx_bind agree].
  eapply read_row; [done|exact Ht|done..|exact Hs].
Qed.

Lemma comment_extensions_represent b :
  represented b -> represented (CCommentOptionsExtensions b).
Proof.
  intros IH v. cbn [declared_in_catalog in_range sql_value_of to_datum sql_type_of]. rewrite !andb_true_iff.
  intros [[Hb Hn] Hr] Hv. apply valued_represents. unfold comment_options_extensions_to_datum, RelationNameGetTupleDesc.
  destruct (tuple_desc "hive.comment_options_extensions_type") as [[|[n1 u] [|[n2 u2] []]]|] eqn:Hd; try done.
  cbn [mbind cxx_bind]. apply negb_true_iff in Hn.
  pose proof (extensions_represent (sql_type_of b)
    (fun s x => d ← plain (to_datum b x); returns (set_slot s 0 d)) Some (fun x => plain (to_datum b x))
    (sql_value_of b) ([word 0; word 0], [true; true]) v ltac:(done)) as H.
  replace (omap Some v) with v in H by (clear; induction v as [|a v IH]; cbn; [done|by f_equal]).
  eapply agree_bind; [apply H|].
  { eapply Forall_impl; [exact Hv|]. intros a Ha. cbn. apply plain_represents; [done|]. by apply IH. }
  intros s xs Hs. apply (first_of_two_slots_read _ u2) in Hs as (H1 & H2 & Hs). cbn [agree].
  eapply (read_row _ [sql_type_of b; u2]); [exact Hd| |done..|exact Hs]. cbn. repeat constructor; [done|]. apply same_layout_refl.
Qed.

Lemma update_extensions_represent e :
  represented e -> represented (CUpdateProposalExtensions e).
Proof.
  intros IH v. cbn [declared_in_catalog in_range sql_value_of to_datum sql_type_of]. rewrite !andb_true_iff.
  intros [[He Hn] Hr] Hv. apply valued_represents. apply negb_true_iff in Hn.
  eapply (declared_row "update_proposal_extensions_type"); [exact Hr|]. intros desc Ht Hd.
  eapply agree_bind; [eapply (extensions_represent _ _ id (fun x => plain (to_datum e x)) (sql_value_of e)); [done|]|].
  { eapply Forall_impl; [exact Hv|]. intros [a|] Ha; [|done]. cbn. apply plain_represents; [done|]. by apply IH. }
  intros s xs Hs. apply first_slot_read in Hs as (H1 & H2 & Hs). cbn [agree].
  eapply read_row; [done|exact Ht|done..|exact Hs].
Qed.

Lemma pow2_work_represents p e :
  represented p -> represented e -> represented (CPow2Work p e).
Proof.
  intros IHp IHe v. cbn [declared_in_catalog in_range sql_value_of to_datum sql_type_of]. rewrite !andb_true_iff.
  intros [[[[Hp He] Hnp] Hne] Hr] Hv. apply valued_represents. apply negb_true_iff in Hnp, Hne.
  unfold pow2_work_to_datum.
  destruct v as [a|a]; eapply (declared_row "pow2_work"); try exact Hr; intros desc Ht Hd;
    cbn [pow_visitor].
  - pose proof (plain_represents _ _ _ Hnp (IHp a Hp Hv)) as H.
    destruct (plain (to_datum p a)) as [d| | | |], (sql_value_of p a) as [x| | | |]; cbn in H |- *; try done.
    eapply read_row; [done|exact Ht|done..|]. cbn. by rewrite H.
  - pose proof (plain_represents _ _ _ Hne (IHe a He Hv)) as H.
    destruct (plain (to_datum e a)) as [d| | | |], (sql_value_of e a) as [x| | | |]; cbn in H |- *; try done.
    eapply read_row; [done|exact Ht|done..|]. cbn. by rewrite H.
Qed.

Lemma struct_members_represent name ms :
  Forall (fun m => represented m.2) ms -> represented (CStruct name ms).
Proof.
  intros IH v. cbn [declared_in_catalog in_range sql_value_of to_datum sql_type_of]. rewrite andb_true_iff.
  intros [Hms Hr] Hv. apply valued_represents, struct_represents; [done|]. clear Hr. cbn [cdenote] in v.
  induction IH as [|[n t] ms Ht _ IHms]; [done|]. cbn in Hms, Hv |- *.
  apply andb_true_iff in Hms as [H1 H2]. destruct Hv as [Hv1 Hv2]. split; [by apply Ht|by apply IHms].
Qed.

(** Every conversion ends as the abstract value does, and the datum it forms is read by the
    server, at the type the code gives it, as that value. *)
Lemma to_datum_represents t : represented t.
Proof.
  pattern t. apply cty_nested_ind; clear t.
  - intros t H1 H2 H3 H4 H5 H6 H7 H8 H9 v Hd Hv.
    destruct t; try congruence; try done; try apply valued_represents; try (by apply timestamp_represents).
    + apply read_bool.
    + by apply read_uint8.
    + by apply read_uint16.
    + by apply read_int16.
    + apply read_int64. unfold int64_range. cbn in Hv. lia.
    + by apply read_int64.
    + by destruct v.
    + by apply string_pair_represents.
    + by apply (auth_represents "account_auth").
    + by apply (auth_represents "key_auth").
    + by apply asset_represents.
    + by apply asset_represents.
    + by apply asset_represents.
    + by apply price_represents.
    + by apply void_represents.
    + by apply pair_id_represents.
    + by apply recurrent_extensions_represent.
    + by apply witness_set_properties_represents.
  - intros t IH v. apply IH.
  - intros t IH [v|] Hd Hv; [by apply IH|done].
  - intros t IH v. by apply elements_represent.
  - intros t IH v. by apply (elements_represent t v IH).
  - intros t IH v. by apply (elements_represent t v IH).
  - apply comment_extensions_represent.
  - apply pow2_work_represents.
  - apply update_extensions_represent.
  - apply struct_members_represent.
Qed.

End represents.
