(* ===== verification/OperationCasts.v ===== *)
(** * Casts of operations to composite types ([operation_types.cpp])

    The functions the casts of [cast_functions.sql] call: the operation is unpacked, taken out
    of the variant at its type, and converted; exceptions become errors of the server. *)

From S2P Require Import Prelude Text WitnessProperties Jsonb JsonbServer.
From S2P Require Import OperationType SqlCatalog CompositeTypes CompositeValues.
From Stdlib Require Import ZArith Lia Ascii String.
From stdpp Require Import base list strings.

Open Scope Z_scope.

(** ** The functions with C linkage: symbol and type of the operation *)

Definition exported_casts_a : list (string * string) :=
  [("operation_to_comment_operation",
     "comment_operation");
   ("operation_to_comment_options_operation",
     "comment_options_operation");
   ("operation_to_vote_operation",
     "vote_operation");
   ("operation_to_witness_set_properties_operation",
     "witness_set_properties_operation");
   ("operation_to_account_create_operation",
     "account_create_operation");
   ("operation_to_account_create_with_delegation_operation",
     "account_create_with_delegation_operation");
   ("operation_to_account_update2_operation",
     "account_update2_operation");
   ("operation_to_account_update_operation",
     "account_update_operation");
   ("operation_to_account_witness_proxy_operation",
     "account_witness_proxy_operation");
   ("operation_to_account_witness_vote_operation",
     "account_witness_vote_operation");
   ("operation_to_cancel_transfer_from_savings_operation",
     "cancel_transfer_from_savings_operation");
   ("operation_to_change_recovery_account_operation",
     "change_recovery_account_operation");
   ("operation_to_claim_account_operation",
     "claim_account_operation");
   ("operation_to_claim_reward_balance_operation",
     "claim_reward_balance_operation");
   ("operation_to_collateralized_convert_operation",
     "collateralized_convert_operation");
   ("operation_to_convert_operation",
     "convert_operation");
   ("operation_to_create_claimed_account_operation",
     "create_claimed_account_operation");
   ("operation_to_custom_binary_operation",
     "custom_binary_operation");
   ("operation_to_custom_json_operation",
     "custom_json_operation");
   ("operation_to_custom_operation",
     "custom_operation");
   ("operation_to_decline_voting_rights_operation",
     "decline_voting_rights_operation")]%string.

Definition exported_casts_b : list (string * string) :=
  [("operation_to_delegate_vesting_shares_operation",
     "delegate_vesting_shares_operation");
   ("operation_to_delete_comment_operation",
     "delete_comment_operation");
   ("operation_to_escrow_approve_operation",
     "escrow_approve_operation");
   ("operation_to_escrow_dispute_operation",
     "escrow_dispute_operation");
   ("operation_to_escrow_release_operation",
     "escrow_release_operation");
   ("operation_to_escrow_transfer_operation",
     "escrow_transfer_operation");
   ("operation_to_feed_publish_operation",
     "feed_publish_operation");
   ("operation_to_limit_order_cancel_operation",
     "limit_order_cancel_operation");
   ("operation_to_limit_order_create2_operation",
     "limit_order_create2_operation");
   ("operation_to_limit_order_create_operation",
     "limit_order_create_operation");
   ("operation_to_pow2_operation",
     "pow2_operation");
   ("operation_to_pow_operation",
     "pow_operation");
   ("operation_to_recover_account_operation",
     "recover_account_operation");
   ("operation_to_recurrent_transfer_operation",
     "recurrent_transfer_operation");
   ("operation_to_request_account_recovery_operation",
     "request_account_recovery_operation");
   ("operation_to_reset_account_operation",
     "reset_account_operation");
   ("operation_to_set_reset_account_operation",
     "set_reset_account_operation");
   ("operation_to_set_withdraw_vesting_route_operation",
     "set_withdraw_vesting_route_operation");
   ("operation_to_transfer_from_savings_operation",
     "transfer_from_savings_operation");
   ("operation_to_transfer_operation",
     "transfer_operation");
   ("operation_to_transfer_to_savings_operation",
     "transfer_to_savings_operation")]%string.

Definition exported_casts_c : list (string * string) :=
  [("operation_to_transfer_to_vesting_operation",
     "transfer_to_vesting_operation");
   ("operation_to_withdraw_vesting_operation",
     "withdraw_vesting_operation");
   ("operation_to_witness_update_operation",
     "witness_update_operation");
   ("operation_to_create_proposal_operation",
     "create_proposal_operation");
   ("operation_to_proposal_pay_operation",
     "proposal_pay_operation");
   ("operation_to_remove_proposal_operation",
     "remove_proposal_operation");
   ("operation_to_update_proposal_operation",
     "update_proposal_operation");
   ("operation_to_update_proposal_votes_operation",
     "update_proposal_votes_operation");
   ("operation_to_account_created_operation",
     "account_created_operation");
   ("operation_to_author_reward_operation",
     "author_reward_operation");
   ("operation_to_changed_recovery_account_operation",
     "changed_recovery_account_operation");
   ("operation_to_clear_null_account_balance_operation",
     "clear_null_account_balance_operation");
   ("operation_to_comment_benefactor_reward_operation",
     "comment_benefactor_reward_operation");
   ("operation_to_comment_payout_update_operation",
     "comment_payout_update_operation");
   ("operation_to_comment_reward_operation",
     "comment_reward_operation");
   ("operation_to_consolidate_treasury_balance_operation",
     "consolidate_treasury_balance_operation");
   ("operation_to_curation_reward_operation",
     "curation_reward_operation");
   ("operation_to_delayed_voting_operation",
     "delayed_voting_operation");
   ("operation_to_effective_comment_vote_operation",
     "effective_comment_vote_operation");
   ("operation_to_expired_account_notification_operation",
     "expired_account_notification_operation");
   ("operation_to_failed_recurrent_transfer_operation",
     "failed_recurrent_transfer_operation")]%string.

Definition exported_casts_d : list (string * string) :=
  [("operation_to_fill_collateralized_convert_request_operation",
     "fill_collateralized_convert_request_operation");
   ("operation_to_fill_convert_request_operation",
     "fill_convert_request_operation");
   ("operation_to_fill_order_operation",
     "fill_order_operation");
   ("operation_to_fill_recurrent_transfer_operation",
     "fill_recurrent_transfer_operation");
   ("operation_to_fill_transfer_from_savings_operation",
     "fill_transfer_from_savings_operation");
   ("operation_to_fill_vesting_withdraw_operation",
     "fill_vesting_withdraw_operation");
   ("operation_to_hardfork_hive_operation",
     "hardfork_hive_operation");
   ("operation_to_hardfork_hive_restore_operation",
     "hardfork_hive_restore_operation");
   ("operation_to_hardfork_operation",
     "hardfork_operation");
   ("operation_to_ineffective_delete_comment_operation",
     "ineffective_delete_comment_operation");
   ("operation_to_interest_operation",
     "interest_operation");
   ("operation_to_limit_order_cancelled_operation",
     "limit_order_cancelled_operation");
   ("operation_to_liquidity_reward_operation",
     "liquidity_reward_operation");
   ("operation_to_pow_reward_operation",
     "pow_reward_operation");
   ("operation_to_producer_reward_operation",
     "producer_reward_operation");
   ("operation_to_return_vesting_delegation_operation",
     "return_vesting_delegation_operation");
   ("operation_to_shutdown_witness_operation",
     "shutdown_witness_operation");
   ("operation_to_system_warning_operation",
     "system_warning_operation");
   ("operation_to_transfer_to_vesting_completed_operation",
     "transfer_to_vesting_completed_operation");
   ("operation_to_vesting_shares_split_operation",
     "vesting_shares_split_operation");
   ("operation_to_witness_block_approve_operation",
     "witness_block_approve_operation")]%string.

Definition exported_casts_e : list (string * string) :=
  [("operation_to_dhf_funding_operation",
     "dhf_funding_operation");
   ("operation_to_dhf_conversion_operation",
     "dhf_conversion_operation");
   ("operation_to_producer_missed_operation",
     "producer_missed_operation");
   ("operation_to_proposal_fee_operation",
     "proposal_fee_operation");
   ("operation_to_collateralized_convert_immediate_conversion_operation",
     "collateralized_convert_immediate_conversion_operation");
   ("operation_to_escrow_approved_operation",
     "escrow_approved_operation");
   ("operation_to_escrow_rejected_operation",
     "escrow_rejected_operation");
   ("operation_to_proxy_cleared_operation",
     "proxy_cleared_operation");
   ("operation_to_declined_voting_rights_operation",
     "declined_voting_rights_operation")]%string.

Definition exported_functions : list (string * string) :=
  exported_casts_a ++ exported_casts_b ++ exported_casts_c ++ exported_casts_d ++ exported_casts_e.

(** ** [operation_to] *)

Section operation_to.
  Context {P : Protocol} {S : Structures} {J : Server} {C : Composites} {K : Catalog}.
  Context (name : chars) (t : ty) (rest : list (chars * ty)).

  Abbreviation operation := (denote (TStaticVariant name t rest)).

  Context (unpack : bytes -> cxx operation).
  Context (get : forall T : cty, operation -> option (cdenote T)).  (* fc::static_variant::get *)
  Context (get_error : cty -> chars).

Definition typename (T : cty) : string := match T with CStruct n _ => n | _ => get_typename T end.

(** The handlers around the conversion; an error of the server passes them. *)
Definition handlers {A} (T : cty) (m : cxx A) : pg A :=
  match m with
  | returns d => pg_ok d
  | throws_fc msg | throws_std msg => pg_error ERRCODE_DATA_EXCEPTION (pstrdup_truncate_nul msg)
  | throws_other =>
      pg_error ERRCODE_DATA_EXCEPTION (lit "Could not convert operation to " ++ lit (typename T))
  | longjmps code msg => pg_error code msg
  end.

Definition get_operation (T : cty) (op : operation) : cxx (cdenote T) :=
  match get T op with Some v => returns v | None => throws_fc (get_error T) end.

Definition operation_to (T : cty) (op : bytes) : pg (datum numeric) :=
  handlers T
    (operation ← raw_to_operation name t rest unpack op;
     actual_op ← get_operation T operation;
     plain (to_datum T actual_op)).

  Context (protocol_type : string -> cty).          (* the reflection of hive::protocol *)

(** A call of a function of the library by its symbol. *)
Definition call_exported (symbol : string) (op : bytes) : option (pg (datum numeric)) :=
  T ← lookup_name symbol exported_functions; Some (operation_to (protocol_type T) op).

End operation_to.

Section casts.
  Context {P : Protocol} {S : Structures} {J : Server} {C : Composites} {L : CompositeLaws C}.
  Context (name : chars) (t : ty) (rest : list (chars * ty)).
  Context (unpack : bytes -> cxx (denote (TStaticVariant name t rest))).
  Context (get : forall T : cty, denote (TStaticVariant name t rest) -> option (cdenote T)).
  Context (get_error : cty -> chars).

(** C15: A cast to a composite type whose declaration in the catalog fits the structure, of an
    operation the library unpacks and whose numbers are in the range of their members' types:
    the datum formed is read by the server as the value [sql_value_of] the structure, which
    takes member by member what the overloads of the code take, so that every integer is
    unchanged, and also hashes as hexadecimal text and extensions as void rows; when the
    library or the server's input functions fail on a member, the cast reports that failure as
    an error; and an operation of another type is refused with ERRCODE_DATA_EXCEPTION. *)
Theorem cast_gives_the_row {K : Catalog} (T : cty) (op : bytes) operation :
  declared_in_catalog T = true -> nullable T = false ->
  raw_to_operation name t rest unpack op = returns operation ->
  let result := operation_to name t rest unpack get get_error T op in
  match get T operation with
  | None => result = pg_error ERRCODE_DATA_EXCEPTION (pstrdup_truncate_nul (get_error T))
  | Some v =>
      in_range T v ->
      match sql_value_of T v with
      | returns x => exists d, result = pg_ok d /\ read d (sql_type_of T) = Some x
      | throws_fc msg | throws_std msg =>
          result = pg_error ERRCODE_DATA_EXCEPTION (pstrdup_truncate_nul msg)
      | throws_other => exists msg, result = pg_error ERRCODE_DATA_EXCEPTION msg
      | longjmps code msg => result = pg_error code msg
      end
  end.
Proof.
  intros Hd Hn Hop. cbv zeta. unfold operation_to. rewrite Hop. cbn [mbind cxx_bind]. unfold get_operation.
  destruct (get T operation) as [v|]; [|done]. cbn [mbind cxx_bind]. intros Hv.
  pose proof (plain_represents _ _ _ Hn (to_datum_represents T v Hd Hv)) as H.
  destruct (plain (to_datum T v)), (sql_value_of T v); cbn in H |- *; try done; subst; eauto.
  by destruct H as [-> ->].
Qed.

(** A structure whose number of members differs from the declared attributes is refused. *)
Theorem member_count_is_checked {K : Catalog} type_name ms op operation v desc :
  raw_to_operation name t rest unpack op = returns operation ->
  get (CStruct type_name ms) operation = Some v ->
  tuple_desc (hive_relation type_name) = Some desc -> length ms <> length desc ->
  operation_to name t rest unpack get get_error (CStruct type_name ms) op
  = pg_error ERRCODE_DATA_EXCEPTION (pstrdup_truncate_nul (mismatch type_name)).
Proof.
  intros Hop Hget Hd Hl. unfold operation_to, get_operation. rewrite Hop. cbn. rewrite Hget. cbn.
  unfold plain, valued, struct_to_datum, RelationNameGetTupleDesc. rewrite Hd. cbn.
  by rewrite (proj2 (Nat.eqb_neq _ _) Hl).
Qed.

End casts.

(** ** Against the declarations of the extension *)

(** Every cast function declared in SQL names an exported symbol, which converts to the type
    the function returns, and that type is declared; no symbol is exported twice. *)
Theorem cast_functions_are_exported :
  Forall (fun '(function, result, symbol) =>
    function = ("_" ++ symbol)%string /\ symbol = ("operation_to_" ++ result)%string /\
    lookup_name symbol exported_functions = Some result /\
    is_Some (tuple_desc (hive_relation result))) cast_functions /\
  exported_functions.*1 ≡ₚ map (fun c => c.2) cast_functions /\ NoDup (exported_functions.*1).
Proof.
  split; [|split].
  - apply (bool_decide_unpack _). by vm_compute.
  - replace (exported_functions.*1) with (map (fun c => c.2) cast_functions); [done|by vm_compute].
  - apply (bool_decide_unpack _). by vm_compute.
Qed.

(** The rows the code forms attribute by attribute fit their declarations. *)
Lemma handwritten_rows_are_declared {P : Protocol} {C : Composites} :
  wsp_member_count = 3%nat ->
  Forall (fun T => declared_in_catalog T = true)
    [CStringPair; CAccountAuth; CKeyAuth; CAsset; CPrice; CFutureExtensions; CRecurrentTransferPairId;
     CRecurrentTransferExtensions; CWitnessSetProperties; CVector CAccountAuth; CVector CKeyAuth;
     CVector CAccountName; CVector CUInt32; CFlatSetEx CInt64; CFlatSet CFutureExtensions].
Proof.
  intros H. repeat apply Forall_cons_2; try apply Forall_nil_2; try (by vm_compute).
  cbn [declared_in_catalog]. rewrite H. by vm_compute.
Qed.

(** ** Where declarations and code differ *)

(** The identifier of a block is declared as [bytea], and holds the characters of its
    hexadecimal form, not its bytes. *)
Theorem block_id_holds_hex_text {P : Protocol} {C : Composites} {J : Server} (id : bytes) :
  (tuple_desc "hive.witness_block_approve_operation" ≫= fun desc => desc.*2 !! 1%nat) = Some sql_bytea /\
  exists d : datum numeric, to_datum CRipemd160 id = returns (Some d) /\
    read d sql_bytea = Some (VChars (pstrdup_truncate_nul (to_hex id))).
Proof. split; [by vm_compute|]. by eexists. Qed.

(** An extension of an operation is formed as a row of [hive.void_t] and put in an array of
    [hive.hive_future_extensions]. *)
Theorem extension_rows_have_another_type {P : Protocol} {C : Composites} {J : Server} :
  to_datum (CFlatSet CFutureExtensions) [tt]
  = returns (Some (array_datum (numeric := numeric) "hive" "hive_future_extensions" [tuple_datum "void_t" []])).
Proof. by vm_compute. Qed.

(** The fee of legacy chain properties is a row of [hive.asset] in an attribute declared as
    [hive.legacy_hive_asset]. *)
Theorem legacy_fee_has_another_type {P : Protocol} {C : Composites} :
  (tuple_desc "hive.legacy_chain_properties" ≫= fun desc => desc.*2 !! 0%nat)
  = Some (sql_row "legacy_hive_asset") /\
  sql_type_of CLegacyHiveAsset = sql_row "asset" /\
  same_layout (sql_row "asset") (sql_row "legacy_hive_asset") = true.
Proof. by vm_compute. Qed.

(** ** An operation *)

Module CastExamples.

#[local] Instance plain_composites : Composites (P := plain_protocol) := {|
  tiny_asset := Z;
  tiny_to_asset z := Asset z true;
  timestamp_in s := match s with
                    | [] => longjmps ERRCODE_INVALID_TEXT_REPRESENTATION (lit "invalid input syntax")
                    | _ => returns 1000000
                    end;
  unpack_to_json _ packed := returns packed;
  wsp_member_count := 3;
  get_typename _ := "int8"%string
|}.

#[local] Instance plain_composite_laws : CompositeLaws plain_composites.
Proof. split; [by intros []|]. by intros [] z; [|intros [= <-]]. Qed.

Definition escrow_transfer : cty := CStruct "escrow_transfer_operation"
  [("from", CAccountName); ("to", CAccountName); ("hbd_amount", CAsset); ("hive_amount", CAsset);
   ("escrow_id", CUInt32); ("agent", CAccountName); ("fee", CAsset); ("json_meta", CJsonString);
   ("ratification_deadline", CTime); ("escrow_expiration", CTime)]%string.

Definition vote : cty := CStruct "vote_operation"
  [("voter", CAccountName); ("author", CAccountName); ("permlink", CString); ("weight", CInt16)]%string.

(** An operation is its bytes; its integers are all the largest of 32 bits. *)
Fixpoint sample (text : chars) (T : cty) : option (cdenote T) :=
  match T with
  | CAccountName | CString | CTime | CPublicKey => Some text
  | CJsonString => Some []
  | CUInt32 | CInt64 => Some 4294967295
  | CInt16 => Some (-10000)
  | CAsset => Some (Asset 4294967295 true)
  | CStruct _ ms =>
      (fix go ms : option (cmembers cdenote ms) := match ms with
       | [] => Some tt
       | (_, t) :: ms' =>
           match sample text t, go ms' with Some a, Some b => Some (a, b) | _, _ => None end
       end) ms
  | _ => None
  end.

Definition unpack_sample (data : bytes) : cxx (denote (TStaticVariant (lit "text") TString [])) := returns (inl data).

Definition get_sample (T : cty) (op : denote (TStaticVariant (lit "text") TString [])) : option (cdenote T) :=
  match op with inl text => sample text T | inr e => match e with end end.

Lemma cast_gives_the_row_witness :
  exists d, operation_to (lit "text") TString [] unpack_sample get_sample (fun _ => []) escrow_transfer (lit "abc")
    = pg_ok d /\
  read d (sql_row "escrow_transfer_operation") = Some (VRow "escrow_transfer_operation"
    [VChars (lit "abc"); VChars (lit "abc");
     VRow "asset" [VInt 4294967295; VInt 6; VChars (lit "@@000000037")];
     VRow "asset" [VInt 4294967295; VInt 6; VChars (lit "@@000000037")];
     VInt 4294967295; VChars (lit "abc");
     VRow "asset" [VInt 4294967295; VInt 6; VChars (lit "@@000000037")];
     VNull; VTimestamp 1000000; VTimestamp 1000000]).
Proof.
  refine (cast_gives_the_row (lit "text") TString [] unpack_sample get_sample (fun _ => []) escrow_transfer
    (lit "abc") (inl (lit "abc")) _ _ _ _); [by vm_compute|done|done|].
  cbn. unfold asset_range, int64_range. cbn. repeat split; lia.
Defined.

(** The whole conversion, evaluated: a negative weight is read back unchanged. *)
Example vote_row :
  match operation_to (lit "text") TString [] unpack_sample get_sample (fun _ => []) vote (lit "abc") with
  | pg_ok d => read d (sql_row "vote_operation")
  | _ => None
  end = Some (VRow "vote_operation"
    [VChars (lit "abc"); VChars (lit "abc"); VChars (lit "abc"); VInt (-10000)]).
Proof. by vm_compute. Qed.

End CastExamples.
