(* ===== verification/CopyFormat.v ===== *)
(** * Tuples in COPY format ([pq_utils], [tuple_fields_iterators.cpp], [relation_wrapper.cpp])

    A session that copies tuples to a table writes the binary format of COPY; an iterator
    reads the fields of a tuple back from it, and the text of conditions and assignments is
    built from them.  Numbers are big-endian in both directions.

    The connection is a parameter: it accepts or refuses data.  What the binary value of a
    column is, and its text, are the server's. *)

From S2P Require Import Prelude Text.
From Stdlib Require Import ZArith Lia Ascii String.
From stdpp Require Import base list strings.

Open Scope Z_scope.
Open Scope haf_scope.

Abbreviation bytes := (list ascii) (only parsing).

(** ** Numbers in network order *)

Definition byte (z : Z) : ascii := ascii_of_N (Z.to_N (z mod 256)).
Definition byte_value (c : ascii) : Z := Z.of_N (N_of_ascii c).

(** The bytes in memory of [htons( z )] and [htonl( z )]. *)
Definition be16 (z : Z) : bytes := [byte (z / 2 ^ 8); byte z].
Definition be32 (z : Z) : bytes := [byte (z / 2 ^ 24); byte (z / 2 ^ 16); byte (z / 2 ^ 8); byte z].

(** [ntohs] and [ntohl] of what is at an offset; [None] past the end. *)
Definition get16 (l : bytes) (offset : nat) : option Z :=
  match drop offset l with
  | a :: b :: _ => Some (byte_value a * 2 ^ 8 + byte_value b)
  | _ => None
  end.
Definition get32 (l : bytes) (offset : nat) : option Z :=
  match drop offset l with
  | a :: b :: c :: d :: _ =>
      Some (byte_value a * 2 ^ 24 + byte_value b * 2 ^ 16 + byte_value c * 2 ^ 8 + byte_value d)
  | _ => None
  end.

Lemma byte_value_byte z : byte_value (byte z) = z mod 256.
Proof.
  unfold byte_value, byte. pose proof (Z.mod_pos_bound z 256 ltac:(lia)).
  rewrite N_ascii_embedding by lia. lia.
Qed.

Lemma get16_be16 p z r : 0 <= z < 2 ^ 16 -> get16 (p ++ be16 z ++ r) (length p) = Some z.
Proof.
  intros H. unfold get16. rewrite drop_app_length. cbn [be16 app]. rewrite !byte_value_byte. f_equal.
  rewrite (Z.mod_small (z / 2 ^ 8)) by (split; [apply Z.div_pos; lia|apply Z.div_lt_upper_bound; lia]).
  change (2 ^ 8) with 256. rewrite (Z.div_mod z 256) at 3 by lia. lia.
Qed.

Lemma get32_be32 p z r : 0 <= z < 2 ^ 32 -> get32 (p ++ be32 z ++ r) (length p) = Some z.
Proof.
  intros H. unfold get32. rewrite drop_app_length. cbn [be32 app]. rewrite !byte_value_byte. f_equal.
  change (2 ^ 24) with (256 * 256 * 256). change (2 ^ 16) with (256 * 256). change (2 ^ 8) with 256.
  rewrite <- !Z.div_div by lia.
  pose proof (Z.div_mod z 256 ltac:(lia)) as E1. pose proof (Z.div_mod (z / 256) 256 ltac:(lia)) as E2.
  pose proof (Z.div_mod (z / 256 / 256) 256 ltac:(lia)) as E3.
  rewrite (Z.mod_small (z / 256 / 256 / 256)); [lia|]. split; [repeat apply Z.div_pos; lia|].
  repeat (apply Z.div_lt_upper_bound; [lia|]). lia.
Qed.

(** ** [CopySession], [CopyTuplesSession] *)

Inductive copy_error :=
| NoConnection
| IncorrectTableName
| CannotStartCopy
| TooMuchBytes
| CannotCopy.

Record copy_session := {
  cs_sent : list bytes;                             (* the data the server accepted *)
  cs_puts : nat;
  cs_ended : bool                                   (* PQputCopyEnd *)
}.

Definition CS (A : Type) : Type := ST copy_session copy_error A.

Definition new_session : copy_session := {| cs_sent := []; cs_puts := 0; cs_ended := false |}.

Fixpoint columns_list (columns : list chars) : chars :=
  match columns with
  | [] => []
  | [column] => column
  | column :: columns' => column ++ lit "," ++ columns_list columns'
  end.

Definition binary_copy_cmd (_table_name : chars) (_columns : list chars) : chars :=
  lit "COPY " ++ _table_name
  ++ match _columns with [] => [] | _ => lit "(" ++ columns_list _columns ++ lit ")" end
  ++ lit " FROM STDIN binary".

Section session.
  Context (put_copy_data : nat -> bool) (copy_in : chars -> bool).

(** The constructor. *)
Definition open_copy_session (connected : bool) (_table_name : chars) (_columns : list chars) : outcome copy_error copy_session :=
  if negb connected then Throw NoConnection
  else if bool_decide (_table_name = []) then Throw IncorrectTableName
  else if copy_in (binary_copy_cmd _table_name _columns) then Ok new_session
  else Throw CannotStartCopy.

Definition push_data (_data : bytes) : CS unit :=
  st_assert (Z.of_nat (length _data) <=? INT32_MAX) TooMuchBytes ;;;
  let* s := st_get in
  if put_copy_data (cs_puts s) then
    st_put {| cs_sent := cs_sent s ++ [_data]; cs_puts := S (cs_puts s); cs_ended := cs_ended s |}
  else
    st_put {| cs_sent := cs_sent s; cs_puts := S (cs_puts s); cs_ended := cs_ended s |} ;;;
    st_throw CannotCopy.

(** [BinaryFileFormatHeader]: the signature with its NUL, flags and extension. *)
Definition binary_file_format_header : bytes :=
  lit "PGCOPY" ++ map byte [10; 255; 13; 10; 0] ++ map byte [0; 0; 0; 0; 0; 0; 0; 0].

Definition open_copy_tuples_session (connected : bool) (_table : chars) (_columns : list chars) : outcome copy_error copy_session :=
  match open_copy_session connected _table _columns with
  | Throw e => Throw e
  | Ok s => match push_data binary_file_format_header s with (Ok _, s') => Ok s' | (Throw e, _) => Throw e end
  end.

Definition push_tuple (_encoded_with_copy_tuple : bytes) : CS unit := push_data _encoded_with_copy_tuple.
Definition push_tuple_header (_number_of_fields : Z) : CS unit := push_data (be16 (wrap_u 16 _number_of_fields)).
Definition push_null_field : CS unit := push_data (be32 (u32 (-1))).
Definition push_trailing : CS unit := push_data (be16 (wrap_u 16 (-1))).

(** A column: its binary value, or null. *)
Definition field : Type := option bytes.

Definition NULL_FIELD_SIZE : Z := 4.
Definition SIZE_OF_NUMBER_OF_COLUMNS : Z := 2.
Definition SIZE_OF_COLUMN_SIZE : Z := 4.

(** The loop that sums the sizes, in 32 bits. *)
Fixpoint tuple_size_from (tuple_size : Z) (fields : list field) : Z :=
  match fields with
  | [] => tuple_size
  | None :: fields' => tuple_size_from (u32 (tuple_size + NULL_FIELD_SIZE)) fields'
  | Some value :: fields' =>
      tuple_size_from (u32 (u32 (tuple_size + SIZE_OF_COLUMN_SIZE) + u32 (Z.of_nat (length value)))) fields'
  end.

Fixpoint push_fields (fields : list field) : CS unit :=
  match fields with
  | [] => st_ret tt
  | None :: fields' => push_null_field ;;; push_fields fields'
  | Some value :: fields' =>
      push_data (be32 (u32 (Z.of_nat (length value)))) ;;;
      push_data value ;;;
      push_fields fields'
  end.

Definition push_tuple_as_next_column (fields : list field) : CS unit :=
  push_data (be32 (tuple_size_from SIZE_OF_NUMBER_OF_COLUMNS fields)) ;;;
  push_data (be16 (wrap_u 16 (Z.of_nat (length fields)))) ;;;
  push_fields fields.

(** The destructors: a refused trailing mark is logged, the copy is ended. *)
Definition close_copy_tuples_session (s : copy_session) : copy_session :=
  let s' := snd (push_trailing s) in
  {| cs_sent := cs_sent s'; cs_puts := cs_puts s'; cs_ended := true |}.

End session.

(** ** [TuplesFieldIterator] *)

Inductive iterator_error :=
| SizeOfTupleIsTooSmall
| WrongNumberOfColumns
| ReadPastEnd                                       (* memory outside of the tuple *)
| IncorrectTupleFormat
| NoTypeName
| ServerError.                                      (* of the functions of the column's type *)

Record tuples_field_iterator := {
  it_tuple_bytes : bytes;
  it_number_of_fields : Z;
  it_current_field_number : Z;
  it_current_field : nat                            (* offset *)
}.

Definition NUMBER_OF_FIELDS_SIZE : nat := 2.
Definition FIELD_SIZE_SIZE : nat := 4.

Definition new_iterator (tuple : bytes) : outcome iterator_error tuples_field_iterator :=
  if (length tuple <? NUMBER_OF_FIELDS_SIZE)%nat then Throw SizeOfTupleIsTooSmall
  else match get16 tuple 0 with
  | Some n => Ok {| it_tuple_bytes := tuple; it_number_of_fields := n; it_current_field_number := 0;
                    it_current_field := NUMBER_OF_FIELDS_SIZE |}
  | None => Throw ReadPastEnd
  end.

Definition at_end (it : tuples_field_iterator) : bool := it_current_field_number it =? it_number_of_fields it.

(** A pointer into the tuple and a size; the pointer is null for a null value. *)
Record field_ref := { fr_value : option nat; fr_size : Z }.

Definition is_null_value (f : field_ref) : bool := fr_size f =? 0xFFFFFFFF.

Definition get_field (it : tuples_field_iterator) : outcome iterator_error field_ref :=
  match get32 (it_tuple_bytes it) (it_current_field it) with
  | None => Throw ReadPastEnd
  | Some size =>
      if negb (size =? 0xFFFFFFFF)
      then Ok {| fr_value := Some (it_current_field it + FIELD_SIZE_SIZE)%nat; fr_size := size |}
      else Ok {| fr_value := None; fr_size := size |}
  end.

Definition next (it : tuples_field_iterator) : outcome iterator_error (option field_ref * tuples_field_iterator) :=
  if at_end it then Ok (None, it)
  else if (length (it_tuple_bytes it) <=? it_current_field it)%nat then Throw WrongNumberOfColumns
  else
    match get_field it with
    | Throw e => Throw e
    | Ok result =>
        Ok (Some result,
            {| it_tuple_bytes := it_tuple_bytes it; it_number_of_fields := it_number_of_fields it;
               it_current_field_number := wrap_u 16 (it_current_field_number it + 1);
               it_current_field := it_current_field it + FIELD_SIZE_SIZE
                                   + (if is_null_value result then 0 else Z.to_nat (fr_size result)) |})
    end.

(** The value behind the pointer, as the caller reads it. *)
Definition field_bytes (tuple : bytes) (f : field_ref) : outcome iterator_error field :=
  match fr_value f with
  | None => Ok None
  | Some offset =>
      if (offset + Z.to_nat (fr_size f) <=? length tuple)%nat
      then Ok (Some (take (Z.to_nat (fr_size f)) (drop offset tuple)))
      else Throw ReadPastEnd
  end.

(** Calls of [next] until the end: one more than there are fields. *)
Fixpoint read_fields (calls : nat) (it : tuples_field_iterator) : outcome iterator_error (list field) :=
  match calls with
  | O => Ok []
  | S calls' =>
      '(f, it') ← next it;
      match f with
      | None => Ok []
      | Some f =>
          value ← field_bytes (it_tuple_bytes it) f;
          rest ← read_fields calls' it';
          Ok (value :: rest)
      end
  end.

Definition read_tuple (tuple : bytes) : outcome iterator_error (list field) :=
  it ← new_iterator tuple; read_fields (S (Z.to_nat (it_number_of_fields it))) it.

(** ** The format *)

Definition encode_field (f : field) : bytes :=
  match f with
  | None => be32 0xFFFFFFFF
  | Some value => be32 (Z.of_nat (length value)) ++ value
  end.

(** | number of fields | size of a field | its value | ... *)
Definition encode_tuple (fields : list field) : bytes :=
  be16 (Z.of_nat (length fields)) ++ concat (map encode_field fields).

(** What the format can hold: 16 bits of fields, and a size that is not the mark of null. *)
Definition field_fits (f : field) : Prop :=
  match f with None => True | Some value => Z.of_nat (length value) <= INT32_MAX end.
Definition tuple_fits (fields : list field) : Prop :=
  Z.of_nat (length fields) < 2 ^ 16 /\ Forall field_fits fields /\
  Z.of_nat (length (encode_tuple fields)) < 2 ^ 32.

(** *** Reading back *)

Section round_trip.
  Context (number : Z).

Definition iterator_at (before : bytes) (k : nat) (rest : list field) : tuples_field_iterator :=
  {| it_tuple_bytes := before ++ concat (map encode_field rest);
     it_number_of_fields := number; it_current_field_number := Z.of_nat k;
     it_current_field := length before |}.

Lemma iterator_eq b b' k k' o o' :
  b = b' -> k = k' -> o = o' ->
  {| it_tuple_bytes := b; it_number_of_fields := number; it_current_field_number := k; it_current_field := o |}
  = {| it_tuple_bytes := b'; it_number_of_fields := number; it_current_field_number := k'; it_current_field := o' |}.
Proof. by intros -> -> ->. Qed.

Lemma next_field before k f rest :
  Z.of_nat k < number -> number < 2 ^ 16 -> field_fits f ->
  exists r, next (iterator_at before k (f :: rest)) = Ok (Some r, iterator_at (before ++ encode_field f) (S k) rest) /\
    field_bytes (before ++ concat (map encode_field (f :: rest))) r = Ok f.
Proof.
  intros Hk Hn Hf. unfold next, at_end, iterator_at. cbn [it_current_field_number it_number_of_fields].
  rewrite (proj2 (Z.eqb_neq _ _)) by lia. cbn [it_tuple_bytes it_current_field map concat].
  assert (exists z tl, encode_field f = be32 z ++ tl /\ 0 <= z < 2 ^ 32 /\
      match f with None => z = 0xFFFFFFFF /\ tl = [] | Some v => z = Z.of_nat (length v) /\ tl = v end)
    as (z & tl & He & Hz & Hv).
  { destruct f as [v|]; eexists _, _.
    - split; [reflexivity|]. cbn in Hf. unfold INT32_MAX in Hf. split; [lia|done].
    - split; [symmetry; apply app_nil_r|]. split; [lia|done]. }
  rewrite (proj2 (Nat.leb_gt _ _)) by (rewrite !length_app, He, length_app; cbn; lia).
  unfold get_field. cbn [it_tuple_bytes it_current_field]. rewrite He, <- app_assoc, get32_be32 by done.
  rewrite wrap_u_small by lia.
  destruct f as [v|]; destruct Hv as [-> ->].
  - cbn in Hf. unfold INT32_MAX in Hf. rewrite (proj2 (Z.eqb_neq _ _)) by lia. cbn [negb is_null_value fr_size].
    unfold is_null_value. cbn [fr_size]. rewrite (proj2 (Z.eqb_neq _ _)) by lia.
    eexists. split.
    + do 2 f_equal. apply iterator_eq; [by rewrite <- !app_assoc|lia|unfold FIELD_SIZE_SIZE; rewrite !length_app; cbn [be32 length]; lia].
    + unfold field_bytes. cbn [fr_value fr_size]. rewrite Nat2Z.id.
      rewrite (proj2 (Nat.leb_le _ _)) by (unfold FIELD_SIZE_SIZE; rewrite !length_app; cbn [be32 length]; lia). do 2 f_equal.
      change (length before + FIELD_SIZE_SIZE)%nat with (length before + length (be32 (Z.of_nat (length v))))%nat.
      rewrite <- length_app, (app_assoc before), drop_app_length. by rewrite take_app_length.
  - rewrite Z.eqb_refl. cbn [negb]. unfold is_null_value. cbn [fr_size]. rewrite Z.eqb_refl.
    exists {| fr_value := None; fr_size := 0xFFFFFFFF |}. split; [|done].
    do 2 f_equal. apply iterator_eq; [by rewrite <- !app_assoc|lia|unfold FIELD_SIZE_SIZE; rewrite !length_app; cbn [be32 length]; lia].
Qed.

Lemma read_fields_next calls it r it' f :
  next it = Ok (Some r, it') -> field_bytes (it_tuple_bytes it) r = Ok f ->
  read_fields (S calls) it = (rest ← read_fields calls it'; Ok (f :: rest)).
Proof. intros E Hf. cbn [read_fields]. rewrite E. cbn [mbind outcome_bind]. by rewrite Hf. Qed.

Lemma read_fields_back before k rest :
  number = Z.of_nat (k + length rest) -> number < 2 ^ 16 -> Forall field_fits rest ->
  read_fields (S (length rest)) (iterator_at before k rest) = Ok rest.
Proof.
  revert before k. induction rest as [|f rest IH]; intros before k Hn Hb Hf.
  - cbn. unfold next, at_end, iterator_at. cbn. rewrite Hn, Nat.add_0_r. by rewrite Z.eqb_refl.
  - apply Forall_cons in Hf as [Hf Hrest]. cbn [length] in *.
    destruct (next_field before k f rest) as (r & E & Hr); [lia|done|done|].
    rewrite (read_fields_next _ _ _ _ f E Hr), IH by (lia || done). done.
Qed.

End round_trip.

Lemma read_encoded_tuple fields :
  Z.of_nat (length fields) < 2 ^ 16 -> Forall field_fits fields -> read_tuple (encode_tuple fields) = Ok fields.
Proof.
  intros Hn Hf. unfold read_tuple, new_iterator.
  assert (2 <= length (encode_tuple fields))%nat as Hl by (unfold encode_tuple; rewrite length_app; cbn; lia).
  rewrite (proj2 (Nat.ltb_ge _ _)) by exact Hl.
  pose proof (get16_be16 [] (Z.of_nat (length fields)) (concat (map encode_field fields)) ltac:(lia)) as Hg.
  cbn [app length] in Hg. unfold encode_tuple at 1. rewrite Hg. cbn [mbind outcome_bind it_number_of_fields].
  rewrite Nat2Z.id.
  apply (read_fields_back (Z.of_nat (length fields)) (be16 (Z.of_nat (length fields))) 0); [by rewrite Nat.add_0_l|done|done].
Qed.

(** *** Writing *)

Section writing.
  Context (put_copy_data : nat -> bool).

(** The connection accepts everything. *)
Definition accepting : Prop := forall n, put_copy_data n = true.

Definition sent (s : copy_session) : bytes := concat (cs_sent s).

Definition sends (m : CS unit) (data : bytes) : Prop :=
  forall s, exists s', m s = (Ok tt, s') /\ sent s' = sent s ++ data /\ cs_ended s' = cs_ended s.

Lemma push_data_sends data :
  accepting -> Z.of_nat (length data) <= INT32_MAX -> sends (push_data put_copy_data data) data.
Proof.
  intros Ha Hl s. unfold push_data, st_assert, st_bind, st_get. rewrite (proj2 (Z.leb_le _ _)) by exact Hl.
  cbn. rewrite Ha. eexists. split; [reflexivity|]. cbn. split; [|done].
  unfold sent. cbn. rewrite concat_app. cbn. by rewrite app_nil_r.
Qed.

Lemma sends_bind m1 d1 m2 d2 : sends m1 d1 -> sends m2 d2 -> sends (m1 ;;; m2) (d1 ++ d2).
Proof.
  intros H1 H2 s. destruct (H1 s) as (s1 & E1 & S1 & N1). destruct (H2 s1) as (s2 & E2 & S2 & N2).
  exists s2. rewrite (st_bind_ok _ _ _ _ _ E1). split; [done|]. split; [|congruence].
  by rewrite S2, S1, app_assoc.
Qed.

Lemma push_fields_sends fields :
  accepting -> Forall field_fits fields -> sends (push_fields put_copy_data fields) (concat (map encode_field fields)).
Proof.
  intros Ha. induction 1 as [|f fields Hf _ IH].
  - intros s. exists s. cbn. by rewrite app_nil_r.
  - destruct f as [v|]; cbn [push_fields map concat encode_field].
    + cbn in Hf. rewrite u32_small by (unfold INT32_MAX, UINT32_MAX in *; lia). rewrite <- app_assoc.
      apply sends_bind; [apply push_data_sends; [done|cbn; unfold INT32_MAX; lia]|].
      apply sends_bind; [by apply push_data_sends|done].
    + apply sends_bind; [|done]. apply push_data_sends; [done|cbn; unfold INT32_MAX; lia].
Qed.

Lemma length_encode_field f :
  Z.of_nat (length (encode_field f)) = 4 + match f with None => 0 | Some v => Z.of_nat (length v) end.
Proof. destruct f; cbn [encode_field]; rewrite ?length_app; cbn; lia. Qed.

Lemma tuple_size_spec acc fields :
  0 <= acc -> acc + Z.of_nat (length (concat (map encode_field fields))) < 2 ^ 32 ->
  tuple_size_from acc fields = acc + Z.of_nat (length (concat (map encode_field fields))).
Proof.
  revert acc. induction fields as [|f fields IH]; intros acc H0 H; cbn [tuple_size_from map concat] in *; [cbn; lia|].
  rewrite length_app, Nat2Z.inj_add, length_encode_field in H |- *. destruct f as [v|].
  - unfold SIZE_OF_COLUMN_SIZE.
    rewrite (u32_small (acc + 4)), (u32_small (Z.of_nat (length v))), u32_small by (unfold UINT32_MAX; lia).
    rewrite IH by lia. lia.
  - unfold NULL_FIELD_SIZE. rewrite u32_small by (unfold UINT32_MAX; lia). rewrite IH by lia. lia.
Qed.

Lemma push_tuple_sends fields :
  accepting -> tuple_fits fields ->
  sends (push_tuple_as_next_column put_copy_data fields)
    (be32 (Z.of_nat (length (encode_tuple fields))) ++ encode_tuple fields).
Proof.
  intros Ha (Hn & Hf & Hl). unfold push_tuple_as_next_column.
  assert (tuple_size_from SIZE_OF_NUMBER_OF_COLUMNS fields = Z.of_nat (length (encode_tuple fields))) as ->.
  { unfold encode_tuple in *. rewrite length_app in *. cbn [be16 length] in *. rewrite tuple_size_spec;
      unfold SIZE_OF_NUMBER_OF_COLUMNS; lia. }
  rewrite wrap_u_small by lia.
  apply sends_bind; [apply push_data_sends; [done|cbn; unfold INT32_MAX; lia]|].
  apply sends_bind; [apply push_data_sends; [done|cbn; unfold INT32_MAX; lia]|].
  by apply push_fields_sends.
Qed.

End writing.

(** C26: A tuple pushed as a column of a COPY is read back: the bytes sent are a size, which
    is the exact length of what follows, and the tuple in COPY format, from which the
    iterator gives back every field, nulls and empty values included. *)
Theorem copy_round_trip put_copy_data fields s :
  (forall n, put_copy_data n = true) -> tuple_fits fields ->
  exists s' tuple, push_tuple_as_next_column put_copy_data fields s = (Ok tt, s') /\
    concat (cs_sent s') = concat (cs_sent s) ++ be32 (Z.of_nat (length tuple)) ++ tuple /\
    get32 (be32 (Z.of_nat (length tuple)) ++ tuple) 0 = Some (Z.of_nat (length tuple)) /\
    read_tuple tuple = Ok fields.
Proof.
  intros Ha Hfit. destruct (push_tuple_sends put_copy_data fields Ha Hfit s) as (s' & E & Hs & _).
  exists s', (encode_tuple fields). split_and!; [done|done| |].
  - apply (get32_be32 []). destruct Hfit as (_ & _ & H). lia.
  - destruct Hfit as (Hn & Hf & _). by apply read_encoded_tuple.
Qed.

(** The iterator trusts the sizes it reads: a tuple shorter than it claims is read past its
    end. *)
Theorem short_tuples_are_read_past_the_end :
  read_tuple (be16 1 ++ [byte 0]) = Throw ReadPastEnd /\
  read_tuple (be16 1 ++ be32 8 ++ lit "abc") = Throw ReadPastEnd /\
  read_tuple (be16 1) = Throw WrongNumberOfColumns.
Proof. by vm_compute. Qed.

Definition copied : list field := [Some (lit "alice"); None; Some []].

Lemma copy_round_trip_witness :
  exists s' tuple, push_tuple_as_next_column (fun _ => true) copied new_session = (Ok tt, s') /\
    concat (cs_sent s') = concat (cs_sent new_session) ++ be32 (Z.of_nat (length tuple)) ++ tuple /\
    get32 (be32 (Z.of_nat (length tuple)) ++ tuple) 0 = Some (Z.of_nat (length tuple)) /\
    read_tuple tuple = Ok copied.
Proof.
  apply (copy_round_trip (fun _ => true) copied new_session); [done|].
  split_and!; [done| |done]. repeat constructor; cbn; unfold INT32_MAX; lia.
Defined.
