(* ===== verification/Relations.v ===== *)
(** * Conditions and assignments of a row ([relation_wrapper.cpp], [columns_iterator.cpp])

    The SQL text of the primary key of a row and of an assignment of all its columns, built
    from the names of the columns and from the row in COPY format.  The functions of the
    types of columns (binary input, then text output) are a parameter. *)

From S2P Require Import Prelude Text CopyFormat.
From Stdlib Require Import ZArith Lia Ascii String.
From stdpp Require Import base list strings sorting.

Open Scope Z_scope.

(** ** [ColumnsIterator] *)

Record columns_iterator := { ci_columns : list chars; ci_current_column : nat }.

Definition new_columns_iterator (columns : list chars) : columns_iterator :=
  {| ci_columns := columns; ci_current_column := 0 |}.

Definition next_column (it : columns_iterator) : option chars * columns_iterator :=
  match ci_columns it !! ci_current_column it with
  | None => (None, it)
  | Some name => (Some name, {| ci_columns := ci_columns it; ci_current_column := S (ci_current_column it) |})
  end.

(** ** [RelationWrapper] *)

Record relation := {
  rel_name : chars;
  rel_columns : list chars;
  rel_type : nat -> option chars;                   (* SPI_gettype, from 0 *)
  rel_pkey_bitmap : option (list Z)                 (* members of get_primary_key_attnos *)
}.

Definition FirstLowInvalidHeapAttributeNumber : Z := -7.

Definition getPrimaryKeysColumns (r : relation) : list Z :=
  match rel_pkey_bitmap r with
  | None => []
  | Some members => map (fun column => column + FirstLowInvalidHeapAttributeNumber) members
  end.

Section relation.
  Context (receive_and_print : nat -> bytes -> outcome iterator_error chars).

(** A null field is passed as a null pointer with a size of -1, which the server's buffer
    refuses. *)
Definition binaryValueToText (value : field) (column_id : nat) : outcome iterator_error chars :=
  match value with
  | None => Throw ServerError
  | Some data => receive_and_print column_id data
  end.

(** [moveIteratorForward] on the columns. *)
Fixpoint move_columns_forward (result : option chars) (it : columns_iterator) (steps : nat) :
    option chars * columns_iterator :=
  match steps with
  | O => (result, it)
  | S steps' => let '(result, it) := next_column it in move_columns_forward result it steps'
  end.

(** [moveIteratorForward] on the fields. *)
Fixpoint move_fields_forward (result : option field_ref) (it : tuples_field_iterator) (steps : nat) :
    outcome iterator_error (option field_ref * tuples_field_iterator) :=
  match steps with
  | O => Ok (result, it)
  | S steps' => '(result, it) ← next it; move_fields_forward result it steps'
  end.

Definition append_condition (result column_name value : chars) : chars :=
  (match result with [] => [] | _ => result ++ lit " AND " end) ++ column_name ++ lit "=" ++ value.

Fixpoint pkey_conditions (keys : list nat) (previous_column : nat) (columns_it : columns_iterator)
    (tuples_fields_it : tuples_field_iterator) (result : chars) : outcome iterator_error chars :=
  match keys with
  | [] => Ok result
  | pkey_column_id :: keys' =>
      let '(column_name_value, columns_it) :=
        move_columns_forward None columns_it (pkey_column_id - previous_column) in
      '(field_value, tuples_fields_it) ←
        move_fields_forward None tuples_fields_it (pkey_column_id - previous_column);
      match field_value with
      | None => Throw IncorrectTupleFormat
      | Some f =>
          data ← field_bytes (it_tuple_bytes tuples_fields_it) f;
          value ← binaryValueToText data (pkey_column_id - 1);
          pkey_conditions keys' pkey_column_id columns_it tuples_fields_it
            (append_condition result (default [] column_name_value) value)
      end
  end.

Definition createPkeyCondition (r : relation) (tuple : bytes) : outcome iterator_error chars :=
  tuples_fields_it ← new_iterator tuple;
  pkey_conditions (map Z.to_nat (getPrimaryKeysColumns r)) 0 (new_columns_iterator (rel_columns r))
    tuples_fields_it [].

Definition append_assignment (result column_name value type_name : chars) : chars :=
  (match result with [] => [] | _ => result ++ lit "," end)
  ++ column_name ++ lit "='" ++ value ++ lit "'::" ++ type_name.

(** The loop, called once more than there are fields. *)
Fixpoint row_assignments (calls : nat) (r : relation) (columns_it : columns_iterator)
    (tuples_fields_it : tuples_field_iterator) (column_id : nat) (result : chars) :
    outcome iterator_error chars :=
  match calls with
  | O => Ok result
  | S calls' =>
      '(field_value, tuples_fields_it) ← next tuples_fields_it;
      match field_value with
      | None => Ok result
      | Some f =>
          let '(column_name, columns_it) := next_column columns_it in
          match column_name with
          | None => Throw IncorrectTupleFormat
          | Some column_name =>
              data ← field_bytes (it_tuple_bytes tuples_fields_it) f;
              value ← binaryValueToText data column_id;
              match rel_type r column_id with
              | None => Throw NoTypeName
              | Some type_name =>
                  row_assignments calls' r columns_it tuples_fields_it (S column_id)
                    (append_assignment result column_name value type_name)
              end
          end
      end
  end.

Definition createRowValuesAssignment (r : relation) (tuple : bytes) : outcome iterator_error chars :=
  it ← new_iterator tuple;
  row_assignments (S (Z.to_nat (it_number_of_fields it))) r (new_columns_iterator (rel_columns r)) it 0 [].

(** ** Positions in an encoded row *)

Section positions.
  Context (fields : list field).
  Context (Hn : Z.of_nat (length fields) < 2 ^ 16) (Hf : Forall field_fits fields).

Definition position (k : nat) : tuples_field_iterator :=
  iterator_at (Z.of_nat (length fields))
    (be16 (Z.of_nat (length fields)) ++ concat (map encode_field (take k fields))) k (drop k fields).

Lemma position_bytes k : it_tuple_bytes (position k) = encode_tuple fields.
Proof.
  unfold position, iterator_at, encode_tuple. cbn [it_tuple_bytes].
  rewrite <- app_assoc, <- concat_app, <- map_app, take_drop. done.
Qed.

Lemma new_iterator_position : new_iterator (encode_tuple fields) = Ok (position 0).
Proof.
  unfold new_iterator. assert (2 <= length (encode_tuple fields))%nat as Hl
    by (unfold encode_tuple; rewrite length_app; cbn; lia).
  rewrite (proj2 (Nat.ltb_ge _ _)) by exact Hl.
  pose proof (get16_be16 [] (Z.of_nat (length fields)) (concat (map encode_field fields)) ltac:(lia)) as Hg.
  cbn [app length] in Hg. unfold encode_tuple at 1. rewrite Hg. do 2 f_equal.
Qed.

Lemma next_position k f : fields !! k = Some f ->
  exists r, next (position k) = Ok (Some r, position (S k)) /\ field_bytes (encode_tuple fields) r = Ok f.
Proof.
  intros Hk. pose proof (lookup_lt_Some _ _ _ Hk) as Hlt. unfold position at 1.
  rewrite (drop_S _ _ _ Hk).
  destruct (next_field (Z.of_nat (length fields))
    (be16 (Z.of_nat (length fields)) ++ concat (map encode_field (take k fields))) k f (drop (S k) fields))
    as (r & E & Hr); [lia|done| |].
  { rewrite Forall_forall in Hf. apply Hf. by eapply list_elem_of_lookup_2. }
  exists r. rewrite <- (drop_S _ _ _ Hk) in Hr. split.
  - rewrite E. do 2 f_equal. unfold position. f_equal. rewrite <- app_assoc. f_equal.
    rewrite (take_S_r _ _ _ Hk), map_app, concat_app. cbn [map concat]. by rewrite app_nil_r.
  - rewrite <- Hr. f_equal. unfold encode_tuple. by rewrite <- app_assoc, <- concat_app, <- map_app, take_drop.
Qed.

Lemma next_position_end : next (position (length fields)) = Ok (None, position (length fields)).
Proof. unfold next, at_end, position, iterator_at. cbn. by rewrite Z.eqb_refl. Qed.

(** Moving forward ends behind the field that is returned. *)
Lemma move_fields_position k steps res f :
  fields !! (k + steps)%nat = Some f ->
  exists r, move_fields_forward res (position k) (S steps) = Ok (Some r, position (k + S steps)) /\
    field_bytes (encode_tuple fields) r = Ok f.
Proof.
  revert k res. induction steps as [|steps IH]; intros k res Hk.
  - rewrite Nat.add_0_r in Hk. destruct (next_position k f Hk) as (r & E & Hr). exists r.
    cbn. rewrite E. cbn. by replace (k + 1)%nat with (S k) by lia.
  - destruct (lookup_lt_is_Some_2 fields k) as [g Hg]; [apply lookup_lt_Some in Hk; lia|].
    destruct (next_position k g Hg) as (r0 & E & _).
    destruct (IH (S k) (Some r0)) as (r & E' & Hr); [by replace (S k + steps)%nat with (k + S steps)%nat by lia|].
    exists r. split; [|done]. cbn [move_fields_forward] in E' |- *. rewrite E. cbn [mbind outcome_bind].
    rewrite E'. by replace (S k + S steps)%nat with (k + S (S steps))%nat by lia.
Qed.

End positions.

Lemma move_columns_position columns k steps res name :
  columns !! (k + steps)%nat = Some name ->
  move_columns_forward res {| ci_columns := columns; ci_current_column := k |} (S steps)
  = (Some name, {| ci_columns := columns; ci_current_column := k + S steps |}).
Proof.
  revert k res. induction steps as [|steps IH]; intros k res Hk.
  - rewrite Nat.add_0_r in Hk. cbn. unfold next_column. cbn. rewrite Hk. by replace (k + 1)%nat with (S k) by lia.
  - destruct (lookup_lt_is_Some_2 columns k) as [g Hg]; [apply lookup_lt_Some in Hk; lia|].
    cbn [move_columns_forward]. unfold next_column at 1. cbn [ci_columns ci_current_column]. rewrite Hg.
    change (move_columns_forward (Some g) {| ci_columns := columns; ci_current_column := S k |} (S steps)
      = (Some name, {| ci_columns := columns; ci_current_column := k + S (S steps) |})).
    rewrite IH; [|by replace (S k + steps)%nat with (k + S steps)%nat by lia].
    by replace (S k + S steps)%nat with (k + S (S steps))%nat by lia.
Qed.

(** ** The texts *)

(** The texts of the columns of a row, when every one has a value its type accepts. *)
Definition column_texts (fields : list field) (texts : list chars) : Prop :=
  length texts = length fields /\
  forall k f text, fields !! k = Some f -> texts !! k = Some text -> binaryValueToText f k = Ok text.

Definition pkey_text (columns texts : list chars) (result : chars) (key : nat) : chars :=
  append_condition result (default [] (columns !! (key - 1)%nat)) (default [] (texts !! (key - 1)%nat)).

Lemma pkey_conditions_spec fields texts columns keys k result :
  Z.of_nat (length fields) < 2 ^ 16 -> Forall field_fits fields -> length columns = length fields ->
  column_texts fields texts ->
  Forall (fun key => (0 < key <= length fields)%nat) keys ->
  StronglySorted lt (k :: keys) ->
  pkey_conditions keys k {| ci_columns := columns; ci_current_column := k |} (position fields k) result
  = Ok (foldl (pkey_text columns texts) result keys).
Proof.
  intros Hn Hf Hc [Hl Ht] Hr Hs. revert k result Hs.
  induction Hr as [|key keys Hkey _ IH]; intros k result Hs; [done|].
  apply StronglySorted_inv in Hs as [Hs Hall]. apply Forall_cons in Hall as [Hlt _].
  cbn [pkey_conditions foldl]. replace (key - k)%nat with (S (key - 1 - k))%nat by lia.
  destruct (lookup_lt_is_Some_2 columns (key - 1)) as [name Hname]; [lia|].
  destruct (lookup_lt_is_Some_2 fields (key - 1)) as [f Hfield]; [lia|].
  destruct (lookup_lt_is_Some_2 texts (key - 1)) as [text Htext]; [lia|].
  rewrite (move_columns_position _ _ _ None name) by (by replace (k + (key - 1 - k))%nat with (key - 1)%nat by lia).
  destruct (move_fields_position fields Hn Hf k (key - 1 - k) None f) as (r & E & Hb);
    [by replace (k + (key - 1 - k))%nat with (key - 1)%nat by lia|].
  rewrite E. cbn [mbind outcome_bind]. rewrite position_bytes, Hb. cbn [mbind outcome_bind].
  rewrite (Ht _ _ _ Hfield Htext). cbn [mbind outcome_bind].
  replace (k + S (key - 1 - k))%nat with key by lia. rewrite IH by done. do 2 f_equal.
  unfold pkey_text. by rewrite Hname, Htext.
Qed.

Definition assignment_text (r : relation) (texts : list chars) (result : chars) (k : nat) : chars :=
  append_assignment result (default [] (rel_columns r !! k)) (default [] (texts !! k)) (default [] (rel_type r k)).

Lemma row_assignments_spec r fields texts calls k result :
  Z.of_nat (length fields) < 2 ^ 16 -> Forall field_fits fields -> length (rel_columns r) = length fields ->
  column_texts fields texts -> (forall i, (i < length fields)%nat -> is_Some (rel_type r i)) ->
  (k + calls)%nat = length fields ->
  row_assignments (S calls) r {| ci_columns := rel_columns r; ci_current_column := k |} (position fields k) k result
  = Ok (foldl (assignment_text r texts) result (seq k calls)).
Proof.
  intros Hn Hf Hc [Hl Ht] Hty. revert k result.
  induction calls as [|calls IH]; intros k result Hk.
  - replace k with (length fields) by lia. cbn [row_assignments]. by rewrite next_position_end.
  - destruct (lookup_lt_is_Some_2 (rel_columns r) k) as [name Hname]; [lia|].
    destruct (lookup_lt_is_Some_2 fields k) as [f Hfield]; [lia|].
    destruct (lookup_lt_is_Some_2 texts k) as [text Htext]; [lia|].
    destruct (Hty k) as [type_name Htype]; [lia|].
    destruct (next_position fields Hn Hf k f Hfield) as (ref & E & Hb).
    remember (S calls) as c eqn:Ec. cbn [row_assignments]. subst c. rewrite E. cbn [mbind outcome_bind].
    unfold next_column. cbn [ci_columns ci_current_column]. rewrite Hname, position_bytes, Hb.
    cbn [mbind outcome_bind]. rewrite (Ht _ _ _ Hfield Htext). cbn [mbind outcome_bind]. rewrite Htype.
    rewrite IH by lia. cbn [seq foldl]. do 2 f_equal. unfold assignment_text. by rewrite Hname, Htext, Htype.
Qed.

End relation.

(** For a row in COPY format whose columns have values their types accept, the text of
    the primary key names exactly the key columns with the values of those columns, however
    far apart they are, and the text of the assignment lists every column once, in order,
    with its value and its type. *)
Theorem row_texts receive r fields texts :
  tuple_fits fields -> length (rel_columns r) = length fields -> column_texts receive fields texts ->
  (forall i, (i < length fields)%nat -> is_Some (rel_type r i)) ->
  createRowValuesAssignment receive r (encode_tuple fields)
    = Ok (foldl (assignment_text r texts) [] (seq 0 (length fields))) /\
  (forall keys, map Z.to_nat (getPrimaryKeysColumns r) = keys ->
     StronglySorted lt (0%nat :: keys) -> Forall (fun key => (key <= length fields)%nat) keys ->
     createPkeyCondition receive r (encode_tuple fields)
       = Ok (foldl (pkey_text (rel_columns r) texts) [] keys)).
Proof.
  intros (Hn & Hf & _) Hc Ht Hty. split.
  - unfold createRowValuesAssignment. rewrite new_iterator_position by done. cbn [mbind outcome_bind].
    unfold position at 1, iterator_at at 1. cbn [it_number_of_fields]. rewrite Nat2Z.id.
    by apply row_assignments_spec.
  - intros keys Hkeys Hs Hle. unfold createPkeyCondition. rewrite new_iterator_position by done.
    cbn [mbind outcome_bind]. rewrite Hkeys. apply pkey_conditions_spec; try done.
    apply StronglySorted_inv in Hs as [_ H0]. rewrite Forall_forall in *. intros key Hin.
    specialize (Hle key Hin). specialize (H0 key Hin). lia.
Qed.

(** ** Examples *)

Module RelationExamples.

(** A type whose binary and text forms are the same. *)
Definition same_text (_ : nat) (data : bytes) : outcome iterator_error chars := Ok data.

Definition accounts : relation := {|
  rel_name := lit "accounts"; rel_columns := [lit "id"; lit "name"; lit "block_num"];
  rel_type := fun _ => Some (lit "text"); rel_pkey_bitmap := Some [8; 10] |}.

Definition row : list field := [Some (lit "7"); Some (lit "alice"); Some (lit "12")].

Lemma row_texts_witness :
  createRowValuesAssignment same_text accounts (encode_tuple row)
    = Ok (lit "id='7'::text,name='alice'::text,block_num='12'::text") /\
  createPkeyCondition same_text accounts (encode_tuple row) = Ok (lit "id=7 AND block_num=12").
Proof.
  destruct (row_texts same_text accounts row [lit "7"; lit "alice"; lit "12"]) as [H1 H2].
  - split_and!; [done| |done]. repeat constructor; cbn; unfold INT32_MAX; lia.
  - done.
  - split; [done|]. intros [|[|[|k]]] f text; cbn; try done; by intros [= <-] [= <-].
  - by eexists.
  - rewrite H1, (H2 [1%nat; 3%nat]); [done|done| |]; repeat constructor; cbn; lia.
Defined.

(** A value is put between quotes as it is, and a null value is an error of the server. *)
Theorem values_are_not_escaped :
  createRowValuesAssignment same_text {| rel_name := []; rel_columns := [lit "name"];
    rel_type := fun _ => Some (lit "text"); rel_pkey_bitmap := None |} (encode_tuple [Some (lit "o'neil")])
    = Ok (lit "name='o'neil'::text") /\
  createRowValuesAssignment same_text accounts (encode_tuple [Some (lit "7"); None; Some (lit "12")])
    = Throw ServerError.
Proof. by vm_compute. Qed.

End RelationExamples.
