(* ===== verification/RelationNames.v ===== *)
(** * Relations opened by name ([relation_from_name.cpp], [relation.cpp])

    The interface [IRelation] as a class, its two implementations as instances: [RelationWrapper]
    over a relation somebody else has opened (Relations), and [RelationFromName], which opens it,
    shares its methods and closes it.  Finding a table is the server's, as is the table of its
    open relations: how often each is referenced and which locks the transaction holds. *)

From Stdlib Require Import ZArith Lia Ascii String.
From stdpp Require Import base list strings gmap sets.
From S2P Require Import Prelude Text CopyFormat Relations.

Open Scope Z_scope.

Section relation_names.
  Context (receive_and_print : nat -> bytes -> outcome iterator_error chars).

(** ** [IRelation] *)

Class IRelation (X : Type) := {
  ir_getPrimaryKeysColumns : X -> list Z;
  ir_getColumns : X -> columns_iterator;
  ir_createPkeyCondition : X -> bytes -> outcome iterator_error chars;
  ir_createRowValuesAssignment : X -> bytes -> outcome iterator_error chars;
  ir_getName : X -> chars
}.

(** [RelationWrapper], which is never made of a null pointer. *)
Record relation_wrapper := { rw_relation : relation }.

Inductive open_error :=
| RelationIsNull
| CannotOpen (relation_name : chars)
| NoSuchTable.                                      (* raised by the server *)

Definition new_relation_wrapper (r : option relation) : outcome open_error relation_wrapper :=
  match r with Some r => Ok {| rw_relation := r |} | None => Throw RelationIsNull end.

Definition wrapper_members : IRelation relation_wrapper := {|
  ir_getPrimaryKeysColumns := fun w => getPrimaryKeysColumns (rw_relation w);
  ir_getColumns := fun w => new_columns_iterator (rel_columns (rw_relation w));
  ir_createPkeyCondition := fun w => createPkeyCondition receive_and_print (rw_relation w);
  ir_createRowValuesAssignment := fun w => createRowValuesAssignment receive_and_print (rw_relation w);
  ir_getName := fun w => rel_name (rw_relation w)
|}.
#[local] Existing Instance wrapper_members.

(** ** [RelationFromName] *)

  Context {RangeVar : Type} (makeRangeVar : chars -> option RangeVar)
    (find_table : RangeVar -> option (option relation)).     (* [None]: the server raises an error *)

Record open_relations := {
  or_references : gmap chars nat;
  or_access_share_locks : gset chars
}.

Definition references (name : chars) (s : open_relations) : nat := default 0%nat (or_references s !! name).

Definition table_openrv (range : RangeVar) (s : open_relations) : outcome open_error (option relation) * open_relations :=
  match find_table range with
  | None => (Throw NoSuchTable, s)
  | Some None => (Ok None, s)
  | Some (Some r) =>
      (Ok (Some r), {| or_references := <[rel_name r := S (references (rel_name r) s)]> (or_references s);
                       or_access_share_locks := {[rel_name r]} ∪ or_access_share_locks s |})
  end.

(** With [NoLock] the lock stays until the transaction ends. *)
Definition table_close (r : relation) (s : open_relations) : open_relations :=
  {| or_references := <[rel_name r := pred (references (rel_name r) s)]> (or_references s);
     or_access_share_locks := or_access_share_locks s |}.

Record relation_from_name := {
  m_postgres_relation : relation;
  m_relation_wrapper : relation_wrapper
}.

Definition new_relation_from_name (_relation_name : chars) (s : open_relations) :
    outcome open_error relation_from_name * open_relations :=
  match makeRangeVar _relation_name with
  | None => (Throw (CannotOpen _relation_name), s)
  | Some range =>
      let '(o, s) := table_openrv range s in
      match o with
      | Throw e => (Throw e, s)
      | Ok None => (Throw (CannotOpen _relation_name), s)
      | Ok (Some r) =>
          match new_relation_wrapper (Some r) with
          | Ok w => (Ok {| m_postgres_relation := r; m_relation_wrapper := w |}, s)
          | Throw e => (Throw e, s)
          end
      end
  end.

Definition destroy_relation_from_name (r : relation_from_name) (s : open_relations) : open_relations :=
  table_close (m_postgres_relation r) s.

Definition from_name_members : IRelation relation_from_name := {|
  ir_getPrimaryKeysColumns := fun r => ir_getPrimaryKeysColumns (m_relation_wrapper r);
  ir_getColumns := fun r => ir_getColumns (m_relation_wrapper r);
  ir_createPkeyCondition := fun r => ir_createPkeyCondition (m_relation_wrapper r);
  ir_createRowValuesAssignment := fun r => ir_createRowValuesAssignment (m_relation_wrapper r);
  ir_getName := fun r => ir_getName (m_relation_wrapper r)
|}.
#[local] Existing Instance from_name_members.

(** ** Both are the same relation *)

Definition same_relation {X Y} `{IRelation X, IRelation Y} (x : X) (y : Y) : Prop :=
  ir_getPrimaryKeysColumns x = ir_getPrimaryKeysColumns y /\ ir_getColumns x = ir_getColumns y /\
  (forall tuple, ir_createPkeyCondition x tuple = ir_createPkeyCondition y tuple) /\
  (forall tuple, ir_createRowValuesAssignment x tuple = ir_createRowValuesAssignment y tuple) /\
  ir_getName x = ir_getName y.

(** A relation opened by name behaves as a wrapper of the table of that name; once destroyed it
    leaves every reference count as it was, and only the lock.  A failed constructor changes
    nothing. *)
Theorem opened_by_name name s o s' :
  new_relation_from_name name s = (o, s') ->
  match o with
  | Throw _ => s' = s
  | Ok r =>
      (exists range t w, makeRangeVar name = Some range /\ find_table range = Some (Some t) /\
         new_relation_wrapper (Some t) = Ok w /\ same_relation r w /\ rel_name t ∈ or_access_share_locks s') /\
      (forall other, references other (destroy_relation_from_name r s') = references other s) /\
      or_access_share_locks s' ⊆ or_access_share_locks (destroy_relation_from_name r s')
  end.
Proof.
  unfold new_relation_from_name, table_openrv. intros E.
  destruct (makeRangeVar name) as [range|] eqn:Er; [|by injection E as <- <-].
  destruct (find_table range) as [[t|]|] eqn:Et; try (by injection E as <- <-).
  injection E as <- <-. split_and!; [|intros other|done].
  - exists range, t, {| rw_relation := t |}. split_and!; [done..| |cbn; set_solver]. by repeat split.
  - unfold destroy_relation_from_name, table_close, references. cbn. rewrite lookup_insert_eq. cbn.
    destruct (decide (other = rel_name t)) as [->|Hne]; [by rewrite lookup_insert_eq|].
    by rewrite !lookup_insert_ne by congruence.
Qed.

End relation_names.

Module RelationNameExamples.

Definition find (name : chars) : option (option relation) :=
  if bool_decide (name = lit "accounts") then Some (Some RelationExamples.accounts) else None.

Definition none_open : open_relations := {| or_references := ∅; or_access_share_locks := ∅ |}.

Example accounts_are_opened :
  match new_relation_from_name Some find (lit "accounts") none_open with
  | (Ok r, s) => references (lit "accounts") s = 1%nat /\ references (lit "accounts") (destroy_relation_from_name r s) = 0%nat
  | _ => False
  end.
Proof. by vm_compute. Qed.

Example blocks_are_missing :
  fst (new_relation_from_name Some find (lit "blocks") none_open) = Throw NoSuchTable.
Proof. by vm_compute. Qed.

End RelationNameExamples.
