(* ===== verification/Sessions.v ===== *)
(** * Connections made by functions of the server ([pq_utils], [psql_utils])

    The client connected to the current database and its transactions ([db_client.cpp],
    [transaction.cpp]), and the session of the server programming interface with the result
    of its query ([spi_session.cpp], [spi_select_result_iterator.cpp]).

    The server is a parameter: whether a connection, a statement or a query succeeds. *)

From S2P Require Import Prelude Text.
From Stdlib Require Import ZArith Lia Ascii String.
From stdpp Require Import base list strings relations.

Open Scope haf_scope.

(** ** [Transaction] *)

Inductive client_error :=
| IncorrectDatabaseName
| FailedConnection
| ConnectionIsNull
| CannotStartTransaction
| CannotExecute (sql : chars).

(** The server's side of a connection: the transaction that is open, with the statements it
    executed or aborted by a failure, and what is committed. *)
Inductive server_transaction := InTransaction (executed : list chars) | AbortedTransaction.

Record pg_connection := {
  pc_transaction : option server_transaction;
  pc_committed : list chars;
  pc_commands : list chars                          (* every command received *)
}.

Definition new_connection : pg_connection :=
  {| pc_transaction := None; pc_committed := []; pc_commands := [] |}.

Definition CL (A : Type) : Type := ST pg_connection client_error A.

Section transaction.
  Context (accepts : list chars -> chars -> bool).  (* the statement succeeds after these commands *)

(** [PQexec] of a command, and whether its status is PGRES_COMMAND_OK.  A COMMIT of an aborted
    transaction rolls it back with that status. *)
Definition PQexec (sql : chars) : CL bool := fun c =>
  let commands := pc_commands c ++ [sql] in
  let ok := accepts (pc_commands c) sql in
  let make t k := {| pc_transaction := t; pc_committed := k; pc_commands := commands |} in
  if bool_decide (sql = lit "BEGIN TRANSACTION") then
    if ok then (Ok true, make (Some (InTransaction [])) (pc_committed c))
    else (Ok false, make (pc_transaction c) (pc_committed c))
  else if bool_decide (sql = lit "COMMIT") then
    match pc_transaction c with
    | Some (InTransaction executed) =>
        if ok then (Ok true, make None (pc_committed c ++ executed))
        else (Ok false, make None (pc_committed c))
    | _ => (Ok true, make None (pc_committed c))
    end
  else
    match pc_transaction c with
    | Some (InTransaction executed) =>
        if ok then (Ok true, make (Some (InTransaction (executed ++ [sql]))) (pc_committed c))
        else (Ok false, make (Some AbortedTransaction) (pc_committed c))
    | Some AbortedTransaction => (Ok false, make (Some AbortedTransaction) (pc_committed c))
    | None =>
        if ok then (Ok true, make None (pc_committed c ++ [sql]))
        else (Ok false, make None (pc_committed c))
    end.

(** The constructor. *)
Definition start_transaction (connected : bool) : CL unit :=
  st_assert connected ConnectionIsNull ;;;
  let* ok := PQexec (lit "BEGIN TRANSACTION") in st_assert ok CannotStartTransaction.

(** The destructor logs a failure and does not throw. *)
Definition destroy_transaction : CL unit := PQexec (lit "COMMIT") ;;; st_ret tt.

Definition execute (_sql : chars) : CL unit :=
  let* ok := PQexec _sql in st_assert ok (CannotExecute _sql).

Fixpoint execute_all (sqls : list chars) : CL unit :=
  match sqls with [] => st_ret tt | sql :: sqls' => execute sql ;;; execute_all sqls' end.

(** A scope with a transaction: the destructor runs on every path that constructed it. *)
Definition in_transaction (sqls : list chars) : CL unit :=
  start_transaction true ;;;
  (fun c => let '(r, c1) := execute_all sqls c in (r, snd (destroy_transaction c1))).

Definition plain_statement (sql : chars) : Prop := sql <> lit "BEGIN TRANSACTION" /\ sql <> lit "COMMIT".

Lemma PQexec_statement sql c executed :
  plain_statement sql -> pc_transaction c = Some (InTransaction executed) ->
  exists c', PQexec sql c = (Ok (accepts (pc_commands c) sql), c') /\ pc_committed c' = pc_committed c /\
    pc_transaction c' = Some (if accepts (pc_commands c) sql then InTransaction (executed ++ [sql])
                              else AbortedTransaction).
Proof.
  intros [H1 H2] Ht. unfold PQexec. rewrite !bool_decide_eq_false_2 by done. rewrite Ht.
  destruct (accepts _ _); by eexists.
Qed.

Lemma execute_all_spec sqls c executed :
  Forall plain_statement sqls -> pc_transaction c = Some (InTransaction executed) ->
  exists r c', execute_all sqls c = (r, c') /\ pc_committed c' = pc_committed c /\
    match r with
    | Ok _ => pc_transaction c' = Some (InTransaction (executed ++ sqls))
    | Throw _ => pc_transaction c' = Some AbortedTransaction
    end.
Proof.
  intros Hp. revert c executed. induction Hp as [|sql sqls Hsql _ IH]; intros c executed Ht.
  - exists (Ok tt), c. by rewrite app_nil_r.
  - destruct (PQexec_statement sql c executed Hsql Ht) as (c1 & E & Hk & Ht1).
    cbn [execute_all]. unfold execute, st_bind at 1 2. rewrite E. destruct (accepts (pc_commands c) sql); cbn.
    + destruct (IH c1 _ Ht1) as (r & c' & E' & Hk' & H'). exists r, c'. rewrite E'. split_and!; [done|congruence|].
      destruct r; [by rewrite H', <- app_assoc|done].
    + by eexists _, _.
Qed.

(** A transaction is all or nothing, although its destructor always sends COMMIT: when
    every statement succeeds they are all committed, or none is when the COMMIT is refused;
    when one fails, its exception leaves the scope and nothing is committed. *)
Theorem transaction_is_atomic sqls c :
  Forall plain_statement sqls ->
  exists r c', in_transaction sqls c = (r, c') /\
    (pc_committed c' = pc_committed c \/ (pc_committed c' = pc_committed c ++ sqls /\ r = Ok tt)) /\
    (r <> Ok tt -> pc_committed c' = pc_committed c) /\
    (accepts (pc_commands c) (lit "BEGIN TRANSACTION") = true -> pc_transaction c' = None).
Proof.
  intros Hp. unfold in_transaction, start_transaction, st_bind, st_assert, st_ret, st_throw.
  assert (PQexec (lit "BEGIN TRANSACTION") c = (Ok (accepts (pc_commands c) (lit "BEGIN TRANSACTION")),
    {| pc_transaction := if accepts (pc_commands c) (lit "BEGIN TRANSACTION") then Some (InTransaction []) else pc_transaction c;
       pc_committed := pc_committed c; pc_commands := pc_commands c ++ [lit "BEGIN TRANSACTION"] |})) as ->.
  { unfold PQexec. rewrite bool_decide_eq_true_2 by done. by destruct (accepts _ _). }
  destruct (accepts (pc_commands c) (lit "BEGIN TRANSACTION")).
  2: { eexists _, _. split; [reflexivity|]. split; [by left|]. by split. }
  set (c0 := Build_pg_connection _ _ _).
  destruct (execute_all_spec sqls c0 [] Hp eq_refl) as (r & c1 & E & Hk & Ht). rewrite E.
  exists r. unfold destroy_transaction, st_bind, st_ret.
  destruct r as [[]|e]; cbn [app] in Ht.
  - unfold PQexec. rewrite bool_decide_eq_false_2, bool_decide_eq_true_2, Ht by done.
    destruct (accepts _ _); eexists; (split; [reflexivity|]); cbn; rewrite Hk.
    + split; [by right|by split].
    + split; [by left|by split].
  - unfold PQexec. rewrite bool_decide_eq_false_2, bool_decide_eq_true_2, Ht by done.
    eexists. split; [reflexivity|]. cbn. rewrite Hk. split; [by left|by split].
Qed.

End transaction.

(** ** [DbClient] *)

(** The number of connections tried so far and the client kept, if any. *)
Record clients := { dc_tried : nat; dc_instance : option nat }.

Section db_client.
  Context (connects : nat -> bool)                  (* the n-th connection is established *)
    (is_connected : nat -> bool).                   (* the server has not closed it *)

Definition new_client (_db_name : chars) : ST clients client_error nat := fun s =>
  if bool_decide (_db_name = []) then (Throw IncorrectDatabaseName, s)
  else
    let s' := {| dc_tried := S (dc_tried s); dc_instance := dc_instance s |} in
    if connects (dc_tried s) then (Ok (dc_tried s), s') else (Throw FailedConnection, s').

Definition reset_instance (_db_name : chars) : ST clients client_error unit :=
  let* n := new_client _db_name in
  st_modify (fun s => {| dc_tried := dc_tried s; dc_instance := Some n |}).

(** A client just made is connected; one made earlier may not be any more, and is replaced
    once. *)
Definition currentDatabase (_db_name : chars) : ST clients client_error nat :=
  let* s := st_get in
  (match dc_instance s with
   | None => reset_instance _db_name
   | Some n => if is_connected n then st_ret tt else reset_instance _db_name
   end) ;;;
  let* s := st_get in st_ret (default O (dc_instance s)).

(** The client returned is the one kept, connected, and made by at most one attempt; an
    attempt that fails keeps what was there, so that the next call tries again. *)
Theorem current_database_reconnects _db_name s r s' :
  currentDatabase _db_name s = (r, s') ->
  (dc_tried s' <= S (dc_tried s))%nat /\
  match r with
  | Ok n => dc_instance s' = Some n /\
      ((dc_instance s = Some n /\ is_connected n = true /\ s' = s) \/ (n = dc_tried s /\ connects n = true))
  | Throw _ => dc_instance s' = dc_instance s
  end.
Proof.
  unfold currentDatabase, reset_instance, new_client, st_bind, st_get, st_ret, st_modify.
  destruct (dc_instance s) as [n|] eqn:Hi; [destruct (is_connected n) eqn:Hc|].
  - intros [= <- <-]. rewrite Hi. split; [lia|]. split; [done|]. by left.
  - case_bool_decide; [intros [= <- <-]; split; [lia|done]|].
    destruct (connects (dc_tried s)) eqn:Hk; intros [= <- <-]; cbn; split; try lia; try done. split; [done|]. by right.
  - case_bool_decide; [intros [= <- <-]; split; [lia|done]|].
    destruct (connects (dc_tried s)) eqn:Hk; intros [= <- <-]; cbn; split; try lia; try done. split; [done|]. by right.
Qed.

End db_client.

(** ** [SpiSession], [SelectResultIterator] *)

Inductive spi_error :=
| CannotConnectToSpi
| TwoQueries (query : chars)
| CannotExecuteQuery.

(** The session is shared: it lives while it has owners.  The server keeps the result of the last
    statement of a connection to the interface ([SPI_tuptable], of [SPI_processed] rows); closing
    the connection gives back the result of the enclosing one. *)
Record spi := {
  sp_owners : nat;                                  (* shared_ptr< SpiSession > *)
  sp_connections : nat;                             (* SPI_connect without SPI_finish *)
  sp_iterator : option (chars * nat);               (* query and row of the live iterator *)
  sp_tuptable : option (list chars)                 (* SPI_tuptable *)
}.

Definition SPI (A : Type) : Type := ST spi spi_error A.

Section spi.
  Context (spi_connects : bool)
    (select : chars -> option (list chars))         (* SPI_execute, read only *)
    (utility : chars -> bool)
    (outer : option (list chars)).                  (* the result of the enclosing connection *)

Definition no_spi : spi := {| sp_owners := 0; sp_connections := 0; sp_iterator := None; sp_tuptable := outer |}.

Definition SPI_processed (s : spi) : nat := match sp_tuptable s with Some rows => length rows | None => 0 end.

Definition create_session : SPI unit := fun s =>
  match sp_owners s with
  | O =>
      if spi_connects then
        (Ok tt, {| sp_owners := 1; sp_connections := S (sp_connections s);
                   sp_iterator := sp_iterator s; sp_tuptable := None |})
      else (Throw CannotConnectToSpi, s)
  | S _ => (Ok tt, {| sp_owners := S (sp_owners s); sp_connections := sp_connections s;
                      sp_iterator := sp_iterator s; sp_tuptable := sp_tuptable s |})
  end.

(** An owner goes away; the last one finishes. *)
Definition release_session : SPI unit := fun s =>
  match sp_owners s with
  | O => (Ok tt, s)
  | 1%nat => (Ok tt, {| sp_owners := 0; sp_connections := pred (sp_connections s);
                        sp_iterator := sp_iterator s; sp_tuptable := outer |})
  | S n => (Ok tt, {| sp_owners := n; sp_connections := sp_connections s;
                      sp_iterator := sp_iterator s; sp_tuptable := sp_tuptable s |})
  end.

(** [SelectResultIterator::create]; the iterator is not an owner of the session. *)
Definition executeSelect (query : chars) : SPI unit := fun s =>
  match sp_iterator s with
  | Some (previous, _) => (Throw (TwoQueries previous), s)
  | None =>
      match select query with
      | None => (Throw CannotExecuteQuery, {| sp_owners := sp_owners s; sp_connections := sp_connections s;
                                              sp_iterator := None; sp_tuptable := None |})
      | Some rows => (Ok tt, {| sp_owners := sp_owners s; sp_connections := sp_connections s;
                                sp_iterator := Some (query, O); sp_tuptable := Some rows |})
      end
  end.

(** Executing another statement replaces the result; a utility statement has no rows. *)
Definition executeUtil (query : chars) : SPI unit := fun s =>
  let s' := {| sp_owners := sp_owners s; sp_connections := sp_connections s;
               sp_iterator := sp_iterator s; sp_tuptable := None |} in
  if utility query then (Ok tt, s') else (Throw CannotExecuteQuery, s').

(** [next] of the live iterator; it reads the result of the server, whatever query it is of. *)
Definition next_row (s : spi) : option chars * spi :=
  match sp_iterator s with
  | None => (None, s)
  | Some (query, row) =>
      if (SPI_processed s <=? row)%nat then (None, s)
      else (sp_tuptable s ≫= (fun rows => rows !! row),
            {| sp_owners := sp_owners s; sp_connections := sp_connections s;
               sp_iterator := Some (query, S row); sp_tuptable := sp_tuptable s |})
  end.

(** The calls of [next] until it has no row. *)
Fixpoint all_rows (calls : nat) (s : spi) : list chars :=
  match calls with
  | O => []
  | S calls' => match next_row s with
                | (None, _) => []
                | (Some tuple, s') => tuple :: all_rows calls' s'
                end
  end.

(** The iterator's destructor. *)
Definition release_iterator : SPI unit := fun s =>
  (Ok tt, {| sp_owners := sp_owners s; sp_connections := sp_connections s; sp_iterator := None; sp_tuptable := None |}).

Inductive spi_step : spi -> spi -> Prop :=
| SpiCreate s r s' : create_session s = (r, s') -> spi_step s s'
| SpiRelease s r s' : release_session s = (r, s') -> spi_step s s'
| SpiSelect s query r s' : (0 < sp_owners s)%nat -> executeSelect query s = (r, s') -> spi_step s s'
| SpiUtil s query r s' : (0 < sp_owners s)%nat -> executeUtil query s = (r, s') -> spi_step s s'
| SpiNext s o s' : next_row s = (o, s') -> spi_step s s'
| SpiReleaseIterator s r s' : release_iterator s = (r, s') -> spi_step s s'.

(** One connection while there are owners, none otherwise. *)
Definition spi_inv (s : spi) : Prop := sp_connections s = match sp_owners s with O => 0%nat | S _ => 1%nat end.

(** However sessions are created and released, the interface is connected once while there is
    an owner and not at all otherwise. *)
Theorem spi_connected_once final : rtc spi_step no_spi final -> spi_inv final.
Proof.
  assert (forall a b, rtc spi_step a b -> spi_inv a -> spi_inv b) as H.
  { intros a b Hr. induction Hr as [a|a b c Hs _ IH]; [done|]. intros Ha. apply IH. revert Ha. unfold spi_inv.
    destruct Hs as [s r s' E|s r s' E|s q r s' Ho E|s q r s' Ho E|s o s' E|s r s' E].
    - unfold create_session in E. destruct (sp_owners s) as [|n] eqn:Hs; [destruct spi_connects|];
        injection E as <- <-; cbn; rewrite ?Hs; cbn; lia.
    - unfold release_session in E. destruct (sp_owners s) as [|[|n]] eqn:Hs;
        injection E as <- <-; cbn; rewrite ?Hs; cbn; lia.
    - unfold executeSelect in E. destruct (sp_iterator s) as [[]|]; [|destruct (select q)]; by injection E as <- <-.
    - unfold executeUtil in E. destruct (utility q); by injection E as <- <-.
    - unfold next_row in E. destruct (sp_iterator s) as [[q row]|]; [|by injection E as <- <-].
      destruct (SPI_processed s <=? row)%nat; by injection E as <- <-.
    - by injection E as <- <-. }
  intros Hr. by apply (H no_spi).
Qed.

(** An iterator at a row reads the rest of the current result. *)
Lemma all_rows_of_result owners connections query rows k calls :
  (length rows - k < calls)%nat ->
  all_rows calls {| sp_owners := owners; sp_connections := connections; sp_iterator := Some (query, k);
                    sp_tuptable := Some rows |} = drop k rows.
Proof.
  revert k. induction calls as [|calls IH]; intros k Hc; [lia|]. cbn [all_rows]. unfold next_row, SPI_processed. cbn.
  destruct (length rows <=? k)%nat eqn:E.
  - apply Nat.leb_le in E. by rewrite drop_ge.
  - apply Nat.leb_gt in E. destruct (lookup_lt_is_Some_2 rows k E) as [x Hx]. rewrite Hx.
    rewrite (drop_S _ _ _ Hx). f_equal. apply IH. lia.
Qed.

(** While the session and the result are left alone, the iterator gives the rows of its query in
    order, each once. *)
Theorem select_gives_its_rows query rows calls s r s' :
  sp_iterator s = None -> select query = Some rows -> (length rows < calls)%nat ->
  executeSelect query s = (r, s') -> r = Ok tt /\ all_rows calls s' = rows.
Proof.
  intros Hi Hq Hc. unfold executeSelect. rewrite Hi, Hq. intros [= <- <-].
  split; [done|]. by rewrite all_rows_of_result by lia.
Qed.

(** The iterator does not keep its session: after the owner is gone it gives the rows of the
    enclosing connection, or none, instead of those of its query. *)
Theorem iterator_outlives_its_session query rows calls :
  spi_connects = true -> select query = Some rows -> (length (default [] outer) < calls)%nat ->
  match (create_session ;;; executeSelect query ;;; release_session) no_spi with
  | (Ok _, s) => sp_connections s = 0%nat /\ all_rows calls s = default [] outer
  | (Throw _, _) => False
  end.
Proof.
  intros H1 H2 Hc. unfold st_bind, create_session, executeSelect, release_session. cbn. rewrite H1. cbn. rewrite H2.
  cbn. split; [done|]. destruct outer as [l|]; [by rewrite all_rows_of_result by (cbn in Hc; lia)|by destruct calls].
Qed.

(** A utility statement between two calls of [next] ends the iteration: the rows that were not
    read yet are lost without an error. *)
Theorem utility_ends_the_iteration query rows statement calls :
  spi_connects = true -> select query = Some rows -> utility statement = true ->
  match (create_session ;;; executeSelect query ;;; executeUtil statement) no_spi with
  | (Ok _, s) => sp_iterator s = Some (query, O) /\ all_rows calls s = []
  | (Throw _, _) => False
  end.
Proof.
  intros H1 H2 H3. unfold st_bind, create_session, executeSelect, executeUtil. cbn. rewrite H1. cbn. rewrite H2, H3.
  cbn. split; [done|]. by destruct calls.
Qed.

End spi.

Module SessionExamples.

Definition all_accepted (_ : list chars) (_ : chars) : bool := true.

Lemma transaction_is_atomic_witness :
  Forall plain_statement [lit "INSERT 1"; lit "INSERT 2"] /\
  exists r c', in_transaction all_accepted [lit "INSERT 1"; lit "INSERT 2"] new_connection = (r, c') /\
    (pc_committed c' = [] \/ (pc_committed c' = [] ++ [lit "INSERT 1"; lit "INSERT 2"] /\ r = Ok tt)).
Proof.
  assert (Forall plain_statement [lit "INSERT 1"; lit "INSERT 2"]) as Hp by (repeat constructor; discriminate).
  split; [done|].
  destruct (transaction_is_atomic all_accepted [lit "INSERT 1"; lit "INSERT 2"] new_connection Hp)
    as (r & c' & E & H & _). exists r, c'. split; [exact E|exact H].
Defined.

End SessionExamples.
