(* ===== verification/Configuration.v ===== *)
(** * Options of the extensions ([custom_configuration.cpp], [query_supervisor/configuration.cpp])

    Options are variables of the server: the extension allocates the memory, the server
    writes it when the option is defined, when its configuration is read and when a
    superuser sets it, and the extension reads it.  What the configuration of the server
    says about an option before it is defined is a parameter. *)

From S2P Require Import Prelude Text.
From Stdlib Require Import ZArith Lia Ascii String.
From stdpp Require Import base list strings gmap.

Open Scope Z_scope.
Open Scope haf_scope.

(** [CustomConfiguration::Option]; the alternative also tells which placeholder was allocated. *)
Inductive option_value :=
| StringOption (s : string)
| IntOption (z : Z)
| PositiveIntOption (z : Z)
| BooleanOption (b : bool).

#[global] Instance option_value_dec : EqDecision option_value.
Proof. solve_decision. Defined.

Definition same_kind (a b : option_value) : bool :=
  match a, b with
  | StringOption _, StringOption _ | IntOption _, IntOption _
  | PositiveIntOption _, PositiveIntOption _ | BooleanOption _, BooleanOption _ => true
  | _, _ => false
  end.

(** The range the server checks; integers are [int] for it. *)
Definition in_option_range (v : option_value) : bool :=
  match v with
  | IntOption z => (- INT32_MAX - 1 <=? z) && (z <=? INT32_MAX)
  | PositiveIntOption z => (0 <=? z) && (z <=? INT32_MAX)
  | _ => true
  end.

Inductive configuration_error :=
| DefaultIsTooBig (name : string)
| OptionAlreadyExists (name : string)
| NoConfigurationOption (name : string)
| BadVariantAccess
| UnrecognizedParameter (name : string).            (* an error of the server, not an exception *)

(** The options and the memory behind them. *)
Record custom_configuration := {
  m_prefix : string;
  m_options : gmap string option_value
}.

Definition CF (A : Type) : Type := ST custom_configuration configuration_error A.

Definition new_configuration (_prefix : string) : custom_configuration :=
  {| m_prefix := _prefix; m_options := ∅ |}.

Section configuration.
  Context (configured : string -> option option_value).   (* by qualified name *)

(** [DefineCustom...Variable]: a value of the configuration is taken when it is of the kind and
    in the range of the option, the default otherwise. *)
Definition define_variable (name : string) (default_value : option_value) : option_value :=
  match configured name with
  | Some v => if same_kind v default_value && in_option_range v then v else default_value
  | None => default_value
  end.

Definition add_option (_name : string) (default_value : option_value) : CF unit :=
  let* c := st_get in
  st_assert (bool_decide (m_options c !! _name = None)) (OptionAlreadyExists _name) ;;;
  st_put {| m_prefix := m_prefix c;
            m_options := <[_name := define_variable (m_prefix c ++ "." ++ _name) default_value]> (m_options c) |}.

Definition addStringOption (_name _defaultValue : string) : CF unit :=
  add_option _name (StringOption _defaultValue).

Definition addPositiveIntOption (_name : string) (_defaultValue : Z) : CF unit :=
  st_assert (_defaultValue <=? INT32_MAX) (DefaultIsTooBig _name) ;;;
  add_option _name (PositiveIntOption _defaultValue).

Definition addIntOption (_name : string) (_defaultValue : Z) : CF unit :=
  add_option _name (IntOption _defaultValue).

Definition addBooleanOption (_name : string) (_defaultValue : bool) : CF unit :=
  add_option _name (BooleanOption _defaultValue).

(** Reads the memory. *)
Definition getOption (_name : string) (c : custom_configuration) : outcome configuration_error option_value :=
  match m_options c !! _name with
  | None => Throw (NoConfigurationOption (m_prefix c ++ "." ++ _name))
  | Some v => Ok v
  end.

(** [GetConfigOption] with [missing_ok] and [restrict_privileged] false: an unknown name is an
    error of the server; [shown] prints a value. *)
Definition GetConfigOption (shown : option_value -> string) (_name : string) (c : custom_configuration) :
    outcome configuration_error (option string) :=
  match m_options c !! _name with
  | None => Throw (UnrecognizedParameter (m_prefix c ++ "." ++ _name))
  | Some v => Ok (Some (shown v))
  end.

Definition getOptionAsString (shown : option_value -> string) (_name : string) (c : custom_configuration) :
    outcome configuration_error string :=
  match GetConfigOption shown _name c with
  | Throw e => Throw e
  | Ok None => Throw (NoConfigurationOption (m_prefix c ++ "." ++ _name))
  | Ok (Some value) => Ok value
  end.

(** The server sets an option: a value of another kind or out of range is refused. *)
Definition set_by_server (_name : string) (v : option_value) (c : custom_configuration) : custom_configuration :=
  match m_options c !! _name with
  | Some old =>
      if same_kind v old && in_option_range v
      then {| m_prefix := m_prefix c; m_options := <[_name := v]> (m_options c) |} else c
  | None => c
  end.

(** The two ways to read an option agree on the known ones; for an unknown one [getOption] throws
    the exception and [getOptionAsString] leaves with the error of the server. *)
Theorem unknown_option_errors shown _name c :
  match getOption _name c, getOptionAsString shown _name c with
  | Ok v, Ok text => text = shown v
  | Throw e, Throw e' =>
      e = NoConfigurationOption (m_prefix c ++ "." ++ _name) /\ e' = UnrecognizedParameter (m_prefix c ++ "." ++ _name)
  | _, _ => False
  end.
Proof. unfold getOption, getOptionAsString, GetConfigOption. by destruct (m_options c !! _name). Qed.

(** ** [QuerySupervisor::Configuration] *)

Definition LIMIT_TUPLES_OPTION : string := "limit_tuples".
Definition LIMIT_TIMEOUT_OPTION : string := "limit_timeout".
Definition LIMITS_ENABLED : string := "limits_enabled".
Definition LIMIT_INSERTED_TUPLES_OPTION : string := "limit_inserts".
Definition LIMIT_UPDATED_TUPLES_OPTION : string := "limit_updates".
Definition LIMIT_DELETE_TUPLES_OPTION : string := "limit_deletes".
Definition DEFAULT_TUPLES_LIMIT : Z := 1000.
Definition DEFAULT_TIMEOUT_LIMIT_MS : Z := 300.

(** The constructor. *)
Definition construct_configuration : CF unit :=
  addPositiveIntOption LIMIT_TUPLES_OPTION DEFAULT_TUPLES_LIMIT ;;;
  addPositiveIntOption LIMIT_INSERTED_TUPLES_OPTION DEFAULT_TUPLES_LIMIT ;;;
  addPositiveIntOption LIMIT_UPDATED_TUPLES_OPTION DEFAULT_TUPLES_LIMIT ;;;
  addPositiveIntOption LIMIT_DELETE_TUPLES_OPTION DEFAULT_TUPLES_LIMIT ;;;
  addPositiveIntOption LIMIT_TIMEOUT_OPTION DEFAULT_TIMEOUT_LIMIT_MS ;;;
  addBooleanOption LIMITS_ENABLED false.

(** [std::get< uint32_t >] of the option. *)
Definition get_positive (_name : string) (c : custom_configuration) : outcome configuration_error Z :=
  match getOption _name c with
  | Throw e => Throw e
  | Ok (PositiveIntOption z) => Ok z
  | Ok _ => Throw BadVariantAccess
  end.

Definition getTuplesLimit := get_positive LIMIT_TUPLES_OPTION.
Definition getUpdatesLimit := get_positive LIMIT_UPDATED_TUPLES_OPTION.
Definition getInsertsLimit := get_positive LIMIT_INSERTED_TUPLES_OPTION.
Definition getDeleteLimit := get_positive LIMIT_DELETE_TUPLES_OPTION.
Definition getTimeoutLimit := get_positive LIMIT_TIMEOUT_OPTION.
Definition areLimitsEnabled (c : custom_configuration) : outcome configuration_error bool :=
  match getOption LIMITS_ENABLED c with
  | Throw e => Throw e
  | Ok (BooleanOption b) => Ok b
  | Ok _ => Throw BadVariantAccess
  end.

(** ** The configuration of the supervisor *)

Definition default_options : list (string * option_value) :=
  [(LIMIT_TUPLES_OPTION, PositiveIntOption DEFAULT_TUPLES_LIMIT);
   (LIMIT_INSERTED_TUPLES_OPTION, PositiveIntOption DEFAULT_TUPLES_LIMIT);
   (LIMIT_UPDATED_TUPLES_OPTION, PositiveIntOption DEFAULT_TUPLES_LIMIT);
   (LIMIT_DELETE_TUPLES_OPTION, PositiveIntOption DEFAULT_TUPLES_LIMIT);
   (LIMIT_TIMEOUT_OPTION, PositiveIntOption DEFAULT_TIMEOUT_LIMIT_MS);
   (LIMITS_ENABLED, BooleanOption false)].

Definition supervisor : custom_configuration :=
  snd (construct_configuration (new_configuration "query_supervisor")).

(** The value an option has after the server has set options: the last value accepted for it,
    or the one it was defined with. *)
Fixpoint last_set (_name : string) (v : option_value) (sets : list (string * option_value)) : option_value :=
  match sets with
  | [] => v
  | (n, x) :: sets' =>
      last_set _name (if bool_decide (n = _name) && same_kind x v && in_option_range x then x else v) sets'
  end.

Definition set_all (sets : list (string * option_value)) (c : custom_configuration) : custom_configuration :=
  foldl (fun c '(n, v) => set_by_server n v c) c sets.

Lemma set_all_lookup sets c _name v :
  m_options c !! _name = Some v -> m_options (set_all sets c) !! _name = Some (last_set _name v sets).
Proof.
  revert c v. induction sets as [|[n x] sets IH]; intros c v Hv; [done|]. cbn [set_all foldl last_set].
  apply IH. unfold set_by_server. destruct (decide (n = _name)) as [->|Hne].
  - rewrite Hv, bool_decide_eq_true_2 by done. cbn [andb].
    destruct (same_kind x v && in_option_range x); cbn; [apply lookup_insert_eq|done].
  - rewrite bool_decide_eq_false_2 by done. cbn [andb].
    destruct (m_options c !! n) as [old|]; [|done].
    destruct (same_kind x old && in_option_range x); cbn; [by rewrite lookup_insert_ne|done].
Qed.

Lemma same_kind_trans a b c : same_kind a b = true -> same_kind b c = same_kind a c.
Proof. by destruct a, b. Qed.

Lemma last_set_ok _name v d sets :
  same_kind v d = true -> in_option_range v = true ->
  same_kind (last_set _name v sets) d = true /\ in_option_range (last_set _name v sets) = true.
Proof.
  revert v. induction sets as [|[n x] sets IH]; intros v Hk Hr; [done|]. cbn [last_set]. apply IH.
  - destruct (_ && _ && _) eqn:E; [|done]. apply andb_true_iff in E as [[_ E]%andb_true_iff _].
    by rewrite <- (same_kind_trans _ _ _ E).
  - destruct (_ && _ && _) eqn:E; [|done]. by apply andb_true_iff in E as [_ E].
Qed.

Lemma define_variable_ok name d :
  in_option_range d = true -> same_kind (define_variable name d) d = true /\ in_option_range (define_variable name d) = true.
Proof.
  intros Hd. unfold define_variable. assert (same_kind d d = true) by (by destruct d).
  destruct (configured name) as [v|]; [|done]. destruct (_ && _) eqn:E; [|done]. by apply andb_true_iff in E.
Qed.

Lemma supervisor_options _name d :
  (_name, d) ∈ default_options ->
  m_options supervisor !! _name = Some (define_variable ("query_supervisor." ++ _name) d) /\ in_option_range d = true.
Proof.
  intros Hin. assert (fst (construct_configuration (new_configuration "query_supervisor")) = Ok tt) as _ by done.
  unfold default_options in Hin. rewrite !elem_of_cons, elem_of_nil in Hin.
  destruct Hin as [[= -> ->]|[[= -> ->]|[[= -> ->]|[[= -> ->]|[[= -> ->]|[[= -> ->]|[]]]]]]]; by split.
Qed.

End configuration.

(** The supervisor's configuration can always be constructed and read: the constructor does
    not throw, and however the server's configuration is and options are set afterwards, every
    getter returns, without an exception, the last value accepted for its own option or the
    one it was defined with, a limit from 0 to the largest [int]. *)
Theorem limits_can_be_read configured sets :
  fst (construct_configuration configured (new_configuration "query_supervisor")) = Ok tt /\
  let c := set_all sets (supervisor configured) in
  Forall (fun '(getter, _name, default_limit) => exists z, getter c = Ok z /\ 0 <= z <= INT32_MAX /\
      PositiveIntOption z = last_set _name
        (define_variable configured ("query_supervisor." ++ _name) (PositiveIntOption default_limit)) sets)
    [(getTuplesLimit, LIMIT_TUPLES_OPTION, DEFAULT_TUPLES_LIMIT);
     (getInsertsLimit, LIMIT_INSERTED_TUPLES_OPTION, DEFAULT_TUPLES_LIMIT);
     (getUpdatesLimit, LIMIT_UPDATED_TUPLES_OPTION, DEFAULT_TUPLES_LIMIT);
     (getDeleteLimit, LIMIT_DELETE_TUPLES_OPTION, DEFAULT_TUPLES_LIMIT);
     (getTimeoutLimit, LIMIT_TIMEOUT_OPTION, DEFAULT_TIMEOUT_LIMIT_MS)] /\
  exists b, areLimitsEnabled c = Ok b /\
    BooleanOption b = last_set LIMITS_ENABLED
      (define_variable configured ("query_supervisor." ++ LIMITS_ENABLED) (BooleanOption false)) sets.
Proof.
  split; [done|]. cbn zeta.
  assert (forall _name d, (_name, d) ∈ default_options ->
    let v := last_set _name (define_variable configured ("query_supervisor." ++ _name) d) sets in
    m_options (set_all sets (supervisor configured)) !! _name = Some v /\ same_kind v d = true /\ in_option_range v = true) as H.
  { intros _name d Hin. destruct (supervisor_options configured _name d Hin) as [Hl Hr].
    split; [by apply set_all_lookup|]. by apply last_set_ok; apply define_variable_ok. }
  assert (forall _name z, (_name, PositiveIntOption z) ∈ default_options ->
    exists y, get_positive _name (set_all sets (supervisor configured)) = Ok y /\ 0 <= y <= INT32_MAX /\
      PositiveIntOption y = last_set _name (define_variable configured ("query_supervisor." ++ _name) (PositiveIntOption z)) sets) as Hp.
  { intros _name z Hin. destruct (H _ _ Hin) as (Hl & Hk & Hr). unfold get_positive, getOption. rewrite Hl.
    destruct (last_set _ _ _) as [|y|y|]; try done. exists y. cbn in Hr. split_and!; [done|lia|lia|done]. }
  split.
  - repeat (apply Forall_cons_2; [apply Hp; apply (bool_decide_unpack _); by vm_compute|]). apply Forall_nil_2.
  - destruct (H LIMITS_ENABLED (BooleanOption false)) as (Hl & Hk & _); [apply (bool_decide_unpack _); by vm_compute|].
    unfold areLimitsEnabled, getOption. rewrite Hl. destruct (last_set _ _ _) as [| | |b]; try done. by exists b.
Qed.

Lemma limits_are_defined configured :
  exists c, construct_configuration configured (new_configuration "query_supervisor") = (Ok tt, c) /\
    m_options c !! LIMITS_ENABLED
    = Some (define_variable configured ("query_supervisor." ++ LIMITS_ENABLED) (BooleanOption false)).
Proof.
  exists (supervisor configured). split; [done|].
  apply (supervisor_options configured LIMITS_ENABLED (BooleanOption false)), (bool_decide_unpack _); by vm_compute.
Qed.

(** An option is not added twice, and a default above the largest [int] is refused. *)
Theorem options_are_checked configured _name d c :
  (is_Some (m_options c !! _name) -> d <= INT32_MAX ->
     addPositiveIntOption configured _name d c = (Throw (OptionAlreadyExists _name), c)) /\
  (INT32_MAX < d -> addPositiveIntOption configured _name d c = (Throw (DefaultIsTooBig _name), c)).
Proof.
  unfold addPositiveIntOption, add_option, st_assert, st_bind, st_get. split.
  - intros [v Hv] Hd. rewrite (proj2 (Z.leb_le _ _)) by done. cbn. by rewrite Hv.
  - intros Hd. by rewrite (proj2 (Z.leb_gt _ _)) by lia.
Qed.

(** ** Loading of the module ([postgres_accessor.cpp], [backend.cpp], [endpoints/initialization.cpp]) *)

(** The process: the user of a regular backend ([MyProcPort]), whose name may be missing. *)
Definition my_proc_port : Type := option (option string).

Record postgres_accessor := { m_configuration : custom_configuration; m_backend : option string }.

(** [Backend::userName] of a backend; [Backend::Backend] throws where there is none. *)
Definition new_backend (port : my_proc_port) : option string :=
  match port with None => None | Some user_name => Some (default ""%string user_name) end.

(** The constructor swallows the exception of the backend; an exception of the configuration
    leaves it. *)
Definition new_accessor (configured : string -> option option_value) (port : my_proc_port) :
    outcome configuration_error postgres_accessor :=
  match construct_configuration configured (new_configuration "query_supervisor") with
  | (Throw e, _) => Throw e
  | (Ok _, c) => Ok {| m_configuration := c; m_backend := new_backend port |}
  end.

Definition isCurrentUserLimited (a : postgres_accessor) : outcome configuration_error bool :=
  areLimitsEnabled (m_configuration a).

(** [_PG_init]: whether the query handlers are installed. *)
Definition _PG_init (configured : string -> option option_value) (port : my_proc_port) :
    outcome configuration_error bool :=
  a ← new_accessor configured port; isCurrentUserLimited a.

(** Loading the module never throws; the handlers are installed exactly when the limits are enabled
    by the configuration of the session at that moment, in any kind of process. *)
Theorem handlers_installed_by_configuration configured port :
  _PG_init configured port
  = Ok (match configured "query_supervisor.limits_enabled"%string with Some (BooleanOption b) => b | _ => false end).
Proof.
  unfold _PG_init, new_accessor. cbn [mbind outcome_bind].
  destruct (limits_are_defined configured) as (c & -> & Hc). cbn [mbind outcome_bind].
  unfold isCurrentUserLimited, areLimitsEnabled, getOption. cbn [m_configuration].
  rewrite Hc. unfold define_variable. cbn. by destruct (configured _) as [[| | |]|].
Qed.
