(* ===== verification/ServerFunctions.v ===== *)
(** * Other functions of the shared library ([wait_for_new_block.cpp], [vacuum_shadow_table.cpp],
    [operation_id.cpp], [utilities.cpp])

    Waiting for a block with the advertised snapshot released, vacuuming a table through a
    connection of its own, identifiers of operations, symbols of assets, and the functions
    that return keys fixed by hard forks.

    The latch, connections and the protocol library are parameters. *)

From S2P Require Import Prelude Text Jsonb OperationType Utilities SqlCatalog CompositeTypes CompositeValues.
From Stdlib Require Import ZArith Lia Ascii String.
From stdpp Require Import base list strings.

Open Scope Z_scope.

(** ** [wait_for_new_block] *)

Definition InvalidTransactionId : Z := 0.
Definition WL_LATCH_SET : Z := 1.
Definition WL_TIMEOUT : Z := 8.
Definition WL_EXIT_ON_PM_DEATH : Z := 32.

(** What of the process matters, with the xmin it advertised in every wait. *)
Record proc := {
  xmin : Z;
  latch : bool;
  xmin_while_waiting : list Z
}.

Definition set_xmin (x : Z) (p : proc) : proc :=
  {| xmin := x; latch := latch p; xmin_while_waiting := xmin_while_waiting p |}.

Section wait.
  Context (wait_latch : Z -> Z -> pg Z)             (* events to wait for, timeout *)
    (check_for_interrupts : pg unit).

(** [WaitLatch] on the process. *)
Definition WaitLatch (events timeout_ms : Z) (p : proc) : pg Z * proc :=
  (wait_latch events timeout_ms,
   {| xmin := xmin p; latch := latch p; xmin_while_waiting := xmin_while_waiting p ++ [xmin p] |}).

Definition ResetLatch (p : proc) : proc :=
  {| xmin := xmin p; latch := false; xmin_while_waiting := xmin_while_waiting p |}.

(** The body of PG_TRY, then PG_CATCH with its rethrow. *)
Definition wait_for_new_block (timeout_ms : Z) (p : proc) : pg bool * proc :=
  let saved_xmin := xmin p in
  let p := set_xmin InvalidTransactionId p in
  let '(r, p) := WaitLatch (Z.lor (Z.lor WL_LATCH_SET WL_TIMEOUT) WL_EXIT_ON_PM_DEATH) timeout_ms p in
  match r with
  | pg_error code msg => (pg_error code msg, set_xmin saved_xmin p)
  | undefined => (undefined, p)
  | pg_ok rc =>
      let p := ResetLatch (set_xmin saved_xmin p) in
      match check_for_interrupts with
      | pg_ok _ => (pg_ok (negb (Z.land rc WL_LATCH_SET =? 0)), p)
      | pg_error code msg => (pg_error code msg, p)
      | undefined => (undefined, p)
      end
  end.

(** C35: While it waits the process advertises no snapshot, and however the wait ends (an
    event, the timeout, an error of the wait or a cancel after it) the process advertises
    again the snapshot it had; the answer is whether the latch was among the events. *)
Theorem snapshot_is_released_and_restored timeout_ms p r p' :
  wait_latch (Z.lor (Z.lor WL_LATCH_SET WL_TIMEOUT) WL_EXIT_ON_PM_DEATH) timeout_ms <> undefined ->
  wait_for_new_block timeout_ms p = (r, p') ->
  xmin p' = xmin p /\
  xmin_while_waiting p' = xmin_while_waiting p ++ [InvalidTransactionId] /\
  (forall b, r = pg_ok b ->
     latch p' = false /\
     exists rc, wait_latch (Z.lor (Z.lor WL_LATCH_SET WL_TIMEOUT) WL_EXIT_ON_PM_DEATH) timeout_ms = pg_ok rc /\
       b = Z.testbit rc 0).
Proof.
  intros Hd. unfold wait_for_new_block, WaitLatch.
  destruct (wait_latch _ timeout_ms) as [rc|code msg|]; [|by intros [= <- <-]|done].
  destruct check_for_interrupts; intros [= <- <-]; cbn; split_and!; try done.
  intros b [= <-]. split; [done|]. exists rc. split; [done|].
  change WL_LATCH_SET with (Z.ones 1). rewrite Z.land_ones by lia. change (2 ^ 1) with 2.
  rewrite Zmod_odd, <- Z.bit0_odd. by destruct (Z.testbit rc 0).
Qed.

End wait.

(** ** [vacuum_shadow_table] *)

Inductive connection_event := Connected (conninfo : chars) | Executed (sql : chars) | Finished.

Section vacuum_shadow.
  Context (database_name : chars) (connects : bool) (connection_error : chars)
    (quote_identifier : chars -> chars)
    (command_ok : chars -> bool)
    (body_error : option (errcode * chars)).        (* an error raised inside PG_TRY *)

Definition conninfo : chars :=
  lit "dbname=" ++ database_name ++ lit " user=postgres application_name=vacuum_shadow_table".

Definition vacuum_cmd (table_name : chars) : chars := lit "VACUUM FULL hafd." ++ quote_identifier table_name.

(** The answer and what happened to the connection. *)
Definition vacuum_shadow_table (table_name : chars) : pg bool * list connection_event :=
  match database_name with
  | [] => (pg_error ERRCODE_INTERNAL_ERROR (lit "vacuum_shadow_table: could not get database name"), [])
  | _ =>
      if negb connects then
        (pg_error ERRCODE_CONNECTION_FAILURE (lit "vacuum_shadow_table: connection failed: " ++ connection_error),
         [Connected conninfo; Finished])
      else
        let cmd := vacuum_cmd table_name in
        match body_error with
        | Some (code, msg) => (pg_error code msg, [Connected conninfo; Executed cmd; Finished])
        | None => (pg_ok (command_ok cmd), [Connected conninfo; Executed cmd; Finished])
        end
  end.

(** Every connection that is made is finished once, at the end, also when the vacuum fails or an
    error is raised. *)
Theorem connection_is_finished table_name r events :
  vacuum_shadow_table table_name = (r, events) ->
  events = [] \/ exists middle, events = Connected conninfo :: middle ++ [Finished] /\
    Forall (fun e => exists sql, e = Executed sql) middle.
Proof.
  unfold vacuum_shadow_table. destruct database_name; [intros [= <- <-]; by left|].
  destruct connects; cbn [negb]; [destruct body_error as [[code msg]|]|]; intros [= <- <-]; right.
  - exists [Executed (vacuum_cmd table_name)]. split; [done|]. repeat constructor. by eexists.
  - exists [Executed (vacuum_cmd table_name)]. split; [done|]. repeat constructor. by eexists.
  - by exists [].
Qed.

End vacuum_shadow.

(** ** [operation_id.cpp] *)

Section operation_id.
  Context (lib_to_operation_id : Z -> Z -> cxx Z) (lib_to_block_num lib_to_pos : Z -> cxx Z).

Definition to_operation_id (block_num position_in_block : Z) : pg Z :=
  pg_call_cxx (z ← lib_to_operation_id block_num position_in_block; returns (i64 z)) ERRCODE_DATA_EXCEPTION.

Definition operation_id_to_block_num (id : Z) : pg Z :=
  pg_call_cxx (z ← lib_to_block_num id; returns (i32 z)) ERRCODE_DATA_EXCEPTION.

Definition operation_id_to_pos (id : Z) : pg Z :=
  pg_call_cxx (z ← lib_to_pos id; returns (i32 z)) ERRCODE_DATA_EXCEPTION.

End operation_id.

(** ** Symbols of assets *)

Class AssetSymbols := {
  asset_symbol_type : Type;
  from_asset_num : Z -> cxx asset_symbol_type;
  asset_num : asset_symbol_type -> Z;
  symbol_decimals : asset_symbol_type -> Z;
  is_vesting : asset_symbol_type -> bool;
  is_legacy_space : asset_symbol_type -> bool;      (* space() == legacy_space *)
  symbol_to_nai : asset_symbol_type -> cxx Z;
  symbol_to_nai_string : asset_symbol_type -> cxx chars;
  get_paired_symbol : asset_symbol_type -> cxx asset_symbol_type;
  symbol_from_nai_string : chars -> Z -> cxx asset_symbol_type
}.

Section asset_symbols.
  Context {A : AssetSymbols} {J : Server} {K : Catalog}.

Definition decode_asset_symbol (symbol_argument : Z) : pg (datum numeric) :=
  let asset_num := u32 symbol_argument in
  pg_call_cxx
    (ast ← from_asset_num asset_num;
     desc ← RelationNameGetTupleDesc "hive.asset_symbol_info";
     nai ← symbol_to_nai ast;
     returns (heap_form_tuple "asset_symbol_info" desc
       [word (UInt16GetDatum (symbol_decimals ast)); word (Int64GetDatum nai);
        word (BoolGetDatum (negb (is_vesting ast))); word (BoolGetDatum (is_legacy_space ast))]
       [false; false; false; false]))
    ERRCODE_DATA_EXCEPTION.

(** [None] is a null argument. *)
Definition get_paired_asset_symbol (symbol_argument : option Z) : pg Z :=
  match symbol_argument with
  | None => pg_ok 0
  | Some s =>
      pg_call_cxx (ast ← from_asset_num (u32 s); paired ← get_paired_symbol ast; returns (i64 (asset_num paired)))
        ERRCODE_DATA_EXCEPTION
  end.

Definition asset_symbol_to_nai_string (symbol_argument : option Z) : pg chars :=
  match symbol_argument with
  | None => pg_ok []
  | Some s =>
      pg_call_cxx (ast ← from_asset_num (u32 s); nai ← symbol_to_nai_string ast; returns (c_str nai))
        ERRCODE_DATA_EXCEPTION
  end.

Definition asset_symbol_from_nai_string (nai_string : option chars) (precision_argument : option Z) : pg Z :=
  match nai_string, precision_argument with
  | Some nai_string, Some p =>
      let precision := wrap_u 8 (wrap_u 16 p) in
      pg_call_cxx (ast ← symbol_from_nai_string (c_str nai_string) precision; returns (i64 (asset_num ast)))
        ERRCODE_DATA_EXCEPTION
  | _, _ => pg_ok 0
  end.

End asset_symbols.

(** The row of [decode_asset_symbol] has the precision, the numeric identifier and the two flags
    of the symbol, in the declared types. *)
Theorem decoded_symbol_row {A : AssetSymbols} {J : Server} s ast nai :
  from_asset_num (u32 s) = returns ast -> symbol_to_nai ast = returns nai ->
  0 <= symbol_decimals ast < 2 ^ 8 -> - 2 ^ 31 <= nai < 2 ^ 31 ->
  exists d, decode_asset_symbol s = pg_ok d /\
    read d (sql_row "asset_symbol_info")
    = Some (VRow "asset_symbol_info"
        [VInt (symbol_decimals ast); VInt nai; VBool (negb (is_vesting ast)); VBool (is_legacy_space ast)]).
Proof.
  intros Ha Hn Hd Hr. unfold decode_asset_symbol. rewrite Ha. cbn [mbind cxx_bind].
  unfold RelationNameGetTupleDesc.
  destruct (tuple_desc "hive.asset_symbol_info") as [desc|] eqn:E; [|by vm_compute in E].
  cbn [mbind cxx_bind]. rewrite Hn. cbn [mbind cxx_bind pg_call_cxx]. eexists. split; [reflexivity|].
  assert (desc.*2 = [sql_int2; sql_int4; sql_bool; sql_bool]) as Ht by (vm_compute in E; by injection E as <-).
  eapply (read_row _ [sql_int2; sql_int4; sql_bool; sql_bool]); [exact E|rewrite Ht; by repeat constructor|done..|].
  cbn [zip_with attribute].
  eapply read_attributes_cons; [by apply read_uint8|].
  eapply read_attributes_cons; [|by destruct (is_vesting ast), (is_legacy_space ast)].
  cbn. unfold Int64GetDatum, i64, i32. rewrite wrap_s_u64 by lia. do 2 f_equal.
  rewrite (wrap_s_small 64) by lia. by rewrite wrap_s_small by lia.
Qed.

(** Arguments wider than the C++ types are cut without an error: a symbol is taken modulo 2^32
    and a precision modulo 2^8. *)
Theorem wide_arguments_are_truncated {A : AssetSymbols} s n p :
  asset_symbol_to_nai_string (Some (s + 2 ^ 32)) = asset_symbol_to_nai_string (Some s) /\
  asset_symbol_from_nai_string (Some n) (Some (p + 2 ^ 8)) = asset_symbol_from_nai_string (Some n) (Some p).
Proof.
  unfold asset_symbol_to_nai_string, asset_symbol_from_nai_string, u32, wrap_u. split.
  - by replace (s + 2 ^ 32) with (s + 1 * 2 ^ 32) by lia; rewrite Z_mod_plus_full.
  - assert (forall z, (z mod 2 ^ 16) mod 2 ^ 8 = z mod 2 ^ 8) as H.
    { intros z. change (2 ^ 16) with (2 ^ 8 * 2 ^ 8). rewrite Z.rem_mul_r by lia.
      rewrite Z.mul_comm, Z_mod_plus_full, Z.mod_mod by lia. done. }
    rewrite !H. by replace (p + 2 ^ 8) with (p + 1 * 2 ^ 8) by lia; rewrite Z_mod_plus_full.
Qed.

(** ** Keys fixed by hard forks *)

(** [get_genesis_keyauths_wrapped] and the functions of hard forks 9, 21 and 24: the keys are
    collected outside of any handler. *)
Definition get_fixed_keyauths (collect : cxx (list keyauth)) (ctx : call_context) :
    pg (list (list Utilities.Datum * list bool)) :=
  match (l ← collect; fill_and_return_keyauths l ctx) with
  | returns rows => pg_ok rows
  | longjmps code msg => pg_error code msg
  | _ => undefined
  end.

Section fixed_keys.
  Context (genesis hf09 hf21 hf24 : cxx (list keyauth)).

Definition get_genesis_keyauths_wrapped := get_fixed_keyauths genesis.
Definition get_hf09_keyauths_wrapped := get_fixed_keyauths hf09.
Definition get_hf21_keyauths_wrapped := get_fixed_keyauths hf21.
Definition get_hf24_keyauths_wrapped := get_fixed_keyauths hf24.

(** [get_balance_impacting_operations] *)
  Context (balance_impacting_operations : cxx (list chars)).

Definition get_balance_impacting_operations (ctx : call_context) :=
  colect_data_and_fill_returned_recordset balance_impacting_operations
    (fun l => fill_return_tuples l ctx [(fun name => make_datum_pair (Text (c_str name)) false)])
    (lit "get_balance_impacting_operations") (returns []).

(** An exception of the library leaves these functions, unlike the ones with handlers. *)
Theorem fixed_keys_have_no_handler msg ctx :
  genesis = throws_fc msg -> get_genesis_keyauths_wrapped ctx = undefined /\
  get_balance_impacting_operations ctx <> undefined.
Proof.
  intros E. split; [unfold get_genesis_keyauths_wrapped; by rewrite E|]. unfold get_balance_impacting_operations. apply recordset_never_throws.
Qed.

End fixed_keys.

Module ServerFunctionExamples.

(** The timeout expires, then the latch is set. *)
Lemma snapshot_is_released_and_restored_witness :
  let run rc := wait_for_new_block (fun _ _ => pg_ok rc) (pg_ok tt) 1500
                  {| xmin := 742; latch := true; xmin_while_waiting := [] |} in
  (xmin (run WL_TIMEOUT).2 = 742 /\ xmin_while_waiting (run WL_TIMEOUT).2 = [] ++ [InvalidTransactionId]) /\
  (run WL_TIMEOUT).1 = pg_ok false /\ (run WL_LATCH_SET).1 = pg_ok true.
Proof.
  cbn zeta. split; [|done].
  destruct (snapshot_is_released_and_restored (fun _ _ => pg_ok WL_TIMEOUT) (pg_ok tt) 1500
    {| xmin := 742; latch := true; xmin_while_waiting := [] |} (pg_ok false)
    {| xmin := 742; latch := false; xmin_while_waiting := [InvalidTransactionId] |}) as (H1 & H2 & _); [done|done|].
  split; [exact H1|exact H2].
Defined.

End ServerFunctionExamples.
