(* ===== verification/ForkManager.v ===== *)
(** * The fork manager: reversible and irreversible tables

    Models the functions of [hive_fork_manager/hived_api.sql] and [hived_api_impl.sql] that the
    live dumper calls ([push_block], [push_block_lite], [back_from_fork], [set_irreversible] with
    the functions they call, in both modes), and [hive.blocks_view] of
    [block_views_for_head_block.sql].

    A table is the list of its rows in the order of insertion; a row of a reversible table carries
    its fork.  A row has its key columns and those the functions join by; the other columns are
    one parameter.  Every statement checks the keys and references of its table, as declared in
    [reversible_blocks.sql] and [irreversible_blocks.sql], the reference of a block to its producer
    at the end of the transaction; the identifiers of forks and events are drawn from sequences.
    The constraints are those of live synchronisation, with the tables filled by the functions
    modelled here: massive synchronisation drops and restores some of them.

    The theorem is a refinement outside of lite mode: whatever the order of new blocks, forks and
    irreversible blocks, and whatever the applications' contexts hold back, no constraint fails
    and the tables follow a chain of blocks.  In lite mode blocks that are pushed in order are
    followed too, and a fork is refused. *)

From S2P Require Import Prelude.
From Stdlib Require Import ZArith Lia.
From stdpp Require Import base list gmap.

Open Scope Z_scope.

(** [hive.max_fork_id()], [hive.max_block_num()], [hive.unreachable_event_id()]. *)
Definition max_fork_id : Z := 9223372036854775807.
Definition max_block_num : Z := 2147483647.
Definition unreachable_event_id : Z := 9223372036854775807.

Inductive event_type := BACK_FROM_FORK | NEW_BLOCK | NEW_IRREVERSIBLE | MASSIVE_SYNC.

#[global] Instance event_type_eq_dec : EqDecision event_type.
Proof. solve_decision. Defined.

Inductive sql_error := UniqueViolation | NotNullViolation | ForeignKeyViolation | CardinalityViolation.

(** The smallest of some numbers, [NULL] for none. *)
Definition sql_min (l : list Z) : option Z :=
  match l with [] => None | x :: l' => Some (foldl Z.min x l') end.
Definition sql_max (l : list Z) : option Z :=
  match l with [] => None | x :: l' => Some (foldl Z.max x l') end.

Lemma foldl_max_spec l x : x <= foldl Z.max x l /\ (forall y, y ∈ l -> y <= foldl Z.max x l) /\ (foldl Z.max x l = x \/ foldl Z.max x l ∈ l).
Proof.
  revert x. induction l as [|y l IH]; intros x; cbn; [split_and!; [lia|by intros y ?%elem_of_nil|by left]|].
  destruct (IH (Z.max x y)) as (H1 & H2 & H3). split_and!; [lia| |].
  - intros z [->|Hz]%elem_of_cons; [lia|by apply H2].
  - destruct H3 as [->|H3]; [|right; by right]. destruct (Z.max_spec x y) as [[_ ->]|[_ ->]]; [right; left|by left].
Qed.

Lemma sql_max_spec l m : sql_max l = Some m <-> m ∈ l /\ forall y, y ∈ l -> y <= m.
Proof.
  unfold sql_max. destruct l as [|x l]; [split; [done|by intros [?%elem_of_nil _]]|].
  destruct (foldl_max_spec l x) as (H1 & H2 & H3). split.
  - intros [= <-]. split; [destruct H3 as [->|?]; [left|by right]|]. intros y [->|Hy]%elem_of_cons; [done|by apply H2].
  - intros [Hm Hle]. f_equal. assert (foldl Z.max x l <= m) by (apply Hle; destruct H3 as [->|?]; [left|by right]).
    assert (m <= foldl Z.max x l) by (apply elem_of_cons in Hm as [->|?]; [done|by apply H2]). lia.
Qed.

Lemma foldl_min_le l x y : y ∈ x :: l -> foldl Z.min x l <= y.
Proof.
  revert x y. induction l as [|z l IH]; intros x y Hy; cbn; [apply list_elem_of_singleton in Hy; lia|].
  apply elem_of_cons in Hy as [->|[->|Hy]%elem_of_cons].
  - transitivity (Z.min x z); [|lia]. apply IH. left.
  - transitivity (Z.min x z); [|lia]. apply IH. left.
  - apply IH. by right.
Qed.

Lemma foldl_min_in l x : foldl Z.min x l ∈ x :: l.
Proof.
  revert x. induction l as [|z l IH]; intros x; cbn; [left|].
  destruct (elem_of_cons l (foldl Z.min (Z.min x z) l) (Z.min x z)) as [[He|He] _]; [apply IH| |].
  - rewrite He. destruct (Z.min_spec x z) as [[_ ->]|[_ ->]]; [left|right; left].
  - right. by right.
Qed.

(** [PRIMARY KEY] and [UNIQUE]; with the fork as the last column in the reversible tables. *)
Definition unique {R X} `{EqDecision X} (key : R -> X) (rows : list R) : bool := bool_decide (NoDup (map key rows)).

Definition in_fork {R X} (key : R -> X) (r : R * Z) : X * Z := (key r.1, r.2).

(** [FOREIGN KEY]: every key refers to a row of the other table. *)
Definition refers {X} `{EqDecision X} (keys parents : list X) : bool := forallb (fun k => bool_decide (k ∈ parents)) keys.

Section fork_manager.
  (* columns no function reads; byte strings and names *)
  Context {C K : Type} `{EqDecision K}.
  Context (operation_id_to_block_num : Z -> Z).     (* of the protocol library *)

(** ** The rows *)

Record block_row := { num : Z; producer_account_id : Z; block_columns : C }.
Record transaction_row := { trx_block : Z; trx_hash : K; trx_columns : C }.
Record multisig_row := { sig_hash : K; signature : K }.
Record operation_row := { op_id : Z; op_columns : C }.
Record account_row := { account_id : Z; account_name : K; account_block : option Z }.
Record account_operation_row := {
  ao_account_id : Z;
  ao_transacting_account_id : Z;
  ao_account_op_seq_no : Z;
  ao_operation_id : Z;
  ao_op_type_id : Z
}.
Record hardfork_row := { hardfork_num : Z; hardfork_block : Z; hardfork_vop_id : Z }.

(** The arguments of [push_block]. *)
Record full_block := {
  fb_block : block_row;
  fb_transactions : list transaction_row;
  fb_signatures : list multisig_row;
  fb_operations : list operation_row;
  fb_accounts : list account_row;
  fb_account_operations : list account_operation_row;
  fb_applied_hardforks : list hardfork_row
}.

Record tables := {
  tb_blocks : list block_row;
  tb_transactions : list transaction_row;
  tb_transactions_multisig : list multisig_row;
  tb_operations : list operation_row;
  tb_accounts : list account_row;
  tb_account_operations : list account_operation_row;
  tb_applied_hardforks : list hardfork_row
}.

(** A row of a reversible table carries its fork. *)
Record reversible_tables := {
  blocks_reversible : list (block_row * Z);
  transactions_reversible : list (transaction_row * Z);
  transactions_multisig_reversible : list (multisig_row * Z);
  operations_reversible : list (operation_row * Z);
  accounts_reversible : list (account_row * Z);
  account_operations_reversible : list (account_operation_row * Z);
  applied_hardforks_reversible : list (hardfork_row * Z)
}.

Record database := {
  irreversible : tables;
  reversible : reversible_tables;
  fork : list (Z * Z);                         (* id, block_num *)
  fork_id_seq : Z;                             (* the last value of the sequence *)
  events_queue : list (Z * event_type * Z);    (* id, event, block_num *)
  events_queue_id_seq : Z;
  consistent_block : option Z;
  is_lite_mode : bool
}.

(** A row of [hafd.contexts] with its attachment, as far as the deletions look at it. *)
Record context := {
  cx_is_attached : bool;
  cx_is_forking : bool;
  cx_fork_id : Z;
  cx_irreversible_block : Z;
  cx_events_id : Z
}.

Definition set_irreversible_tables (ir : tables) (db : database) : database :=
  {| irreversible := ir; reversible := reversible db; fork := fork db; fork_id_seq := fork_id_seq db;
     events_queue := events_queue db; events_queue_id_seq := events_queue_id_seq db; consistent_block := consistent_block db;
     is_lite_mode := is_lite_mode db |}.

Definition set_reversible_tables (rv : reversible_tables) (db : database) : database :=
  {| irreversible := irreversible db; reversible := rv; fork := fork db; fork_id_seq := fork_id_seq db;
     events_queue := events_queue db; events_queue_id_seq := events_queue_id_seq db; consistent_block := consistent_block db;
     is_lite_mode := is_lite_mode db |}.

Definition set_events (events : list (Z * event_type * Z)) (seq : Z) (db : database) : database :=
  {| irreversible := irreversible db; reversible := reversible db; fork := fork db; fork_id_seq := fork_id_seq db;
     events_queue := events; events_queue_id_seq := seq; consistent_block := consistent_block db; is_lite_mode := is_lite_mode db |}.

(** ** Events *)

Definition insert_event (e : event_type) (block_num : Z) (db : database) : database :=
  set_events (events_queue db ++ [(events_queue_id_seq db + 1, e, block_num)]) (events_queue_id_seq db + 1) db.

Definition event_id (e : Z * event_type * Z) : Z := e.1.1.

(** [remove_unecessary_events]; no context refers to an event it removes, their [events_id] are not below the smallest. *)
Definition removable_event (upper min_event : option Z) (e : Z * event_type * Z) : bool :=
  (match upper with Some u => event_id e <? u | None => true end) &&
  (match min_event with Some m => event_id e <? m | None => true end) &&
  negb (event_id e =? 0) && negb (event_id e =? unreachable_event_id).

Definition remove_unecessary_events (contexts : list context) (_new_irreversible_block : Z) (db : database) : database :=
  let upper := sql_min (map event_id (filter (fun e => e.1.2 <> BACK_FROM_FORK /\ e.2 = _new_irreversible_block + 1) (events_queue db))) in
  let min_event := sql_min (map cx_events_id contexts) in
  set_events (List.filter (fun e => negb (removable_event upper min_event e)) (events_queue db)) (events_queue_id_seq db) db.

(** ** Insertions into the irreversible tables, with the constraints of [irreversible_blocks.sql] *)

(** The reference of a block to its producer is deferred, see [commit]. *)
Definition insert_blocks (rows : list block_row) (db : database) : outcome sql_error database :=
  let ir := irreversible db in
  let blocks := tb_blocks ir ++ rows in
  _ ← o_assert (unique num blocks) UniqueViolation;
  Ok (set_irreversible_tables
    {| tb_blocks := blocks; tb_transactions := tb_transactions ir; tb_transactions_multisig := tb_transactions_multisig ir;
       tb_operations := tb_operations ir; tb_accounts := tb_accounts ir; tb_account_operations := tb_account_operations ir;
       tb_applied_hardforks := tb_applied_hardforks ir |} db).

Definition insert_transactions (rows : list transaction_row) (db : database) : outcome sql_error database :=
  let ir := irreversible db in
  let transactions := tb_transactions ir ++ rows in
  _ ← o_assert (unique trx_hash transactions) UniqueViolation;
  _ ← o_assert (refers (map trx_block rows) (map num (tb_blocks ir))) ForeignKeyViolation;
  Ok (set_irreversible_tables
    {| tb_blocks := tb_blocks ir; tb_transactions := transactions; tb_transactions_multisig := tb_transactions_multisig ir;
       tb_operations := tb_operations ir; tb_accounts := tb_accounts ir; tb_account_operations := tb_account_operations ir;
       tb_applied_hardforks := tb_applied_hardforks ir |} db).

Definition insert_transactions_multisig (rows : list multisig_row) (db : database) : outcome sql_error database :=
  let ir := irreversible db in
  let signatures := tb_transactions_multisig ir ++ rows in
  _ ← o_assert (unique (fun s => (sig_hash s, signature s)) signatures) UniqueViolation;
  _ ← o_assert (refers (map sig_hash rows) (map trx_hash (tb_transactions ir))) ForeignKeyViolation;
  Ok (set_irreversible_tables
    {| tb_blocks := tb_blocks ir; tb_transactions := tb_transactions ir; tb_transactions_multisig := signatures;
       tb_operations := tb_operations ir; tb_accounts := tb_accounts ir; tb_account_operations := tb_account_operations ir;
       tb_applied_hardforks := tb_applied_hardforks ir |} db).

Definition insert_operations (rows : list operation_row) (db : database) : outcome sql_error database :=
  let ir := irreversible db in
  let operations := tb_operations ir ++ rows in
  _ ← o_assert (unique op_id operations) UniqueViolation;
  Ok (set_irreversible_tables
    {| tb_blocks := tb_blocks ir; tb_transactions := tb_transactions ir; tb_transactions_multisig := tb_transactions_multisig ir;
       tb_operations := operations; tb_accounts := tb_accounts ir; tb_account_operations := tb_account_operations ir;
       tb_applied_hardforks := tb_applied_hardforks ir |} db).

Definition set_accounts (accounts : list account_row) (db : database) : database :=
  let ir := irreversible db in
  set_irreversible_tables
    {| tb_blocks := tb_blocks ir; tb_transactions := tb_transactions ir; tb_transactions_multisig := tb_transactions_multisig ir;
       tb_operations := tb_operations ir; tb_accounts := accounts; tb_account_operations := tb_account_operations ir;
       tb_applied_hardforks := tb_applied_hardforks ir |} db.

Definition insert_accounts (rows : list account_row) (db : database) : outcome sql_error database :=
  let ir := irreversible db in
  let accounts := tb_accounts ir ++ rows in
  _ ← o_assert (unique account_id accounts && unique account_name accounts) UniqueViolation;
  _ ← o_assert (refers (omap account_block rows) (map num (tb_blocks ir))) ForeignKeyViolation;
  Ok (set_accounts accounts db).

Definition insert_account_operations (rows : list account_operation_row) (db : database) : outcome sql_error database :=
  let ir := irreversible db in
  let account_operations := tb_account_operations ir ++ rows in
  _ ← o_assert (unique (fun ao => (ao_account_id ao, ao_account_op_seq_no ao)) account_operations) UniqueViolation;
  _ ← o_assert (refers (map ao_account_id rows) (map account_id (tb_accounts ir)) &&
                refers (map ao_operation_id rows) (map op_id (tb_operations ir)) &&
                refers (map ao_transacting_account_id rows) (map account_id (tb_accounts ir))) ForeignKeyViolation;
  Ok (set_irreversible_tables
    {| tb_blocks := tb_blocks ir; tb_transactions := tb_transactions ir; tb_transactions_multisig := tb_transactions_multisig ir;
       tb_operations := tb_operations ir; tb_accounts := tb_accounts ir; tb_account_operations := account_operations;
       tb_applied_hardforks := tb_applied_hardforks ir |} db).

Definition insert_applied_hardforks (rows : list hardfork_row) (db : database) : outcome sql_error database :=
  let ir := irreversible db in
  let hardforks := tb_applied_hardforks ir ++ rows in
  _ ← o_assert (unique hardfork_num hardforks) UniqueViolation;
  _ ← o_assert (refers (map hardfork_vop_id rows) (map op_id (tb_operations ir)) &&
                refers (map hardfork_block rows) (map num (tb_blocks ir))) ForeignKeyViolation;
  Ok (set_irreversible_tables
    {| tb_blocks := tb_blocks ir; tb_transactions := tb_transactions ir; tb_transactions_multisig := tb_transactions_multisig ir;
       tb_operations := tb_operations ir; tb_accounts := tb_accounts ir; tb_account_operations := tb_account_operations ir;
       tb_applied_hardforks := hardforks |} db).

(** [UPDATE hafd.hive_state SET consistent_block], which refers to [hafd.blocks]. *)
Definition set_consistent_block (n : Z) (db : database) : outcome sql_error database :=
  _ ← o_assert (refers [n] (map num (tb_blocks (irreversible db)))) ForeignKeyViolation;
  Ok {| irreversible := irreversible db; reversible := reversible db; fork := fork db; fork_id_seq := fork_id_seq db;
        events_queue := events_queue db; events_queue_id_seq := events_queue_id_seq db; consistent_block := Some n;
        is_lite_mode := is_lite_mode db |}.

(** ** Insertions into the reversible tables, with the constraints of [reversible_blocks.sql] *)

Definition with_fork {R} (__fork_id : Z) (rows : list R) : list (R * Z) := map (fun r => (r, __fork_id)) rows.

Definition insert_blocks_reversible (rows : list (block_row * Z)) (db : database) : outcome sql_error database :=
  let rv := reversible db in
  let blocks := blocks_reversible rv ++ rows in
  _ ← o_assert (unique (in_fork num) blocks) UniqueViolation;
  _ ← o_assert (refers (map snd rows) (map fst (fork db))) ForeignKeyViolation;
  Ok (set_reversible_tables
    {| blocks_reversible := blocks; transactions_reversible := transactions_reversible rv;
       transactions_multisig_reversible := transactions_multisig_reversible rv; operations_reversible := operations_reversible rv;
       accounts_reversible := accounts_reversible rv; account_operations_reversible := account_operations_reversible rv;
       applied_hardforks_reversible := applied_hardforks_reversible rv |} db).

Definition insert_transactions_reversible (rows : list (transaction_row * Z)) (db : database) : outcome sql_error database :=
  let rv := reversible db in
  let transactions := transactions_reversible rv ++ rows in
  _ ← o_assert (unique (in_fork trx_hash) transactions) UniqueViolation;
  _ ← o_assert (refers (map (in_fork trx_block) rows) (map (in_fork num) (blocks_reversible rv))) ForeignKeyViolation;
  Ok (set_reversible_tables
    {| blocks_reversible := blocks_reversible rv; transactions_reversible := transactions;
       transactions_multisig_reversible := transactions_multisig_reversible rv; operations_reversible := operations_reversible rv;
       accounts_reversible := accounts_reversible rv; account_operations_reversible := account_operations_reversible rv;
       applied_hardforks_reversible := applied_hardforks_reversible rv |} db).

Definition insert_transactions_multisig_reversible (rows : list (multisig_row * Z)) (db : database) : outcome sql_error database :=
  let rv := reversible db in
  let signatures := transactions_multisig_reversible rv ++ rows in
  _ ← o_assert (unique (in_fork (fun s => (sig_hash s, signature s))) signatures) UniqueViolation;
  _ ← o_assert (refers (map (in_fork sig_hash) rows) (map (in_fork trx_hash) (transactions_reversible rv))) ForeignKeyViolation;
  Ok (set_reversible_tables
    {| blocks_reversible := blocks_reversible rv; transactions_reversible := transactions_reversible rv;
       transactions_multisig_reversible := signatures; operations_reversible := operations_reversible rv;
       accounts_reversible := accounts_reversible rv; account_operations_reversible := account_operations_reversible rv;
       applied_hardforks_reversible := applied_hardforks_reversible rv |} db).

Definition insert_operations_reversible (rows : list (operation_row * Z)) (db : database) : outcome sql_error database :=
  let rv := reversible db in
  let operations := operations_reversible rv ++ rows in
  _ ← o_assert (unique (in_fork op_id) operations) UniqueViolation;
  Ok (set_reversible_tables
    {| blocks_reversible := blocks_reversible rv; transactions_reversible := transactions_reversible rv;
       transactions_multisig_reversible := transactions_multisig_reversible rv; operations_reversible := operations;
       accounts_reversible := accounts_reversible rv; account_operations_reversible := account_operations_reversible rv;
       applied_hardforks_reversible := applied_hardforks_reversible rv |} db).

(** The keys of the rows whose block is not [NULL]. *)
Definition account_blocks (rows : list (account_row * Z)) : list (Z * Z) :=
  omap (fun r => n ← account_block r.1; Some (n, r.2)) rows.

Definition insert_accounts_reversible (rows : list (account_row * Z)) (db : database) : outcome sql_error database :=
  let rv := reversible db in
  let accounts := accounts_reversible rv ++ rows in
  _ ← o_assert (unique (in_fork account_id) accounts && unique (in_fork account_name) accounts) UniqueViolation;
  _ ← o_assert (refers (account_blocks rows) (map (in_fork num) (blocks_reversible rv))) ForeignKeyViolation;
  Ok (set_reversible_tables
    {| blocks_reversible := blocks_reversible rv; transactions_reversible := transactions_reversible rv;
       transactions_multisig_reversible := transactions_multisig_reversible rv; operations_reversible := operations_reversible rv;
       accounts_reversible := accounts; account_operations_reversible := account_operations_reversible rv;
       applied_hardforks_reversible := applied_hardforks_reversible rv |} db).

Definition insert_account_operations_reversible (rows : list (account_operation_row * Z)) (db : database) : outcome sql_error database :=
  let rv := reversible db in
  let account_operations := account_operations_reversible rv ++ rows in
  _ ← o_assert (unique (in_fork (fun ao => (ao_account_id ao, ao_account_op_seq_no ao, ao_transacting_account_id ao))) account_operations) UniqueViolation;
  _ ← o_assert (refers (map (in_fork ao_operation_id) rows) (map (in_fork op_id) (operations_reversible rv))) ForeignKeyViolation;
  Ok (set_reversible_tables
    {| blocks_reversible := blocks_reversible rv; transactions_reversible := transactions_reversible rv;
       transactions_multisig_reversible := transactions_multisig_reversible rv; operations_reversible := operations_reversible rv;
       accounts_reversible := accounts_reversible rv; account_operations_reversible := account_operations;
       applied_hardforks_reversible := applied_hardforks_reversible rv |} db).

Definition insert_applied_hardforks_reversible (rows : list (hardfork_row * Z)) (db : database) : outcome sql_error database :=
  let rv := reversible db in
  let hardforks := applied_hardforks_reversible rv ++ rows in
  _ ← o_assert (unique (in_fork hardfork_num) hardforks) UniqueViolation;
  _ ← o_assert (refers (map (in_fork hardfork_block) rows) (map (in_fork num) (blocks_reversible rv))) ForeignKeyViolation;
  Ok (set_reversible_tables
    {| blocks_reversible := blocks_reversible rv; transactions_reversible := transactions_reversible rv;
       transactions_multisig_reversible := transactions_multisig_reversible rv; operations_reversible := operations_reversible rv;
       accounts_reversible := accounts_reversible rv; account_operations_reversible := account_operations_reversible rv;
       applied_hardforks_reversible := hardforks |} db).

(** ** New blocks *)

(** [INSERT ... ON CONFLICT (id) DO UPDATE SET name, block_num]: a row of the id gets the other
    columns; the key of names is checked row by row. *)
Definition upsert_account (accounts : outcome sql_error (list account_row)) (a : account_row) : outcome sql_error (list account_row) :=
  rows ← accounts;
  let rows := if existsb (fun r => account_id r =? account_id a) rows
              then map (fun r => if account_id r =? account_id a then a else r) rows else rows ++ [a] in
  _ ← o_assert (unique account_name rows) UniqueViolation;
  Ok rows.

Definition upsert_accounts (rows : list account_row) (db : database) : outcome sql_error database :=
  let ir := irreversible db in
  _ ← o_assert (unique account_id rows) CardinalityViolation;
  accounts ← foldl upsert_account (Ok (tb_accounts ir)) rows;
  _ ← o_assert (refers (omap account_block rows) (map num (tb_blocks ir))) ForeignKeyViolation;
  Ok (set_accounts accounts db).

(** [locked]: an application holds [hafd.contexts_attachment]. *)
Definition push_block_lite (locked : bool) (contexts : list context) (fb : full_block) (db : database) : outcome sql_error database :=
  let _num := num (fb_block fb) in
  if existsb (fun b => num b =? _num) (tb_blocks (irreversible db)) then Ok db
  else
    db ← insert_blocks [fb_block fb] db;
    db ← insert_transactions (fb_transactions fb) db;
    db ← insert_transactions_multisig (fb_signatures fb) db;
    db ← insert_operations (fb_operations fb) db;
    db ← upsert_accounts (fb_accounts fb) db;
    db ← insert_account_operations (fb_account_operations fb) db;
    db ← insert_applied_hardforks (fb_applied_hardforks fb) db;
    db ← set_consistent_block _num (insert_event NEW_IRREVERSIBLE _num db);
    Ok (if locked then db else remove_unecessary_events contexts _num db).

Definition push_block (locked : bool) (contexts : list context) (fb : full_block) (db : database) : outcome sql_error database :=
  if is_lite_mode db then push_block_lite locked contexts fb db
  else
    match sql_max (map fst (fork db)) with
    | None => Throw NotNullViolation
    | Some __fork_id =>
        db ← insert_blocks_reversible (with_fork __fork_id [fb_block fb]) (insert_event NEW_BLOCK (num (fb_block fb)) db);
        db ← insert_transactions_reversible (with_fork __fork_id (fb_transactions fb)) db;
        db ← insert_transactions_multisig_reversible (with_fork __fork_id (fb_signatures fb)) db;
        db ← insert_operations_reversible (with_fork __fork_id (fb_operations fb)) db;
        db ← insert_accounts_reversible (with_fork __fork_id (fb_accounts fb)) db;
        db ← insert_account_operations_reversible (with_fork __fork_id (fb_account_operations fb)) db;
        insert_applied_hardforks_reversible (with_fork __fork_id (fb_applied_hardforks fb)) db
    end.

(** ** Forks *)

(** In lite mode the rows of the blocks are deleted, an account loses its block.  A row another
    table refers to cannot be deleted. *)
Definition back_from_fork_lite (_block_num_before_fork : Z) (db : database) : outcome sql_error database :=
  let ir := irreversible db in
  let stays n := n <=? _block_num_before_fork in
  let account_operations := List.filter (fun ao => stays (operation_id_to_block_num (ao_operation_id ao))) (tb_account_operations ir) in
  let hardforks := List.filter (fun h => stays (hardfork_block h)) (tb_applied_hardforks ir) in
  let operations := List.filter (fun o => stays (operation_id_to_block_num (op_id o))) (tb_operations ir) in
  _ ← o_assert (refers (map ao_operation_id account_operations) (map op_id operations) &&
                refers (map hardfork_vop_id hardforks) (map op_id operations)) ForeignKeyViolation;
  let signatures := List.filter (fun s => negb (existsb (fun t => bool_decide (trx_hash t = sig_hash s) && negb (stays (trx_block t)))
                                                  (tb_transactions ir))) (tb_transactions_multisig ir) in
  let transactions := List.filter (fun t => stays (trx_block t)) (tb_transactions ir) in
  _ ← o_assert (refers (map sig_hash signatures) (map trx_hash transactions)) ForeignKeyViolation;
  let accounts := map (fun a => match account_block a with
                                | Some n => if stays n then a
                                            else {| account_id := account_id a; account_name := account_name a; account_block := None |}
                                | None => a
                                end) (tb_accounts ir) in
  let blocks := List.filter (fun b => stays (num b)) (tb_blocks ir) in
  _ ← o_assert (refers (map trx_block transactions) (map num blocks) && refers (map hardfork_block hardforks) (map num blocks) &&
                refers (omap account_block accounts) (map num blocks) &&
                refers (match consistent_block db with Some c => [c] | None => [] end) (map num blocks)) ForeignKeyViolation;
  Ok (set_irreversible_tables
    {| tb_blocks := blocks; tb_transactions := transactions; tb_transactions_multisig := signatures; tb_operations := operations;
       tb_accounts := accounts; tb_account_operations := account_operations; tb_applied_hardforks := hardforks |} db).

Definition back_from_fork (_block_num_before_fork : Z) (db : database) : outcome sql_error database :=
  if is_lite_mode db then back_from_fork_lite _block_num_before_fork db
  else
    let id := fork_id_seq db + 1 in
    let forks := fork db ++ [(id, _block_num_before_fork)] in
    Ok (insert_event BACK_FROM_FORK (default 0 (sql_max (map fst forks)))
      {| irreversible := irreversible db; reversible := reversible db; fork := forks; fork_id_seq := id;
         events_queue := events_queue db; events_queue_id_seq := events_queue_id_seq db; consistent_block := consistent_block db;
         is_lite_mode := is_lite_mode db |}).

(** ** Irreversible blocks *)

(** [SELECT DISTINCT ON ( num ) ... WHERE num <= new AND num > head ORDER BY num ASC, fork_id DESC]:
    of each number the row of the latest fork. *)
Definition newest (bs : list (block_row * Z)) (r : block_row * Z) : bool :=
  forallb (fun r' => negb (num r'.1 =? num r.1) || (r'.2 <=? r.2)) bs.

Definition between (lo hi n : Z) : bool := (lo <? n) && (n <=? hi).

Definition num_and_forks (lo hi : Z) (bs : list (block_row * Z)) : list (block_row * Z) :=
  List.filter (fun r => between lo hi (num r.1) && newest bs r) bs.

(** [JOIN ... ON block_num = num_and_forks.num AND fork_id = num_and_forks.fork_id]. *)
Definition joins (selected : list (block_row * Z)) (n : option Z) (f : Z) : bool :=
  match n with
  | Some n => existsb (fun r => (num r.1 =? n) && (r.2 =? f)) selected
  | None => false
  end.

Definition copied {R} (block_of : R -> option Z) (selected : list (block_row * Z)) (rows : list (R * Z)) : list R :=
  map fst (List.filter (fun r => joins selected (block_of r.1) r.2) rows).

Definition copy_blocks_to_irreversible (lo hi : Z) (db : database) : outcome sql_error database :=
  insert_blocks (map fst (num_and_forks lo hi (blocks_reversible (reversible db)))) db.

Definition copy_transactions_to_irreversible (lo hi : Z) (db : database) : outcome sql_error database :=
  let rv := reversible db in
  insert_transactions (copied (fun t => Some (trx_block t)) (num_and_forks lo hi (blocks_reversible rv)) (transactions_reversible rv)) db.

Definition operation_block (id : Z) : option Z := Some (operation_id_to_block_num id).

Definition copy_operations_to_irreversible (lo hi : Z) (db : database) : outcome sql_error database :=
  let rv := reversible db in
  insert_operations (copied (fun o => operation_block (op_id o)) (num_and_forks lo hi (blocks_reversible rv)) (operations_reversible rv)) db.

(** A signature is joined with its transaction, in its fork. *)
Definition copied_signatures (selected : list (block_row * Z)) (ss : list (multisig_row * Z)) (ts : list (transaction_row * Z)) : list multisig_row :=
  concat (map (fun s => map (fun _ => s.1)
    (List.filter (fun t => bool_decide (trx_hash t.1 = sig_hash s.1) && (t.2 =? s.2) && joins selected (Some (trx_block t.1)) t.2) ts)) ss).

Definition copy_signatures_to_irreversible (lo hi : Z) (db : database) : outcome sql_error database :=
  let rv := reversible db in
  insert_transactions_multisig
    (copied_signatures (num_and_forks lo hi (blocks_reversible rv)) (transactions_multisig_reversible rv) (transactions_reversible rv)) db.

Definition copy_accounts_to_irreversible (lo hi : Z) (db : database) : outcome sql_error database :=
  let rv := reversible db in
  insert_accounts (copied account_block (num_and_forks lo hi (blocks_reversible rv)) (accounts_reversible rv)) db.

Definition copy_account_operations_to_irreversible (lo hi : Z) (db : database) : outcome sql_error database :=
  let rv := reversible db in
  insert_account_operations
    (copied (fun ao => operation_block (ao_operation_id ao)) (num_and_forks lo hi (blocks_reversible rv)) (account_operations_reversible rv)) db.

Definition copy_applied_hardforks_to_irreversible (lo hi : Z) (db : database) : outcome sql_error database :=
  let rv := reversible db in
  insert_applied_hardforks
    (copied (fun h => Some (hardfork_block h)) (num_and_forks lo hi (blocks_reversible rv)) (applied_hardforks_reversible rv)) db.

(** The calls of [set_irreversible]. *)
Definition copy_to_irreversible (lo hi : Z) (db : database) : outcome sql_error database :=
  db ← copy_blocks_to_irreversible lo hi db;
  db ← copy_transactions_to_irreversible lo hi db;
  db ← copy_operations_to_irreversible lo hi db;
  db ← copy_signatures_to_irreversible lo hi db;
  db ← copy_accounts_to_irreversible lo hi db;
  db ← copy_account_operations_to_irreversible lo hi db;
  copy_applied_hardforks_to_irreversible lo hi db.

(** [remove_obsolete_reversible_data]: the bounds the contexts allow, and the condition of every
    [DELETE]. *)
Definition lowest_of (contexts : list context) (field : context -> Z) (bound : Z) : Z :=
  default bound (sql_min (map field (List.filter (fun c => cx_is_attached c && cx_is_forking c) contexts))).

Definition obsolete (contexts : list context) (_new_irreversible_block : Z) (forks : list (Z * Z)) (n f : Z) : bool :=
  let __max_block_num := Z.min (lowest_of contexts cx_irreversible_block max_block_num) _new_irreversible_block in
  let __min_ctx_fork_id := lowest_of contexts cx_fork_id max_fork_id in
  let bound := match sql_max (map fst forks) with Some m => Z.min __min_ctx_fork_id m | None => __min_ctx_fork_id end in
  (n <=? __max_block_num) ||
  ((f <? bound) &&
   match sql_min (map snd (List.filter (fun g => f <? g.1) forks)) with Some m => m <? n | None => false end).

Definition kept {R} (gone : R -> Z -> bool) (rows : list (R * Z)) : list (R * Z) := List.filter (fun r => negb (gone r.1 r.2)) rows.

(** The seven deletions in their order; one of a table others refer to fails when it would leave
    such a row without its parent. *)
Definition remove_obsolete_reversible_data (contexts : list context) (_new_irreversible_block : Z) (db : database) : outcome sql_error database :=
  if is_lite_mode db then Ok db
  else
    let gone := obsolete contexts _new_irreversible_block (fork db) in
    let rv := reversible db in
    let account_operations :=
      kept (fun ao f => existsb (fun o => (op_id o.1 =? ao_operation_id ao) && (o.2 =? f) &&
                                          gone (operation_id_to_block_num (op_id o.1)) o.2) (operations_reversible rv))
        (account_operations_reversible rv) in
    let hardforks := kept (fun h => gone (hardfork_block h)) (applied_hardforks_reversible rv) in
    let operations := kept (fun o => gone (operation_id_to_block_num (op_id o))) (operations_reversible rv) in
    _ ← o_assert (refers (map (in_fork ao_operation_id) account_operations) (map (in_fork op_id) operations)) ForeignKeyViolation;
    let signatures :=
      kept (fun s f => existsb (fun t => bool_decide (trx_hash t.1 = sig_hash s) && (t.2 =? f) && gone (trx_block t.1) t.2)
                         (transactions_reversible rv))
        (transactions_multisig_reversible rv) in
    let transactions := kept (fun t => gone (trx_block t)) (transactions_reversible rv) in
    _ ← o_assert (refers (map (in_fork sig_hash) signatures) (map (in_fork trx_hash) transactions)) ForeignKeyViolation;
    let accounts := kept (fun a f => match account_block a with Some n => gone n f | None => false end) (accounts_reversible rv) in
    let blocks := kept (fun b => gone (num b)) (blocks_reversible rv) in
    _ ← o_assert (refers (map (in_fork trx_block) transactions) (map (in_fork num) blocks) &&
                  refers (account_blocks accounts) (map (in_fork num) blocks) &&
                  refers (map (in_fork hardfork_block) hardforks) (map (in_fork num) blocks)) ForeignKeyViolation;
    Ok (set_reversible_tables
      {| blocks_reversible := blocks; transactions_reversible := transactions; transactions_multisig_reversible := signatures;
         operations_reversible := operations; accounts_reversible := accounts; account_operations_reversible := account_operations;
         applied_hardforks_reversible := hardforks |} db).

Definition set_irreversible (locked : bool) (contexts : list context) (_block_num : Z) (db : database) : outcome sql_error database :=
  if is_lite_mode db then
    db ← set_consistent_block _block_num (insert_event NEW_IRREVERSIBLE _block_num db);
    Ok (if locked then db else remove_unecessary_events contexts _block_num db)
  else
    let __irreversible_head_block := default 0 (sql_max (map num (tb_blocks (irreversible db)))) in
    if _block_num <? __irreversible_head_block then Ok db
    else
      db ← copy_to_irreversible __irreversible_head_block _block_num db;
      db ← (if locked then Ok db
            else remove_obsolete_reversible_data contexts _block_num (remove_unecessary_events contexts _block_num db));
      set_consistent_block _block_num (insert_event NEW_IRREVERSIBLE _block_num db).

(** The constraint deferred to the end of the transaction: the producers of the blocks. *)
Definition commit (db : database) : outcome sql_error database :=
  let ir := irreversible db in
  _ ← o_assert (refers (map producer_account_id (tb_blocks ir)) (map account_id (tb_accounts ir))) ForeignKeyViolation;
  Ok db.

(** [hive.blocks_view] *)
Definition blocks_view (db : database) : list block_row :=
  tb_blocks (irreversible db) ++
  let visible := List.filter (fun r => default 0 (consistent_block db) <? num r.1) (blocks_reversible (reversible db)) in
  map fst (List.filter (newest visible) visible).

(** ** The chain *)

Definition fbn (fb : full_block) : Z := num (fb_block fb).

(** The blocks from block 1 on, and how many of them are irreversible. *)
Record chain := { ch_blocks : list full_block; ch_irreversible : nat }.

Definition head (ch : chain) : nat := length (ch_blocks ch).

(** The rows of a block belong to it. *)
Record well_formed (fb : full_block) : Prop := {
  wf_transactions : forall t, t ∈ fb_transactions fb -> trx_block t = fbn fb;
  wf_signatures : forall s, s ∈ fb_signatures fb -> sig_hash s ∈ map trx_hash (fb_transactions fb);
  wf_operations : forall o, o ∈ fb_operations fb -> operation_id_to_block_num (op_id o) = fbn fb;
  wf_accounts : forall a, a ∈ fb_accounts fb -> account_block a = Some (fbn fb);
  wf_account_operations : forall ao, ao ∈ fb_account_operations fb -> ao_operation_id ao ∈ map op_id (fb_operations fb);
  wf_hardforks : forall h, h ∈ fb_applied_hardforks fb -> hardfork_block h = fbn fb
}.

Definition all_rows {R} (field : full_block -> list R) (l : list full_block) : list R := concat (map field l).

(** Along a chain hashes, identifiers, names and sequence numbers do not repeat, and producers,
    accounts of operations and virtual operations of hardforks come before they are used. *)
Record rows_ok (l : list full_block) : Prop := {
  ro_hashes : NoDup (map trx_hash (all_rows fb_transactions l));
  ro_signatures : NoDup (map (fun s => (sig_hash s, signature s)) (all_rows fb_signatures l));
  ro_operations : NoDup (map op_id (all_rows fb_operations l));
  ro_accounts : NoDup (map account_id (all_rows fb_accounts l));
  ro_names : NoDup (map account_name (all_rows fb_accounts l));
  ro_account_operations : NoDup (map (fun ao => (ao_account_id ao, ao_account_op_seq_no ao)) (all_rows fb_account_operations l));
  ro_hardforks : NoDup (map hardfork_num (all_rows fb_applied_hardforks l));
  ro_producers : forall fb, fb ∈ l -> producer_account_id (fb_block fb) ∈ map account_id (all_rows fb_accounts l);
  ro_actors : forall ao, ao ∈ all_rows fb_account_operations l ->
    ao_account_id ao ∈ map account_id (all_rows fb_accounts l) /\ ao_transacting_account_id ao ∈ map account_id (all_rows fb_accounts l);
  ro_vops : forall h, h ∈ all_rows fb_applied_hardforks l -> hardfork_vop_id h ∈ map op_id (all_rows fb_operations l)
}.

Inductive call :=
| Push (locked : bool) (contexts : list context) (fb : full_block)
| Fork (block_num_before_fork : Z)
| Irreversible (locked : bool) (contexts : list context) (block_num : Z).

(** What hived does to its chain when it makes the call. *)
Inductive chain_step : call -> chain -> chain -> Prop :=
| ChPush locked contexts fb ch :
    well_formed fb -> fbn fb = Z.of_nat (head ch) + 1 -> rows_ok (ch_blocks ch ++ [fb]) ->
    chain_step (Push locked contexts fb) ch {| ch_blocks := ch_blocks ch ++ [fb]; ch_irreversible := ch_irreversible ch |}
| ChFork m ch :
    (ch_irreversible ch <= m <= head ch)%nat ->
    chain_step (Fork (Z.of_nat m)) ch {| ch_blocks := take m (ch_blocks ch); ch_irreversible := ch_irreversible ch |}
| ChIrreversible locked contexts n ch :
    (1 <= n)%nat -> (ch_irreversible ch <= n <= head ch)%nat ->
    chain_step (Irreversible locked contexts (Z.of_nat n)) ch {| ch_blocks := ch_blocks ch; ch_irreversible := n |}
| ChOld locked contexts n ch :
    (n < ch_irreversible ch)%nat -> chain_step (Irreversible locked contexts (Z.of_nat n)) ch ch.

(** Every call is a transaction of its own. *)
Definition execute (c : call) (db : database) : outcome sql_error database :=
  db ← match c with
       | Push locked contexts fb => push_block locked contexts fb db
       | Fork m => back_from_fork m db
       | Irreversible locked contexts n => set_irreversible locked contexts n db
       end;
  commit db.

(** ** The invariant *)

(** What the reversible tables hold: blocks with the fork they were pushed in. *)
Definition entry : Type := full_block * Z.

Definition rows_of {R} (field : full_block -> list R) (es : list entry) : list (R * Z) :=
  concat (map (fun e => with_fork e.2 (field e.1)) es).

(** No later fork has gone below the block. *)
Definition live (forks : list (Z * Z)) (e : entry) : bool :=
  forallb (fun g => negb (e.2 <? g.1) || (fbn e.1 <=? g.2)) forks.

Record tables_hold (es : list entry) (db : database) : Prop := {
  th_blocks : blocks_reversible (reversible db) = map (fun e => (fb_block e.1, e.2)) es;
  th_transactions : transactions_reversible (reversible db) = rows_of fb_transactions es;
  th_signatures : transactions_multisig_reversible (reversible db) = rows_of fb_signatures es;
  th_operations : operations_reversible (reversible db) = rows_of fb_operations es;
  th_accounts : accounts_reversible (reversible db) = rows_of fb_accounts es;
  th_account_operations : account_operations_reversible (reversible db) = rows_of fb_account_operations es;
  th_hardforks : applied_hardforks_reversible (reversible db) = rows_of fb_applied_hardforks es
}.

Definition irreversible_rows (l : list full_block) : tables :=
  {| tb_blocks := map fb_block l; tb_transactions := all_rows fb_transactions l;
     tb_transactions_multisig := all_rows fb_signatures l; tb_operations := all_rows fb_operations l;
     tb_accounts := all_rows fb_accounts l; tb_account_operations := all_rows fb_account_operations l;
     tb_applied_hardforks := all_rows fb_applied_hardforks l |}.

(** A key does not repeat within a fork. *)
Definition keyed {R X} (field : full_block -> list R) (key : R -> X) (es : list entry) : Prop :=
  NoDup (map (in_fork key) (rows_of field es)).

Record keys_ok (es : list entry) : Prop := {
  ko_hashes : keyed fb_transactions trx_hash es;
  ko_signatures : keyed fb_signatures (fun s => (sig_hash s, signature s)) es;
  ko_operations : keyed fb_operations op_id es;
  ko_accounts : keyed fb_accounts account_id es;
  ko_names : keyed fb_accounts account_name es;
  ko_account_operations :
    keyed fb_account_operations (fun ao => (ao_account_id ao, ao_account_op_seq_no ao, ao_transacting_account_id ao)) es;
  ko_hardforks : keyed fb_applied_hardforks hardfork_num es
}.

Record entries_ok (forks : list (Z * Z)) (F : Z) (ch : chain) (es : list entry) : Prop := {
  eo_keys : NoDup (map (fun e => (fbn e.1, e.2)) es);
  eo_rows : keys_ok es;
  eo_wf : forall e, e ∈ es -> well_formed e.1;
  eo_fork : forall e, e ∈ es -> e.2 <= F;
  eo_current : forall e, e ∈ es -> e.2 = F -> e.1 ∈ ch_blocks ch;
  eo_max : sql_max (map fst forks) = Some F;
  eo_live : map fst (List.filter (fun e => (Z.of_nat (ch_irreversible ch) <? fbn e.1) && live forks e) es)
            = drop (ch_irreversible ch) (ch_blocks ch);
  eo_order : forall e e', e ∈ es -> e' ∈ es -> fbn e.1 = fbn e'.1 -> e.2 < e'.2 -> live forks e = false
}.

(** What hived guarantees of the chain. *)
Record chain_ok (ch : chain) : Prop := {
  co_numbers : map fbn (ch_blocks ch) = seqZ 1 (Z.of_nat (head ch));
  co_bound : (ch_irreversible ch <= head ch)%nat;
  co_wf : forall fb, fb ∈ ch_blocks ch -> well_formed fb;
  co_rows : forall k, rows_ok (take k (ch_blocks ch))
}.

Record follows (db : database) (ch : chain) : Prop := {
  fw_mode : is_lite_mode db = false;
  fw_chain : chain_ok ch;
  fw_irreversible : irreversible db = irreversible_rows (take (ch_irreversible ch) (ch_blocks ch));
  fw_consistent : default 0 (consistent_block db) = Z.of_nat (ch_irreversible ch);
  fw_reversible : exists es, tables_hold es db /\ entries_ok (fork db) (fork_id_seq db) ch es
}.

(** *** Numbers of the chain *)

Lemma seqZ_S a k : seqZ a (Z.of_nat (S k)) = a :: seqZ (a + 1) (Z.of_nat k).
Proof. rewrite seqZ_cons by lia. do 2 f_equal; lia. Qed.

Lemma filter_low l a k :
  map fbn l = seqZ a (Z.of_nat (length l)) -> List.filter (fun b => fbn b <=? a - 1 + Z.of_nat k) l = take k l.
Proof.
  revert a k. induction l as [|b l IH]; intros a k Hn; [by destruct k|]. cbn [length] in Hn. rewrite seqZ_S in Hn. injection Hn as Hb Hn.
  cbn. rewrite Hb. destruct k as [|k].
  - rewrite (proj2 (Z.leb_gt _ _)) by lia. etrans; [|exact (IH (a + 1) 0%nat Hn)].
    apply List.filter_ext_in. intros x Hx. apply list_elem_of_In in Hx.
    assert (fbn x ∈ map fbn l) as Hin by (by apply list_elem_of_fmap_2). rewrite Hn in Hin. apply elem_of_seqZ in Hin.
    rewrite !(proj2 (Z.leb_gt _ _)) by lia. done.
  - rewrite (proj2 (Z.leb_le _ _)) by lia. cbn. f_equal. rewrite <- (IH (a + 1) k Hn). apply List.filter_ext.
    intros x. f_equal. lia.
Qed.

Lemma filter_high l a k :
  map fbn l = seqZ a (Z.of_nat (length l)) -> List.filter (fun b => a - 1 + Z.of_nat k <? fbn b) l = drop k l.
Proof.
  revert a k. induction l as [|b l IH]; intros a k Hn; [by destruct k|]. cbn [length] in Hn. rewrite seqZ_S in Hn. injection Hn as Hb Hn.
  cbn. rewrite Hb. destruct k as [|k].
  - rewrite (proj2 (Z.ltb_lt _ _)) by lia. cbn. f_equal. rewrite <- (drop_0 l) at 2. rewrite <- (IH (a + 1) 0%nat Hn).
    apply List.filter_ext_in. intros x Hx. apply list_elem_of_In in Hx.
    assert (fbn x ∈ map fbn l) as Hin by (by apply list_elem_of_fmap_2). rewrite Hn in Hin. apply elem_of_seqZ in Hin.
    by rewrite !(proj2 (Z.ltb_lt _ _)) by lia.
  - rewrite (proj2 (Z.ltb_ge _ _)) by lia. cbn. rewrite <- (IH (a + 1) k Hn). apply List.filter_ext. intros x. f_equal. lia.
Qed.

Lemma numbers_take l k n : map fbn l = seqZ 1 (Z.of_nat n) -> length l = n -> (k <= n)%nat ->
  map fbn (take k l) = seqZ 1 (Z.of_nat k).
Proof.
  intros Hn <- Hk. change (map fbn (take k l)) with (fbn <$> take k l). rewrite fmap_take. change (fbn <$> l) with (map fbn l).
  rewrite Hn. unfold seqZ. rewrite <- fmap_take, take_seq, !Nat2Z.id. do 2 f_equal. lia.
Qed.

Lemma numbers_drop l k n : map fbn l = seqZ 1 (Z.of_nat n) -> length l = n -> (k <= n)%nat ->
  map fbn (drop k l) = seqZ (Z.of_nat k + 1) (Z.of_nat (length (drop k l))).
Proof.
  intros Hn <- Hk. change (map fbn (drop k l)) with (fbn <$> drop k l). rewrite fmap_drop. change (fbn <$> l) with (map fbn l).
  rewrite Hn, length_drop. apply list_eq. intros i. rewrite lookup_drop.
  destruct (decide (i < length l - k)%nat).
  - rewrite !lookup_seqZ_lt by lia. f_equal. lia.
  - rewrite !lookup_seqZ_ge by lia. done.
Qed.

(** *** Rows of entries *)

Lemma rows_of_app {R} (field : full_block -> list R) es es' : rows_of field (es ++ es') = rows_of field es ++ rows_of field es'.
Proof. unfold rows_of. by rewrite map_app, concat_app. Qed.

Lemma rows_of_one {R} (field : full_block -> list R) fb f : rows_of field [(fb, f)] = with_fork f (field fb).
Proof. unfold rows_of. cbn. apply app_nil_r. Qed.

Lemma rows_of_elem {R} (field : full_block -> list R) es r f :
  (r, f) ∈ rows_of field es <-> exists fb, (fb, f) ∈ es /\ r ∈ field fb.
Proof.
  unfold rows_of, with_fork. rewrite list_elem_of_In, List.in_concat. split.
  - intros (l & Hl & Hin). apply List.in_map_iff in Hl as (e & <- & He). apply List.in_map_iff in Hin as (r' & [= <- <-] & Hr).
    exists e.1. rewrite !list_elem_of_In. by destruct e.
  - intros (fb & He & Hr). apply list_elem_of_In in He, Hr. eexists. split; [apply List.in_map_iff; by exists (fb, f)|].
    apply List.in_map_iff. by exists r.
Qed.

Lemma filter_rows {R} (field : full_block -> list R) (P : R * Z -> bool) (Q : entry -> bool) es :
  (forall e r, e ∈ es -> r ∈ field e.1 -> P (r, e.2) = Q e) ->
  List.filter P (rows_of field es) = rows_of field (List.filter Q es).
Proof.
  induction es as [|e es IH]; intros HPQ; [done|]. unfold rows_of in *. cbn. rewrite List.filter_app, IH by (intros; apply HPQ; [by right|done]).
  assert (List.filter P (with_fork e.2 (field e.1)) = if Q e then with_fork e.2 (field e.1) else []) as ->.
  { assert (forall r, r ∈ field e.1 -> P (r, e.2) = Q e) as H1 by (intros; apply HPQ; [left|done]). unfold with_fork. clear HPQ IH.
    induction (field e.1) as [|r l IHl]; cbn; [by destruct (Q e)|]. rewrite (H1 r) by left. rewrite IHl by (intros; apply H1; by right).
    by destruct (Q e). }
  by destruct (Q e).
Qed.

Lemma rows_fst {R} (field : full_block -> list R) es : map fst (rows_of field es) = concat (map field (map fst es)).
Proof.
  induction es as [|e es IH]; [done|]. unfold rows_of, with_fork in *. cbn. rewrite map_app, IH, map_map. cbn. by rewrite map_id.
Qed.

Lemma concat_rows {R} (field : full_block -> list R) (g : R * Z -> list R) (Q : entry -> bool) es :
  (forall e r, e ∈ es -> r ∈ field e.1 -> g (r, e.2) = if Q e then [r] else []) ->
  concat (map g (rows_of field es)) = concat (map field (map fst (List.filter Q es))).
Proof.
  induction es as [|e es IH]; intros HQ; [done|]. unfold rows_of in *. cbn. rewrite map_app, concat_app, IH by (intros; apply HQ; [by right|done]).
  assert (concat (map g (with_fork e.2 (field e.1))) = if Q e then field e.1 else []) as ->.
  { assert (forall r, r ∈ field e.1 -> g (r, e.2) = if Q e then [r] else []) as H1 by (intros; apply HQ; [left|done]). unfold with_fork. clear HQ IH.
    induction (field e.1) as [|r l IHl]; cbn; [by destruct (Q e)|]. rewrite (H1 r) by left. rewrite IHl by (intros; apply H1; by right).
    by destruct (Q e). }
  by destruct (Q e).
Qed.

Lemma filter_unique {R} (P : R -> bool) l x :
  NoDup l -> x ∈ l -> P x = true -> (forall y, y ∈ l -> P y = true -> y = x) -> List.filter P l = [x].
Proof.
  intros Hnd Hx HP Hu. induction Hnd as [|y l Hy _ IH]; [by apply elem_of_nil in Hx|]. cbn.
  assert (forall l', x ∉ l' -> (forall y, y ∈ l' -> P y = true -> y = x) -> List.filter P l' = []) as Hnone.
  { intros l' Hnx Hu'. induction l' as [|z l' IHl]; [done|]. cbn. destruct (P z) eqn:Ez.
    - exfalso. apply Hnx. rewrite <- (Hu' z); [left|left|done].
    - apply IHl; [set_solver|]. intros; apply Hu'; [by right|done]. }
  apply elem_of_cons in Hx as [->|Hx].
  - rewrite HP, (Hnone l); [done|done|]. intros; apply Hu; [by right|done].
  - destruct (P y) eqn:Ey; [|apply IH; [done|]; intros; apply Hu; [by right|done]].
    exfalso. apply Hy. rewrite (Hu y); [done|left|done].
Qed.

Lemma map_filter_fst {R R'} (P : R -> bool) (Q : R' -> bool) (g : R -> R') l :
  map g (List.filter (fun e => P e && Q (g e)) l) = List.filter Q (map g (List.filter P l)).
Proof. induction l as [|e l IH]; [done|]. cbn. destruct (P e); cbn; [|done]. destruct (Q (g e)); cbn; by rewrite IH. Qed.

Lemma filter_map {R R'} (P : R' -> bool) (g : R -> R') l : List.filter P (map g l) = map g (List.filter (fun x => P (g x)) l).
Proof. induction l as [|x l IH]; [done|]. cbn. rewrite IH. by destruct (P (g x)). Qed.

(** *** Entries and forks *)

Lemma filter_elem {R} (P : R -> bool) l x : x ∈ List.filter P l <-> x ∈ l /\ P x = true.
Proof. rewrite !list_elem_of_In. apply List.filter_In. Qed.

Lemma entry_unique forks F ch es e e' :
  entries_ok forks F ch es -> e ∈ es -> e' ∈ es -> fbn e.1 = fbn e'.1 -> e.2 = e'.2 -> e = e'.
Proof.
  intros Hok He He' Hn Hf. pose proof (eo_keys _ _ _ _ Hok) as Hnd.
  apply list_elem_of_lookup in He as [i Hi]. apply list_elem_of_lookup in He' as [j Hj].
  assert (i = j) as ->; [|congruence]. eapply (NoDup_lookup _ _ _ (fbn e.1, e.2) Hnd); change (map ?g ?l) with (g <$> l);
    rewrite list_lookup_fmap; [by rewrite Hi|rewrite Hj; cbn; by rewrite Hn, Hf].
Qed.

Lemma live_current forks F e : sql_max (map fst forks) = Some F -> F <= e.2 -> live forks e = true.
Proof.
  intros [_ Hmax]%sql_max_spec He. apply forallb_forall. intros g Hg. apply list_elem_of_In in Hg.
  assert (g.1 <= F) by (apply Hmax; by apply list_elem_of_fmap_2). rewrite (proj2 (Z.ltb_ge _ _)) by lia. done.
Qed.

Lemma live_snoc forks id m e : live (forks ++ [(id, m)]) e = live forks e && (negb (e.2 <? id) || (fbn e.1 <=? m)).
Proof. unfold live. rewrite forallb_app. cbn. by rewrite andb_true_r. Qed.

Lemma sql_max_snoc l m x : sql_max l = Some m -> m <= x -> sql_max (l ++ [x]) = Some x.
Proof.
  intros [_ Hmax]%sql_max_spec Hx. apply sql_max_spec. split; [set_solver|].
  intros y [Hy|Hy]%elem_of_app; [specialize (Hmax y Hy); lia|apply list_elem_of_singleton in Hy; lia].
Qed.

(** *** Keys and references *)

Lemma assert_true {E Y} (b : bool) (e : E) (f : unit -> outcome E Y) : b = true -> (o_assert b e ≫= f) = f tt.
Proof. by intros ->. Qed.

Lemma unique_true {R X} `{EqDecision X} (key : R -> X) rows : NoDup (map key rows) -> unique key rows = true.
Proof. apply bool_decide_eq_true_2. Qed.

Lemma refers_true {X} `{EqDecision X} (keys parents : list X) : refers keys parents = true <-> forall k, k ∈ keys -> k ∈ parents.
Proof.
  unfold refers. rewrite forallb_forall. split; intros Hk k Hin.
  - eapply bool_decide_eq_true_1, Hk. by apply list_elem_of_In.
  - apply bool_decide_eq_true_2, Hk. by apply list_elem_of_In.
Qed.

Lemma refers_map {R X} `{EqDecision X} (key : R -> X) rows parents :
  (forall r, r ∈ rows -> key r ∈ parents) -> refers (map key rows) parents = true.
Proof. intros Hk. apply refers_true. intros k (r & -> & Hr)%list_elem_of_fmap. by apply Hk. Qed.

Lemma NoDup_map_finer {R X Y} (key : R -> X) (fine : R -> Y) l :
  (forall r r', fine r = fine r' -> key r = key r') -> NoDup (map key l) -> NoDup (map fine l).
Proof.
  intros Hf. induction l as [|r l IH]; cbn; [constructor|]. intros [Hr Hnd]%NoDup_cons. constructor; [|by apply IH].
  intros (r' & E & Hr')%list_elem_of_fmap. apply Hr. rewrite (Hf _ _ E). by apply list_elem_of_fmap_2.
Qed.

Lemma NoDup_map_unique {R X} (key : R -> X) l r r' : NoDup (map key l) -> r ∈ l -> r' ∈ l -> key r = key r' -> r = r'.
Proof.
  intros Hnd Hr Hr' E. apply list_elem_of_lookup in Hr as [i Hi], Hr' as [j Hj].
  assert (i = j) as ->; [|congruence].
  eapply (NoDup_lookup _ _ _ (key r) Hnd); change (map ?g ?l) with (g <$> l); rewrite list_lookup_fmap; [by rewrite Hi|].
  rewrite Hj. cbn. by rewrite E.
Qed.

Lemma all_rows_app {R} (field : full_block -> list R) l l' : all_rows field (l ++ l') = all_rows field l ++ all_rows field l'.
Proof. unfold all_rows. by rewrite map_app, concat_app. Qed.

Lemma all_rows_one {R} (field : full_block -> list R) fb : all_rows field [fb] = field fb.
Proof. apply app_nil_r. Qed.

Lemma all_rows_elem {R} (field : full_block -> list R) l r : r ∈ all_rows field l <-> exists fb, fb ∈ l /\ r ∈ field fb.
Proof.
  unfold all_rows. rewrite list_elem_of_In, List.in_concat. split.
  - intros (x & Hx & Hr). apply List.in_map_iff in Hx as (fb & <- & Hfb). exists fb. by rewrite !list_elem_of_In.
  - intros (fb & Hfb & Hr). exists (field fb). split; [by apply List.in_map, list_elem_of_In|by apply list_elem_of_In].
Qed.

Lemma keyed_push {R X} (field : full_block -> list R) (key : R -> X) es l fb F :
  keyed field key es -> (forall e, e ∈ es -> e.2 = F -> e.1 ∈ l) -> NoDup (map key (all_rows field (l ++ [fb]))) ->
  keyed field key (es ++ [(fb, F)]).
Proof.
  unfold keyed. rewrite all_rows_app, all_rows_one, rows_of_app, rows_of_one, !map_app. intros Hk Hl (_ & Hd & Hnew)%NoDup_app.
  apply NoDup_app. split_and!; [done| |].
  - intros x ([r f] & -> & Hr)%list_elem_of_fmap Hx. apply list_elem_of_fmap in Hx as (r' & E & Hr').
    apply list_elem_of_fmap in Hr' as (r0 & -> & Hr0). injection E as E ->. apply rows_of_elem in Hr as (fb' & Hfb' & Hr).
    apply (Hd (key r)); [|rewrite E; by apply list_elem_of_fmap_2].
    apply list_elem_of_fmap_2, all_rows_elem. exists fb'. split; [|done]. by apply (Hl (fb', F)).
  - unfold with_fork. rewrite map_map. eapply (NoDup_map_finer key); [|done]. by intros r r' [= ->].
Qed.

Lemma rows_filter_sublist {R} (field : full_block -> list R) (P : entry -> bool) es :
  rows_of field (List.filter P es) `sublist_of` rows_of field es.
Proof.
  induction es as [|e es IH]; [done|]. unfold rows_of in *. cbn. destruct (P e); cbn; [by apply sublist_app|by apply sublist_inserts_l].
Qed.

Lemma keyed_filter {R X} (field : full_block -> list R) (key : R -> X) (P : entry -> bool) es :
  keyed field key es -> keyed field key (List.filter P es).
Proof. intros Hk. eapply sublist_NoDup; [exact Hk|]. change (map ?g ?l) with (g <$> l). apply fmap_sublist, rows_filter_sublist. Qed.

Lemma keys_push es l fb F :
  keys_ok es -> (forall e, e ∈ es -> e.2 = F -> e.1 ∈ l) -> rows_ok (l ++ [fb]) -> keys_ok (es ++ [(fb, F)]).
Proof.
  intros [] Hl []. constructor; try by eapply keyed_push. eapply keyed_push; [done|done|].
  eapply (NoDup_map_finer (fun ao => (ao_account_id ao, ao_account_op_seq_no ao))); [|done]. by intros ? ? [= -> -> _].
Qed.

Lemma keys_filter (P : entry -> bool) es : keys_ok es -> keys_ok (List.filter P es).
Proof. intros []. constructor; by apply keyed_filter. Qed.

(** The references between the reversible tables, for the rows of well-formed blocks. *)
Section references.
  Context (es : list entry).
  Hypothesis Hwf : forall e, e ∈ es -> well_formed e.1.

Definition block_keys : list (Z * Z) := map (in_fork num) (map (fun e => (fb_block e.1, e.2)) es).

Lemma rows_refer {R R' X} `{EqDecision X} (field : full_block -> list R) (field' : full_block -> list R') (key : R -> X) (key' : R' -> X) :
  (forall e r, e ∈ es -> r ∈ field e.1 -> key r ∈ map key' (field' e.1)) ->
  refers (map (in_fork key) (rows_of field es)) (map (in_fork key') (rows_of field' es)) = true.
Proof.
  intros Hk. apply refers_map. intros [r f] (fb & He & Hr)%rows_of_elem.
  destruct (list_elem_of_fmap key' (field' fb) (key r)) as [(r' & E & Hr') _]; [by apply (Hk (fb, f))|].
  apply list_elem_of_fmap. exists (r', f). unfold in_fork. cbn. rewrite E. split; [done|]. apply rows_of_elem. eauto.
Qed.

Lemma block_key_in fb f : (fb, f) ∈ es -> (fbn fb, f) ∈ block_keys.
Proof. intros He. unfold block_keys. rewrite map_map. apply list_elem_of_fmap. by exists (fb, f). Qed.

Lemma rows_refer_block {R} (field : full_block -> list R) (key : R -> Z) :
  (forall e r, e ∈ es -> r ∈ field e.1 -> key r = fbn e.1) -> refers (map (in_fork key) (rows_of field es)) block_keys = true.
Proof.
  intros Hk. apply refers_map. intros [r f] (fb & He & Hr)%rows_of_elem. unfold in_fork. cbn.
  rewrite (Hk (fb, f) r He Hr). by apply block_key_in.
Qed.

Lemma transactions_refer : refers (map (in_fork trx_block) (rows_of fb_transactions es)) block_keys = true.
Proof. apply rows_refer_block. intros e r He. apply (wf_transactions _ (Hwf e He)). Qed.

Lemma hardforks_refer : refers (map (in_fork hardfork_block) (rows_of fb_applied_hardforks es)) block_keys = true.
Proof. apply rows_refer_block. intros e r He. apply (wf_hardforks _ (Hwf e He)). Qed.

Lemma signatures_refer :
  refers (map (in_fork sig_hash) (rows_of fb_signatures es)) (map (in_fork trx_hash) (rows_of fb_transactions es)) = true.
Proof. apply rows_refer. intros e s He. apply (wf_signatures _ (Hwf e He)). Qed.

Lemma account_operations_refer :
  refers (map (in_fork ao_operation_id) (rows_of fb_account_operations es)) (map (in_fork op_id) (rows_of fb_operations es)) = true.
Proof. apply rows_refer. intros e s He. apply (wf_account_operations _ (Hwf e He)). Qed.

Lemma accounts_refer : refers (account_blocks (rows_of fb_accounts es)) block_keys = true.
Proof.
  apply refers_true. intros [n f'] Hk. apply list_elem_of_omap in Hk as ([a f] & Ha & E). apply rows_of_elem in Ha as (fb & He & Ha).
  cbn in E. rewrite (wf_accounts _ (Hwf _ He) a Ha) in E. cbn in E. injection E as <- <-. by apply block_key_in.
Qed.

End references.

Lemma refers_more {X} `{EqDecision X} (keys parents parents' : list X) :
  refers keys parents = true -> refers keys (parents' ++ parents) = true.
Proof. rewrite !refers_true. intros Hk k Hin. apply elem_of_app. right. by apply Hk. Qed.

(** What the irreversible tables check when the rows of [l1] are inserted after those of [l0]. *)
Record accepted (l0 l1 : list full_block) : Prop := {
  ac_blocks : unique num (map fb_block l0 ++ map fb_block l1) = true;
  ac_hashes : unique trx_hash (all_rows fb_transactions l0 ++ all_rows fb_transactions l1) = true;
  ac_transactions : refers (map trx_block (all_rows fb_transactions l1)) (map num (map fb_block l0 ++ map fb_block l1)) = true;
  ac_signatures : unique (fun s => (sig_hash s, signature s)) (all_rows fb_signatures l0 ++ all_rows fb_signatures l1) = true;
  ac_signed : refers (map sig_hash (all_rows fb_signatures l1))
    (map trx_hash (all_rows fb_transactions l0 ++ all_rows fb_transactions l1)) = true;
  ac_operations : unique op_id (all_rows fb_operations l0 ++ all_rows fb_operations l1) = true;
  ac_accounts : unique account_id (all_rows fb_accounts l0 ++ all_rows fb_accounts l1) &&
    unique account_name (all_rows fb_accounts l0 ++ all_rows fb_accounts l1) = true;
  ac_created : refers (omap account_block (all_rows fb_accounts l1)) (map num (map fb_block l0 ++ map fb_block l1)) = true;
  ac_account_operations : unique (fun ao => (ao_account_id ao, ao_account_op_seq_no ao))
    (all_rows fb_account_operations l0 ++ all_rows fb_account_operations l1) = true;
  ac_actors :
    refers (map ao_account_id (all_rows fb_account_operations l1)) (map account_id (all_rows fb_accounts l0 ++ all_rows fb_accounts l1)) &&
    refers (map ao_operation_id (all_rows fb_account_operations l1)) (map op_id (all_rows fb_operations l0 ++ all_rows fb_operations l1)) &&
    refers (map ao_transacting_account_id (all_rows fb_account_operations l1))
      (map account_id (all_rows fb_accounts l0 ++ all_rows fb_accounts l1)) = true;
  ac_hardforks : unique hardfork_num (all_rows fb_applied_hardforks l0 ++ all_rows fb_applied_hardforks l1) = true;
  ac_vops :
    refers (map hardfork_vop_id (all_rows fb_applied_hardforks l1)) (map op_id (all_rows fb_operations l0 ++ all_rows fb_operations l1)) &&
    refers (map hardfork_block (all_rows fb_applied_hardforks l1)) (map num (map fb_block l0 ++ map fb_block l1)) = true
}.

Section accepting.
  Context (l0 l1 : list full_block).
  Hypothesis Hwf : forall fb, fb ∈ l1 -> well_formed fb.

Lemma block_number_in fb : fb ∈ l1 -> fbn fb ∈ map num (map fb_block l0 ++ map fb_block l1).
Proof. intros Hfb. rewrite map_app, elem_of_app. right. rewrite map_map. by apply (list_elem_of_fmap_2 fbn). Qed.

Lemma rows_of_block {R} (field : full_block -> list R) (key : R -> Z) :
  (forall fb r, fb ∈ l1 -> r ∈ field fb -> key r = fbn fb) ->
  refers (map key (all_rows field l1)) (map num (map fb_block l0 ++ map fb_block l1)) = true.
Proof. intros Hk. apply refers_map. intros r (fb & Hfb & Hr)%all_rows_elem. rewrite (Hk fb r Hfb Hr). by apply block_number_in. Qed.

Lemma rows_of_parent {R R' X} `{EqDecision X} (field : full_block -> list R) (field' : full_block -> list R') (key : R -> X) (key' : R' -> X) :
  (forall fb r, fb ∈ l1 -> r ∈ field fb -> key r ∈ map key' (field' fb)) ->
  refers (map key (all_rows field l1)) (map key' (all_rows field' l0 ++ all_rows field' l1)) = true.
Proof.
  intros Hk. apply refers_map. intros r (fb & Hfb & Hr)%all_rows_elem. pose proof (Hk fb r Hfb Hr) as Hin.
  apply list_elem_of_fmap in Hin as (r' & -> & Hr'). apply (list_elem_of_fmap_2 key'). rewrite elem_of_app. right.
  apply all_rows_elem. eauto.
Qed.

Lemma created_in_block : refers (omap account_block (all_rows fb_accounts l1)) (map num (map fb_block l0 ++ map fb_block l1)) = true.
Proof.
  apply refers_true. intros n Hn. apply list_elem_of_omap in Hn as (a & Ha & E). apply all_rows_elem in Ha as (fb & Hfb & Ha).
  rewrite (wf_accounts _ (Hwf fb Hfb) a Ha) in E. injection E as <-. by apply block_number_in.
Qed.

Lemma refers_rows {R X} `{EqDecision X} (field : full_block -> list R) (key : R -> X) (parents : list X) :
  (forall r, r ∈ all_rows field (l0 ++ l1) -> key r ∈ parents) -> refers (map key (all_rows field l1)) parents = true.
Proof. intros Hk. apply refers_map. intros r Hr. apply Hk. rewrite all_rows_app, elem_of_app. by right. Qed.

Lemma chain_accepted : NoDup (map fbn (l0 ++ l1)) -> rows_ok (l0 ++ l1) -> accepted l0 l1.
Proof.
  intros Hn [Rh Rs Ro Ra Rn Rao Rhf _ Ract Rv].
  constructor; rewrite ?andb_true_iff; split_and?; try (apply unique_true; rewrite <- ?all_rows_app; done).
  - apply unique_true. rewrite <- map_app, map_map. exact Hn.
  - apply rows_of_block. intros fb r Hfb. apply (wf_transactions _ (Hwf fb Hfb)).
  - apply rows_of_parent. intros fb r Hfb. apply (wf_signatures _ (Hwf fb Hfb)).
  - apply created_in_block.
  - apply refers_rows. intros ao Hao. rewrite <- all_rows_app. by apply Ract.
  - apply rows_of_parent. intros fb r Hfb. apply (wf_account_operations _ (Hwf fb Hfb)).
  - apply refers_rows. intros ao Hao. rewrite <- all_rows_app. by apply Ract.
  - apply refers_rows. intros h Hh. rewrite <- all_rows_app. by apply Rv.
  - apply rows_of_block. intros fb r Hfb. apply (wf_hardforks _ (Hwf fb Hfb)).
Qed.

End accepting.

Lemma commit_ok db l : irreversible db = irreversible_rows l -> rows_ok l -> commit db = Ok db.
Proof.
  intros Hir Hro. unfold commit. rewrite assert_true; [done|]. rewrite Hir. cbn. rewrite map_map. apply refers_map.
  intros fb Hfb. by apply (ro_producers _ Hro).
Qed.

Ltac accept := rewrite assert_true by eassumption; cbn [mbind outcome_bind].

Lemma irreversible_rows_app l l' :
  irreversible_rows (l ++ l') =
  {| tb_blocks := map fb_block l ++ map fb_block l'; tb_transactions := all_rows fb_transactions l ++ all_rows fb_transactions l';
     tb_transactions_multisig := all_rows fb_signatures l ++ all_rows fb_signatures l';
     tb_operations := all_rows fb_operations l ++ all_rows fb_operations l';
     tb_accounts := all_rows fb_accounts l ++ all_rows fb_accounts l';
     tb_account_operations := all_rows fb_account_operations l ++ all_rows fb_account_operations l';
     tb_applied_hardforks := all_rows fb_applied_hardforks l ++ all_rows fb_applied_hardforks l' |}.
Proof. unfold irreversible_rows. by rewrite map_app, !all_rows_app. Qed.

Ltac at_tables := cbn [reversible irreversible set_irreversible_tables irreversible_rows tb_blocks tb_transactions tb_operations
  tb_transactions_multisig tb_accounts tb_account_operations tb_applied_hardforks].

Ltac at_rows := cbn [reversible fork set_reversible_tables blocks_reversible transactions_reversible transactions_multisig_reversible
  operations_reversible accounts_reversible account_operations_reversible applied_hardforks_reversible mbind outcome_bind].

Section following.
  Context (db : database) (ch : chain) (es : list entry).
  Hypothesis Hnum : map fbn (ch_blocks ch) = seqZ 1 (Z.of_nat (head ch)).
  Hypothesis Hbound : (ch_irreversible ch <= head ch)%nat.
  Hypothesis Hth : tables_hold es db.
  Hypothesis Hok : entries_ok (fork db) (fork_id_seq db) ch es.

(** A block that no later fork has removed is in the chain. *)
Lemma live_in_chain e :
  e ∈ es -> live (fork db) e = true -> Z.of_nat (ch_irreversible ch) < fbn e.1 -> e.1 ∈ drop (ch_irreversible ch) (ch_blocks ch).
Proof.
  intros He Hl Hi. rewrite <- (eo_live _ _ _ _ Hok). apply list_elem_of_fmap_2. apply filter_elem. split; [done|].
  rewrite Hl, andb_true_r. by apply Z.ltb_lt.
Qed.

Lemma chain_number fb : fb ∈ ch_blocks ch -> 1 <= fbn fb <= Z.of_nat (head ch).
Proof.
  intros Hfb. assert (fbn fb ∈ map fbn (ch_blocks ch)) as Hin by (by apply list_elem_of_fmap_2).
  rewrite Hnum in Hin. apply elem_of_seqZ in Hin. lia.
Qed.

Lemma live_below_head e : e ∈ es -> live (fork db) e = true -> fbn e.1 <= Z.of_nat (head ch).
Proof.
  intros He Hl. destruct (Z_lt_le_dec (Z.of_nat (ch_irreversible ch)) (fbn e.1)) as [Hlt|]; [|lia].
  pose proof (live_in_chain e He Hl Hlt) as Hin. apply chain_number. apply list_elem_of_lookup in Hin as [k Hk]. rewrite lookup_drop in Hk. by apply list_elem_of_lookup_2 in Hk.
Qed.

(** The row of a block of the chain above the irreversible ones. *)
Lemma chain_entry n :
  Z.of_nat (ch_irreversible ch) < n <= Z.of_nat (head ch) -> exists e, e ∈ es /\ fbn e.1 = n /\ live (fork db) e = true.
Proof.
  intros Hn. assert (n ∈ map fbn (drop (ch_irreversible ch) (ch_blocks ch))) as Hin.
  { rewrite (numbers_drop _ _ (head ch)) by done. apply elem_of_seqZ. rewrite length_drop. unfold head in *. lia. }
  rewrite <- (eo_live _ _ _ _ Hok) in Hin. apply list_elem_of_fmap in Hin as (fb & -> & Hin).
  apply list_elem_of_fmap in Hin as (e & -> & He). apply filter_elem in He as [He Hl]. apply andb_true_iff in Hl as [_ Hl]. eauto.
Qed.

(** Among the rows of a number of the chain the newest is the one of the chain. *)
Lemma newest_live e :
  e ∈ es -> Z.of_nat (ch_irreversible ch) < fbn e.1 <= Z.of_nat (head ch) ->
  newest (blocks_reversible (reversible db)) (fb_block e.1, e.2) = live (fork db) e.
Proof.
  intros He Hn. rewrite (th_blocks _ _ Hth). apply eq_true_iff_eq. unfold newest. rewrite forallb_forall. split.
  - intros Hnew. destruct (chain_entry _ Hn) as (e0 & He0 & Hn0 & Hl0).
    assert (e0.2 <= e.2) as Hle.
    { specialize (Hnew (fb_block e0.1, e0.2)). cbn in Hnew. unfold fbn in Hn0. rewrite Hn0, Z.eqb_refl in Hnew. cbn in Hnew.
      apply Z.leb_le, Hnew. apply List.in_map_iff. exists e0. split; [done|by apply list_elem_of_In]. }
    destruct (Z.eq_dec e0.2 e.2) as [Heq|Hne].
    + by rewrite <- (entry_unique _ _ _ _ e0 e Hok).
    + rewrite (eo_order _ _ _ _ Hok e0 e) in Hl0; [done|done|done|done|lia].
  - intros Hl r Hr. apply List.in_map_iff in Hr as (e' & <- & He'). apply list_elem_of_In in He'. cbn.
    destruct (Z.eqb_spec (num (fb_block e'.1)) (num (fb_block e.1))) as [Heq|]; [|done]. cbn. apply Z.leb_le.
    destruct (Z_lt_le_dec e.2 e'.2) as [Hlt|]; [|done].
    by rewrite (eo_order _ _ _ _ Hok e e') in Hl.
Qed.

(** *** [push_block] *)

Lemma push_entries fb :
  well_formed fb -> fbn fb = Z.of_nat (head ch) + 1 ->
  rows_ok (ch_blocks ch ++ [fb]) ->
  entries_ok (fork db) (fork_id_seq db) {| ch_blocks := ch_blocks ch ++ [fb]; ch_irreversible := ch_irreversible ch |}
    (es ++ [(fb, fork_id_seq db)]).
Proof.
  intros Hwf Hn Hrows. pose proof Hok as [Hk Hr Hw Hf Hcur Hmax Hl Ho].
  assert (live (fork db) (fb, fork_id_seq db) = true) as Hlive by (by apply (live_current _ _ _ Hmax)).
  assert (forall e, e ∈ es -> fbn e.1 = fbn fb -> e.2 < fork_id_seq db /\ live (fork db) e = false) as Hold.
  { intros e He Heq. destruct (live (fork db) e) eqn:Ele; [pose proof (live_below_head e He Ele); lia|]. split; [|done].
    specialize (Hf e He). destruct (Z.eq_dec e.2 (fork_id_seq db)); [|lia]. rewrite (live_current _ _ _ Hmax) in Ele by lia. done. }
  constructor.
  - rewrite map_app. apply NoDup_app. split_and!; [done| |apply NoDup_singleton].
    intros k Hk1 Hk2%list_elem_of_singleton. subst k. apply list_elem_of_fmap in Hk1 as (e & [= Hn1 Hf1] & He).
    cbn in Hn1. destruct (Hold e He ltac:(congruence)). lia.
  - by eapply keys_push.
  - intros e [He|He]%elem_of_app; [by apply Hw|]. by apply list_elem_of_singleton in He as ->.
  - intros e [He|He]%elem_of_app; [by apply Hf|]. by apply list_elem_of_singleton in He as ->.
  - intros e [He|He]%elem_of_app Hfe; cbn; [pose proof (Hcur e He Hfe); set_solver|]. apply list_elem_of_singleton in He as ->. set_solver.
  - done.
  - cbn [ch_irreversible ch_blocks]. rewrite List.filter_app, map_app, drop_app_le by (unfold head in Hbound; lia).
    f_equal; [exact Hl|]. cbn. rewrite Hlive, (proj2 (Z.ltb_lt _ _)) by (cbn; lia). done.
  - intros e e' He He' Heq Hlt. apply elem_of_app in He as [He|He], He' as [He'|He'].
    + by eapply Ho.
    + apply list_elem_of_singleton in He' as ->. by apply Hold.
    + apply list_elem_of_singleton in He as ->. specialize (Hf e' He'). cbn in Hlt. lia.
    + apply list_elem_of_singleton in He as ->. apply list_elem_of_singleton in He' as ->. cbn in Hlt. lia.
Qed.

(** *** [back_from_fork] *)

Lemma fork_entries m :
  (ch_irreversible ch <= m <= head ch)%nat ->
  entries_ok (fork db ++ [(fork_id_seq db + 1, Z.of_nat m)]) (fork_id_seq db + 1)
    {| ch_blocks := take m (ch_blocks ch); ch_irreversible := ch_irreversible ch |} es.
Proof.
  intros Hm. pose proof Hok as [Hk Hr Hw Hf Hcur Hmax Hl Ho].
  assert (forall e, e ∈ es -> live (fork db ++ [(fork_id_seq db + 1, Z.of_nat m)]) e = live (fork db) e && (fbn e.1 <=? Z.of_nat m)) as Hnew.
  { intros e He. rewrite live_snoc. specialize (Hf e He). by rewrite (proj2 (Z.ltb_lt _ _)) by lia. }
  constructor; try done.
  - intros e He. specialize (Hf e He). lia.
  - intros e He. specialize (Hf e He). lia.
  - rewrite map_app. eapply sql_max_snoc; [done|cbn; lia].
  - cbn [ch_irreversible ch_blocks].
    rewrite (List.filter_ext_in _ (fun e => ((Z.of_nat (ch_irreversible ch) <? fbn e.1) && live (fork db) e) && (fbn e.1 <=? Z.of_nat m)))
      by (intros e He; apply list_elem_of_In in He; rewrite Hnew by done; apply andb_assoc).
    rewrite (map_filter_fst _ (fun b => fbn b <=? Z.of_nat m) fst), Hl.
    rewrite (List.filter_ext _ (fun b => fbn b <=? (Z.of_nat (ch_irreversible ch) + 1) - 1 + Z.of_nat (m - ch_irreversible ch)))
      by (intros; f_equal; lia).
    rewrite filter_low by (by eapply numbers_drop). rewrite take_drop_commute. do 2 f_equal. lia.
  - intros e e' He He' Heq Hlt. rewrite Hnew by done. by rewrite (Ho e e').
Qed.

(** *** [set_irreversible] *)

Section to_irreversible.
  Context (n : nat).
  Hypothesis Hn : (ch_irreversible ch <= n <= head ch)%nat.

#[local] Abbreviation irr := (Z.of_nat (ch_irreversible ch)).

Definition copied_entry (e : entry) : bool := between irr (Z.of_nat n) (fbn e.1) && live (fork db) e.

Definition selected : list (block_row * Z) := num_and_forks irr (Z.of_nat n) (blocks_reversible (reversible db)).

Lemma selected_entries : selected = map (fun e => (fb_block e.1, e.2)) (List.filter copied_entry es).
Proof.
  unfold selected, num_and_forks. rewrite (th_blocks _ _ Hth), filter_map. f_equal.
  apply List.filter_ext_in. intros e He. apply list_elem_of_In in He. unfold copied_entry, between, fbn.
  cbn. destruct (Z.ltb_spec irr (num (fb_block e.1))), (Z.leb_spec (num (fb_block e.1)) (Z.of_nat n)); cbn; try done.
  rewrite <- (th_blocks _ _ Hth). apply newest_live; [done|]. unfold fbn. lia.
Qed.

Lemma copied_blocks : map fst (List.filter copied_entry es) = take (n - ch_irreversible ch) (drop (ch_irreversible ch) (ch_blocks ch)).
Proof.
  rewrite (List.filter_ext _ (fun e => ((irr <? fbn e.1) && live (fork db) e) && (fbn e.1 <=? Z.of_nat n)))
    by (intros e; unfold copied_entry, between; by destruct (irr <? fbn e.1), (fbn e.1 <=? Z.of_nat n), (live (fork db) e)).
  rewrite (map_filter_fst _ (fun b => fbn b <=? Z.of_nat n) fst), (eo_live _ _ _ _ Hok).
  rewrite (List.filter_ext _ (fun b => fbn b <=? (irr + 1) - 1 + Z.of_nat (n - ch_irreversible ch))) by (intros; f_equal; lia).
  apply filter_low. by eapply numbers_drop.
Qed.

Lemma joins_entry e : e ∈ es -> joins selected (Some (fbn e.1)) e.2 = copied_entry e.
Proof.
  intros He. unfold joins. rewrite selected_entries. apply eq_true_iff_eq. rewrite existsb_exists. split.
  - intros (r & Hr & E). apply List.in_map_iff in Hr as (e' & <- & He'). apply list_elem_of_In, filter_elem in He' as [He' Hc].
    cbn in E. apply andb_true_iff in E as [E1 E2]. apply Z.eqb_eq in E1, E2.
    by rewrite (entry_unique _ _ _ _ e e' Hok).
  - intros Hc. exists (fb_block e.1, e.2). split; [|cbn; unfold fbn; by rewrite !Z.eqb_refl].
    apply List.in_map_iff. exists e. split; [done|]. by apply list_elem_of_In, filter_elem.
Qed.

Lemma copied_rows {R} (field : full_block -> list R) (block_of : R -> option Z) :
  (forall e r, e ∈ es -> r ∈ field e.1 -> block_of r = Some (fbn e.1)) ->
  copied block_of selected (rows_of field es)
  = all_rows field (take (n - ch_irreversible ch) (drop (ch_irreversible ch) (ch_blocks ch))).
Proof.
  intros Hb. unfold copied. rewrite (filter_rows field _ copied_entry), rows_fst, copied_blocks; [done|].
  intros e r He Hr. cbn. rewrite (Hb e r He Hr). by apply joins_entry.
Qed.

(** A signature has one transaction in its fork. *)
Lemma transactions_nodup : NoDup (rows_of fb_transactions es).
Proof. exact (NoDup_fmap_1 _ _ (ko_hashes _ (eo_rows _ _ _ _ Hok))). Qed.

Lemma transaction_of_signature e s t f :
  e ∈ es -> s ∈ fb_signatures e.1 -> (t, f) ∈ rows_of fb_transactions es -> trx_hash t = sig_hash s -> f = e.2 ->
  t ∈ fb_transactions e.1.
Proof.
  intros He Hs Ht Hh ->. pose proof (wf_signatures _ (eo_wf _ _ _ _ Hok e He) s Hs) as Hin.
  apply list_elem_of_fmap in Hin as (t0 & Ht0 & Hin).
  assert ((t, e.2) = (t0, e.2)) as [= ->]; [|done].
  apply (NoDup_map_unique _ _ _ _ (ko_hashes _ (eo_rows _ _ _ _ Hok))); [done| |unfold in_fork; cbn; congruence].
  apply rows_of_elem. exists e.1. by destruct e.
Qed.

Lemma signatures_rows :
  copied_signatures selected (rows_of fb_signatures es) (rows_of fb_transactions es)
  = all_rows fb_signatures (take (n - ch_irreversible ch) (drop (ch_irreversible ch) (ch_blocks ch))).
Proof.
  unfold copied_signatures. rewrite (concat_rows fb_signatures _ copied_entry), copied_blocks; [done|].
  intros e s He Hs. cbn [fst snd]. pose proof (wf_signatures _ (eo_wf _ _ _ _ Hok e He) s Hs) as Hin.
  apply list_elem_of_fmap in Hin as (t0 & Ht0 & Hin0). pose proof (eo_wf _ _ _ _ Hok e He) as Hwf.
  assert (forall t f, (t, f) ∈ rows_of fb_transactions es -> trx_hash t = sig_hash s -> f = e.2 -> t = t0) as Huniq.
  { intros t f Ht Hh ->. assert ((t, e.2) = (t0, e.2)) as [= ->]; [|done].
    apply (NoDup_map_unique _ _ _ _ (ko_hashes _ (eo_rows _ _ _ _ Hok))); [done| |unfold in_fork; cbn; congruence].
    apply rows_of_elem. exists e.1. by destruct e. }
  assert (joins selected (Some (trx_block t0)) e.2 = copied_entry e) as Hj.
  { rewrite (wf_transactions _ Hwf t0 Hin0). by apply joins_entry. }
  destruct (copied_entry e) eqn:Ec.
  - rewrite (filter_unique _ _ (t0, e.2)); [done|apply transactions_nodup| | |].
    + apply rows_of_elem. exists e.1. by destruct e.
    + cbn [fst snd]. rewrite Hj, Z.eqb_refl, bool_decide_eq_true_2 by done. done.
    + intros [t f] Ht HP. cbn [fst snd] in HP. apply andb_true_iff in HP as [[Hb Hf]%andb_true_iff _]. apply bool_decide_eq_true_1 in Hb.
      apply Z.eqb_eq in Hf. rewrite (Huniq t f Ht Hb Hf), Hf. done.
  - destruct (List.filter _ _) as [|[t f] l] eqn:El; [done|]. exfalso.
    assert ((t, f) ∈ (t, f) :: l) as Hin by left. rewrite <- El in Hin. apply filter_elem in Hin as [Ht HP]. cbn [fst snd] in HP.
    apply andb_true_iff in HP as [[Hb Hf]%andb_true_iff Hjo]. apply bool_decide_eq_true_1 in Hb. apply Z.eqb_eq in Hf.
    rewrite (Huniq t f Ht Hb Hf), Hf, Hj in Hjo. done.
Qed.

Lemma copy_follows :
  irreversible db = irreversible_rows (take (ch_irreversible ch) (ch_blocks ch)) ->
  (forall fb, fb ∈ ch_blocks ch -> well_formed fb) -> rows_ok (take n (ch_blocks ch)) ->
  copy_to_irreversible irr (Z.of_nat n) db = Ok (set_irreversible_tables (irreversible_rows (take n (ch_blocks ch))) db).
Proof.
  intros Hir Hcw Hro. pose proof (eo_wf _ _ _ _ Hok) as Hwf.
  set (l0 := take (ch_irreversible ch) (ch_blocks ch)) in *.
  assert (take n (ch_blocks ch) = l0 ++ take (n - ch_irreversible ch) (drop (ch_irreversible ch) (ch_blocks ch))) as Hl.
  { subst l0. rewrite take_take_drop. f_equal. lia. }
  pose proof (fun R field block_of => @copied_rows R field block_of) as Hcopied. pose proof signatures_rows as Hsigs.
  pose proof selected_entries as Hsel. pose proof copied_blocks as Hcb.
  set (l1 := take (n - ch_irreversible ch) (drop (ch_irreversible ch) (ch_blocks ch))) in *.
  assert (accepted l0 l1) as [].
  { rewrite Hl in Hro. apply chain_accepted; [|by rewrite <- Hl, (numbers_take _ _ (head ch)) by (done || lia); apply NoDup_seqZ|done].
    intros fb Hfb. apply Hcw. subst l1. apply elem_of_take in Hfb as (i & Hi & _). rewrite lookup_drop in Hi. by apply list_elem_of_lookup_2 in Hi. }
  rewrite Hl, irreversible_rows_app. unfold copy_to_irreversible, copy_blocks_to_irreversible, insert_blocks. fold selected.
  assert (map fst selected = map fb_block l1) as -> by (rewrite Hsel, <- Hcb, !map_map; done).
  rewrite Hir. at_tables. accept.
  unfold copy_transactions_to_irreversible, insert_transactions. at_tables. fold selected.
  rewrite (th_transactions _ _ Hth), (Hcopied _ fb_transactions)
    by (intros e r He Hr; by rewrite (wf_transactions _ (Hwf e He) r Hr)). at_tables. do 2 accept.
  unfold copy_operations_to_irreversible, insert_operations. at_tables. fold selected.
  rewrite (th_operations _ _ Hth), (Hcopied _ fb_operations)
    by (intros e r He Hr; unfold operation_block; by rewrite (wf_operations _ (Hwf e He) r Hr)). at_tables. accept.
  unfold copy_signatures_to_irreversible, insert_transactions_multisig. at_tables. fold selected.
  rewrite (th_signatures _ _ Hth), (th_transactions _ _ Hth), Hsigs. at_tables. do 2 accept.
  unfold copy_accounts_to_irreversible, insert_accounts, set_accounts. at_tables. fold selected.
  rewrite (th_accounts _ _ Hth), (Hcopied _ fb_accounts)
    by (intros e r He Hr; apply (wf_accounts _ (Hwf e He) r Hr)). at_tables. do 2 accept.
  unfold copy_account_operations_to_irreversible, insert_account_operations. at_tables. fold selected.
  rewrite (th_account_operations _ _ Hth), (Hcopied _ fb_account_operations).
  2:{ intros e r He Hr. pose proof (wf_account_operations _ (Hwf e He) r Hr) as Hin. apply list_elem_of_fmap in Hin as (o & -> & Ho).
      unfold operation_block. by rewrite (wf_operations _ (Hwf e He) o Ho). }
  at_tables. do 2 accept.
  unfold copy_applied_hardforks_to_irreversible, insert_applied_hardforks. at_tables. fold selected.
  rewrite (th_hardforks _ _ Hth), (Hcopied _ fb_applied_hardforks)
    by (intros e r He Hr; by rewrite (wf_hardforks _ (Hwf e He) r Hr)). at_tables. do 2 accept. done.
Qed.

(** What the deletions leave, in terms of entries. *)
Definition kept_entry (contexts : list context) (e : entry) : bool :=
  negb (obsolete contexts (Z.of_nat n) (fork db) (fbn e.1) e.2).

(** The tables after the deletions. *)
Record rows_left (contexts : list context) : Prop := {
  rl_account_operations :
    kept (fun ao f => existsb (fun o => (op_id o.1 =? ao_operation_id ao) && (o.2 =? f) &&
            obsolete contexts (Z.of_nat n) (fork db) (operation_id_to_block_num (op_id o.1)) o.2) (operations_reversible (reversible db)))
      (account_operations_reversible (reversible db)) = rows_of fb_account_operations (List.filter (kept_entry contexts) es);
  rl_hardforks : kept (fun h => obsolete contexts (Z.of_nat n) (fork db) (hardfork_block h)) (applied_hardforks_reversible (reversible db))
    = rows_of fb_applied_hardforks (List.filter (kept_entry contexts) es);
  rl_operations : kept (fun o => obsolete contexts (Z.of_nat n) (fork db) (operation_id_to_block_num (op_id o))) (operations_reversible (reversible db))
    = rows_of fb_operations (List.filter (kept_entry contexts) es);
  rl_signatures :
    kept (fun s f => existsb (fun t => bool_decide (trx_hash t.1 = sig_hash s) && (t.2 =? f) &&
            obsolete contexts (Z.of_nat n) (fork db) (trx_block t.1) t.2) (transactions_reversible (reversible db)))
      (transactions_multisig_reversible (reversible db)) = rows_of fb_signatures (List.filter (kept_entry contexts) es);
  rl_transactions : kept (fun t => obsolete contexts (Z.of_nat n) (fork db) (trx_block t)) (transactions_reversible (reversible db))
    = rows_of fb_transactions (List.filter (kept_entry contexts) es);
  rl_accounts : kept (fun a f => match account_block a with Some m => obsolete contexts (Z.of_nat n) (fork db) m f | None => false end)
      (accounts_reversible (reversible db)) = rows_of fb_accounts (List.filter (kept_entry contexts) es);
  rl_blocks : kept (fun b => obsolete contexts (Z.of_nat n) (fork db) (num b)) (blocks_reversible (reversible db))
    = map (fun e => (fb_block e.1, e.2)) (List.filter (kept_entry contexts) es)
}.

Lemma rows_left_kept contexts : rows_left contexts.
Proof.
  pose proof (eo_wf _ _ _ _ Hok) as Hwf. constructor; unfold kept.
  - rewrite (th_account_operations _ _ Hth), (th_operations _ _ Hth). apply filter_rows. intros e ao He Hao. unfold kept_entry. f_equal. cbn.
    pose proof (wf_account_operations _ (Hwf e He) ao Hao) as Hin. apply list_elem_of_fmap in Hin as (o & Hid & Ho).
    apply eq_true_iff_eq. rewrite existsb_exists. split.
    + intros ([o' f] & _ & E). cbn in E. apply andb_true_iff in E as [[Hb Hf]%andb_true_iff Hg]. apply Z.eqb_eq in Hb, Hf.
      rewrite Hb, Hid, (wf_operations _ (Hwf e He) o Ho), Hf in Hg. done.
    + intros Hg. exists (o, e.2). split; [apply list_elem_of_In, rows_of_elem; exists e.1; by destruct e|]. cbn.
      by rewrite Hid, !Z.eqb_refl, (wf_operations _ (Hwf e He) o Ho), Hg.
  - rewrite (th_hardforks _ _ Hth). apply filter_rows. intros e r He Hr. cbn. by rewrite (wf_hardforks _ (Hwf e He) r Hr).
  - rewrite (th_operations _ _ Hth). apply filter_rows. intros e r He Hr. cbn. by rewrite (wf_operations _ (Hwf e He) r Hr).
  - rewrite (th_signatures _ _ Hth), (th_transactions _ _ Hth). apply filter_rows. intros e s He Hs. unfold kept_entry. f_equal. cbn.
    apply eq_true_iff_eq. rewrite existsb_exists. split.
    + intros ([t f] & Ht & E). apply list_elem_of_In in Ht. cbn in E. apply andb_true_iff in E as [[Hb Hf]%andb_true_iff Hg].
      apply bool_decide_eq_true_1 in Hb. apply Z.eqb_eq in Hf.
      rewrite (wf_transactions _ (Hwf e He) t (transaction_of_signature e s t f He Hs Ht Hb Hf)), Hf in Hg. done.
    + intros Hg. pose proof (wf_signatures _ (Hwf e He) s Hs) as Hin. apply list_elem_of_fmap in Hin as (t & Hh & Ht).
      exists (t, e.2). split; [apply list_elem_of_In, rows_of_elem; exists e.1; by destruct e|]. cbn.
      by rewrite Z.eqb_refl, (wf_transactions _ (Hwf e He) t Ht), Hg, bool_decide_eq_true_2.
  - rewrite (th_transactions _ _ Hth). apply filter_rows. intros e r He Hr. cbn. by rewrite (wf_transactions _ (Hwf e He) r Hr).
  - rewrite (th_accounts _ _ Hth). apply filter_rows. intros e r He Hr. cbn. by rewrite (wf_accounts _ (Hwf e He) r Hr).
  - by rewrite (th_blocks _ _ Hth), filter_map.
Qed.

Lemma remove_holds contexts :
  is_lite_mode db = false ->
  exists rv, remove_obsolete_reversible_data contexts (Z.of_nat n) db = Ok (set_reversible_tables rv db) /\
    tables_hold (List.filter (kept_entry contexts) es) (set_reversible_tables rv db).
Proof.
  intros Hm. destruct (rows_left_kept contexts) as [Eao Eh Eo Es Et Ea Eb]. unfold remove_obsolete_reversible_data. rewrite Hm.
  rewrite Eao, Eh, Eo, Es, Et, Ea, Eb.
  assert (forall e, e ∈ List.filter (kept_entry contexts) es -> well_formed e.1) as Hwf
    by (intros e [He _]%filter_elem; by apply (eo_wf _ _ _ _ Hok)).
  rewrite assert_true by (by apply account_operations_refer). rewrite assert_true by (by apply signatures_refer).
  rewrite assert_true by (rewrite transactions_refer, accounts_refer, hardforks_refer; done).
  eexists. split; [done|]. by constructor.
Qed.

(** A block of the chain above the irreversible ones is never deleted. *)
Lemma kept_live contexts e : live (fork db) e = true -> Z.of_nat n < fbn e.1 -> kept_entry contexts e = true.
Proof.
  intros Hl Hlt. unfold kept_entry, obsolete. apply negb_true_iff, orb_false_iff. split; [apply Z.leb_gt; lia|].
  apply andb_false_iff. right. destruct (sql_min _) as [m|] eqn:Em; [|done]. apply Z.ltb_ge.
  assert (exists g, g ∈ fork db /\ e.2 < g.1 /\ g.2 = m) as (g & Hg & Hf & <-).
  { unfold sql_min in Em. destruct (map snd _) as [|x l] eqn:El; [done|]. injection Em as <-.
    pose proof (foldl_min_in l x) as Hin. rewrite <- El in Hin. apply list_elem_of_fmap in Hin as (g & -> & Hin).
    apply filter_elem in Hin as [Hg Hf]. apply Z.ltb_lt in Hf. eauto. }
  unfold live in Hl. rewrite forallb_forall in Hl. specialize (Hl g (proj1 (list_elem_of_In _ _) Hg)).
  rewrite (proj2 (Z.ltb_lt _ _) Hf) in Hl. cbn in Hl. by apply Z.leb_le.
Qed.

Lemma irreversible_entries (P : entry -> bool) :
  (forall e, live (fork db) e = true -> Z.of_nat n < fbn e.1 -> P e = true) ->
  entries_ok (fork db) (fork_id_seq db) {| ch_blocks := ch_blocks ch; ch_irreversible := n |} (List.filter P es).
Proof.
  intros HP. pose proof Hok as [Hk Hr Hw Hf Hcur Hmax Hl Ho]. constructor; cbn [ch_blocks ch_irreversible].
  - change (map ?g ?l) with (g <$> l). eapply sublist_NoDup; [exact Hk|]. change (map ?g ?l) with (g <$> l). apply fmap_sublist.
    clear. induction es as [|e l IH]; [done|]. cbn. destruct (P e); by constructor.
  - by apply keys_filter.
  - intros e [He _]%filter_elem. by apply Hw.
  - intros e [He _]%filter_elem. by apply Hf.
  - intros e [He _]%filter_elem. by apply Hcur.
  - done.
  - assert (List.filter (fun e => (Z.of_nat n <? fbn e.1) && live (fork db) e) (List.filter P es)
      = List.filter (fun e => ((irr <? fbn e.1) && live (fork db) e) && (Z.of_nat n <? fbn e.1)) es) as ->.
    { clear - HP Hn. induction es as [|e l IH]; [done|]. cbn.
      destruct (Z.ltb_spec (Z.of_nat n) (fbn e.1)) as [H1|H1], (live (fork db) e) eqn:El;
        rewrite ?andb_false_r, ?andb_true_r; cbn;
        try (destruct (P e); cbn; rewrite ?El, ?(proj2 (Z.ltb_ge _ _) H1), ?andb_false_r; cbn; done).
      rewrite (HP e El H1), (proj2 (Z.ltb_lt irr _)) by lia. cbn. rewrite El, (proj2 (Z.ltb_lt _ _) H1). cbn. by rewrite IH. }
    rewrite (map_filter_fst _ (fun b => Z.of_nat n <? fbn b) fst), Hl.
    rewrite (List.filter_ext _ (fun b => (irr + 1) - 1 + Z.of_nat (n - ch_irreversible ch) <? fbn b)) by (intros; f_equal; lia).
    rewrite filter_high by (by eapply numbers_drop). rewrite drop_drop. f_equal. lia.
  - intros e e' [He _]%filter_elem [He' _]%filter_elem. by apply Ho.
Qed.

End to_irreversible.
End following.
(** ** Refinement *)

Lemma irreversible_head ch :
  map fbn (ch_blocks ch) = seqZ 1 (Z.of_nat (head ch)) -> (ch_irreversible ch <= head ch)%nat ->
  default 0 (sql_max (map num (map fb_block (take (ch_irreversible ch) (ch_blocks ch))))) = Z.of_nat (ch_irreversible ch).
Proof.
  intros Hn Hb. rewrite map_map. change (map (fun x => num (fb_block x)) ?l) with (map fbn l).
  rewrite (numbers_take _ _ (head ch)) by done. destruct (ch_irreversible ch) as [|k]; [done|].
  assert (sql_max (seqZ 1 (Z.of_nat (S k))) = Some (Z.of_nat (S k))) as ->; [|done].
  apply sql_max_spec. split; [apply elem_of_seqZ; lia|]. intros y Hy. apply elem_of_seqZ in Hy. lia.
Qed.

Lemma chain_ok_push locked contexts fb ch ch' : chain_ok ch -> chain_step (Push locked contexts fb) ch ch' -> chain_ok ch'.
Proof.
  intros [Hnum Hb Hw Hr] Hstep. inversion Hstep as [? ? fb' ch0 Hwf Hn Hro| | |]; subst. unfold head in *. constructor; unfold head; cbn.
  - rewrite map_app, Hnum, length_app. cbn.
    replace (Z.of_nat (length (ch_blocks ch) + 1)) with (Z.of_nat (length (ch_blocks ch)) + 1) by lia. rewrite seqZ_app by lia.
    f_equal. rewrite Hn. change (seqZ ?a 1) with [0 + a]. f_equal. lia.
  - rewrite length_app. lia.
  - intros fb' [?|H1]%elem_of_app; [by apply Hw|]. by apply list_elem_of_singleton in H1 as ->.
  - intros k. destruct (decide (k <= length (ch_blocks ch))%nat); [by rewrite take_app_le|]. rewrite take_ge; [done|rewrite length_app; cbn; lia].
Qed.

Lemma chain_ok_fork m ch :
  chain_ok ch -> (ch_irreversible ch <= m <= head ch)%nat ->
  chain_ok {| ch_blocks := take m (ch_blocks ch); ch_irreversible := ch_irreversible ch |}.
Proof.
  intros [Hnum Hb Hw Hr] Hm. unfold head in *. constructor; unfold head; cbn.
  - rewrite length_take, Nat.min_l by lia. apply (numbers_take _ _ (length (ch_blocks ch))); [done|done|lia].
  - rewrite length_take. lia.
  - intros fb Hfb. apply Hw. by eapply elem_of_take in Hfb as (i & Hi%list_elem_of_lookup_2 & _).
  - intros k. rewrite take_take. apply Hr.
Qed.

(** The seven insertions of a block. *)
Lemma push_inserts es fb F db :
  tables_hold es db -> F ∈ map fst (fork db) -> NoDup (map (fun e => (fbn e.1, e.2)) (es ++ [(fb, F)])) ->
  keys_ok (es ++ [(fb, F)]) -> well_formed fb ->
  exists rv, (db ← insert_blocks_reversible (with_fork F [fb_block fb]) db;
        db ← insert_transactions_reversible (with_fork F (fb_transactions fb)) db;
        db ← insert_transactions_multisig_reversible (with_fork F (fb_signatures fb)) db;
        db ← insert_operations_reversible (with_fork F (fb_operations fb)) db;
        db ← insert_accounts_reversible (with_fork F (fb_accounts fb)) db;
        db ← insert_account_operations_reversible (with_fork F (fb_account_operations fb)) db;
        insert_applied_hardforks_reversible (with_fork F (fb_applied_hardforks fb)) db) = Ok (set_reversible_tables rv db) /\
    tables_hold (es ++ [(fb, F)]) (set_reversible_tables rv db).
Proof.
  intros [E1 E2 E3 E4 E5 E6 E7] HF Hn [K1 K2 K3 K4 K5 K6 K7] Hwf.
  assert (forall e, e ∈ [(fb, F)] -> well_formed e.1) as Hone by (by intros e ->%list_elem_of_singleton).
  unfold keyed in *. repeat match goal with Hr : NoDup (map _ (rows_of _ (_ ++ _))) |- _ => rewrite rows_of_app, rows_of_one in Hr end.
  pose proof (transactions_refer _ Hone) as R1. pose proof (signatures_refer _ Hone) as R2. pose proof (accounts_refer _ Hone) as R3.
  pose proof (account_operations_refer _ Hone) as R4. pose proof (hardforks_refer _ Hone) as R5.
  rewrite rows_of_one in R1. rewrite !rows_of_one in R2. rewrite (rows_of_one fb_accounts) in R3. rewrite !rows_of_one in R4. rewrite rows_of_one in R5.
  assert (map (in_fork num) (map (fun e => (fb_block e.1, e.2)) es ++ with_fork F [fb_block fb])
    = map (in_fork num) (map (fun e => (fb_block e.1, e.2)) es) ++ block_keys [(fb, F)]) as Hbk by (by rewrite map_app).
  unfold insert_blocks_reversible. at_rows. rewrite E1.
  rewrite assert_true by (apply unique_true; rewrite Hbk; unfold block_keys; rewrite <- map_app, <- map_app, map_map; exact Hn).
  rewrite assert_true by (apply refers_true; intros k ->%list_elem_of_singleton; done). at_rows.
  unfold insert_transactions_reversible. at_rows. rewrite E2, assert_true by (by apply unique_true).
  rewrite assert_true by (rewrite Hbk; by apply refers_more). at_rows.
  unfold insert_transactions_multisig_reversible. at_rows. rewrite E3, assert_true by (by apply unique_true).
  rewrite assert_true by (rewrite map_app; by apply refers_more). at_rows.
  unfold insert_operations_reversible. at_rows. rewrite E4, assert_true by (by apply unique_true). at_rows.
  unfold insert_accounts_reversible. at_rows. rewrite E5, assert_true by (by rewrite !unique_true).
  rewrite assert_true by (rewrite Hbk; by apply refers_more). at_rows.
  unfold insert_account_operations_reversible. at_rows. rewrite E6, assert_true by (by apply unique_true).
  rewrite assert_true by (rewrite map_app; by apply refers_more). at_rows.
  unfold insert_applied_hardforks_reversible. at_rows. rewrite E7, assert_true by (by apply unique_true).
  rewrite assert_true by (rewrite Hbk; by apply refers_more). at_rows.
  eexists. split; [reflexivity|]. constructor; at_rows; rewrite ?rows_of_app, ?rows_of_one, ?map_app; done.
Qed.

Lemma push_follows locked contexts fb db ch :
  follows db ch -> chain_step (Push locked contexts fb) ch {| ch_blocks := ch_blocks ch ++ [fb]; ch_irreversible := ch_irreversible ch |} ->
  exists db', push_block locked contexts fb db = Ok db' /\
    follows db' {| ch_blocks := ch_blocks ch ++ [fb]; ch_irreversible := ch_irreversible ch |}.
Proof.
  intros [Hmode Hch Hir Hco (es & Hth & Hok)] Hstep. pose proof (chain_ok_push _ _ _ _ _ Hch Hstep) as Hch'. destruct Hch as [Hnum Hb Hw Hr].
  inversion Hstep as [? ? fb' ch' Hwf Hn Hro| | |]; subst.
  pose proof (push_entries db ch es Hnum Hb Hth Hok fb Hwf Hn Hro) as Hok'.
  unfold push_block. rewrite Hmode, (eo_max _ _ _ _ Hok).
  set (db1 := insert_event NEW_BLOCK (num (fb_block fb)) db).
  destruct (push_inserts es fb (fork_id_seq db) db1) as (rv & -> & Hth'); [by destruct Hth| |apply Hok'|apply Hok'|done|].
  { subst db1. cbn. by apply sql_max_spec, (eo_max _ _ _ _ Hok). }
  eexists. split; [done|]. constructor; cbn; [done|done| |done|].
  - rewrite Hir. f_equal. rewrite take_app_le; [done|]. unfold head in Hb. lia.
  - eauto.
Qed.

Lemma fork_follows m db ch :
  follows db ch -> (ch_irreversible ch <= m <= head ch)%nat ->
  exists db', back_from_fork (Z.of_nat m) db = Ok db' /\
    follows db' {| ch_blocks := take m (ch_blocks ch); ch_irreversible := ch_irreversible ch |}.
Proof.
  intros [Hmode Hch Hir Hco (es & Hth & Hok)] Hm. pose proof (chain_ok_fork m ch Hch Hm) as Hch'. destruct Hch as [Hnum Hb Hw Hr].
  unfold back_from_fork. rewrite Hmode. eexists. split; [done|]. constructor; cbn; [done|done| |done|].
  - rewrite Hir, take_take. do 2 f_equal. lia.
  - exists es. split; [by destruct Hth|]. by apply (fork_entries db ch es Hnum Hb).
Qed.

(** The deletions, unless an application holds the lock. *)
Lemma deletions_follow (locked : bool) contexts n db ch es :
  is_lite_mode db = false -> chain_ok ch -> (ch_irreversible ch <= n <= head ch)%nat ->
  tables_hold es db -> entries_ok (fork db) (fork_id_seq db) ch es ->
  exists db' (P : entry -> bool),
    (if locked then Ok db else remove_obsolete_reversible_data contexts (Z.of_nat n) (remove_unecessary_events contexts (Z.of_nat n) db)) = Ok db' /\
    (forall e, live (fork db) e = true -> Z.of_nat n < fbn e.1 -> P e = true) /\ tables_hold (List.filter P es) db' /\
    irreversible db' = irreversible db /\ fork db' = fork db /\ fork_id_seq db' = fork_id_seq db /\ is_lite_mode db' = false.
Proof.
  intros Hmode [Hnum Hb Hw Hr] Hn Hth Hok. destruct locked.
  - exists db, (fun _ => true). split_and!; try done.
    assert (List.filter (fun _ => true) es = es) as -> by (clear; induction es; [done|cbn; by f_equal]). done.
  - set (db1 := remove_unecessary_events contexts (Z.of_nat n) db).
    destruct (remove_holds db1 ch es ltac:(by destruct Hth) Hok n contexts Hmode) as (rv & -> & Hth').
    exists (set_reversible_tables rv db1), (kept_entry db1 n contexts). split_and!; try done.
    intros e He Hlt. by eapply (kept_live db1 ch).
Qed.

Lemma consistent_block_exists n db ch :
  chain_ok ch -> (1 <= n <= head ch)%nat -> irreversible db = irreversible_rows (take n (ch_blocks ch)) ->
  refers [Z.of_nat n] (map num (tb_blocks (irreversible db))) = true.
Proof.
  intros [Hnum Hb Hw Hr] Hn ->. cbn [irreversible_rows tb_blocks]. apply refers_true. intros k ->%list_elem_of_singleton.
  rewrite map_map. change (map (fun x => num (fb_block x)) ?l) with (map fbn l).
  rewrite (numbers_take _ _ (head ch)) by (done || lia). apply elem_of_seqZ. lia.
Qed.

Lemma irreversible_follows locked contexts n db ch :
  follows db ch -> (1 <= n)%nat -> (ch_irreversible ch <= n <= head ch)%nat ->
  exists db', set_irreversible locked contexts (Z.of_nat n) db = Ok db' /\ follows db' {| ch_blocks := ch_blocks ch; ch_irreversible := n |}.
Proof.
  intros [Hmode Hch Hir Hco (es & Hth & Hok)] H1 Hn. pose proof Hch as [Hnum Hb Hw Hr].
  unfold set_irreversible. rewrite Hmode, Hir. cbn [irreversible_rows tb_blocks].
  rewrite irreversible_head by done. rewrite (proj2 (Z.ltb_ge _ _)) by lia.
  rewrite (copy_follows db ch es Hnum Hb Hth Hok n Hn Hir Hw (Hr n)). cbn [mbind outcome_bind].
  set (db1 := set_irreversible_tables _ db).
  destruct (deletions_follow locked contexts n db1 ch es Hmode Hch Hn) as (db2 & P & -> & HP & Hth2 & Hir2 & Hf2 & Hs2 & Hm2);
    [by destruct Hth|done|]. cbn [mbind outcome_bind]. unfold set_consistent_block.
  rewrite assert_true by (apply (consistent_block_exists n _ ch); [done|lia|done]).
  eexists. split; [done|]. constructor; cbn; [done| |done|done|].
  - constructor; cbn; [done|unfold head in *; cbn; lia|done|done].
  - exists (List.filter P es). split; [by destruct Hth2|]. rewrite Hf2, Hs2. by apply (irreversible_entries db ch es Hnum Hb Hok n Hn).
Qed.

Lemma old_follows locked contexts n db ch :
  follows db ch -> (n < ch_irreversible ch)%nat -> set_irreversible locked contexts (Z.of_nat n) db = Ok db.
Proof.
  intros [Hmode [Hnum Hb _ _] Hir _ _] Hn. unfold set_irreversible. rewrite Hmode, Hir. cbn [irreversible_rows tb_blocks].
  rewrite irreversible_head by done. by rewrite (proj2 (Z.ltb_lt _ _)) by lia.
Qed.

Lemma commit_follows db ch : follows db ch -> commit db = Ok db.
Proof. intros [_ Hch Hir _ _]. by eapply commit_ok; [|apply Hch]. Qed.

Lemma step_follows c db ch ch' :
  follows db ch -> chain_step c ch ch' -> exists db', execute c db = Ok db' /\ follows db' ch'.
Proof.
  intros Hf Hstep. pose proof Hstep as Hs. unfold execute.
  destruct Hstep as [locked contexts fb ch Hwf Hn Hro|m ch Hm|locked contexts n ch H1 Hn|locked contexts n ch Hn].
  - destruct (push_follows locked contexts fb db ch Hf Hs) as (db' & -> & Hf'). exists db'. split; [exact (commit_follows _ _ Hf')|done].
  - destruct (fork_follows m db ch Hf Hm) as (db' & -> & Hf'). exists db'. split; [exact (commit_follows _ _ Hf')|done].
  - destruct (irreversible_follows locked contexts n db ch Hf H1 Hn) as (db' & -> & Hf'). exists db'. split; [exact (commit_follows _ _ Hf')|done].
  - exists db. rewrite (old_follows _ _ _ _ ch) by done. split; [exact (commit_follows _ _ Hf)|done].
Qed.

(** The state [initialize_extension_data] leaves. *)
Definition initial_database (lite : bool) : database :=
  {| irreversible := irreversible_rows [];
     reversible := {| blocks_reversible := []; transactions_reversible := []; transactions_multisig_reversible := [];
                      operations_reversible := []; accounts_reversible := []; account_operations_reversible := [];
                      applied_hardforks_reversible := [] |};
     fork := [(1, 1)]; fork_id_seq := 1;
     events_queue := [(0, NEW_IRREVERSIBLE, 0); (unreachable_event_id, NEW_BLOCK, 2147483647)]; events_queue_id_seq := 0;
     consistent_block := None; is_lite_mode := lite |}.

Definition empty_chain : chain := {| ch_blocks := []; ch_irreversible := 0 |}.

Lemma rows_ok_nil : rows_ok [].
Proof. constructor; try apply NoDup_nil_2; by intros x ?%elem_of_nil. Qed.

Lemma empty_chain_ok : chain_ok empty_chain.
Proof. constructor; [done|done|by intros fb ?%elem_of_nil|]. intros k. cbn. rewrite take_nil. apply rows_ok_nil. Qed.

Lemma initial_follows : follows (initial_database false) empty_chain.
Proof.
  constructor; try done; [apply empty_chain_ok|]. exists []. split; [by constructor|].
  constructor; try done; try (intros e He; by apply elem_of_nil in He); [apply NoDup_nil_2|constructor; apply NoDup_nil_2|].
  intros e e' He. by apply elem_of_nil in He.
Qed.

Fixpoint execute_all (cs : list call) (db : database) : outcome sql_error database :=
  match cs with
  | [] => Ok db
  | c :: cs' => match execute c db with Ok db' => execute_all cs' db' | Throw e => Throw e end
  end.

Inductive chain_run : list call -> chain -> chain -> Prop :=
| RunNil ch : chain_run [] ch ch
| RunCons c cs ch ch1 ch2 : chain_step c ch ch1 -> chain_run cs ch1 ch2 -> chain_run (c :: cs) ch ch2.

Lemma run_follows cs db ch ch' :
  follows db ch -> chain_run cs ch ch' -> exists db', execute_all cs db = Ok db' /\ follows db' ch'.
Proof.
  intros Hf Hr. revert db Hf. induction Hr as [ch|c cs ch ch1 ch2 Hs _ IH]; intros db Hf; [by exists db|].
  destruct (step_follows c db ch ch1 Hf Hs) as (db1 & E & Hf1). destruct (IH db1 Hf1) as (db2 & E2 & Hf2).
  exists db2. split; [|done]. cbn. by rewrite E.
Qed.

(** Up to the head the view shows the chain. *)
Lemma visible_live db ch es e :
  map fbn (ch_blocks ch) = seqZ 1 (Z.of_nat (head ch)) -> (ch_irreversible ch <= head ch)%nat ->
  tables_hold es db -> entries_ok (fork db) (fork_id_seq db) ch es -> e ∈ es -> Z.of_nat (ch_irreversible ch) < fbn e.1 ->
  newest (List.filter (fun r => Z.of_nat (ch_irreversible ch) <? num r.1) (blocks_reversible (reversible db))) (fb_block e.1, e.2)
    && (fbn e.1 <=? Z.of_nat (head ch)) = live (fork db) e.
Proof.
  intros Hnum Hb Hth Hok He Hlt.
  assert (newest (List.filter (fun r => Z.of_nat (ch_irreversible ch) <? num r.1) (blocks_reversible (reversible db))) (fb_block e.1, e.2)
    = newest (blocks_reversible (reversible db)) (fb_block e.1, e.2)) as ->.
  { apply eq_true_iff_eq. unfold newest. rewrite !forallb_forall. split; intros Hall r Hr.
    - destruct (Z.eqb_spec (num r.1) (num (fb_block e.1))) as [Heq|]; [|by rewrite (proj2 (Z.eqb_neq _ _))]. specialize (Hall r). cbn in Hall.
      cbn. apply Hall. apply List.filter_In. split; [done|]. apply Z.ltb_lt. unfold fbn in Hlt. by rewrite Heq.
    - apply Hall. by apply List.filter_In in Hr as [? _]. }
  destruct (Z.leb_spec (fbn e.1) (Z.of_nat (head ch))) as [Hle|Hgt].
  - rewrite andb_true_r. apply (newest_live db ch es); done || (split; done).
  - rewrite andb_false_r. destruct (live (fork db) e) eqn:El; [|done].
    pose proof (live_below_head db ch es Hnum Hb Hok e He El). lia.
Qed.

Lemma view_follows db ch :
  follows db ch -> List.filter (fun b => num b <=? Z.of_nat (head ch)) (blocks_view db) = map fb_block (ch_blocks ch).
Proof.
  intros [_ [Hnum Hb _ _] Hir Hco (es & Hth & Hok)]. unfold blocks_view. rewrite Hco, Hir. cbn [irreversible_rows tb_blocks].
  transitivity (map fb_block (take (ch_irreversible ch) (ch_blocks ch) ++ drop (ch_irreversible ch) (ch_blocks ch))); [|by rewrite take_drop].
  rewrite List.filter_app, map_app. f_equal.
  - rewrite filter_map. f_equal. change (fun x => num (fb_block x) <=? Z.of_nat (head ch)) with (fun x => fbn x <=? Z.of_nat (head ch)).
    rewrite (List.filter_ext _ (fun b => fbn b <=? 1 - 1 + Z.of_nat (head ch))) by (intros; f_equal; lia).
    rewrite filter_low, firstn_all2; [done|rewrite length_take; unfold head in *; lia|].
    rewrite length_take, Nat.min_l by (unfold head in *; lia). apply (numbers_take _ _ (head ch)); done.
  - rewrite <- (eo_live _ _ _ _ Hok), <- map_filter_fst.
    set (vis := newest _). rewrite (th_blocks _ _ Hth), !filter_map, !map_map.
    assert (forall l, (forall e, e ∈ l -> e ∈ es) ->
      map (fun e => fb_block e.1) (List.filter (fun e => vis (fb_block e.1, e.2) && (num (fb_block e.1) <=? Z.of_nat (head ch)))
        (List.filter (fun e => Z.of_nat (ch_irreversible ch) <? num (fb_block e.1)) l))
      = map (fun e => fb_block e.1) (List.filter (fun e => (Z.of_nat (ch_irreversible ch) <? fbn e.1) && live (fork db) e) l)) as Hl; [|by apply Hl].
    induction l as [|e l IH]; intros Hin; [done|]. cbn. change (num (fb_block e.1)) with (fbn e.1).
    destruct (Z.ltb_spec (Z.of_nat (ch_irreversible ch)) (fbn e.1)) as [Hlt|]; cbn; [|apply IH; intros; apply Hin; by right].
    change (num (fb_block e.1)) with (fbn e.1). subst vis.
    rewrite (visible_live db ch es) by (done || (apply Hin; left)). destruct (live (fork db) e); cbn; rewrite IH by (intros; apply Hin; by right); done.
Qed.

(** C3: Outside of lite mode, from the tables the extension starts with, for every sequence of new
    blocks, forks back to a block that is not below the irreversible ones, and irreversible
    blocks up to the head, of a chain whose rows belong to their blocks, whose hashes,
    identifiers, names and sequence numbers do not repeat along the chain and whose accounts and
    virtual operations come before they are referred to, and whatever the contexts of the
    applications and their locks: no key and no reference of the tables is violated, the
    irreversible tables hold exactly the rows of the irreversible blocks, consistent_block is the
    last of them, and up to hived's head the view shows exactly its chain. *)
Theorem tables_follow_the_chain cs ch :
  chain_run cs empty_chain ch ->
  exists db, execute_all cs (initial_database false) = Ok db /\
    irreversible db = irreversible_rows (take (ch_irreversible ch) (ch_blocks ch)) /\
    default 0 (consistent_block db) = Z.of_nat (ch_irreversible ch) /\
    List.filter (fun b => num b <=? Z.of_nat (head ch)) (blocks_view db) = map fb_block (ch_blocks ch).
Proof.
  intros Hr. destruct (run_follows cs _ _ _ initial_follows Hr) as (db & E & Hf). exists db.
  split_and!; [done|apply Hf|apply Hf|by apply view_follows].
Qed.

(** ** Lite mode *)

Definition is_push (c : call) : Prop := match c with Push _ _ _ => True | _ => False end.

Record lite_follows (db : database) (ch : chain) : Prop := {
  lf_mode : is_lite_mode db = true;
  lf_chain : chain_ok ch;
  lf_irreversible : irreversible db = irreversible_rows (ch_blocks ch);
  lf_consistent : default 0 (consistent_block db) = Z.of_nat (head ch)
}.

(** New accounts are appended. *)
Lemma upsert_new rows accounts :
  NoDup (map account_id (accounts ++ rows)) -> NoDup (map account_name (accounts ++ rows)) ->
  foldl upsert_account (Ok accounts) rows = Ok (accounts ++ rows).
Proof.
  revert accounts. induction rows as [|a rows IH]; intros accounts Hid Hn; cbn [foldl]; [by rewrite app_nil_r|].
  assert (upsert_account (Ok accounts) a = Ok (accounts ++ [a])) as ->.
  { cbn. assert (existsb (fun r => account_id r =? account_id a) accounts = false) as ->.
    { destruct (existsb _ _) eqn:E; [|done]. apply existsb_exists in E as (r & Hr & E). apply Z.eqb_eq in E.
      rewrite map_app in Hid. apply NoDup_app in Hid as (_ & Hd & _). exfalso. apply (Hd (account_id r)); [|cbn; rewrite E; left].
      apply (list_elem_of_fmap_2 account_id). by apply list_elem_of_In. }
    rewrite assert_true; [done|]. apply unique_true. change (a :: rows) with ([a] ++ rows) in Hn. rewrite app_assoc, map_app in Hn.
    by apply NoDup_app in Hn as (? & _ & _). }
  rewrite IH; [by rewrite <- app_assoc|by rewrite <- app_assoc|by rewrite <- app_assoc].
Qed.

Lemma lite_push_follows locked contexts fb db ch ch' :
  lite_follows db ch -> chain_step (Push locked contexts fb) ch ch' ->
  exists db', execute (Push locked contexts fb) db = Ok db' /\ lite_follows db' ch'.
Proof.
  intros [Hm Hch Hir Hco] Hstep. pose proof (chain_ok_push _ _ _ _ _ Hch Hstep) as Hch'. pose proof Hch as [Hnum Hb Hw Hr].
  inversion Hstep as [? ? fb' ch0 Hwf Hn Hro| | |]; subst. unfold execute, push_block. rewrite Hm. unfold push_block_lite.
  assert (existsb (fun b => num b =? num (fb_block fb)) (tb_blocks (irreversible db)) = false) as ->.
  { destruct (existsb _ _) eqn:E; [|done]. apply existsb_exists in E as (b & Hb' & E). apply Z.eqb_eq in E. rewrite Hir in Hb'.
    apply List.in_map_iff in Hb' as (old & <- & Hold). apply list_elem_of_In in Hold.
    pose proof (chain_number ch Hnum Hb old Hold) as Hc. unfold fbn in *. lia. }
  assert (accepted (ch_blocks ch) [fb]) as [].
  { apply chain_accepted; [by intros x ->%list_elem_of_singleton| |done]. pose proof (co_numbers _ Hch') as Hnum'. cbn [ch_blocks] in Hnum'.
    rewrite Hnum'. apply NoDup_seqZ. }
  rewrite !all_rows_one in *. cbn [map] in *.
  unfold insert_blocks. rewrite Hir. at_tables. accept. unfold insert_transactions. at_tables. do 2 accept.
  unfold insert_transactions_multisig. at_tables. do 2 accept. unfold insert_operations. at_tables. accept.
  unfold upsert_accounts, set_accounts. at_tables.
  assert (NoDup (map account_id (all_rows fb_accounts (ch_blocks ch) ++ fb_accounts fb)) /\
          NoDup (map account_name (all_rows fb_accounts (ch_blocks ch) ++ fb_accounts fb))) as [Hid Hna].
  { pose proof (ro_accounts _ Hro) as H1. pose proof (ro_names _ Hro) as H2. by rewrite all_rows_app, all_rows_one in H1, H2. }
  rewrite assert_true by (apply unique_true; rewrite map_app in Hid; by apply NoDup_app in Hid as (_ & _ & ?)).
  rewrite upsert_new by done. cbn [mbind outcome_bind]. accept.
  unfold insert_account_operations. at_tables. do 2 accept. unfold insert_applied_hardforks. at_tables. do 2 accept.
  unfold set_consistent_block. rewrite assert_true.
  2:{ apply refers_true. intros k ->%list_elem_of_singleton. cbn. rewrite map_app, elem_of_app. right. by left. }
  set (db1 := {| irreversible := _ |}). cbn [mbind outcome_bind].
  set (db2 := if locked then db1 else _).
  assert (irreversible db2 = irreversible_rows (ch_blocks ch ++ [fb]) /\ is_lite_mode db2 = true /\
          consistent_block db2 = Some (num (fb_block fb))) as (Hir2 & Hm2 & Hc2).
  { subst db2. rewrite irreversible_rows_app, !all_rows_one. by destruct locked. }
  exists db2. rewrite (commit_ok db2 _ Hir2 Hro). split; [done|]. constructor; [done|done|done|].
  rewrite Hc2. cbn. unfold fbn in Hn. rewrite Hn. unfold head. cbn. rewrite length_app. cbn. lia.
Qed.

(** In lite mode blocks pushed in the order of a chain are the rows of the irreversible tables. *)
Theorem lite_tables_follow_the_chain cs ch :
  chain_run cs empty_chain ch -> Forall is_push cs ->
  exists db, execute_all cs (initial_database true) = Ok db /\ irreversible db = irreversible_rows (ch_blocks ch) /\
    default 0 (consistent_block db) = Z.of_nat (head ch).
Proof.
  intros Hr Hp. assert (lite_follows (initial_database true) empty_chain) as Hf by (constructor; [done|apply empty_chain_ok|done|done]).
  revert Hf. generalize (initial_database true) as db. revert Hp.
  induction Hr as [ch|c cs ch ch1 ch2 Hs _ IH]; intros Hp db Hf; [exists db; split_and!; [done|apply Hf|apply Hf]|].
  apply Forall_cons in Hp as [Hc Hp]. destruct c as [locked contexts fb| |]; [|done|done].
  destruct (lite_push_follows _ _ _ _ _ _ Hf Hs) as (db1 & E & Hf1). destruct (IH Hp db1 Hf1) as (db2 & E2 & Hf2).
  exists db2. split; [|done]. cbn [execute_all]. by rewrite E.
Qed.

(** In lite mode a fork below the consistent block is refused: [hive_state] refers to a block that
    [back_from_fork] deletes. *)
Theorem lite_fork_is_refused m c db :
  is_lite_mode db = true -> consistent_block db = Some c -> m < c -> exists e, execute (Fork m) db = Throw e.
Proof.
  intros Hm Hc Hlt. unfold execute, back_from_fork. rewrite Hm. unfold back_from_fork_lite. rewrite Hc.
  assert (refers [c] (map num (List.filter (fun b => num b <=? m) (tb_blocks (irreversible db)))) = false) as ->.
  { destruct (refers _ _) eqn:E; [|done]. rewrite refers_true in E. specialize (E c ltac:(left)). apply list_elem_of_fmap in E as (b & -> & Hb).
    apply filter_elem in Hb as [_ Hb]. apply Z.leb_le in Hb. lia. }
  rewrite andb_false_r. destruct (o_assert (_ && _) _); [|by eexists]. cbn [mbind outcome_bind].
  destruct (o_assert (refers _ _) _); by eexists.
Qed.

End fork_manager.

(** ** A fork of the third block, with an application that lags behind *)

Module ForkExamples.

Definition key : Type := Z * nat.

(** Operations are numbered within their block. *)
Definition upper_half (id : Z) : Z := Z.shiftr id 32.

(** Every block has a transaction of account 1, which is created in the first one, creates an
    account and applies a hardfork; the mark tells blocks of the same number apart. *)
Definition block (n : Z) (mark : nat) : @full_block nat key :=
  {| fb_block := {| num := n; producer_account_id := 1; block_columns := mark |};
     fb_transactions := [{| trx_block := n; trx_hash := (n, mark); trx_columns := mark |}];
     fb_signatures := [{| sig_hash := (n, mark); signature := (0, mark) |}; {| sig_hash := (n, mark); signature := (1, mark) |}];
     fb_operations := [{| op_id := Z.shiftl n 32; op_columns := mark |}];
     fb_accounts := [{| account_id := n; account_name := (n, 0%nat); account_block := Some n |}];
     fb_account_operations :=
       [{| ao_account_id := 1; ao_transacting_account_id := 1; ao_account_op_seq_no := n; ao_operation_id := Z.shiftl n 32; ao_op_type_id := 2 |}];
     fb_applied_hardforks := [{| hardfork_num := n; hardfork_block := n; hardfork_vop_id := Z.shiftl n 32 |}] |}.

Definition lagging : context :=
  {| cx_is_attached := true; cx_is_forking := true; cx_fork_id := 1; cx_irreversible_block := 0; cx_events_id := 2 |}.

Definition push (b : @full_block nat key) : call := Push false [] b.

Definition calls : list call :=
  [push (block 1 10); push (block 2 20); push (block 3 30); Irreversible false [lagging] 1; Fork 2;
   push (block 3 31); Irreversible true [] 3; push (block 4 40); Irreversible false [] 3].

Definition final : chain :=
  {| ch_blocks := [block 1 10; block 2 20; block 3 31; block 4 40]; ch_irreversible := 3 |}.

Lemma block_well_formed n mark : well_formed upper_half (block n mark).
Proof.
  assert (upper_half (Z.shiftl n 32) = n) as Hop.
  { unfold upper_half. rewrite Z.shiftr_shiftl_l by lia. change (32 - 32) with 0. apply Z.shiftl_0_r. }
  constructor; cbn; intros x Hx; repeat (apply elem_of_cons in Hx as [->|Hx]); try (by apply elem_of_nil in Hx); try done; by left.
Qed.

Ltac computed := apply (bool_decide_unpack _); vm_compute; exact I.

Ltac pushes :=
  eapply RunCons; [apply ChPush; [apply block_well_formed|done|]; cbn [ch_blocks app empty_chain take];
    constructor; try computed; apply Forall_forall; computed|cbn [ch_blocks ch_irreversible app empty_chain take]].

Lemma calls_run : chain_run upper_half calls empty_chain final.
Proof.
  unfold calls. do 3 pushes.
  eapply RunCons; [apply (ChIrreversible _ false [lagging] 1); cbn; lia|cbn [ch_blocks]].
  eapply RunCons; [apply (ChFork _ 2); cbn; lia|cbn [ch_blocks ch_irreversible take]].
  pushes. eapply RunCons; [apply (ChIrreversible _ true [] 3); cbn; lia|cbn [ch_blocks]].
  pushes. eapply RunCons; [apply (ChIrreversible _ false [] 3); cbn; lia|cbn [ch_blocks]].
  apply RunNil.
Qed.

Lemma tables_follow_the_chain_witness :
  exists db, execute_all upper_half calls (initial_database false) = Ok db /\
    map block_columns (tb_blocks (irreversible db)) = [10; 20; 31]%nat /\
    map ao_account_op_seq_no (tb_account_operations (irreversible db)) = [1; 2; 3].
Proof.
  destruct (tables_follow_the_chain upper_half calls final calls_run) as (db & E & Hir & _).
  exists db. split; [exact E|]. rewrite Hir. split; reflexivity.
Defined.

(** A block with a row twice is refused by the key of the table. *)
Definition doubled : @full_block nat key :=
  let b := block 1 10 in
  {| fb_block := fb_block b; fb_transactions := fb_transactions b; fb_signatures := fb_signatures b; fb_operations := fb_operations b;
     fb_accounts := fb_accounts b; fb_account_operations := fb_account_operations b ++ fb_account_operations b;
     fb_applied_hardforks := fb_applied_hardforks b |}.

Example doubled_row_is_refused : execute_all upper_half [push doubled] (initial_database false) = Throw UniqueViolation.
Proof. vm_compute. reflexivity. Qed.

Example lite_fork_of_second_block :
  execute_all upper_half [push (block 1 10); push (block 2 20); Fork 1] (initial_database true) = Throw ForeignKeyViolation.
Proof. vm_compute. reflexivity. Qed.

End ForkExamples.
