(* ===== verification/ContextRewind.v ===== *)
(** * Rewinding the tables of an application

    Models the triggers that [context_rewind/register_table.sql] puts on a registered table, the
    shadow table they fill, and what uses it: [back_from_fork.sql], [irreversible.sql] and the
    functions [context_next_block] and [context_back_from_fork] of [rewind_api.sql], outside of
    lite mode, for one table of a context.

    A row is found by its [hive_rowid], which comes from a sequence of the table; the statements
    of the application leave that column alone, and the constraints of the table are deferred
    while it is rewound, so that they are not modelled.  The theorem:
    however the application edits its table block after block, going back to a block the
    shadow table still covers restores the table as it was at the end of that block. *)

From S2P Require Import Prelude.
From Stdlib Require Import ZArith Lia.
From stdpp Require Import base list gmap sorting.

Open Scope Z_scope.

Inductive trigger_operation := INSERT | DELETE | UPDATE.

Section rewind.
  Context {R : Type}.                       (* the columns of the application *)

(** A row of the shadow table: the row itself and the columns added to it. *)
Record shadow_row := {
  hive_operation_id : Z;
  hive_operation_type : trigger_operation;
  hive_block_num : Z;
  hive_rowid : Z;
  sh_row : R
}.

Record registered := {
  rg_table : gmap Z R;                      (* by hive_rowid *)
  rg_rowid_seq : Z;
  rg_shadow : list shadow_row;              (* in the order of insertion *)
  rg_operation_seq : Z;
  cx_current_block_num : Z;
  cx_back_from_fork : bool
}.

(** [INSERT INTO shadow SELECT t.*, __block_num, 'type' FROM t]. *)
Fixpoint shadow_rows (seq : Z) (type : trigger_operation) (block : Z) (rows : list (Z * R)) : list shadow_row :=
  match rows with
  | [] => []
  | (rowid, row) :: rows' =>
      {| hive_operation_id := seq + 1; hive_operation_type := type; hive_block_num := block; hive_rowid := rowid; sh_row := row |}
        :: shadow_rows (seq + 1) type block rows'
  end.

(** A trigger function, with the transition table it looks at: [None] when it raises, which
    fails the statement. *)
Definition fire_trigger (type : trigger_operation) (rows : list (Z * R)) (s : registered) : option registered :=
  if cx_back_from_fork s then Some s
  else if cx_current_block_num s <=? 0 then None
  else Some {| rg_table := rg_table s; rg_rowid_seq := rg_rowid_seq s;
               rg_shadow := rg_shadow s ++ shadow_rows (rg_operation_seq s) type (cx_current_block_num s) rows;
               rg_operation_seq := rg_operation_seq s + Z.of_nat (length rows);
               cx_current_block_num := cx_current_block_num s; cx_back_from_fork := cx_back_from_fork s |}.

Definition set_table (t : gmap Z R) (s : registered) : registered :=
  {| rg_table := t; rg_rowid_seq := rg_rowid_seq s; rg_shadow := rg_shadow s; rg_operation_seq := rg_operation_seq s;
     cx_current_block_num := cx_current_block_num s; cx_back_from_fork := cx_back_from_fork s |}.

(** ** Statements of the application *)

Inductive statement :=
| Insert (rows : list R)
| Delete (rowids : list Z)
| Update (changes : list (Z * R))
| Truncate.

(** The new rows with their identifiers, the old rows a statement finds. *)
Definition numbered (seq : Z) (rows : list R) : list (Z * R) := imap (fun i r => (seq + 1 + Z.of_nat i, r)) rows.

Definition found (t : gmap Z R) (rowids : list Z) : list (Z * R) :=
  omap (fun id => r ← t !! id; Some (id, r)) (remove_dups rowids).

Definition run_statement (st : statement) (s : registered) : option registered :=
  match st with
  | Insert rows =>
      let new := numbered (rg_rowid_seq s) rows in
      fire_trigger INSERT new
        {| rg_table := foldl (fun t r => <[r.1 := r.2]> t) (rg_table s) new;
           rg_rowid_seq := rg_rowid_seq s + Z.of_nat (length rows); rg_shadow := rg_shadow s;
           rg_operation_seq := rg_operation_seq s; cx_current_block_num := cx_current_block_num s;
           cx_back_from_fork := cx_back_from_fork s |}
  | Delete rowids =>
      let old := found (rg_table s) rowids in
      fire_trigger DELETE old (set_table (foldl (fun t r => delete r.1 t) (rg_table s) old) s)
  | Update changes =>
      let old := found (rg_table s) (map fst changes) in
      let new := list_to_map (M := gmap Z R) changes in
      fire_trigger UPDATE old (set_table (foldl (fun t r => <[r.1 := default r.2 (new !! r.1)]> t) (rg_table s) old) s)
  | Truncate => set_table ∅ <$> fire_trigger DELETE (map_to_list (rg_table s)) s
  end.

(** ** Going back *)

(** The functions made by [create_revert_functions]. *)
Definition revert (t : gmap Z R) (r : shadow_row) : gmap Z R :=
  match hive_operation_type r with
  | INSERT => delete (hive_rowid r) t
  | DELETE => <[hive_rowid r := sh_row r]> t
  | UPDATE => if decide (is_Some (t !! hive_rowid r)) then <[hive_rowid r := sh_row r]> t else t
  end.

Definition after_block (b : Z) (shadow : list shadow_row) : list shadow_row :=
  List.filter (fun r => b <? hive_block_num r) shadow.

Definition up_to_block (b : Z) (shadow : list shadow_row) : list shadow_row :=
  List.filter (fun r => negb (b <? hive_block_num r)) shadow.

(** [SELECT ... ORDER BY hive_operation_id DESC]: the rows were inserted in that order. *)
Definition reverts (b : Z) (shadow : list shadow_row) (t : gmap Z R) : gmap Z R :=
  foldl revert t (rev (after_block b shadow)).

Definition back_from_fork_one_table (b : Z) (s : registered) : registered :=
  {| rg_table := reverts b (rg_shadow s) (rg_table s); rg_rowid_seq := rg_rowid_seq s;
     rg_shadow := up_to_block b (rg_shadow s);
     rg_operation_seq := rg_operation_seq s; cx_current_block_num := cx_current_block_num s;
     cx_back_from_fork := cx_back_from_fork s |}.

Definition set_context (current : Z) (flag : bool) (s : registered) : registered :=
  {| rg_table := rg_table s; rg_rowid_seq := rg_rowid_seq s; rg_shadow := rg_shadow s; rg_operation_seq := rg_operation_seq s;
     cx_current_block_num := current; cx_back_from_fork := flag |}.

Definition context_next_block (s : registered) : registered := set_context (cx_current_block_num s + 1) (cx_back_from_fork s) s.

Definition context_back_from_fork (_block_num_before_fork : Z) (s : registered) : registered :=
  if _block_num_before_fork <? cx_current_block_num s then
    let s := set_context (cx_current_block_num s) true s in
    set_context _block_num_before_fork false (back_from_fork_one_table _block_num_before_fork s)
  else s.

(** [remove_obsolete_operations]; giving the file back does not change the rows. *)
Definition remove_obsolete_operations (_irreversible_block : Z) (s : registered) : registered :=
  {| rg_table := rg_table s; rg_rowid_seq := rg_rowid_seq s;
     rg_shadow := List.filter (fun r => negb (hive_block_num r <=? _irreversible_block)) (rg_shadow s);
     rg_operation_seq := rg_operation_seq s; cx_current_block_num := cx_current_block_num s;
     cx_back_from_fork := cx_back_from_fork s |}.

(** ** Runs of an application

    [snap b] is the table as it was when block [b] was left, or as it is when [b] is the current
    block. *)

Definition snapshots : Type := Z -> gmap Z R.

Definition with_snapshot (b : Z) (t : gmap Z R) (snap : snapshots) : snapshots := fun b' => if b' =? b then t else snap b'.

Inductive app_step : Z * registered * snapshots -> Z * registered * snapshots -> Prop :=
| AppStatement irr s snap st s' :
    run_statement st s = Some s' ->
    app_step (irr, s, snap) (irr, s', with_snapshot (cx_current_block_num s) (rg_table s') snap)
| AppNext irr s snap :
    app_step (irr, s, snap) (irr, context_next_block s, with_snapshot (cx_current_block_num s + 1) (rg_table s) snap)
| AppBack irr s snap b :
    irr <= b -> app_step (irr, s, snap) (irr, context_back_from_fork b s, snap)
| AppIrreversible irr s snap b :
    irr <= b <= cx_current_block_num s -> app_step (irr, s, snap) (b, remove_obsolete_operations b s, snap).

(** A table registered when the context is at block [b]. *)
Definition registered_at (b : Z) (t : gmap Z R) (seq : Z) : registered :=
  {| rg_table := t; rg_rowid_seq := seq; rg_shadow := []; rg_operation_seq := 0; cx_current_block_num := b;
     cx_back_from_fork := false |}.

(** ** Undoing a statement *)

(** [revert] without the columns it does not look at. *)
Definition revert_as (type : trigger_operation) (t : gmap Z R) (r : Z * R) : gmap Z R :=
  match type with
  | INSERT => delete r.1 t
  | DELETE => <[r.1 := r.2]> t
  | UPDATE => if decide (is_Some (t !! r.1)) then <[r.1 := r.2]> t else t
  end.

Lemma revert_shadow_rows seq type block rows t :
  foldl revert t (rev (shadow_rows seq type block rows)) = foldl (revert_as type) t (rev rows).
Proof.
  revert seq t. induction rows as [|[id row] rows IH]; intros seq t; [done|]. cbn. rewrite !foldl_app, IH. cbn. by destruct type.
Qed.

Lemma shadow_rows_spec seq type block rows r :
  r ∈ shadow_rows seq type block rows -> hive_block_num r = block /\ hive_rowid r ∈ map fst rows.
Proof.
  revert seq. induction rows as [|[id row] rows IH]; intros seq Hr; [by apply elem_of_nil in Hr|]. cbn in Hr.
  apply elem_of_cons in Hr as [->|Hr]; cbn; [split; [done|left]|]. destruct (IH _ Hr). split; [done|by right].
Qed.

Lemma undo_insert l t :
  NoDup (map fst l) -> (forall id, id ∈ map fst l -> t !! id = None) ->
  foldl (revert_as INSERT) (foldl (fun t r => <[r.1 := r.2]> t) t l) (rev l) = t.
Proof.
  revert t. induction l as [|x l IH]; intros t Hnd Hf; [done|]. cbn in *. apply NoDup_cons in Hnd as [Hx Hnd].
  rewrite foldl_app, IH; [cbn; rewrite delete_insert_id; [done|apply Hf; left]|done|].
  intros id Hid. rewrite lookup_insert_ne; [apply Hf; by right|]. intros Heq. apply Hx. by rewrite Heq.
Qed.

Lemma undo_delete l t :
  NoDup (map fst l) -> (forall r, r ∈ l -> t !! r.1 = Some r.2) ->
  foldl (revert_as DELETE) (foldl (fun t r => delete r.1 t) t l) (rev l) = t.
Proof.
  revert t. induction l as [|x l IH]; intros t Hnd Hf; [done|]. cbn in *. apply NoDup_cons in Hnd as [Hx Hnd].
  rewrite foldl_app, IH; [cbn; apply insert_delete_id, Hf; left|done|].
  intros r Hr. rewrite lookup_delete_ne; [apply Hf; by right|]. intros Heq. apply Hx. rewrite Heq. by apply list_elem_of_fmap_2.
Qed.

Lemma undo_update (new : Z * R -> R) l t :
  NoDup (map fst l) -> (forall r, r ∈ l -> t !! r.1 = Some r.2) ->
  foldl (revert_as UPDATE) (foldl (fun t r => <[r.1 := new r]> t) t l) (rev l) = t.
Proof.
  revert t. induction l as [|x l IH]; intros t Hnd Hf; [done|]. cbn in *. apply NoDup_cons in Hnd as [Hx Hnd].
  rewrite foldl_app, IH; [|done|].
  - cbn. rewrite decide_True by (rewrite lookup_insert_eq; eauto). rewrite insert_insert_eq. apply insert_id, Hf. left.
  - intros r Hr. rewrite lookup_insert_ne; [apply Hf; by right|]. intros Heq. apply Hx. rewrite Heq. by apply list_elem_of_fmap_2.
Qed.

Lemma undo_truncate (t : gmap Z R) : foldl (revert_as DELETE) ∅ (rev (map_to_list t)) = t.
Proof.
  rewrite <- (list_to_map_to_list t) at 2. generalize (map_to_list t). intros l. induction l as [|[id r] l IH]; [done|].
  cbn. by rewrite foldl_app, IH.
Qed.

Lemma found_rows t ids r : r ∈ found t ids -> t !! r.1 = Some r.2.
Proof.
  unfold found. rewrite list_elem_of_omap. intros (id & _ & E). destruct (t !! id) as [row|] eqn:Et; [|done]. cbn in E. by injection E as <-.
Qed.

Lemma found_nodup t ids : NoDup (map fst (found t ids)).
Proof.
  unfold found. pose proof (NoDup_remove_dups ids) as Hnd. induction Hnd as [|id l Hid _ IH]; [constructor|]. cbn.
  destruct (t !! id) as [row|] eqn:E; cbn; [|done]. apply NoDup_cons. split; [|done].
  intros Hin. apply list_elem_of_fmap in Hin as ([id' r] & -> & Hin). apply list_elem_of_omap in Hin as (id'' & Hid' & E').
  destruct (t !! id''); cbn in E'; [|done]. by injection E' as <- _.
Qed.

Lemma numbered_ids seq rows :
  NoDup (map fst (numbered seq rows)) /\
  (forall id, id ∈ map fst (numbered seq rows) -> seq < id <= seq + Z.of_nat (length rows)).
Proof.
  unfold numbered. assert (map fst (imap (fun i r => (seq + 1 + Z.of_nat i, r)) rows) = imap (fun i _ => seq + 1 + Z.of_nat i) rows) as ->.
  { change (map ?g ?l) with (g <$> l). by rewrite fmap_imap. }
  split.
  - apply NoDup_alt. intros i j x Hi Hj. rewrite list_lookup_imap in Hi, Hj.
    destruct (rows !! i), (rows !! j); cbn in *; simplify_eq. lia.
  - intros id Hid. apply list_elem_of_lookup in Hid as [i Hi]. rewrite list_lookup_imap in Hi.
    destruct (rows !! i) eqn:E; [|done]. cbn in Hi. injection Hi as <-. apply lookup_lt_Some in E. lia.
Qed.

(** ** The invariant *)

Arguments reverts : simpl never.
Arguments after_block : simpl never.
Arguments up_to_block : simpl never.

Record rewind_inv (irr : Z) (s : registered) (snap : snapshots) : Prop := {
  ri_flag : cx_back_from_fork s = false;
  ri_irr : irr <= cx_current_block_num s;
  ri_blocks : forall r, r ∈ rg_shadow s -> hive_block_num r <= cx_current_block_num s;
  ri_ordered : forall b, rg_shadow s = up_to_block b (rg_shadow s) ++ after_block b (rg_shadow s);
  ri_rows : forall id, is_Some (rg_table s !! id) -> id <= rg_rowid_seq s;
  ri_snap_rows : forall b id, irr <= b <= cx_current_block_num s -> is_Some (snap b !! id) -> id <= rg_rowid_seq s;
  ri_snap : forall b, irr <= b <= cx_current_block_num s -> reverts b (rg_shadow s) (rg_table s) = snap b
}.

Lemma filter_every {A} (p : A -> bool) l : (forall x, x ∈ l -> p x = true) -> List.filter p l = l.
Proof.
  induction l as [|x l IH]; intros H; [done|]. cbn. rewrite H by left. f_equal. apply IH. intros y Hy. apply H. by right.
Qed.

Lemma filter_no {A} (p : A -> bool) l : (forall x, x ∈ l -> p x = false) -> List.filter p l = [].
Proof.
  induction l as [|x l IH]; intros H; [done|]. cbn. rewrite H by left. apply IH. intros y Hy. apply H. by right.
Qed.

Lemma filter_swap {A} (p q : A -> bool) l : List.filter p (List.filter q l) = List.filter q (List.filter p l).
Proof.
  induction l as [|x l IH]; [done|]. cbn. destruct (p x) eqn:Ep, (q x) eqn:Eq; cbn; rewrite ?Ep, ?Eq; congruence.
Qed.

Lemma filter_in {A} (p : A -> bool) l x : x ∈ List.filter p l -> x ∈ l /\ p x = true.
Proof. rewrite !list_elem_of_In. apply List.filter_In. Qed.

Lemma after_current b (l : list shadow_row) : (forall r, r ∈ l -> hive_block_num r <= b) -> after_block b l = [].
Proof. intros H. apply filter_no. intros r Hr. specialize (H r Hr). lia. Qed.

(** An edit of the table whose every step keeps the bound on the identifiers keeps it. *)
Lemma fold_bound {B} (bound : Z) (f : gmap Z R -> B -> gmap Z R) (l : list B) (t : gmap Z R) :
  (forall t x id, x ∈ l -> is_Some (f t x !! id) -> id <= bound \/ is_Some (t !! id)) ->
  (forall id, is_Some (t !! id) -> id <= bound) -> forall id, is_Some (foldl f t l !! id) -> id <= bound.
Proof.
  revert t. induction l as [|x l IH]; intros t Hf Ht; [done|]. cbn. apply IH.
  - intros t' y id Hy. apply Hf. by right.
  - intros id Hid. apply Hf in Hid as [Hid|Hid]; [done|by apply Ht|left].
Qed.

Lemma insert_bound (bound : Z) (x : Z) (r : R) (t : gmap Z R) id :
  x <= bound -> is_Some (<[x := r]> t !! id) -> id <= bound \/ is_Some (t !! id).
Proof. intros Hx Hid. apply lookup_insert_is_Some in Hid as [->|[_ Hid]]; auto. Qed.

(** What a statement left: the rows it recorded undo it, and belong to the current block. *)
Definition recorded (s s' : registered) (new : list shadow_row) : Prop :=
  rg_shadow s' = rg_shadow s ++ new /\ foldl revert (rg_table s') (rev new) = rg_table s /\
  (forall r, r ∈ new -> hive_block_num r = cx_current_block_num s) /\
  cx_current_block_num s' = cx_current_block_num s /\ cx_back_from_fork s' = false /\
  (forall id, is_Some (rg_table s' !! id) -> id <= rg_rowid_seq s').

Lemma fired type rows (t : gmap Z R) (seq : Z) s :
  foldl (revert_as type) t (rev rows) = rg_table s ->
  (forall id, is_Some (t !! id) -> id <= seq) ->
  recorded s {| rg_table := t; rg_rowid_seq := seq;
                rg_shadow := rg_shadow s ++ shadow_rows (rg_operation_seq s) type (cx_current_block_num s) rows;
                rg_operation_seq := rg_operation_seq s + Z.of_nat (length rows);
                cx_current_block_num := cx_current_block_num s; cx_back_from_fork := false |}
    (shadow_rows (rg_operation_seq s) type (cx_current_block_num s) rows).
Proof.
  intros Hundo Hb. unfold recorded. cbn. rewrite revert_shadow_rows. split_and!; try done.
  intros r Hr. by destruct (shadow_rows_spec _ _ _ _ _ Hr).
Qed.

(** What a statement records undoes it. *)
Lemma statement_undone st s s' :
  cx_back_from_fork s = false -> (forall id, is_Some (rg_table s !! id) -> id <= rg_rowid_seq s) ->
  run_statement st s = Some s' -> exists new, recorded s s' new.
Proof.
  intros Hfl Hrows E. destruct st as [rows|ids|changes|]; cbn in E; unfold fire_trigger in E; cbn in E; rewrite Hfl in E;
    (destruct (_ <=? 0); [done|]); injection E as <-; unfold set_table; cbn; eexists; apply fired; try done.
  - destruct (numbered_ids (rg_rowid_seq s) rows) as [Hnd Hids]. apply undo_insert; [done|]. intros id Hid.
    destruct (rg_table s !! id) eqn:El; [|done]. pose proof (Hrows id ltac:(eauto)). specialize (Hids id Hid). lia.
  - destruct (numbered_ids (rg_rowid_seq s) rows) as [Hnd Hids]. apply fold_bound; [|intros id Hid; specialize (Hrows id Hid); lia].
    intros t x id Hx. apply insert_bound. apply Hids. by apply list_elem_of_fmap_2.
  - apply undo_delete; [apply found_nodup|intros r; apply found_rows].
  - apply fold_bound; [|done]. intros t x id _ [r Hid]. apply lookup_delete_Some in Hid as [_ Hid]. eauto.
  - apply (undo_update (fun r => default r.2 (list_to_map (M := gmap Z R) changes !! r.1))); [apply found_nodup|intros r; apply found_rows].
  - apply fold_bound; [|done]. intros t x id Hx. apply insert_bound. apply found_rows in Hx. eauto.
  - apply undo_truncate.
  - intros id [r Hid]. by rewrite lookup_empty in Hid.
Qed.

Lemma statement_grows st s s' :
  run_statement st s = Some s' -> cx_back_from_fork s = false -> rg_rowid_seq s <= rg_rowid_seq s'.
Proof.
  intros E Hfl. destruct st; cbn in E; unfold fire_trigger in E; cbn in E; rewrite Hfl in E; (destruct (_ <=? 0); [done|]);
    injection E as <-; cbn; lia.
Qed.

(** ** Every action keeps the invariant *)

Lemma statement_keeps irr s snap st s' :
  rewind_inv irr s snap -> run_statement st s = Some s' ->
  rewind_inv irr s' (with_snapshot (cx_current_block_num s) (rg_table s') snap).
Proof.
  intros [Hfl Hirr Hbl Hord Hrows Hsr Hsn] E. pose proof (statement_grows _ _ _ E Hfl) as Hgrow.
  destruct (statement_undone _ _ _ Hfl Hrows E) as (new & Hsh & Hundo & Hnew & Hcur & Hfl' & Hrows').
  assert (forall r, r ∈ rg_shadow s' -> hive_block_num r <= cx_current_block_num s) as Hbl'.
  { rewrite Hsh. intros r [Hr|Hr]%elem_of_app; [auto|]. by rewrite (Hnew _ Hr). }
  assert (forall b, b < cx_current_block_num s -> after_block b new = new /\ up_to_block b new = []) as Hlow.
  { intros b Hb. split; [apply filter_every|apply filter_no]; intros r Hr; rewrite (Hnew _ Hr); apply Z.ltb_lt in Hb; by rewrite Hb. }
  split; rewrite ?Hcur; try done.
  - intros b. destruct (Z.lt_ge_cases b (cx_current_block_num s)) as [Hb|Hb].
    + destruct (Hlow b Hb) as [H1 H2]. unfold after_block, up_to_block in *. rewrite Hsh, !List.filter_app, H1, H2, app_nil_r, app_assoc. by rewrite <- Hord.
    + rewrite after_current by (intros r Hr; specialize (Hbl' r Hr); lia). rewrite app_nil_r. symmetry. apply filter_every.
      intros r Hr. specialize (Hbl' r Hr). apply negb_true_iff, Z.ltb_ge. lia.
  - intros b id Hb. unfold with_snapshot. destruct (Z.eqb_spec b (cx_current_block_num s)) as [->|Hne]; [apply Hrows'|].
    intros Hid. specialize (Hsr b id Hb Hid). lia.
  - intros b Hb. unfold with_snapshot, reverts. destruct (Z.eqb_spec b (cx_current_block_num s)) as [->|Hne].
    + by rewrite after_current.
    + destruct (Hlow b ltac:(lia)) as [H1 _]. unfold after_block in *.
      rewrite Hsh, List.filter_app, H1, rev_app_distr, foldl_app, Hundo. by apply Hsn.
Qed.

Lemma next_keeps irr s snap :
  rewind_inv irr s snap -> rewind_inv irr (context_next_block s) (with_snapshot (cx_current_block_num s + 1) (rg_table s) snap).
Proof.
  intros [Hfl Hirr Hbl Hord Hrows Hsr Hsn]. split; cbn; try done; [lia|intros r Hr; specialize (Hbl r Hr); lia| |].
  - intros b id Hb. unfold with_snapshot. destruct (Z.eqb_spec b (cx_current_block_num s + 1)); [apply Hrows|apply Hsr; lia].
  - intros b Hb. unfold with_snapshot. destruct (Z.eqb_spec b (cx_current_block_num s + 1)); [|apply Hsn; lia].
    unfold reverts. rewrite after_current; [done|]. intros r Hr. specialize (Hbl r Hr). lia.
Qed.

(** A prefix of the order stays a prefix in any part of the shadow table. *)
Lemma filter_ordered p b (l : list shadow_row) :
  l = up_to_block b l ++ after_block b l -> List.filter p l = up_to_block b (List.filter p l) ++ after_block b (List.filter p l).
Proof. intros H. rewrite H at 1. unfold up_to_block, after_block. by rewrite List.filter_app, !(filter_swap p). Qed.

(** Going back in two steps is going back at once. *)
Lemma reverts_twice b b' (l : list shadow_row) t :
  l = up_to_block b l ++ after_block b l -> b' <= b -> reverts b' (up_to_block b l) (reverts b l t) = reverts b' l t.
Proof.
  intros Hord Hb. unfold reverts. rewrite Hord at 3. unfold after_block at 3. rewrite List.filter_app, rev_app_distr, foldl_app.
  rewrite (filter_every _ (after_block b l)); [done|]. intros r Hr. apply filter_in in Hr as [_ Hr]. apply Z.ltb_lt in Hr. apply Z.ltb_lt. lia.
Qed.

Lemma back_keeps irr s snap b : irr <= b -> rewind_inv irr s snap -> rewind_inv irr (context_back_from_fork b s) snap.
Proof.
  intros Hb Hinv. unfold context_back_from_fork. destruct (Z.ltb_spec b (cx_current_block_num s)) as [Hlt|Hge]; [|done].
  destruct Hinv as [Hfl Hirr Hbl Hord Hrows Hsr Hsn]. split; cbn; try done.
  - intros r Hr. apply filter_in in Hr as [_ Hr]. apply negb_true_iff, Z.ltb_ge in Hr. done.
  - intros b'. by apply filter_ordered.
  - intros id. rewrite Hsn by lia. apply Hsr. lia.
  - intros b' id Hb'. apply Hsr. lia.
  - intros b' Hb'. rewrite <- (Hsn b') by lia. apply reverts_twice; [done|lia].
Qed.

Lemma irreversible_keeps irr s snap b :
  irr <= b <= cx_current_block_num s -> rewind_inv irr s snap -> rewind_inv b (remove_obsolete_operations b s) snap.
Proof.
  intros Hb [Hfl Hirr Hbl Hord Hrows Hsr Hsn]. split; cbn; try done; [lia| | | |].
  - intros r Hr. apply filter_in in Hr as [Hr _]. auto.
  - intros b'. by apply filter_ordered.
  - intros b' id Hb'. apply Hsr. lia.
  - intros b' Hb'. rewrite <- (Hsn b') by lia. unfold reverts, after_block. rewrite filter_swap, filter_every; [done|].
    intros r Hr. apply filter_in in Hr as [_ Hr]. apply Z.ltb_lt in Hr. apply negb_true_iff, Z.leb_gt. lia.
Qed.

Lemma app_keeps x y : rtc app_step x y -> rewind_inv x.1.1 x.1.2 x.2 -> rewind_inv y.1.1 y.1.2 y.2.
Proof.
  induction 1 as [|x y z Hxy _ IH]; [done|]. intros Hinv. apply IH. destruct Hxy; cbn in *;
    eauto using statement_keeps, next_keeps, back_keeps, irreversible_keeps.
Qed.

Lemma registered_inv b t seq :
  (forall id, is_Some (t !! id) -> id <= seq) -> rewind_inv b (registered_at b t seq) (fun _ => t).
Proof. intros H. split; cbn; try done; [intros r Hr; by apply elem_of_nil in Hr|auto]. Qed.

(** C4: Registered tables follow the chain of blocks.  Register a table when the context is at block
    [b0], then let the application insert, delete, update and truncate in any order, go to the
    next block, go back from forks and have blocks become irreversible; for any block between
    the last irreversible one and the current one, going back to it gives the very rows, with
    their identifiers, that the table had when that block was left, and the context stands at
    that block with its triggers working again. *)
Theorem rewind_restores_the_table b0 t seq irr s snap b :
  (forall id, is_Some (t !! id) -> id <= seq) ->
  rtc app_step (b0, registered_at b0 t seq, fun _ => t) (irr, s, snap) -> irr <= b < cx_current_block_num s ->
  let s' := context_back_from_fork b s in
  rg_table s' = snap b /\ cx_current_block_num s' = b /\ cx_back_from_fork s' = false.
Proof.
  intros Ht Hrun Hb s'. pose proof (app_keeps _ _ Hrun (registered_inv _ _ _ Ht)) as Hinv. cbn in Hinv.
  subst s'. unfold context_back_from_fork. destruct (Z.ltb_spec b (cx_current_block_num s)); [|lia]. cbn.
  split_and!; [|done|done]. apply Hinv. lia.
Qed.

End rewind.
Arguments shadow_row : clear implicits.
Arguments registered : clear implicits.
Arguments statement : clear implicits.

(** ** A run with a fork *)

Module RewindExamples.

(** Two rows in block 5; in block 6 one is updated, one deleted and one inserted. *)
Definition start : registered Z := registered_at 5 {[ 1 := 10; 2 := 20 ]} 2.

Definition ran (st : statement Z) (s : registered Z) : registered Z := default s (run_statement st s).

Definition forked : registered Z :=
  ran (Insert [30]) (ran (Delete [2; 7]) (ran (Update [(1, 11)]) (context_next_block start))).

Lemma ran_step irr s snap st :
  match run_statement st s with Some _ => true | None => false end = true ->
  app_step (irr, s, snap) (irr, ran st s, with_snapshot (cx_current_block_num s) (rg_table (ran st s)) snap).
Proof. intros H. apply (AppStatement _ _ _ st). unfold ran. by destruct (run_statement st s). Qed.

Example forked_rows : map_to_list (rg_table forked) = [(3, 30); (1, 11)].
Proof. vm_compute. reflexivity. Qed.

Example forked_back : map_to_list (rg_table (context_back_from_fork 5 forked)) = map_to_list (rg_table start).
Proof. vm_compute. reflexivity. Qed.

Lemma rewind_restores_the_table_witness :
  exists snap, 5 <= 5 < cx_current_block_num forked /\ rg_table (context_back_from_fork 5 forked) = snap 5 /\ snap 5 = rg_table start.
Proof.
  assert (exists snap, rtc app_step (5, start, fun _ => rg_table start) (5, forked, snap) /\ snap 5 = rg_table start) as (snap & Hrun & H5).
  { eexists. split.
    - eapply rtc_l; [apply AppNext|]. eapply rtc_l; [apply (ran_step _ _ _ (Update [(1, 11)])); vm_compute; reflexivity|].
      eapply rtc_l; [apply (ran_step _ _ _ (Delete [2; 7])); vm_compute; reflexivity|].
      eapply rtc_l; [apply (ran_step _ _ _ (Insert [30])); vm_compute; reflexivity|]. apply rtc_refl.
    - vm_compute. reflexivity. }
  exists snap. split; [vm_compute; split; congruence|]. split; [|exact H5].
  destruct (rewind_restores_the_table 5 {[ 1 := 10; 2 := 20 ]} 2 5 forked snap 5) as [H _]; [|exact Hrun| |exact H].
  - intros id Hid. apply lookup_insert_is_Some in Hid as [<-|[_ [r Hid]]]; [lia|].
    apply lookup_singleton_Some in Hid as [<- _]. lia.
  - vm_compute. split; congruence.
Defined.

End RewindExamples.
